(* ===== verification/_CoqProject ===== *)
-Q . S2P
Prelude.v
Page.v
PhysMem.v
AllocIface.v
PageAlloc.v
PageTable.v
PageMapper.v
OffsetMap.v
Sched.v
Lock.v
Switch.v
Ipc.v
Syscall.v
UserLib.v
Keyboard.v
Ps2.v
Text.v
Fat.v
Slab.v
UserHeap.v
Allocators.v
KernelHeap.v
BootMaps.v
Pci.v
Net.v
Loader.v
Boot.v
Apic.v
Traps.v
Cores.v
Terminal.v
Ahci.v
Shell.v
Services.v
Daemons.v
Drives.v
Console.v
Programs.v
Spawn.v
Startup.v
Init.v
Irqs.v
Uefi.v
Builder.v
