(* ===== verification/Prelude.v ===== *)
(** * Fioxa: a verification library for the kernel and its services

    Fioxa is a small operating system for x86_64: a boot loader, a kernel with paging,
    a scheduler and capability-style kernel objects, and user-space services and
    drivers that talk over channels.  This library models its own logic in Rocq,
    function by function, and proves what makes it correct.

    ** The parts and the files

    Memory:

    - [Prelude] (this file): outcomes of a Rust computation ([Done], [Panic],
      [OutOfFuel]), machine integers with the overflow checks of cargo's dev
      profile, the library's tactics and hints.
    - [Page], [PhysMem]: [paging/page.rs], [paging/page_directory.rs] and the
      helpers of [paging/mod.rs]; pages, ranges and their decomposition into
      chunks, page-directory entries as words, physical memory as the views the
      kernel has of it.
    - [AllocIface], [PageAlloc]: the trait [PageAllocator] as a class of operations
      with its laws, and [paging/page_allocator.rs], the buddy allocator with its
      32-bit reserve, which discharges them.
    - [PageTable]: [paging/page_table.rs], the mapper over page tables of every
      level, specified by the walk the MMU does, with the permissions that all its levels
      grant together.
    - [PageMapper]: [paging/page_mapper.rs], address spaces: lazily filled
      mappings with shared pages, page faults, searching and freeing ranges.
    - [OffsetMap], [BootMaps], [Startup]: [paging/offset_map.rs] and [memory.rs], the
      maps set up at boot; that they map what they should; and [main_stage1] of
      [main.rs], which puts them together.
    - [Slab], [KernelHeap], [UserHeap]: the slab allocator of
      [allocator/slab_allocator.rs] and of the crate [userspace_slaballoc], verified
      against the class [Slab.PageSource] of what it gets pages from, and its two
      sources of pages, the kernel's heap map and the [mmap] system call.
    - [Allocators]: the linked-list, fixed-size-block and bump allocators.

    Threads, objects, system calls:

    - [Sched]: threads and the run queue of [scheduling/taskmanager.rs] and
      [scheduling/process.rs], and the loop of every core as a step relation.
    - [Lock]: [mutex.rs] and the counter of held interrupts, as a step relation over
      cores.
    - [Switch]: [assembly/] and the assembly of the context switch and of the
      system-call entry with its clobber lists, on a model of the registers and the stack.
    - [Ipc]: the kernel objects of [object.rs], [port.rs], [channel.rs],
      [interrupts/mod.rs], [time.rs] and [scheduling/process.rs].
    - [Syscall], [UserLib]: [syscall/mod.rs], dispatch and every handler, and the
      client library [kernel_userspace/src/] of the calls, over the same state.
    - [Loader], [Spawn], [Init]: [elf.rs] and [Process::new], [spawn_process], and the
      end of start-up: the nine first processes, and the panic handler.
    - [Apic], [Traps], [Irqs]: the interrupt tables and controllers ([ioapic.rs],
      [lapic.rs], [interrupts/], [time/hpet.rs]), the handlers behind the vectors, and
      the service that gives drivers their interrupts.
    - [Cores]: [gdt.rs], [cpu_localstorage.rs] and [boot_aps.rs], the storage of each
      core and the start of the other cores.

    Devices, files, programs:

    - [Keyboard], [Ps2]: the [input] and [ps2] crates.
    - [Text], [Fat]: what the programs use of [core::str], and [fs/].
    - [Pci]: [pci/], configuration space over ports and over memory, and enumeration.
    - [Net]: [net/], the crate [amd_pcnet]: ARP over Ethernet and the rings of the
      PCnet card.
    - [Ahci], [Drives]: [driver/disk/], reading sectors by DMA through the page tables,
      and the registry of disks of [fs/mod.rs].
    - [Terminal], [Console]: [terminal.rs], [screen/] and [logging.rs], the text
      screen; the serial port ([serial.rs]) and standard output.
    - [Services], [Daemons]: the name server of [object.rs] and the loop of every
      other service ([kernel_userspace/src/service.rs]); the services themselves: the
      keyboard and mouse, files, network card, network, and program loader.
    - [Shell], [Programs]: the crate [terminal] with the client side of the file
      service, and the programs [calc], [test_elf] and [net].

    Before the kernel:

    - [Boot], [Uefi]: the boot loader, its page tables and its loading of the kernel,
      and its dealings with the firmware.
    - [Builder]: the program that builds the image.

    Kernel paths are under [src/kernel/src/].

    Interfaces: [AllocIface.PageAllocatorSpec] between the page tables and the
    allocator, discharged by the buddy allocator and by the firmware's pages;
    [Slab.PageSourceSpec] between the heap and its pages, discharged by [KernelHeap] and
    [UserHeap]; the heap below the fixed-size blocks, discharged by the bump allocator;
    [Pci]'s bus class between the enumeration and the two ways to reach configuration
    space; [Daemons.Postcard] for the serialisation crate; [Boot.BootServicesSpec] and
    [Uefi.UefiSpec] for the firmware; [Ahci.HbaSpec], [Console]'s class for the serial
    chip and the parameters of [Net.Pcnet] and [Ps2] for what the hardware promises.  A
    parameter stands for hardware or for a crate that is not in the repository, and every
    property with one has a witness with a concrete instance.

    ** How state and operations correspond

    A struct is a [Record] with its fields, an enum an [Inductive] with its
    variants, a function or method a [Definition] or [Fixpoint] of the same name
    where the name is free.  [&mut self] is state passing; where errors are
    threaded with [?] or the kernel's [kunwrap!] there is a monad of its own
    ([Ps2.io], [Syscall.sys], [UserLib.ulib], [Builder.io]).  [Arc]s are numbers of a
    table; strong counts are kept where dropping the last reference has an effect
    (channel ends, processes, page mappings).  What a lock protects changes in one step; where the
    source releases a lock between two changes the model has two steps ([Sched.step]),
    and that the lock itself excludes is proved in [Lock].  A call that blocks returns
    what it waits for, and its continuation is a definition ([Syscall.resume]).
    Services see their channels as a [Services.View]: what has arrived, what they have
    sent and how much of it is unread; a write to a closed or full channel fails as in
    [Ipc] ([Services.accepts]).  Memory of a process is a view of its own; a page that two
    processes map is one page, and a byte stored in it appears in both ([Loader.alias]).

    References the code is compared with are stated without it: the walk of the MMU
    ([PageTable.translate]), the fields of a configuration address as a host bridge
    decodes them ([Pci.cf_decode]), the published table of scan codes
    ([Keyboard.scancode_of]), the bytes of an ELF header ([Loader.elf_header_ok]), the
    command table at the address its header names ([Ahci.table_at]), the clusters of
    a chain, FIFO queues and finite maps.

    Panics are values: a theorem with conclusion [... = Done ...] says that no
    assertion, [unwrap], index or arithmetic overflow fails on the way.

    ** What the theorems show

    - Memory: the allocator hands out each frame once and takes it back; mapping
      and unmapping change exactly one translation with its permissions, conserve frames
      and leave no empty table on the way to an unmapped page; page faults are resolved
      by the mapping that contains the address or end the thread; the list of mappings stays ordered and disjoint; the tables the kernel switches to at boot
      map all of memory, the kernel and the screen and nothing else.
    - Heaps: blocks handed out are aligned, disjoint and inside the allocator's pages,
      for the kernel and for programs.
    - Scheduling: the intrusive queue is a FIFO, and in every reachable state of
      any number of cores a runnable thread is in exactly one place; locks exclude;
      a switch out and in, and a system call, give back every register the assembly does
      not declare overwritten; every
      core gets a stack and storage of its own, and the boot processor goes on when all
      cores have arrived.
    - Communication: signals lose no waiter and wake no other, channels are bounded FIFOs,
      dropping values terminates, processes with their tables included, a message
      sent by one process arrives in the other with its handles, and no call but GetType works on a handle the caller does not hold.
    - Interrupts: a line reaches the handles registered for it, and a driver gets its
      handle through the service.
    - Input and files: the scan-code decoder reads the published codes of the keys, mouse
      packets are decoded for every protocol, reading a file returns the bytes of
      its clusters, and a disk read puts the sectors into the bytes of the caller's
      buffer and nowhere else, on disks of up to 8 GiB.
    - Programs: a loaded segment holds the bytes of the file at its addresses with its
      permissions; a malformed file is rejected before anything has changed; the
      calculator evaluates from left to right; the shell's line is what was typed.
    - Screen: after any interleaving of text, log lines and mouse moves the frame buffer
      shows the grid, on a screen with no fewer columns than rows; text a program prints is
      shown as long as no character is cut between two messages and the service keeps up.
    - Services: the name server is a table that answers once every request that fits its
      buffers; a service never loses a customer; the file service answers as the calls do;
      keys reach every listener whose channel takes them, and the others are given up; an
      ARP question goes out on the wire.
    - Devices: accesses to configuration space of any width, enumeration of every
      function behind every bridge, ARP resolution, the PCnet rings.
    - Boot loader: the kernel's image is in memory as the headers it visits say; the file is read
      whole and no pool memory is kept but what the kernel needs.
    - A number of theorems record behaviour that is not what the code means to do; the
      comments at them say so.

    ** Fuel and bounds

    Loops that are not structural run on fuel, and the theorems give the fuel the
    definitions use: the buddy allocator's loops are bounded by [MAX_ORDER] and the
    number of pages, bisection by the length of the vector, dropping values by the
    number of live channel ends, reading a file by its number of sectors, the free list
    of the linked-list allocator by its length, a stack trace by its frames, splitting
    text into chunks by its length.  [read_directory] follows a chain that can be a cycle
    on a damaged disk; its fuel is a parameter.  Polling a device runs on a fuel above
    the bound its specification gives ([Ahci.HbaSpec] and the class of the serial chip);
    the name server's loop takes one step more than there are messages.  A service that
    would have to wait, and an empty [loop] (after an error of the firmware), are
    [OutOfFuel]: theorems exclude it where the code returns.

    ** Not modelled

    The search of the ACPI tables (a crate), the TLB, the order of the initialisation
    calls that only call what is modelled elsewhere, [Debug] and [Display] output that
    nothing reads back, and the commented-out code.  In the shell, waiting for a program
    that was started is an event.  Memory is seen through typed, total views: undefined
    behaviour of [unsafe] code and page faults on user pointers inside the kernel are
    outside the model.  That a disk read of the file system fails is not modelled: the
    source drops its result.  Deadlock is not modelled.  Among sleepers with equal deadlines
    the order of the binary heap is not specified and not relied on. *)
From stdpp Require Export base list gmap strings functions sorting.
From Stdlib Require Export ZArith Lia.

#[global] Open Scope Z_scope.

(** ** Outcomes of a Rust computation

    A function of the source either returns, panics, or, for the loops that are
    modelled with fuel, runs out of fuel.  [Panic] is a value of the model: the
    theorems say where it can and where it cannot occur. *)
Inductive panic_reason :=
  | POverflow      (* arithmetic overflow, checked in the dev profile *)
  | PAssert        (* assert!, assert_eq! *)
  | PUnwrap        (* unwrap, expect *)
  | PIndex         (* slice or array index out of range *)
  | PLog0          (* ilog2 of zero *)
  | PDivZero       (* division by zero *)
  | PUnreachable   (* unreachable!, panic!, todo! *).

Inductive outcome (A : Type) :=
  | Done (a : A)
  | Panic (r : panic_reason)
  | OutOfFuel.
Arguments Done {A} a.
Arguments Panic {A} r.
Arguments OutOfFuel {A}.

#[export] Instance outcome_ret : MRet outcome := fun A a => Done a.
#[export] Instance outcome_bind : MBind outcome := fun A B f m =>
  match m with Done a => f a | Panic r => Panic r | OutOfFuel => OutOfFuel end.

#[export] Instance panic_reason_eq_dec : EqDecision panic_reason.
Proof. solve_decision. Defined.

(** [Result<A, E>]. *)
Inductive result (A E : Type) :=
  | Ok (a : A)
  | Err (e : E).
Arguments Ok {A E} a.
Arguments Err {A E} e.

(** [assert!(b)]. *)
Definition assert_ (b : bool) : outcome unit := if b then Done tt else Panic PAssert.

(** [Option::unwrap]/[Option::expect]. *)
Definition unwrap {A} (o : option A) : outcome A :=
  match o with Some a => Done a | None => Panic PUnwrap end.

(** Slice indexing: out of range panics. *)
Definition index {A} (l : list A) (i : nat) : outcome A :=
  match l !! i with Some a => Done a | None => Panic PIndex end.

Definition index_set {A} (l : list A) (i : nat) (a : A) : outcome (list A) :=
  match l !! i with Some _ => Done (<[i := a]> l) | None => Panic PIndex end.

(** ** Machine integers

    [u64] and [usize] are 64 bits wide (the target is x86_64); a value is a [Z]
    in [0, 2^64).  The default build is cargo's dev profile, in which [+], [-]
    and [*] panic on overflow: the [_u64] operations below do. *)
Definition u8_lim : Z := 2 ^ 8.
Definition u16_lim : Z := 2 ^ 16.
Definition u32_lim : Z := 2 ^ 32.
Definition u64_lim : Z := 2 ^ 64.

Definition chk (lim v : Z) : outcome Z :=
  if (0 <=? v) && (v <? lim) then Done v else Panic POverflow.

Definition add_u64 (a b : Z) : outcome Z := chk u64_lim (a + b).
Definition sub_u64 (a b : Z) : outcome Z := chk u64_lim (a - b).
Definition mul_u64 (a b : Z) : outcome Z := chk u64_lim (a * b).
Definition add_u32 (a b : Z) : outcome Z := chk u32_lim (a + b).
Definition sub_u32 (a b : Z) : outcome Z := chk u32_lim (a - b).
Definition mul_u32 (a b : Z) : outcome Z := chk u32_lim (a * b).
Definition add_u16 (a b : Z) : outcome Z := chk u16_lim (a + b).
Definition sub_u16 (a b : Z) : outcome Z := chk u16_lim (a - b).
Definition mul_u16 (a b : Z) : outcome Z := chk u16_lim (a * b).
Definition div_ (a b : Z) : outcome Z := if b =? 0 then Panic PDivZero else Done (a / b).
Definition rem_ (a b : Z) : outcome Z := if b =? 0 then Panic PDivZero else Done (a mod b).

(** [!x] on a 64-bit word. *)
Definition not_u64 (x : Z) : Z := u64_lim - 1 - x.

(** [usize::ilog2]: panics on zero. *)
Definition ilog2 (x : Z) : outcome Z := if 0 <? x then Done (Z.log2 x) else Panic PLog0.

(** ** Lemmas on outcomes *)
Section outcome.
Context {A B : Type}.

Lemma bind_Done (m : outcome A) (f : A → outcome B) b :
  (m ≫= f) = Done b ↔ ∃ a, m = Done a ∧ f a = Done b.
Proof. destruct m; cbn; naive_solver. Qed.

Lemma bind_ret (a : A) (f : A → outcome B) : (Done a ≫= f) = f a.
Proof. reflexivity. Qed.
End outcome.

Lemma assert_Done b u : assert_ b = Done u ↔ b = true.
Proof. destruct u, b; cbn; naive_solver. Qed.

Lemma unwrap_Done {A} (o : option A) a : unwrap o = Done a ↔ o = Some a.
Proof. destruct o; cbn; naive_solver. Qed.

Lemma chk_Done lim v w : chk lim v = Done w ↔ w = v ∧ 0 ≤ v < lim.
Proof. unfold chk. destruct (Z.leb_spec 0 v), (Z.ltb_spec v lim); cbn; naive_solver lia. Qed.

Lemma chk_ok lim v : 0 ≤ v < lim → chk lim v = Done v.
Proof. intros. by apply chk_Done. Qed.

Lemma chk_over lim v : ¬ (0 ≤ v < lim) → chk lim v = Panic POverflow.
Proof. unfold chk. destruct (Z.leb_spec 0 v), (Z.ltb_spec v lim); cbn; naive_solver lia. Qed.

Lemma ilog2_ok x : 0 < x → ilog2 x = Done (Z.log2 x).
Proof. intros. unfold ilog2. by rewrite (proj2 (Z.ltb_lt 0 x)). Qed.

Lemma index_Done {A} (l : list A) i a : index l i = Done a ↔ l !! i = Some a.
Proof. unfold index. destruct (l !! i); naive_solver. Qed.

Lemma index_set_ok {A} (l : list A) i a :
  (i < length l)%nat → index_set l i a = Done (<[i := a]> l).
Proof.
  intros [x Hx]%lookup_lt_is_Some_2. unfold index_set. by rewrite Hx.
Qed.

(** ** Lists *)
Lemma elem_of_concat_fmap {A B} (f : A → list B) l x :
  x ∈ concat (f <$> l) ↔ ∃ i, i ∈ l ∧ x ∈ f i.
Proof.
  induction l as [|i l IH]; cbn; [set_solver|].
  rewrite elem_of_app, IH. set_solver.
Qed.

(** ** Bit masks as division and remainder *)
Lemma land_ones_mod a k : 0 ≤ k → Z.land a (2 ^ k - 1) = a mod 2 ^ k.
Proof. intros. rewrite <- Z.land_ones by lia. f_equal. rewrite Z.ones_equiv. lia. Qed.

(** [a & !(2^k - 1)] rounds [a] down to a multiple of [2^k]. *)
Lemma land_not_ones a k :
  0 ≤ k ≤ 64 → 0 ≤ a < u64_lim → Z.land a (not_u64 (2 ^ k - 1)) = a - a mod 2 ^ k.
Proof.
  intros Hk Ha.
  assert (Hnot : not_u64 (2 ^ k - 1) = Z.ldiff (Z.ones 64) (Z.ones k)).
  { rewrite Z.ldiff_ones_r by lia. unfold not_u64, u64_lim.
    rewrite Z.shiftr_div_pow2, Z.shiftl_mul_pow2, Z.ones_equiv by lia.
    replace (2 ^ 64) with (2 ^ (64 - k) * 2 ^ k) by (rewrite <- Z.pow_add_r; f_equal; lia).
    assert (0 < 2 ^ k) by lia.
    replace (Z.pred (2 ^ (64 - k) * 2 ^ k)) with ((2 ^ (64 - k) - 1) * 2 ^ k + (2 ^ k - 1)) by lia.
    rewrite Z.div_add_l, (Z.div_small (2 ^ k - 1)) by lia. lia. }
  assert (Hl : Z.land a (not_u64 (2 ^ k - 1)) = Z.ldiff a (Z.ones k)).
  { rewrite Hnot. apply Z.bits_inj'. intros n Hn.
    rewrite Z.land_spec, !Z.ldiff_spec.
    destruct (decide (n < 64)).
    - rewrite Z.ones_spec_low by lia. done.
    - rewrite Z.ones_spec_high by lia. cbn.
      replace a with (a mod 2 ^ 64) by (apply Z.mod_small; done).
      by rewrite Z.mod_pow2_bits_high by lia. }
  rewrite Hl, Z.ldiff_ones_r, Z.shiftr_div_pow2, Z.shiftl_mul_pow2 by lia.
  pose proof (Z.div_mod a (2 ^ k)). lia.
Qed.

(** Or-ing a field into the zero bits below a multiple. *)
Lemma lor_low a b k : 0 ≤ k → 0 ≤ b < 2 ^ k → Z.lor (a * 2 ^ k) b = a * 2 ^ k + b.
Proof.
  intros Hk Hb.
  assert (Hland : Z.land (a * 2 ^ k) b = 0).
  { apply Z.bits_inj'. intros n Hn. rewrite Z.land_spec, Z.bits_0.
    destruct (decide (n < k)); [by rewrite Z.mul_pow2_bits_low by lia|].
    destruct (decide (b = 0)) as [->|]; [by rewrite Z.testbit_0_l, andb_false_r|].
    rewrite (Z.bits_above_log2 b n), andb_false_r; [done|lia|].
    assert (Z.log2 b < k); [apply Z.log2_lt_pow2; lia|lia]. }
  by rewrite <- Z.lxor_lor, <- Z.add_nocarry_lxor.
Qed.

(** ** Little-endian numbers *)
Fixpoint le_bytes (n : nat) (v : Z) : list Z :=
  match n with O => [] | S n => v mod 256 :: le_bytes n (v / 256) end.

Fixpoint of_le_bytes (l : list Z) : Z :=
  match l with [] => 0 | b :: l => b + 256 * of_le_bytes l end.

(** The number of [n] bytes at offset [o]. *)
Definition field (l : list Z) (o n : nat) : Z := of_le_bytes (take n (drop o l)).

Lemma length_le_bytes n : ∀ v, length (le_bytes n v) = n.
Proof. induction n as [|n IH]; intros v; cbn; [done|]. by rewrite IH. Qed.

Lemma le_bytes_range n : ∀ v, Forall (λ b, 0 ≤ b < 256) (le_bytes n v).
Proof.
  induction n as [|n IH]; intros v; cbn; constructor; [apply Z.mod_pos_bound; lia|apply IH].
Qed.

Lemma of_le_le_bytes n : ∀ v, 0 ≤ v < 2 ^ (8 * Z.of_nat n) → of_le_bytes (le_bytes n v) = v.
Proof.
  induction n as [|n IH]; intros v Hv; [cbn in *; lia|].
  cbn [le_bytes of_le_bytes]. rewrite IH; [pose proof (Z.div_mod v 256); lia|].
  replace (8 * Z.of_nat (S n)) with (8 * Z.of_nat n + 8) in Hv by lia. rewrite Z.pow_add_r in Hv by lia.
  split; [apply Z.div_pos; lia|]. apply Z.div_lt_upper_bound; lia.
Qed.

Lemma of_le_range l : Forall (λ b, 0 ≤ b < 256) l → 0 ≤ of_le_bytes l < 2 ^ (8 * Z.of_nat (length l)).
Proof.
  induction 1 as [|b l Hb Hl IH]; [done|]. cbn [of_le_bytes length].
  replace (8 * Z.of_nat (S (length l))) with (8 * Z.of_nat (length l) + 8) by lia. rewrite Z.pow_add_r by lia. lia.
Qed.

Lemma le_bytes_of_le l : Forall (λ b, 0 ≤ b < 256) l → le_bytes (length l) (of_le_bytes l) = l.
Proof.
  induction 1 as [|b l Hb Hl IH]; [done|]. cbn [of_le_bytes length le_bytes]. f_equal.
  - by rewrite Z.mul_comm, Z.mod_add, Z.mod_small by lia.
  - by rewrite Z.mul_comm, Z.div_add, Z.div_small, Z.add_0_l, IH by lia.
Qed.

(** The field written at its offset. *)
Lemma field_app l1 l2 v o n :
  length l1 = o → 0 ≤ v < 2 ^ (8 * Z.of_nat n) → field (l1 ++ le_bytes n v ++ l2) o n = v.
Proof.
  intros <- Hv. unfold field. rewrite drop_app_length, take_app_length' by by rewrite length_le_bytes.
  by apply of_le_le_bytes.
Qed.

(** ** Bytes stored in a memory *)
Fixpoint store_bytes (m : Z → Z) (a : Z) (bs : list Z) : Z → Z :=
  match bs with [] => m | b :: bs => store_bytes (<[a := b]> m) (a + 1) bs end.

Lemma store_bytes_lookup bs : ∀ m a x,
  store_bytes m a bs x = if decide (a ≤ x < a + Z.of_nat (length bs)) then bs !!! Z.to_nat (x - a) else m x.
Proof.
  induction bs as [|b bs IH]; intros m a x; cbn [store_bytes length].
  - by rewrite decide_False by (cbn; lia).
  - rewrite IH. destruct (decide (x = a)) as [->|Hne].
    + rewrite decide_False, fn_lookup_insert, decide_True by lia. by replace (Z.to_nat (a - a)) with O by lia.
    + destruct (decide (a + 1 ≤ x < a + 1 + Z.of_nat (length bs))).
      * rewrite decide_True by lia. by replace (Z.to_nat (x - a)) with (S (Z.to_nat (x - (a + 1)))) by lia.
      * rewrite decide_False by lia. by apply fn_lookup_insert_ne.
Qed.

(** ** Automation *)
Create HintDb fioxa.
#[export] Hint Resolve chk_ok : fioxa.

(** Case analysis on the boolean tests of the source. *)
Ltac bool_cases :=
  repeat match goal with
  | |- context [?a =? ?b] => destruct (Z.eqb_spec a b)
  | |- context [?a <? ?b] => destruct (Z.ltb_spec a b)
  | |- context [?a <=? ?b] => destruct (Z.leb_spec a b)
  end.

(** Split the conjunctions of the goal without unfolding definitions. *)
Ltac splits := repeat match goal with |- _ ∧ _ => split end.

(** Turn a hypothesis [m ≫= f = Done b] into its steps. *)
Ltac inv_outcome :=
  repeat match goal with
  | H : (_ ≫= _) = Done _ |- _ => apply bind_Done in H; destruct H as (? & ? & ?)
  | H : assert_ _ = Done _ |- _ => apply assert_Done in H
  | H : unwrap _ = Done _ |- _ => apply unwrap_Done in H
  | H : chk _ _ = Done _ |- _ => apply chk_Done in H; destruct H as [? ?]
  | H : Done _ = Done _ |- _ => injection H as H
  | H : Panic _ = Done _ |- _ => discriminate H
  | H : OutOfFuel = Done _ |- _ => discriminate H
  end; simplify_eq.

(** Evaluate the machine arithmetic of the goal where the bounds are known. *)
Ltac arith_ok :=
  unfold add_u64, sub_u64, mul_u64, add_u32, sub_u32, mul_u32, add_u16, sub_u16, mul_u16;
  repeat (rewrite chk_ok by (unfold u64_lim, u32_lim, u16_lim in *; lia); cbn [mbind outcome_bind]).

(** The same, leaving the binds that are not yet reached folded. *)
Ltac arith_keep :=
  unfold add_u64, sub_u64, mul_u64, add_u32, sub_u32, mul_u32, add_u16, sub_u16, mul_u16;
  repeat (match goal with
          | |- context [chk ?l ?v] =>
              rewrite (chk_ok l v) by (unfold u64_lim, u32_lim, u16_lim in *; lia)
          end; rewrite ?bind_ret; cbv beta).
