(* ===== verification/Page.v ===== *)
(** * Pages, page ranges and page-directory entries

    [kernel/src/paging/page.rs], [kernel/src/paging/page_directory.rs] and the
    address constants of [kernel/src/paging/mod.rs]. *)
From S2P Require Import Prelude.

(** ** Page sizes *)
Inductive PageSize := Size4KB | Size2MB | Size1GB.

Definition LARGE_PAGE (S : PageSize) : bool :=
  match S with Size4KB => false | _ => true end.

Definition PAGE_SIZE (S : PageSize) : Z :=
  match S with Size4KB => 0x1000 | Size2MB => 0x200000 | Size1GB => 0x40000000 end.

(** The number of address bits a page of the size spans. *)
Definition page_bits (S : PageSize) : Z :=
  match S with Size4KB => 12 | Size2MB => 21 | Size1GB => 30 end.

(** ** The virtual memory layout: [MemoryLoc64bit48bits] *)
Definition EndUserMem : Z := 0x0000FFFFFFFFFFFF.
Definition GlobalMapping : Z := 0xffffA00000000000.
Definition PerCpuMem : Z := 0xffffAC0000000000.
Definition PhysMapOffset : Z := 0xffffE00000000000.
Definition EndPhysMapOffset : Z := 0xffffEFFFFFFFFFFF.
Definition KernelHeap : Z := 0xffffFF0000000000.
Definition KernelStart : Z := 0xffffFF8000000000.

(** [MemoryMappingFlags], a bit set over [u8]. *)
Record MemoryMappingFlags := mkFlags { WRITEABLE : bool; USERSPACE : bool }.

(** [MemoryMappingFlags::all()]. *)
Definition flags_all : MemoryMappingFlags := mkFlags true true.
Definition flags_writeable : MemoryMappingFlags := mkFlags true false.

(** [virt_addr_for_phys] and [phys_addr_for_virt]; [off] is [MEM_OFFSET]. *)
Definition virt_addr_for_phys (off phys : Z) : outcome Z :=
  if phys + off <? u64_lim then Done (phys + off) else Panic PUnwrap.

Definition phys_addr_for_virt (off virt : Z) : outcome Z :=
  if off <=? virt then Done (virt - off) else Panic PUnwrap.

(** ** [Page<S>] *)
Record Page (S : PageSize) := mkPage { get_address : Z }.
Arguments mkPage {S} get_address.
Arguments get_address {S} p.

Definition Page_new (S : PageSize) (address : Z) : outcome (Page S) :=
  _ ← assert_ (Z.land address (PAGE_SIZE S - 1) =? 0);
  let lvl4 := Z.land (Z.shiftr address (12 + 9 + 9 + 9)) 0x1ff in
  let sign := Z.shiftr address (12 + 9 + 9 + 9 + 9) in
  _ ← assert_ (((sign =? 0) && (lvl4 <=? 255)) || ((sign =? 0xFFFF) && (255 <? lvl4)));
  if address =? 0 then Panic PUnwrap else Done (mkPage address).

Definition Page_containing (S : PageSize) (address : Z) : outcome (Page S) :=
  Page_new S (Z.land address (not_u64 (PAGE_SIZE S - 1))).

(** ** [PageRange<S>], an iterator *)
Record PageRange (S : PageSize) := mkRange { pr_base : Z; pr_count : Z }.
Arguments mkRange {S} pr_base pr_count.
Arguments pr_base {S} p.
Arguments pr_count {S} p.

Definition PageRange_new (S : PageSize) (base count : Z) : PageRange S := mkRange base count.
Definition PageRange_empty (S : PageSize) : PageRange S := PageRange_new S 0 0.

Definition PageRange_next {S} (r : PageRange S) : outcome (option (Page S) * PageRange S) :=
  if 0 <? pr_count r then
    res ← Page_new S (pr_base r);
    count ← sub_u64 (pr_count r) 1;
    base ← add_u64 (pr_base r) (PAGE_SIZE S);
    Done (Some res, mkRange base count)
  else Done (None, r).

Definition PageRange_len {S} (r : PageRange S) : Z := pr_count r.

(** The [for page in range] loop: collect what [next] yields. *)
Fixpoint PageRange_collect {S} (fuel : nat) (r : PageRange S) : outcome (list (Page S)) :=
  match fuel with
  | O => OutOfFuel
  | Datatypes.S fuel =>
      '(o, r') ← PageRange_next r;
      match o with
      | None => Done []
      | Some p => ps ← PageRange_collect fuel r'; Done (p :: ps)
      end
  end.

(** ** [get_chunked_page_range] *)
Definition chunked_ranges : Type :=
  PageRange Size4KB * PageRange Size2MB * PageRange Size1GB * PageRange Size2MB * PageRange Size4KB.

Definition get_chunked_page_range (start end_ : Z) : outcome chunked_ranges :=
  _ ← assert_ (Z.land start 0xFFF =? 0);
  _ ← assert_ (Z.land end_ 0xFFF =? 0);
  (* Normalize 4kb chunks *)
  '(s4kb, start) ←
    (if 0 <? Z.land start 0x1fffff then
       up ← add_u64 (Z.land start (not_u64 0x1fffff)) 0x200000;
       let new_start := Z.min up end_ in
       d ← sub_u64 new_start start;
       Done (PageRange_new Size4KB start (d / PAGE_SIZE Size4KB), new_start)
     else Done (PageRange_empty Size4KB, start));
  '(e4kb, end_) ←
    (if (0 <? Z.land end_ 0x1fffff) && negb (start =? end_) then
       let new_end := Z.max (Z.land end_ (not_u64 0x1fffff)) start in
       d ← sub_u64 end_ new_end;
       Done (PageRange_new Size4KB new_end (d / PAGE_SIZE Size4KB), new_end)
     else Done (PageRange_empty Size4KB, end_));
  (* Normalize 2mb chunks *)
  '(s2mb, start) ←
    (if (0 <? Z.land start 0x3fffffff) && negb (start =? end_) then
       up ← add_u64 (Z.land start (not_u64 0x3fffffff)) 0x40000000;
       let new_start := Z.min up end_ in
       d ← sub_u64 new_start start;
       Done (PageRange_new Size2MB start (d / PAGE_SIZE Size2MB), new_start)
     else Done (PageRange_empty Size2MB, start));
  '(e2mb, end_) ←
    (if (0 <? Z.land end_ 0x3fffffff) && negb (start =? end_) then
       let new_end := Z.max (Z.land end_ (not_u64 0x3fffffff)) start in
       d ← sub_u64 end_ new_end;
       Done (PageRange_new Size2MB new_end (d / PAGE_SIZE Size2MB), new_end)
     else Done (PageRange_empty Size2MB, end_));
  gb ←
    (if (start <? end_) && negb (start =? end_) then
       d ← sub_u64 end_ start;
       Done (PageRange_new Size1GB start (d / PAGE_SIZE Size1GB))
     else Done (PageRange_empty Size1GB));
  Done (s4kb, s2mb, gb, e2mb, e4kb).

(** ** [PageDirectoryEntry], the [#[bitfield(bits = 64)]] struct *)
Record PageDirectoryEntry := mkPDE {
  present : bool;
  read_write : bool;
  user_super : bool;
  write_through : bool;
  cache_disabled : bool;
  accessed : bool;
  dirty : bool;
  larger_pages : bool;
  global : bool;
  available : Z;          (* B3 *)
  internal_address : Z;   (* B40 *)
}.

Definition pde_zero : PageDirectoryEntry :=
  mkPDE false false false false false false false false false 0 0.

(** The fields in declaration order from the least significant bit; the last
    twelve bits are skipped. *)
Definition pde_to_word (e : PageDirectoryEntry) : Z :=
  Z.b2z (present e) + 2 * Z.b2z (read_write e) + 4 * Z.b2z (user_super e)
  + 8 * Z.b2z (write_through e) + 16 * Z.b2z (cache_disabled e) + 32 * Z.b2z (accessed e)
  + 64 * Z.b2z (dirty e) + 128 * Z.b2z (larger_pages e) + 256 * Z.b2z (global e)
  + 512 * available e + 4096 * internal_address e.

Definition pde_of_word (w : Z) : PageDirectoryEntry :=
  mkPDE (Z.testbit w 0) (Z.testbit w 1) (Z.testbit w 2) (Z.testbit w 3) (Z.testbit w 4)
    (Z.testbit w 5) (Z.testbit w 6) (Z.testbit w 7) (Z.testbit w 8)
    (Z.shiftr w 9 mod 2 ^ 3) (Z.shiftr w 12 mod 2 ^ 40).

Definition pde_get_address (e : PageDirectoryEntry) : Z := Z.shiftl (internal_address e) 12.

(** The generated setter of a [B40] field panics on a wider value. *)
Definition pde_set_address (e : PageDirectoryEntry) (address : Z) : outcome PageDirectoryEntry :=
  let v := Z.shiftr address 12 in
  if v <? 2 ^ 40 then
    Done (mkPDE (present e) (read_write e) (user_super e) (write_through e) (cache_disabled e)
            (accessed e) (dirty e) (larger_pages e) (global e) (available e) v)
  else Panic PUnwrap.

Definition pde_set_flags (e : PageDirectoryEntry) (p lp rw us : bool) : PageDirectoryEntry :=
  mkPDE p rw us (write_through e) (cache_disabled e) (accessed e) (dirty e) lp (global e)
    (available e) (internal_address e).

(** ** Addresses *)

(** A canonical address: bits 47 to 63 are equal. *)
Definition canonical (a : Z) : Prop := a < 2 ^ 47 ∨ u64_lim - 2 ^ 47 ≤ a.

Lemma PAGE_SIZE_pow S : PAGE_SIZE S = 2 ^ page_bits S.
Proof. by destruct S. Qed.

Lemma PAGE_SIZE_pos S : 0 < PAGE_SIZE S.
Proof. by destruct S. Qed.

Lemma land_page_mask S a : Z.land a (PAGE_SIZE S - 1) = a mod PAGE_SIZE S.
Proof. rewrite PAGE_SIZE_pow. apply land_ones_mod. by destruct S. Qed.

Lemma round_down_page S a :
  0 ≤ a < u64_lim → Z.land a (not_u64 (PAGE_SIZE S - 1)) = a - a mod PAGE_SIZE S.
Proof. intros. rewrite PAGE_SIZE_pow. apply land_not_ones; [by destruct S | done]. Qed.

(** The sign-extension test of [Page::new] decides canonicity. *)
Lemma sign_test_canonical a :
  0 ≤ a < u64_lim →
  let lvl4 := Z.land (Z.shiftr a (12 + 9 + 9 + 9)) 0x1ff in
  let sign := Z.shiftr a (12 + 9 + 9 + 9 + 9) in
  ((sign =? 0) && (lvl4 <=? 255)) || ((sign =? 0xFFFF) && (255 <? lvl4)) = true ↔ canonical a.
Proof.
  intros Ha lvl4 sign. unfold canonical, u64_lim in *.
  assert (Hl : lvl4 = a / 2 ^ 39 mod 512).
  { subst lvl4. change 0x1ff with (2 ^ 9 - 1).
    by rewrite land_ones_mod, Z.shiftr_div_pow2 by lia. }
  assert (Hs : sign = a / 2 ^ 39 / 512).
  { subst sign. rewrite Z.shiftr_div_pow2 by lia. rewrite Z.div_div by lia. by f_equal. }
  rewrite Hl, Hs. clear Hl Hs lvl4 sign.
  pose proof (Z.div_mod a (2 ^ 39)). pose proof (Z.mod_pos_bound a (2 ^ 39)).
  set (q := a / 2 ^ 39) in *. set (r := a mod 2 ^ 39) in *.
  pose proof (Z.div_mod q 512). pose proof (Z.mod_pos_bound q 512).
  set (s := q / 512) in *. set (t := q mod 512) in *.
  destruct (Z.eqb_spec s 0), (Z.leb_spec t 255), (Z.eqb_spec s 0xFFFF), (Z.ltb_spec 255 t);
    cbn; lia.
Qed.

Lemma Page_new_Done S a p :
  0 ≤ a < u64_lim →
  Page_new S a = Done p ↔ get_address p = a ∧ a ≠ 0 ∧ a mod PAGE_SIZE S = 0 ∧ canonical a.
Proof.
  intros Ha. unfold Page_new. rewrite land_page_mask.
  destruct (Z.eqb_spec (a mod PAGE_SIZE S) 0) as [H0|H0]; cbn -[Z.land Z.shiftr]; [|naive_solver].
  pose proof (sign_test_canonical a Ha) as Hc. cbn -[Z.land Z.shiftr] in Hc.
  destruct (_ || _); cbn; [|naive_solver].
  destruct (Z.eqb_spec a 0); [naive_solver|].
  destruct p as [pa]; cbn. naive_solver.
Qed.

(** [Page::new] is total on the aligned, canonical, non-zero addresses. *)
Lemma Page_new_ok S a :
  0 < a < 2 ^ 47 → a mod PAGE_SIZE S = 0 → Page_new S a = Done (mkPage a).
Proof.
  intros Ha Hm. apply Page_new_Done; unfold u64_lim, canonical; cbn; [lia|].
  split_and!; [done|lia|done|lia].
Qed.

Lemma Page_containing_ok S a :
  PAGE_SIZE S ≤ a < 2 ^ 47 → Page_containing S a = Done (mkPage (a - a mod PAGE_SIZE S)).
Proof.
  intros Ha. unfold Page_containing. pose proof (PAGE_SIZE_pos S).
  rewrite round_down_page by (unfold u64_lim; lia).
  pose proof (Z.mod_pos_bound a (PAGE_SIZE S)).
  apply Page_new_ok; [lia|].
  rewrite Zminus_mod, Zmod_mod, Z.sub_diag. by apply Z.mod_0_l; lia.
Qed.

(** ** Page ranges *)

(** The pages a range stands for. *)
Definition range_addrs {S} (r : PageRange S) : list Z :=
  (λ i, pr_base r + Z.of_nat i * PAGE_SIZE S) <$> seq 0 (Z.to_nat (pr_count r)).

(** Every page of the range can be constructed. *)
Definition range_valid {S} (r : PageRange S) : Prop :=
  0 ≤ pr_count r ∧
  (0 < pr_count r → 0 < pr_base r ∧ pr_base r mod PAGE_SIZE S = 0 ∧
     pr_base r + pr_count r * PAGE_SIZE S ≤ 2 ^ 47).

Lemma range_addrs_succ {S} b c :
  0 < c → range_addrs (S:=S) (mkRange b c) = b :: range_addrs (mkRange (S:=S) (b + PAGE_SIZE S) (c - 1)).
Proof.
  intros. unfold range_addrs. cbn [pr_base pr_count].
  replace (Z.to_nat c) with (Datatypes.S (Z.to_nat (c - 1))) by lia.
  cbn [seq fmap list_fmap]. f_equal; [lia|].
  rewrite <- seq_shift, <- list_fmap_compose. apply list_fmap_ext. intros; cbn; lia.
Qed.

Lemma PageRange_collect_addrs {S} n (r : PageRange S) :
  Z.to_nat (pr_count r) = n → range_valid r →
  PageRange_collect (Datatypes.S n) r = Done (mkPage <$> range_addrs r).
Proof.
  revert r. induction n as [|n IH]; intros [b c] Hn [Hc Hv]; cbn [pr_count pr_base] in *.
  - assert (c = 0) as -> by lia. reflexivity.
  - destruct Hv as (Hb & Hm & Ht); [lia|].
    pose proof (PAGE_SIZE_pos S). assert (b + PAGE_SIZE S ≤ 2 ^ 47) by nia.
    assert (Hnext : PageRange_next (mkRange (S:=S) b c) =
                    Done (Some (mkPage b), mkRange (b + PAGE_SIZE S) (c - 1))).
    { unfold PageRange_next. cbn [pr_count pr_base].
      rewrite (proj2 (Z.ltb_lt 0 c)) by lia. rewrite Page_new_ok by lia. cbn [mbind outcome_bind].
      assert (c * 1 ≤ c * PAGE_SIZE S) by (apply Z.mul_le_mono_nonneg_l; lia).
      by arith_ok. }
    remember (Datatypes.S n) as k. cbn [PageRange_collect]. rewrite Hnext. cbn [mbind outcome_bind]. subst k.
    rewrite IH; [|cbn; lia|]; [by rewrite (range_addrs_succ b c) by lia|].
    split; cbn [pr_count pr_base]; [lia|]. intros. split_and!; [lia| |lia].
    rewrite Zplus_mod, Hm, Z_mod_same_full. done.
Qed.

(** ** The chunking of a physical range *)

(** The byte intervals of the pages of a range, in order. *)
Definition range_span {S} (r : PageRange S) : list (Z * Z) :=
  (λ a, (a, a + PAGE_SIZE S)) <$> range_addrs r.

(** [chain s e l]: the intervals of [l] tile [s, e), each starting where the
    previous one ends. *)
Fixpoint chain (s e : Z) (l : list (Z * Z)) : Prop :=
  match l with
  | [] => s = e
  | (a, b) :: l => a = s ∧ a < b ∧ chain b e l
  end.

Definition range_aligned {S} (r : PageRange S) : Prop :=
  0 ≤ pr_count r ∧ pr_base r mod PAGE_SIZE S = 0.

Lemma chain_app s m e l1 l2 : chain s m l1 → chain m e l2 → chain s e (l1 ++ l2).
Proof.
  revert s. induction l1 as [|[a b] l1 IH]; intros s; cbn; [by intros ->|].
  intros (-> & ? & ?) ?. split_and!; auto.
Qed.

Lemma chain_range S b c e :
  0 ≤ c → e = b + c * PAGE_SIZE S → chain b e (range_span (mkRange (S:=S) b c)).
Proof.
  intros Hc ->. remember (Z.to_nat c) as n eqn:Hn. revert b c Hc Hn.
  induction n as [|n IH]; intros b c Hc Hn.
  - assert (c = 0) as -> by lia. rewrite Z.mul_0_l, Z.add_0_r. done.
  - unfold range_span. rewrite range_addrs_succ by lia. cbn [fmap list_fmap chain].
    pose proof (PAGE_SIZE_pos S). split_and!; [done|lia|].
    replace (b + c * PAGE_SIZE S) with ((b + PAGE_SIZE S) + (c - 1) * PAGE_SIZE S) by lia.
    apply IH; lia.
Qed.

Lemma chain_empty S s : chain s s (range_span (PageRange_empty S)).
Proof. done. Qed.

Lemma exact_div a b : 0 < b → a mod b = 0 → a / b * b = a.
Proof. intros. rewrite Z.mul_comm. symmetry. apply Z_div_exact_full_2; lia. Qed.

Lemma mod_sub_0 a b m : a mod m = 0 → b mod m = 0 → (a - b) mod m = 0.
Proof. intros Ha Hb. by rewrite Zminus_mod, Ha, Hb. Qed.

Lemma mod_add_0 a b m : a mod m = 0 → b mod m = 0 → (a + b) mod m = 0.
Proof. intros Ha Hb. by rewrite Zplus_mod, Ha, Hb. Qed.

Lemma mod_coarse a m n : 0 < m → 0 < n → a mod (m * n) = 0 → a mod m = 0.
Proof.
  intros ? ? H. apply Z.mod_divide in H; [|lia]. apply Z.mod_divide; [lia|].
  destruct H as [q ->]. exists (q * n). lia.
Qed.

Section phases.
(** [S] is the chunk's page size and [2^k] the next larger one. *)
Context (S : PageSize) (k : Z) (Hk : page_bits S ≤ k ≤ 30).

Lemma unit_coarse a : a mod 2 ^ k = 0 → a mod PAGE_SIZE S = 0.
Proof using Hk.
  intros H. rewrite PAGE_SIZE_pow. apply (mod_coarse a _ (2 ^ (k - page_bits S)));
    [destruct S; done|apply Z.pow_pos_nonneg; lia|].
  rewrite <- Z.pow_add_r by (destruct S; cbn in *; lia). by replace (_ + (k - _)) with k by lia.
Qed.

Lemma round_down_bounds a : a - a mod 2 ^ k ≤ a < a - a mod 2 ^ k + 2 ^ k.
Proof using Hk.
  pose proof (Z.mod_pos_bound a (2 ^ k)). assert (0 < 2 ^ k); [|lia].
  apply Z.pow_pos_nonneg; [lia|]. destruct S; cbn in *; lia.
Qed.

Lemma round_down_mod a : (a - a mod 2 ^ k) mod 2 ^ k = 0.
Proof using Hk. rewrite Zminus_mod, Zmod_mod, Z.sub_diag. apply Zmod_0_l. Qed.

(** The chunk that brings [start] up to a multiple of the larger size. *)
Lemma head_phase (g : bool) start end_ :
  0 ≤ start ≤ end_ → end_ ≤ u64_lim - 2 ^ 30 →
  (g = true → start mod PAGE_SIZE S = 0 ∧ end_ mod PAGE_SIZE S = 0) →
  (g = false → start = end_) →
  ∃ r s',
    (if (0 <? Z.land start (2 ^ k - 1)) && g then
       up ← add_u64 (Z.land start (not_u64 (2 ^ k - 1))) (2 ^ k);
       d ← sub_u64 (Z.min up end_) start;
       Done (PageRange_new S start (d / PAGE_SIZE S), Z.min up end_)
     else Done (PageRange_empty S, start)) = Done (r, s') ∧
    chain start s' (range_span r) ∧ range_aligned r ∧
    start ≤ s' ≤ end_ ∧ (s' mod 2 ^ k = 0 ∨ s' = end_) ∧ s' ≤ start - start mod 2 ^ k + 2 ^ k.
Proof using Hk.
  intros Hs He Hal Hg. pose proof (PAGE_SIZE_pos S).
  assert (0 ≤ k) by (destruct S; cbn in *; lia).
  assert (0 < 2 ^ k ≤ 2 ^ 30) by (split; [apply Z.pow_pos_nonneg|apply Z.pow_le_mono_r]; lia).
  rewrite land_ones_mod, land_not_ones by (unfold u64_lim in *; lia).
  pose proof (Z.mod_pos_bound start (2 ^ k)).
  pose proof (round_down_bounds start). pose proof (round_down_mod start) as Hrd.
  destruct (Z.ltb_spec 0 (start mod 2 ^ k)), g; cbn [andb];
    try (exists (PageRange_empty S), start;
         split_and!; [done|apply chain_empty|done|lia|lia|lia|lia]).
  destruct Hal as [Hsm Hem]; [done|]. arith_ok.
    set (s' := Z.min (start - start mod 2 ^ k + 2 ^ k) end_).
    assert (Hs' : s' mod PAGE_SIZE S = 0).
    { subst s'. destruct (Z.min_spec (start - start mod 2 ^ k + 2 ^ k) end_) as [[_ ->]|[_ ->]]; [|done].
      apply unit_coarse, mod_add_0; [done|apply Z_mod_same_full]. }
    assert (start ≤ s' ≤ end_) by lia.
    assert (Hd : (s' - start) / PAGE_SIZE S * PAGE_SIZE S = s' - start)
      by (apply exact_div; [done|by apply mod_sub_0]).
    eexists _, s'. split_and!; [reflexivity| | |lia|lia| |lia].
    + apply chain_range; [apply Z.div_pos; lia|lia].
    + split; cbn; [apply Z.div_pos; lia|done].
    + subst s'. destruct (Z.min_spec (start - start mod 2 ^ k + 2 ^ k) end_) as [[_ ->]|[_ ->]]; [|by right].
      left. apply mod_add_0; [done|apply Z_mod_same_full].
Qed.

(** The chunk that brings [end] down to a multiple of the larger size. *)
Lemma tail_phase start end_ :
  0 ≤ start ≤ end_ → end_ ≤ u64_lim - 2 ^ 30 →
  (start mod 2 ^ k = 0 ∨ start = end_) → (start ≠ end_ → end_ mod PAGE_SIZE S = 0) →
  ∃ r e',
    (if (0 <? Z.land end_ (2 ^ k - 1)) && negb (start =? end_) then
       d ← sub_u64 end_ (Z.max (Z.land end_ (not_u64 (2 ^ k - 1))) start);
       Done (PageRange_new S (Z.max (Z.land end_ (not_u64 (2 ^ k - 1))) start) (d / PAGE_SIZE S),
             Z.max (Z.land end_ (not_u64 (2 ^ k - 1))) start)
     else Done (PageRange_empty S, end_)) = Done (r, e') ∧
    chain e' end_ (range_span r) ∧ range_aligned r ∧
    start ≤ e' ≤ end_ ∧ (e' mod 2 ^ k = 0 ∨ start = e') ∧
    (start = end_ → e' = end_) ∧ end_ - end_ mod 2 ^ k ≤ e'.
Proof using Hk.
  intros Hs He Hsm Hem. pose proof (PAGE_SIZE_pos S).
  assert (0 ≤ k) by (destruct S; cbn in *; lia).
  assert (0 < 2 ^ k ≤ 2 ^ 30) by (split; [apply Z.pow_pos_nonneg|apply Z.pow_le_mono_r]; lia).
  rewrite land_ones_mod, land_not_ones by (unfold u64_lim in *; lia).
  pose proof (Z.mod_pos_bound end_ (2 ^ k)).
  pose proof (round_down_bounds end_). pose proof (round_down_mod end_) as Hrd.
  destruct (Z.ltb_spec 0 (end_ mod 2 ^ k)), (Z.eqb_spec start end_); cbn [andb negb];
    try (exists (PageRange_empty S), end_;
         split_and!; [done|apply chain_empty|done|lia|lia|(by right) || (left; lia)|done|lia]).
  destruct Hsm as [Hsm|]; [|lia]. specialize (Hem ltac:(done)).
  assert (start ≤ end_ - end_ mod 2 ^ k).
  { apply Z.mod_divide in Hsm as [q Hq]; [|lia]. apply Z.mod_divide in Hrd as [q' Hq']; [|lia].
    assert (q < q' + 1) by (apply (Z.mul_lt_mono_pos_r (2 ^ k)); lia).
    rewrite Hq, Hq'. apply Z.mul_le_mono_nonneg_r; lia. }
  rewrite Z.max_l by lia. arith_ok.
  assert (Hd : (end_ - (end_ - end_ mod 2 ^ k)) / PAGE_SIZE S * PAGE_SIZE S
               = end_ - (end_ - end_ mod 2 ^ k)).
  { apply exact_div; [done|]. apply mod_sub_0; [done|by apply unit_coarse]. }
  eexists _, _. split_and!; [reflexivity| | |lia|lia|by left|lia|lia].
  - apply chain_range; [apply Z.div_pos; lia|lia].
  - split; cbn; [apply Z.div_pos; lia|by apply unit_coarse].
Qed.
End phases.

(** The byte intervals of the five ranges, in address order. *)
Definition chunked_span (c : chunked_ranges) : list (Z * Z) :=
  let '(s4, s2, gb, e2, e4) := c in
  range_span s4 ++ range_span s2 ++ range_span gb ++ range_span e2 ++ range_span e4.

Definition chunked_aligned (c : chunked_ranges) : Prop :=
  let '(s4, s2, gb, e2, e4) := c in
  range_aligned s4 ∧ range_aligned s2 ∧ range_aligned gb ∧ range_aligned e2 ∧ range_aligned e4.

Lemma chain_bounds s e l a b : chain s e l → (a, b) ∈ l → s ≤ a ∧ a < b ≤ e.
Proof.
  revert s. induction l as [|[x y] l IH]; intros s; [by intros _ ?%elem_of_nil|]. intros (-> & Hxy & Hc) [[= -> ->]|Hin]%elem_of_cons.
  - assert (y ≤ e); [|lia]. clear -Hc. revert y Hc. induction l as [|[u w] l IH]; intros y; cbn; [lia|]. intros (-> & ? & ?%IH). lia.
  - destruct (IH _ Hc Hin). lia.
Qed.

(** The pages of a range lie in one block of [2^k] bytes. *)
Definition near {S} (k : Z) (r : PageRange S) : Prop := ∃ q, Forall (λ a, a / 2 ^ k = q) (range_addrs r).

Lemma chain_near {S} k q s e (r : PageRange S) : 0 < 2 ^ k → chain s e (range_span r) →
  (∀ a, s ≤ a < e → a / 2 ^ k = q) → near k r.
Proof.
  intros Hk Hc Hq. exists q. apply Forall_forall. intros a Ha. apply Hq.
  destruct (chain_bounds s e _ a (a + PAGE_SIZE S) Hc); [|lia]. unfold range_span. apply list_elem_of_fmap. by exists a.
Qed.

Lemma block_up k s a : 0 < 2 ^ k → s ≤ a < s - s mod 2 ^ k + 2 ^ k → a / 2 ^ k = s / 2 ^ k.
Proof. intros Hk Ha. pose proof (Z.div_mod s (2 ^ k)). symmetry. apply (Z.div_unique _ _ _ (a - 2 ^ k * (s / 2 ^ k))); [|lia]. left. pose proof (Z.mod_pos_bound s (2 ^ k)). lia. Qed.

Lemma block_down k e a : 0 < 2 ^ k → e - e mod 2 ^ k ≤ a < e → a / 2 ^ k = e / 2 ^ k.
Proof. intros Hk Ha. pose proof (Z.div_mod e (2 ^ k)). symmetry. apply (Z.div_unique _ _ _ (a - 2 ^ k * (e / 2 ^ k))); [|lia]. left. pose proof (Z.mod_pos_bound e (2 ^ k)). lia. Qed.

Definition chunked_near (c : chunked_ranges) : Prop :=
  let '(s4, s2, gb, e2, e4) := c in near 21 s4 ∧ near 30 s2 ∧ near 30 e2 ∧ near 21 e4.

(** Splitting a page-aligned range into 4 KiB, 2 MiB and 1 GiB pages never
    panics and is exact: the pages of the five ranges, in order, tile
    [start, end) with no gap and no overlap, and every page is aligned to its
    own size; the small pages at either end lie within one larger page.  The range must
    end at least 1 GiB below 2^64, since the code adds a page to a rounded-down address. *)
Theorem chunked_page_range_tiles start end_ :
  0 ≤ start ≤ end_ → end_ ≤ u64_lim - 2 ^ 30 →
  start mod 0x1000 = 0 → end_ mod 0x1000 = 0 →
  ∃ c, get_chunked_page_range start end_ = Done c ∧
       chain start end_ (chunked_span c) ∧ chunked_aligned c ∧ chunked_near c.
Proof.
  intros Hs He Hsm Hem. unfold get_chunked_page_range. cbv zeta.
  change 0xFFF with (PAGE_SIZE Size4KB - 1).
  change 0x1fffff with (2 ^ 21 - 1). change 0x200000 with (2 ^ 21).
  change 0x3fffffff with (2 ^ 30 - 1). change 0x40000000 with (2 ^ 30).
  change 0x1000 with (PAGE_SIZE Size4KB) in Hsm, Hem.
  rewrite !land_page_mask, Hsm, Hem.
  change (assert_ (0 =? 0)) with (Done tt : outcome unit). rewrite !bind_ret.
  rewrite <- (andb_true_r (0 <? Z.land start _)).
  destruct (head_phase Size4KB 21 ltac:(cbn; lia) true start end_)
    as (s4 & st1 & -> & Hc1 & Ha1 & Hb1 & Hm1 & Hn1); try done.
  rewrite bind_ret; cbv beta iota.
  destruct (tail_phase Size4KB 21 ltac:(cbn; lia) st1 end_)
    as (e4 & en1 & -> & Hc5 & Ha5 & Hb5 & Hm5 & Hq5 & Hn5); [lia|done|done|done|].
  rewrite bind_ret; cbv beta iota.
  destruct (head_phase Size2MB 30 ltac:(cbn; lia) (negb (st1 =? en1)) st1 en1)
    as (s2 & st2 & -> & Hc2 & Ha2 & Hb2 & Hm2 & Hn2);
    [lia|lia|destruct (Z.eqb_spec st1 en1); cbn; naive_solver lia
    |destruct (Z.eqb_spec st1 en1); done|].
  rewrite bind_ret; cbv beta iota.
  destruct (tail_phase Size2MB 30 ltac:(cbn; lia) st2 en1)
    as (e2 & en2 & -> & Hc4 & Ha4 & Hb4 & Hm4 & Hq4 & Hn4); [lia|lia|done|naive_solver lia|].
  rewrite bind_ret; cbv beta iota.
  assert (∃ gb, (if (st2 <? en2) && negb (st2 =? en2)
                 then d ← sub_u64 en2 st2; Done (PageRange_new Size1GB st2 (d / PAGE_SIZE Size1GB))
                 else Done (PageRange_empty Size1GB)) = Done gb ∧
               chain st2 en2 (range_span gb) ∧ range_aligned gb) as (gb & -> & Hc3 & Ha3).
  { destruct (Z.ltb_spec st2 en2), (Z.eqb_spec st2 en2); cbn [andb negb]; try lia;
      try (exists (PageRange_empty Size1GB); split_and!; [done| |done];
           replace en2 with st2 by lia; apply chain_empty).
    arith_ok. eexists; split_and!; [reflexivity| |].
    - assert (Hd : (en2 - st2) mod PAGE_SIZE Size1GB = 0) by (apply mod_sub_0; naive_solver lia).
      apply exact_div in Hd; [|done]. apply chain_range; [apply Z.div_pos; [lia|done]|lia].
    - split; cbn [pr_count pr_base PageRange_new]; [apply Z.div_pos; [lia|done]|naive_solver lia]. }
  rewrite bind_ret; cbv beta iota. eexists; split_and!; [reflexivity| |done|].
  - cbn [chunked_span]. eauto using chain_app.
  - split_and!; (eapply chain_near; [done|eassumption|]); intros a Ha;
      first [apply (block_up _ start); lia|apply (block_down _ end_); lia|apply (block_up _ st1); lia|apply (block_down _ en1); lia].
Qed.

(** The hypotheses hold for a range of 1 GiB + 4 MiB + 12 KiB. *)
Lemma chunked_page_range_tiles_witness :
  ∃ c, get_chunked_page_range 0x3fdff000 0x80202000 = Done c ∧
       chain 0x3fdff000 0x80202000 (chunked_span c) ∧ chunked_aligned c ∧ chunked_near c.
Proof. apply chunked_page_range_tiles; unfold u64_lim; done. Defined.

(** ** Page-directory entries *)

Definition pde_wf (e : PageDirectoryEntry) : Prop :=
  0 ≤ available e < 2 ^ 3 ∧ 0 ≤ internal_address e < 2 ^ 40.

(** Peel the low bits of a word in Horner form. *)
Lemma horner_bit0 b x : Z.testbit (Z.b2z b + 2 * x) 0 = b.
Proof. rewrite Z.add_comm. apply Z.testbit_0_r. Qed.

Lemma horner_bitS b x n : 0 ≤ n → Z.testbit (Z.b2z b + 2 * x) (Z.succ n) = Z.testbit x n.
Proof. intros. rewrite Z.add_comm. by apply Z.testbit_succ_r. Qed.

Lemma horner_shift b x n : 0 ≤ n → Z.shiftr (Z.b2z b + 2 * x) (Z.succ n) = Z.shiftr x n.
Proof.
  intros. apply Z.bits_inj'. intros i Hi. rewrite !Z.shiftr_spec by lia.
  replace (i + Z.succ n) with (Z.succ (i + n)) by lia. apply horner_bitS. lia.
Qed.

Lemma pde_to_word_horner e :
  pde_to_word e =
    Z.b2z (present e) + 2 * (Z.b2z (read_write e) + 2 * (Z.b2z (user_super e) + 2 *
      (Z.b2z (write_through e) + 2 * (Z.b2z (cache_disabled e) + 2 * (Z.b2z (accessed e) + 2 *
      (Z.b2z (dirty e) + 2 * (Z.b2z (larger_pages e) + 2 * (Z.b2z (global e) + 2 *
      (available e + 8 * internal_address e))))))))).
Proof. unfold pde_to_word. lia. Qed.

Ltac peel_bits :=
  repeat match goal with
  | |- context [Z.testbit (Z.b2z ?b + 2 * ?x) (Z.pos ?p)] =>
      let m := eval cbv in (Z.pos p - 1) in
      change (Z.testbit (Z.b2z b + 2 * x) (Z.pos p)) with (Z.testbit (Z.b2z b + 2 * x) (Z.succ m));
      rewrite (horner_bitS b x m) by done
  | |- context [Z.shiftr (Z.b2z ?b + 2 * ?x) (Z.pos ?p)] =>
      let m := eval cbv in (Z.pos p - 1) in
      change (Z.shiftr (Z.b2z b + 2 * x) (Z.pos p)) with (Z.shiftr (Z.b2z b + 2 * x) (Z.succ m));
      rewrite (horner_shift b x m) by done
  end; rewrite ?horner_bit0.

(** A page-directory entry survives the trip through the 64-bit word the
    CPU sees, and the all-zero word (what a freshly allocated, zeroed table
    holds) is the entry that is not present. *)
Theorem pde_word_roundtrip e :
  pde_wf e → pde_of_word (pde_to_word e) = e ∧ pde_of_word 0 = pde_zero.
Proof.
  intros [Ha Hi]. split; [|reflexivity].
  rewrite pde_to_word_horner. unfold pde_of_word. peel_bits.
  rewrite Z.shiftr_0_r, Z.shiftr_div_pow2 by lia. change (2 ^ 3) with 8 in *.
  replace ((available e + 8 * internal_address e) mod 8) with (available e)
    by (rewrite Z.mul_comm, Z_mod_plus_full, Z.mod_small; lia).
  replace ((available e + 8 * internal_address e) / 8) with (internal_address e)
    by (rewrite Z.mul_comm, Z.div_add, (Z.div_small (available e)); lia).
  rewrite Z.mod_small by lia. by destruct e.
Qed.

Lemma pde_word_roundtrip_witness :
  pde_of_word (pde_to_word (mkPDE true true false false false false false true false 5 0x12345))
  = mkPDE true true false false false false false true false 5 0x12345.
Proof. apply (pde_word_roundtrip (mkPDE _ _ _ _ _ _ _ _ _ _ _)). split; cbn; lia. Defined.

Lemma shiftr12_shiftl12 a : a mod 0x1000 = 0 → Z.shiftl (Z.shiftr a 12) 12 = a.
Proof.
  intros. rewrite Z.shiftl_mul_pow2, Z.shiftr_div_pow2 by lia. by apply exact_div.
Qed.

Lemma pde_set_get_address e a e' :
  pde_set_address e a = Done e' → a mod 0x1000 = 0 → pde_get_address e' = a.
Proof.
  unfold pde_set_address, pde_get_address. bool_cases; [|done]. intros [= <-] ?. cbn.
  by apply shiftr12_shiftl12.
Qed.

Lemma pde_set_address_ok e a :
  0 ≤ a < 2 ^ 52 → ∃ e', pde_set_address e a = Done e' ∧
    present e' = present e ∧ larger_pages e' = larger_pages e ∧
    read_write e' = read_write e ∧ user_super e' = user_super e.
Proof.
  intros. unfold pde_set_address.
  assert (Z.shiftr a 12 < 2 ^ 40) by (rewrite Z.shiftr_div_pow2 by lia; apply Z.div_lt_upper_bound; lia).
  bool_cases; [|lia]. eexists; split; [reflexivity|]. done.
Qed.
