(* ===== verification/PhysMem.v ===== *)
(** * Physical memory as the kernel sees it

    The kernel reaches physical memory through the offset map, so a pointer of
    the source is a physical address here.  A frame is read and written through
    one of three typed views: the buddy allocator's [PageMetadata], the 32-bit
    pool's [PageMetadata32] and the [PhysPageTable] of the page tables.  Memory
    is total: what firmware left in a frame is an arbitrary initial value of
    each view.  Writing zeros to a frame ([core::ptr::write_bytes]) clears all
    of them. *)
From S2P Require Import Prelude Page.

(** [page_allocator.rs]: the node at the start of a free block. *)
Record PageMetadata := mkMeta {
  order : Z;
  prev_node : option Z;
  next_node : option Z;
}.

Definition meta_zero : PageMetadata := mkMeta 0 None None.

Record PMem := mkPMem {
  meta : Z → PageMetadata;
  (* PageMetadata32 has the single field next_node *)
  meta32 : Z → option Z;
  (* the 512 entries of the PhysPageTable in the frame *)
  table : Z → nat → PageDirectoryEntry;
}.

Definition set_meta (m : PMem) (a : Z) (x : PageMetadata) : PMem :=
  mkPMem (<[a := x]> (meta m)) (meta32 m) (table m).

Definition set_meta32 (m : PMem) (a : Z) (x : option Z) : PMem :=
  mkPMem (meta m) (<[a := x]> (meta32 m)) (table m).

Definition set_entry (m : PMem) (t : Z) (i : nat) (e : PageDirectoryEntry) : PMem :=
  mkPMem (meta m) (meta32 m) (<[t := <[i := e]> (table m t)]> (table m)).

Definition in_bytes (a n x : Z) : bool := (a <=? x) && (x <? a + n).

(** [core::ptr::write_bytes(a, 0, n)]. *)
Definition zero_bytes (m : PMem) (a n : Z) : PMem :=
  mkPMem (λ x, if in_bytes a n x then meta_zero else meta m x)
    (λ x, if in_bytes a n x then None else meta32 m x)
    (λ x, if in_bytes a n x then λ _, pde_zero else table m x).

(** ** Frames and ranges of frames *)
Definition range_frames (b n : Z) : list Z :=
  (λ i, b + Z.of_nat i * 0x1000) <$> seq 0 (Z.to_nat n).

(** The top of the physical addresses the offset map has room for: 16 TiB, the
    size of the window from [PhysMapOffset] to [_EndPhysMapOffset]. *)
Definition PHYS_TOP : Z := 2 ^ 44.

(** A [MEM_OFFSET] that leaves room for the physical window. *)
Definition offset_ok (off : Z) : Prop := 0 ≤ off ∧ PHYS_TOP + off ≤ u64_lim.

Definition frame_ok (f : Z) : Prop := 0 < f ∧ f mod 0x1000 = 0 ∧ f + 0x1000 ≤ PHYS_TOP.

Lemma elem_of_range_frames f b n :
  f ∈ range_frames b n ↔ ∃ i, 0 ≤ i < n ∧ f = b + i * 0x1000.
Proof.
  unfold range_frames. rewrite list_elem_of_fmap. split.
  - intros (i & -> & Hi). apply elem_of_seq in Hi. exists (Z.of_nat i). lia.
  - intros (i & Hi & ->). exists (Z.to_nat i). rewrite elem_of_seq. lia.
Qed.

Lemma range_frames_nil b n : n ≤ 0 → range_frames b n = [].
Proof. intros. unfold range_frames. by replace (Z.to_nat n) with 0%nat by lia. Qed.

Lemma range_frames_app b n1 n2 :
  0 ≤ n1 → 0 ≤ n2 →
  range_frames b (n1 + n2) = range_frames b n1 ++ range_frames (b + n1 * 0x1000) n2.
Proof.
  intros. unfold range_frames. rewrite Z2Nat.inj_add by lia.
  rewrite seq_app, fmap_app. f_equal. rewrite Nat.add_0_l.
  replace (seq (Z.to_nat n1) (Z.to_nat n2)) with (Nat.add (Z.to_nat n1) <$> seq 0 (Z.to_nat n2))
    by (rewrite fmap_add_seq; f_equal; lia).
  rewrite <- list_fmap_compose. apply list_fmap_ext. intros i x Hx. cbn. lia.
Qed.

Lemma range_frames_NoDup b n : NoDup (range_frames b n).
Proof.
  unfold range_frames. apply NoDup_fmap_2; [intros i j; lia|apply NoDup_seq].
Qed.

Lemma range_frames_head b n : 0 < n → b ∈ range_frames b n.
Proof. intros. apply elem_of_range_frames. exists 0. lia. Qed.

Lemma range_frames_one b : range_frames b 1 = [b].
Proof. change (range_frames b 1) with [b + Z.of_nat 0 * 0x1000]. f_equal. lia. Qed.

#[export] Hint Resolve range_frames_head range_frames_NoDup : fioxa.

(** ** The views *)
Lemma meta_set_meta m a x b :
  meta (set_meta m a x) b = if decide (a = b) then x else meta m b.
Proof. cbn. destruct (decide (a = b)); subst; [apply fn_lookup_insert|by apply fn_lookup_insert_ne]. Qed.

Lemma table_set_entry m t i e t' i' :
  table (set_entry m t i e) t' i' =
    if decide (t = t' ∧ i = i') then e else table m t' i'.
Proof.
  cbn. destruct (decide (t = t')) as [<-|Ht].
  - rewrite fn_lookup_insert. destruct (decide (i = i')) as [<-|Hi].
    + rewrite fn_lookup_insert, decide_True; done.
    + rewrite fn_lookup_insert_ne, decide_False by naive_solver. done.
  - rewrite fn_lookup_insert_ne, decide_False by naive_solver. done.
Qed.

Lemma table_set_entry_ne m t i j e : j ≠ i → table (set_entry m t i e) t j = table m t j.
Proof. intros Hj. rewrite table_set_entry, decide_False; [done|]. intros [_ ->]. done. Qed.

Lemma table_set_entry_frame m t i e f : t ≠ f → table (set_entry m t i e) f = table m f.
Proof. intros Hf. cbn. by rewrite fn_lookup_insert_ne. Qed.

Lemma table_set_entry_eq m t i e : table (set_entry m t i e) t i = e.
Proof. by rewrite table_set_entry, decide_True. Qed.

Lemma in_bytes_true a n x : in_bytes a n x = true ↔ a ≤ x < a + n.
Proof. unfold in_bytes. bool_cases; cbn; naive_solver lia. Qed.

Lemma in_bytes_false a n x : in_bytes a n x = false ↔ ¬ (a ≤ x < a + n).
Proof. rewrite <- in_bytes_true. by destruct (in_bytes a n x). Qed.

(** The offset the boot loader sets. *)
Lemma phys_map_offset_ok : offset_ok PhysMapOffset.
Proof. unfold offset_ok, PHYS_TOP, u64_lim, PhysMapOffset. lia. Qed.

Lemma virt_addr_for_phys_ok off f :
  offset_ok off → f < PHYS_TOP → virt_addr_for_phys off f = Done (f + off).
Proof. intros [? ?] ?. unfold virt_addr_for_phys. bool_cases; [done|lia]. Qed.
