(* ===== verification/AllocIface.v ===== *)
(** * The [PageAllocator] trait

    [kernel/src/paging/mod.rs]: the operations a page-table routine may call on
    an allocator, and what an implementation promises.  The page tables are
    verified against this interface; [PageAlloc] discharges it for the buddy
    allocator. *)
From S2P Require Import Prelude Page PhysMem.

Class PageAllocator (A : Type) := {
  pa_allocate_page : A * PMem → outcome (option (Page Size4KB) * (A * PMem));
  pa_allocate_pages : A * PMem → Z → outcome (option (Page Size4KB) * (A * PMem));
  pa_free_page : A * PMem → Page Size4KB → outcome (A * PMem);
  pa_free_pages : A * PMem → Page Size4KB → Z → outcome (A * PMem);
}.

Class PageAllocatorSpec (A : Type) `{PageAllocator A} := {
  (** the frames the allocator can hand out *)
  pa_owns : A * PMem → list Z → Prop;
  pa_owns_frames s F : pa_owns s F → NoDup F ∧ Forall frame_ok F;
  (** page-table writes do not disturb the allocator *)
  pa_owns_table a m m' F :
    pa_owns (a, m) F → meta m' = meta m → meta32 m' = meta32 m → pa_owns (a, m') F;
  (** an allocated page leaves the pool and is an empty table *)
  pa_allocate_page_spec s F :
    pa_owns s F →
    (∃ base s' F', pa_allocate_page s = Done (Some (mkPage base), s') ∧
       F ≡ₚ base :: F' ∧ pa_owns s' F' ∧
       (∀ i, table (snd s') base i = pde_zero) ∧
       (∀ f, f mod 0x1000 = 0 → f ≠ base → table (snd s') f = table (snd s) f)) ∨
    (pa_allocate_page s = Done (None, s) ∧ F = []);
  (** a freed page joins the pool *)
  pa_free_page_spec s F f :
    pa_owns s F → frame_ok f → f ∉ F →
    ∃ s', pa_free_page s (mkPage f) = Done s' ∧ pa_owns s' (f :: F) ∧ table (snd s') = table (snd s);
}.
