(* ===== verification/PageAlloc.v ===== *)
(** * The physical page-frame allocator

    [kernel/src/paging/page_allocator.rs]: nineteen singly linked free lists of
    power-of-two blocks threaded through the free memory itself, and a separate
    list of reserved 32-bit pages.  [MEM_OFFSET] is the section variable [off]:
    every pointer dereference of the source goes through [virt_addr_offset_mut],
    which panics when the sum overflows. *)
From S2P Require Import Prelude Page PhysMem AllocIface.

Definition RESERVED_32BIT_MEM_PAGES : Z := 32.
Definition MAX_ORDER : Z := 18.

Record PageFrameAllocator := mkPFA {
  free_lists : list (option Z);
  reserved_32bit : option Z;
  captured_0x8000 : bool;
  total_free : Z;
}.

(** The fields of the UEFI memory descriptor the kernel reads;
    [md_conventional] is [ty == MemoryType::CONVENTIONAL]. *)
Record MemoryDescriptor := mkMD {
  md_conventional : bool;
  phys_start : Z;
  page_count : Z;
}.

Definition set_free_lists (a : PageFrameAllocator) l := mkPFA l (reserved_32bit a) (captured_0x8000 a) (total_free a).
Definition set_reserved (a : PageFrameAllocator) r := mkPFA (free_lists a) r (captured_0x8000 a) (total_free a).
Definition set_captured (a : PageFrameAllocator) c := mkPFA (free_lists a) (reserved_32bit a) c (total_free a).
Definition set_total_free (a : PageFrameAllocator) t := mkPFA (free_lists a) (reserved_32bit a) (captured_0x8000 a) t.

(** [1 << order]; every caller passes an order below 64. *)
Definition pages_in_order (order : Z) : Z := Z.shiftl 1 order.

Definition alloc_world : Type := PageFrameAllocator * PMem.

Section PageFrameAllocator.
Context (off : Z).

Definition deref (a : Z) : outcome unit := _ ← virt_addr_for_phys off a; Done tt.

Definition insert_free_of_order (s : alloc_world) (base ord : Z) : outcome alloc_world :=
  let '(a, m) := s in
  _ ← deref base;
  let m := set_meta m base (mkMeta ord None None) in
  m ← (if 0 <? ord then
         last_page_addr_offset ← mul_u64 (pages_in_order ord - 1) 0x1000;
         right ← add_u64 base last_page_addr_offset;
         _ ← deref right;
         Done (set_meta m right (mkMeta ord (prev_node (meta m right)) (next_node (meta m right))))
       else Done m);
  head ← index (free_lists a) (Z.to_nat ord);
  let m := set_meta m base (mkMeta (order (meta m base)) (prev_node (meta m base)) head) in
  fl ← index_set (free_lists a) (Z.to_nat ord) (Some base);
  Done (set_free_lists a fl, m).

(** The [while pages_left > 0] loop; each round inserts at least one page. *)
Fixpoint insert_free_loop (fuel : nat) (s : alloc_world) (start_addr pages_left : Z)
  : outcome alloc_world :=
  if 0 <? pages_left then
    match fuel with
    | O => OutOfFuel
    | S fuel =>
        pages_order ← ilog2 pages_left;
        address_order ← ilog2 (start_addr / 0x1000);
        let ord := Z.min (Z.min pages_order address_order) MAX_ORDER in
        s ← insert_free_of_order s start_addr ord;
        let page_count := pages_in_order ord in
        pages_left ← sub_u64 pages_left page_count;
        bytes ← mul_u64 page_count 0x1000;
        start_addr ← add_u64 start_addr bytes;
        insert_free_loop fuel s start_addr pages_left
    end
  else Done s.

Definition insert_free_of_range (s : alloc_world) (start_addr pages_left : Z)
  : outcome alloc_world :=
  insert_free_loop (Z.to_nat pages_left) s start_addr pages_left.

(** The recursion on [order + 1] stops above [MAX_ORDER]: 20 calls at most. *)
Fixpoint request_loop (fuel : nat) (s : alloc_world) (ord : Z)
  : outcome (option Z * alloc_world) :=
  match fuel with
  | O => OutOfFuel
  | S fuel =>
      if MAX_ORDER <? ord then Done (None, s)
      else
        let '(a, m) := s in
        head ← index (free_lists a) (Z.to_nat ord);
        match head with
        | Some block =>
            _ ← deref block;
            m ← (match next_node (meta m block) with
                 | Some nxt =>
                     _ ← deref nxt;
                     Done (set_meta m nxt (mkMeta (order (meta m nxt)) None (next_node (meta m nxt))))
                 | None => Done m
                 end);
            fl ← index_set (free_lists a) (Z.to_nat ord) (next_node (meta m block));
            Done (Some block, (set_free_lists a fl, m))
        | None =>
            '(large, s) ← request_loop fuel s (ord + 1);
            match large with
            | None => Done (None, s)
            | Some large_base =>
                bytes ← mul_u64 (pages_in_order ord) 0x1000;
                start ← add_u64 large_base bytes;
                s ← insert_free_of_range s start (pages_in_order (ord + 1) - pages_in_order ord);
                Done (Some large_base, s)
            end
        end
  end.

(** Returns the [base] of the [AllocatedPageOrder]; its [order] is [ord]. *)
Definition request_page_of_order (s : alloc_world) (ord : Z) : outcome (option Z * alloc_world) :=
  request_loop 20 s ord.

Definition free_32bit_reserved_page (s : alloc_world) (page : Z) : outcome alloc_world :=
  let '(a, m) := s in
  _ ← deref page;
  match reserved_32bit a with
  | Some p => Done (set_reserved a (Some page), set_meta32 m page (Some p))
  | None => Done (set_reserved a (Some page), m)
  end.

Definition free_page_of_order (s : alloc_world) (base ord : Z) : outcome alloc_world :=
  insert_free_of_order s base ord.

Definition free_page (s : alloc_world) (page : Page Size4KB) : outcome alloc_world :=
  insert_free_of_order s (get_address page) 0.

Definition allocate_page (s : alloc_world) : outcome (option (Page Size4KB) * alloc_world) :=
  '(b, s) ← request_page_of_order s 0;
  match b with
  | None => Done (None, s)
  | Some base =>
      _ ← deref base;
      let s := (fst s, zero_bytes (snd s) base 0x1000) in
      p ← Page_new Size4KB base;
      Done (Some p, s)
  end.

Definition allocate_page_32bit (s : alloc_world) : outcome (option (Page Size4KB) * alloc_world) :=
  let '(a, m) := s in
  match reserved_32bit a with
  | None => Done (None, s)
  | Some block =>
      _ ← deref block;
      let a := set_reserved a (meta32 m block) in
      _ ← deref block;
      let m := zero_bytes m block 0x1000 in
      p ← Page_new Size4KB block;
      Done (Some p, (a, m))
  end.

Definition allocate_pages (s : alloc_world) (count : Z) : outcome (option (Page Size4KB) * alloc_world) :=
  ord ← ilog2 count;
  '(b, s) ←
    (if pages_in_order ord =? count then request_page_of_order s ord
     else
       '(large, s) ← request_page_of_order s (ord + 1);
       match large with
       | None => Done (None, s)
       | Some large_base =>
           bytes ← mul_u64 count 0x1000;
           start ← add_u64 large_base bytes;
           s ← insert_free_of_range s start (pages_in_order (ord + 1) - count);
           Done (Some large_base, s)
       end);
  match b with
  | None => Done (None, s)
  | Some base =>
      _ ← deref base;
      bytes ← mul_u64 count 0x1000;
      let s := (fst s, zero_bytes (snd s) base bytes) in
      p ← Page_new Size4KB base;
      Done (Some p, s)
  end.

(** [free_pages]: the [for p in 0..count] loop of the [PageAllocator] impl. *)
Fixpoint free_pages_loop (s : alloc_world) (base : Z) (ps : list Z) : outcome alloc_world :=
  match ps with
  | [] => Done s
  | p :: ps =>
      bytes ← mul_u64 p 0x1000;
      a ← add_u64 base bytes;
      page ← Page_new Size4KB a;
      s ← free_page s page;
      free_pages_loop s base ps
  end.

Definition free_pages (s : alloc_world) (page : Page Size4KB) (count : Z) : outcome alloc_world :=
  free_pages_loop s (get_address page) (Z.of_nat <$> seq 0 (Z.to_nat count)).

(** [PageFrameAllocator::new]. *)
Fixpoint reserve_pages (s : alloc_world) (ps : list Z) : outcome alloc_world :=
  match ps with
  | [] => Done s
  | p :: ps => s ← free_32bit_reserved_page s p; reserve_pages s ps
  end.

(** The first loop: capture the reserved pages; returns the descriptors left. *)
Fixpoint capture_reserved (s : alloc_world) (free_found : Z) (free : list MemoryDescriptor)
  : outcome (alloc_world * list MemoryDescriptor) :=
  match free with
  | [] => Panic PUnwrap
  | entry :: free =>
      bytes ← mul_u64 (page_count entry) 0x1000;
      range_end ← add_u64 (phys_start entry) bytes;
      '(s, pages) ←
        (if in_bytes (phys_start entry) (range_end - phys_start entry) 0x8000 then
           pages ← sub_u64 (page_count entry) 1;
           Done ((set_captured (fst s) true, snd s), pages)
         else Done (s, page_count entry));
      room ← sub_u64 RESERVED_32BIT_MEM_PAGES free_found;
      let taken_amount := Z.min pages room in
      free_found ← add_u64 free_found taken_amount;
      s ← reserve_pages s
            (filter (λ p, p ≠ 0x8000)
               (range_frames (phys_start entry) (Z.min taken_amount (page_count entry))));
      if free_found =? RESERVED_32BIT_MEM_PAGES then
        amount_left ← sub_u64 (page_count entry) taken_amount;
        tf ← add_u64 (total_free (fst s)) amount_left;
        bytes ← mul_u64 taken_amount 0x1000;
        start ← add_u64 (phys_start entry) bytes;
        s ← insert_free_of_range (set_total_free (fst s) tf, snd s) start amount_left;
        Done (s, free)
      else if RESERVED_32BIT_MEM_PAGES <? free_found then Panic PUnreachable
      else capture_reserved s free_found free
  end.

Fixpoint insert_rest (s : alloc_world) (free : list MemoryDescriptor) : outcome alloc_world :=
  match free with
  | [] => Done s
  | entry :: free =>
      tf ← add_u64 (total_free (fst s)) (page_count entry);
      s ← insert_free_of_range (set_total_free (fst s) tf, snd s) (phys_start entry) (page_count entry);
      insert_rest s free
  end.

Definition PageFrameAllocator_new (m : PMem) (mmap : list MemoryDescriptor) : outcome alloc_world :=
  let this := mkPFA (replicate (Z.to_nat (MAX_ORDER + 1)) None) None false 0 in
  let free := filter (λ e, md_conventional e = true) mmap in
  '(s, rest) ← capture_reserved (this, m) 0 free;
  insert_rest s rest.
End PageFrameAllocator.

(** ** Representation

    [seg m h l]: following [next_node] from [h] visits the blocks [l]. *)
Fixpoint seg (m : PMem) (h : option Z) (l : list Z) : Prop :=
  match l with
  | [] => h = None
  | a :: l => h = Some a ∧ seg m (next_node (meta m a)) l
  end.

(** The frames of the blocks of the lists; list [k] holds blocks of [2^k] pages. *)
Fixpoint frames_from (k : nat) (ls : list (list Z)) : list Z :=
  match ls with
  | [] => []
  | l :: ls => (l ≫= λ b, range_frames b (2 ^ Z.of_nat k)) ++ frames_from (S k) ls
  end.

Definition alloc_repr (s : alloc_world) (ls : list (list Z)) : Prop :=
  Forall2 (seg (snd s)) (free_lists (fst s)) ls ∧ length ls = 19%nat ∧
  NoDup (frames_from 0 ls) ∧ Forall frame_ok (frames_from 0 ls).

(** The abstract state of the allocator: the frames it holds, as a multiset. *)
Definition owns (s : alloc_world) (F : list Z) : Prop :=
  ∃ ls, alloc_repr s ls ∧ frames_from 0 ls ≡ₚ F.

(** What an allocator operation leaves alone: the frames outside [F], in every
    view, and the fields other than the free lists. *)
Definition same_outside (F : list Z) (s s' : alloc_world) : Prop :=
  (∀ f, f ∉ F → meta (snd s') f = meta (snd s) f) ∧
  meta32 (snd s') = meta32 (snd s) ∧ table (snd s') = table (snd s) ∧
  reserved_32bit (fst s') = reserved_32bit (fst s) ∧
  captured_0x8000 (fst s') = captured_0x8000 (fst s) ∧
  total_free (fst s') = total_free (fst s).

Lemma same_outside_refl F s : same_outside F s s.
Proof. by split_and!. Qed.

Lemma same_outside_trans F G s1 s2 s3 :
  same_outside F s1 s2 → same_outside G s2 s3 → same_outside (F ++ G) s1 s3.
Proof.
  intros (HF & ? & ? & ? & ? & ?) (HG & ? & ? & ? & ? & ?).
  split_and!; try congruence.
  intros f Hf. rewrite not_elem_of_app in Hf. rewrite HG, HF; naive_solver.
Qed.

Lemma same_outside_mono F G s s' :
  (∀ f, f ∈ F → f ∈ G) → same_outside F s s' → same_outside G s s'.
Proof. intros Hsub (H & ?). split; [|done]. intros f Hf. apply H. naive_solver. Qed.

#[export] Hint Resolve same_outside_refl : fioxa.

Lemma pages_in_order_pow o : 0 ≤ o → pages_in_order o = 2 ^ o.
Proof. intros. unfold pages_in_order. rewrite Z.shiftl_mul_pow2 by lia. lia. Qed.

Lemma pow2_bounds o : 0 ≤ o ≤ 19 → 1 ≤ 2 ^ o ≤ 2 ^ 19.
Proof.
  intros. split; [|by apply Z.pow_le_mono_r; lia].
  assert (0 < 2 ^ o) by (apply Z.pow_pos_nonneg; lia). lia.
Qed.

(** ** Lemmas on the lists of blocks *)
Lemma seg_ext m m' h l :
  (∀ a, a ∈ l → next_node (meta m' a) = next_node (meta m a)) → seg m h l → seg m' h l.
Proof.
  revert h. induction l as [|a l IH]; intros h Hm; cbn; [done|].
  intros [-> ?]. split; [done|]. rewrite Hm by set_solver. apply IH; [set_solver|done].
Qed.

Lemma Forall2_seg_ext m m' hs ls :
  (∀ l a, l ∈ ls → a ∈ l → next_node (meta m' a) = next_node (meta m a)) →
  Forall2 (seg m) hs ls → Forall2 (seg m') hs ls.
Proof.
  intros Hm H. induction H as [|h l hs ls Hs H IH]; constructor.
  - eapply seg_ext; [|done]. intros a Ha. eapply Hm; [|done]. set_solver.
  - apply IH. intros l' a Hl Ha. eapply Hm; [|done]. set_solver.
Qed.

(** The base of every block is one of the frames. *)
Lemma frames_from_base k ls l a : l ∈ ls → a ∈ l → a ∈ frames_from k ls.
Proof.
  revert k. induction ls as [|l' ls IH]; intros k Hl Ha; cbn; [set_solver|].
  apply elem_of_app. apply elem_of_cons in Hl as [->|Hl]; [left|right; by apply IH].
  apply list_elem_of_bind. exists a. split; [|done].
  apply range_frames_head. apply Z.pow_pos_nonneg; lia.
Qed.

Lemma frames_from_push k ls i l b :
  ls !! i = Some l →
  frames_from k (<[i := b :: l]> ls) ≡ₚ range_frames b (2 ^ Z.of_nat (k + i)) ++ frames_from k ls.
Proof.
  revert k i. induction ls as [|l' ls IH]; intros k [|i] Hl; cbn in *; try done.
  - injection Hl as ->. by rewrite Nat.add_0_r, (assoc_L (++)).
  - rewrite (IH (S k) i) by done. rewrite Nat.add_succ_comm. rewrite !(assoc_L (++)).
    f_equiv. apply Permutation_app_comm.
Qed.

Lemma frames_from_pop k ls i l b :
  ls !! i = Some (b :: l) →
  frames_from k ls ≡ₚ range_frames b (2 ^ Z.of_nat (k + i)) ++ frames_from k (<[i := l]> ls).
Proof.
  intros Hl. assert (Hi : (i < length ls)%nat) by (by apply lookup_lt_Some in Hl).
  rewrite <- (frames_from_push k (<[i := l]> ls) i l b) by (by apply list_lookup_insert_eq).
  rewrite list_insert_insert, decide_True by done. by rewrite list_insert_id.
Qed.

Lemma frames_from_nil k n : frames_from k (replicate n []) = [].
Proof. revert k. induction n as [|n IH]; intros k; cbn; [done|apply IH]. Qed.

(** ** The operations under the representation *)
Section operations.
Context (off : Z) (Hoff : offset_ok off).

Lemma deref_ok a : 0 ≤ a < PHYS_TOP → deref off a = Done tt.
Proof using Hoff.
  intros. unfold deref. by rewrite virt_addr_for_phys_ok by (done || lia).
Qed.

Lemma frame_deref f : frame_ok f → deref off f = Done tt.
Proof using Hoff. intros (? & ? & ?). apply deref_ok. lia. Qed.

Lemma alloc_repr_push a m m' ls i l base hd :
  alloc_repr (a, m) ls → ls !! i = Some l → free_lists a !! i = Some hd →
  Forall frame_ok (range_frames base (2 ^ Z.of_nat i)) →
  (∀ f, f ∈ range_frames base (2 ^ Z.of_nat i) → f ∉ frames_from 0 ls) →
  (∀ f, f ∉ range_frames base (2 ^ Z.of_nat i) → next_node (meta m' f) = next_node (meta m f)) →
  next_node (meta m' base) = hd →
  alloc_repr (set_free_lists a (<[i := Some base]> (free_lists a)), m') (<[i := base :: l]> ls).
Proof.
  intros (Hseg & Hlen & Hnd & Hok) Hl Hhd HokR Hdisj Hm Hb.
  assert (Hseg' : Forall2 (seg m') (free_lists a) ls).
  { eapply Forall2_seg_ext; [|exact Hseg]. intros l' f Hl' Hf. apply Hm.
    intros HR. apply (Hdisj f HR). by eapply frames_from_base. }
  assert (Hp := frames_from_push 0 ls i l base Hl). cbn [Nat.add] in Hp.
  split_and!; cbn [fst snd set_free_lists free_lists].
  - apply Forall2_insert; [done|]. cbn. split; [done|]. rewrite Hb.
    by eapply Forall2_lookup_lr.
  - by rewrite length_insert.
  - rewrite Hp. apply NoDup_app. split_and!; auto with fioxa.
  - rewrite Hp. by apply Forall_app.
Qed.

Lemma insert_free_of_order_ok s F base ord :
  owns s F → 0 ≤ ord ≤ MAX_ORDER →
  Forall frame_ok (range_frames base (2 ^ ord)) →
  (∀ f, f ∈ range_frames base (2 ^ ord) → f ∉ F) →
  ∃ s', insert_free_of_order off s base ord = Done s' ∧
        owns s' (range_frames base (2 ^ ord) ++ F) ∧
        same_outside (range_frames base (2 ^ ord)) s s'.
Proof using Hoff.
  destruct s as [a m]. intros (ls & Hr & HF) Hord HokR Hdisj. unfold MAX_ORDER in *.
  pose proof (pow2_bounds ord ltac:(lia)) as Hpow.
  assert (Hb : base ∈ range_frames base (2 ^ ord)) by (apply range_frames_head; lia).
  assert (Hright : base + (2 ^ ord - 1) * 0x1000 ∈ range_frames base (2 ^ ord)).
  { apply elem_of_range_frames. exists (2 ^ ord - 1). lia. }
  pose proof (proj1 (Forall_forall _ _) HokR) as Hfok.
  pose proof (Hfok _ Hb) as Hbok. pose proof (Hfok _ Hright) as Hrok.
  pose proof Hr as (Hseg & Hlen & _ & _). cbn [fst snd] in Hseg.
  assert (Hi : (Z.to_nat ord < length ls)%nat) by lia.
  assert (Hi' : (Z.to_nat ord < length (free_lists a))%nat)
    by (rewrite (Forall2_length _ _ _ Hseg); done).
  destruct (lookup_lt_is_Some_2 ls _ Hi) as [l Hl].
  destruct (lookup_lt_is_Some_2 (free_lists a) _ Hi') as [hd Hhd].
  assert (Hordn : Z.of_nat (Z.to_nat ord) = ord) by lia.
  assert (∃ m', insert_free_of_order off (a, m) base ord =
                  Done (set_free_lists a (<[Z.to_nat ord := Some base]> (free_lists a)), m') ∧
                (∀ f, f ∉ range_frames base (2 ^ ord) → meta m' f = meta m f) ∧
                next_node (meta m' base) = hd ∧ meta32 m' = meta32 m ∧ table m' = table m)
    as (m' & Heq & Hout & Hnext & H32 & Htab).
  { unfold insert_free_of_order. rewrite frame_deref by done. cbn [mbind outcome_bind].
    assert (Hidx : index (free_lists a) (Z.to_nat ord) = Done hd) by (by apply index_Done).
    destruct Hrok as (? & ? & ?), Hbok as (? & ? & ?). unfold PHYS_TOP in *.
    destruct (Z.ltb_spec 0 ord).
    - rewrite pages_in_order_pow by lia. arith_ok.
      rewrite deref_ok by (unfold PHYS_TOP; lia). cbn [mbind outcome_bind].
      rewrite Hidx. cbn [mbind outcome_bind]. rewrite index_set_ok by done. cbn [mbind outcome_bind].
      eexists; split_and!; [reflexivity| | |done|done].
      + intros f Hf. rewrite !meta_set_meta. repeat case_decide; subst; done.
      + by rewrite meta_set_meta, decide_True.
    - cbn [mbind outcome_bind]. rewrite Hidx. cbn [mbind outcome_bind].
      rewrite index_set_ok by done. cbn [mbind outcome_bind].
      eexists; split_and!; [reflexivity| | |done|done].
      + intros f Hf. rewrite !meta_set_meta. repeat case_decide; subst; done.
      + by rewrite meta_set_meta, decide_True. }
  eexists; split_and!; [exact Heq| |by split_and!].
  exists (<[Z.to_nat ord := base :: l]> ls). split.
  - eapply alloc_repr_push; try done; rewrite Hordn; [done| |].
    + intros f Hf. rewrite HF. by apply Hdisj.
    + intros f Hf. by rewrite Hout.
  - rewrite (frames_from_push 0 ls _ l base Hl). cbn [Nat.add]. by rewrite Hordn, HF.
Qed.

Lemma range_frames_end b n :
  0 < n → Forall frame_ok (range_frames b n) → 0 < b ∧ b mod 0x1000 = 0 ∧ b + n * 0x1000 ≤ PHYS_TOP.
Proof.
  intros Hn H. rewrite Forall_forall in H.
  destruct (H b) as (? & ? & ?); [by apply range_frames_head|].
  destruct (H (b + (n - 1) * 0x1000)) as (? & ? & ?); [|lia].
  apply elem_of_range_frames. exists (n - 1). lia.
Qed.

Lemma insert_free_loop_ok fuel : ∀ s F start n,
  owns s F → 0 ≤ n ≤ Z.of_nat fuel →
  Forall frame_ok (range_frames start n) → (∀ f, f ∈ range_frames start n → f ∉ F) →
  ∃ s', insert_free_loop off fuel s start n = Done s' ∧
        owns s' (range_frames start n ++ F) ∧ same_outside (range_frames start n) s s'.
Proof using Hoff.
  induction fuel as [|fuel IH]; intros s F start n Hs Hn Hok Hd; cbn [insert_free_loop];
    destruct (Z.ltb_spec 0 n); try (by lia);
    try (exists s; rewrite range_frames_nil by lia; cbn; auto with fioxa).
  destruct (range_frames_end start n) as (Hb & Hm & He); [done..|].
  assert (Hpn : 1 ≤ start / 0x1000) by (apply Z.div_le_lower_bound; [|apply Z.mod_divide in Hm as [q ->]]; lia).
  rewrite !ilog2_ok by lia. cbn [mbind outcome_bind].
  pose proof (Z.log2_nonneg n). pose proof (Z.log2_nonneg (start / 0x1000)).
  set (ord := Z.min (Z.min (Z.log2 n) (Z.log2 (start / 0x1000))) MAX_ORDER).
  assert (Hord : 0 ≤ ord ≤ MAX_ORDER) by (unfold MAX_ORDER in *; lia).
  assert (Hle : 2 ^ ord ≤ n).
  { transitivity (2 ^ Z.log2 n); [apply Z.pow_le_mono_r; lia|]. apply Z.log2_spec. lia. }
  pose proof (pow2_bounds ord ltac:(unfold MAX_ORDER in *; lia)).
  assert (Hsplit : range_frames start n =
            range_frames start (2 ^ ord) ++ range_frames (start + 2 ^ ord * 0x1000) (n - 2 ^ ord)).
  { rewrite <- range_frames_app by lia. f_equal. lia. }
  rewrite Hsplit in Hok, Hd. apply Forall_app in Hok as [Hok1 Hok2].
  pose proof (range_frames_NoDup start n) as Hnd. rewrite Hsplit, NoDup_app in Hnd.
  destruct Hnd as (_ & Hnd & _).
  destruct (insert_free_of_order_ok s F start ord) as (s1 & -> & Hs1 & Hout1);
    [done..|intros; apply Hd; set_solver|]. cbn [mbind outcome_bind].
  rewrite pages_in_order_pow by lia. unfold PHYS_TOP in *. arith_ok.
  destruct (IH s1 _ (start + 2 ^ ord * 0x1000) (n - 2 ^ ord) Hs1) as (s2 & -> & Hs2 & Hout2);
    [lia|done|set_solver|].
  eexists; split_and!; [done| |].
  - destruct Hs2 as (ls & ? & Hp). exists ls. split; [done|]. rewrite Hp, Hsplit.
    rewrite !(assoc_L (++)). f_equiv. apply Permutation_app_comm.
  - rewrite Hsplit. by eapply same_outside_trans.
Qed.

Lemma insert_free_of_range_ok s F start n :
  owns s F → 0 ≤ n → Forall frame_ok (range_frames start n) →
  (∀ f, f ∈ range_frames start n → f ∉ F) →
  ∃ s', insert_free_of_range off s start n = Done s' ∧
        owns s' (range_frames start n ++ F) ∧ same_outside (range_frames start n) s s'.
Proof using Hoff. intros. apply insert_free_loop_ok; try done. lia. Qed.

Lemma alloc_repr_pop a m m' ls i b l :
  alloc_repr (a, m) ls → ls !! i = Some (b :: l) →
  (∀ f, next_node (meta m' f) = next_node (meta m f)) →
  alloc_repr (set_free_lists a (<[i := next_node (meta m b)]> (free_lists a)), m') (<[i := l]> ls).
Proof.
  intros (Hseg & Hlen & Hnd & Hok) Hl Hm. cbn [fst snd] in *.
  assert (Hi : (i < length (free_lists a))%nat)
    by (rewrite (Forall2_length _ _ _ Hseg); by eapply lookup_lt_Some).
  destruct (lookup_lt_is_Some_2 _ _ Hi) as [hd Hhd].
  pose proof (Forall2_lookup_lr _ _ _ _ _ _ Hseg Hhd Hl) as [-> Hb].
  rewrite (frames_from_pop 0 ls i l b Hl) in Hnd, Hok.
  apply NoDup_app in Hnd as (_ & _ & Hnd). apply Forall_app in Hok as [_ Hok].
  split_and!; cbn [fst snd set_free_lists free_lists]; [|by rewrite length_insert|done..].
  apply Forall2_insert; [eapply Forall2_seg_ext; [|exact Hseg]; auto|].
  eapply seg_ext; [|exact Hb]. auto.
Qed.

(** The head of list [i] in memory is the head of the represented list. *)
Lemma alloc_repr_head a m ls i :
  alloc_repr (a, m) ls → (i < 19)%nat →
  ∃ l, ls !! i = Some l ∧ free_lists a !! i = Some (head l) ∧ seg m (head l) l.
Proof.
  intros (Hseg & Hlen & _ & _) Hi. cbn [fst snd] in *. rewrite <- Hlen in Hi.
  destruct (lookup_lt_is_Some_2 ls _ Hi) as [l Hl].
  rewrite <- (Forall2_length _ _ _ Hseg) in Hi.
  destruct (lookup_lt_is_Some_2 (free_lists a) _ Hi) as [hd Hhd].
  pose proof (Forall2_lookup_lr _ _ _ _ _ _ Hseg Hhd Hl) as Hs.
  exists l. destruct l as [|b l]; cbn in *; [by subst|]. destruct Hs as [-> ?]. done.
Qed.

Definition request_ok (s : alloc_world) (ls : list (list Z)) (ord : Z)
  (r : outcome (option Z * alloc_world)) : Prop :=
  (∃ base s' F', r = Done (Some base, s') ∧ ord ≤ MAX_ORDER ∧ owns s' F' ∧
     frames_from 0 ls ≡ₚ range_frames base (2 ^ ord) ++ F' ∧
     same_outside (frames_from 0 ls) s s') ∨
  (r = Done (None, s) ∧ ∀ j l, ord ≤ Z.of_nat j → ls !! j = Some l → l = []).

Lemma request_pop_ok a m ls ord b l fuel :
  alloc_repr (a, m) ls → 0 ≤ ord ≤ MAX_ORDER → ls !! Z.to_nat ord = Some (b :: l) →
  request_ok (a, m) ls ord (request_loop off (S fuel) (a, m) ord).
Proof using Hoff.
  intros Hr Hord Hl. left. unfold MAX_ORDER in *.
  destruct (alloc_repr_head a m ls (Z.to_nat ord) Hr) as (l' & Hl' & Hhd & Hseg); [lia|].
  rewrite Hl in Hl'. injection Hl' as <-. cbn [head] in *. destruct Hseg as [_ Hseg].
  pose proof Hr as (Hs2 & Hlen & Hnd & Hok).
  assert (Hfr : ∀ x, x ∈ b :: l → frame_ok x ∧ x ∈ frames_from 0 ls).
  { intros x Hx. assert (x ∈ frames_from 0 ls)
      by (eapply frames_from_base; [by eapply list_elem_of_lookup_2|done]).
    split; [|done]. by eapply (proj1 (Forall_forall _ _) Hok). }
  assert (Hi : (Z.to_nat ord < length (free_lists a))%nat) by (by eapply lookup_lt_Some).
  cbn [request_loop]. rewrite (proj2 (Z.ltb_ge MAX_ORDER ord)) by (unfold MAX_ORDER; lia).
  rewrite (proj2 (index_Done _ _ _) Hhd). cbn [mbind outcome_bind].
  rewrite frame_deref by (apply Hfr; set_solver). cbn [mbind outcome_bind].
  assert (∃ m', match next_node (meta m b) with
                | Some nxt => _ ← deref off nxt;
                    Done (set_meta m nxt (mkMeta (order (meta m nxt)) None (next_node (meta m nxt))))
                | None => Done m end = Done m' ∧
            (∀ f, next_node (meta m' f) = next_node (meta m f)) ∧
            same_outside (frames_from 0 ls) (a, m) (a, m')) as (m' & -> & Hnext & Hout).
  { destruct (next_node (meta m b)) as [nxt|] eqn:E; [|exists m; auto with fioxa].
    destruct l as [|c l]; cbn in Hseg; [done|]. destruct Hseg as [[= ->] _].
    destruct (Hfr c) as [Hcok Hcin]; [set_solver|].
    rewrite frame_deref by done. cbn [mbind outcome_bind].
    eexists; split_and!; [reflexivity| |].
    - intros f. rewrite meta_set_meta. by case_decide; subst.
    - split_and!; try done. intros f Hf. cbn [snd]. rewrite meta_set_meta, decide_False; [done|congruence]. }
  cbn [mbind outcome_bind]. rewrite index_set_ok by done. cbn [mbind outcome_bind].
  rewrite Hnext. pose proof (frames_from_pop 0 ls _ l b Hl) as Hpop. cbn [Nat.add] in Hpop.
  rewrite Z2Nat.id in Hpop by lia.
  eexists b, _, (frames_from 0 (<[Z.to_nat ord := l]> ls)).
  split_and!; [reflexivity|unfold MAX_ORDER; lia| |exact Hpop|exact Hout].
  eexists; split; [by eapply alloc_repr_pop|done].
Qed.

Lemma request_loop_ok fuel : ∀ s ls ord,
  alloc_repr s ls → 0 ≤ ord → 20 ≤ ord + Z.of_nat fuel → (0 < fuel)%nat →
  request_ok s ls ord (request_loop off fuel s ord).
Proof using Hoff.
  induction fuel as [|fuel IH]; intros [a m] ls ord Hr Hord Hfuel Hpos; [lia|].
  destruct (decide (ord ≤ MAX_ORDER)) as [Hle|Hgt]; unfold MAX_ORDER in *; last first.
  { right. cbn [request_loop]. rewrite (proj2 (Z.ltb_lt MAX_ORDER ord)) by (unfold MAX_ORDER; lia).
    split; [done|]. intros j l Hj Hl. apply lookup_lt_Some in Hl.
    destruct Hr as (_ & Hlen & _ & _). lia. }
  destruct (alloc_repr_head a m ls (Z.to_nat ord) Hr) as ([|b l] & Hl & Hhd & _); [lia| |];
    [|eapply request_pop_ok; unfold MAX_ORDER; eauto].
  cbn [request_loop]. rewrite (proj2 (Z.ltb_ge MAX_ORDER ord)) by (unfold MAX_ORDER; lia).
  rewrite (proj2 (index_Done _ _ _) Hhd). cbn [mbind outcome_bind head].
  destruct (IH (a, m) ls (ord + 1) Hr ltac:(lia) ltac:(lia) ltac:(lia))
    as [(base & s1 & F1 & -> & Hle1 & Hs1 & HF1 & Hout1)|[-> Hnone]]; cbn [mbind outcome_bind]; last first.
  { right. split; [done|]. intros j l Hj Hjl.
    destruct (decide (j = Z.to_nat ord)) as [->|]; [congruence|]. eapply Hnone; [|done]. lia. }
  left. pose proof Hr as (_ & _ & Hnd & Hok). rewrite HF1 in Hnd, Hok.
  apply NoDup_app in Hnd as (_ & Hdisj & _). apply Forall_app in Hok as [Hok _].
  pose proof (pow2_bounds ord ltac:(lia)).
  assert (Hpow : 2 ^ (ord + 1) = 2 ^ ord + 2 ^ ord) by (rewrite Z.pow_add_r; lia).
  rewrite Hpow, range_frames_app in HF1, Hok, Hdisj by lia.
  destruct (range_frames_end base (2 ^ ord)) as (? & ? & ?); [lia|by apply Forall_app in Hok as []|].
  rewrite !pages_in_order_pow by lia. unfold PHYS_TOP in *. arith_ok.
  replace (2 ^ (ord + 1) - 2 ^ ord) with (2 ^ ord) by lia.
  destruct (insert_free_of_range_ok s1 F1 (base + 2 ^ ord * 0x1000) (2 ^ ord) Hs1)
    as (s2 & -> & Hs2 & Hout2); [lia|by apply Forall_app in Hok as []|set_solver|].
  cbn [mbind outcome_bind]. eexists base, s2, _.
  split_and!; [reflexivity|unfold MAX_ORDER; lia|exact Hs2|by rewrite HF1, (assoc_L (++))|].
  eapply same_outside_mono; [|by eapply same_outside_trans].
  intros f [Hf|Hf]%elem_of_app; [done|]. rewrite HF1. set_solver.
Qed.

(** ** Allocation and release *)
Lemma owns_ext a m m' F :
  owns (a, m) F → (∀ f, f ∈ F → meta m' f = meta m f) → owns (a, m') F.
Proof.
  intros (ls & (Hseg & ?) & HF) Hm. exists ls. split; [|done]. split; [|done].
  eapply Forall2_seg_ext; [|exact Hseg]. intros l f Hl Hf. cbn. f_equal. apply Hm.
  rewrite <- HF. by eapply frames_from_base.
Qed.

Lemma owns_frames s F : owns s F → NoDup F ∧ Forall frame_ok F.
Proof. intros (ls & (_ & _ & Hnd & Hok) & HF). by rewrite <- HF. Qed.

Lemma owns_perm s F G : owns s F → F ≡ₚ G → owns s G.
Proof. intros (ls & ? & HF) HG. exists ls. by rewrite <- HG. Qed.

(** An aligned address inside the byte range of some frames is one of them. *)
Lemma frame_in_bytes b n f :
  b mod 0x1000 = 0 → f mod 0x1000 = 0 → in_bytes b (n * 0x1000) f = true → f ∈ range_frames b n.
Proof.
  intros Hb Hf Hin%in_bytes_true. apply Z.mod_divide in Hb as [q ->], Hf as [r ->]; try lia.
  apply elem_of_range_frames. exists (r - q). lia.
Qed.

Definition zeroed (m : PMem) (f : Z) : Prop :=
  meta m f = meta_zero ∧ meta32 m f = None ∧ ∀ i, table m f i = pde_zero.

(** What taking the [n] frames at [base] out of the pool and clearing them does. *)
Definition took (s : alloc_world) (F : list Z) (base n : Z) (s' : alloc_world) (F' : list Z) : Prop :=
  owns s' F' ∧ F ≡ₚ range_frames base n ++ F' ∧
  (∀ f, f ∈ range_frames base n → zeroed (snd s') f) ∧
  (∀ f, f mod 0x1000 = 0 → f ∉ range_frames base n →
     table (snd s') f = table (snd s) f ∧ meta32 (snd s') f = meta32 (snd s) f).

Lemma take_and_zero s s1 F F1 base n :
  owns s F → 0 < n → owns s1 F1 → F ≡ₚ range_frames base n ++ F1 → same_outside F s s1 →
  took s F base n (fst s1, zero_bytes (snd s1) base (n * 0x1000)) F1 ∧
  Page_new Size4KB base = Done (mkPage base) ∧ deref off base = Done tt ∧ n * 0x1000 ≤ PHYS_TOP.
Proof using Hoff.
  intros HsF Hn Hs1 HF (_ & H32 & Htab & _). destruct s1 as [a1 m1]. cbn [fst snd] in *.
  destruct (owns_frames s F HsF) as [Hnd Hok]. rewrite HF in Hnd, Hok.
  apply Forall_app in Hok as [Hok Hok1]. apply NoDup_app in Hnd as (_ & Hdisj & _).
  destruct (range_frames_end base n Hn Hok) as (Hb & Hm & He).
  split_and!; [| |apply deref_ok; unfold PHYS_TOP in *; lia|lia].
  - split_and!; [|done| |].
    + eapply owns_ext; [exact Hs1|]. intros f Hf. cbn.
      destruct (in_bytes base (n * 0x1000) f) eqn:E; [|done]. exfalso.
      apply (Hdisj f); [|done]. apply frame_in_bytes; [done| |done].
      rewrite Forall_forall in Hok1. by destruct (Hok1 f Hf) as (? & ? & ?).
    + intros f (i & Hi & ->)%elem_of_range_frames. unfold zeroed; cbn.
      by rewrite (proj2 (in_bytes_true base (n * 0x1000) (base + i * 0x1000))) by lia.
    + intros f Hf Hnin. cbn [snd zero_bytes table meta32].
      destruct (in_bytes base (n * 0x1000) f) eqn:E; [|by rewrite Htab, H32].
      exfalso. by apply Hnin, frame_in_bytes.
  - apply Page_new_ok; [|done]. unfold PHYS_TOP in *. lia.
Qed.

Lemma frames_from_all_nil k ls : (∀ j l, ls !! j = Some l → l = []) → frames_from k ls = [].
Proof.
  revert k. induction ls as [|l ls IH]; intros k H; cbn; [done|].
  rewrite (H 0%nat l) by done. cbn. apply IH. intros j l'. apply (H (S j)).
Qed.

(** No free block of order [ord] or larger. *)
Definition no_block (s : alloc_world) (ord : Z) : Prop :=
  ∀ j, ord ≤ Z.of_nat j → (j < 19)%nat → free_lists (fst s) !! j = Some None.

Lemma request_spec s F ord :
  owns s F → 0 ≤ ord →
  (∃ base s' F', request_page_of_order off s ord = Done (Some base, s') ∧ ord ≤ MAX_ORDER ∧
     owns s' F' ∧ F ≡ₚ range_frames base (2 ^ ord) ++ F' ∧ same_outside F s s') ∨
  (request_page_of_order off s ord = Done (None, s) ∧ no_block s ord ∧ (ord = 0 → F = [])).
Proof using Hoff.
  intros (ls & Hr & HF) Hord. unfold request_page_of_order.
  destruct (request_loop_ok 20 s ls ord Hr Hord) as [(base & s' & F' & -> & ? & ? & HF' & Hout)|[-> Hn]]; [lia|lia| |].
  - left. exists base, s', F'. split_and!; try done; [by rewrite <- HF|].
    eapply same_outside_mono; [|exact Hout]. intros f. by rewrite HF.
  - right. split_and!; [done| |].
    + intros j Hj Hlt. destruct s as [a m]. cbn [fst].
      destruct (alloc_repr_head a m ls j Hr Hlt) as (l & Hl & -> & _).
      by rewrite (Hn j l Hj Hl).
    + intros ->. apply Permutation_nil. rewrite <- HF.
      rewrite (frames_from_all_nil 0 ls); [done|]. intros j l. apply Hn. lia.
Qed.

Lemma allocate_page_ok s F :
  owns s F →
  (∃ base s' F', allocate_page off s = Done (Some (mkPage base), s') ∧ took s F base 1 s' F') ∨
  (allocate_page off s = Done (None, s) ∧ F = []).
Proof using Hoff.
  intros Hs. unfold allocate_page.
  destruct (request_spec s F 0 Hs) as [(base & s' & F' & -> & _ & Hs' & HF & Hout)|(-> & _ & Hnil)]; [lia| |];
    cbn [mbind outcome_bind]; [left|right; by rewrite Hnil].
  change (2 ^ 0) with 1 in HF.
  destruct (take_and_zero s s' F F' base 1 Hs) as (? & Hnew & -> & _); [lia|done..|].
  cbn [mbind outcome_bind]. rewrite Hnew. cbn [mbind outcome_bind]. eauto 10.
Qed.

Lemma allocate_pages_ok s F count :
  owns s F → 0 < count →
  (∃ base s' F', allocate_pages off s count = Done (Some (mkPage base), s') ∧ took s F base count s' F') ∨
  (allocate_pages off s count = Done (None, s) ∧ no_block s (Z.log2_up count)).
Proof using Hoff.
  intros Hs Hc. unfold allocate_pages. rewrite ilog2_ok by done. cbn [mbind outcome_bind].
  pose proof (Z.log2_nonneg count) as Hlog. rewrite pages_in_order_pow by done.
  assert (Hfin : ∀ base s1 F1, owns s1 F1 → F ≡ₚ range_frames base count ++ F1 → same_outside F s s1 →
    ∃ s' F', (_ ← deref off base; p ← Page_new Size4KB base;
              Done (Some p, (fst s1, zero_bytes (snd s1) base (count * 0x1000)))) =
             Done (Some (mkPage base), s') ∧
             took s F base count s' F' ∧ count * 0x1000 ≤ PHYS_TOP).
  { intros base s1 F1 Hs1 HF Hout.
    destruct (take_and_zero s s1 F F1 base count Hs Hc Hs1 HF Hout) as (? & Hnew & -> & ?).
    cbn [mbind outcome_bind]. rewrite Hnew. cbn. eauto. }
  destruct (Z.eqb_spec (2 ^ Z.log2 count) count) as [Heq|Hne].
  - destruct (request_spec s F (Z.log2 count) Hs Hlog)
      as [(base & s' & F' & -> & _ & Hs' & HF & Hout)|(-> & Hno & _)]; cbn [mbind outcome_bind].
    + rewrite Heq in HF. destruct (Hfin base s' F') as (? & ? & Hd & ? & ?); [done..|].
      unfold PHYS_TOP in *. arith_ok. left; eauto 10.
    + right. split; [done|].
      assert (Z.log2_up count = Z.log2 count) as ->; [|done].
      rewrite <- Heq at 1. by apply Z.log2_up_pow2.
  - destruct (Z.log2_spec count Hc) as [Hlo Hhi]. rewrite <- Z.add_1_r in Hhi.
    assert (Hup : Z.log2_up count = Z.log2 count + 1).
    { pose proof (Z.le_log2_log2_up count). pose proof (Z.le_log2_up_succ_log2 count).
      assert (Z.log2_up count ≠ Z.log2 count); [|lia]. intros E.
      destruct (Z.eq_dec count 1) as [->|]; [done|].
      destruct (Z.log2_up_spec count ltac:(lia)) as [_ Hu]. rewrite E in Hu. lia. }
    destruct (request_spec s F (Z.log2 count + 1) Hs) as [(base & s' & F' & -> & Hle & Hs' & HF & Hout)|(-> & Hno & _)];
      [lia| |]; cbn [mbind outcome_bind]; [|right; by rewrite Hup].
    rewrite pages_in_order_pow by lia. unfold MAX_ORDER in *.
    replace (2 ^ (Z.log2 count + 1)) with (count + (2 ^ (Z.log2 count + 1) - count)) in HF by lia.
    rewrite range_frames_app in HF by lia.
    destruct (owns_frames s F Hs) as [Hnd Hok]. rewrite HF in Hnd, Hok.
    apply Forall_app in Hok as [Hok _]. apply Forall_app in Hok as [Hok1 Hok2].
    apply NoDup_app in Hnd as (_ & Hdisj & _).
    destruct (range_frames_end base count Hc Hok1) as (? & ? & ?). unfold PHYS_TOP in *. arith_ok.
    destruct (insert_free_of_range_ok s' F' (base + count * 0x1000) (2 ^ (Z.log2 count + 1) - count) Hs')
      as (s2 & -> & Hs2 & Hout2); [lia|done|set_solver|]. cbn [mbind outcome_bind].
    destruct (Hfin base s2 (range_frames (base + count * 0x1000) (2 ^ (Z.log2 count + 1) - count) ++ F'))
      as (? & ? & ? & ? & ?); [done|by rewrite HF, (assoc_L (++))| |left; eauto 10].
    eapply same_outside_mono; [|by eapply same_outside_trans].
    intros f [Hf|Hf]%elem_of_app; [done|]. rewrite HF. set_solver.
Qed.

Lemma free_page_ok s F f :
  owns s F → frame_ok f → f ∉ F →
  ∃ s', free_page off s (mkPage f) = Done s' ∧ owns s' (f :: F) ∧ same_outside [f] s s'.
Proof using Hoff.
  intros Hs Hf Hnin. unfold free_page. cbn [get_address].
  destruct (insert_free_of_order_ok s F f 0 Hs) as (s' & ? & ? & ?);
    change (2 ^ 0) with 1 in *; rewrite ?range_frames_one in *;
    [unfold MAX_ORDER; lia|by apply Forall_singleton|set_solver|eauto].
Qed.

Lemma free_pages_ok s F base count :
  owns s F → 0 < base → Forall frame_ok (range_frames base count) → (∀ f, f ∈ range_frames base count → f ∉ F) →
  ∃ s' F', free_pages off s (mkPage base) count = Done s' ∧
           owns s' F' ∧ F' ≡ₚ range_frames base count ++ F.
Proof using Hoff.
  intros Hs Hpos Hok Hd. unfold free_pages. cbn [get_address]. unfold range_frames in *.
  pose proof (NoDup_seq 0 (Z.to_nat count)) as Hnd. revert Hnd Hok Hd Hs.
  generalize (seq 0 (Z.to_nat count)) as js. intros js. revert s F.
  induction js as [|i js IH]; intros s F Hnd Hok Hd Hs; cbn [fmap list_fmap free_pages_loop] in *.
  { exists s, F. done. }
  apply Forall_cons in Hok as [Hi Hok]. apply NoDup_cons in Hnd as [Hni Hnd].
  pose proof Hi as (? & ? & ?). unfold PHYS_TOP in *. arith_ok.
  rewrite Page_new_ok by (cbn; lia). cbn [mbind outcome_bind].
  destruct (free_page_ok s F (base + Z.of_nat i * 0x1000) Hs) as (s1 & -> & Hs1 & _);
    [done|set_solver|]. cbn [mbind outcome_bind].
  destruct (IH s1 (base + Z.of_nat i * 0x1000 :: F) Hnd Hok) as (s2 & F2 & -> & Hs2 & HF2); [|done|].
  { intros f Hf. apply not_elem_of_cons. split; [|set_solver].
    apply list_elem_of_fmap in Hf as (j & -> & Hj). intros Heq.
    assert (i = j) as -> by lia. done. }
  exists s2, F2. split_and!; [done..|]. rewrite HF2. by rewrite <- Permutation_middle.
Qed.

(** ** Initialisation from the memory map *)

(** The conventional descriptors: aligned, ascending and disjoint, all above [lo]
    and inside the physical window. *)
Fixpoint mmap_ok (lo : Z) (ds : list MemoryDescriptor) : Prop :=
  match ds with
  | [] => True
  | d :: ds =>
      lo ≤ phys_start d ∧ phys_start d mod 0x1000 = 0 ∧ 0 ≤ page_count d ∧
      phys_start d + page_count d * 0x1000 ≤ PHYS_TOP ∧
      mmap_ok (phys_start d + page_count d * 0x1000) ds
  end.

Definition md_frames (ds : list MemoryDescriptor) : list Z :=
  ds ≫= λ d, range_frames (phys_start d) (page_count d).

Lemma md_frames_lo lo ds f : mmap_ok lo ds → f ∈ md_frames ds → lo ≤ f.
Proof.
  revert lo. induction ds as [|d ds IH]; intros lo; cbn; [set_solver|].
  intros (? & ? & ? & ? & ?) [(i & ? & ->)%elem_of_range_frames|Hf]%elem_of_app; [lia|].
  specialize (IH _ ltac:(done) Hf). lia.
Qed.

Lemma range_frames_ok b n : 0 < b → b mod 0x1000 = 0 → b + n * 0x1000 ≤ PHYS_TOP →
  Forall frame_ok (range_frames b n).
Proof.
  intros Hb Hm He. apply Forall_forall. intros f (i & Hi & ->)%elem_of_range_frames.
  split_and!; [lia| |lia]. rewrite Z_mod_plus_full. done.
Qed.

Lemma insert_rest_ok ds : ∀ s F lo,
  owns s F → mmap_ok lo ds → 0 < lo → (∀ f, f ∈ F → f < lo) →
  0 ≤ total_free (fst s) → total_free (fst s) * 0x1000 ≤ lo →
  ∃ s' F', insert_rest off s ds = Done s' ∧ owns s' F' ∧ F' ≡ₚ md_frames ds ++ F ∧
           meta32 (snd s') = meta32 (snd s) ∧ reserved_32bit (fst s') = reserved_32bit (fst s) ∧
           captured_0x8000 (fst s') = captured_0x8000 (fst s) ∧
           total_free (fst s') = total_free (fst s) + Z.of_nat (length (md_frames ds)).
Proof using Hoff.
  induction ds as [|d ds IH]; intros s F lo Hs Hmm Hlo Hlt Ht0 Ht; cbn [insert_rest md_frames mbind].
  { exists s, F. split_and!; try done. cbn. lia. }
  destruct Hmm as (Hd1 & Hd2 & Hd3 & Hd4 & Hmm). unfold PHYS_TOP in *.
  destruct s as [a m]; cbn [fst snd] in *. arith_ok.
  destruct (insert_free_of_range_ok (set_total_free a (total_free a + page_count d), m) F
              (phys_start d) (page_count d)) as (s1 & -> & Hs1 & (_ & H32 & _ & Hres & Hcap & Htf)).
  { exact Hs. } { done. } { apply range_frames_ok; unfold PHYS_TOP; lia. }
  { intros f (i & ? & ->)%elem_of_range_frames Hf%Hlt. lia. }
  cbn [mbind outcome_bind fst snd set_total_free total_free] in *.
  destruct (IH s1 _ (phys_start d + page_count d * 0x1000) Hs1 Hmm) as (s2 & F2 & -> & Hs2 & HF2 & E1 & E2 & E3 & E4);
    [lia| |lia|lia|].
  { intros f [(i & ? & ->)%elem_of_range_frames|Hf%Hlt]%elem_of_app; lia. }
  eexists s2, F2. split_and!; [done|done| |by rewrite E1|by rewrite E2|by rewrite E3|].
  - rewrite HF2. change (md_frames (d :: ds)) with (range_frames (phys_start d) (page_count d) ++ md_frames ds).
    rewrite !(assoc_L (++)). f_equiv. apply Permutation_app_comm.
  - rewrite E4, Htf. change (md_frames (d :: ds)) with (range_frames (phys_start d) (page_count d) ++ md_frames ds).
    rewrite length_app. unfold range_frames. rewrite length_fmap, length_seq. lia.
Qed.

(** ** The reserved 32-bit pages *)

(** Following [next_node] from [h] visits [l] and ends in [t]. *)
Fixpoint seg32 (m : PMem) (h : option Z) (l : list Z) (t : option Z) : Prop :=
  match l with
  | [] => h = t
  | a :: l => h = Some a ∧ seg32 m (meta32 m a) l t
  end.

Lemma seg32_ext m m' h l t :
  (∀ a, a ∈ l → meta32 m' a = meta32 m a) → seg32 m h l t → seg32 m' h l t.
Proof.
  revert h. induction l as [|a l IH]; intros h Hm; cbn; [done|].
  intros [-> ?]. split; [done|]. rewrite Hm by set_solver. apply IH; [set_solver|done].
Qed.

Lemma seg32_cons m h a l t : seg32 m h (a :: l) t ↔ h = Some a ∧ seg32 m (meta32 m a) l t.
Proof. done. Qed.

(** The 32-bit list holds the pages [R]; its last node still carries whatever
    [m0], the memory at boot, had in that frame. *)
Definition reserved_repr (m0 : PMem) (s : alloc_world) (R : list Z) : Prop :=
  NoDup R ∧ (∀ a, a ∉ R → meta32 (snd s) a = meta32 m0 a) ∧
  match last R with
  | None => reserved_32bit (fst s) = None
  | Some z => seg32 (snd s) (reserved_32bit (fst s)) R (meta32 m0 z)
  end.

Lemma free_32bit_ok m0 s R p :
  reserved_repr m0 s R → p ∉ R → 0 ≤ p < PHYS_TOP →
  ∃ s', free_32bit_reserved_page off s p = Done s' ∧ reserved_repr m0 s' (p :: R) ∧
        free_lists (fst s') = free_lists (fst s) ∧ meta (snd s') = meta (snd s) ∧
        captured_0x8000 (fst s') = captured_0x8000 (fst s) ∧ total_free (fst s') = total_free (fst s).
Proof using Hoff.
  destruct s as [a m]. intros (Hnd & Hout & Hl) Hp Hb. unfold free_32bit_reserved_page.
  rewrite deref_ok by done. cbn [mbind outcome_bind fst snd] in *.
  destruct R as [|r R].
  - cbn in Hl. rewrite Hl. eexists; split_and!; [reflexivity| |done..].
    split_and!; [by apply NoDup_singleton|set_solver|]. cbn. split; [done|]. apply Hout. set_solver.
  - destruct (last (r :: R)) as [z|] eqn:Elast; [|by apply last_None in Elast].
    pose proof Hl as [Hr _]. cbn in Hr. rewrite Hr. eexists; split_and!; [reflexivity| |done..].
    split_and!.
    + by apply NoDup_cons.
    + intros x Hx. cbn. rewrite fn_lookup_insert_ne by set_solver. apply Hout. set_solver.
    + rewrite last_cons, Elast. apply seg32_cons. split; [done|].
      replace (meta32 (snd _) p) with (reserved_32bit a) by (cbn; by rewrite fn_lookup_insert).
      eapply seg32_ext; [|exact Hl]. intros x Hx. cbn.
      apply fn_lookup_insert_ne. set_solver.
Qed.

Lemma reserve_pages_ok m0 ps : ∀ s R,
  reserved_repr m0 s R → NoDup ps → (∀ p, p ∈ ps → p ∉ R ∧ 0 ≤ p < PHYS_TOP) →
  ∃ s', reserve_pages off s ps = Done s' ∧ reserved_repr m0 s' (reverse ps ++ R) ∧
        free_lists (fst s') = free_lists (fst s) ∧ meta (snd s') = meta (snd s) ∧
        captured_0x8000 (fst s') = captured_0x8000 (fst s) ∧ total_free (fst s') = total_free (fst s).
Proof using Hoff.
  induction ps as [|p ps IH]; intros s R Hr Hnd Hps; cbn [reserve_pages]; [by exists s|].
  apply NoDup_cons in Hnd as [Hp Hnd]. destruct (Hps p) as [HpR Hpb]; [set_solver|].
  destruct (free_32bit_ok m0 s R p Hr HpR Hpb) as (s1 & -> & Hr1 & E1 & E2 & E3 & E4).
  cbn [mbind outcome_bind].
  destruct (IH s1 (p :: R) Hr1 Hnd) as (s2 & -> & Hr2 & F1 & F2 & F3 & F4).
  { intros q Hq. destruct (Hps q); [set_solver|]. set_solver. }
  exists s2. rewrite reverse_cons, <- (assoc_L (++)). split_and!; [done|done|congruence..].
Qed.

Definition total_pages (ds : list MemoryDescriptor) : Z :=
  foldr (λ d n, page_count d + n) 0 ds.

Lemma filter_ne_length (x : Z) l : NoDup l →
  (length l ≤ S (length (filter (λ p, p ≠ x) l)))%nat ∧
  (x ∉ l → filter (λ p, p ≠ x) l = l).
Proof.
  induction 1 as [|y l Hy Hnd [IH1 IH2]]; [by split; [cbn; lia|]|]. split.
  - destruct (decide (y = x)) as [->|].
    + rewrite filter_cons_False by naive_solver. rewrite IH2 by done. cbn. lia.
    + rewrite filter_cons_True by done. cbn. lia.
  - intros Hx. rewrite filter_cons_True by set_solver. f_equal. apply IH2. set_solver.
Qed.

(** The state of the first loop of [new] between two descriptors. *)
Record capture_inv (m0 : PMem) (s : alloc_world) (R : list Z) (found lo : Z) : Prop := {
  ci_owns : owns s [];
  ci_res : reserved_repr m0 s R;
  ci_lo : ∀ r, r ∈ R → 0 ≤ r < lo ∧ r ≠ 0x8000;
  ci_found : 0 ≤ found < 32 ∧ found * 0x1000 ≤ lo;
  ci_cap : captured_0x8000 (fst s) = true → 0x8000 < lo;
  ci_len : (captured_0x8000 (fst s) = false → Z.of_nat (length R) = found) ∧
           found ≤ Z.of_nat (length R) + 1 ∧ Z.of_nat (length R) ≤ found;
  ci_total : total_free (fst s) = 0;
}.

Lemma reserved_repr_ext m0 s s' R :
  reserved_repr m0 s R → meta32 (snd s') = meta32 (snd s) →
  reserved_32bit (fst s') = reserved_32bit (fst s) → reserved_repr m0 s' R.
Proof.
  intros (Hnd & Hout & Hl) E1 E2. split_and!; [done|by rewrite E1|]. rewrite E2.
  destruct (last R); [|done]. eapply seg32_ext; [|exact Hl]. intros. by rewrite E1.
Qed.

Lemma owns_same_lists s s' F :
  owns s F → free_lists (fst s') = free_lists (fst s) → meta (snd s') = meta (snd s) → owns s' F.
Proof.
  destruct s as [a m], s' as [a' m']; cbn. intros (ls & (Hseg & ?) & HF) E1 E2.
  exists ls. split; [|done]. split; [|done]. cbn in *. rewrite E1.
  eapply Forall2_seg_ext; [|exact Hseg]. intros. by rewrite E2.
Qed.

(** What one descriptor adds to the 32-bit list. *)
Lemma reserve_descriptor_ok m0 s R lo d taken :
  owns s [] → reserved_repr m0 s R → (∀ r, r ∈ R → 0 ≤ r < lo ∧ r ≠ 0x8000) →
  total_free (fst s) = 0 → 0 ≤ lo ≤ phys_start d → phys_start d mod 0x1000 = 0 →
  phys_start d + page_count d * 0x1000 ≤ PHYS_TOP → 0 ≤ taken ≤ page_count d →
  ∃ s1 R1, reserve_pages off s (filter (λ p, p ≠ 0x8000) (range_frames (phys_start d) taken)) = Done s1 ∧
    reserved_repr m0 s1 R1 ∧ owns s1 [] ∧ total_free (fst s1) = 0 ∧
    captured_0x8000 (fst s1) = captured_0x8000 (fst s) ∧
    (∀ r, r ∈ R1 → 0 ≤ r < phys_start d + taken * 0x1000 ∧ r ≠ 0x8000) ∧
    Z.of_nat (length R1) ≤ Z.of_nat (length R) + taken ∧
    Z.of_nat (length R) + taken - 1 ≤ Z.of_nat (length R1) ∧
    (¬ in_bytes (phys_start d) (page_count d * 0x1000) 0x8000 = true →
     Z.of_nat (length R1) = Z.of_nat (length R) + taken).
Proof using Hoff.
  intros Hown Hres Hlo Htot Hd1 Hd2 Hd4 Ht.
  pose proof (range_frames_NoDup (phys_start d) taken) as Hnd.
  destruct (filter_ne_length 0x8000 _ Hnd) as [Hl1 Hl2].
  assert (Hlen' : length (range_frames (phys_start d) taken) = Z.to_nat taken)
    by (unfold range_frames; by rewrite length_fmap, length_seq).
  pose proof (length_filter (λ p, p ≠ 0x8000) (range_frames (phys_start d) taken)) as Hl3.
  destruct (reserve_pages_ok m0 (filter (λ p, p ≠ 0x8000) (range_frames (phys_start d) taken)) s R Hres)
    as (s1 & -> & Hr1 & E1 & E2 & E3 & E4).
  { by apply NoDup_filter. }
  { intros p [_ (i & ? & ->)%elem_of_range_frames]%list_elem_of_filter. unfold PHYS_TOP in *.
    split; [|lia]. intros [? _]%Hlo. lia. }
  eexists s1, _. split_and!; [done|done|by eapply owns_same_lists|congruence|done| | | |].
  - intros r [Hr|Hr]%elem_of_app.
    + apply elem_of_reverse, list_elem_of_filter in Hr as [Hne (i & ? & ->)%elem_of_range_frames]. lia.
    + destruct (Hlo r Hr). lia.
  - rewrite length_app, length_reverse. lia.
  - rewrite length_app, length_reverse. lia.
  - intros Hin. rewrite length_app, length_reverse, Hl2; [lia|].
    intros (i & ? & Heq)%elem_of_range_frames. apply Hin, in_bytes_true. lia.
Qed.

(** The descriptor at which the 32 reserved pages are complete. *)
Lemma capture_finish m0 s1 R1 found d taken ds :
  owns s1 [] → reserved_repr m0 s1 R1 → total_free (fst s1) = 0 →
  (∀ r, r ∈ R1 → 0 ≤ r < phys_start d + taken * 0x1000 ∧ r ≠ 0x8000) →
  31 ≤ Z.of_nat (length R1) ≤ 32 →
  0 ≤ found < 32 → found * 0x1000 ≤ phys_start d → found + taken = 32 → taken ≤ page_count d →
  phys_start d mod 0x1000 = 0 → phys_start d + page_count d * 0x1000 ≤ PHYS_TOP →
  mmap_ok (phys_start d + page_count d * 0x1000) ds →
  ∃ s' rest R' F lo',
    (amount_left ← chk u64_lim (page_count d - taken);
     tf ← chk u64_lim (total_free (fst s1) + amount_left);
     bytes ← chk u64_lim (taken * 0x1000);
     start ← chk u64_lim (phys_start d + bytes);
     s ← insert_free_of_range off (set_total_free (fst s1) tf, snd s1) start amount_left;
     Done (s, ds)) = Done (s', rest) ∧
    owns s' F ∧ reserved_repr m0 s' R' ∧ mmap_ok lo' rest ∧ 0x8000 < lo' ∧
    (∀ f, f ∈ F → 0x8000 < f < lo') ∧ (∀ r, r ∈ R' → r ∉ F ∧ r < lo' ∧ r ≠ 0x8000) ∧
    31 ≤ Z.of_nat (length R') ≤ 32 ∧ total_free (fst s') = Z.of_nat (length F) ∧
    total_free (fst s') * 0x1000 ≤ lo' ∧
    (∀ f, f ∈ F ∨ f ∈ md_frames rest → f ∈ md_frames (d :: ds)).
Proof using Hoff.
  intros Hown Hres Htot HR Hlen Hf Hfs Heq Htc Hal Hend Hmm.
  assert (HPT : PHYS_TOP = 2 ^ 44) by done. rewrite Htot.
  repeat (rewrite chk_ok by (unfold u64_lim; lia); cbn [mbind outcome_bind]).
  set (F := range_frames (phys_start d + taken * 0x1000) (page_count d - taken)).
  assert (HF : ∀ f, f ∈ F → phys_start d + taken * 0x1000 ≤ f < phys_start d + page_count d * 0x1000).
  { intros f (i & ? & ->)%elem_of_range_frames. lia. }
  destruct (insert_free_of_range_ok (set_total_free (fst s1) (0 + (page_count d - taken)), snd s1) []
              (phys_start d + taken * 0x1000) (page_count d - taken))
    as (s' & -> & Ho & (_ & H32 & _ & Hr' & _ & Htf)).
  { by eapply owns_same_lists. } { lia. }
  { apply range_frames_ok; [lia| |lia]. by rewrite Z_mod_plus_full. } { set_solver. }
  rewrite app_nil_r in Ho. fold F in Ho. cbn [mbind outcome_bind fst snd set_total_free total_free reserved_32bit] in *.
  assert (HlenF : Z.of_nat (length F) = page_count d - taken).
  { unfold F, range_frames. rewrite length_fmap, length_seq. lia. }
  eexists s', ds, R1, F, _. split_and!; [done|done| |exact Hmm|lia| | |lia|lia|lia|lia|].
  - by eapply reserved_repr_ext.
  - intros f Hf'%HF. lia.
  - intros r Hr. destruct (HR r Hr). split_and!; [|lia|done]. intros Hf'%HF. lia.
  - intros f Hf'. change (md_frames (d :: ds)) with (range_frames (phys_start d) (page_count d) ++ md_frames ds).
    apply elem_of_app. destruct Hf' as [Hf'|]; [left|by right].
    apply elem_of_range_frames in Hf' as (i & ? & ->). apply elem_of_range_frames.
    exists (taken + i). lia.
Qed.

Lemma capture_reserved_ok m0 ds : ∀ s R found lo,
  capture_inv m0 s R found lo → mmap_ok lo ds → 0 ≤ lo →
  33 ≤ found + total_pages ds ∨ (captured_0x8000 (fst s) = true ∧ 32 ≤ found + total_pages ds) →
  ∃ s' rest R' F lo', capture_reserved off s found ds = Done (s', rest) ∧
    owns s' F ∧ reserved_repr m0 s' R' ∧ mmap_ok lo' rest ∧ 0x8000 < lo' ∧
    (∀ f, f ∈ F → 0x8000 < f < lo') ∧ (∀ r, r ∈ R' → r ∉ F ∧ r < lo' ∧ r ≠ 0x8000) ∧
    31 ≤ Z.of_nat (length R') ≤ 32 ∧ total_free (fst s') = Z.of_nat (length F) ∧
    total_free (fst s') * 0x1000 ≤ lo' ∧
    (∀ f, f ∈ F ∨ f ∈ md_frames rest → f ∈ md_frames ds).
Proof using Hoff.
  induction ds as [|d ds IH]; intros s R found lo Hinv Hmm Hlo0 Hen; cbn [capture_reserved].
  { destruct Hinv as [_ _ _ [? _] _ _ _]. cbn in Hen. naive_solver lia. }
  destruct Hmm as (Hd1 & Hd2 & Hd3 & Hd4 & Hmm).
  pose proof (ci_found _ _ _ _ _ Hinv) as [Hf1 Hf2]. pose proof (ci_cap _ _ _ _ _ Hinv) as Hcap.
  pose proof (ci_len _ _ _ _ _ Hinv) as (Hlen1 & Hlen2 & Hlen3).
  cbn [total_pages foldr] in Hen. fold (total_pages ds) in Hen.
  assert (HPT : PHYS_TOP = 2 ^ 44) by done. arith_keep.
  replace (phys_start d + page_count d * 0x1000 - phys_start d) with (page_count d * 0x1000) by lia.
  set (c := in_bytes (phys_start d) (page_count d * 0x1000) 0x8000).
  assert (Hcc : c = true → captured_0x8000 (fst s) = false ∧ 0x8000 < phys_start d + page_count d * 0x1000).
  { intros Hc%in_bytes_true. split; [|lia]. destruct (captured_0x8000 (fst s)); [|done]. lia. }
  assert (∃ s0, (if c then pages ← chk u64_lim (page_count d - 1);
                     Done ((set_captured (fst s) true, snd s), pages) else Done (s, page_count d))
              = Done (s0, page_count d - Z.b2z c) ∧
              free_lists (fst s0) = free_lists (fst s) ∧ reserved_32bit (fst s0) = reserved_32bit (fst s) ∧
              total_free (fst s0) = total_free (fst s) ∧ snd s0 = snd s ∧
              captured_0x8000 (fst s0) = captured_0x8000 (fst s) || c)
    as (s0 & -> & E1 & E2 & E3 & E4 & E5).
  { destruct c eqn:Ec; cbn [Z.b2z].
    - apply in_bytes_true in Ec. rewrite chk_ok by (unfold u64_lim; lia). cbn.
      eexists; split_and!; [reflexivity|done..|by rewrite orb_true_r].
    - exists s. by rewrite Z.sub_0_r, orb_false_r. }
  rewrite bind_ret. cbv beta iota. unfold RESERVED_32BIT_MEM_PAGES.
  assert (Hbz : 0 ≤ Z.b2z c ≤ 1) by (destruct c; cbn; lia).
  assert (Hcpos : c = true → 1 ≤ page_count d) by (intros Hc%in_bytes_true; lia).
  assert (Z.b2z c ≤ page_count d) by (destruct c; cbn; [by apply Hcpos|done]).
  set (taken := Z.min (page_count d - Z.b2z c) (32 - found)).
  rewrite (chk_ok _ (32 - found)), bind_ret by (unfold u64_lim; lia). cbv beta. fold taken.
  rewrite (chk_ok _ (found + taken)), bind_ret by (unfold u64_lim; lia). cbv beta.
  rewrite (Z.min_l taken (page_count d)) by lia.
  destruct (reserve_descriptor_ok m0 s0 R lo d taken) as (s1 & R1 & -> & Hr1 & Ho1 & Ht1 & Hc1 & Hlo1 & Hln1 & Hln2 & Hln3);
    [eapply owns_same_lists; [exact (ci_owns _ _ _ _ _ Hinv)|done|by rewrite E4]
    |eapply reserved_repr_ext; [exact (ci_res _ _ _ _ _ Hinv)|by rewrite E4|done]
    |exact (ci_lo _ _ _ _ _ Hinv)|rewrite E3; exact (ci_total _ _ _ _ _ Hinv)|lia|done|done|lia|].
  rewrite bind_ret. cbv beta. fold c in Hln3. clearbody c.
  assert (Hlen' : found + taken ≤ Z.of_nat (length R1) + 1 ∧ Z.of_nat (length R1) ≤ found + taken).
  { destruct c; [|rewrite Hln3 by done; lia]. pose proof (Hlen1 (proj1 (Hcc eq_refl))). lia. }
  destruct (Z.eqb_spec (found + taken) 32) as [Heq|Hne].
  - apply (capture_finish m0 s1 R1 found d taken ds); try done; lia.
  - bool_cases; [lia|].
    assert (Htk : taken = page_count d - Z.b2z c) by lia.
    destruct (IH s1 R1 (found + taken) (phys_start d + page_count d * 0x1000))
      as (s' & rest & R' & F & lo' & -> & H1 & H2 & H3 & H4 & H5 & H6 & H7 & H8 & H9 & H10); [|done|lia| |].
    + split; [done|done| |lia| | |done].
      * intros r Hr. destruct (Hlo1 r Hr). lia.
      * rewrite Hc1, E5. intros [Hc|Hc]%orb_true_iff; [|by apply Hcc]. specialize (Hcap Hc). lia.
      * rewrite Hc1, E5, orb_false_iff. split; [|lia].
        intros [? Hcf]. rewrite Hln3, Hlen1 by (done || by rewrite Hcf). done.
    + rewrite Hc1, E5, Htk. destruct c; cbn [Z.b2z] in *.
      * destruct (Hcc eq_refl) as [Hcf _]. rewrite Hcf in *. right. split; [done|].
        destruct Hen as [?|[? _]]; [lia|done].
      * rewrite orb_false_r. destruct Hen as [?|[? ?]]; [left; lia|right; split; [done|lia]].
    + exists s', rest, R', F, lo'. split_and!; try (done || lia).
      intros f Hf. change (md_frames (d :: ds)) with (range_frames (phys_start d) (page_count d) ++ md_frames ds).
      apply elem_of_app. right. by apply H10.
Qed.
End operations.

(** ** Correctness of the allocator

    The claims below hold for every [MEM_OFFSET] that leaves room for the
    physical window. *)

(** Putting a page range back splits it into power-of-two blocks in at most
    [n] rounds, never panics, and adds exactly the frames of the range to the
    pool; no other frame's metadata, no table and no other field changes. *)
Theorem insert_free_of_range_spec off s F start n :
  offset_ok off → owns s F → 0 ≤ n →
  Forall frame_ok (range_frames start n) → (∀ f, f ∈ range_frames start n → f ∉ F) →
  ∃ s', insert_free_of_range off s start n = Done s' ∧
        owns s' (range_frames start n ++ F) ∧ same_outside (range_frames start n) s s'.
Proof. intros. by apply insert_free_of_range_ok. Qed.

(** C4: requesting a block of [2^ord] pages either takes exactly the frames of
    one such block out of the pool, splitting larger blocks as needed and losing
    nothing, or fails without any change because no list of that order or a
    larger one has a block. *)
Theorem request_page_of_order_spec off s F ord :
  offset_ok off → owns s F → 0 ≤ ord →
  (∃ base s' F', request_page_of_order off s ord = Done (Some base, s') ∧ ord ≤ MAX_ORDER ∧
     owns s' F' ∧ F ≡ₚ range_frames base (2 ^ ord) ++ F' ∧ same_outside F s s') ∨
  (request_page_of_order off s ord = Done (None, s) ∧ no_block s ord ∧ (ord = 0 → F = [])).
Proof. intros. by apply request_spec. Qed.

(** [allocate_pages] hands out [count] consecutive zeroed frames that were
    free and leaves the pool without them (the unused tail of the block goes
    back), or fails without any change because no block of at least [count]
    pages is free. *)
Theorem allocate_pages_spec off s F count :
  offset_ok off → owns s F → 0 < count →
  (∃ base s' F', allocate_pages off s count = Done (Some (mkPage base), s') ∧ took s F base count s' F') ∨
  (allocate_pages off s count = Done (None, s) ∧ no_block s (Z.log2_up count)).
Proof. intros. by apply allocate_pages_ok. Qed.

(** [free_pages] gives every frame of the range back to the pool. *)
Theorem free_pages_spec off s F base count :
  offset_ok off → owns s F → 0 < base →
  Forall frame_ok (range_frames base count) → (∀ f, f ∈ range_frames base count → f ∉ F) →
  ∃ s' F', free_pages off s (mkPage base) count = Done s' ∧ owns s' F' ∧ F' ≡ₚ range_frames base count ++ F.
Proof. intros. by apply free_pages_ok. Qed.

(** C14: from a sorted memory map with at least 33 conventional pages, [new]
    does not panic; it sets aside 31 or 32 pages for 32-bit use, and the pool it
    builds holds only conventional frames, disjoint from the reserved ones,
    never the AP boot page 0x8000, and [total_free] counts it exactly. *)
Theorem PageFrameAllocator_new_spec off m mmap :
  offset_ok off →
  let cs := filter (λ e, md_conventional e = true) mmap in
  mmap_ok 0 cs → 33 ≤ total_pages cs →
  ∃ s F R, PageFrameAllocator_new off m mmap = Done s ∧ owns s F ∧ reserved_repr m s R ∧
    (∀ f, f ∈ F → f ∈ md_frames cs) ∧ 0x8000 ∉ F ∧ 0x8000 ∉ R ∧
    (∀ r, r ∈ R → r ∉ F) ∧ 31 ≤ Z.of_nat (length R) ≤ 32 ∧
    total_free (fst s) = Z.of_nat (length F).
Proof.
  intros Hoff cs Hmm Htot. unfold PageFrameAllocator_new. fold cs.
  set (s0 := (mkPFA _ None false 0, m)).
  assert (Hinv : capture_inv m s0 [] 0 0).
  { split; [| |set_solver|lia|done|cbn; lia|done].
    - exists (replicate 19 []). rewrite frames_from_nil. split; [|done]. split_and!; [|done| |];
        rewrite ?frames_from_nil; [|by constructor..]. repeat constructor.
    - split_and!; [apply NoDup_nil_2|done|done]. }
  destruct (capture_reserved_ok off Hoff m cs s0 [] 0 0 Hinv Hmm)
    as (s1 & rest & R & F & lo & -> & Ho & Hr & Hmm' & Hlo & HF & HR & Hlen & Ht & Htl & Hin);
    [lia|lia|]. rewrite bind_ret. cbv beta iota.
  destruct (insert_rest_ok off Hoff rest s1 F lo Ho Hmm') as (s2 & F2 & -> & Ho2 & HF2 & E1 & E2 & _ & E4);
    [lia|intros f ?%HF; lia|lia|lia|].
  exists s2, F2, R. split_and!; try (done || lia).
  - by eapply reserved_repr_ext.
  - intros f. rewrite HF2, elem_of_app. naive_solver.
  - rewrite HF2, elem_of_app. intros [H%(md_frames_lo off Hoff lo rest _ Hmm')|H%HF]; lia.
  - intros H%HR. naive_solver.
  - intros r Hr2. destruct (HR r Hr2) as (? & ? & ?). rewrite HF2, elem_of_app.
    intros [Hx%(md_frames_lo off Hoff lo rest _ Hmm')|Hx]; [lia|done].
  - rewrite E4, Ht, HF2, length_app. lia.
Qed.

(** The first page put on an empty 32-bit list keeps the [next_node] its
    memory happened to hold: after that page is allocated, the list continues
    at the stale address, which the next allocation hands out although it was
    never reserved. *)
Theorem reserved_list_keeps_stale_next off a m page stale :
  offset_ok off → reserved_32bit a = None → meta32 m page = Some stale →
  frame_ok page → frame_ok stale →
  ∃ s1 s2 s3,
    free_32bit_reserved_page off (a, m) page = Done s1 ∧
    allocate_page_32bit off s1 = Done (Some (mkPage page), s2) ∧
    allocate_page_32bit off s2 = Done (Some (mkPage stale), s3).
Proof.
  intros Hoff Hres Hstale Hp Hs. unfold free_32bit_reserved_page.
  rewrite (frame_deref off Hoff page Hp), Hres. cbn [mbind outcome_bind].
  eexists _, _, _. split; [done|]. unfold allocate_page_32bit.
  cbn [set_reserved reserved_32bit]. rewrite (frame_deref off Hoff page Hp). cbn [mbind outcome_bind].
  destruct Hp as (? & ? & ?), Hs as (? & ? & ?). unfold PHYS_TOP in *.
  rewrite (Page_new_ok Size4KB page) by (cbn; lia). cbn [mbind outcome_bind]. split; [done|].
  cbn [set_reserved reserved_32bit]. rewrite Hstale.
  rewrite (deref_ok off Hoff stale) by (unfold PHYS_TOP; lia). cbn [mbind outcome_bind].
  rewrite (Page_new_ok Size4KB stale) by (cbn; lia). done.
Qed.

(** ** The buddy allocator implements the [PageAllocator] interface *)
#[export] Instance pfa_allocator (off : Z) : PageAllocator PageFrameAllocator := {
  pa_allocate_page := allocate_page off;
  pa_allocate_pages := allocate_pages off;
  pa_free_page := free_page off;
  pa_free_pages := free_pages off;
}.

#[export] Program Instance pfa_allocator_spec (off : Z) (Hoff : offset_ok off) :
  @PageAllocatorSpec PageFrameAllocator (pfa_allocator off) := {| pa_owns := owns |}.
Next Obligation. intros off Hoff s F. apply owns_frames. Qed.
Next Obligation. intros off Hoff a m m' F Hs E _. eapply owns_ext; [done|]. intros. by rewrite E. Qed.
Next Obligation.
  intros off Hoff s F Hs.
  destruct (allocate_page_ok off Hoff s F Hs) as [(b & s' & F' & E & Ho & HF & Hz & Ht)|]; [left|by right].
  rewrite range_frames_one in *.
  exists b, s', F'. split_and!; try done.
  - intros i. apply Hz. set_solver.
  - intros f Hf Hne. apply Ht; [done|set_solver].
Qed.
Next Obligation.
  intros off Hoff s F f Hs Hf Hnin.
  destruct (free_page_ok off Hoff s F f Hs Hf Hnin) as (s' & E & Ho & _ & _ & Ht & _). eauto.
Qed.

(** ** Concrete states *)
Definition demo_mem : PMem := mkPMem (λ _, meta_zero) (λ _, None) (λ _ _, pde_zero).


(** One free block of four pages at 0x10000. *)
Definition demo_world : alloc_world :=
  (mkPFA (<[2%nat := Some 0x10000]> (replicate 19 None)) None true 4, demo_mem).

Lemma demo_owns : owns demo_world (range_frames 0x10000 4).
Proof.
  exists (<[2%nat := [0x10000]]> (replicate 19 [])). split; [|vm_compute; reflexivity].
  split_and!; [cbn; repeat constructor|done| |].
  - apply (range_frames_NoDup 0x10000 4).
  - apply (range_frames_ok 0x10000 4); done.
Qed.

Lemma insert_free_of_range_spec_witness :
  ∃ s', insert_free_of_range PhysMapOffset demo_world 0x20000 5 = Done s' ∧
        owns s' (range_frames 0x20000 5 ++ range_frames 0x10000 4) ∧
        same_outside (range_frames 0x20000 5) demo_world s'.
Proof.
  apply insert_free_of_range_spec; [exact phys_map_offset_ok|exact demo_owns|done| |].
  - apply range_frames_ok; done.
  - intros f (i & ? & ->)%elem_of_range_frames (j & ? & ?)%elem_of_range_frames. lia.
Defined.

Lemma request_page_of_order_spec_witness :
  (∃ base s' F', request_page_of_order PhysMapOffset demo_world 0 = Done (Some base, s') ∧ 0 ≤ MAX_ORDER ∧
     owns s' F' ∧ range_frames 0x10000 4 ≡ₚ range_frames base (2 ^ 0) ++ F' ∧
     same_outside (range_frames 0x10000 4) demo_world s') ∨
  (request_page_of_order PhysMapOffset demo_world 0 = Done (None, demo_world) ∧
   no_block demo_world 0 ∧ (0 = 0 → range_frames 0x10000 4 = [])).
Proof. apply request_page_of_order_spec; [exact phys_map_offset_ok|exact demo_owns|done]. Defined.

Lemma allocate_pages_spec_witness :
  (∃ base s' F', allocate_pages PhysMapOffset demo_world 3 = Done (Some (mkPage base), s') ∧
     took demo_world (range_frames 0x10000 4) base 3 s' F') ∨
  (allocate_pages PhysMapOffset demo_world 3 = Done (None, demo_world) ∧ no_block demo_world (Z.log2_up 3)).
Proof. apply allocate_pages_spec; [exact phys_map_offset_ok|exact demo_owns|done]. Defined.

(** On this state the allocation succeeds and returns the tail page to the pool. *)
Example allocate_three :
  match allocate_pages PhysMapOffset demo_world 3 with
  | Done (Some p, s) => get_address p = 0x10000 ∧ take 3 (free_lists (fst s)) = [Some 0x13000; None; None]
  | _ => False
  end.
Proof. vm_compute. done. Qed.

Lemma free_pages_spec_witness :
  ∃ s' F', free_pages PhysMapOffset demo_world (mkPage 0x20000) 2 = Done s' ∧ owns s' F' ∧
           F' ≡ₚ range_frames 0x20000 2 ++ range_frames 0x10000 4.
Proof.
  apply free_pages_spec; [exact phys_map_offset_ok|exact demo_owns|done| |].
  - apply range_frames_ok; done.
  - intros f (i & ? & ->)%elem_of_range_frames (j & ? & ?)%elem_of_range_frames. lia.
Defined.

(** A map like QEMU's: conventional memory from page 1, a hole, more memory. *)
Definition demo_mmap : list MemoryDescriptor :=
  [mkMD true 0x1000 159; mkMD false 0xA0000 96; mkMD true 0x100000 1024].

Lemma PageFrameAllocator_new_spec_witness :
  let cs := filter (λ e, md_conventional e = true) demo_mmap in
  ∃ s F R, PageFrameAllocator_new PhysMapOffset demo_mem demo_mmap = Done s ∧ owns s F ∧
    reserved_repr demo_mem s R ∧ (∀ f, f ∈ F → f ∈ md_frames cs) ∧ 0x8000 ∉ F ∧ 0x8000 ∉ R ∧
    (∀ r, r ∈ R → r ∉ F) ∧ 31 ≤ Z.of_nat (length R) ≤ 32 ∧
    total_free (fst s) = Z.of_nat (length F).
Proof.
  apply PageFrameAllocator_new_spec; [exact phys_map_offset_ok| |done]. cbn. unfold PHYS_TOP. split_and!; done.
Defined.

Lemma reserved_list_keeps_stale_next_witness :
  let m := set_meta32 demo_mem 0x5000 (Some 0xdead000) in
  ∃ s1 s2 s3,
    free_32bit_reserved_page PhysMapOffset (fst demo_world, m) 0x5000 = Done s1 ∧
    allocate_page_32bit PhysMapOffset s1 = Done (Some (mkPage 0x5000), s2) ∧
    allocate_page_32bit PhysMapOffset s2 = Done (Some (mkPage 0xdead000), s3).
Proof. apply reserved_list_keeps_stale_next; [exact phys_map_offset_ok|done..]. Defined.
