(* ===== verification/PageTable.v ===== *)
(** * Page tables

    [kernel/src/paging/page_table.rs].  A [PageTable<L>] is the physical address
    of its table; the implementation of [Mapper<P>] for it that the compiler
    selects walks [n] levels down from level [L = level_of P + n], so [n] is the
    recursion argument here.  The tables live in [PMem]; the routines take any
    implementation of the [PageAllocator] interface.

    The reference the theorems use is [translate], the page walk the MMU does. *)
From S2P Require Import Prelude Page PhysMem AllocIface PageAlloc.

Record MapMemoryError := MemAlreadyMapped { mm_from : Z; mm_to : Z; mm_current : Z }.

Inductive UnMapMemoryError :=
  | MemNotMapped (a : Z)
  | PathNotFound (a : Z).

(** The address whose translation has to be flushed. *)
Record Flusher := mkFlusher { flush_addr : Z }.

(** [TableLevel]: the index of an address in a table of the level. *)
Definition INDEXER (LEVEL : nat) : Z := Z.of_nat LEVEL * 9 + 3.

Definition calculate_index (LEVEL : nat) (address : Z) : nat :=
  Z.to_nat (Z.land (Z.shiftr address (INDEXER LEVEL)) 0x1ff).

(** [TableLevelMap]: the level whose entries map pages of the size. *)
Definition level_of (P : PageSize) : nat :=
  match P with Size4KB => 1 | Size2MB => 2 | Size1GB => 3 end.

Definition LARGER_PAGES (P : PageSize) : bool :=
  match P with Size4KB => false | _ => true end.

(** The indices of a [[PageDirectoryEntry; 512]]. *)
Definition entry_ids : list nat := seq 0 512.

Definition all_entries_empty (m : PMem) (t : Z) : bool :=
  forallb (λ i, negb (present (table m t i))) entry_ids.

Section PageTable.
Context {A : Type} `{PageAllocator A} (off : Z).

Definition world : Type := A * PMem.

(** [PageTable::table]: the table is read through the offset map. *)
Definition table_deref (t : Z) : outcome unit := _ ← virt_addr_for_phys off t; Done tt.

(** [PageTable::new]. *)
Definition PageTable_new (s : world) : outcome (Z * world) :=
  '(p, s) ← pa_allocate_page s;
  page ← unwrap p;
  Done (get_address page, s).

Definition map_inner (P : PageSize) (s : world) (t : Z) (virtual_page physical_page : Page P)
    (flags : MemoryMappingFlags) : outcome (result Flusher MapMemoryError * world) :=
  let '(a, m) := s in
  let i := calculate_index (level_of P) (get_address virtual_page) in
  _ ← table_deref t;
  let e := table m t i in
  if present e then
    Done (Err (MemAlreadyMapped (get_address virtual_page) (get_address physical_page)
                 (pde_get_address e)), s)
  else
    e ← pde_set_address (pde_set_flags e true (LARGER_PAGES P) (WRITEABLE flags) (USERSPACE flags))
          (get_address physical_page);
    Done (Ok (mkFlusher (get_address virtual_page)), (a, set_entry m t i e)).

Definition unmap_inner (P : PageSize) (s : world) (t : Z) (page : Page P)
  : outcome (result Flusher UnMapMemoryError * world) :=
  let '(a, m) := s in
  let i := calculate_index (level_of P) (get_address page) in
  _ ← table_deref t;
  let e := table m t i in
  if negb (present e) then Done (Err (MemNotMapped (get_address page)), s)
  else
    _ ← assert_ (Bool.eqb (larger_pages e) (LARGER_PAGES P));
    e ← pde_set_address (pde_set_flags e false (larger_pages e) (read_write e) (user_super e)) 0;
    Done (Ok (mkFlusher (get_address page)), (a, set_entry m t i e)).

Definition address_of_inner (P : PageSize) (m : PMem) (t : Z) (page : Page P)
  : outcome (option (Page P)) :=
  let i := calculate_index (level_of P) (get_address page) in
  _ ← table_deref t;
  let e := table m t i in
  if present e && Bool.eqb (LARGER_PAGES P) (larger_pages e) then
    p ← Page_new P (pde_get_address e); Done (Some p)
  else Done None.

(** The table entry [i] leads to; an absent one is allocated and linked. *)
Definition next_table (s : world) (t : Z) (i : nat) : outcome (Z * world) :=
  let e := table (snd s) t i in
  if present e then
    _ ← assert_ (negb (larger_pages e));
    Done (pde_get_address e, s)
  else
    '(next, (a, m)) ← PageTable_new s;
    e ← pde_set_address (pde_set_flags (table m t i) true false true true) next;
    Done (next, (a, set_entry m t i e)).

(** [Mapper::map] on a table [n] levels above the one that maps pages [P]. *)
Fixpoint Mapper_map (P : PageSize) (n : nat) (s : world) (t : Z)
    (virtual_page physical_page : Page P) (flags : MemoryMappingFlags)
  : outcome (result Flusher MapMemoryError * world) :=
  match n with
  | O => map_inner P s t virtual_page physical_page flags
  | S n' =>
      let i := calculate_index (level_of P + n) (get_address virtual_page) in
      _ ← table_deref t;
      '(next, s) ← next_table s t i;
      Mapper_map P n' s next virtual_page physical_page flags
  end.

Fixpoint Mapper_unmap (P : PageSize) (n : nat) (s : world) (t : Z) (page : Page P)
  : outcome (result Flusher UnMapMemoryError * world) :=
  match n with
  | O => unmap_inner P s t page
  | S n' =>
      let i := calculate_index (level_of P + n) (get_address page) in
      _ ← table_deref t;
      let e := table (snd s) t i in
      if negb (present e) then Done (Err (MemNotMapped (get_address page)), s)
      else
        _ ← assert_ (negb (larger_pages e));
        let next := pde_get_address e in
        '(r, (a, m)) ← Mapper_unmap P n' s next page;
        (* try cleaning up memory *)
        _ ← table_deref next;
        if all_entries_empty m next then
          fp ← Page_new Size4KB next;
          let e := table m t i in
          e ← pde_set_address (pde_set_flags e false (larger_pages e) (read_write e) (user_super e)) 0;
          s ← pa_free_page (a, set_entry m t i e) fp;
          Done (r, s)
        else Done (r, (a, m))
  end.

Fixpoint Mapper_address_of (P : PageSize) (n : nat) (m : PMem) (t : Z) (page : Page P)
  : outcome (option (Page P)) :=
  match n with
  | O => address_of_inner P m t page
  | S n' =>
      let i := calculate_index (level_of P + n) (get_address page) in
      _ ← table_deref t;
      let e := table m t i in
      if present e then
        _ ← assert_ (negb (larger_pages e));
        Mapper_address_of P n' m (pde_get_address e) page
      else Done None
  end.

Definition identity_map (P : PageSize) (n : nat) (s : world) (t : Z) (page : Page P)
    (flags : MemoryMappingFlags) : outcome (result Flusher MapMemoryError * world) :=
  Mapper_map P n s t page page flags.

(** ** [PageTable<TableLevel4>] *)

(** The four global level-3 tables every address space shares. *)
Record GlobalMaps := mkGlobals {
  OFFSET_MAP : Z;
  KERNEL_DATA_MAP : Z;
  KERNEL_HEAP_MAP : Z;
  PER_CPU_MAP : Z;
}.

(** The [set] closure of [new_with_global]. *)
Definition set_global (m : PMem) (t addr g : Z) : outcome PMem :=
  let i := calculate_index 4 addr in
  let e := table m t i in
  e ← pde_set_address (pde_set_flags e true (larger_pages e) true false) g;
  Done (set_entry m t i e).

Definition new_with_global (g : GlobalMaps) (s : world) : outcome (Z * world) :=
  '(this, (a, m)) ← PageTable_new s;
  _ ← table_deref this;
  m ← set_global m this PhysMapOffset (OFFSET_MAP g);
  m ← set_global m this KernelStart (KERNEL_DATA_MAP g);
  m ← set_global m this KernelHeap (KERNEL_HEAP_MAP g);
  m ← set_global m this PerCpuMem (PER_CPU_MAP g);
  Done (this, (a, m)).

(** A level-4 table is three levels above the tables of 4 KiB pages. *)
Definition get_phys_addr_from_vaddr (m : PMem) (t address : Z) : outcome (option Z) :=
  page ← Page_containing Size4KB address;
  o ← Mapper_address_of Size4KB 3 m t page;
  match o with
  | None => Done None
  | Some p => r ← add_u64 (get_address p) (address mod 0x1000); Done (Some r)
  end.
End PageTable.

(** ** The page walk of the MMU

    [translate d m t v] walks the tree under table [t] of level [d + 1]: it stops
    at an entry that is not present, at a large page above level 1, or at the
    entry of a level-1 table, and returns the depth and the entry it found, with the
    permissions that every level of the walk grants. *)
Definition narrow (u e : PageDirectoryEntry) : PageDirectoryEntry :=
  pde_set_flags e (present e) (larger_pages e) (read_write u && read_write e) (user_super u && user_super e).

Definition through (u : PageDirectoryEntry) (x : nat * PageDirectoryEntry) : nat * PageDirectoryEntry := (fst x, narrow u (snd x)).

Fixpoint translate (d : nat) (m : PMem) (t v : Z) : option (nat * PageDirectoryEntry) :=
  let e := table m t (calculate_index (S d) v) in
  if present e then
    match d with
    | O => Some (O, e)
    | S d' => if larger_pages e then Some (d, e) else through e <$> translate d' m (pde_get_address e) v
    end
  else None.

(** The frames of the tables of the tree, the root first. *)
Fixpoint tables (d : nat) (m : PMem) (t : Z) : list Z :=
  t :: match d with
       | O => []
       | S d' =>
           concat ((λ i, let e := table m t i in
                         if present e && negb (larger_pages e)
                         then tables d' m (pde_get_address e) else []) <$> entry_ids)
       end.

(** The subtree under entry [i], and the subtrees under the other entries. *)
Definition subtree (d : nat) (m : PMem) (t : Z) (i : nat) : list Z :=
  let e := table m t i in
  if present e && negb (larger_pages e) then tables d m (pde_get_address e) else [].

Definition siblings (d : nat) (m : PMem) (t : Z) (i : nat) : list Z :=
  concat (subtree d m t <$> seq 0 i) ++ concat (subtree d m t <$> seq (S i) (511 - i)).

(** [v] and [v'] take the same [n] steps below a table [n] levels above [k]. *)
Fixpoint same_path (n k : nat) (v v' : Z) : Prop :=
  calculate_index (S (n + k)) v = calculate_index (S (n + k)) v' ∧
  match n with O => True | S n' => same_path n' k v v' end.

(** No large page stands in the way of the [n] steps to the table for [v]. *)
Fixpoint clear_path (n k : nat) (m : PMem) (t v : Z) : Prop :=
  match n with
  | O => True
  | S n' =>
      let e := table m t (calculate_index (S (n + k)) v) in
      present e = true → larger_pages e = false ∧ clear_path n' k m (pde_get_address e) v
  end.

(** The entry that maps [v], if the tables down to it exist. *)
Fixpoint leaf_entry (n k : nat) (m : PMem) (t v : Z) : option PageDirectoryEntry :=
  let e := table m t (calculate_index (S (n + k)) v) in
  match n with
  | O => Some e
  | S n' => if present e then leaf_entry n' k m (pde_get_address e) v else None
  end.

(** The number of tables that have to be made before the slot for [v] exists. *)
Fixpoint missing (n k : nat) (m : PMem) (t v : Z) : nat :=
  match n with
  | O => O
  | S n' =>
      let e := table m t (calculate_index (S (n + k)) v) in
      if present e then missing n' k m (pde_get_address e) v else n
  end.

(** No table below [t] is empty. *)
Fixpoint full (d : nat) (m : PMem) (t : Z) : Prop :=
  match d with
  | O => True
  | S d' => ∀ i, (i < 512)%nat → let e := table m t i in
      present e = true → larger_pages e = false →
      (∃ j, (j < 512)%nat ∧ present (table m (pde_get_address e) j) = true) ∧ full d' m (pde_get_address e)
  end.

(** Every table the walk to [v] enters has property [Q], of the table and of the entry that
    leads to it. *)
Fixpoint along (Q : (nat → PageDirectoryEntry) → PageDirectoryEntry → Prop) (d : nat) (m : PMem) (t v : Z) : Prop :=
  match d with
  | O => True
  | S d' =>
      let e := table m t (calculate_index (S d) v) in
      present e = true → larger_pages e = false →
      Q (table m (pde_get_address e)) e ∧ along Q d' m (pde_get_address e) v
  end.

(** The tables on the way to [v] leave the permissions [flags] to the page's own entry. *)
Definition grants (flags : MemoryMappingFlags) (e : PageDirectoryEntry) : Prop :=
  (WRITEABLE flags = true → read_write e = true) ∧ (USERSPACE flags = true → user_super e = true).
Definition opens (flags : MemoryMappingFlags) : nat → PMem → Z → Z → Prop := along (λ _ e, grants flags e).

(** No table on the way to [v] is empty. *)
Definition in_use (tbl : nat → PageDirectoryEntry) : Prop := ∃ j, (j < 512)%nat ∧ present (tbl j) = true.
Definition no_empty : nat → PMem → Z → Z → Prop := along (λ tbl _, in_use tbl).

(** The frames of the allocator and of the tree are distinct frames. *)
Definition frames_wf (F T : list Z) : Prop := NoDup (F ++ T) ∧ Forall frame_ok (F ++ T).

Lemma entry_ids_split i : (i < 512)%nat → entry_ids = seq 0 i ++ i :: seq (S i) (511 - i).
Proof.
  intros Hi. unfold entry_ids. replace 512%nat with (i + S (511 - i))%nat by lia.
  by rewrite seq_app.
Qed.

Lemma elem_of_entry_ids i : i ∈ entry_ids ↔ (i < 512)%nat.
Proof. unfold entry_ids. rewrite elem_of_seq. lia. Qed.

#[global] Opaque entry_ids.

Lemma calculate_index_lt L v : (calculate_index L v < 512)%nat.
Proof.
  unfold calculate_index. change 0x1ff with (2 ^ 9 - 1). rewrite land_ones_mod by lia.
  pose proof (Z.mod_pos_bound (Z.shiftr v (INDEXER L)) (2 ^ 9)). lia.
Qed.

Lemma tables_head d m t : t ∈ tables d m t.
Proof. destruct d; left. Qed.

Lemma tables_split d m t i :
  (i < 512)%nat → tables (S d) m t ≡ₚ t :: subtree d m t i ++ siblings d m t i.
Proof.
  intros Hi. cbn [tables]. f_equiv.
  change (concat (subtree d m t <$> entry_ids) ≡ₚ subtree d m t i ++ siblings d m t i).
  rewrite (entry_ids_split i Hi), fmap_app, fmap_cons, concat_app. cbn [concat].
  unfold siblings. solve_Permutation.
Qed.

(** The walk and the tree depend only on the tables of the tree. *)
Lemma tables_ext d : ∀ m m' t,
  (∀ f, f ∈ tables d m t → table m' f = table m f) → tables d m' t = tables d m t.
Proof.
  induction d as [|d IH]; intros m m' t Hf; [done|]. cbn [tables]. f_equal. f_equal.
  apply list_fmap_ext. intros j i Hj. cbn beta zeta.
  rewrite (Hf t) by apply tables_head.
  destruct (present _ && negb _) eqn:Ep; [|done]. apply IH. intros f Hin. apply Hf.
  cbn [tables]. right. apply elem_of_concat_fmap. exists i. rewrite Ep.
  split; [by eapply list_elem_of_lookup_2|done].
Qed.

Lemma subtree_in_tables d m t i f :
  (i < 512)%nat → f ∈ subtree d m t i → f ∈ tables (S d) m t.
Proof. intros Hi. rewrite (tables_split d m t i Hi). set_solver. Qed.

Lemma translate_ext d : ∀ m m' t v,
  (∀ f, f ∈ tables d m t → table m' f = table m f) → translate d m' t v = translate d m t v.
Proof.
  induction d as [|d IH]; intros m m' t v Hf; cbn [translate];
    rewrite (Hf t) by apply tables_head; [done|].
  destruct (present _) eqn:Ep; [|done]. destruct (larger_pages _) eqn:El; [done|].
  f_equal. apply IH. intros f Hin. apply Hf.
  apply (subtree_in_tables d m t (calculate_index (S (S d)) v)); [apply calculate_index_lt|].
  unfold subtree. by rewrite Ep, El.
Qed.

(** Changing one entry and its subtree leaves the siblings alone. *)
Lemma siblings_ext d m m' t i :
  (∀ j, j ≠ i → table m' t j = table m t j) →
  (∀ f, f ∈ siblings d m t i → table m' f = table m f) →
  siblings d m' t i = siblings d m t i.
Proof.
  intros Ht Hf.
  assert (Hsub : ∀ j, j ∈ seq 0 i ++ seq (S i) (511 - i) → subtree d m' t j = subtree d m t j).
  { intros j Hj. assert (j ≠ i) by (rewrite elem_of_app, !elem_of_seq in Hj; lia).
    unfold subtree at 1. rewrite (Ht j) by done.
    destruct (present _ && negb _) eqn:Ep; [|unfold subtree; by rewrite Ep].
    unfold subtree. rewrite Ep. apply tables_ext. intros f Hin. apply Hf. unfold siblings.
    rewrite elem_of_app in Hj. apply elem_of_app.
    destruct Hj as [Hj|Hj]; [left|right]; apply elem_of_concat_fmap; exists j;
      (split; [done|unfold subtree; by rewrite Ep]). }
  unfold siblings. do 2 f_equal; apply list_fmap_ext; intros ? j Hj%list_elem_of_lookup_2;
    apply Hsub; set_solver.
Qed.

Lemma translate_sibling d m m' t i v :
  i ≠ calculate_index (S (S d)) v →
  (∀ j, j ≠ i → table m' t j = table m t j) →
  (∀ f, f ∈ siblings d m t i → table m' f = table m f) →
  (i < 512)%nat →
  translate (S d) m' t v = translate (S d) m t v.
Proof.
  intros Hi Ht Hf Hlt. set (j := calculate_index (S (S d)) v).
  assert (Hj : (j < 512)%nat) by apply calculate_index_lt.
  cbn [translate]. fold j. rewrite (Ht j) by done.
  destruct (present _) eqn:Ep; [|done]. destruct (larger_pages _) eqn:El; [done|].
  f_equal. apply translate_ext. intros f Hin. apply Hf. unfold siblings. apply elem_of_app.
  destruct (decide (j < i)%nat); [left|right]; apply elem_of_concat_fmap; exists j;
    (split; [apply elem_of_seq; lia|unfold subtree; by rewrite Ep, El]).
Qed.

Lemma subtree_sibling d m t i j f : (j < 512)%nat → j ≠ i → f ∈ subtree d m t j → f ∈ siblings d m t i.
Proof.
  intros Hj Hne Hf. unfold siblings. apply elem_of_app.
  destruct (decide (j < i)%nat); [left|right]; apply elem_of_concat_fmap; exists j;
    (split; [apply elem_of_seq; lia|done]).
Qed.

Lemma missing_le n k m : ∀ t v, (missing n k m t v ≤ n)%nat.
Proof. induction n as [|n IH]; intros t v; cbn [missing]; [lia|]. case_match; [|lia]. pose proof (IH (pde_get_address (table m t (calculate_index (S (S n + k)) v))) v). lia. Qed.

Lemma full_ext d : ∀ m m' t, (∀ f, f ∈ tables d m t → table m' f = table m f) → full d m t → full d m' t.
Proof.
  induction d as [|d IH]; intros m m' t Hf Hfull; [done|]. intros i Hi. cbv zeta. rewrite (Hf t) by apply tables_head.
  intros Hp Hl. destruct (Hfull i Hi Hp Hl) as [(j & Hj & Hjp) Hd].
  assert (Hsub : ∀ f, f ∈ tables d m (pde_get_address (table m t i)) → table m' f = table m f).
  { intros f Hin. apply Hf, (subtree_in_tables d m t i f Hi). unfold subtree. by rewrite Hp, Hl. }
  split; [exists j; by rewrite Hsub by apply tables_head|by apply (IH m m')].
Qed.

(** Changing one entry and its subtree keeps the others full. *)
Lemma full_update d m m' t i :
  (∀ j, j ≠ i → table m' t j = table m t j) → (∀ f, f ∈ siblings d m t i → table m' f = table m f) →
  full (S d) m t →
  (let e := table m' t i in present e = true → larger_pages e = false →
     (∃ j, (j < 512)%nat ∧ present (table m' (pde_get_address e) j) = true) ∧ full d m' (pde_get_address e)) →
  full (S d) m' t.
Proof.
  intros Ht Hs Hfull Hi j Hj. destruct (decide (j = i)) as [->|Hne]; [apply Hi|]. cbv zeta. rewrite (Ht j Hne). intros Hp Hl.
  destruct (Hfull j Hj Hp Hl) as [(x & Hx & Hxp) Hd].
  assert (Hsub : ∀ f, f ∈ tables d m (pde_get_address (table m t j)) → table m' f = table m f).
  { intros f Hin. apply Hs, (subtree_sibling d m t i j f Hj Hne). unfold subtree. by rewrite Hp, Hl. }
  split; [exists x; by rewrite Hsub by apply tables_head|by apply (full_ext d m m')].
Qed.

Lemma full_empty d m t : (∀ i, (i < 512)%nat → present (table m t i) = false) → full d m t.
Proof. intros He. destruct d as [|d]; [done|]. intros i Hi. cbv zeta. rewrite He by done. done. Qed.

Lemma along_ext Q d : ∀ m m' t v, (∀ f, f ∈ tables d m t → table m' f = table m f) → along Q d m t v → along Q d m' t v.
Proof.
  induction d as [|d IH]; intros m m' t v Hf Ha; [done|]. cbn [along] in *. rewrite (Hf t) by apply tables_head. intros Hp Hl.
  destruct (Ha Hp Hl) as [Hq Hd]. set (e := table m t (calculate_index (S (S d)) v)) in *.
  assert (Hsub : ∀ f, f ∈ tables d m (pde_get_address e) → table m' f = table m f).
  { intros f Hin. apply Hf, (subtree_in_tables d m t (calculate_index (S (S d)) v)); [apply calculate_index_lt|].
    unfold subtree. fold e. by rewrite Hp, Hl. }
  split; [by rewrite Hsub by apply tables_head|by apply (IH m m')].
Qed.

(** Changing one entry and its subtree keeps the other ways. *)
Lemma along_update Q d m m' t i v :
  (∀ j, j ≠ i → table m' t j = table m t j) → (∀ f, f ∈ siblings d m t i → table m' f = table m f) →
  along Q (S d) m t v →
  (let e := table m' t i in calculate_index (S (S d)) v = i → present e = true → larger_pages e = false →
     Q (table m' (pde_get_address e)) e ∧ along Q d m' (pde_get_address e) v) →
  along Q (S d) m' t v.
Proof.
  intros Ht Hs Ha Hi. cbn [along]. set (j := calculate_index (S (S d)) v) in *. destruct (decide (j = i)) as [E|Hne]; [rewrite E; by apply Hi|].
  rewrite (Ht j Hne). intros Hp Hl. destruct (Ha Hp Hl) as [Hq Hd]. fold j in Hq, Hd.
  assert (Hsub : ∀ f, f ∈ tables d m (pde_get_address (table m t j)) → table m' f = table m f).
  { intros f Hin. apply Hs, (subtree_sibling d m t i j f); [apply calculate_index_lt|done|]. unfold subtree. by rewrite Hp, Hl. }
  split; [by rewrite Hsub by apply tables_head|by apply (along_ext Q d m m')].
Qed.

Lemma along_absent Q d m t v : present (table m t (calculate_index (S d) v)) = false → along Q d m t v.
Proof. intros Hp. destruct d as [|d]; [done|]. cbn [along]. by rewrite Hp. Qed.

Lemma along_empty Q d m t v : (∀ i, (i < 512)%nat → present (table m t i) = false) → along Q d m t v.
Proof. intros He. destruct d as [|d]; [done|]. cbn [along]. by rewrite He by apply calculate_index_lt. Qed.

(** An empty table translates nothing and has no subtables. *)
Lemma empty_table d m t :
  (∀ i, (i < 512)%nat → present (table m t i) = false) →
  tables d m t = [t] ∧ ∀ v, translate d m t v = None.
Proof.
  intros He. split.
  - destruct d as [|d]; [done|]. cbn [tables]. f_equal.
    change (concat (subtree d m t <$> entry_ids) = []).
    assert (Hall : ∀ l, (∀ i, i ∈ l → (i < 512)%nat) → concat (subtree d m t <$> l) = []).
    { induction l as [|i l IH]; intros Hl; [done|]. cbn. unfold subtree at 1.
      rewrite He by (apply Hl; set_solver). cbn. apply IH. set_solver. }
    apply Hall. intros i. by rewrite elem_of_entry_ids.
  - intros v. destruct d; cbn; by rewrite He by apply calculate_index_lt.
Qed.

Lemma all_entries_empty_true m t :
  all_entries_empty m t = true ↔ ∀ i, (i < 512)%nat → present (table m t i) = false.
Proof.
  unfold all_entries_empty. rewrite forallb_forall. split.
  - intros Hall i Hi. apply negb_true_iff. apply Hall. by apply list_elem_of_In, elem_of_entry_ids.
  - intros Hall i Hi%list_elem_of_In%elem_of_entry_ids. by rewrite Hall.
Qed.

Lemma all_entries_empty_false m t : all_entries_empty m t = false → in_use (table m t).
Proof.
  intros He. destruct (decide (Exists (λ i, present (table m t i) = true) (seq 0 512))) as [Hex|Hno].
  - apply Exists_exists in Hex as (j & Hj & Hp). exists j. apply elem_of_seq in Hj. split; [lia|done].
  - exfalso. rewrite (proj2 (all_entries_empty_true m t)) in He; [done|]. intros i Hi. apply not_true_is_false. intros Hp.
    apply Hno, Exists_exists. exists i. split; [apply elem_of_seq; lia|done].
Qed.

(** ** Updating a tree *)
Definition base_of (P : PageSize) : nat := pred (level_of P).

Lemma level_base P n : (level_of P + n = S (n + base_of P))%nat.
Proof. destruct P; cbn; lia. Qed.

Lemma frames_wf_app F T1 T2 : frames_wf F (T1 ++ T2) → frames_wf F T1.
Proof.
  unfold frames_wf. rewrite (assoc_L (++)). intros [?%NoDup_app ?%Forall_app]. tauto.
Qed.

Lemma frames_wf_perm F T F' T' : F' ++ T' ≡ₚ F ++ T → frames_wf F T → frames_wf F' T'.
Proof. unfold frames_wf. by intros ->. Qed.

Lemma frames_wf_table F T f : frames_wf F T → f ∈ F ++ T → frame_ok f.
Proof. intros [_ Hf] Hin. by eapply Forall_forall in Hf. Qed.

(** What the tree looks like to the routine that is about to enter entry [i]. *)
Lemma frames_wf_enter d m t i F :
  (i < 512)%nat → frames_wf F (tables (S d) m t) →
  frames_wf F (subtree d m t i) ∧ frame_ok t ∧ t ∉ F ++ subtree d m t i ∧
  t ∉ siblings d m t i ∧ (∀ f, f ∈ siblings d m t i → frame_ok f ∧ f ∉ F ++ subtree d m t i).
Proof.
  intros Hi Hwf.
  assert (Hp : F ++ tables (S d) m t ≡ₚ (F ++ subtree d m t i) ++ t :: siblings d m t i)
    by (rewrite (tables_split d m t i Hi); solve_Permutation).
  destruct Hwf as [Hnd Hok]. rewrite Hp in Hnd, Hok.
  apply NoDup_app in Hnd as (Hn1 & Hd & Hn2). apply Forall_app in Hok as [Ho1 Ho2].
  apply NoDup_cons in Hn2 as [Hts Hn2]. apply Forall_cons in Ho2 as [Hot Ho2].
  split_and!; [done|done|intros Hin; apply (Hd t); [done|left]|done|].
  intros f Hf. split; [by eapply Forall_forall in Ho2|]. intros Hin. apply (Hd f); [done|by right].
Qed.

(** Replacing the subtree under entry [i]. *)
Lemma tree_update d m m' t i F F' :
  (i < 512)%nat → frames_wf F (tables (S d) m t) →
  (∀ j, j ≠ i → table m' t j = table m t j) →
  (∀ f, f ∈ siblings d m t i → table m' f = table m f) →
  F' ++ subtree d m' t i ≡ₚ F ++ subtree d m t i →
  F' ++ tables (S d) m' t ≡ₚ F ++ tables (S d) m t ∧
  (∀ v, calculate_index (S (S d)) v ≠ i → translate (S d) m' t v = translate (S d) m t v).
Proof.
  intros Hi Hwf Ht Hs Hp. split.
  - rewrite !(tables_split d _ t i Hi), (siblings_ext d m m' t i Ht Hs).
    transitivity (t :: (F' ++ subtree d m' t i) ++ siblings d m t i); [solve_Permutation|].
    rewrite Hp. solve_Permutation.
  - intros v Hv. by apply (translate_sibling d m m' t i).
Qed.

Lemma subtree_present d m t i :
  present (table m t i) = true → larger_pages (table m t i) = false →
  subtree d m t i = tables d m (pde_get_address (table m t i)).
Proof. intros Hp Hl. unfold subtree. by rewrite Hp, Hl. Qed.

Lemma subtree_absent d m t i : present (table m t i) = false → subtree d m t i = [].
Proof. intros Hp. unfold subtree. by rewrite Hp. Qed.

Lemma subtree_large d m t i : larger_pages (table m t i) = true → subtree d m t i = [].
Proof. intros Hl. unfold subtree. rewrite Hl. by destruct (present _). Qed.

Lemma translate_enter d m t v :
  let e := table m t (calculate_index (S (S d)) v) in
  present e = true → larger_pages e = false →
  translate (S d) m t v = through e <$> translate d m (pde_get_address e) v.
Proof. intros e Hp Hl. cbn [translate]. fold e. by rewrite Hp, Hl. Qed.

Lemma translate_absent d m t v :
  present (table m t (calculate_index (S d) v)) = false → translate d m t v = None.
Proof. intros Hp. destruct d; cbn [translate]; by rewrite Hp. Qed.

(** Setting a leaf entry at level [d + 1]. *)
Lemma set_leaf d m t i e F :
  (i < 512)%nat → frames_wf F (tables d m t) →
  (d ≠ O → subtree (pred d) m t i = [] ∧ present e && negb (larger_pages e) = false) →
  F ++ tables d (set_entry m t i e) t ≡ₚ F ++ tables d m t ∧
  (∀ v, calculate_index (S d) v ≠ i → translate d (set_entry m t i e) t v = translate d m t v).
Proof.
  intros Hi Hwf He. destruct d as [|d].
  - split; [done|]. intros v Hv. cbn [translate].
    rewrite table_set_entry, decide_False by naive_solver. done.
  - destruct He as [Hs Hp]; [done|]. cbn [pred] in Hs.
    destruct (frames_wf_enter d m t i F Hi Hwf) as (_ & _ & _ & Hts & _).
    apply tree_update; [done|done| | |].
    + intros j Hj. by apply table_set_entry_ne.
    + intros f Hf. assert (t ≠ f) by (intros ->; done). cbn. by rewrite fn_lookup_insert_ne.
    + rewrite Hs. unfold subtree. rewrite table_set_entry, decide_True by done. by rewrite Hp.
Qed.

Lemma along_set_leaf Q d m t i e F v :
  (i < 512)%nat → frames_wf F (tables d m t) →
  (d ≠ O → subtree (pred d) m t i = [] ∧ present e && negb (larger_pages e) = false) →
  along Q d m t v → along Q d (set_entry m t i e) t v.
Proof.
  intros Hi Hwf He Ha. destruct d as [|d]; [done|]. destruct He as [_ Hp]; [done|].
  destruct (frames_wf_enter d m t i F Hi Hwf) as (_ & _ & _ & Hts & _).
  apply (along_update Q d m _ t i v); [intros j Hj; by apply table_set_entry_ne| |done|].
  - intros f Hf. assert (t ≠ f) by (intros ->; done). cbn. by rewrite fn_lookup_insert_ne.
  - cbv zeta. rewrite table_set_entry_eq. intros _ Hpr Hlp. by rewrite Hpr, Hlp in Hp.
Qed.

(** ** The operations *)

(** The entry a successful [map] writes. *)
Definition mapped_to (P : PageSize) (flags : MemoryMappingFlags) (p : Z) (e : PageDirectoryEntry) : Prop :=
  present e = true ∧ larger_pages e = LARGER_PAGES P ∧ read_write e = WRITEABLE flags ∧
  user_super e = USERSPACE flags ∧ pde_get_address e = p.

(** Tables that grant the permissions do not change what is mapped. *)
Lemma mapped_narrow P flags p u e : mapped_to P flags p e → grants flags u → mapped_to P flags p (narrow u e).
Proof.
  intros (H1 & H2 & H3 & H4 & H5) [Hw Hu]. split_and!; cbn; [done|done| | |done].
  - rewrite H3. destruct (WRITEABLE flags); [by rewrite Hw|by rewrite andb_false_r].
  - rewrite H4. destruct (USERSPACE flags); [by rewrite Hu|by rewrite andb_false_r].
Qed.

(** A physical page that a 40-bit frame number can name. *)
Definition phys_page_ok (P : PageSize) (p : Z) : Prop := 0 < p < 2 ^ 47 ∧ p mod PAGE_SIZE P = 0.

Lemma phys_page_ok_frame P p : phys_page_ok P p → p mod 0x1000 = 0.
Proof.
  intros [_ Hp]. destruct P; cbn [PAGE_SIZE] in Hp; [done| |];
    apply Z.mod_divide; try done; apply Z.mod_divide in Hp; try done;
    (etransitivity; [|exact Hp]).
  - by exists 512.
  - by exists (512 * 512).
Qed.

Lemma set_address_entry e fp flp frw fus a :
  0 ≤ a < 2 ^ 52 → a mod 0x1000 = 0 →
  ∃ e', pde_set_address (pde_set_flags e fp flp frw fus) a = Done e' ∧
    present e' = fp ∧ larger_pages e' = flp ∧ read_write e' = frw ∧ user_super e' = fus ∧
    pde_get_address e' = a.
Proof.
  intros Ha Hm.
  destruct (pde_set_address_ok (pde_set_flags e fp flp frw fus) a Ha) as (e' & He & H1 & H2 & H3 & H4).
  exists e'. split_and!; [done..|]. by eapply pde_set_get_address.
Qed.

Lemma frame_set_address e fp flp frw fus f :
  frame_ok f →
  ∃ e', pde_set_address (pde_set_flags e fp flp frw fus) f = Done e' ∧
    present e' = fp ∧ larger_pages e' = flp ∧ read_write e' = frw ∧ user_super e' = fus ∧
    pde_get_address e' = f.
Proof. intros (? & ? & ?). apply set_address_entry; [unfold PHYS_TOP in *; lia|done]. Qed.

Section operations.
Context {A : Type} `{PageAllocatorSpec A} (off : Z) (Hoff : offset_ok off).

Lemma table_deref_ok t : frame_ok t → table_deref off t = Done tt.
Proof using Hoff.
  intros (? & ? & ?). unfold table_deref. by rewrite virt_addr_for_phys_ok by (done || lia).
Qed.

(** The common result of the routines: frames move between the allocator and
    the tree, none is lost, and no other table is touched. *)
Definition conserves (d : nat) (t : Z) (F : list Z) (s : A * PMem) (F' : list Z) (s' : A * PMem) : Prop :=
  pa_owns s' F' ∧
  F' ++ tables d (snd s') t ≡ₚ F ++ tables d (snd s) t ∧
  (∀ f, frame_ok f → f ∉ F ++ tables d (snd s) t → table (snd s') f = table (snd s) f).

Lemma conserves_wf d t F s F' s' :
  conserves d t F s F' s' → frames_wf F (tables d (snd s) t) → frames_wf F' (tables d (snd s') t).
Proof. intros (_ & Hp & _). by apply frames_wf_perm. Qed.

Lemma conserves_trans d t F s F1 s1 F2 s2 :
  conserves d t F s F1 s1 → conserves d t F1 s1 F2 s2 → conserves d t F s F2 s2.
Proof.
  intros (_ & Hp1 & Ht1) (Ho2 & Hp2 & Ht2). split_and!; [done|by etransitivity|].
  intros f Hf Hin. rewrite Ht2, Ht1; [done|done|done|done|by rewrite Hp1].
Qed.

Lemma owns_set_entry a m t i e F : pa_owns (a, m) F → pa_owns (a, set_entry m t i e) F.
Proof. intros Ho. by eapply pa_owns_table. Qed.

(** Writing a leaf entry conserves frames. *)
Lemma conserves_set_leaf d a m t i e F :
  (i < 512)%nat → pa_owns (a, m) F → frames_wf F (tables d m t) →
  (d ≠ O → subtree (pred d) m t i = [] ∧ present e && negb (larger_pages e) = false) →
  conserves d t F (a, m) F (a, set_entry m t i e).
Proof.
  intros Hi Ho Hwf He. split_and!; [by apply owns_set_entry|by apply set_leaf|].
  intros f _ Hf. assert (t ≠ f) by (intros ->; apply Hf, elem_of_app; right; apply tables_head).
  cbn. by rewrite fn_lookup_insert_ne.
Qed.

(** A routine run on the table under entry [i] conserves the frames of the
    whole tree, and changes no translation that does not go through [i]. *)
Lemma conserves_enter d t i F s F' s' :
  let e := table (snd s) t i in
  (i < 512)%nat → frames_wf F (tables (S d) (snd s) t) →
  present e = true → larger_pages e = false →
  conserves d (pde_get_address e) F s F' s' →
  table (snd s') t = table (snd s) t ∧ conserves (S d) t F s F' s' ∧
  (∀ v, calculate_index (S (S d)) v ≠ i → translate (S d) (snd s') t v = translate (S d) (snd s) t v) ∧
  (∀ Q v, along Q (S d) (snd s) t v →
     (calculate_index (S (S d)) v = i → Q (table (snd s) (pde_get_address e)) e → along Q d (snd s) (pde_get_address e) v →
        Q (table (snd s') (pde_get_address e)) e ∧ along Q d (snd s') (pde_get_address e) v) →
     along Q (S d) (snd s') t v).
Proof.
  clear Hoff. intros e Hi Hwf Hp Hl (Ho & Hperm & Hout).
  destruct (frames_wf_enter d _ t i F Hi Hwf) as (_ & Hokt & Ht & Hts & Hsib).
  rewrite (subtree_present d _ t i Hp Hl) in Ht, Hsib.
  assert (Htab : table (snd s') t = table (snd s) t) by by apply Hout.
  destruct (tree_update d (snd s) (snd s') t i F F' Hi Hwf) as [Hp' Htr].
  - intros j _. by rewrite Htab.
  - intros f Hf. apply Hout; by apply Hsib.
  - rewrite !subtree_present by (rewrite ?Htab; done). by rewrite Htab.
  - split_and!; [done| |done|].
    + split_and!; [done|done|].
      intros f Hf Hin. apply Hout; [done|]. contradict Hin.
      rewrite (tables_split d _ t i Hi), (subtree_present d _ t i Hp Hl). set_solver.
    + intros Q v Ha Hin. apply (along_update Q d (snd s) (snd s') t i v); [intros j _; by rewrite Htab| |done|].
      * intros f Hf. apply Hout; by apply Hsib.
      * cbv zeta. rewrite Htab. intros E Hpr Hlg. cbn [along] in Ha. rewrite E in Ha. destruct (Ha Hpr Hlg). by apply Hin.
Qed.

Definition slot_absent (n k : nat) (m : PMem) (t v : Z) : Prop :=
  ∀ e, leaf_entry n k m t v = Some e → present e = false.

(** An empty table from the allocator is linked under an absent entry, whatever the
    permissions of the link. *)
Lemma link_fresh_ok n k (s : A * PMem) F t v b a1 m1 F1 e :
  let i := calculate_index (S (S n + k)) v in
  let s' := (a1, set_entry m1 t i e) in
  frames_wf F (tables (S n + k) (snd s) t) → present (table (snd s) t i) = false →
  F ≡ₚ b :: F1 → pa_owns (a1, m1) F1 → (∀ j, table m1 b j = pde_zero) →
  (∀ f, f mod 0x1000 = 0 → f ≠ b → table m1 f = table (snd s) f) →
  present e = true → larger_pages e = false → pde_get_address e = b →
  conserves (S n + k) t F s F1 s' ∧ (length F ≤ S (length F1))%nat ∧ table (snd s') t i = e ∧
  clear_path n k (snd s') b v ∧ slot_absent n k (snd s') b v ∧
  (∀ v', translate (S n + k) (snd s') t v' = translate (S n + k) (snd s) t v') ∧
  missing n k (snd s') b v = n ∧ full (n + k) (snd s') b ∧
  (∀ j, j ≠ i → table (snd s') t j = table (snd s) t j) ∧
  (∀ f, f ∈ siblings (n + k) (snd s) t i → table (snd s') f = table (snd s) f) ∧
  (∀ fl v', grants fl e → opens fl (S n + k) (snd s) t v' → opens fl (S n + k) (snd s') t v').
Proof.
  clear Hoff. intros i s' Hwf Ep HFp Ho1 Hz Hout Ep' El' Ea. cbn [Nat.add] in *.
  assert (Hi : (i < 512)%nat) by apply calculate_index_lt.
  assert (Hb : b ∈ F) by (rewrite HFp; left).
  destruct (frames_wf_enter (n + k) _ t i F Hi Hwf) as (_ & Hokt & Ht & Hts & Hsib).
  assert (Htb : t ≠ b) by (intros ->; set_solver).
  assert (Hout' : ∀ f, frame_ok f → f ≠ b → table m1 f = table (snd s) f)
    by (intros f (_ & ? & _); by apply Hout).
  subst s'. cbn [snd]. set (m2 := set_entry m1 t i e).
  assert (He2 : table m2 t i = e) by apply table_set_entry_eq.
  assert (Hm2b : table m2 b = table m1 b) by (cbn; by rewrite fn_lookup_insert_ne).
  assert (Hempty : ∀ j, (j < 512)%nat → present (table m2 b j) = false)
    by (intros j _; by rewrite Hm2b, Hz).
  assert (Hm2 : ∀ f, frame_ok f → f ≠ b → f ≠ t → table m2 f = table (snd s) f).
  { intros f Hf Hfb Hft. unfold m2. cbn. rewrite fn_lookup_insert_ne by done. by apply Hout'. }
  destruct (empty_table (n + k) m2 b Hempty) as [Htabs Htr].
  assert (Hone : ∀ j, j ≠ i → table m2 t j = table (snd s) t j).
  { intros j Hj. unfold m2. rewrite table_set_entry_ne by done. by rewrite Hout'. }
  assert (Hkeep : ∀ f, f ∈ siblings (n + k) (snd s) t i → table m2 f = table (snd s) f).
  { intros f Hf. destruct (Hsib f Hf) as [? Hnin]. apply Hm2; [done|set_solver|intros ->; done]. }
  destruct (tree_update (n + k) (snd s) m2 t i F F1 Hi Hwf Hone Hkeep) as [Hperm Htr'].
  { rewrite (subtree_absent _ _ _ _ Ep), subtree_present, He2, Ea, Htabs by by rewrite He2.
    rewrite HFp. solve_Permutation. }
  split_and!; try done.
  - split_and!; [by apply owns_set_entry|done|].
    intros f Hf Hin. apply Hm2; [done|set_solver|]. intros ->. apply Hin, elem_of_app. right. apply tables_head.
  - rewrite HFp. cbn. lia.
  - destruct n; cbn [clear_path]; [done|]. by rewrite Hempty by apply calculate_index_lt.
  - intros e0. destruct n; cbn [leaf_entry]; [|by rewrite Hempty by apply calculate_index_lt].
    intros [= <-]. apply Hempty, calculate_index_lt.
  - intros v'. destruct (decide (calculate_index (S (S (n + k))) v' = i)) as [E|E]; [|by apply Htr'].
    rewrite translate_enter by (rewrite E, He2; done). rewrite E, He2, Ea, Htr.
    symmetry. apply translate_absent. by rewrite E.
  - destruct n; cbn [missing]; [done|]. by rewrite Hempty by apply calculate_index_lt.
  - by apply full_empty.
  - intros fl v' Hg Hop. apply (along_update _ (n + k) (snd s) m2 t i v' Hone Hkeep Hop). cbv zeta. rewrite He2, Ea. intros _ _ _.
    split; [done|by apply along_empty].
Qed.

(** [map]'s first step: the table of the next level exists, or is allocated
    empty and linked. *)
Lemma next_table_ok n k (s : A * PMem) F t v :
  let i := calculate_index (S (S n + k)) v in
  pa_owns s F → frames_wf F (tables (S n + k) (snd s) t) → clear_path (S n) k (snd s) t v →
  (missing (S n) k (snd s) t v ≤ length F)%nat →
  ∃ next s' F',
    next_table s t i = Done (next, s') ∧
    conserves (S n + k) t F s F' s' ∧
    (length F + missing n k (snd s') next v = length F' + missing (S n) k (snd s) t v)%nat ∧
    (let e := table (snd s') t i in
     present e = true ∧ larger_pages e = false ∧ pde_get_address e = next) ∧
    clear_path n k (snd s') next v ∧ (slot_absent (S n) k (snd s) t v → slot_absent n k (snd s') next v) ∧
    (∀ v', translate (S n + k) (snd s') t v' = translate (S n + k) (snd s) t v') ∧
    (full (S n + k) (snd s) t → full (n + k) (snd s') next) ∧
    (∀ j, j ≠ i → table (snd s') t j = table (snd s) t j) ∧
    (∀ f, f ∈ siblings (n + k) (snd s) t i → table (snd s') f = table (snd s) f) ∧
    (∀ fl v', opens fl (S n + k) (snd s) t v' → opens fl (S n + k) (snd s') t v').
Proof using Hoff.
  intros i Ho Hwf Hclr HF. unfold next_table. cbv zeta.
  destruct (present (table (snd s) t i)) eqn:Ep.
  { destruct (Hclr Ep) as [Hl Hc]. change (larger_pages (table (snd s) t i) = false) in Hl.
    rewrite Hl. cbn [negb assert_ mbind outcome_bind]. eexists _, s, F. split_and!; try (done || lia).
    - cbn [missing]. change (present (table (snd s) t (calculate_index (S (S n + k)) v)) = true) in Ep. rewrite Ep. done.
    - intros Hs e He. apply Hs. cbn [leaf_entry].
      by change (present (table (snd s) t (calculate_index (S (S n + k)) v)) = true) in Ep; rewrite Ep.
    - intros Hfull. apply (Hfull i (calculate_index_lt _ _) Ep Hl). }
  assert (Hmiss : missing (S n) k (snd s) t v = S n).
  { cbn [missing]. change (present (table (snd s) t (calculate_index (S (S n + k)) v)) = false) in Ep. by rewrite Ep. }
  unfold PageTable_new.
  destruct (pa_allocate_page_spec s F Ho) as [(b & [a1 m1] & F1 & -> & HFp & Ho1 & Hz & Hout)|[_ ->]];
    [|rewrite Hmiss in HF; cbn in HF; lia]. cbn [mbind outcome_bind unwrap get_address snd] in *.
  assert (Hokb : frame_ok b) by (apply (frames_wf_table F _ b Hwf), elem_of_app; left; rewrite HFp; left).
  destruct (frame_set_address (table m1 t i) true false true true b Hokb) as (e & -> & Ep' & El' & Ew' & Eu' & Ea).
  destruct (link_fresh_ok n k s F t v b a1 m1 F1 e Hwf Ep HFp Ho1 Hz Hout Ep' El' Ea)
    as (Hcons & HF1 & He & Hc & Hs & Htr & Hms & Hfl & Hone & Hkeep & Hopen).
  cbv zeta in He. cbn [snd] in He, Hms. fold i in He, Hms.
  exists b, (a1, set_entry m1 t i e), F1. cbn [snd]. rewrite He, Hmiss, Hms.
  split_and!; try done; [rewrite HFp; cbn; lia|]. intros fl v'. by apply Hopen.
Qed.

Lemma same_path_S n k v v' :
  same_path (S n) k v v' ↔
  calculate_index (S (S n + k)) v = calculate_index (S (S n + k)) v' ∧ same_path n k v v'.
Proof. done. Qed.

(** [map] at the level that maps pages of the size. *)
Lemma map_inner_ok P s F t v p flags :
  pa_owns s F → frames_wf F (tables (base_of P) (snd s) t) → phys_page_ok P p →
  slot_absent 0 (base_of P) (snd s) t v →
  ∃ s' e, map_inner off P s t (mkPage v) (mkPage p) flags = Done (Ok (mkFlusher v), s') ∧
    conserves (base_of P) t F s F s' ∧
    translate (base_of P) (snd s') t v = Some (base_of P, e) ∧ mapped_to P flags p e ∧
    (∀ v', ¬ same_path 0 (base_of P) v v' →
       translate (base_of P) (snd s') t v' = translate (base_of P) (snd s) t v') ∧
    (full (base_of P) (snd s) t → full (base_of P) (snd s') t) ∧
    (∀ fl v', opens fl (base_of P) (snd s) t v' → opens fl (base_of P) (snd s') t v').
Proof using Hoff.
  destruct s as [a m]. intros Ho Hwf Hp Hs. cbn [snd] in *. unfold map_inner. cbn [get_address].
  assert (level_of P = S (0 + base_of P)) as -> by by destruct P.
  set (i := calculate_index _ v). specialize (Hs _ eq_refl). fold i in Hs.
  rewrite table_deref_ok by (apply (frames_wf_table F _ t Hwf), elem_of_app; right; apply tables_head).
  cbn [mbind outcome_bind]. rewrite Hs.
  destruct (set_address_entry (table m t i) true (LARGER_PAGES P) (WRITEABLE flags) (USERSPACE flags) p)
    as (e & -> & He); [destruct Hp; lia|by eapply phys_page_ok_frame|].
  cbn [mbind outcome_bind]. exists (a, set_entry m t i e), e. cbn [snd].
  assert (Hleaf : base_of P ≠ O → subtree (pred (base_of P)) m t i = [] ∧ present e && negb (larger_pages e) = false).
  { intros HP. split; [by apply subtree_absent|]. destruct He as (-> & -> & _). by destruct P. }
  assert (Hi : (i < 512)%nat) by apply calculate_index_lt.
  split_and!; [done|by apply conserves_set_leaf| |done| | |].
  - destruct He as (Hpr & Hlp & _). subst i.
    destruct P; cbn [base_of level_of pred translate Nat.add] in *;
      rewrite table_set_entry, decide_True by done; rewrite Hpr; [done|by rewrite Hlp..].
  - intros v' Hv'. apply (set_leaf _ _ _ _ _ F); [done..|]. contradict Hv'. by split.
  - destruct (base_of P) as [|d] eqn:Ed; [done|]. destruct (Hleaf ltac:(done)) as [_ Hle]. cbn [pred].
    destruct (frames_wf_enter d m t i F Hi Hwf) as (_ & _ & _ & Hts & _). intros Hfull.
    apply (full_update d m _ t i); [intros j Hj; by apply table_set_entry_ne| |done|].
    + intros f Hf. assert (t ≠ f) by (intros ->; done). cbn. by rewrite fn_lookup_insert_ne.
    + cbv zeta. rewrite table_set_entry, decide_True by done. intros Hpr Hlp. by rewrite Hpr, Hlp in Hle.
  - intros fl v'. by eapply along_set_leaf.
Qed.

(** [map] walks to the slot, allocating the missing tables, and fills it. *)
Lemma Mapper_map_fills P n : ∀ s F t v p flags,
  pa_owns s F → frames_wf F (tables (n + base_of P) (snd s) t) → phys_page_ok P p →
  clear_path n (base_of P) (snd s) t v → slot_absent n (base_of P) (snd s) t v →
  (missing n (base_of P) (snd s) t v ≤ length F)%nat → opens flags (n + base_of P) (snd s) t v →
  ∃ s' F' e, Mapper_map off P n s t (mkPage v) (mkPage p) flags = Done (Ok (mkFlusher v), s') ∧
    conserves (n + base_of P) t F s F' s' ∧ (length F = length F' + missing n (base_of P) (snd s) t v)%nat ∧
    translate (n + base_of P) (snd s') t v = Some (base_of P, e) ∧ mapped_to P flags p e ∧
    (∀ v', ¬ same_path n (base_of P) v v' →
       translate (n + base_of P) (snd s') t v' = translate (n + base_of P) (snd s) t v') ∧
    (full (n + base_of P) (snd s) t → full (n + base_of P) (snd s') t) ∧
    (∀ fl v', opens fl (n + base_of P) (snd s) t v' → opens fl (n + base_of P) (snd s') t v').
Proof using Hoff.
  induction n as [|n IH]; intros s F t v p flags Ho Hwf Hp Hc Hs HF Hop.
  { destruct (map_inner_ok P s F t v p flags Ho Hwf Hp Hs) as (s' & e & ? & ? & ? & ? & ? & ? & ?).
    exists s', F, e. split_and!; try done; cbn [missing]; lia. }
  cbn [Mapper_map get_address]. rewrite level_base.
  rewrite table_deref_ok by (apply (frames_wf_table F _ t Hwf), elem_of_app; right; apply tables_head).
  rewrite bind_ret.
  destruct (next_table_ok n (base_of P) s F t v Ho Hwf Hc HF)
    as (next & s1 & F1 & Enext & Hcons & HF1 & (Ep & El & Ea) & Hc1 & Hs1 & Htr1 & Hfl1 & Hone & Hkeep & Hop1).
  cbv zeta. rewrite Enext, bind_ret. cbv beta iota.
  set (i := calculate_index (S (S n + base_of P)) v) in *.
  assert (Hi : (i < 512)%nat) by apply calculate_index_lt.
  pose proof (conserves_wf _ _ _ _ _ _ Hcons Hwf) as Hwf1.
  pose proof (frames_wf_enter _ _ _ i _ Hi Hwf1) as (Hsub & _ & _ & _ & Hsib).
  rewrite (subtree_present _ _ _ _ Ep El), Ea in Hsub, Hsib.
  assert (Hg : grants flags (table (snd s1) t i) ∧ opens flags (n + base_of P) (snd s1) next v).
  { apply Hop1 in Hop. unfold opens in Hop |- *. cbn [Nat.add along] in Hop. change (S (S (n + base_of P))) with (S (S n + base_of P)) in Hop. fold i in Hop. destruct (Hop Ep El) as [Hg Hop']. rewrite Ea in Hop'. done. }
  destruct (IH s1 F1 next v p flags) as (s2 & F2 & e & -> & Hcons2 & HF2 & Htr2 & He & Hoth2 & Hfl2 & Hop2);
    [apply Hcons|done|done|done|by apply Hs1|lia|apply Hg|].
  destruct Hcons2 as (Ho2 & Hp2 & Hout2). assert (Hcons2 : conserves (n + base_of P) next F1 s1 F2 s2) by done.
  rewrite <- Ea in Hcons2, Htr2, Hoth2.
  destruct (conserves_enter _ _ i _ _ _ _ Hi Hwf1 Ep El Hcons2) as (Htab & Hcons3 & Hoth3 & Hal3).
  exists s2, F2, (narrow (table (snd s1) t i) e). split_and!; [done|by eapply conserves_trans|lia| |by apply mapped_narrow; [|apply Hg]| | |].
  - cbn [Nat.add] in *. rewrite translate_enter by (fold i; by rewrite Htab). fold i. rewrite Htab, Htr2. done.
  - intros v' Hv'. rewrite <- Htr1.
    destruct (decide (calculate_index (S (S n + base_of P)) v' = i)) as [E|E]; [|by apply Hoth3].
    assert (Hen : ∀ m, table m t = table (snd s1) t →
      translate (S n + base_of P) m t v' =
        through (table (snd s1) t i) <$> translate (n + base_of P) m (pde_get_address (table (snd s1) t i)) v').
    { intros m Hm. cbn [Nat.add] in *. rewrite translate_enter; rewrite E, Hm; done. }
    rewrite (Hen _ Htab), (Hen _ eq_refl). f_equal. apply Hoth2. contradict Hv'. apply same_path_S. done.
  - intros Hfull. apply (full_update (n + base_of P) (snd s) _ t i); [intros j Hj; rewrite Htab; by apply Hone| |done|].
    + intros f Hf. rewrite <- (Hkeep f Hf). rewrite <- (siblings_ext _ _ (snd s1) t i Hone Hkeep) in Hf. apply Hout2; by apply Hsib.
    + cbv zeta. rewrite Htab, Ea. intros _ _. split; [|by apply Hfl2, Hfl1].
      exists (calculate_index (S (n + base_of P)) v). split; [apply calculate_index_lt|]. rewrite Ea in Htr2.
      destruct (present (table (snd s2) next (calculate_index (S (n + base_of P)) v))) eqn:Epn; [done|]. by rewrite (translate_absent _ _ _ _ Epn) in Htr2.
  - intros fl v' Hv'. apply Hal3; [by apply Hop1|]. intros _ Hg' Ha. split; [done|]. rewrite Ea in Ha |- *. by apply Hop2.
Qed.

Lemma Mapper_map_ok P n s F t v p flags :
  pa_owns s F → frames_wf F (tables (n + base_of P) (snd s) t) → phys_page_ok P p →
  clear_path n (base_of P) (snd s) t v → slot_absent n (base_of P) (snd s) t v →
  (n ≤ length F)%nat → opens flags (n + base_of P) (snd s) t v →
  ∃ s' F' e, Mapper_map off P n s t (mkPage v) (mkPage p) flags = Done (Ok (mkFlusher v), s') ∧
    conserves (n + base_of P) t F s F' s' ∧ (length F ≤ length F' + n)%nat ∧
    translate (n + base_of P) (snd s') t v = Some (base_of P, e) ∧ mapped_to P flags p e ∧
    (∀ v', ¬ same_path n (base_of P) v v' →
       translate (n + base_of P) (snd s') t v' = translate (n + base_of P) (snd s) t v') ∧
    (∀ fl v', opens fl (n + base_of P) (snd s) t v' → opens fl (n + base_of P) (snd s') t v').
Proof using Hoff.
  intros. pose proof (missing_le n (base_of P) (snd s) t v).
  destruct (Mapper_map_fills P n s F t v p flags) as (s' & F' & e & ? & ? & ? & ? & ? & ? & _ & ?); [done..|lia|done|].
  exists s', F', e. split_and!; try done. lia.
Qed.

(** [map] on a page that is mapped changes nothing. *)
Lemma Mapper_map_mapped P n : ∀ s t v p flags e,
  Forall frame_ok (tables (n + base_of P) (snd s) t) →
  clear_path n (base_of P) (snd s) t v →
  leaf_entry n (base_of P) (snd s) t v = Some e → present e = true →
  Mapper_map off P n s t (mkPage v) (mkPage p) flags =
    Done (Err (MemAlreadyMapped v p (pde_get_address e)), s).
Proof using Hoff.
  induction n as [|n IH]; intros [a m] t v p flags e Hwf Hc Hl Hp; cbn [snd] in *.
  - cbn [Mapper_map]. unfold map_inner. cbn [get_address].
    rewrite table_deref_ok by (eapply Forall_forall; [done|apply tables_head]).
    cbn [mbind outcome_bind]. injection Hl as <-.
    assert (level_of P = S (base_of P)) as -> by by destruct P. by rewrite Hp.
  - cbn [Mapper_map get_address snd]. rewrite level_base.
    rewrite table_deref_ok by (eapply Forall_forall; [done|apply tables_head]).
    rewrite bind_ret. cbn [leaf_entry clear_path] in Hl, Hc. unfold next_table. cbv zeta. cbn [snd].
    destruct (present (table m t _)) eqn:Ep; [|done]. destruct Hc as [El Hc]; [done|].
    rewrite El. cbn [negb assert_ mbind outcome_bind].
    apply IH; [|done..]. cbn [snd].
    eapply Forall_forall. intros f Hf. eapply Forall_forall in Hwf; [exact Hwf|].
    eapply (subtree_in_tables (n + base_of P)); [apply calculate_index_lt|].
    rewrite subtree_present; done.
Qed.
(** Unlinking and freeing an empty table under entry [i]. *)
Lemma reclaim_ok d a m t i F e' :
  let next := pde_get_address (table m t i) in
  (i < 512)%nat → pa_owns (a, m) F → frames_wf F (tables (S d) m t) →
  present (table m t i) = true → larger_pages (table m t i) = false →
  (∀ j, (j < 512)%nat → present (table m next j) = false) → present e' = false →
  ∃ s', pa_free_page (a, set_entry m t i e') (mkPage next) = Done s' ∧
    conserves (S d) t F (a, m) (next :: F) s' ∧ table (snd s') t i = e' ∧
    (∀ v, translate (S d) (snd s') t v = translate (S d) m t v) ∧
    (∀ Q v, along Q (S d) m t v → along Q (S d) (snd s') t v).
Proof.
  intros next Hi Ho Hwf Ep El Hemp He'.
  destruct (frames_wf_enter d m t i F Hi Hwf) as (Hsub & Hokt & Ht & Hts & Hsib).
  destruct (empty_table d m next Hemp) as [Htabs Htr].
  assert (Hst : subtree d m t i = [next]) by (by rewrite subtree_present).
  rewrite Hst in Hsub, Ht, Hsib.
  assert (Hnx : next ∉ F) by (destruct Hsub as [Hnd _]; apply NoDup_app in Hnd; set_solver).
  destruct (pa_free_page_spec (a, set_entry m t i e') F next) as (s' & Hfree & Ho' & Htab);
    [by apply owns_set_entry|apply (frames_wf_table _ _ _ Hsub); set_solver|done|].
  cbn [snd] in Htab. set (m' := set_entry m t i e') in *.
  assert (Hm' : ∀ f, t ≠ f → table m' f = table m f) by (intros f Hf; by apply table_set_entry_frame).
  assert (Hi' : table m' t i = e') by apply table_set_entry_eq.
  destruct (tree_update d m m' t i F (next :: F) Hi Hwf) as [Hperm Hoth].
  { intros j Hj. by apply table_set_entry_ne. }
  { intros f Hf. apply Hm'. by intros ->. }
  { rewrite Hst, subtree_absent by by rewrite Hi'. solve_Permutation. }
  assert (Htabs' : ∀ d, tables d (snd s') t = tables d m' t)
    by (intros; apply tables_ext; intros; by rewrite Htab).
  assert (Htr' : ∀ v, translate (S d) (snd s') t v = translate (S d) m' t v)
    by (intros; apply translate_ext; intros; by rewrite Htab).
  exists s'. split_and!; [done| |by rewrite Htab| |].
  - split_and!; [done|by rewrite Htabs'|]. intros f _ Hf. rewrite Htab. apply Hm'.
    intros ->. apply Hf, elem_of_app. right. apply tables_head.
  - intros v. rewrite Htr'.
    destruct (decide (calculate_index (S (S d)) v = i)) as [E|E]; [|by apply Hoth].
    rewrite translate_absent by by rewrite E, Hi'. rewrite translate_enter by by rewrite E.
    by rewrite E, Htr.
  - intros Q v Ha. apply (along_ext Q (S d) m' (snd s')); [intros; by rewrite Htab|].
    apply (along_update Q d m m' t i v); [intros j Hj; by apply table_set_entry_ne|intros f Hf; apply Hm'; by intros ->|done|].
    cbv zeta. rewrite Hi', He'. done.
Qed.

(** What [unmap] reports for a slot. *)
Definition unmap_result (v : Z) (o : option PageDirectoryEntry) : result Flusher UnMapMemoryError :=
  match o with
  | Some e => if present e then Ok (mkFlusher v) else Err (MemNotMapped v)
  | None => Err (MemNotMapped v)
  end.

Definition leaf_size_ok (P : PageSize) (n : nat) (m : PMem) (t v : Z) : Prop :=
  ∀ e, leaf_entry n (base_of P) m t v = Some e → present e = true → larger_pages e = LARGER_PAGES P.

Lemma unmap_inner_ok P s F t v :
  pa_owns s F → frames_wf F (tables (base_of P) (snd s) t) → leaf_size_ok P 0 (snd s) t v →
  ∃ s', unmap_inner off P s t (mkPage v) =
      Done (unmap_result v (leaf_entry 0 (base_of P) (snd s) t v), s') ∧
    conserves (base_of P) t F s F s' ∧ translate (base_of P) (snd s') t v = None ∧
    (∀ v', ¬ same_path 0 (base_of P) v v' →
       translate (base_of P) (snd s') t v' = translate (base_of P) (snd s) t v') ∧
    no_empty (base_of P) (snd s') t v ∧ (∀ Q v', along Q (base_of P) (snd s) t v' → along Q (base_of P) (snd s') t v').
Proof using Hoff.
  destruct s as [a m]. intros Ho Hwf Hsz. cbn [snd] in *. specialize (Hsz _ eq_refl).
  unfold unmap_inner. cbn [get_address leaf_entry unmap_result Nat.add] in *.
  assert (level_of P = S (base_of P)) as -> by by destruct P.
  set (i := calculate_index _ v) in *.
  assert (Hi : (i < 512)%nat) by apply calculate_index_lt.
  rewrite table_deref_ok by (apply (frames_wf_table F _ t Hwf), elem_of_app; right; apply tables_head).
  cbn [mbind outcome_bind]. destruct (present (table m t i)) eqn:Ep; cbn [negb].
  - specialize (Hsz eq_refl). rewrite Hsz, eqb_reflx. cbn [assert_ mbind outcome_bind].
    destruct (set_address_entry (table m t i) false (LARGER_PAGES P) (read_write (table m t i))
                (user_super (table m t i)) 0) as (e & -> & He & _); [done|done|].
    assert (Hleaf : base_of P ≠ O → subtree (pred (base_of P)) m t i = [] ∧ present e && negb (larger_pages e) = false).
    { intros HP. rewrite He. split; [|done]. apply subtree_large. rewrite Hsz. by destruct P. }
    cbn [mbind outcome_bind]. exists (a, set_entry m t i e). cbn [snd].
    split_and!; [done|by apply conserves_set_leaf| | | |].
    + apply translate_absent. fold i. by rewrite table_set_entry, decide_True.
    + intros v' Hv'. apply (set_leaf _ _ _ _ _ F); [done..|]. contradict Hv'. by split.
    + apply along_absent. fold i. by rewrite table_set_entry, decide_True.
    + intros Q v'. by eapply along_set_leaf.
  - exists (a, m). cbn [snd]. split_and!; try done; [by apply translate_absent|by apply along_absent].
Qed.

(** [unmap] empties the slot and frees the tables that became empty. *)
Lemma Mapper_unmap_ok P n : ∀ s F t v,
  pa_owns s F → frames_wf F (tables (n + base_of P) (snd s) t) →
  clear_path n (base_of P) (snd s) t v → leaf_size_ok P n (snd s) t v →
  ∃ s' F', Mapper_unmap off P n s t (mkPage v) =
      Done (unmap_result v (leaf_entry n (base_of P) (snd s) t v), s') ∧
    conserves (n + base_of P) t F s F' s' ∧ (length F ≤ length F')%nat ∧
    translate (n + base_of P) (snd s') t v = None ∧
    (∀ v', ¬ same_path n (base_of P) v v' →
       translate (n + base_of P) (snd s') t v' = translate (n + base_of P) (snd s) t v') ∧
    no_empty (n + base_of P) (snd s') t v ∧
    (∀ v', no_empty (n + base_of P) (snd s) t v' → no_empty (n + base_of P) (snd s') t v') ∧
    (∀ fl v', opens fl (n + base_of P) (snd s) t v' → opens fl (n + base_of P) (snd s') t v').
Proof using Hoff.
  induction n as [|n IH]; intros s F t v Ho Hwf Hc Hsz.
  { destruct (unmap_inner_ok P s F t v Ho Hwf Hsz) as (s' & ? & ? & ? & ? & ? & Hal).
    exists s', F. split_and!; try done; intros; by apply Hal. }
  cbn [Mapper_unmap get_address]. rewrite level_base.
  rewrite (table_deref_ok t) by (apply (frames_wf_table F _ t Hwf), elem_of_app; right; apply tables_head).
  rewrite bind_ret. cbv zeta. unfold leaf_size_ok in Hsz. cbn [leaf_entry clear_path] in Hc, Hsz |- *.
  set (i := calculate_index (S (S n + base_of P)) v) in *.
  assert (Hi : (i < 512)%nat) by apply calculate_index_lt.
  destruct (present (table (snd s) t i)) eqn:Ep; cbn [negb].
  2: { exists s, F. split_and!; try done; [by apply translate_absent|by apply along_absent]. }
  destruct Hc as [El Hc]; [done|]. rewrite El. cbn [negb assert_]. rewrite bind_ret.
  set (next := pde_get_address _) in *.
  pose proof (frames_wf_enter _ _ _ i _ Hi Hwf) as (Hsub & _).
  rewrite (subtree_present _ _ _ _ Ep El) in Hsub. fold next in Hsub.
  destruct (IH s F next v Ho Hsub Hc Hsz) as ([a1 m1] & F1 & -> & Hcons & HF1 & Htrv & Hoth & Hne & Hkeep & Hop).
  rewrite bind_ret. cbv beta iota.
  destruct (conserves_enter _ _ i _ _ _ _ Hi Hwf Ep El Hcons) as (Htab & Hcons1 & Hoth1 & Hal1).
  pose proof (conserves_wf _ _ _ _ _ _ Hcons1 Hwf) as Hwf1. cbn [snd] in *.
  assert (Hokn : frame_ok next) by (apply (frames_wf_table _ _ _ Hsub), elem_of_app; right; apply tables_head).
  rewrite (table_deref_ok next Hokn), bind_ret.
  (* the tree before the clean-up *)
  assert (Hmid : translate (S n + base_of P) m1 t v = None ∧
                 ∀ v', ¬ same_path (S n) (base_of P) v v' →
                   translate (S n + base_of P) m1 t v' = translate (S n + base_of P) (snd s) t v').
  { assert (Hen : ∀ v' m, calculate_index (S (S n + base_of P)) v' = i → table m t = table (snd s) t →
      translate (S n + base_of P) m t v' = through (table (snd s) t i) <$> translate (n + base_of P) m next v').
    { intros v' m E Hm. cbn [Nat.add] in *. rewrite translate_enter; rewrite E, Hm; done. }
    split; [by rewrite Hen, Htrv|]. intros v' Hv'.
    destruct (decide (calculate_index (S (S n + base_of P)) v' = i)) as [E|E]; [|by apply Hoth1].
    rewrite !Hen by done. f_equal. apply Hoth. contradict Hv'. by apply same_path_S. }
  destruct Hmid as [Hmidv Hmido].
  assert (Hop1 : ∀ fl v', opens fl (S n + base_of P) (snd s) t v' → opens fl (S n + base_of P) m1 t v').
  { intros fl v' Hv'. apply Hal1; [done|]. intros _ Hg Ha. split; [done|]. by apply Hop. }
  destruct (all_entries_empty m1 next) eqn:Eemp.
  2: { exists (a1, m1), F1. split_and!; try done.
       - unfold no_empty. cbn [Nat.add along snd]. fold i. rewrite Htab. intros _ _. split; [by apply all_entries_empty_false|exact Hne].
       - intros v' Hv'. apply Hal1; [done|]. intros _ _ Ha. split; [by apply all_entries_empty_false|by apply Hkeep]. }
  rewrite Page_new_ok by (destruct Hokn as (? & ? & ?); unfold PHYS_TOP in *; cbn; lia || done).
  rewrite bind_ret.
  destruct (set_address_entry (table m1 t i) false (larger_pages (table m1 t i)) (read_write (table m1 t i))
              (user_super (table m1 t i)) 0) as (e' & -> & He' & _); [done|done|]. rewrite bind_ret.
  destruct (reclaim_ok (n + base_of P) a1 m1 t i F1 e') as (s2 & Hfree & Hcons2 & Hi2 & Htr2 & Hal2);
    try (done || by rewrite Htab); [apply Hcons1|by rewrite Htab; apply all_entries_empty_true|].
  rewrite Htab in Hfree, Hcons2. fold next in Hfree, Hcons2. rewrite Hfree, bind_ret.
  exists s2, (next :: F1). split_and!; [done|by eapply conserves_trans|cbn; lia|by rewrite Htr2| | | |].
  - intros v' Hv'. rewrite Htr2. by apply Hmido.
  - apply along_absent. cbn [Nat.add] in *. fold i. by rewrite Hi2.
  - intros v' Hv'. destruct (decide (calculate_index (S (S n + base_of P)) v' = i)) as [E|E].
    + apply along_absent. cbn [Nat.add] in *. by rewrite E, Hi2.
    + apply Hal2, Hal1; [done|]. intros E'. cbn [Nat.add] in *. by destruct E.
  - intros fl v' Hv'. by apply Hal2, Hop1.
Qed.

(** [address_of] agrees with the page walk. *)
Lemma Mapper_address_of_ok P n : ∀ m t v,
  Forall frame_ok (tables (n + base_of P) m t) → clear_path n (base_of P) m t v →
  (∀ e, leaf_entry n (base_of P) m t v = Some e → present e = true → phys_page_ok P (pde_get_address e)) →
  Mapper_address_of off P n m t (mkPage v) =
    Done (match leaf_entry n (base_of P) m t v with
          | Some e => if present e && Bool.eqb (LARGER_PAGES P) (larger_pages e)
                      then Some (mkPage (pde_get_address e)) else None
          | None => None
          end).
Proof using Hoff.
  induction n as [|n IH]; intros m t v Hwf Hc Hp.
  - cbn [Mapper_address_of leaf_entry Nat.add] in *. unfold address_of_inner. cbn [get_address].
    rewrite table_deref_ok by (eapply Forall_forall; [done|apply tables_head]).
    rewrite bind_ret. cbv zeta. assert (level_of P = S (base_of P)) as -> by by destruct P.
    specialize (Hp _ eq_refl). destruct (present _) eqn:Ep; [|done]. cbn [andb].
    destruct (Bool.eqb _ _); [|done]. destruct Hp as [? ?]; [done|]. by rewrite Page_new_ok.
  - cbn [Mapper_address_of get_address]. rewrite level_base.
    rewrite table_deref_ok by (eapply Forall_forall; [done|apply tables_head]).
    rewrite bind_ret. cbv zeta. cbn [leaf_entry clear_path] in Hc, Hp |- *.
    destruct (present (table m t _)) eqn:Ep; [|done]. destruct Hc as [El Hc]; [done|].
    rewrite El. cbn [negb assert_ mbind outcome_bind]. apply IH; [|done..].
    eapply Forall_forall. intros f Hf. eapply Forall_forall in Hwf; [exact Hwf|].
    eapply (subtree_in_tables (n + base_of P)); [apply calculate_index_lt|].
    rewrite subtree_present; done.
Qed.
End operations.

(** ** Level-4 tables *)

(** The steps from a [PageTable<TableLevel4>] to the level that maps [P]. *)
Definition steps4 (P : PageSize) : nat := (4 - level_of P)%nat.

Definition virt_ok (v : Z) : Prop := 0 ≤ v < u64_lim ∧ canonical v.

Lemma steps4_base P : (steps4 P + base_of P = 3)%nat.
Proof. by destruct P. Qed.

Lemma calculate_index_mod L v :
  calculate_index L v = Z.to_nat (v / 2 ^ (Z.of_nat L * 9 + 3) mod 512).
Proof.
  unfold calculate_index, INDEXER. change 0x1ff with (2 ^ 9 - 1).
  by rewrite land_ones_mod, Z.shiftr_div_pow2 by lia.
Qed.

Lemma calculate_index_inj L v v' :
  calculate_index L v = calculate_index L v' →
  v / 2 ^ (Z.of_nat L * 9 + 3) mod 512 = v' / 2 ^ (Z.of_nat L * 9 + 3) mod 512.
Proof.
  rewrite !calculate_index_mod. intros E.
  pose proof (Z.mod_pos_bound (v / 2 ^ (Z.of_nat L * 9 + 3)) 512).
  pose proof (Z.mod_pos_bound (v' / 2 ^ (Z.of_nat L * 9 + 3)) 512). lia.
Qed.

(** One more level: the index and the page of the level above give the page. *)
Lemma page_of_index k v v' :
  0 ≤ k → v / 2 ^ k mod 512 = v' / 2 ^ k mod 512 → v / 2 ^ (k + 9) = v' / 2 ^ (k + 9) →
  v / 2 ^ k = v' / 2 ^ k.
Proof.
  intros Hk Hm Hd. rewrite Z.pow_add_r in Hd by lia. change (2 ^ 9) with 512 in Hd.
  rewrite <- !Z.div_div in Hd by lia.
  rewrite (Z.div_mod (v / 2 ^ k) 512), (Z.div_mod (v' / 2 ^ k) 512) by lia. congruence.
Qed.

(** A canonical address is determined by its low 48 bits. *)
Lemma canonical_top v v' :
  virt_ok v → virt_ok v' → v / 2 ^ 39 mod 512 = v' / 2 ^ 39 mod 512 → v / 2 ^ 39 = v' / 2 ^ 39.
Proof.
  unfold virt_ok, canonical, u64_lim. intros [? Hc] [? Hc'] E.
  pose proof (Z.div_mod v (2 ^ 39)). pose proof (Z.mod_pos_bound v (2 ^ 39)).
  pose proof (Z.div_mod v' (2 ^ 39)). pose proof (Z.mod_pos_bound v' (2 ^ 39)).
  pose proof (Z.div_mod (v / 2 ^ 39) 512). pose proof (Z.div_mod (v' / 2 ^ 39) 512).
  pose proof (Z.mod_pos_bound (v / 2 ^ 39) 512). pose proof (Z.mod_pos_bound (v' / 2 ^ 39) 512).
  lia.
Qed.

(** The indices of the levels identify the page. *)
Lemma same_path_page P v v' :
  virt_ok v → virt_ok v' → same_path (steps4 P) (base_of P) v v' →
  v / PAGE_SIZE P = v' / PAGE_SIZE P.
Proof.
  intros Hv Hv' Hp.
  assert (H4 : calculate_index 4 v = calculate_index 4 v' → v / 2 ^ 39 = v' / 2 ^ 39)
    by (intros E%calculate_index_inj; by apply canonical_top).
  assert (Hstep : ∀ L, calculate_index L v = calculate_index L v' →
    v / 2 ^ (Z.of_nat L * 9 + 3 + 9) = v' / 2 ^ (Z.of_nat L * 9 + 3 + 9) →
    v / 2 ^ (Z.of_nat L * 9 + 3) = v' / 2 ^ (Z.of_nat L * 9 + 3))
    by (intros L E%calculate_index_inj ?; apply page_of_index; [lia|done|done]).
  destruct P; cbn [steps4 level_of base_of pred Nat.sub same_path Nat.add] in Hp.
  - destruct Hp as (E4 & E3 & E2 & E1 & _). by apply (Hstep 1%nat), (Hstep 2%nat), (Hstep 3%nat), H4.
  - destruct Hp as (E4 & E3 & E2 & _). by apply (Hstep 2%nat), (Hstep 3%nat), H4.
  - destruct Hp as (E4 & E3 & _). by apply (Hstep 3%nat), H4.
Qed.

(** A successful walk finds the slot. *)
Lemma translate_leaf n k : ∀ m t v e,
  translate (n + k) m t v = Some (k, e) →
  clear_path n k m t v ∧ ∃ e0, leaf_entry n k m t v = Some e0 ∧ present e0 = true ∧
    larger_pages e0 = larger_pages e ∧ pde_get_address e0 = pde_get_address e.
Proof.
  induction n as [|n IH]; intros m t v e.
  - cbn [Nat.add clear_path leaf_entry]. destruct k; cbn [translate];
      destruct (present _) eqn:Ep; try done; [naive_solver|].
    destruct (larger_pages _); [naive_solver|].
    intros ([k' e'] & Ht & [= <- _])%fmap_Some. exfalso. clear Ep. revert Ht. generalize (pde_get_address (table m t (calculate_index (S (S k)) v))).
    assert (Hle : ∀ d m t v k' e', translate d m t v = Some (k', e') → (k' ≤ d)%nat).
    { clear. induction d as [|d IH]; intros m t v k' e'; cbn [translate];
        destruct (present _); try done; [naive_solver|].
      destruct (larger_pages _); [naive_solver|]. intros ([k1 e1] & ?%IH & [= -> _])%fmap_Some. lia. }
    intros t' ?%Hle. cbn in *. lia.
  - cbn [Nat.add translate clear_path leaf_entry].
    destruct (present _) eqn:Ep; [|done]. destruct (larger_pages _) eqn:El.
    + intros [= ? _]. lia.
    + intros ([k' e'] & Ht & [= -> ->])%fmap_Some. destruct (IH _ _ _ _ Ht) as (? & e0 & ? & ? & ? & ?). by eauto 10.
Qed.

(** ** Correctness of the page tables *)
Lemma slot_cases n k m t v :
  (∃ e, leaf_entry n k m t v = Some e ∧ present e = true) ∨ slot_absent n k m t v.
Proof.
  unfold slot_absent. destruct (leaf_entry n k m t v) as [e|]; [|by right].
  destruct (present e) eqn:Ep; [left; eauto|right]. naive_solver.
Qed.

Lemma frames_wf_tables F T : frames_wf F T → Forall frame_ok T.
Proof. intros [_ Hf]. by apply Forall_app in Hf as [_ ?]. Qed.

(** [address_of] after the walk finds a page of the size. *)
Lemma address_of_mapped off P m t v p flags e :
  offset_ok off → Forall frame_ok (tables 3 m t) → phys_page_ok P p →
  translate 3 m t v = Some (base_of P, e) → mapped_to P flags p e →
  Mapper_address_of off P (steps4 P) m t (mkPage v) = Done (Some (mkPage p)).
Proof.
  intros Hoff Hf Hp Ht (Hpr & Hl & _ & _ & Ha). rewrite <- (steps4_base P) in Hf, Ht.
  destruct (translate_leaf _ _ _ _ _ _ Ht) as (Hc & e0 & Hle & Hp0 & Hl0 & Ha0). rewrite Hl in Hl0. rewrite Ha in Ha0.
  rewrite (Mapper_address_of_ok off Hoff P), Hle; [|done..|].
  - by rewrite Hp0, Hl0, Ha0, eqb_reflx.
  - rewrite Hle. intros e' [= <-] _. by rewrite Ha0.
Qed.

Section correctness.
Context {A : Type} {HA : PageAllocator A} {HS : @PageAllocatorSpec A HA}.

(** C1: mapping a page in an address space either reports the address the page
    is already mapped to and changes nothing, or makes the MMU's walk of that
    page return the physical page with exactly the requested permissions (those
    that every level of the walk grants) and [address_of] return the page; it leaves
    the translation and the permissions of every other page alone, makes no table
    that withholds a permission, touches no table outside the tree, and takes the
    tables it needs from the allocator without losing a frame.  The tables that are
    on the way already have to grant the permissions: [map] does not change them. *)
Theorem Mapper_map_spec off P s F t v p flags :
  offset_ok off → pa_owns s F → frames_wf F (tables 3 (snd s) t) →
  virt_ok v → phys_page_ok P p →
  clear_path (steps4 P) (base_of P) (snd s) t v → opens flags 3 (snd s) t v → (3 ≤ length F)%nat →
  (∃ e, leaf_entry (steps4 P) (base_of P) (snd s) t v = Some e ∧ present e = true ∧
     Mapper_map off P (steps4 P) s t (mkPage v) (mkPage p) flags =
       Done (Err (MemAlreadyMapped v p (pde_get_address e)), s)) ∨
  (slot_absent (steps4 P) (base_of P) (snd s) t v ∧
   ∃ s' F' e, Mapper_map off P (steps4 P) s t (mkPage v) (mkPage p) flags = Done (Ok (mkFlusher v), s') ∧
     conserves 3 t F s F' s' ∧ (length F ≤ length F' + 3)%nat ∧
     translate 3 (snd s') t v = Some (base_of P, e) ∧ mapped_to P flags p e ∧
     Mapper_address_of off P (steps4 P) (snd s') t (mkPage v) = Done (Some (mkPage p)) ∧
     (∀ v', virt_ok v' → v' / PAGE_SIZE P ≠ v / PAGE_SIZE P →
        translate 3 (snd s') t v' = translate 3 (snd s) t v') ∧
     (∀ fl v', opens fl 3 (snd s) t v' → opens fl 3 (snd s') t v')).
Proof.
  intros Hoff Ho Hwf Hv Hp Hc Hop HF. pose proof (steps4_base P) as H3.
  destruct (slot_cases (steps4 P) (base_of P) (snd s) t v) as [(e & Hl & Hpr)|Hs]; [left|right].
  - exists e. split_and!; [done|done|].
    apply Mapper_map_mapped; [done|rewrite H3; by eapply frames_wf_tables|done..].
  - split; [done|].
    destruct (Mapper_map_ok off Hoff P (steps4 P) s F t v p flags)
      as (s' & F' & e' & E & Hcons & HF' & Ht & Hm & Hoth & Hop');
      [done|by rewrite H3|done..|destruct P; cbn in *; lia|by rewrite H3|].
    rewrite H3 in *. exists s', F', e'. split_and!; [done|done|destruct P; cbn in *; lia|done|done| | |done].
    + eapply address_of_mapped; [done| |done..]. eapply frames_wf_tables. by eapply conserves_wf.
    + intros v' Hv' Hne. apply Hoth. contradict Hne. symmetry. by apply same_path_page.
Qed.

(** C13: unmapping a page reports whether it was mapped, after which the MMU no
    longer translates it, while every other translation is unchanged; afterwards no
    table on the way to the page is empty: those that became empty have gone back to
    the allocator, and no frame is lost.  Ways to other pages that had no empty table
    have none. *)
Theorem Mapper_unmap_spec off P s F t v :
  offset_ok off → pa_owns s F → frames_wf F (tables 3 (snd s) t) → virt_ok v →
  clear_path (steps4 P) (base_of P) (snd s) t v → leaf_size_ok P (steps4 P) (snd s) t v →
  ∃ s' F', Mapper_unmap off P (steps4 P) s t (mkPage v) =
      Done (unmap_result v (leaf_entry (steps4 P) (base_of P) (snd s) t v), s') ∧
    conserves 3 t F s F' s' ∧ (length F ≤ length F')%nat ∧ translate 3 (snd s') t v = None ∧
    (∀ v', virt_ok v' → v' / PAGE_SIZE P ≠ v / PAGE_SIZE P →
       translate 3 (snd s') t v' = translate 3 (snd s) t v') ∧
    no_empty 3 (snd s') t v ∧ (∀ v', no_empty 3 (snd s) t v' → no_empty 3 (snd s') t v').
Proof.
  intros Hoff Ho Hwf Hv Hc Hsz. pose proof (steps4_base P) as H3.
  destruct (Mapper_unmap_ok off Hoff P (steps4 P) s F t v) as (s' & F' & E & Hcons & HF' & Ht & Hoth & Hne & Hkeep & _);
    [done|by rewrite H3|done..|].
  rewrite H3 in *. exists s', F'. split_and!; [done..| |done|done].
  intros v' Hv' Hne'. apply Hoth. contradict Hne'. symmetry. by apply same_path_page.
Qed.

(** [get_phys_addr_from_vaddr] resolves every byte of a mapped user page to
    the byte at the same offset of the physical page. *)
Theorem get_phys_addr_from_vaddr_spec off m t address p flags e :
  offset_ok off → Forall frame_ok (tables 3 m t) → phys_page_ok Size4KB p →
  0x1000 ≤ address < 2 ^ 47 →
  translate 3 m t (address - address mod 0x1000) = Some (O, e) → mapped_to Size4KB flags p e →
  get_phys_addr_from_vaddr off m t address = Done (Some (p + address mod 0x1000)).
Proof.
  intros Hoff Hf Hp Ha Ht Hm. unfold get_phys_addr_from_vaddr.
  rewrite (Page_containing_ok Size4KB address Ha). cbn [mbind outcome_bind PAGE_SIZE].
  rewrite (address_of_mapped off Size4KB m t _ p flags e) by done. cbn [mbind outcome_bind get_address].
  destruct Hp as [? _]. pose proof (Z.mod_pos_bound address 0x1000). by arith_ok.
Qed.
End correctness.

(** ** A new address space *)

(** Linking a tree that is outside the address space under an empty entry. *)
Lemma link_ok d m t i g e F :
  (i < 512)%nat → present (table m t i) = false →
  frames_wf (tables d m g ++ F) (tables (S d) m t) →
  present e = true → larger_pages e = false → pde_get_address e = g →
  let m' := set_entry m t i e in
  F ++ tables (S d) m' t ≡ₚ (tables d m g ++ F) ++ tables (S d) m t ∧
  (∀ v, translate (S d) m' t v =
        if decide (calculate_index (S (S d)) v = i) then through e <$> translate d m g v else translate (S d) m t v).
Proof.
  intros Hi Ep Hwf Hp Hl Ha m'.
  destruct (frames_wf_enter d m t i _ Hi Hwf) as (_ & _ & Ht & Hts & _).
  assert (Hi' : table m' t i = e) by apply table_set_entry_eq.
  assert (Hm' : ∀ f, t ≠ f → table m' f = table m f) by (intros f Hf; by apply table_set_entry_frame).
  assert (Hg : ∀ f, f ∈ tables d m g → table m' f = table m f) by (intros f Hf; apply Hm'; set_solver).
  destruct (tree_update d m m' t i (tables d m g ++ F) F Hi Hwf) as [Hperm Hoth].
  - intros j Hj. by apply table_set_entry_ne.
  - intros f Hf. apply Hm'. by intros ->.
  - rewrite (subtree_absent _ _ _ _ Ep), subtree_present, Hi', Ha by by rewrite Hi'.
    rewrite (tables_ext d m m' g Hg). solve_Permutation.
  - split; [done|]. intros v. case_decide as E; [|by apply Hoth].
    rewrite translate_enter by by rewrite E, Hi'. rewrite E, Hi', Ha. f_equal. by apply translate_ext.
Qed.

(** The link to a global table: writable, and for the kernel only. *)
Definition kernel_only (x : nat * PageDirectoryEntry) : nat * PageDirectoryEntry :=
  (fst x, pde_set_flags (snd x) (present (snd x)) (larger_pages (snd x)) (read_write (snd x)) false).

Lemma set_global_ok m t addr g F :
  let i := calculate_index 4 addr in
  table m t i = pde_zero → frames_wf (tables 2 m g ++ F) (tables 3 m t) →
  ∃ m', set_global m t addr g = Done m' ∧
    meta m' = meta m ∧ meta32 m' = meta32 m ∧
    (∀ f, t ≠ f → table m' f = table m f) ∧ (∀ j, j ≠ i → table m' t j = table m t j) ∧
    F ++ tables 3 m' t ≡ₚ (tables 2 m g ++ F) ++ tables 3 m t ∧
    (∀ v, translate 3 m' t v = if decide (calculate_index 4 v = i) then kernel_only <$> translate 2 m g v else translate 3 m t v) ∧
    read_write (table m' t i) = true ∧ pde_get_address (table m' t i) = g.
Proof.
  intros i Hz Hwf. unfold set_global. fold i. rewrite Hz.
  assert (Hg : frame_ok g) by (apply (frames_wf_table _ _ _ Hwf); rewrite !elem_of_app; do 2 left; apply tables_head).
  destruct (frame_set_address pde_zero true (larger_pages pde_zero) true false g Hg)
    as (e & -> & Hp & Hl & Hrw & Hus & Ha).
  cbn [mbind outcome_bind]. eexists. split; [done|].
  destruct (link_ok 2 m t i g e F) as [Hperm Htr];
    [apply calculate_index_lt|by rewrite Hz|done..|].
  assert (Hk : ∀ x, through e x = kernel_only x) by (intros [d x]; unfold through, kernel_only, narrow; cbn; by rewrite Hrw, Hus).
  split_and!; [done|done| | |done| |by rewrite table_set_entry_eq|by rewrite table_set_entry_eq].
  - intros f Hf. by apply table_set_entry_frame.
  - intros j Hj. by apply table_set_entry_ne.
  - intros v. rewrite Htr. case_decide; [|done]. by apply option_fmap_ext.
Qed.

(** [m] is on the way from [m1], the memory with the empty root [b], to the new
    address space: only [b] has changed, and the frames [Fx] are still outside. *)
Definition building (m1 : PMem) (b : Z) (Fx : list Z) (m : PMem) : Prop :=
  meta m = meta m1 ∧ meta32 m = meta32 m1 ∧ (∀ f, b ≠ f → table m f = table m1 f) ∧
  frames_wf Fx (tables 3 m b).

Lemma set_global_step m0 m1 b m x addr Fx :
  building m1 b (tables 2 m0 x ++ Fx) m →
  (∀ f, f ∈ tables 2 m0 x → table m1 f = table m0 f ∧ b ≠ f) →
  table m b (calculate_index 4 addr) = pde_zero →
  ∃ m', set_global m b addr x = Done m' ∧ building m1 b Fx m' ∧
    (∀ j, j ≠ calculate_index 4 addr → table m' b j = table m b j) ∧
    (∀ v, translate 3 m' b v = if decide (calculate_index 4 v = calculate_index 4 addr)
                               then kernel_only <$> translate 2 m0 x v else translate 3 m b v).
Proof.
  intros (Em & Em32 & Hm & Hw) Hx Hzero.
  assert (Hsame : ∀ f, f ∈ tables 2 m0 x → table m f = table m0 f)
    by (intros f Hf; destruct (Hx f Hf) as [<- ?]; by apply Hm).
  rewrite <- (tables_ext 2 _ _ _ Hsame) in Hw.
  destruct (set_global_ok m b addr x Fx Hzero Hw) as (m' & -> & E1 & E2 & E3 & E4 & E5 & E6 & _).
  exists m'. split; [done|]. split; [|split; [done|]].
  - split; [congruence|]. split; [congruence|]. split.
    + intros f Hf. rewrite E3 by done. by apply Hm.
    + eapply frames_wf_perm; [exact E5|exact Hw].
  - intros v. rewrite E6. case_decide; [|done]. f_equal. by apply translate_ext.
Qed.

(** Where the upper half of every address space leads. *)
Definition global_table (g : GlobalMaps) (i : nat) : option Z :=
  if decide (i = 448%nat) then Some (OFFSET_MAP g)
  else if decide (i = 511%nat) then Some (KERNEL_DATA_MAP g)
  else if decide (i = 510%nat) then Some (KERNEL_HEAP_MAP g)
  else if decide (i = 344%nat) then Some (PER_CPU_MAP g)
  else None.

Definition global_tables (g : GlobalMaps) (m : PMem) : list Z :=
  tables 2 m (PER_CPU_MAP g) ++ tables 2 m (KERNEL_HEAP_MAP g) ++
  tables 2 m (KERNEL_DATA_MAP g) ++ tables 2 m (OFFSET_MAP g).

Lemma elem_of_app4 (P H D O : list Z) f :
  f ∈ O ∨ f ∈ D ∨ f ∈ H ∨ f ∈ P → f ∈ P ++ H ++ D ++ O.
Proof. set_solver. Qed.

Lemma frames_wf_root G F F1 b : F ≡ₚ b :: F1 → frames_wf F G → frames_wf (G ++ F1) [b].
Proof. intros HF. apply frames_wf_perm. rewrite HF. solve_Permutation. Qed.

Lemma frames_wf_rev P H D O F T :
  frames_wf ((P ++ H ++ D ++ O) ++ F) T → frames_wf (O ++ D ++ H ++ P ++ F) T.
Proof. apply frames_wf_perm. solve_Permutation. Qed.

(** The level-4 entries of the four regions. *)
Lemma kernel_indices :
  calculate_index 4 PhysMapOffset = 448%nat ∧ calculate_index 4 KernelStart = 511%nat ∧
  calculate_index 4 KernelHeap = 510%nat ∧ calculate_index 4 PerCpuMem = 344%nat.
Proof. vm_compute. done. Qed.

#[local] Opaque calculate_index set_global.

(** A new address space has an empty user half, and shares the four global
    level-3 tables in its upper half, so that all address spaces translate the
    kernel's addresses alike, without access for user programs; the ways to the user half
    withhold nothing, and the frames of its tree are distinct from each other and from the
    free ones. *)
Theorem new_with_global_spec {A} `{PageAllocatorSpec A} off g s F :
  offset_ok off → pa_owns s F → F ≠ [] → frames_wf F (global_tables g (snd s)) →
  ∃ root s' F', new_with_global off g s = Done (root, s') ∧ F ≡ₚ root :: F' ∧ pa_owns s' F' ∧
    frames_wf F' (tables 3 (snd s') root) ∧
    (∀ f, frame_ok f → f ≠ root → table (snd s') f = table (snd s) f) ∧
    (∀ v, translate 3 (snd s') root v =
          (global_table g (calculate_index 4 v) ≫= λ t, kernel_only <$> translate 2 (snd s) t v)) ∧
    (∀ fl v, global_table g (calculate_index 4 v) = None → opens fl 3 (snd s') root v).
Proof.
  intros Hoff Ho Hne Hwf. unfold new_with_global, PageTable_new.
  destruct (pa_allocate_page_spec s F Ho) as [(b & [a1 m1] & F1 & -> & HFp & Ho1 & Hz & Hout)|[_ ->]]; [|done].
  cbn [mbind outcome_bind unwrap get_address snd] in *.
  set (G := global_tables g (snd s)) in *.
  assert (Hokb : frame_ok b) by (apply (frames_wf_table F _ b Hwf), elem_of_app; left; rewrite HFp; left).
  rewrite table_deref_ok by done. cbn [mbind outcome_bind].
  assert (Hext : ∀ f, f ∈ G → table m1 f = table (snd s) f ∧ b ≠ f).
  { intros f Hf. destruct (frames_wf_table F G f Hwf) as (? & ? & ?); [apply elem_of_app; by right|].
    assert (b ≠ f) by (intros ->; destruct Hwf as [Hnd _]; apply NoDup_app in Hnd as (_ & Hd & _);
      apply (Hd f); [rewrite HFp; left|done]). split; [by apply Hout|done]. }
  destruct (empty_table 3 m1 b) as [Ht1 Htr1]; [intros; by rewrite Hz|].
  assert (Hwf1 : frames_wf (G ++ F1) (tables 3 m1 b)).
  { rewrite Ht1. by eapply frames_wf_root. }
  unfold G, global_tables in Hext, Hwf1. destruct kernel_indices as (I1 & I2 & I3 & I4).
  assert (Hb1 : building m1 b (tables 2 (snd s) (OFFSET_MAP g) ++ tables 2 (snd s) (KERNEL_DATA_MAP g) ++
    tables 2 (snd s) (KERNEL_HEAP_MAP g) ++ tables 2 (snd s) (PER_CPU_MAP g) ++ F1) m1).
  { split; [done|]. split; [done|]. split; [done|]. by apply frames_wf_rev. }
  destruct (set_global_step _ _ _ _ _ PhysMapOffset _ Hb1) as (m2 & -> & Hb2 & A4 & A6);
    [intros f Hf; apply Hext, elem_of_app4; left; exact Hf|apply Hz|]. cbn [mbind outcome_bind].
  destruct (set_global_step _ _ _ _ _ KernelStart _ Hb2) as (m3 & -> & Hb3 & B4 & B6);
    [intros f Hf; apply Hext, elem_of_app4; right; left; exact Hf|rewrite A4 by lia; apply Hz|]. cbn [mbind outcome_bind].
  destruct (set_global_step _ _ _ _ _ KernelHeap _ Hb3) as (m4 & -> & Hb4 & C4 & C6);
    [intros f Hf; apply Hext, elem_of_app4; do 2 right; left; exact Hf|rewrite B4, A4 by lia; apply Hz|]. cbn [mbind outcome_bind].
  destruct (set_global_step _ _ _ _ _ PerCpuMem _ Hb4) as (m5 & -> & (D1 & D2 & D3 & D5) & D4 & D6);
    [intros f Hf; apply Hext, elem_of_app4; do 3 right; exact Hf|rewrite C4, B4, A4 by lia; apply Hz|].
  cbn [mbind outcome_bind]. exists b, (a1, m5), F1. cbn [snd]. split_and!; [done|done| |done| | |].
  - by eapply pa_owns_table.
  - intros f (? & ? & ?) Hf. rewrite D3 by done. by apply Hout.
  - intros v. rewrite D6, C6, B6, A6, Htr1. unfold global_table.
    rewrite I1, I2, I3, I4.
    repeat case_decide; try done; lia.
  - intros fl v Hv. apply along_absent. unfold global_table in Hv. repeat case_decide; try done.
    by rewrite D4, C4, B4, A4, Hz by lia.
Qed.

(** ** Concrete states

    An address space whose level-4 table is the empty table at 0x5000, with the
    buddy allocator's four free frames. *)
Lemma demo_tables d t : tables d demo_mem t = [t].
Proof. by apply empty_table. Qed.

Lemma demo_frames_wf t :
  frame_ok t → t ∉ range_frames 0x10000 4 → frames_wf (range_frames 0x10000 4) [t].
Proof.
  intros Ht Hn. split.
  - apply NoDup_app. split_and!; [apply range_frames_NoDup| |by apply NoDup_singleton].
    intros f Hf ->%list_elem_of_singleton. done.
  - apply Forall_app. split; [apply range_frames_ok; done|by apply Forall_singleton].
Qed.

Lemma demo_root_wf : frames_wf (range_frames 0x10000 4) (tables 3 (snd demo_world) 0x5000).
Proof.
  cbn [demo_world snd]. rewrite demo_tables. apply demo_frames_wf; [done|].
  intros (i & ? & ?)%elem_of_range_frames. lia.
Qed.

(** The allocator of the running kernel: physical memory is at [PhysMapOffset]. *)
#[local] Instance boot_allocator : PageAllocator PageFrameAllocator := pfa_allocator PhysMapOffset.
#[local] Instance boot_allocator_spec : PageAllocatorSpec PageFrameAllocator :=
  pfa_allocator_spec PhysMapOffset phys_map_offset_ok.

Lemma Mapper_map_spec_witness :
  slot_absent 3 0 (snd demo_world) 0x5000 0x400000 ∧
  ∃ s' F' e, Mapper_map PhysMapOffset Size4KB 3 demo_world 0x5000
               (mkPage 0x400000) (mkPage 0x7000) flags_all = Done (Ok (mkFlusher 0x400000), s') ∧
    conserves 3 0x5000 (range_frames 0x10000 4) demo_world F' s' ∧
    (length (range_frames 0x10000 4) ≤ length F' + 3)%nat ∧
    translate 3 (snd s') 0x5000 0x400000 = Some (O, e) ∧ mapped_to Size4KB flags_all 0x7000 e ∧
    Mapper_address_of PhysMapOffset Size4KB 3 (snd s') 0x5000 (mkPage 0x400000) = Done (Some (mkPage 0x7000)) ∧
    (∀ v', virt_ok v' → v' / 0x1000 ≠ 0x400000 / 0x1000 →
       translate 3 (snd s') 0x5000 v' = translate 3 (snd demo_world) 0x5000 v') ∧
    (∀ fl v', opens fl 3 (snd demo_world) 0x5000 v' → opens fl 3 (snd s') 0x5000 v').
Proof.
  destruct (Mapper_map_spec PhysMapOffset Size4KB demo_world (range_frames 0x10000 4)
    0x5000 0x400000 0x7000 flags_all) as [(e & He & Hp & _)|Hok];
    [exact phys_map_offset_ok|exact demo_owns|exact demo_root_wf|by (split; [|left])|done|done
    |by apply along_empty|vm_compute; lia| |exact Hok].
  cbn in He. congruence.
Defined.

(** One 4 KiB page mapped at 0x400000: a chain of four tables. *)
Definition demo_mapped : PMem :=
  let e a := mkPDE true true true false false false false false false 0 (a / 0x1000) in
  set_entry (set_entry (set_entry (set_entry demo_mem 0x5000 0 (e 0x20000)) 0x20000 0 (e 0x21000))
    0x21000 2 (e 0x22000)) 0x22000 0 (e 0x7000).

Lemma one_entry d m t i :
  (i < 512)%nat → (∀ j, j ≠ i → table m t j = pde_zero) → tables (S d) m t = t :: subtree d m t i.
Proof.
  intros Hi Hz. cbn [tables]. f_equal.
  change (concat (subtree d m t <$> entry_ids) = subtree d m t i).
  assert (Hall : ∀ l, i ∉ l → concat (subtree d m t <$> l) = []).
  { induction l as [|j l IH]; intros Hl; [done|]. cbn. unfold subtree at 1. rewrite Hz by set_solver.
    cbn. apply IH. set_solver. }
  rewrite (entry_ids_split i Hi), fmap_app, fmap_cons, concat_app. cbn [concat].
  rewrite !Hall by (rewrite elem_of_seq; lia). by rewrite (right_id_L [] (++)).
Qed.

Lemma demo_mapped_tables : tables 3 demo_mapped 0x5000 = [0x5000; 0x20000; 0x21000; 0x22000].
Proof.
  assert (Hz : ∀ t i, (t, i) ∈ [(0x5000, 0%nat); (0x20000, 0%nat); (0x21000, 2%nat)] →
                 ∀ j, j ≠ i → table demo_mapped t j = pde_zero).
  { intros t i Hin j Hj. unfold demo_mapped. rewrite !table_set_entry.
    repeat (apply elem_of_cons in Hin as [[= -> ->]|Hin]; [repeat case_decide; naive_solver lia|]).
    by apply elem_of_nil in Hin. }
  rewrite (one_entry 2 _ 0x5000 0); [|lia|apply Hz; set_solver].
  change (subtree 2 demo_mapped 0x5000 0) with (tables 2 demo_mapped 0x20000).
  rewrite (one_entry 1 _ 0x20000 0); [|lia|apply Hz; set_solver].
  change (subtree 1 demo_mapped 0x20000 0) with (tables 1 demo_mapped 0x21000).
  by rewrite (one_entry 0 _ 0x21000 2); [|lia|apply Hz; set_solver].
Qed.

Definition demo_mapped_world : PageFrameAllocator * PMem := (fst demo_world, demo_mapped).

Lemma demo_mapped_owns : owns demo_mapped_world (range_frames 0x10000 4).
Proof. exact (pa_owns_table (fst demo_world) demo_mem demo_mapped _ demo_owns eq_refl eq_refl). Qed.

Lemma demo_mapped_wf :
  frames_wf (range_frames 0x10000 4) (tables 3 (snd demo_mapped_world) 0x5000).
Proof.
  cbn [demo_mapped_world snd]. rewrite demo_mapped_tables. split.
  - apply (bool_decide_unpack _). vm_compute. exact I.
  - change (Forall frame_ok (range_frames 0x10000 4 ++ [0x5000; 0x20000; 0x21000; 0x22000])).
    apply Forall_app. split; [apply range_frames_ok; done|]. repeat (apply Forall_cons; split; [done|]). done.
Qed.

Lemma Mapper_unmap_spec_witness :
  ∃ s' F', Mapper_unmap PhysMapOffset Size4KB 3 demo_mapped_world 0x5000 (mkPage 0x400000) =
      Done (Ok (mkFlusher 0x400000), s') ∧
    conserves 3 0x5000 (range_frames 0x10000 4) demo_mapped_world F' s' ∧
    (length (range_frames 0x10000 4) ≤ length F')%nat ∧
    translate 3 (snd s') 0x5000 0x400000 = None ∧
    (∀ v', virt_ok v' → v' / 0x1000 ≠ 0x400000 / 0x1000 →
       translate 3 (snd s') 0x5000 v' = translate 3 demo_mapped 0x5000 v') ∧
    no_empty 3 (snd s') 0x5000 0x400000 ∧ (∀ v', no_empty 3 demo_mapped 0x5000 v' → no_empty 3 (snd s') 0x5000 v').
Proof.
  apply (Mapper_unmap_spec PhysMapOffset Size4KB demo_mapped_world (range_frames 0x10000 4) 0x5000 0x400000);
    [exact phys_map_offset_ok|exact demo_mapped_owns|exact demo_mapped_wf|by (split; [|left])| |].
  - vm_compute. done.
  - intros e He _. vm_compute in He. injection He as <-. done.
Defined.

(** The three tables of the path are empty afterwards and go back to the pool. *)
Example unmap_frees_tables :
  match Mapper_unmap PhysMapOffset Size4KB 3 demo_mapped_world 0x5000 (mkPage 0x400000) with
  | Done (Ok _, s) => head (free_lists (fst s)) = Some (Some 0x20000)
  | _ => False
  end.
Proof. vm_compute. done. Qed.

Lemma get_phys_addr_from_vaddr_spec_witness :
  get_phys_addr_from_vaddr PhysMapOffset demo_mapped 0x5000 0x400123 = Done (Some 0x7123).
Proof.
  apply (get_phys_addr_from_vaddr_spec PhysMapOffset demo_mapped 0x5000 0x400123 0x7000 flags_all
    (mkPDE true true true false false false false false false 0 7));
    [exact phys_map_offset_ok| |done|done|vm_compute; done|done].
  rewrite demo_mapped_tables. repeat (apply Forall_cons; split; [done|]). done.
Defined.

Definition demo_globals : GlobalMaps := mkGlobals 0x30000 0x31000 0x32000 0x33000.

Lemma new_with_global_spec_witness :
  ∃ root s' F', new_with_global PhysMapOffset demo_globals demo_world = Done (root, s') ∧
    range_frames 0x10000 4 ≡ₚ root :: F' ∧ pa_owns s' F' ∧
    frames_wf F' (tables 3 (snd s') root) ∧
    (∀ f, frame_ok f → f ≠ root → table (snd s') f = table (snd demo_world) f) ∧
    (∀ v, translate 3 (snd s') root v =
          (global_table demo_globals (calculate_index 4 v) ≫= λ t, kernel_only <$> translate 2 (snd demo_world) t v)) ∧
    (∀ fl v, global_table demo_globals (calculate_index 4 v) = None → opens fl 3 (snd s') root v).
Proof.
  apply (new_with_global_spec PhysMapOffset demo_globals demo_world (range_frames 0x10000 4));
    [exact phys_map_offset_ok|exact demo_owns|done|].
  cbn [demo_world snd]. unfold global_tables. rewrite !demo_tables. split.
  - apply (bool_decide_unpack _). vm_compute. exact I.
  - apply Forall_app. split; [apply range_frames_ok; done|].
    cbn. repeat (apply Forall_cons; split; [done|]). done.
Defined.
