(* ===== verification/PageMapper.v ===== *)
(** * Address spaces: mappings and page faults

    [kernel/src/paging/page_mapper.rs].  A [PageMapperManager] keeps an ordered
    vector of address ranges, each with a reference-counted [PageMapping] that
    several address spaces may share, and fills its page tables on page faults
    (or eagerly, in the [_set] variants).  The [Arc]s are cells of a store with
    their strong count, so that two managers that hold the same mapping see the
    same lazily allocated pages. *)
From S2P Require Import Prelude Page PhysMem AllocIface PageAlloc PageTable.

(** ** [slice::binary_search_by]

    The bisection of the standard library; [f] compares an element with the
    target.  Each round at least halves the interval, so its length is fuel. *)
Inductive search_result :=
  | Found (i : nat)
  | Insert (i : nat).

Fixpoint bisect {X} (f : X → comparison) (l : list X) (fuel left size right : nat)
  : outcome search_result :=
  if (left <? right)%nat then
    match fuel with
    | O => OutOfFuel
    | S fuel =>
        let mid := (left + size / 2)%nat in
        x ← index l mid;
        match f x with
        | Lt => bisect f l fuel (mid + 1)%nat (right - (mid + 1))%nat right
        | Gt => bisect f l fuel left (mid - left)%nat mid
        | Eq => Done (Found mid)
        end
    end
  else Done (Insert left).

Definition binary_search_by {X} (f : X → comparison) (l : list X) : outcome search_result :=
  bisect f l (length l) 0 (length l) (length l).

(** [Vec::insert]; the callers' index is at most the length. *)
Definition vec_insert {X} (l : list X) (i : nat) (x : X) : outcome (list X) :=
  if (i <=? length l)%nat then Done (take i l ++ x :: drop i l) else Panic PIndex.

(** [(a..b).step_by(0x1000)]. *)
Definition step_range (a b : Z) : list Z :=
  (λ i, a + Z.of_nat i * 0x1000) <$> seq 0 (Z.to_nat ((b - a + 0xFFF) / 0x1000)).

(** [Iterator::cmp] of [a..b] and [c..d]: the two sequences of integers are
    compared lexicographically. *)
Definition range_cmp (a b c d : Z) : comparison :=
  if b <=? a then (if d <=? c then Eq else Lt)
  else if d <=? c then Gt
  else match a ?= c with Eq => b ?= d | o => o end.

(** ** Mappings *)
Inductive PageMappingType :=
  | MMAP (base_address : Z)
  | LazyMapping (pages : list (option Z)).   (* the address of each AllocatedPage *)

Record PageMapping := mkMapping { size : Z; mapping : PageMappingType }.

(** [Arc<PageMapping>]: cells with their strong count. *)
Record ArcInner := mkArc { strong : nat; value : PageMapping }.
Record ArcStore := mkStore { arcs : gmap nat ArcInner; next_arc : nat }.

Definition arc_new (st : ArcStore) (pm : PageMapping) : nat * ArcStore :=
  (next_arc st, mkStore (<[next_arc st := mkArc 1 pm]> (arcs st)) (S (next_arc st))).

Definition arc_set (st : ArcStore) (id : nat) (pm : PageMapping) : ArcStore :=
  mkStore (alter (λ c, mkArc (strong c) pm) id (arcs st)) (next_arc st).

Record MapEntry := mkEntry {
  r_start : Z;
  r_end : Z;
  r_arc : nat;
  r_flags : MemoryMappingFlags;
}.

Record PageMapperManager := mkPMM {
  page_mapper : Z;
  mappings : list MapEntry;
}.

Section PageMapper.
Context {A : Type} `{PageAllocator A} (off : Z).

(** The allocator and memory, and the store of [Arc]s. *)
Definition vm_world : Type := (A * PMem) * ArcStore.

(** [AllocatedPage::new], unwrapped by its callers. *)
Definition AllocatedPage_new (s : A * PMem) : outcome (option Z * (A * PMem)) :=
  '(p, s) ← pa_allocate_page s; Done (option_map get_address p, s).

(** Dropping the pages of a lazy mapping frees them. *)
Fixpoint drop_pages (s : A * PMem) (pages : list (option Z)) : outcome (A * PMem) :=
  match pages with
  | [] => Done s
  | None :: pages => drop_pages s pages
  | Some p :: pages => s ← pa_free_page s (mkPage p); drop_pages s pages
  end.

(** Dropping an [Arc]: the last one drops the mapping. *)
Definition arc_drop (w : vm_world) (id : nat) : outcome vm_world :=
  let '(s, st) := w in
  match arcs st !! id with
  | None => Panic PUnreachable
  | Some c =>
      if (strong c <=? 1)%nat then
        s ← (match mapping (value c) with
             | MMAP _ => Done s
             | LazyMapping pages => drop_pages s pages
             end);
        Done (s, mkStore (delete id (arcs st)) (next_arc st))
      else Done (s, mkStore (<[id := mkArc (pred (strong c)) (value c)]> (arcs st)) (next_arc st))
  end.

Definition get_mapping (st : ArcStore) (id : nat) : outcome PageMapping :=
  match arcs st !! id with Some c => Done (value c) | None => Panic PUnreachable end.

(** [base_top_stack]: the physical address of the last page. *)
Definition base_top_stack (w : vm_world) (id : nat) : outcome (Z * vm_world) :=
  let '(s, st) := w in
  pm ← get_mapping st id;
  match mapping pm with
  | LazyMapping pages =>
      page ← unwrap (last pages);
      match page with
      | Some p => Done (p, w)
      | None =>
          '(o, s) ← AllocatedPage_new s;
          p ← unwrap o;
          let pages := <[pred (length pages) := Some p]> pages in
          Done (p, (s, arc_set st id (mkMapping (size pm) (LazyMapping pages))))
      end
  | MMAP _ => Panic PUnreachable
  end.

Definition new_lazy (w : vm_world) (sz : Z) : outcome (nat * vm_world) :=
  let '(s, st) := w in
  up ← add_u64 sz 0xFFF;
  let '(id, st) := arc_new st (mkMapping sz (LazyMapping (replicate (Z.to_nat (up / 0x1000)) None))) in
  Done (id, (s, st)).

Fixpoint alloc_filled (s : A * PMem) (n : nat) : outcome (list (option Z) * (A * PMem)) :=
  match n with
  | O => Done ([], s)
  | S n =>
      '(o, s) ← AllocatedPage_new s;
      '(ps, s) ← alloc_filled s n;
      Done (o :: ps, s)
  end.

Definition new_lazy_filled (w : vm_world) (sz : Z) : outcome (nat * vm_world) :=
  let '(s, st) := w in
  up ← add_u64 sz 0xFFF;
  '(pages, s) ← alloc_filled s (Z.to_nat (up / 0x1000));
  let '(id, st) := arc_new st (mkMapping sz (LazyMapping pages)) in
  Done (id, (s, st)).

Definition new_lazy_prealloc (w : vm_world) (pages : list (option Z)) : outcome (nat * vm_world) :=
  let '(s, st) := w in
  sz ← mul_u64 (Z.of_nat (length pages)) 0x1000;
  let '(id, st) := arc_new st (mkMapping sz (LazyMapping pages)) in
  Done (id, (s, st)).

Definition new_mmap (w : vm_world) (base_address sz : Z) : outcome (nat * vm_world) :=
  let '(s, st) := w in
  _ ← assert_ (Z.land base_address 0xFFF =? 0);
  _ ← assert_ (Z.land sz 0xFFF =? 0);
  let '(id, st) := arc_new st (mkMapping sz (MMAP base_address)) in
  Done (id, (s, st)).

(** ** [PageMapperManager] *)
Definition PageMapperManager_new (g : GlobalMaps) (s : A * PMem)
  : outcome (PageMapperManager * (A * PMem)) :=
  '(t, s) ← new_with_global off g s;
  Done (mkPMM t [], s).

(** The overlap test of [insert_mapping_at]. *)
Definition conflicts (base end_ : Z) (r : MapEntry) : bool :=
  (base <? r_end r) && (r_start r <=? end_).

(** The index at which a range starting at [base] goes. *)
Definition insert_index (l : list MapEntry) (base : Z) : outcome nat :=
  r ← binary_search_by (λ r, r_start r ?= base) l;
  match r with Insert i => Done i | Found _ => Panic PUnwrap end.

Definition insert_mapping_at (w : vm_world) (pm : PageMapperManager) (base : Z) (id : nat)
    (flags : MemoryMappingFlags) : outcome (option unit * (PageMapperManager * vm_world)) :=
  _ ← assert_ (Z.land base 0xFFF =? 0);
  mp ← get_mapping (snd w) id;
  end_ ← add_u64 base (size mp);
  if existsb (conflicts base end_) (mappings pm) then
    w ← arc_drop w id;
    Done (None, (pm, w))
  else
    idx ← insert_index (mappings pm) base;
    l ← vec_insert (mappings pm) idx (mkEntry base end_ id flags);
    Done (Some tt, (mkPMM (page_mapper pm) l, w)).

(** One [map(...).unwrap().ignore()] of the eager variants. *)
Fixpoint map_pages (s : A * PMem) (t : Z) (mk : Z → outcome (Page Size4KB)) (l : list (Z * Z))
    (flags : MemoryMappingFlags) : outcome (A * PMem) :=
  match l with
  | [] => Done s
  | (phys, virt) :: l =>
      vp ← Page_containing Size4KB virt;
      pp ← mk phys;
      '(r, s) ← Mapper_map off Size4KB 3 s t vp pp flags;
      match r with
      | Err _ => Panic PUnwrap
      | Ok _ => map_pages s t mk l flags
      end
  end.

(** The pages of a mapping with the addresses they get in [base..end]. *)
Definition present_pages (pages : list (option Z)) (base end_ : Z) : list (Z * Z) :=
  omap (λ '(o, virt), (λ p, (p, virt)) <$> o) (zip pages (step_range base end_)).

Definition mmap_pages (base_address base end_ : Z) : list (Z * Z) :=
  imap (λ i virt, (base_address + Z.of_nat i * 0x1000, virt)) (step_range base end_).

Definition map_mapping (s : A * PMem) (t : Z) (mp : PageMapping) (base end_ : Z)
    (flags : MemoryMappingFlags) : outcome (A * PMem) :=
  match mapping mp with
  | MMAP base_address => map_pages s t (Page_new Size4KB) (mmap_pages base_address base end_) flags
  | LazyMapping pages => map_pages s t (λ p, Done (mkPage p)) (present_pages pages base end_) flags
  end.

Definition insert_mapping_at_set (w : vm_world) (pm : PageMapperManager) (base : Z) (id : nat)
    (flags : MemoryMappingFlags) : outcome (option unit * (PageMapperManager * vm_world)) :=
  _ ← assert_ (Z.land base 0xFFF =? 0);
  mp ← get_mapping (snd w) id;
  end_ ← add_u64 base (size mp);
  if existsb (conflicts base end_) (mappings pm) then
    w ← arc_drop w id;
    Done (None, (pm, w))
  else
    idx ← insert_index (mappings pm) base;
    s ← map_mapping (fst w) (page_mapper pm) mp base end_ flags;
    l ← vec_insert (mappings pm) idx (mkEntry base end_ id flags);
    Done (Some tt, (mkPMM (page_mapper pm) l, (s, snd w))).

(** [windows(2).position(...)]: the first gap with a page of padding. *)
Fixpoint find_gap (l : list MapEntry) (sz : Z) : outcome (option nat) :=
  match l with
  | lft :: ((rgt :: _) as l') =>
      a ← add_u64 (r_end lft) 0x1000;
      b ← add_u64 a sz;
      if b <=? r_start rgt then Done (Some O)
      else o ← find_gap l' sz; Done (option_map S o)
  | _ => Done None
  end.

Definition insert_mapping (w : vm_world) (pm : PageMapperManager) (id : nat)
    (flags : MemoryMappingFlags) : outcome (Z * (PageMapperManager * vm_world)) :=
  mp ← get_mapping (snd w) id;
  o ← find_gap (mappings pm) (size mp);
  idx ← unwrap o;
  lft ← index (mappings pm) idx;
  base ← add_u64 (r_end lft) 0x1000;
  end_ ← add_u64 base (size mp);
  l ← vec_insert (mappings pm) (idx + 1) (mkEntry base end_ id flags);
  Done (base, (mkPMM (page_mapper pm) l, w)).

Definition insert_mapping_set (w : vm_world) (pm : PageMapperManager) (id : nat)
    (flags : MemoryMappingFlags) : outcome (Z * (PageMapperManager * vm_world)) :=
  mp ← get_mapping (snd w) id;
  o ← find_gap (mappings pm) (size mp);
  idx ← unwrap o;
  lft ← index (mappings pm) idx;
  base ← add_u64 (r_end lft) 0x1000;
  end_ ← add_u64 base (size mp);
  s ← map_mapping (fst w) (page_mapper pm) mp base end_ flags;
  l ← vec_insert (mappings pm) (idx + 1) (mkEntry base end_ id flags);
  Done (base, (mkPMM (page_mapper pm) l, (s, snd w))).

(** The comparison of [page_fault_handler]. *)
Definition cmp_contains (address : Z) (r : MapEntry) : comparison :=
  if address <? r_start r then Gt else if r_end r <=? address then Lt else Eq.

(** The physical page behind byte [offset] of a mapping. *)
Definition backing_page (w : vm_world) (id : nat) (offset : Z)
  : outcome (Page Size4KB * vm_world) :=
  let '(s, st) := w in
  mp ← get_mapping st id;
  match mapping mp with
  | MMAP base_address =>
      a ← add_u64 base_address offset;
      p ← Page_containing Size4KB a;
      Done (p, w)
  | LazyMapping pages =>
      let idx := Z.to_nat (offset / 0x1000) in
      page ← index pages idx;
      match page with
      | Some p => Done (mkPage p, w)
      | None =>
          '(o, s) ← AllocatedPage_new s;
          p ← unwrap o;
          Done (mkPage p, (s, arc_set st id (mkMapping (size mp) (LazyMapping (<[idx := Some p]> pages)))))
      end
  end.

Definition page_fault_handler (w : vm_world) (pm : PageMapperManager) (address : Z)
  : outcome (option unit * vm_world) :=
  if EndUserMem <? address then Done (None, w)
  else
    r ← binary_search_by (cmp_contains address) (mappings pm);
    match r with
    | Insert _ => Done (None, w)
    | Found idx =>
        map ← index (mappings pm) idx;
        offset ← sub_u64 address (r_start map);
        '(phys, (s, st)) ← backing_page w (r_arc map) offset;
        virt ← Page_containing Size4KB address;
        '(_, s) ← Mapper_map off Size4KB 3 s (page_mapper pm) virt phys (r_flags map);
        Done (Some tt, (s, st))
    end.

(** The unmapping loop of [free_mapping]. *)
Fixpoint unmap_pages (s : A * PMem) (t : Z) (l : list Z)
  : outcome (result unit UnMapMemoryError * (A * PMem)) :=
  match l with
  | [] => Done (Ok tt, s)
  | a :: l =>
      page ← Page_new Size4KB a;
      '(r, s) ← Mapper_unmap off Size4KB 3 s t page;
      match r with
      | Ok _ => unmap_pages s t l
      | Err (MemNotMapped _) => unmap_pages s t l
      | Err e => Done (Err e, s)
      end
  end.

Definition free_mapping (w : vm_world) (pm : PageMapperManager) (start end_ : Z)
  : outcome (result unit UnMapMemoryError * (PageMapperManager * vm_world)) :=
  r ← binary_search_by (λ el, range_cmp (r_start el) (r_end el) start end_) (mappings pm);
  match r with
  | Insert _ => Done (Err (MemNotMapped start), (pm, w))
  | Found idx =>
      m ← index (mappings pm) idx;
      let pm := mkPMM (page_mapper pm) (delete idx (mappings pm)) in
      '(r, s) ← unmap_pages (fst w) (page_mapper pm) (step_range (r_start m) (r_end m));
      w ← arc_drop (s, snd w) (r_arc m);
      Done (r, (pm, w))
  end.
End PageMapper.

(** ** Bisection *)

(** The comparison results along the list are [Lt]s, then [Eq]s, then [Gt]s. *)
Definition cmp_sorted {X} (f : X → comparison) (l : list X) : Prop :=
  ∀ i j x y, (i < j)%nat → l !! i = Some x → l !! j = Some y →
    (f x = Gt → f y = Gt) ∧ (f y = Lt → f x = Lt).

Definition search_ok {X} (f : X → comparison) (l : list X) (r : search_result) : Prop :=
  match r with
  | Found i => ∃ x, l !! i = Some x ∧ f x = Eq
  | Insert i =>
      (i ≤ length l)%nat ∧ (∀ j x, (j < i)%nat → l !! j = Some x → f x = Lt) ∧
      (∀ j x, (i ≤ j)%nat → l !! j = Some x → f x = Gt)
  end.

Lemma bisect_ok {X} (f : X → comparison) (l : list X) : cmp_sorted f l →
  ∀ fuel left right,
  (left ≤ right ≤ length l)%nat → (right - left ≤ fuel)%nat →
  (∀ j x, (j < left)%nat → l !! j = Some x → f x = Lt) →
  (∀ j x, (right ≤ j)%nat → l !! j = Some x → f x = Gt) →
  ∃ r, bisect f l fuel left (right - left) right = Done r ∧ search_ok f l r.
Proof.
  intros Hs. induction fuel as [|fuel IH]; intros lo hi Hb Hf Hlo Hhi.
  - cbn [bisect]. destruct (Nat.ltb_spec lo hi); [lia|]. eexists; split; [done|].
    split_and!; [lia|done|]. intros j x Hj. apply Hhi. lia.
  - cbn [bisect]. destruct (Nat.ltb_spec lo hi).
    2: { eexists; split; [done|]. split_and!; [lia|done|]. intros j x Hj. apply Hhi. lia. }
    set (mid := (lo + (hi - lo) / 2)%nat).
    assert (Hmid : (lo ≤ mid < hi)%nat)
      by (subst mid; pose proof (Nat.div_lt (hi - lo) 2); lia).
    destruct (lookup_lt_is_Some_2 l mid) as [x Hx]; [lia|].
    rewrite (proj2 (index_Done l mid x) Hx). cbn [mbind outcome_bind].
    destruct (f x) eqn:Ef.
    + eexists; split; [done|]. exists x. done.
    + apply IH; [lia|lia| |done]. intros j y Hj Hy.
      destruct (decide (j = mid)) as [->|]; [naive_solver|].
      eapply (Hs j mid); [lia|done..].
    + apply IH; [lia|lia|done|]. intros j y Hj Hy.
      destruct (decide (j = mid)) as [->|]; [naive_solver|].
      eapply (Hs mid j); [lia|done..].
Qed.

Lemma binary_search_ok {X} (f : X → comparison) (l : list X) :
  cmp_sorted f l → ∃ r, binary_search_by f l = Done r ∧ search_ok f l r.
Proof.
  intros Hs. unfold binary_search_by.
  destruct (bisect_ok f l Hs (length l) 0 (length l)) as (r & Hr & Hok); [lia|lia| | |].
  - intros j x Hj. lia.
  - intros j x Hj Hx%lookup_lt_Some. lia.
  - rewrite Nat.sub_0_r in Hr. eauto.
Qed.

(** [range_cmp] is the lexicographic comparison of the two sequences. *)
Fixpoint lex_cmp (l l' : list Z) : comparison :=
  match l, l' with
  | [], [] => Eq
  | [], _ => Lt
  | _, [] => Gt
  | x :: l, y :: l' => match x ?= y with Eq => lex_cmp l l' | o => o end
  end.

Lemma lex_cmp_seqZ n : ∀ a b d,
  Z.to_nat (b - a) = n → a ≤ b → a ≤ d → lex_cmp (seqZ a (b - a)) (seqZ a (d - a)) = (b ?= d).
Proof.
  induction n as [|n IH]; intros a b d Hn Hab Had.
  - rewrite (seqZ_nil a (b - a)) by lia.
    destruct (decide (d = a)) as [->|].
    + rewrite seqZ_nil by lia. cbn. symmetry. apply Z.compare_eq_iff. lia.
    + rewrite seqZ_cons by lia. cbn. symmetry. apply Z.compare_lt_iff. lia.
  - rewrite (seqZ_cons a (b - a)) by lia.
    destruct (decide (d = a)) as [->|].
    + rewrite (seqZ_nil a (a - a)) by lia. cbn. symmetry. apply Z.compare_gt_iff. lia.
    + rewrite (seqZ_cons a (d - a)) by lia. cbn [lex_cmp]. rewrite Z.compare_refl.
      replace (Z.pred (b - a)) with (b - Z.succ a) by lia.
      replace (Z.pred (d - a)) with (d - Z.succ a) by lia. apply IH; lia.
Qed.

Lemma range_cmp_lex a b c d :
  range_cmp a b c d = lex_cmp (seqZ a (b - a)) (seqZ c (d - c)).
Proof.
  unfold range_cmp. bool_cases.
  - by rewrite !seqZ_nil by lia.
  - by rewrite (seqZ_nil a), (seqZ_cons c) by lia.
  - by rewrite (seqZ_nil c), (seqZ_cons a) by lia.
  - destruct (Z.compare_spec a c) as [->|?|?].
    + symmetry. eapply lex_cmp_seqZ; [done|lia|lia].
    + rewrite (seqZ_cons a), (seqZ_cons c) by lia. cbn.
      by rewrite (proj2 (Z.compare_lt_iff a c)).
    + rewrite (seqZ_cons a), (seqZ_cons c) by lia. cbn.
      by rewrite (proj2 (Z.compare_gt_iff a c)).
Qed.

(** ** The ordered vector of mappings *)
Definition entry_ok (r : MapEntry) : Prop := 0 ≤ r_start r < r_end r.
Definition before (a b : MapEntry) : Prop := r_end a ≤ r_start b.

(** The source's comment: "this should always be ordered". *)
Definition ordered (l : list MapEntry) : Prop := Forall entry_ok l ∧ StronglySorted before l.

Lemma ordered_lookup l i j x y :
  ordered l → (i < j)%nat → l !! i = Some x → l !! j = Some y → r_end x ≤ r_start y.
Proof.
  intros [_ Hs]. revert i j. induction Hs as [|z l Hs IH Hz]; intros i j Hij Hx Hy; [done|].
  destruct i as [|i], j as [|j]; [lia| |lia|]; cbn in *.
  - simplify_eq. eapply (Forall_lookup_1 _ _ _ _ Hz Hy).
  - eapply IH; [|done..]. lia.
Qed.

Lemma ordered_entry l i x : ordered l → l !! i = Some x → 0 ≤ r_start x < r_end x.
Proof. intros [Hf _] Hx. exact (Forall_lookup_1 _ _ _ _ Hf Hx). Qed.

Lemma ordered_insert l i x :
  ordered l → entry_ok x →
  (∀ j y, (j < i)%nat → l !! j = Some y → r_end y ≤ r_start x) →
  (∀ j y, (i ≤ j)%nat → l !! j = Some y → r_end x ≤ r_start y) →
  ordered (take i l ++ x :: drop i l).
Proof.
  intros [Hf Hs] Hx Hlo Hhi. rewrite <- (take_drop i l) in Hf, Hs. split.
  - apply Forall_app in Hf as [? ?]. apply Forall_app. split; [done|]. by apply Forall_cons.
  - apply StronglySorted_app in Hs as (Hcross & Hs1 & Hs2). apply StronglySorted_app. split_and!.
    + intros y z Hy Hz. apply elem_of_cons in Hz as [->|Hz]; [|by apply Hcross].
      apply list_elem_of_lookup in Hy as [j Hj]. apply lookup_take_Some in Hj as [Hj ?].
      eapply Hlo; [|exact Hj]. lia.
    + done.
    + constructor; [done|]. apply Forall_forall. intros z Hz.
      apply list_elem_of_lookup in Hz as [j Hj]. rewrite lookup_drop in Hj.
      eapply Hhi; [|exact Hj]. lia.
Qed.

Lemma ordered_delete l i : ordered l → ordered (delete i l).
Proof.
  intros [Hf Hs]. split; [by apply Forall_delete|].
  revert i. induction Hs as [|z l Hs IH Hz]; intros [|i]; cbn; [constructor..|done|].
  constructor; [apply IH; by inversion Hf|by apply Forall_delete].
Qed.

Lemma vec_insert_ok {X} (l : list X) i x :
  (i ≤ length l)%nat → vec_insert l i x = Done (take i l ++ x :: drop i l).
Proof. intros. unfold vec_insert. by rewrite (proj2 (Nat.leb_le i (length l))). Qed.

Lemma existsb_conflicts l base end_ :
  existsb (conflicts base end_) l = true ↔ ∃ r, r ∈ l ∧ base < r_end r ∧ r_start r ≤ end_.
Proof.
  rewrite existsb_exists. setoid_rewrite list_elem_of_In. unfold conflicts.
  setoid_rewrite andb_true_iff. setoid_rewrite Z.ltb_lt. setoid_rewrite Z.leb_le. done.
Qed.

Lemma starts_cmp_sorted l base : ordered l → cmp_sorted (λ r, r_start r ?= base) l.
Proof.
  intros Ho i j x y Hij Hx Hy. pose proof (ordered_lookup l i j x y Ho Hij Hx Hy).
  pose proof (ordered_entry l i x Ho Hx). pose proof (ordered_entry l j y Ho Hy).
  rewrite !Z.compare_gt_iff, !Z.compare_lt_iff. lia.
Qed.

(** Where no range conflicts, bisection finds the place for the new one. *)
Lemma insert_index_ok l base end_ id flags :
  ordered l → 0 ≤ base < end_ → existsb (conflicts base end_) l = false →
  ∃ i, insert_index l base = Done i ∧ (i ≤ length l)%nat ∧
       ordered (take i l ++ mkEntry base end_ id flags :: drop i l).
Proof.
  intros Ho Hb Hno.
  assert (Hnc : ∀ j r, l !! j = Some r → ¬ (base < r_end r ∧ r_start r ≤ end_)).
  { intros j r Hr Hc. assert (existsb (conflicts base end_) l = true); [|congruence].
    apply existsb_conflicts. exists r. split; [by eapply list_elem_of_lookup_2|done]. }
  unfold insert_index.
  destruct (binary_search_ok _ l (starts_cmp_sorted l base Ho)) as (r & -> & Hr). cbn [mbind outcome_bind].
  destruct r as [i|i].
  - destruct Hr as (x & Hx & Heq%Z.compare_eq_iff). exfalso. apply (Hnc i x Hx).
    pose proof (ordered_entry l i x Ho Hx). lia.
  - destruct Hr as (Hi & Hlo & Hhi). exists i. split_and!; [done|done|].
    apply ordered_insert; [done|unfold entry_ok; cbn; lia| |]; intros j y Hj Hy; cbn [r_start r_end];
      pose proof (Hnc j y Hy); pose proof (ordered_entry l j y Ho Hy).
    + pose proof (Hlo j y Hj Hy) as Hlt. rewrite Z.compare_lt_iff in Hlt. lia.
    + pose proof (Hhi j y Hj Hy) as Hgt. rewrite Z.compare_gt_iff in Hgt. lia.
Qed.

Lemma page_aligned_test a : a mod 0x1000 = 0 → assert_ (Z.land a 0xFFF =? 0) = Done tt.
Proof.
  intros Ha. change 0xFFF with (PAGE_SIZE Size4KB - 1). rewrite land_page_mask.
  by change (PAGE_SIZE Size4KB) with 0x1000; rewrite Ha.
Qed.

Lemma get_mapping_ok st id c : arcs st !! id = Some c → get_mapping st id = Done (value c).
Proof. intros Hc. unfold get_mapping. by rewrite Hc. Qed.

(** The gaps of the vector. *)
Definition gap (l : list MapEntry) (sz : Z) (i : nat) : Prop :=
  ∃ x y, l !! i = Some x ∧ l !! S i = Some y ∧ r_end x + 0x1000 + sz ≤ r_start y.

Lemma gap_S x l sz i : gap (x :: l) sz (S i) ↔ gap l sz i.
Proof. done. Qed.

Lemma find_gap_ok l sz :
  Forall (λ r, 0 ≤ r_end r ∧ r_end r + 0x1000 + sz < u64_lim) l → 0 ≤ sz →
  ∃ o, find_gap l sz = Done o ∧
    match o with
    | Some i => gap l sz i ∧ ∀ j, (j < i)%nat → ¬ gap l sz j
    | None => ∀ j, ¬ gap l sz j
    end.
Proof.
  intros Hb Hsz. induction Hb as [|x l Hx Hb IH].
  { exists None. split; [done|]. by intros j (? & ? & ? & ?). }
  destruct l as [|y l].
  { exists None. split; [done|]. by intros [|j] (? & ? & ? & ? & ?). }
  cbn [find_gap].
  unfold add_u64. rewrite (chk_ok _ (r_end x + 0x1000)) by lia. cbn [mbind outcome_bind].
  rewrite (chk_ok _ (r_end x + 0x1000 + sz)) by lia. cbn [mbind outcome_bind].
  destruct (Z.leb_spec (r_end x + 0x1000 + sz) (r_start y)).
  - exists (Some O). split; [done|]. split; [by exists x, y|lia].
  - assert (H0 : ¬ gap (x :: y :: l) sz 0) by (intros (? & ? & ? & ? & ?); cbn in *; simplify_eq; lia).
    change (match l with [] => Done None | rgt :: _ => _ end) with (find_gap (y :: l) sz).
    destruct IH as (o & -> & Ho). cbn [mbind outcome_bind]. exists (option_map S o). split; [done|].
    destruct o as [i|]; cbn.
    + destruct Ho as [Hg Hn]. split; [done|]. intros [|j] Hj; [done|]. rewrite gap_S. apply Hn. lia.
    + intros [|j]; [done|]. rewrite gap_S. apply Ho.
Qed.

(** ** Address spaces of 4 KiB pages

    User address spaces map small pages only: the walk ends at level 1. *)
Definition small_at (m : PMem) (t v : Z) : Prop :=
  ∀ d e, translate 3 m t v = Some (d, e) → d = O ∧ larger_pages e = false.

Lemma translate_small n : ∀ m t v,
  (∀ d e, translate (n + 0) m t v = Some (d, e) → d = O) →
  clear_path n 0 m t v ∧
  (∀ e, leaf_entry n 0 m t v = Some e → present e = true →
     ∃ e', translate (n + 0) m t v = Some (O, e') ∧ larger_pages e' = larger_pages e).
Proof.
  induction n as [|n IH]; intros m t v Hsm.
  - split; [done|]. cbn. intros e [= <-] ->. by eexists.
  - cbn [Nat.add translate clear_path leaf_entry] in *.
    set (e := table m t _) in *. destruct (present e) eqn:Ep; [|done].
    destruct (larger_pages e) eqn:El; [by pose proof (Hsm _ _ eq_refl)|].
    destruct (IH m (pde_get_address e) v) as [Hc Hl].
    { intros d x Hx. apply (Hsm d (narrow e x)). by rewrite Hx. }
    split; [done|]. intros x Hx Hp. destruct (Hl x Hx Hp) as (e' & -> & ?). by eexists.
Qed.

Lemma small_at_path m t v :
  small_at m t v →
  clear_path 3 0 m t v ∧ leaf_size_ok Size4KB 3 m t v ∧
  (translate 3 m t v = None → slot_absent 3 0 m t v).
Proof.
  intros Hs. destruct (translate_small 3 m t v) as [Hc Hl]; [intros d e He; by apply (Hs d e)|].
  split_and!; [done| |].
  - intros e He Hp. destruct (Hl e He Hp) as (e' & He' & <-). by apply (Hs O e').
  - intros Hn e He. destruct (present e) eqn:Ep; [|done]. destruct (Hl e He Ep) as (? & ? & _). cbn in *. congruence.
Qed.

(** The walk sees only the page of an address. *)
Lemma calculate_index_page L v v' :
  (1 ≤ L)%nat → v / 0x1000 = v' / 0x1000 → calculate_index L v = calculate_index L v'.
Proof.
  intros HL E. rewrite !calculate_index_mod. do 2 f_equal.
  replace (Z.of_nat L * 9 + 3) with (12 + (Z.of_nat L - 1) * 9) by lia.
  rewrite Z.pow_add_r by lia. change (2 ^ 12) with 0x1000.
  rewrite <- !Z.div_div by lia. by rewrite E.
Qed.

Lemma translate_page d : ∀ m t v v',
  v / 0x1000 = v' / 0x1000 → translate d m t v = translate d m t v'.
Proof.
  induction d as [|d IH]; intros m t v v' E; cbn [translate];
    rewrite (calculate_index_page _ v v') by (done || lia); [done|].
  destruct (present _); [|done]. destruct (larger_pages _); [done|]. f_equal. by apply IH.
Qed.

Lemma along_page Q d : ∀ m t v v', v / 0x1000 = v' / 0x1000 → along Q d m t v → along Q d m t v'.
Proof.
  induction d as [|d IH]; intros m t v v' E; cbn [along]; [done|].
  rewrite (calculate_index_page _ v v') by (done || lia). intros Ha Hp Hl. destruct (Ha Hp Hl) as [? ?]. split; [done|]. by eapply IH.
Qed.

Lemma along_mono (Q Q' : (nat → PageDirectoryEntry) → PageDirectoryEntry → Prop) d : ∀ m t v,
  (∀ tbl e, Q tbl e → Q' tbl e) → along Q d m t v → along Q' d m t v.
Proof.
  induction d as [|d IH]; intros m t v HQ Ha; cbn [along] in *; [done|]. intros Hp Hl. destruct (Ha Hp Hl). split; [by apply HQ|by apply IH].
Qed.

(** The tables on the way to a user page leave every permission to the page's own entry, as
    those that [map] makes do. *)
Definition open_at (m : PMem) (t v : Z) : Prop := opens flags_all 3 m t v.

Lemma open_at_opens fl m t v : open_at m t v → opens fl 3 m t v.
Proof. apply along_mono. intros tbl e [Hw Hu]. split; intros _; [by apply Hw|by apply Hu]. Qed.

(** What an operation does to the ways to the pages. *)
Definition keeps_open (m m' : PMem) (t : Z) : Prop := ∀ fl v, opens fl 3 m t v → opens fl 3 m' t v.
Definition keeps_in_use (m m' : PMem) (t : Z) : Prop := ∀ v, no_empty 3 m t v → no_empty 3 m' t v.

Lemma page_base v : (v - v mod 0x1000) / 0x1000 = v / 0x1000.
Proof.
  pose proof (Z.div_mod v 0x1000). replace (v - v mod 0x1000) with (v / 0x1000 * 0x1000) by lia.
  by rewrite Z.div_mul.
Qed.

Definition user_addr (v : Z) : Prop := 0x1000 ≤ v < 2 ^ 47.

Lemma user_virt_ok v : user_addr v → virt_ok v.
Proof. unfold user_addr, virt_ok, canonical, u64_lim. lia. Qed.

Lemma user_containing v :
  user_addr v → Page_containing Size4KB v = Done (mkPage (v - v mod 0x1000)).
Proof. intros Hv. by apply Page_containing_ok. Qed.

Lemma user_base v : user_addr v → user_addr (v - v mod 0x1000).
Proof.
  unfold user_addr. intros. pose proof (Z.mod_pos_bound v 0x1000).
  pose proof (Z.div_mod v 0x1000). pose proof (Z.div_le_lower_bound v 0x1000 1). lia.
Qed.

(** No frame is lost or given out twice between the allocator and a tree. *)
Section vm.
Context {A : Type} {HA : PageAllocator A} {HS : @PageAllocatorSpec A HA}.
Context (off : Z) (Hoff : offset_ok off).

Definition space_ok (s : A * PMem) (F : list Z) (t : Z) : Prop :=
  pa_owns s F ∧ frames_wf F (tables 3 (snd s) t).

Lemma conserves_space s F t F' s' : space_ok s F t → conserves 3 t F s F' s' → space_ok s' F' t.
Proof. intros [Ho Hwf] Hc. split; [apply Hc|by eapply conserves_wf]. Qed.

(** Every other canonical page translates as before. *)
Definition others_same (m m' : PMem) (t v : Z) : Prop :=
  ∀ v', virt_ok v' → v' / 0x1000 ≠ v / 0x1000 → translate 3 m' t v' = translate 3 m t v'.

(** [map] of a small page, as a change of the translation. *)
Lemma map4k_ok s F t v p flags :
  space_ok s F t → user_addr v → phys_page_ok Size4KB p →
  small_at (snd s) t v → open_at (snd s) t v → translate 3 (snd s) t v = None → (3 ≤ length F)%nat →
  ∃ s' F' e, Mapper_map off Size4KB 3 s t (mkPage v) (mkPage p) flags = Done (Ok (mkFlusher v), s') ∧
    conserves 3 t F s F' s' ∧ (length F ≤ length F' + 3)%nat ∧
    translate 3 (snd s') t v = Some (O, e) ∧ mapped_to Size4KB flags p e ∧
    others_same (snd s) (snd s') t v ∧ keeps_open (snd s) (snd s') t.
Proof using Hoff.
  intros [Ho Hwf] Hv Hp Hsm Hop Hn HF. destruct (small_at_path _ _ _ Hsm) as (Hc & _ & Hs).
  destruct (Mapper_map_ok off Hoff Size4KB 3 s F t v p flags) as (s' & F' & e & E & Hco & Hl & Ht & Hm & Hoth & Hko);
    [done..|by apply Hs|done|by apply open_at_opens|].
  exists s', F', e. split_and!; try done.
  intros v' Hv' Hne. apply Hoth. contradict Hne. symmetry.
  apply (same_path_page Size4KB); [by apply user_virt_ok|done|done].
Qed.

Lemma map4k_mapped s F t v p flags e :
  space_ok s F t → translate 3 (snd s) t v = Some (O, e) →
  Mapper_map off Size4KB 3 s t (mkPage v) (mkPage p) flags =
    Done (Err (MemAlreadyMapped v p (pde_get_address e)), s).
Proof using Hoff.
  intros [Ho Hwf] Ht. destruct (translate_leaf 3 0 _ _ _ _ Ht) as (Hc & e0 & Hl & Hp & _ & Ha).
  rewrite <- Ha. apply Mapper_map_mapped; try done. by eapply frames_wf_tables.
Qed.

Lemma unmap4k_ok s F t v :
  space_ok s F t → user_addr v → small_at (snd s) t v →
  ∃ s' F' r, Mapper_unmap off Size4KB 3 s t (mkPage v) = Done (r, s') ∧
    (r = Ok (mkFlusher v) ∨ r = Err (MemNotMapped v)) ∧
    conserves 3 t F s F' s' ∧ translate 3 (snd s') t v = None ∧ others_same (snd s) (snd s') t v ∧
    no_empty 3 (snd s') t v ∧ keeps_in_use (snd s) (snd s') t ∧ keeps_open (snd s) (snd s') t.
Proof using Hoff.
  intros [Ho Hwf] Hv Hsm. destruct (small_at_path _ _ _ Hsm) as (Hc & Hsz & _).
  destruct (Mapper_unmap_ok off Hoff Size4KB 3 s F t v) as (s' & F' & E & Hco & _ & Ht & Hoth & Hne & Hki & Hko); [done..|].
  exists s', F', (unmap_result v (leaf_entry 3 0 (snd s) t v)). split_and!; try done.
  - unfold unmap_result. destruct (leaf_entry _ _ _ _ _) as [e|]; [|by right].
    destruct (present e); [by left|by right].
  - intros v' Hv' Hd. apply Hoth. contradict Hd. symmetry.
    apply (same_path_page Size4KB); [by apply user_virt_ok|done|done].
Qed.

(** *** Backing pages *)
Definition mapping_ok (mp : PageMapping) : Prop :=
  0 < size mp < 2 ^ 47 ∧
  match mapping mp with
  | MMAP b => 0x1000 ≤ b ∧ b mod 0x1000 = 0 ∧ b + size mp ≤ 2 ^ 47
  | LazyMapping pages =>
      Z.of_nat (length pages) = (size mp + 0xFFF) / 0x1000 ∧
      (∀ i p, pages !! i = Some (Some p) → frame_ok p)
  end.

(** Byte [o] of the mapping is in physical page [p]. *)
Definition resolves (st : ArcStore) (id : nat) (o p : Z) : Prop :=
  ∃ c, arcs st !! id = Some c ∧
    match mapping (value c) with
    | MMAP b => p = b + o - (b + o) mod 0x1000
    | LazyMapping pages => pages !! Z.to_nat (o / 0x1000) = Some (Some p)
    end.

(** A page that is backed stays where it is. *)
Definition store_le (st st' : ArcStore) : Prop := ∀ id o p, resolves st id o p → resolves st' id o p.

Lemma store_le_refl st : store_le st st.
Proof. by intros id o p. Qed.

Lemma frame_phys_ok p : frame_ok p → phys_page_ok Size4KB p.
Proof. intros (? & ? & ?). unfold phys_page_ok, PHYS_TOP in *. cbn. lia || (split; [lia|done]). Qed.

Lemma AllocatedPage_new_ok s F t :
  space_ok s F t → F ≠ [] →
  ∃ p s' F', AllocatedPage_new s = Done (Some p, s') ∧ F ≡ₚ p :: F' ∧ frame_ok p ∧
    space_ok s' F' t ∧ tables 3 (snd s') t = tables 3 (snd s) t ∧
    (∀ v, translate 3 (snd s') t v = translate 3 (snd s) t v) ∧ keeps_open (snd s) (snd s') t.
Proof.
  intros [Ho Hwf] Hne. unfold AllocatedPage_new.
  destruct (pa_allocate_page_spec s F Ho) as [(p & s' & F' & -> & HF & Ho' & _ & Hout)|[_ ?]]; [|done].
  exists p, s', F'. cbn [mbind outcome_bind option_map get_address].
  assert (Hext : ∀ f, f ∈ tables 3 (snd s) t → table (snd s') f = table (snd s) f).
  { intros f Hf. destruct (frames_wf_table F _ f Hwf) as (_ & Hm & _); [apply elem_of_app; by right|].
    apply Hout; [done|]. intros ->. destruct Hwf as [Hnd _]. rewrite HF in Hnd.
    apply NoDup_cons in Hnd as [Hn _]. apply Hn, elem_of_app. by right. }
  split_and!; [done|done| | |by apply tables_ext|intros v; by apply translate_ext|intros fl v; by apply along_ext].
  - apply (frames_wf_table F _ p Hwf), elem_of_app. left. rewrite HF. left.
  - split; [done|]. rewrite (tables_ext 3 _ _ _ Hext). destruct Hwf as [Hnd Hok]. rewrite HF in Hnd, Hok.
    apply NoDup_cons in Hnd as [_ ?]. apply Forall_cons in Hok as [_ ?]. done.
Qed.

Lemma lazy_index_lt sz o n :
  0 ≤ o < sz → Z.of_nat n = (sz + 0xFFF) / 0x1000 → (Z.to_nat (o / 0x1000) < n)%nat.
Proof.
  intros Ho Hn. assert (o / 0x1000 < (sz + 0xFFF) / 0x1000).
  { apply Z.lt_le_trans with (o / 0x1000 + 1); [lia|]. rewrite <- Z.div_add by lia.
    apply Z.div_le_mono; lia. }
  pose proof (Z.div_pos o 0x1000). lia.
Qed.

Lemma arc_set_lookup st id c mp :
  arcs st !! id = Some c → arcs (arc_set st id mp) !! id = Some (mkArc (strong c) mp).
Proof. intros Hc. cbn. by rewrite lookup_alter, decide_True, Hc. Qed.

Lemma arc_set_lookup_ne st id id' mp :
  id ≠ id' → arcs (arc_set st id mp) !! id' = arcs st !! id'.
Proof. intros Hc. cbn. by rewrite lookup_alter_ne. Qed.

Lemma fill_store_le st id c sz pages i p :
  arcs st !! id = Some c → mapping (value c) = LazyMapping pages → pages !! i = Some None →
  store_le st (arc_set st id (mkMapping sz (LazyMapping (<[i := Some p]> pages)))).
Proof.
  intros Hc Hm Hi id' o q (c' & Hc' & Hq). destruct (decide (id = id')) as [<-|Hne].
  - simplify_eq. rewrite Hm in Hq. eexists. rewrite (arc_set_lookup _ _ _ _ Hc). split; [done|].
    cbn. rewrite list_lookup_insert_ne; [done|]. intros E. rewrite <- E in Hq. congruence.
  - exists c'. by rewrite arc_set_lookup_ne.
Qed.

Lemma backing_page_ok s st F t id o c :
  space_ok s F t → F ≠ [] → arcs st !! id = Some c → mapping_ok (value c) → 0 ≤ o < size (value c) →
  ∃ p s' st' F', backing_page (s, st) id o = Done (mkPage p, (s', st')) ∧
    phys_page_ok Size4KB p ∧ resolves st' id o p ∧ store_le st st' ∧
    (resolves st id o p ∧ F' = F ∨ F ≡ₚ p :: F') ∧ space_ok s' F' t ∧
    (∀ v, translate 3 (snd s') t v = translate 3 (snd s) t v) ∧ keeps_open (snd s) (snd s') t.
Proof.
  intros Hsp Hne Hc [Hsz Hmp] Ho. unfold backing_page. rewrite (get_mapping_ok _ _ _ Hc).
  cbn [mbind outcome_bind]. destruct (mapping (value c)) as [b|pages] eqn:Em.
  - destruct Hmp as (Hb & Hbm & Ht). unfold add_u64. rewrite chk_ok by (unfold u64_lim; lia).
    cbn [mbind outcome_bind]. rewrite Page_containing_ok by (cbn; lia). cbn [mbind outcome_bind PAGE_SIZE].
    assert (Hr : resolves st id o (b + o - (b + o) mod 0x1000)) by (exists c; by rewrite Em).
    eexists _, s, st, F. splits; [done| |done|apply store_le_refl|by left|done|done|by intros fl v].
    pose proof (user_base (b + o)). unfold user_addr in *. split; [lia|].
    cbn. rewrite Zminus_mod, Zmod_mod, Z.sub_diag. done.
  - destruct Hmp as [Hlen Hfr].
    pose proof (lazy_index_lt _ _ _ Ho Hlen) as [page Hpage]%lookup_lt_is_Some_2.
    rewrite (proj2 (index_Done _ _ _) Hpage). cbn [mbind outcome_bind].
    destruct page as [p|].
    + assert (Hr : resolves st id o p) by (exists c; by rewrite Em).
      eexists _, s, st, F. splits; [done| |done|apply store_le_refl|by left|done|done|by intros fl v].
      apply frame_phys_ok. by eapply Hfr.
    + destruct (AllocatedPage_new_ok s F t Hsp Hne) as (p & s' & F' & -> & HF & Hp & Hsp' & _ & Htr & Hko).
      cbn [mbind outcome_bind unwrap]. eexists _, s', _, F'. splits; [done| | | |by right|done|done|done].
      * by apply frame_phys_ok.
      * eexists. rewrite (arc_set_lookup _ _ _ _ Hc). split; [done|]. cbn.
        apply list_lookup_insert_eq. by eapply lookup_lt_Some.
      * by eapply fill_store_le.
Qed.

(** *** Loops over pages *)
Lemma others_same_trans m1 m2 m3 t v v' :
  others_same m1 m2 t v → others_same m2 m3 t v' →
  ∀ x, virt_ok x → x / 0x1000 ≠ v / 0x1000 → x / 0x1000 ≠ v' / 0x1000 →
  translate 3 m3 t x = translate 3 m1 t x.
Proof. intros H1 H2 x Hx Hn Hn'. rewrite H2, H1; done. Qed.

(** Pages of a list are pairwise different. *)
Definition distinct_pages (l : list Z) : Prop := NoDup ((λ v, v / 0x1000) <$> l).

Lemma small_at_same m m' t v : translate 3 m' t v = translate 3 m t v → small_at m t v → small_at m' t v.
Proof. intros E Hs d e. rewrite E. apply Hs. Qed.

Lemma map_pages_ok mk (l : list (Z * Z)) : ∀ s F t flags,
  space_ok s F t → distinct_pages (snd <$> l) → (3 * length l ≤ length F)%nat →
  (∀ p v, (p, v) ∈ l → mk p = Done (mkPage p) ∧ phys_page_ok Size4KB p ∧ user_addr v ∧
     v mod 0x1000 = 0 ∧ translate 3 (snd s) t v = None ∧ open_at (snd s) t v) →
  ∃ s' F', map_pages off s t mk l flags = Done s' ∧ space_ok s' F' t ∧
    (∀ p v, (p, v) ∈ l → ∃ e, translate 3 (snd s') t v = Some (O, e) ∧ mapped_to Size4KB flags p e) ∧
    (∀ x, virt_ok x → x / 0x1000 ∉ ((λ v, v / 0x1000) <$> (snd <$> l)) →
       translate 3 (snd s') t x = translate 3 (snd s) t x) ∧ keeps_open (snd s) (snd s') t.
Proof using Hoff.
  induction l as [|[p v] l IH]; intros s F t flags Hsp Hd HF Hl.
  { exists s, F. splits; [done|done| |done|by intros fl v]. by intros p v ?%elem_of_nil. }
  cbn [map_pages]. destruct (Hl p v) as (Hmk & Hp & Hv & Hvm & Hn & Hop); [left|].
  rewrite user_containing by done. cbn [mbind outcome_bind]. rewrite Hmk, Hvm, Z.sub_0_r.
  cbn [mbind outcome_bind].
  destruct (map4k_ok s F t v p flags Hsp Hv Hp) as (s1 & F1 & e & -> & Hc & HF1 & Ht & Hm & Hoth & Hko);
    [intros d e; by rewrite Hn|done|done|cbn in HF; lia|]. cbn [mbind outcome_bind].
  unfold distinct_pages in Hd. cbn in Hd. apply NoDup_cons in Hd as [Hv' Hd].
  destruct (IH s1 F1 t flags) as (s2 & F2 & -> & Hsp2 & Hin & Hout & Hko2).
  - by eapply conserves_space.
  - done.
  - cbn in HF. lia.
  - intros p' v' Hin'. destruct (Hl p' v') as (? & ? & Hu & ? & Hn' & ?); [by right|]. splits; try done; [|by apply Hko].
    rewrite Hoth; [done|by apply user_virt_ok|]. intros E. apply Hv'. rewrite <- E.
    apply list_elem_of_fmap. exists v'. split; [done|]. apply list_elem_of_fmap. by exists (p', v').
  - exists s2, F2. splits; [done|done| | |intros fl x Hx; by apply Hko2, Hko].
    + intros p' v' [[= -> ->]|Hin']%elem_of_cons; [|by apply Hin].
      exists e. split; [|done]. rewrite Hout; [done|by apply user_virt_ok|done].
    + intros x Hx Hnx. cbn in Hnx. apply not_elem_of_cons in Hnx as [Hnx1 Hnx2].
      rewrite Hout by done. by apply Hoth.
Qed.

Lemma unmap_pages_ok l : ∀ s F t,
  space_ok s F t →
  (∀ v, v ∈ l → user_addr v ∧ v mod 0x1000 = 0) → (∀ v, user_addr v → small_at (snd s) t v) →
  ∃ s' F', unmap_pages off s t l = Done (Ok tt, s') ∧ conserves 3 t F s F' s' ∧
    (∀ v, v ∈ l → translate 3 (snd s') t v = None) ∧
    (∀ x, virt_ok x → x / 0x1000 ∉ ((λ v, v / 0x1000) <$> l) →
       translate 3 (snd s') t x = translate 3 (snd s) t x) ∧
    (∀ v, v ∈ l → no_empty 3 (snd s') t v) ∧ keeps_in_use (snd s) (snd s') t ∧ keeps_open (snd s) (snd s') t.
Proof using Hoff.
  induction l as [|v l IH]; intros s F t Hsp Hl Hsm.
  { exists s, F. splits; [done| | |done| |by intros v|by intros fl v]; [|by intros v ?%elem_of_nil..]. split_and!; [apply Hsp|done|done]. }
  cbn [unmap_pages]. destruct (Hl v) as [Hv Hvm]; [left|].
  rewrite Page_new_ok by (unfold user_addr in Hv; cbn; lia || done). cbn [mbind outcome_bind].
  destruct (unmap4k_ok s F t v Hsp Hv (Hsm v Hv)) as (s1 & F1 & r & -> & Hr & Hc & Ht & Hoth & Hne & Hki & Hko).
  cbn [mbind outcome_bind].
  destruct (IH s1 F1 t) as (s2 & F2 & E2 & Hc2 & Hin & Hout & Hne2 & Hki2 & Hko2).
  - by eapply conserves_space.
  - intros. apply Hl. by right.
  - intros x Hx. destruct (decide (x / 0x1000 = v / 0x1000)) as [E|E].
    + intros d e. rewrite (translate_page 3 _ _ x v E), Ht. done.
    + eapply small_at_same; [|by apply Hsm]. apply Hoth; [by apply user_virt_ok|done].
  - exists s2, F2. splits.
    + by destruct Hr as [-> | ->].
    + by eapply conserves_trans.
    + intros x [->|Hx]%elem_of_cons; [|by apply Hin].
      destruct (decide (v / 0x1000 ∈ (λ v, v / 0x1000) <$> l)) as [Hi|Hi].
      * apply list_elem_of_fmap in Hi as (y & E & Hy). rewrite (translate_page 3 _ _ v y E). by apply Hin.
      * rewrite Hout; [done|by apply user_virt_ok|done].
    + intros x Hx Hnx. cbn in Hnx. apply not_elem_of_cons in Hnx as [Hnx1 Hnx2].
      rewrite Hout by done. by apply Hoth.
    + intros x [->|Hx]%elem_of_cons; [by apply Hki2|by apply Hne2].
    + intros x Hx. by apply Hki2, Hki.
    + intros fl x Hx. by apply Hko2, Hko.
Qed.

(** *** Dropping a mapping *)
Definition lazy_frames (mp : PageMapping) : list Z :=
  match mapping mp with MMAP _ => [] | LazyMapping pages => omap id pages end.

Lemma drop_pages_ok pages : ∀ s F,
  pa_owns s F → frames_wf F (omap id pages) →
  ∃ s' F', drop_pages s pages = Done s' ∧ pa_owns s' F' ∧ F' ≡ₚ omap id pages ++ F ∧
    table (snd s') = table (snd s).
Proof.
  induction pages as [|[p|] pages IH]; intros s F Ho Hwf.
  - exists s, F. done.
  - cbn [drop_pages]. cbn in Hwf.
    change (omap id (Some p :: pages)) with (p :: omap id pages) in *.
    assert (Hp : frame_ok p) by (apply (frames_wf_table _ _ _ Hwf); set_solver).
    assert (Hn : p ∉ F) by (destruct Hwf as [Hnd _]; apply NoDup_app in Hnd; set_solver).
    destruct (pa_free_page_spec s F p Ho Hp Hn) as (s1 & -> & Ho1 & Ht1). cbn [mbind outcome_bind].
    destruct (IH s1 (p :: F) Ho1) as (s2 & F2 & -> & Ho2 & HF2 & Ht2).
    { eapply frames_wf_perm; [|exact Hwf]. solve_Permutation. }
    exists s2, F2. splits; [done|done| |congruence]. rewrite HF2. solve_Permutation.
  - cbn [drop_pages]. apply IH; done.
Qed.

(** The store with one reference less. *)
Definition arc_release (st : ArcStore) (id : nat) (c : ArcInner) : ArcStore :=
  mkStore (if (strong c <=? 1)%nat then delete id (arcs st) else <[id := mkArc (pred (strong c)) (value c)]> (arcs st)) (next_arc st).

Lemma arc_drop_ok s st id c F :
  arcs st !! id = Some c → pa_owns s F → frames_wf F (lazy_frames (value c)) →
  ∃ s' F', arc_drop (s, st) id = Done (s', arc_release st id c) ∧ pa_owns s' F' ∧ table (snd s') = table (snd s) ∧
    F' ≡ₚ (if (strong c <=? 1)%nat then lazy_frames (value c) else []) ++ F.
Proof.
  intros Hc Ho Hwf. unfold arc_drop, arc_release. rewrite Hc. unfold lazy_frames in *.
  destruct (strong c <=? 1)%nat; [|by exists s, F].
  destruct (mapping (value c)) as [b|pages]; [by exists s, F|].
  destruct (drop_pages_ok pages s F Ho Hwf) as (s' & F' & -> & Ho' & HF' & Ht').
  by exists s', F'.
Qed.

Lemma contains_cmp_sorted l address : ordered l → cmp_sorted (cmp_contains address) l.
Proof.
  intros Ho i j x y Hij Hx Hy. pose proof (ordered_lookup l i j x y Ho Hij Hx Hy).
  pose proof (ordered_entry l i x Ho Hx). pose proof (ordered_entry l j y Ho Hy).
  unfold cmp_contains. bool_cases; naive_solver lia.
Qed.

Lemma cmp_contains_Eq address r : cmp_contains address r = Eq ↔ r_start r ≤ address < r_end r.
Proof. unfold cmp_contains. bool_cases; naive_solver lia. Qed.

(** The mappings of an address space name live, well-formed mappings. *)
Definition arcs_ok (st : ArcStore) (l : list MapEntry) : Prop :=
  ∀ r, r ∈ l → ∃ c, arcs st !! r_arc r = Some c ∧ mapping_ok (value c) ∧
    r_end r = r_start r + size (value c).

(** Making the mapping a fault asked for: an already present page is kept. *)
Lemma fault_map_ok s F t address p flags :
  space_ok s F t → user_addr address → phys_page_ok Size4KB p → small_at (snd s) t address →
  open_at (snd s) t address → (3 ≤ length F)%nat →
  ∃ r s' F', Mapper_map off Size4KB 3 s t (mkPage (address - address mod 0x1000)) (mkPage p) flags = Done (r, s') ∧
    space_ok s' F' t ∧ others_same (snd s) (snd s') t address ∧
    match translate 3 (snd s) t address with
    | Some x => translate 3 (snd s') t address = Some x
    | None => ∃ e, translate 3 (snd s') t address = Some (O, e) ∧ mapped_to Size4KB flags p e
    end ∧ keeps_open (snd s) (snd s') t.
Proof using Hoff.
  intros Hsp Ha Hp Hsm Hop HF. set (v := address - address mod 0x1000).
  assert (Hpg : v / 0x1000 = address / 0x1000) by apply page_base.
  assert (Htr : ∀ m, translate 3 m t address = translate 3 m t v) by (intros; by apply translate_page).
  destruct (translate 3 (snd s) t address) as [[d e]|] eqn:Et.
  - destruct (Hsm d e Et) as [-> _]. exists (Err (MemAlreadyMapped v p (pde_get_address e))), s, F.
    splits; [|done|done|by rewrite Et|by intros fl x]. apply (map4k_mapped s F); [done|by rewrite <- Htr].
  - rewrite Htr in Et.
    destruct (map4k_ok s F t v p flags Hsp) as (s' & F' & e & -> & Hc & _ & Ht & Hm & Hoth & Hko);
      [by apply user_base|done|intros d e; by rewrite Et|by apply (along_page _ _ _ _ address)|done|done|].
    eexists _, s', F'. splits; [done|by eapply conserves_space| |by exists e; rewrite Htr|done].
    intros x Hx Hne. apply Hoth; [done|by rewrite Hpg].
Qed.

(** A page fault at a user address inside a mapping makes the address
    translate to the page that backs it, with the mapping's permissions on every level of the
    walk (the tables that are on the way already leave them to the page, as every table made
    by [map] does): the
    page of an [MMAP] at the same offset, the page a lazy mapping already holds,
    or a free frame that the lazy mapping keeps from then on.  Pages that are
    already backed do not move, no other translation changes, and a page that is
    already mapped stays.  Outside every mapping the handler reports failure and
    changes nothing. *)
Theorem page_fault_handler_spec s st F pm address :
  space_ok s F (page_mapper pm) → ordered (mappings pm) → arcs_ok st (mappings pm) →
  user_addr address → small_at (snd s) (page_mapper pm) address → open_at (snd s) (page_mapper pm) address → (4 ≤ length F)%nat →
  let t := page_mapper pm in
  (∃ r p s' st' F', r ∈ mappings pm ∧ r_start r ≤ address < r_end r ∧
     page_fault_handler off (s, st) pm address = Done (Some tt, (s', st')) ∧
     resolves st' (r_arc r) (address - r_start r) p ∧ store_le st st' ∧
     (resolves st (r_arc r) (address - r_start r) p ∨ p ∈ F) ∧
     space_ok s' F' t ∧ others_same (snd s) (snd s') t address ∧
     match translate 3 (snd s) t address with
     | Some x => translate 3 (snd s') t address = Some x
     | None => ∃ e, translate 3 (snd s') t address = Some (O, e) ∧ mapped_to Size4KB (r_flags r) p e
     end ∧ keeps_open (snd s) (snd s') t) ∨
  ((∀ r, r ∈ mappings pm → ¬ r_start r ≤ address < r_end r) ∧
   page_fault_handler off (s, st) pm address = Done (None, (s, st))).
Proof using Hoff.
  intros Hsp Hord Harcs Ha Hsm Hop HF t. unfold page_fault_handler. fold t in Hsp, Hsm, Hop |- *.
  assert (Hend : (EndUserMem <? address) = false) by (apply Z.ltb_ge; unfold user_addr, EndUserMem in *; lia).
  rewrite Hend.
  destruct (binary_search_ok _ _ (contains_cmp_sorted _ address Hord)) as ([i|i] & -> & Hr);
    cbn [mbind outcome_bind]; [left|right].
  - destruct Hr as (r & Hri & Hin%cmp_contains_Eq). assert (Hrl : r ∈ mappings pm) by by eapply list_elem_of_lookup_2.
    destruct (Harcs r Hrl) as (c & Hc & Hmp & Hre). pose proof (ordered_entry _ _ _ Hord Hri).
    rewrite (proj2 (index_Done _ _ _) Hri). cbn [mbind outcome_bind].
    unfold user_addr in Ha. unfold sub_u64. rewrite chk_ok by (unfold u64_lim; lia). cbn [mbind outcome_bind].
    destruct (backing_page_ok s st F t (r_arc r) (address - r_start r) c)
      as (p & s1 & st' & F1 & -> & Hp & Hres & Hle & Hfr & Hsp1 & Htr1 & Hko1);
      [done|intros ->; cbn in HF; lia|done|done|lia|]. cbn [mbind outcome_bind].
    rewrite user_containing by done. cbn [mbind outcome_bind].
    assert (HF1 : (3 ≤ length F1)%nat) by (destruct Hfr as [[_ ->]|Hfr]; [|rewrite Hfr in HF; cbn in HF]; lia).
    destruct (fault_map_ok s1 F1 t address p (r_flags r)) as (res & s2 & F2 & -> & Hsp2 & Hoth & Hmap & Hko2);
      [done|done|done|by apply (small_at_same (snd s))|by apply Hko1|done|]. cbn [mbind outcome_bind].
    exists r, p, s2, st', F2. splits; try done; try lia.
    + destruct Hfr as [[? _]|Hfr]; [by left|right]. rewrite Hfr. left.
    + intros x Hx Hne. rewrite Hoth by done. apply Htr1.
    + by rewrite Htr1 in Hmap.
    + intros fl x Hx. by apply Hko2, Hko1.
  - destruct Hr as (_ & Hlo & Hhi). split; [|done]. intros r [j Hj]%list_elem_of_lookup Hin%cmp_contains_Eq.
    destruct (decide (j < i)%nat); [pose proof (Hlo j r) as Hx|pose proof (Hhi j r) as Hx];
      rewrite Hin in Hx; discriminate Hx; (lia || done).
Qed.

(** *** Inserting and removing mappings *)
Lemma elem_of_step_range v a b :
  v ∈ step_range a b → ∃ i, 0 ≤ i ∧ v = a + i * 0x1000 ∧ v < b.
Proof.
  unfold step_range. intros (i & -> & Hi)%list_elem_of_fmap. apply elem_of_seq in Hi.
  exists (Z.of_nat i). splits; [lia|done|].
  pose proof (Z.div_mod (b - a + 0xFFF) 0x1000). pose proof (Z.mod_pos_bound (b - a + 0xFFF) 0x1000). lia.
Qed.

Lemma step_range_aligned v a b : a mod 0x1000 = 0 → v ∈ step_range a b → a ≤ v < b ∧ v mod 0x1000 = 0.
Proof.
  intros Ha (i & ? & -> & ?)%elem_of_step_range. split; [lia|]. by rewrite Z.mod_add.
Qed.

(** The pages of the range are those of its bytes. *)
Lemma step_range_pages a b x :
  a mod 0x1000 = 0 →
  x / 0x1000 ∈ ((λ v, v / 0x1000) <$> step_range a b) ↔ ∃ y, a ≤ y < b ∧ y / 0x1000 = x / 0x1000.
Proof.
  intros Ha. rewrite list_elem_of_fmap. split.
  - intros (v & E & Hv). exists v. apply step_range_aligned in Hv as [? _]; done.
  - intros (y & Hy & <-). exists (y - y mod 0x1000). rewrite page_base. split; [done|].
    unfold step_range. apply list_elem_of_fmap. exists (Z.to_nat ((y - y mod 0x1000 - a) / 0x1000)).
    apply exact_div in Ha; [|done]. pose proof (Z.div_mod y 0x1000). pose proof (Z.mod_pos_bound y 0x1000).
    assert (E : y - y mod 0x1000 - a = (y / 0x1000 - a / 0x1000) * 0x1000) by lia.
    rewrite E, Z.div_mul by lia. pose proof (Z.div_le_mono a y 0x1000). split; [lia|].
    apply elem_of_seq. pose proof (Z.div_mod (b - a + 0xFFF) 0x1000).
    pose proof (Z.mod_pos_bound (b - a + 0xFFF) 0x1000). lia.
Qed.

Lemma step_range_distinct a b : distinct_pages (step_range a b).
Proof.
  unfold distinct_pages, step_range. rewrite <- list_fmap_compose. apply NoDup_fmap_2; [|apply NoDup_seq].
  intros i j. cbn. rewrite !Z.div_add by lia. lia.
Qed.

Lemma range_cmp_sorted l a b : ordered l → a < b → cmp_sorted (λ r, range_cmp (r_start r) (r_end r) a b) l.
Proof.
  intros Ho Hab i j x y Hij Hx Hy. pose proof (ordered_lookup l i j x y Ho Hij Hx Hy).
  pose proof (ordered_entry l i x Ho Hx). pose proof (ordered_entry l j y Ho Hy).
  unfold range_cmp.
  destruct (Z.leb_spec (r_end x) (r_start x)), (Z.leb_spec (r_end y) (r_start y)), (Z.leb_spec b a); try lia.
  destruct (Z.compare_spec (r_start x) a), (Z.compare_spec (r_start y) a); try lia; try done;
    destruct (Z.compare_spec (r_end x) b); try done; lia.
Qed.

Lemma range_cmp_Eq a b c d : a < b → range_cmp a b c d = Eq → c < d → a = c ∧ b = d.
Proof.
  intros Hab. unfold range_cmp. bool_cases; try lia; try done.
  destruct (Z.compare_spec a c); try done. intros Hbd%Z.compare_eq_iff _. done.
Qed.

Lemma free_mapping_ok s st F pm start end_ :
  let t := page_mapper pm in
  space_ok s F t → ordered (mappings pm) → 0x1000 ≤ start < end_ → end_ ≤ 2 ^ 47 → start mod 0x1000 = 0 →
  (∀ v, user_addr v → small_at (snd s) t v) →
  (∀ r, r ∈ mappings pm → ∃ c, arcs st !! r_arc r = Some c ∧
     frames_wf F (tables 3 (snd s) t ++ lazy_frames (value c))) →
  (∃ i r c s' F', mappings pm !! i = Some r ∧ r_start r = start ∧ r_end r = end_ ∧
     arcs st !! r_arc r = Some c ∧
     free_mapping off (s, st) pm start end_ =
       Done (Ok tt, (mkPMM t (delete i (mappings pm)), (s', arc_release st (r_arc r) c))) ∧
     ordered (delete i (mappings pm)) ∧ pa_owns s' F' ∧
     F' ++ tables 3 (snd s') t ++ (if (strong c <=? 1)%nat then [] else lazy_frames (value c)) ≡ₚ
       F ++ tables 3 (snd s) t ++ lazy_frames (value c) ∧
     (∀ v, start ≤ v < end_ → translate 3 (snd s') t v = None) ∧
     (∀ x, virt_ok x → (∀ y, start ≤ y < end_ → y / 0x1000 ≠ x / 0x1000) →
        translate 3 (snd s') t x = translate 3 (snd s) t x) ∧
     (∀ v, start ≤ v < end_ → no_empty 3 (snd s') t v) ∧ keeps_in_use (snd s) (snd s') t) ∨
  ((∀ r, r ∈ mappings pm → ¬ (r_start r = start ∧ r_end r = end_)) ∧
   free_mapping off (s, st) pm start end_ = Done (Err (MemNotMapped start), (pm, (s, st)))).
Proof using Hoff.
  intros t Hsp Hord Hs He Hal Hsm Harcs. unfold free_mapping. fold t.
  destruct (binary_search_ok _ _ (range_cmp_sorted _ start end_ Hord (proj2 Hs))) as ([i|i] & -> & Hr);
    cbn [mbind outcome_bind]; [left|right].
  - destruct Hr as (r & Hri & Heq). pose proof (ordered_entry _ _ _ Hord Hri).
    destruct (range_cmp_Eq (r_start r) (r_end r) start end_) as [E1 E2]; [lia|done|lia|].
    destruct (Harcs r) as (c & Hc & Hwf); [by eapply list_elem_of_lookup_2|].
    rewrite (proj2 (index_Done _ _ _) Hri). cbn [mbind outcome_bind fst snd page_mapper]. rewrite E1, E2.
    destruct (unmap_pages_ok (step_range start end_) s F t) as (s1 & F1 & -> & Hc1 & Hin & Hout & Hne1 & Hki1 & _);
      [done|intros v Hv; apply step_range_aligned in Hv as [? ?]; [unfold user_addr; lia|done]|done|].
    cbn [mbind outcome_bind].
    assert (Hp : F1 ++ tables 3 (snd s1) t ++ lazy_frames (value c) ≡ₚ
                 F ++ tables 3 (snd s) t ++ lazy_frames (value c)).
    { rewrite !(assoc_L (++)). f_equiv. apply Hc1. }
    assert (Hwf1 : frames_wf F1 (lazy_frames (value c))).
    { apply (frames_wf_app _ _ (tables 3 (snd s1) t)). eapply frames_wf_perm; [|exact Hwf].
      rewrite <- Hp. f_equiv. apply (comm (++)). }
    destruct (arc_drop_ok s1 st (r_arc r) c F1 Hc (proj1 Hc1) Hwf1) as (s2 & F2 & -> & Ho2 & Ht2 & HF2).
    cbn [mbind outcome_bind]. rewrite <- (tables_ext 3 (snd s1) (snd s2)) in Hp by (intros; by rewrite Ht2).
    assert (Htr2 : ∀ v, translate 3 (snd s2) t v = translate 3 (snd s1) t v)
      by (intros; apply translate_ext; intros; by rewrite Ht2).
    assert (Hal2 : ∀ v, no_empty 3 (snd s1) t v → no_empty 3 (snd s2) t v) by (intros v; apply along_ext; intros; by rewrite Ht2).
    exists i, r, c, s2, F2. splits; try done; [by apply ordered_delete| | | | |].
    + rewrite <- Hp, HF2. destruct (strong c <=? 1)%nat; [|done]. rewrite (right_id_L [] (++)).
      rewrite <- (assoc_L (++)), (comm (++) (lazy_frames _)), <- (assoc_L (++)). done.
    + intros v Hv. rewrite Htr2.
      pose proof (proj2 (step_range_pages start end_ v Hal) (ex_intro _ v (conj Hv eq_refl)))
        as (x & E & Hx)%list_elem_of_fmap.
      rewrite (translate_page 3 _ _ v x E). by apply Hin.
    + intros x Hx Hne. rewrite Htr2. apply Hout; [done|].
      intros (y & Hy & E)%(step_range_pages start end_ x Hal). by apply (Hne y).
    + intros v Hv. apply Hal2.
      pose proof (proj2 (step_range_pages start end_ v Hal) (ex_intro _ v (conj Hv eq_refl)))
        as (x & E & Hx)%list_elem_of_fmap.
      apply (along_page _ 3 _ _ x v); [done|by apply Hne1].
    + intros v Hv. by apply Hal2, Hki1.
  - destruct Hr as (_ & Hlo & Hhi). split; [|done]. intros r [j Hj]%list_elem_of_lookup [<- <-].
    assert (Heq : range_cmp (r_start r) (r_end r) (r_start r) (r_end r) = Eq)
      by (unfold range_cmp; rewrite !Z.compare_refl; bool_cases; done || lia).
    destruct (decide (j < i)%nat); [pose proof (Hlo j r) as Hx|pose proof (Hhi j r) as Hx];
      rewrite Heq in Hx; discriminate Hx; (lia || done).
Qed.

(** C33: [free_mapping] of the exact range of a mapping removes that entry, makes
    none of its addresses translate, leaves every other page alone, and gives back to the
    allocator the tables that became empty (none is left on the way to any page of the range,
    nor where there was none) and, when this was the last reference, the
    pages of the mapping, losing no frame; a range that is not that of a mapping is refused
    without any change. *)
Theorem free_mapping_spec s st F pm start end_ :
  let t := page_mapper pm in
  space_ok s F t → ordered (mappings pm) → 0x1000 ≤ start < end_ → end_ ≤ 2 ^ 47 → start mod 0x1000 = 0 →
  (∀ v, user_addr v → small_at (snd s) t v) →
  (∀ r, r ∈ mappings pm → ∃ c, arcs st !! r_arc r = Some c ∧
     frames_wf F (tables 3 (snd s) t ++ lazy_frames (value c))) →
  (∃ i r c s' F', mappings pm !! i = Some r ∧ r_start r = start ∧ r_end r = end_ ∧
     arcs st !! r_arc r = Some c ∧
     free_mapping off (s, st) pm start end_ =
       Done (Ok tt, (mkPMM t (delete i (mappings pm)), (s', arc_release st (r_arc r) c))) ∧
     ordered (delete i (mappings pm)) ∧ pa_owns s' F' ∧
     F' ++ tables 3 (snd s') t ++ (if (strong c <=? 1)%nat then [] else lazy_frames (value c)) ≡ₚ
       F ++ tables 3 (snd s) t ++ lazy_frames (value c) ∧
     (∀ v, start ≤ v < end_ → translate 3 (snd s') t v = None) ∧
     (∀ x, virt_ok x → (∀ y, start ≤ y < end_ → y / 0x1000 ≠ x / 0x1000) →
        translate 3 (snd s') t x = translate 3 (snd s) t x) ∧
     (∀ v, start ≤ v < end_ → no_empty 3 (snd s') t v) ∧ keeps_in_use (snd s) (snd s') t) ∨
  ((∀ r, r ∈ mappings pm → ¬ (r_start r = start ∧ r_end r = end_)) ∧
   free_mapping off (s, st) pm start end_ = Done (Err (MemNotMapped start), (pm, (s, st)))).
Proof using Hoff. apply free_mapping_ok. Qed.

(** Inserting a non-empty mapping at an address keeps the vector ordered and
    adds exactly that range, at the place bisection finds, unless some range [r]
    has [base < r.end] and [r.start <= end]; then the vector is unchanged and the
    reference is dropped. *)
Theorem insert_mapping_at_spec (w : vm_world (A := A)) pm base id c flags :
  let l := mappings pm in
  let end_ := base + size (value c) in
  arcs (snd w) !! id = Some c → ordered l → 0 ≤ base → base mod 0x1000 = 0 →
  0 < size (value c) → end_ < u64_lim →
  ((∃ r, r ∈ l ∧ base < r_end r ∧ r_start r ≤ end_) ∧
   insert_mapping_at w pm base id flags = (w' ← arc_drop w id; Done (None, (pm, w')))) ∨
  ((∀ r, r ∈ l → r_end r ≤ base ∨ end_ < r_start r) ∧
   ∃ i, let l' := take i l ++ mkEntry base end_ id flags :: drop i l in
     insert_mapping_at w pm base id flags = Done (Some tt, (mkPMM (page_mapper pm) l', w)) ∧ ordered l').
Proof.
  intros l end_ Hc Ho Hb Hal Hsz Hend. unfold insert_mapping_at.
  rewrite page_aligned_test, (get_mapping_ok _ _ _ Hc) by done. cbn [mbind outcome_bind].
  unfold add_u64. rewrite chk_ok by lia. cbn [mbind outcome_bind]. fold end_ l.
  destruct (existsb (conflicts base end_) l) eqn:Ex; [left|right].
  - split; [by apply existsb_conflicts|done].
  - split.
    + intros r Hr. destruct (decide (r_end r ≤ base)); [by left|right].
      destruct (decide (end_ < r_start r)); [done|]. exfalso.
      assert (existsb (conflicts base end_) l = true); [|congruence]. apply existsb_conflicts. exists r. split; [done|lia].
    + destruct (insert_index_ok l base end_ id flags) as (i & -> & Hi & Hord); [done|lia|done|].
      cbn [mbind outcome_bind]. exists i. rewrite vec_insert_ok by done. done.
Qed.

(** The test uses [r.start <= end] although both ranges are half open, so a
    mapping that ends exactly where another begins is refused, even when it
    overlaps nothing. *)
Theorem insert_mapping_at_rejects_adjacent (w : vm_world (A := A)) pm base id c flags r :
  arcs (snd w) !! id = Some c → r ∈ mappings pm → r_start r = base + size (value c) →
  r_start r < r_end r → 0 ≤ base → base mod 0x1000 = 0 → 0 < size (value c) → r_start r < u64_lim →
  insert_mapping_at w pm base id flags = (w' ← arc_drop w id; Done (None, (pm, w'))).
Proof.
  intros Hc Hr Hs He Hb Hal Hsz Hend. unfold insert_mapping_at.
  rewrite page_aligned_test, (get_mapping_ok _ _ _ Hc) by done. cbn [mbind outcome_bind].
  unfold add_u64. rewrite chk_ok by lia. cbn [mbind outcome_bind].
  rewrite (proj2 (existsb_conflicts (mappings pm) base (base + size (value c)))); [done|].
  exists r. split; [done|lia].
Qed.

(** Without a fixed address the mapping goes into the first gap that leaves a
    page of padding below it, and the vector stays ordered; if there is no such
    gap the kernel panics. *)
Theorem insert_mapping_spec (w : vm_world (A := A)) pm id c flags :
  let l := mappings pm in
  arcs (snd w) !! id = Some c → ordered l →
  Forall (λ r, 0 ≤ r_end r ∧ r_end r + 0x1000 + size (value c) < u64_lim) l → 0 < size (value c) →
  (∃ i x y, l !! i = Some x ∧ l !! S i = Some y ∧ (∀ j, (j < i)%nat → ¬ gap l (size (value c)) j) ∧
     let base := r_end x + 0x1000 in
     let l' := take (S i) l ++ mkEntry base (base + size (value c)) id flags :: drop (S i) l in
     insert_mapping w pm id flags = Done (base, (mkPMM (page_mapper pm) l', w)) ∧
     base + size (value c) ≤ r_start y ∧ ordered l') ∨
  ((∀ j, ¬ gap l (size (value c)) j) ∧ insert_mapping w pm id flags = Panic PUnwrap).
Proof.
  intros l Hc Ho Hb Hsz. unfold insert_mapping. rewrite (get_mapping_ok _ _ _ Hc). cbn [mbind outcome_bind].
  destruct (find_gap_ok l (size (value c)) Hb) as ([i|] & E & Hg); [lia|left|right];
    fold l; rewrite E; cbn [mbind outcome_bind unwrap]; [|done].
  destruct Hg as [(x & y & Hx & Hy & Hgap) Hfirst]. exists i, x, y.
  rewrite (proj2 (index_Done _ _ _) Hx). cbn [mbind outcome_bind].
  pose proof (Forall_lookup_1 _ _ _ _ Hb Hx) as Hxe. cbn beta in Hxe. pose proof (ordered_entry _ _ _ Ho Hx).
  unfold add_u64. rewrite (chk_ok _ (r_end x + 0x1000)) by lia. cbn [mbind outcome_bind].
  rewrite (chk_ok _ (r_end x + 0x1000 + _)) by lia. cbn [mbind outcome_bind].
  pose proof (lookup_lt_Some _ _ _ Hx). rewrite Nat.add_1_r, vec_insert_ok by lia.
  cbv zeta. splits; try done. apply ordered_insert; [done|unfold entry_ok; cbn; lia| |];
    intros j z Hj Hz; cbn [r_start r_end].
  - destruct (decide (j = i)) as [->|]; [simplify_eq; lia|].
    pose proof (ordered_lookup l j i z x Ho) as Hzx. pose proof (ordered_entry _ _ _ Ho Hz).
    assert (r_end z ≤ r_start x) by (apply Hzx; [lia|done..]). lia.
  - destruct (decide (j = S i)) as [->|]; [simplify_eq; lia|].
    pose proof (ordered_lookup l (S i) j y z Ho) as Hyz. pose proof (ordered_entry _ _ _ Ho Hy).
    assert (r_end y ≤ r_start z) by (apply Hyz; [lia|done..]). lia.
Qed.

(** *** The eager variants *)
Definition mapping_pairs (mp : PageMapping) (base end_ : Z) : list (Z * Z) :=
  match mapping mp with
  | MMAP b => mmap_pages b base end_
  | LazyMapping pages => present_pages pages base end_
  end.

Lemma step_range_lookup a b i v :
  step_range a b !! i = Some v ↔ v = a + Z.of_nat i * 0x1000 ∧ Z.of_nat i < (b - a + 0xFFF) / 0x1000.
Proof.
  unfold step_range. rewrite list_lookup_fmap, fmap_Some. setoid_rewrite lookup_seq. split.
  - intros (j & [-> Hj] & ->). cbn. lia.
  - intros [-> Hi]. exists i. cbn. lia.
Qed.

(** The pairs are the backed pages with their addresses. *)
Lemma elem_of_mapping_pairs mp base p v :
  0 < size mp →
  (p, v) ∈ mapping_pairs mp base (base + size mp) ↔
  ∃ i : nat, Z.of_nat i < (size mp + 0xFFF) / 0x1000 ∧ v = base + Z.of_nat i * 0x1000 ∧
    match mapping mp with
    | MMAP b => p = b + Z.of_nat i * 0x1000
    | LazyMapping pages => pages !! i = Some (Some p)
    end.
Proof.
  intros Hsz. unfold mapping_pairs.
  replace (size mp + 0xFFF) with (base + size mp - base + 0xFFF) by lia.
  destruct (mapping mp) as [b|pages].
  - unfold mmap_pages. rewrite list_elem_of_lookup. setoid_rewrite list_lookup_imap_Some.
    setoid_rewrite step_range_lookup. naive_solver.
  - unfold present_pages. rewrite list_elem_of_omap. setoid_rewrite list_elem_of_lookup.
    split.
    + intros ([o w] & [i Hi] & Hp). apply lookup_zip_with_Some in Hi as (o' & w' & E & Ho & Hw).
      apply step_range_lookup in Hw as [-> Hi]. destruct o' as [q|]; simplify_eq/=. by exists i.
    + intros (i & Hi & -> & Hp). exists (Some p, base + Z.of_nat i * 0x1000). split; [|done].
      exists i. apply lookup_zip_with_Some. eexists _, _. splits; [done|done|]. by apply step_range_lookup.
Qed.

Lemma mapping_pairs_sublist mp base end_ : snd <$> mapping_pairs mp base end_ `sublist_of` step_range base end_.
Proof.
  unfold mapping_pairs. destruct (mapping mp) as [b|pages].
  - unfold mmap_pages. rewrite fmap_imap. cbn.
    assert (∀ l : list Z, imap (λ _ x, x) l = l) as ->; [|done].
    induction l as [|x l IH]; [done|]. cbn. f_equal. exact IH.
  - unfold present_pages. revert pages. induction (step_range base end_) as [|v l IH]; intros [|[p|] pages];
      cbn; try apply sublist_nil_l; [apply sublist_skip, IH|apply sublist_cons, IH].
Qed.

(** The addresses of the pages are distinct, and there is one per page at most. *)
Lemma mapping_pairs_distinct mp base end_ :
  distinct_pages (snd <$> mapping_pairs mp base end_) ∧
  (length (mapping_pairs mp base end_) ≤ Z.to_nat ((end_ - base + 0xFFF) / 0x1000))%nat.
Proof.
  pose proof (mapping_pairs_sublist mp base end_) as Hs. split.
  - eapply sublist_NoDup; [apply (step_range_distinct base end_)|]. by apply fmap_sublist.
  - apply sublist_length in Hs. unfold step_range in Hs. by rewrite !length_fmap, length_seq in Hs.
Qed.

(** Inserting a mapping eagerly at a free user range maps every page the
    mapping holds at its place in the range, so that no byte that is backed
    faults later; the vector stays ordered and no other page is touched. *)
Theorem insert_mapping_at_set_spec s st F pm base id c flags :
  let l := mappings pm in
  let t := page_mapper pm in
  let end_ := base + size (value c) in
  space_ok s F t → arcs st !! id = Some c → mapping_ok (value c) → ordered l →
  0x1000 ≤ base → base mod 0x1000 = 0 → end_ ≤ 2 ^ 47 →
  existsb (conflicts base end_) l = false →
  (∀ v, base ≤ v < end_ → translate 3 (snd s) t v = None ∧ open_at (snd s) t v) →
  (3 * Z.to_nat ((size (value c) + 0xFFF) / 0x1000) ≤ length F)%nat →
  ∃ i s' F', let l' := take i l ++ mkEntry base end_ id flags :: drop i l in
    insert_mapping_at_set off (s, st) pm base id flags = Done (Some tt, (mkPMM t l', (s', st))) ∧
    ordered l' ∧ space_ok s' F' t ∧
    (∀ p v, (p, v) ∈ mapping_pairs (value c) base end_ →
       ∃ e, translate 3 (snd s') t v = Some (O, e) ∧ mapped_to Size4KB flags p e) ∧
    (∀ x, virt_ok x → (∀ y, base ≤ y < end_ → y / 0x1000 ≠ x / 0x1000) →
       translate 3 (snd s') t x = translate 3 (snd s) t x).
Proof using Hoff.
  intros l t end_ Hsp Hc Hmp Hord Hb Hal Hend Hex Hnone HF. pose proof (proj1 Hmp) as Hsz.
  unfold insert_mapping_at_set. rewrite page_aligned_test by done. cbn [mbind outcome_bind fst snd].
  rewrite (get_mapping_ok _ _ _ Hc). cbn [mbind outcome_bind].
  unfold add_u64. rewrite chk_ok by (unfold u64_lim; lia). cbn [mbind outcome_bind].
  fold end_ l t. rewrite Hex.
  destruct (insert_index_ok l base end_ id flags) as (i & -> & Hi & Hl'); [done|lia|done|].
  cbn [mbind outcome_bind].
  destruct (mapping_pairs_distinct (value c) base end_) as [Hd Hlen].
  replace (end_ - base + 0xFFF) with (size (value c) + 0xFFF) in Hlen by lia.
  set (mk := match mapping (value c) with MMAP _ => Page_new Size4KB | LazyMapping _ => λ p, Done (mkPage p) end).
  assert (Emap : map_mapping off s t (value c) base end_ flags =
                 map_pages off s t mk (mapping_pairs (value c) base end_) flags).
  { unfold map_mapping, mapping_pairs, mk. by destruct (mapping (value c)). }
  destruct (map_pages_ok mk (mapping_pairs (value c) base end_) s F t flags)
    as (s' & F' & E & Hsp' & Hin & Hout & _); [done|done|lia| |].
  - intros p v (j & Hj & -> & Hp)%elem_of_mapping_pairs; [|lia].
    pose proof (Z.div_mod (size (value c) + 0xFFF) 0x1000).
    pose proof (Z.mod_pos_bound (size (value c) + 0xFFF) 0x1000).
    assert (Hpp : mk p = Done (mkPage p) ∧ phys_page_ok Size4KB p).
    { destruct Hmp as [_ Hmp]. unfold mk. destruct (mapping (value c)) as [b|pages].
      - destruct Hmp as (? & Hbm & ?). subst p.
        assert (Hm : (b + Z.of_nat j * 0x1000) mod 0x1000 = 0) by (by rewrite Z.mod_add).
        split; [apply Page_new_ok; [lia|done]|split; [lia|done]].
      - split; [done|]. apply frame_phys_ok. by eapply Hmp. }
    destruct Hpp. splits; try done; [unfold user_addr; lia|by rewrite Z.mod_add|apply Hnone; lia..].
  - rewrite Emap, E. cbn [mbind outcome_bind]. rewrite vec_insert_ok by done. cbn [mbind outcome_bind].
    exists i, s', F'. splits; try done. intros x Hx Hne. apply Hout; [done|].
    intros Hin'. assert (Hst : x / 0x1000 ∈ (λ v, v / 0x1000) <$> step_range base end_).
    { eapply elem_of_sublist; [exact Hin'|]. apply fmap_sublist, mapping_pairs_sublist. }
    apply (step_range_pages base end_ x Hal) in Hst as (y & Hy & E'). by apply (Hne y).
Qed.
End vm.

(** ** Concrete states

    The address space of [PageTable]'s examples, with one page mapped at
    0x400000 (physical 0x7000), a lazy mapping there and a sentinel above. *)
#[local] Existing Instance boot_allocator.
#[local] Existing Instance boot_allocator_spec.

Definition demo_store : ArcStore :=
  mkStore (<[0%nat := mkArc 1 (mkMapping 0x3000 (LazyMapping [Some 0x7000; None; None]))]>
           (<[1%nat := mkArc 1 (mkMapping 0x1000 (MMAP 0xb8000))]>
           (<[2%nat := mkArc 1 (mkMapping 0x2000 (LazyMapping [Some 0x8000; None]))]> ∅))) 3.

Definition demo_pmm : PageMapperManager :=
  mkPMM 0x5000 [mkEntry 0x400000 0x403000 0 flags_all; mkEntry 0x7fff0000 0x7fff1000 1 flags_all].

Lemma demo_ordered : ordered (mappings demo_pmm).
Proof.
  split; [repeat constructor; unfold entry_ok; cbn; lia|].
  repeat constructor; unfold before; cbn; lia.
Qed.

Lemma demo_space : space_ok demo_mapped_world (range_frames 0x10000 4) 0x5000.
Proof. split; [exact demo_mapped_owns|exact demo_mapped_wf]. Qed.

Lemma demo_mapping_ok i c : arcs demo_store !! i = Some c → mapping_ok (value c).
Proof.
  unfold demo_store. cbn [arcs]. rewrite !lookup_insert_Some. intros H.
  destruct H as [[<- <-]|[_ [[<- <-]|[_ [[<- <-]|[_ H]]]]]]; [| | |by rewrite lookup_empty in H];
    (split; [cbn; lia|]; cbn); (split_and!; try done).
  - intros [|[|[|j]]] p Hp; cbn in Hp; by simplify_eq.
  - intros [|[|j]] p Hp; cbn in Hp; by simplify_eq.
Qed.

Lemma demo_arcs_ok : arcs_ok demo_store (mappings demo_pmm).
Proof.
  intros r Hr. cbn [demo_pmm mappings] in Hr.
  assert (Hgo : ∀ c, arcs demo_store !! r_arc r = Some c → r_end r = r_start r + size (value c) →
    ∃ c, arcs demo_store !! r_arc r = Some c ∧ mapping_ok (value c) ∧ r_end r = r_start r + size (value c)).
  { intros c Hc He. exists c. splits; [done|by eapply demo_mapping_ok|done]. }
  repeat (apply elem_of_cons in Hr as [->|Hr]; [eapply Hgo; reflexivity|]). by apply elem_of_nil in Hr.
Qed.

Lemma demo_open v : open_at demo_mapped 0x5000 v.
Proof.
  assert (Hg : ∀ t i, present (table demo_mapped t i) = true → grants flags_all (table demo_mapped t i)).
  { intros t i. unfold demo_mapped. rewrite !table_set_entry. by repeat case_decide. }
  assert (Ha : ∀ d t, opens flags_all d demo_mapped t v); [|apply Ha].
  induction d as [|d IH]; intros t; [done|]. intros Hp _. split; [by apply Hg|apply IH].
Qed.

(** A fault in the second page of the lazy mapping is resolved from the pool. *)
Lemma page_fault_handler_spec_witness :
  ∃ r p s' st' F', r ∈ mappings demo_pmm ∧ r_start r ≤ 0x401234 < r_end r ∧
     page_fault_handler PhysMapOffset (demo_mapped_world, demo_store) demo_pmm 0x401234 = Done (Some tt, (s', st')) ∧
     resolves st' (r_arc r) (0x401234 - r_start r) p ∧ store_le demo_store st' ∧
     (resolves demo_store (r_arc r) (0x401234 - r_start r) p ∨ p ∈ range_frames 0x10000 4) ∧
     space_ok s' F' 0x5000 ∧ others_same demo_mapped (snd s') 0x5000 0x401234 ∧
     (∃ e, translate 3 (snd s') 0x5000 0x401234 = Some (O, e) ∧ mapped_to Size4KB (r_flags r) p e) ∧
     keeps_open demo_mapped (snd s') 0x5000.
Proof.
  destruct (page_fault_handler_spec PhysMapOffset phys_map_offset_ok demo_mapped_world demo_store
    (range_frames 0x10000 4) demo_pmm 0x401234) as [H|[H _]];
    [exact demo_space|exact demo_ordered|exact demo_arcs_ok|unfold user_addr; lia| |exact (demo_open _)|vm_compute; lia|exact H|].
  - intros d e He. vm_compute in He. discriminate He.
  - exfalso. apply (H (mkEntry 0x400000 0x403000 0 flags_all)); [left|cbn; lia].
Defined.

Lemma demo_small v : user_addr v → small_at demo_mapped 0x5000 v.
Proof.
  assert (Hno : ∀ t i, larger_pages (table demo_mapped t i) = false)
    by (intros t i; unfold demo_mapped; rewrite !table_set_entry; by repeat case_decide).
  intros _. unfold small_at. generalize 0x5000.
  assert (Hs : ∀ n t d e, translate n demo_mapped t v = Some (d, e) → d = O ∧ larger_pages e = false); [|intros t; apply Hs].
  induction n as [|n IH]; intros t d e; cbn [translate]; destruct (present _); try done.
  - intros [= <- <-]. split; [done|apply Hno].
  - rewrite Hno. intros ([k x] & Hx & [= -> ->])%fmap_Some. by apply IH in Hx.
Qed.

Lemma free_mapping_spec_witness :
  ∃ i r c s' F', mappings demo_pmm !! i = Some r ∧ r_start r = 0x400000 ∧ r_end r = 0x403000 ∧
     arcs demo_store !! r_arc r = Some c ∧
     free_mapping PhysMapOffset (demo_mapped_world, demo_store) demo_pmm 0x400000 0x403000 =
       Done (Ok tt, (mkPMM 0x5000 (delete i (mappings demo_pmm)), (s', arc_release demo_store (r_arc r) c))) ∧
     ordered (delete i (mappings demo_pmm)) ∧ pa_owns s' F' ∧
     F' ++ tables 3 (snd s') 0x5000 ++ (if (strong c <=? 1)%nat then [] else lazy_frames (value c)) ≡ₚ
       range_frames 0x10000 4 ++ tables 3 demo_mapped 0x5000 ++ lazy_frames (value c) ∧
     (∀ v, 0x400000 ≤ v < 0x403000 → translate 3 (snd s') 0x5000 v = None) ∧
     (∀ x, virt_ok x → (∀ y, 0x400000 ≤ y < 0x403000 → y / 0x1000 ≠ x / 0x1000) →
        translate 3 (snd s') 0x5000 x = translate 3 demo_mapped 0x5000 x) ∧
     (∀ v, 0x400000 ≤ v < 0x403000 → no_empty 3 (snd s') 0x5000 v) ∧ keeps_in_use demo_mapped (snd s') 0x5000.
Proof.
  destruct (free_mapping_spec PhysMapOffset phys_map_offset_ok demo_mapped_world demo_store
    (range_frames 0x10000 4) demo_pmm 0x400000 0x403000) as [H|[H _]];
    [exact demo_space|exact demo_ordered|lia|lia|done|exact demo_small| |exact H|].
  - intros r Hr.
    assert (Hwf : ∀ L, L = [0x7000] ∨ L = [] → frames_wf (range_frames 0x10000 4) (tables 3 demo_mapped 0x5000 ++ L)).
    { intros L HL. rewrite demo_mapped_tables. split.
      - destruct HL as [-> | ->]; apply (bool_decide_unpack _); vm_compute; exact I.
      - rewrite (assoc_L (++)). apply Forall_app. split.
        + destruct demo_mapped_wf as [_ Hf]. cbn [demo_mapped_world snd] in Hf. by rewrite demo_mapped_tables in Hf.
        + destruct HL as [-> | ->]; [by apply Forall_singleton|done]. }
    cbn [demo_pmm mappings] in Hr.
    repeat (apply elem_of_cons in Hr as [->|Hr]; [eexists; split; [reflexivity|apply Hwf; naive_solver]|]).
    by apply elem_of_nil in Hr.
  - exfalso. apply (H (mkEntry 0x400000 0x403000 0 flags_all)); [left|done].
Defined.

Lemma insert_mapping_at_spec_witness :
  ∃ i, let l' := take i (mappings demo_pmm) ++ mkEntry 0x500000 0x502000 2 flags_all :: drop i (mappings demo_pmm) in
    insert_mapping_at (demo_mapped_world, demo_store) demo_pmm 0x500000 2 flags_all =
      Done (Some tt, (mkPMM 0x5000 l', (demo_mapped_world, demo_store))) ∧ ordered l'.
Proof.
  destruct (insert_mapping_at_spec (demo_mapped_world, demo_store) demo_pmm 0x500000 2
    (mkArc 1 (mkMapping 0x2000 (LazyMapping [Some 0x8000; None]))) flags_all) as [[(r & Hr & H1 & H2) _]|[_ H]];
    [reflexivity|exact demo_ordered|lia|done|done|done| |exact H].
  exfalso. cbn in Hr, H2. repeat (apply elem_of_cons in Hr as [->|Hr]; [cbn in H1, H2; lia|]). by apply elem_of_nil in Hr.
Defined.

(** [0x3fe000, 0x400000) is free but touches the mapping at 0x400000. *)
Lemma insert_mapping_at_rejects_adjacent_witness :
  insert_mapping_at (demo_mapped_world, demo_store) demo_pmm 0x3fe000 2 flags_all =
    (w' ← arc_drop (demo_mapped_world, demo_store) 2; Done (None, (demo_pmm, w'))).
Proof.
  apply (insert_mapping_at_rejects_adjacent (demo_mapped_world, demo_store) demo_pmm 0x3fe000 2
    (mkArc 1 (mkMapping 0x2000 (LazyMapping [Some 0x8000; None]))) flags_all (mkEntry 0x400000 0x403000 0 flags_all));
    [reflexivity|left|done|done|lia|done|done|done].
Defined.

Lemma insert_mapping_spec_witness :
  ∃ i x y, mappings demo_pmm !! i = Some x ∧ mappings demo_pmm !! S i = Some y ∧
     (∀ j, (j < i)%nat → ¬ gap (mappings demo_pmm) 0x2000 j) ∧
     let base := r_end x + 0x1000 in
     let l' := take (S i) (mappings demo_pmm) ++ mkEntry base (base + 0x2000) 2 flags_all :: drop (S i) (mappings demo_pmm) in
     insert_mapping (demo_mapped_world, demo_store) demo_pmm 2 flags_all =
       Done (base, (mkPMM 0x5000 l', (demo_mapped_world, demo_store))) ∧
     base + 0x2000 ≤ r_start y ∧ ordered l'.
Proof.
  destruct (insert_mapping_spec (demo_mapped_world, demo_store) demo_pmm 2
    (mkArc 1 (mkMapping 0x2000 (LazyMapping [Some 0x8000; None]))) flags_all) as [H|[H _]];
    [reflexivity|exact demo_ordered|repeat constructor; cbn; unfold u64_lim; lia|cbn; lia|exact H|].
  exfalso. apply (H 0%nat). eexists _, _. split; [reflexivity|]. split; [reflexivity|]. cbn. lia.
Defined.

Lemma insert_mapping_at_set_spec_witness :
  ∃ i s' F', let l' := take i (mappings demo_pmm) ++ mkEntry 0x500000 0x501000 1 flags_all :: drop i (mappings demo_pmm) in
    insert_mapping_at_set PhysMapOffset (demo_mapped_world, demo_store) demo_pmm 0x500000 1 flags_all =
      Done (Some tt, (mkPMM 0x5000 l', (s', demo_store))) ∧
    ordered l' ∧ space_ok s' F' 0x5000 ∧
    (∀ p v, (p, v) ∈ mapping_pairs (mkMapping 0x1000 (MMAP 0xb8000)) 0x500000 0x501000 →
       ∃ e, translate 3 (snd s') 0x5000 v = Some (O, e) ∧ mapped_to Size4KB flags_all p e) ∧
    (∀ x, virt_ok x → (∀ y, 0x500000 ≤ y < 0x501000 → y / 0x1000 ≠ x / 0x1000) →
       translate 3 (snd s') 0x5000 x = translate 3 demo_mapped 0x5000 x).
Proof.
  apply (insert_mapping_at_set_spec PhysMapOffset phys_map_offset_ok demo_mapped_world demo_store
    (range_frames 0x10000 4) demo_pmm 0x500000 1 (mkArc 1 (mkMapping 0x1000 (MMAP 0xb8000))) flags_all);
    [exact demo_space|reflexivity|by apply (demo_mapping_ok 1)|exact demo_ordered|lia|done|cbn; lia|reflexivity| |vm_compute; lia].
  intros v Hv. cbn in Hv.
  assert (E : v / 0x1000 = 0x500000 / 0x1000) by (symmetry; apply (Z.div_unique v 0x1000 0x500 (v - 0x500000)); lia).
  split; [|exact (demo_open v)]. rewrite (translate_page 3 _ _ v 0x500000 E). vm_compute. reflexivity.
Defined.
