(* ===== verification/OffsetMap.v ===== *)
(** * The boot-time maps and the memory map iterators

    [kernel/src/paging/offset_map.rs] and [kernel/src/memory.rs]: the level-3
    tables of the offset map and of the kernel image, the frame buffer, and the
    iterators over UEFI memory descriptors. *)
From S2P Require Import Prelude Page PhysMem AllocIface PageAlloc PageTable PageMapper.

(** ** [memory.rs] *)

(** The loop of [get_memory_size_pages]. *)
Fixpoint memory_size_loop (memory_size : Z) (mmap : list MemoryDescriptor) : outcome Z :=
  match mmap with
  | [] => Done memory_size
  | md :: mmap =>
      memory_size ← add_u64 memory_size (page_count md);
      memory_size_loop memory_size mmap
  end.

Definition get_memory_size_pages (mmap : list MemoryDescriptor) : outcome Z := memory_size_loop 0 mmap.

(** [MemoryMapIter]: [buffer] is the address of the first descriptor. *)
Record MemoryMapIter := mkMMI { mmi_buffer : Z; mmi_entry_size : Z; mmi_index : Z; mmi_len : Z }.

Definition MemoryMapIter_new (buffer entry_size len : Z) : MemoryMapIter := mkMMI buffer entry_size 0 len.

Definition MemoryMapIter_next (i : MemoryMapIter) : outcome (option Z * MemoryMapIter) :=
  if mmi_index i <? mmi_len i then
    o ← mul_u64 (mmi_entry_size i) (mmi_index i);
    index ← add_u64 (mmi_index i) 1;
    Done (Some (mmi_buffer i + o), mkMMI (mmi_buffer i) (mmi_entry_size i) index (mmi_len i))
  else Done (None, i).

Definition MemoryMapIter_len (i : MemoryMapIter) : outcome Z := sub_u64 (mmi_len i) (mmi_index i).

(** [MemoryDescriptorPageIter]. *)
Record MemoryDescriptorPageIter := mkMDPI { md_descriptor : MemoryDescriptor; md_index : Z }.

Definition MemoryDescriptorPageIter_from (d : MemoryDescriptor) : MemoryDescriptorPageIter := mkMDPI d 0.

Definition MemoryDescriptorPageIter_next (i : MemoryDescriptorPageIter)
  : outcome (option (Page Size4KB) * MemoryDescriptorPageIter) :=
  let desc := md_descriptor i in
  if md_index i <? page_count desc then
    let res := md_index i in
    index ← add_u64 (md_index i) 1;
    bytes ← mul_u64 res 0x1000;
    a ← add_u64 (phys_start desc) bytes;
    page ← Page_new Size4KB a;
    Done (Some page, mkMDPI desc index)
  else Done (None, i).

Definition MemoryDescriptorPageIter_len (i : MemoryDescriptorPageIter) : outcome Z :=
  sub_u64 (page_count (md_descriptor i)) (md_index i).

(** What a [for] loop over the iterator sees. *)
Fixpoint MemoryDescriptorPageIter_collect (fuel : nat) (i : MemoryDescriptorPageIter)
  : outcome (list (Page Size4KB)) :=
  match fuel with
  | O => OutOfFuel
  | S fuel =>
      '(o, i) ← MemoryDescriptorPageIter_next i;
      match o with
      | None => Done []
      | Some p => ps ← MemoryDescriptorPageIter_collect fuel i; Done (p :: ps)
      end
  end.

(** ** [offset_map.rs] *)
Section offset_map.
Context {A : Type} `{PageAllocator A} (off : Z).

(** [mapper.map(page + PhysMapOffset -> page)] for the pages of one range; a
    [PageTable<TableLevel3>] is [3 - level_of P] levels above the pages. *)
Fixpoint map_offset_pages (P : PageSize) (s : A * PMem) (t : Z) (pages : list (Page P)) : outcome (A * PMem) :=
  match pages with
  | [] => Done s
  | page :: pages =>
      v ← add_u64 (get_address page) PhysMapOffset;
      vp ← Page_new P v;
      '(r, s) ← Mapper_map off P (3 - level_of P) s t vp page flags_writeable;
      match r with
      | Err _ => Panic PUnwrap
      | Ok _ => map_offset_pages P s t pages
      end
  end.

Definition map_offset_range (P : PageSize) (s : A * PMem) (t : Z) (r : PageRange P) : outcome (A * PMem) :=
  pages ← PageRange_collect (S (Z.to_nat (pr_count r))) r;
  map_offset_pages P s t pages.

(** The assertion on a descriptor. *)
Definition offset_assert (r : MemoryDescriptor) : outcome unit :=
  b ← mul_u64 (page_count r) 1000;
  e ← add_u64 (phys_start r) b;
  w ← sub_u64 EndPhysMapOffset PhysMapOffset;
  assert_ (e <=? w).

Fixpoint create_offset_map (s : A * PMem) (t : Z) (mmap : list MemoryDescriptor) : outcome (A * PMem) :=
  match mmap with
  | [] => Done s
  | r :: mmap =>
      _ ← offset_assert r;
      bytes ← mul_u64 (page_count r) 0x1000;
      end_ ← add_u64 (phys_start r) bytes;
      '(s4kb, s2mb, gb, e2mb, e4kb) ← get_chunked_page_range (Z.max (phys_start r) 0x1000) end_;
      s ← map_offset_range Size4KB s t s4kb;
      s ← map_offset_range Size4KB s t e4kb;
      s ← map_offset_range Size2MB s t s2mb;
      s ← map_offset_range Size2MB s t e2mb;
      s ← map_offset_range Size1GB s t gb;
      create_offset_map s t mmap
  end.

(** [GopInfo]: the fields the maps use. *)
Record GopInfo := mkGop { gop_buffer : Z; gop_buffer_size : Z }.

Fixpoint map_gop_pages (s : A * PMem) (t : Z) (l : list Z) : outcome (A * PMem) :=
  match l with
  | [] => Done s
  | i :: l =>
      page ← Page_new Size4KB i;
      '(r, s) ← identity_map off Size4KB 3 s t page flags_writeable;
      match r with Err _ => Panic PUnwrap | Ok _ => map_gop_pages s t l end
  end.

Definition map_gop (s : A * PMem) (t : Z) (gop : GopInfo) : outcome (A * PMem) :=
  let fb_base := gop_buffer gop in
  fb_size ← add_u64 fb_base (gop_buffer_size gop);
  top ← add_u64 fb_size 0xFFF;
  map_gop_pages s t (step_range fb_base top).

(** The value the [OnceCell] of [get_gop_range] is initialised with. *)
Definition get_gop_range (w : (A * PMem) * ArcStore) (gop : GopInfo)
  : outcome ((Z * nat) * ((A * PMem) * ArcStore)) :=
  let fb_base := Z.land (gop_buffer gop) (not_u64 0xFFF) in
  a ← add_u64 fb_base (gop_buffer_size gop);
  b ← add_u64 a 0xFFF;
  let fb_top := Z.land b (not_u64 0xFFF) in
  sz ← sub_u64 fb_top fb_base;
  '(id, w) ← new_mmap w fb_base sz;
  Done ((fb_base, id), w).

Fixpoint map_kernel_pages (s : A * PMem) (t base : Z) (l : list Z) : outcome (A * PMem) :=
  match l with
  | [] => Done s
  | i :: l =>
      v ← add_u64 KernelStart i;
      vp ← Page_new Size4KB v;
      p ← add_u64 base i;
      pp ← Page_new Size4KB p;
      '(r, s) ← Mapper_map off Size4KB 2 s t vp pp flags_writeable;
      match r with Err _ => Panic PUnwrap | Ok _ => map_kernel_pages s t base l end
  end.

(** [kern_base] is what [kernel_memory_loc] returns. *)
Definition create_kernel_map (s : A * PMem) (t kernel_start kernel_pages kern_base : Z) : outcome (A * PMem) :=
  _ ← assert_ (kern_base =? KernelStart);
  top ← mul_u64 kernel_pages 0x1000;
  map_kernel_pages s t kernel_start (step_range 0 top).
End offset_map.

(** ** Theorems *)

(** The iterator yields the pages of the descriptor, in order. *)
Lemma MemoryDescriptorPageIter_collect_ok n : ∀ d i,
  0 ≤ i → Z.to_nat (page_count d - i) = n → 0 < phys_start d → phys_start d mod 0x1000 = 0 →
  phys_start d + page_count d * 0x1000 ≤ 2 ^ 47 →
  MemoryDescriptorPageIter_collect (S n) (mkMDPI d i) =
    Done (mkPage <$> range_frames (phys_start d + i * 0x1000) (page_count d - i)).
Proof.
  induction n as [|n IH]; intros d i Hi Hn Hs Hm Ht; remember (S n) as k eqn:Ek || idtac;
    cbn [MemoryDescriptorPageIter_collect]; unfold MemoryDescriptorPageIter_next; cbn [md_index md_descriptor].
  - destruct (Z.ltb_spec i (page_count d)); [lia|]. cbn [mbind outcome_bind]. by rewrite range_frames_nil by lia.
  - destruct (Z.ltb_spec i (page_count d)); [|lia].
    unfold add_u64, mul_u64. rewrite (chk_ok _ (i + 1)), (chk_ok _ (i * 0x1000)) by (unfold u64_lim; lia).
    rewrite !bind_ret. rewrite (chk_ok _ (phys_start d + i * 0x1000)) by (unfold u64_lim; lia). rewrite bind_ret.
    rewrite Page_new_ok by (try lia; cbn; by rewrite Z.mod_add). rewrite !bind_ret. cbv beta iota. subst k.
    rewrite IH by lia. cbn [mbind outcome_bind].
    replace (page_count d - i) with (1 + (page_count d - (i + 1))) by lia.
    rewrite range_frames_app, range_frames_one by lia. cbn [fmap list_fmap app]. do 4 f_equal. lia.
Qed.

(** Iterating a descriptor's pages terminates after one round per page and
    yields exactly its frames in ascending order. *)
Theorem descriptor_pages_spec d :
  0 ≤ page_count d → 0 < phys_start d → phys_start d mod 0x1000 = 0 →
  phys_start d + page_count d * 0x1000 ≤ 2 ^ 47 →
  MemoryDescriptorPageIter_collect (S (Z.to_nat (page_count d))) (MemoryDescriptorPageIter_from d) =
    Done (mkPage <$> range_frames (phys_start d) (page_count d)).
Proof.
  intros. unfold MemoryDescriptorPageIter_from.
  rewrite MemoryDescriptorPageIter_collect_ok by lia. do 3 f_equal; lia.
Qed.

Lemma descriptor_pages_spec_witness :
  MemoryDescriptorPageIter_collect 4 (MemoryDescriptorPageIter_from (mkMD true 0x3000 3)) =
    Done (mkPage <$> [0x3000; 0x4000; 0x5000]).
Proof. apply (descriptor_pages_spec (mkMD true 0x3000 3)); cbn; lia || done. Defined.

(** The assertion that a descriptor fits the offset window multiplies the
    page count by 1000 instead of 0x1000: every region that starts at 0 and has
    between 2^32 and 17 * 10^9 pages is accepted although it ends beyond the
    16 TiB window. *)
Theorem offset_assert_too_weak r :
  phys_start r = 0 → 2 ^ 32 < page_count r ≤ 17 * 10 ^ 9 →
  offset_assert r = Done tt ∧ EndPhysMapOffset - PhysMapOffset < phys_start r + page_count r * 0x1000.
Proof.
  intros Hs Hp. unfold offset_assert. rewrite Hs.
  unfold mul_u64, add_u64, sub_u64. rewrite (chk_ok _ (page_count r * 1000)) by (unfold u64_lim; lia).
  rewrite bind_ret, (chk_ok _ (0 + page_count r * 1000)), bind_ret by (unfold u64_lim; lia).
  rewrite chk_ok, bind_ret by (unfold u64_lim, EndPhysMapOffset, PhysMapOffset; lia).
  split; [|unfold EndPhysMapOffset, PhysMapOffset; lia].
  apply assert_Done. apply Z.leb_le. unfold EndPhysMapOffset, PhysMapOffset. lia.
Qed.

Lemma offset_assert_too_weak_witness :
  offset_assert (mkMD true 0 (2 ^ 33)) = Done tt ∧ EndPhysMapOffset - PhysMapOffset < 0 + 2 ^ 33 * 0x1000.
Proof. apply (offset_assert_too_weak (mkMD true 0 (2 ^ 33))); [done|cbn; lia]. Defined.
