(* ===== verification/Sched.v ===== *)
(** * Threads and the run queue

    [kernel/src/scheduling/taskmanager.rs] (the global run queue) and the
    scheduling half of [kernel/src/scheduling/process.rs].  An [Arc<Thread>] is
    a thread number; the queue is the source's intrusive singly linked list, its
    links stored in the threads.  The list is refined to a FIFO without
    duplicates, and the interleavings of cores, wakers and the queue are a step
    relation whose invariant shows that a thread is never in two places. *)
From S2P Require Import Prelude.

Inductive ThreadState := Zombie | Runnable | Sleeping.

#[export] Instance ThreadState_eq_dec : EqDecision ThreadState.
Proof. solve_decision. Defined.

Record SavedTaskState := mkSaved { sp : Z; ip : Z }.

Record ThreadSched := mkSched {
  state : ThreadState;
  task_state : option SavedTaskState;
  kstack_top : Z;
  in_syscall : bool;
  killed : bool;
}.

(** [Thread], with its [ThreadSchedGlobalData] ([queued], [next]). *)
Record Thread := mkThread {
  t_process : nat;
  tid : Z;
  queued : bool;
  next : option nat;
  sched : ThreadSched;
}.

(** The threads and [GlobalSchedData]. *)
Record SchedData := mkSD {
  threads : nat → Thread;
  queue_head : option nat;
  queue_tail : option nat;
}.

Definition set_thread (s : SchedData) (t : nat) (x : Thread) : SchedData :=
  mkSD (<[t := x]> (threads s)) (queue_head s) (queue_tail s).
Definition set_head (s : SchedData) (h : option nat) : SchedData := mkSD (threads s) h (queue_tail s).
Definition set_tail (s : SchedData) (h : option nat) : SchedData := mkSD (threads s) (queue_head s) h.

Definition with_queued (x : Thread) (b : bool) : Thread := mkThread (t_process x) (tid x) b (next x) (sched x).
Definition with_next (x : Thread) (n : option nat) : Thread := mkThread (t_process x) (tid x) (queued x) n (sched x).
Definition with_sched (x : Thread) (c : ThreadSched) : Thread := mkThread (t_process x) (tid x) (queued x) (next x) c.

Definition with_state (c : ThreadSched) (st : ThreadState) : ThreadSched :=
  mkSched st (task_state c) (kstack_top c) (in_syscall c) (killed c).
Definition with_killed (c : ThreadSched) (b : bool) : ThreadSched :=
  mkSched (state c) (task_state c) (kstack_top c) (in_syscall c) b.
Definition with_in_syscall (c : ThreadSched) (b : bool) : ThreadSched :=
  mkSched (state c) (task_state c) (kstack_top c) b (killed c).
Definition with_task_state (c : ThreadSched) (ts : option SavedTaskState) : ThreadSched :=
  mkSched (state c) ts (kstack_top c) (in_syscall c) (killed c).

(** [ThreadSched::save]. *)
Definition save (c : ThreadSched) (ts : SavedTaskState) : outcome ThreadSched :=
  _ ← assert_ (match task_state c with None => true | Some _ => false end);
  Done (with_task_state c (Some ts)).

(** [GlobalSchedData::pop_thread]. *)
Definition pop_thread (s : SchedData) : option nat * SchedData :=
  match queue_head s with
  | None => (None, s)
  | Some head =>
      let s := set_head s None in
      let s := set_thread s head (with_queued (threads s head) false) in
      let nxt := next (threads s head) in
      let s := set_thread s head (with_next (threads s head) None) in
      let s := match nxt with
               | Some _ => set_head s nxt
               | None => set_tail s None
               end in
      (Some head, s)
  end.

(** [GlobalSchedData::queue_thread]. *)
Definition queue_thread (s : SchedData) (thread : nat) : outcome SchedData :=
  if queued (threads s thread) then Done s
  else
    let s := set_thread s thread (with_queued (threads s thread) true) in
    match queue_head s with
    | None =>
        _ ← assert_ (match queue_tail s with None => true | Some _ => false end);
        Done (set_tail (set_head s (Some thread)) (Some thread))
    | Some _ =>
        s ← (match queue_tail s with
             | Some tail =>
                 _ ← assert_ (match next (threads s tail) with None => true | Some _ => false end);
                 Done (set_thread (set_tail s None) tail (with_next (threads s tail) (Some thread)))
             | None => Done s
             end);
        Done (set_tail s (Some thread))
    end.

Definition set_state (s : SchedData) (t : nat) (st : ThreadState) : SchedData :=
  set_thread s t (with_sched (threads s t) (with_state (sched (threads s t)) st)).

(** [Thread::wake]. *)
Definition wake (s : SchedData) (t : nat) : outcome SchedData :=
  match state (sched (threads s t)) with
  | Zombie | Runnable => Done s
  | Sleeping => queue_thread (set_state s t Runnable) t
  end.

(** ** The list in the links *)

(** [linked f l]: [f] gives the successor of each element of [l]. *)
Fixpoint linked (f : nat → option nat) (l : list nat) : Prop :=
  match l with
  | [] => True
  | x :: l => f x = head l ∧ linked f l
  end.

Record q_repr (s : SchedData) (l : list nat) : Prop := {
  q_head : queue_head s = head l;
  q_tail : queue_tail s = last l;
  q_links : linked (λ t, next (threads s t)) l;
  q_nodup : NoDup l;
  q_queued : ∀ t, queued (threads s t) = true ↔ t ∈ l;
  q_unlinked : ∀ t, t ∉ l → next (threads s t) = None;
}.

Lemma threads_set_thread s t x t' :
  threads (set_thread s t x) t' = if decide (t = t') then x else threads s t'.
Proof. cbn. destruct (decide (t = t')); subst; [apply fn_lookup_insert|by apply fn_lookup_insert_ne]. Qed.

Lemma linked_ext f g l : (∀ t, t ∈ l → f t = g t) → linked f l → linked g l.
Proof.
  induction l as [|x l IH]; intros E; [done|]. intros [Hx Hl]. split.
  - rewrite <- E by left. done.
  - apply IH; [|done]. intros t Ht. apply E. by right.
Qed.

(** Linking a new last element behind the old one. *)
Lemma linked_snoc f l x y :
  linked f (l ++ [x]) → NoDup (l ++ [x]) → f y = None → y ≠ x → y ∉ l →
  linked (λ t, if decide (x = t) then Some y else f t) ((l ++ [x]) ++ [y]).
Proof.
  induction l as [|z l IH]; cbn [app linked]; intros [Hz Hl] Hnd Hy Hyx Hyl.
  - split; [by rewrite decide_True|]. split; [by rewrite decide_False|done].
  - apply NoDup_cons in Hnd as [Hn Hnd].
    assert (x ≠ z) by (intros ->; apply Hn, elem_of_app; right; left).
    split.
    + rewrite decide_False by done. rewrite Hz. by destruct l.
    + apply IH; try done. intros ?. apply Hyl. by right.
Qed.

Lemma q_repr_empty s l : q_repr s l → queue_head s = None ↔ l = [].
Proof. intros [Hh _ _ _ _ _]. rewrite Hh. by destruct l. Qed.

(** The scheduling fields of the threads are the same. *)
Definition same_sched (s s' : SchedData) : Prop :=
  ∀ t, sched (threads s' t) = sched (threads s t) ∧ t_process (threads s' t) = t_process (threads s t) ∧
       tid (threads s' t) = tid (threads s t).

Lemma pop_thread_nil s : q_repr s [] → pop_thread s = (None, s).
Proof. intros Hq. unfold pop_thread. by rewrite (q_head _ _ Hq). Qed.

Lemma pop_thread_cons s x l :
  q_repr s (x :: l) → ∃ s', pop_thread s = (Some x, s') ∧ q_repr s' l ∧ same_sched s s'.
Proof.
  intros [Hh Ht [Hx Hl] Hnd Hq Hu]. unfold pop_thread. rewrite Hh. cbn [head].
  eexists. split; [reflexivity|]. apply NoDup_cons in Hnd as [Hxl Hnd].
  set (s1 := set_thread _ x _). set (s2 := set_thread s1 x _).
  assert (E : ∀ t, threads s2 t = if decide (x = t) then with_next (with_queued (threads s x) false) None else threads s t).
  { intros t. unfold s2, s1. rewrite !threads_set_thread. by repeat case_decide. }
  assert (En : next (threads s1 x) = head l)
    by (unfold s1; rewrite threads_set_thread, decide_True by done; exact Hx).
  rewrite En.
  assert (Eth : ∀ o : option nat, threads (match o with Some _ => set_head s2 (head l) | None => set_tail s2 None end) = threads s2)
    by by intros [].
  split.
  - split.
    + by destruct l.
    + destruct l as [|y l]; [done|]. cbn [head]. cbn. by rewrite Ht.
    + rewrite Eth. eapply linked_ext; [|exact Hl]. intros t Hin. cbn beta. rewrite E.
      rewrite decide_False; [done|]. by intros ->.
    + done.
    + intros t. rewrite Eth, E. case_decide as Hxt.
      * subst t. cbn. split; [done|]. intros Hin. done.
      * rewrite Hq, elem_of_cons. naive_solver.
    + intros t Hin. rewrite Eth, E. case_decide as Hxt; [done|]. apply Hu.
      rewrite not_elem_of_cons. naive_solver.
  - intros t. rewrite Eth, E. case_decide; [by subst|done].
Qed.

Lemma queue_thread_ok s l t :
  q_repr s l →
  ∃ s', queue_thread s t = Done s' ∧ q_repr s' (if decide (t ∈ l) then l else l ++ [t]) ∧ same_sched s s'.
Proof.
  intros [Hh Ht Hl Hnd Hq Hu]. unfold queue_thread. case_decide as Hin.
  { rewrite (proj2 (Hq t) Hin). exists s. split; [done|]. split; [by split|done]. }
  assert (Eq : queued (threads s t) = false) by (apply not_true_is_false; by rewrite Hq).
  rewrite Eq. set (s1 := set_thread s t _).
  assert (E1 : ∀ x, threads s1 x = if decide (t = x) then with_queued (threads s t) true else threads s x)
    by (intros; unfold s1; by rewrite threads_set_thread).
  change (queue_head s1) with (queue_head s). change (queue_tail s1) with (queue_tail s).
  rewrite Hh, Ht. destruct l as [|y l' _] using rev_ind.
  - cbn [head last assert_ mbind outcome_bind]. eexists. split; [reflexivity|]. split.
    + split; cbn [queue_head queue_tail set_head set_tail threads app head last]; try done.
      * split; [|done]. rewrite E1, decide_True by done. cbn. by apply Hu.
      * apply NoDup_singleton.
      * intros x. rewrite E1, list_elem_of_singleton. case_decide; [by subst|]. rewrite Hq. set_solver.
      * intros x Hx. rewrite E1. rewrite list_elem_of_singleton in Hx. rewrite decide_False by done.
        apply Hu. set_solver.
    + intros x. cbn [threads set_head set_tail]. rewrite E1. case_decide; by subst.
  - rewrite last_snoc. assert (Hhd : ∃ z, head (l' ++ [y]) = Some z) by (destruct l'; eexists; reflexivity).
    destruct Hhd as [z ->].
    assert (Hty : t ≠ y) by (intros ->; apply Hin, elem_of_app; right; left).
    assert (Htl' : t ∉ l') by (intros ?; apply Hin, elem_of_app; by left).
    assert (Eny : next (threads s y) = None).
    { clear -Hl Hnd. induction l' as [|x l' IH]; cbn in Hl; [by destruct Hl|]. destruct Hl as [_ Hl].
      apply NoDup_cons in Hnd as [_ Hnd]. by apply IH. }
    rewrite (E1 y), decide_False, Eny by done. cbn [assert_ mbind outcome_bind].
    eexists. split; [reflexivity|]. set (s2 := set_thread _ y _).
    assert (E2 : ∀ x, threads (set_tail s2 (Some t)) x =
       if decide (y = x) then with_next (threads s y) (Some t)
       else if decide (t = x) then with_queued (threads s t) true else threads s x).
    { intros x. change (threads (set_tail s2 (Some t)) x) with (threads s2 x). unfold s2.
      rewrite threads_set_thread. case_decide; [done|]. apply E1. }
    split.
    + split.
      * change (queue_head (set_tail s2 (Some t))) with (queue_head s). rewrite Hh. by destruct l'.
      * by rewrite last_snoc.
      * eapply linked_ext; [|apply (linked_snoc (λ x, next (threads s x)) l' y t); try done; by apply Hu].
        intros x _. cbn beta. rewrite E2. repeat case_decide; subst; done.
      * apply NoDup_app. split_and!; [done| |apply NoDup_singleton].
        intros x Hx ->%list_elem_of_singleton. done.
      * intros x. rewrite E2, elem_of_app, list_elem_of_singleton. repeat case_decide; subst; cbn.
        -- rewrite Hq. naive_solver.
        -- naive_solver.
        -- rewrite Hq. naive_solver.
      * intros x Hx. rewrite elem_of_app, list_elem_of_singleton in Hx. rewrite E2.
        rewrite !decide_False; [apply Hu; naive_solver|naive_solver|].
        intros ->. apply Hx. left. apply elem_of_app. right. left.
    + intros x. rewrite E2. repeat case_decide; by subst.
Qed.

(** ** The run queue is a FIFO without duplicates *)
Inductive qop := OpQueue (t : nat) | OpPop.

(** A sequence of operations on the linked list, with the threads popped. *)
Fixpoint run_ops (s : SchedData) (ops : list qop) : outcome (list (option nat) * SchedData) :=
  match ops with
  | [] => Done ([], s)
  | OpQueue t :: ops => s ← queue_thread s t; run_ops s ops
  | OpPop :: ops =>
      let '(o, s) := pop_thread s in
      '(os, s) ← run_ops s ops;
      Done (o :: os, s)
  end.

(** The specification: a list; queueing a member does nothing. *)
Fixpoint fifo_ops (l : list nat) (ops : list qop) : list (option nat) * list nat :=
  match ops with
  | [] => ([], l)
  | OpQueue t :: ops => fifo_ops (if decide (t ∈ l) then l else l ++ [t]) ops
  | OpPop :: ops => let '(os, l') := fifo_ops (tail l) ops in (head l :: os, l')
  end.

(** C15: whatever threads are queued and popped, the intrusive list behaves as a
    FIFO in which a queued thread is not queued again: the same threads are
    popped in the same order, no assertion of the code fails, and the links, the
    head, the tail and the [queued] flags represent the remaining FIFO. *)
Theorem run_queue_refines_fifo s l ops :
  q_repr s l →
  ∃ s', run_ops s ops = Done (fst (fifo_ops l ops), s') ∧ q_repr s' (snd (fifo_ops l ops)).
Proof.
  revert s l. induction ops as [|[t|] ops IH]; intros s l Hq; cbn [run_ops fifo_ops].
  - eauto.
  - destruct (queue_thread_ok s l t Hq) as (s1 & -> & Hq1 & _). cbn [mbind outcome_bind]. by apply IH.
  - destruct l as [|x l]; cbn [tail head].
    + rewrite (pop_thread_nil s Hq). destruct (IH s [] Hq) as (s' & -> & Hq').
      destruct (fifo_ops [] ops). eauto.
    + destruct (pop_thread_cons s x l Hq) as (s1 & -> & Hq1 & _).
      destruct (IH s1 l Hq1) as (s' & -> & Hq'). destruct (fifo_ops l ops). eauto.
Qed.

(** ** Waking *)
Lemma set_state_q s l t st : q_repr s l → q_repr (set_state s t st) l.
Proof.
  intros [Hh Ht Hl Hnd Hq Hu].
  assert (E : ∀ x, next (threads (set_state s t st) x) = next (threads s x) ∧
                   queued (threads (set_state s t st) x) = queued (threads s x)).
  { intros x. unfold set_state. rewrite threads_set_thread. case_decide; by subst. }
  split; try done.
  - eapply linked_ext; [|exact Hl]. intros x _. symmetry. apply E.
  - intros x. rewrite (proj2 (E x)). apply Hq.
  - intros x Hx. rewrite (proj1 (E x)). by apply Hu.
Qed.

Lemma state_set_state s t st x :
  state (sched (threads (set_state s t st) x)) = if decide (t = x) then st else state (sched (threads s x)).
Proof. unfold set_state. rewrite threads_set_thread. by case_decide. Qed.

Lemma wake_ok s l t :
  q_repr s l → ∃ s', wake s t = Done s' ∧
    (state (sched (threads s t)) = Sleeping →
       q_repr s' (if decide (t ∈ l) then l else l ++ [t]) ∧ state (sched (threads s' t)) = Runnable) ∧
    (state (sched (threads s t)) ≠ Sleeping → s' = s) ∧
    (∀ x, x ≠ t → state (sched (threads s' x)) = state (sched (threads s x))).
Proof.
  intros Hq. unfold wake. destruct (state (sched (threads s t))) eqn:Es; [by exists s..|].
  destruct (queue_thread_ok (set_state s t Runnable) l t) as (s' & -> & Hq' & Hsame); [by apply set_state_q|].
  exists s'. split_and!; [done| |done|].
  - intros _. split; [done|]. rewrite (proj1 (Hsame t)), state_set_state. by rewrite decide_True.
  - intros x Hx. rewrite (proj1 (Hsame x)), state_set_state, decide_False; done.
Qed.

(** ** Cores, wakers and the queue

    What a core is doing, as far as the loop of [scheduler] is concerned: the
    guard of the thread's [sched] lock is released before the thread is queued
    again, and [wake] releases it before it takes the scheduler's lock, so the
    queueing is a step of its own in both. *)
Inductive core :=
  | CIdle
  | CPopped (t : nat)    (* popped, [sched] not yet examined *)
  | CRunning (t : nat)   (* inside [sched_run_tick] *)
  | CRequeue (t : nat).  (* about to call [queue_thread] *)

Definition core_thread (c : core) : option nat :=
  match c with CIdle => None | CPopped t | CRunning t | CRequeue t => Some t end.

Record sys := mkSys {
  sd : SchedData;
  cores : list core;
  wakers : list nat;   (* threads made runnable whose waker has yet to queue them *)
  fresh_thread : nat;  (* the next [Arc<Thread>] *)
}.

Definition with_sd (y : sys) (s : SchedData) : sys := mkSys s (cores y) (wakers y) (fresh_thread y).
Definition with_core (y : sys) (c : nat) (x : core) : sys :=
  mkSys (sd y) (<[c := x]> (cores y)) (wakers y) (fresh_thread y).
Definition with_wakers (y : sys) (w : list nat) : sys := mkSys (sd y) (cores y) w (fresh_thread y).

Definition thread_sched (y : sys) (t : nat) : ThreadSched := sched (threads (sd y) t).

(** The test the loop makes on a popped thread. *)
Definition must_exit (c : ThreadSched) : bool := negb (in_syscall c) && killed c.

Inductive step : sys → sys → Prop :=
  | step_pop y c t s' :
      cores y !! c = Some CIdle → pop_thread (sd y) = (Some t, s') →
      step y (with_core (with_sd y s') c (CPopped t))
  | step_exit y c t :
      cores y !! c = Some (CPopped t) → must_exit (thread_sched y t) = true →
      step y (with_core (with_sd y (set_state (sd y) t Zombie)) c CIdle)
  | step_run y c t :
      cores y !! c = Some (CPopped t) → must_exit (thread_sched y t) = false →
      state (thread_sched y t) = Runnable →
      step y (with_core y c (CRunning t))
  | step_yield y c t :
      cores y !! c = Some (CRunning t) → step y (with_core y c (CRequeue t))
  | step_sleep y c t :
      cores y !! c = Some (CRunning t) →
      step y (with_core (with_sd y (set_state (sd y) t Sleeping)) c CIdle)
  | step_requeue y c t s' :
      cores y !! c = Some (CRequeue t) → queue_thread (sd y) t = Done s' →
      step y (with_core (with_sd y s') c CIdle)
  | step_wake y t :
      state (thread_sched y t) = Sleeping →
      step y (with_wakers (with_sd y (set_state (sd y) t Runnable)) (t :: wakers y))
  | step_wake_queue y t w1 w2 s' :
      wakers y = w1 ++ t :: w2 → queue_thread (sd y) t = Done s' →
      step y (with_wakers (with_sd y s') (w1 ++ w2))
  | step_flags y t b1 b2 :
      step y (with_sd y (set_thread (sd y) t
        (with_sched (threads (sd y) t) (with_in_syscall (with_killed (thread_sched y t) b1) b2))))
  | step_spawn y p tid0 ks :
      let t := fresh_thread y in
      let th := mkThread p tid0 false None (mkSched Runnable (Some ks) 0 false false) in
      step y (mkSys (set_thread (sd y) t th) (cores y) (t :: wakers y) (S t)).

(** Where the runnable threads are. *)
Definition places (y : sys) (l : list nat) : list nat :=
  l ++ wakers y ++ omap core_thread (cores y).

Record sys_inv (y : sys) (l : list nat) : Prop := {
  inv_q : q_repr (sd y) l;
  inv_nodup : NoDup (places y l);
  inv_runnable : ∀ t, state (thread_sched y t) = Runnable ↔ t ∈ places y l;
  inv_fresh : ∀ t, (fresh_thread y ≤ t)%nat → state (thread_sched y t) = Zombie;
}.

Definition sys_init (n : nat) : sys :=
  mkSys (mkSD (λ _, mkThread 0 0 false None (mkSched Zombie None 0 false false)) None None)
    (replicate n CIdle) [] 0.

Inductive reachable (n : nat) : sys → Prop :=
  | reach_init : reachable n (sys_init n)
  | reach_step y y' : reachable n y → step y y' → reachable n y'.

(** Replacing what a core does. *)
Lemma omap_core_insert cs c x y :
  cs !! c = Some x →
  omap core_thread (<[c := y]> cs) ≡ₚ
    option_list (core_thread y) ++ omap core_thread (take c cs ++ drop (S c) cs) ∧
  omap core_thread cs ≡ₚ option_list (core_thread x) ++ omap core_thread (take c cs ++ drop (S c) cs).
Proof.
  intros Hx. pose proof (lookup_lt_Some _ _ _ Hx).
  assert (Hgen : ∀ z, omap core_thread (take c cs ++ z :: drop (S c) cs) ≡ₚ
    option_list (core_thread z) ++ omap core_thread (take c cs ++ drop (S c) cs)).
  { intros z. rewrite !omap_app. cbn. destruct (core_thread z); cbn; solve_Permutation. }
  split; [rewrite insert_take_drop by done; apply Hgen|].
  rewrite <- (take_drop_middle cs c x Hx) at 1. apply Hgen.
Qed.

(** A step that permutes the places and keeps the states. *)
Lemma inv_perm y l y' l' :
  sys_inv y l → q_repr (sd y') l' → places y' l' ≡ₚ places y l → fresh_thread y' = fresh_thread y →
  (∀ t, state (thread_sched y' t) = state (thread_sched y t)) → sys_inv y' l'.
Proof.
  intros [Hq Hn Hr Hf] Hq' Hp Hfr Hs. split; [done|by rewrite Hp| |].
  - intros t. by rewrite Hs, Hp.
  - intros t. rewrite Hfr, Hs. apply Hf.
Qed.

Lemma inv_place_lt y l t : sys_inv y l → t ∈ places y l → (t < fresh_thread y)%nat.
Proof.
  intros [_ _ Hr Hf] Ht%Hr. destruct (decide (t < fresh_thread y)%nat); [done|].
  rewrite Hf in Ht by lia. done.
Qed.

(** A step that takes [t] out of the places and makes it not runnable. *)
Lemma inv_remove y l y' t st :
  sys_inv y l → places y l ≡ₚ t :: places y' l → fresh_thread y' = fresh_thread y →
  sd y' = set_state (sd y) t st → st ≠ Runnable → sys_inv y' l.
Proof.
  intros Hinv Hp Hfr Hs Hst. pose proof (inv_place_lt y l t Hinv) as Hlt. rewrite Hp in Hlt.
  destruct Hinv as [Hq Hn Hr Hf]. rewrite Hp in Hn. apply NoDup_cons in Hn as [Ht Hn].
  assert (E : ∀ x, state (thread_sched y' x) = if decide (t = x) then st else state (thread_sched y x))
    by (intros; unfold thread_sched; by rewrite Hs, state_set_state).
  split; [rewrite Hs; by apply set_state_q|done| |].
  - intros x. rewrite E. case_decide as Ex; [subst x; naive_solver|].
    rewrite Hr, Hp, elem_of_cons. naive_solver.
  - intros x Hx. rewrite E, decide_False; [apply Hf; lia|]. intros ->. specialize (Hlt (list_elem_of_here _ _)). lia.
Qed.

(** A step that makes a thread runnable puts it in one place. *)
Lemma inv_add y l y' t :
  sys_inv y l → places y' l ≡ₚ t :: places y l → q_repr (sd y') l →
  state (thread_sched y t) ≠ Runnable → (fresh_thread y ≤ fresh_thread y')%nat → (t < fresh_thread y')%nat →
  (∀ x, state (thread_sched y' x) = if decide (t = x) then Runnable else state (thread_sched y x)) →
  sys_inv y' l.
Proof.
  intros [Hq Hn Hr Hf] Hp Hq' Ht Hfr Htf Hst. split; [done| | |].
  - rewrite Hp. apply NoDup_cons. split; [|done]. by rewrite <- Hr.
  - intros x. rewrite Hst, Hp, elem_of_cons. case_decide; [naive_solver|]. rewrite Hr. naive_solver.
  - intros x Hx. rewrite Hst, decide_False by lia. apply Hf. lia.
Qed.

(** Replacing a core moves its thread. *)
Lemma places_core y l c x z :
  cores y !! c = Some x →
  ∃ rest, places y l ≡ₚ option_list (core_thread x) ++ rest ∧
          places (with_core y c z) l ≡ₚ option_list (core_thread z) ++ rest.
Proof.
  intros Hc. destruct (omap_core_insert (cores y) c x z Hc) as [H1 H2].
  exists (l ++ wakers y ++ omap core_thread (take c (cores y) ++ drop (S c) (cores y))).
  unfold places. cbn [with_core cores wakers]. rewrite H1, H2. split; solve_Permutation.
Qed.

Lemma places_sd y l s : places (with_sd y s) l = places y l.
Proof. done. Qed.

Lemma same_sched_state y s : same_sched (sd y) s → ∀ t, state (thread_sched (with_sd y s) t) = state (thread_sched y t).
Proof. intros Hs t. unfold thread_sched. cbn [with_sd sd]. by rewrite (proj1 (Hs t)). Qed.

(** Queueing a thread that is waiting to be queued moves it into the queue. *)
Lemma requeue_repr y l t s' rest :
  sys_inv y l → places y l ≡ₚ t :: l ++ rest → queue_thread (sd y) t = Done s' →
  q_repr s' (l ++ [t]) ∧ same_sched (sd y) s'.
Proof.
  intros [Hq Hn _ _] Hp Hqt. rewrite Hp in Hn. apply NoDup_cons in Hn as [Ht _].
  destruct (queue_thread_ok (sd y) l t Hq) as (s1 & E & Hq1 & Hs). rewrite Hqt in E. injection E as <-.
  rewrite decide_False in Hq1 by set_solver. done.
Qed.

Lemma set_thread_q s l t x :
  q_repr s l → queued x = queued (threads s t) → next x = next (threads s t) → q_repr (set_thread s t x) l.
Proof.
  intros [Hh Ht Hl Hnd Hq Hu] Eq En.
  assert (E : ∀ y, next (threads (set_thread s t x) y) = next (threads s y) ∧
                   queued (threads (set_thread s t x) y) = queued (threads s y))
    by (intros y; rewrite threads_set_thread; case_decide; by subst).
  split; try done.
  - eapply linked_ext; [|exact Hl]. intros y _. symmetry. apply E.
  - intros y. rewrite (proj2 (E y)). apply Hq.
  - intros y Hy. rewrite (proj1 (E y)). by apply Hu.
Qed.

Lemma step_pop_inv y l c t s' :
  sys_inv y l → cores y !! c = Some CIdle → pop_thread (sd y) = (Some t, s') →
  ∃ l', sys_inv (with_core (with_sd y s') c (CPopped t)) l'.
Proof.
  intros Hinv Hc Hpop. pose proof (inv_q _ _ Hinv) as Hq. destruct l as [|x l].
  { rewrite (pop_thread_nil _ Hq) in Hpop. done. }
  destruct (pop_thread_cons _ _ _ Hq) as (s1 & E & Hq1 & Hs). rewrite Hpop in E. injection E as <- <-.
  exists l. destruct (places_core y l c CIdle (CPopped t) Hc) as (rest & Hp1 & Hp2).
  eapply inv_perm; [exact Hinv|exact Hq1| |done|by apply same_sched_state].
  change (places (with_core (with_sd y s') c (CPopped t)) l) with (places (with_core y c (CPopped t)) l).
  rewrite Hp2. change (places y (t :: l)) with (t :: places y l). by rewrite Hp1.
Qed.

Lemma step_core_remove_inv y l c x t st :
  sys_inv y l → cores y !! c = Some x → core_thread x = Some t → st ≠ Runnable →
  sys_inv (with_core (with_sd y (set_state (sd y) t st)) c CIdle) l.
Proof.
  intros Hinv Hc Hx Hst. destruct (places_core y l c x CIdle Hc) as (rest & Hp1 & Hp2).
  eapply (inv_remove y l _ t st); [done| |done|done|done].
  change (places (with_core (with_sd y (set_state (sd y) t st)) c CIdle) l) with (places (with_core y c CIdle) l).
  by rewrite Hp1, Hp2, Hx.
Qed.

Lemma step_core_same_inv y l c x z :
  sys_inv y l → cores y !! c = Some x → core_thread x = core_thread z → sys_inv (with_core y c z) l.
Proof.
  intros Hinv Hc Hx. destruct (places_core y l c x z Hc) as (rest & Hp1 & Hp2).
  eapply inv_perm; [exact Hinv|apply Hinv| |done|done]. by rewrite Hp1, Hp2, Hx.
Qed.

Lemma step_requeue_inv y l c t s' :
  sys_inv y l → cores y !! c = Some (CRequeue t) → queue_thread (sd y) t = Done s' →
  sys_inv (with_core (with_sd y s') c CIdle) (l ++ [t]).
Proof.
  intros Hinv Hc Hqt. destruct (omap_core_insert (cores y) c _ CIdle Hc) as [H1 H2].
  set (rest := omap core_thread (take c (cores y) ++ drop (S c) (cores y))) in *.
  destruct (requeue_repr y l t s' (wakers y ++ rest) Hinv) as [Hq' Hs];
    [unfold places; rewrite H2; cbn; solve_Permutation|done|].
  eapply inv_perm; [exact Hinv|exact Hq'| |done|by apply same_sched_state].
  unfold places. cbn [with_core with_sd cores wakers]. rewrite H1, H2. cbn. solve_Permutation.
Qed.

Lemma step_wake_queue_inv y l t w1 w2 s' :
  sys_inv y l → wakers y = w1 ++ t :: w2 → queue_thread (sd y) t = Done s' →
  sys_inv (with_wakers (with_sd y s') (w1 ++ w2)) (l ++ [t]).
Proof.
  intros Hinv Hw Hqt.
  destruct (requeue_repr y l t s' (w1 ++ w2 ++ omap core_thread (cores y)) Hinv) as [Hq' Hs];
    [unfold places; rewrite Hw; solve_Permutation|done|].
  eapply inv_perm; [exact Hinv|exact Hq'| |done|by apply same_sched_state].
  unfold places. cbn [with_wakers with_sd cores wakers]. rewrite Hw. solve_Permutation.
Qed.

Lemma step_wake_inv y l t :
  sys_inv y l → state (thread_sched y t) = Sleeping →
  sys_inv (with_wakers (with_sd y (set_state (sd y) t Runnable)) (t :: wakers y)) l.
Proof.
  intros Hinv Hst. apply (inv_add y l _ t Hinv).
  - unfold places. cbn [with_wakers with_sd cores wakers]. solve_Permutation.
  - apply set_state_q, Hinv.
  - by rewrite Hst.
  - done.
  - cbn. destruct (decide (t < fresh_thread y)%nat); [done|].
    pose proof (inv_fresh _ _ Hinv t). rewrite Hst in *. naive_solver lia.
  - intros x. unfold thread_sched. cbn [with_wakers with_sd sd]. by rewrite state_set_state.
Qed.

Lemma step_spawn_inv y l p tid0 ks :
  sys_inv y l →
  let t := fresh_thread y in
  let th := mkThread p tid0 false None (mkSched Runnable (Some ks) 0 false false) in
  sys_inv (mkSys (set_thread (sd y) t th) (cores y) (t :: wakers y) (S t)) l.
Proof.
  intros Hinv t th. pose proof (inv_fresh _ _ Hinv t (Nat.le_refl _)) as Hz.
  assert (Hl : t ∉ l).
  { intros Hin. assert (state (thread_sched y t) = Runnable) by (apply Hinv, elem_of_app; by left). congruence. }
  pose proof (inv_q _ _ Hinv) as [_ _ _ _ Hqd Hu].
  apply (inv_add y l _ t Hinv).
  - unfold places. cbn [cores wakers]. solve_Permutation.
  - cbn [sd]. apply set_thread_q; [apply Hinv| |].
    + cbn. symmetry. apply not_true_is_false. by rewrite Hqd.
    + cbn. symmetry. by apply Hu.
  - by rewrite Hz.
  - cbn. lia.
  - cbn. lia.
  - intros x. unfold thread_sched. cbn [sd]. rewrite threads_set_thread. by case_decide.
Qed.

Lemma step_inv y y' l : sys_inv y l → step y y' → ∃ l', sys_inv y' l'.
Proof.
  intros Hinv Hstep. inversion Hstep; subst.
  - by eapply step_pop_inv.
  - eexists. by eapply step_core_remove_inv.
  - eexists. by eapply step_core_same_inv.
  - eexists. by eapply step_core_same_inv.
  - eexists. by eapply step_core_remove_inv.
  - eexists. by eapply step_requeue_inv.
  - eexists. by eapply step_wake_inv.
  - eexists. by eapply step_wake_queue_inv.
  - exists l. eapply inv_perm; [exact Hinv|apply set_thread_q; [apply Hinv|done|done]|done|done|].
    intros x. unfold thread_sched. cbn [with_sd sd]. rewrite threads_set_thread. case_decide; by subst.
  - exists l. by apply step_spawn_inv.
Qed.

Lemma init_inv n : sys_inv (sys_init n) [].
Proof.
  assert (E : omap core_thread (replicate n CIdle) = []) by (induction n; [done|exact IHn]).
  split; unfold places; cbn [sys_init sd cores wakers app]; rewrite ?E; cbn.
  - split; try done; [constructor|]. intros t. split; [done|by intros ?%elem_of_nil].
  - constructor.
  - intros t. split; [done|by intros ?%elem_of_nil].
  - done.
Qed.

(** C2: in every interleaving of any number of cores, wakers, sleeps, exits and
    spawns, the threads that are runnable are exactly those in the run queue, in
    the hands of one waker or on one core, each in one place only.  So no thread
    runs on two cores or is queued twice, no wake-up is lost, and the
    scheduler's assertion that a popped thread is runnable cannot fail. *)
Theorem threads_in_one_place n y :
  reachable n y →
  (∃ l, q_repr (sd y) l ∧ NoDup (l ++ wakers y ++ omap core_thread (cores y)) ∧
     ∀ t, state (thread_sched y t) = Runnable ↔ t ∈ l ++ wakers y ++ omap core_thread (cores y)) ∧
  (∀ c t, cores y !! c = Some (CPopped t) → state (thread_sched y t) = Runnable).
Proof.
  intros Hr. assert (Hinv : ∃ l, sys_inv y l).
  { induction Hr as [|y y' Hr [l IH] Hstep]; [exists []; apply init_inv|by eapply step_inv]. }
  destruct Hinv as [l [Hq Hn Hrun Hf]]. split; [eauto|].
  intros c t Hc. apply Hrun. unfold places. rewrite !elem_of_app. right. right.
  apply list_elem_of_omap. exists (CPopped t). split; [by eapply list_elem_of_lookup_2|done].
Qed.

Lemma run_queue_refines_fifo_witness :
  ∃ s', run_ops (sd (sys_init 1)) [OpQueue 3; OpQueue 5; OpQueue 3; OpPop; OpQueue 3; OpPop; OpPop; OpPop]
          = Done ([Some 3; Some 5; Some 3; None]%nat, s') ∧ q_repr s' [].
Proof.
  exact (run_queue_refines_fifo (sd (sys_init 1)) []
           [OpQueue 3; OpQueue 5; OpQueue 3; OpPop; OpQueue 3; OpPop; OpPop; OpPop] (inv_q _ _ (init_inv 1))).
Defined.

(** A thread is spawned, queued and popped by the only core. *)
Lemma threads_in_one_place_witness :
  ∃ y, cores y = [CPopped 0] ∧ state (thread_sched y 0) = Runnable.
Proof.
  set (y1 := mkSys (set_thread (sd (sys_init 1)) 0
    (mkThread 7 0 false None (mkSched Runnable (Some (mkSaved 0 0)) 0 false false))) [CIdle] [0%nat] 1).
  assert (H1 : reachable 1 y1)
    by exact (reach_step 1 _ _ (reach_init 1) (step_spawn (sys_init 1) 7 0 (mkSaved 0 0))).
  destruct (queue_thread_ok (sd y1) [] 0) as (s' & Hq & Hr & _).
  { apply set_thread_q; [apply (init_inv 1)|done|done]. }
  assert (H2 : reachable 1 (mkSys s' [CIdle] [] 1))
    by exact (reach_step 1 _ _ H1 (step_wake_queue y1 0 [] [] s' eq_refl Hq)).
  destruct (pop_thread_cons s' 0 [] Hr) as (s'' & Hp & _).
  assert (H3 : reachable 1 (mkSys s'' [CPopped 0] [] 1))
    by exact (reach_step 1 _ _ H2 (step_pop (mkSys s' [CIdle] [] 1) 0 0 s'' eq_refl Hp)).
  exists (mkSys s'' [CPopped 0] [] 1). split; [done|].
  by apply (proj2 (threads_in_one_place 1 _ H3) 0%nat).
Defined.
