(* ===== verification/Lock.v ===== *)
(** * Spin locks, held interrupts and the storage of a core

    [kernel/src/mutex.rs], [kernel/src/cpu_localstorage.rs] and
    [kernel/src/scheduling/mod.rs].  A lock is a word; taking it also raises the
    core's count of held interrupts, which disables them from the first to the last
    guard.  The operations are modelled twice: as functions on the storage of a core,
    and one access at a time, so that interrupts of the core, the other cores and the
    switch of a thread to another core can come between any two of them.  The second
    machine is executable: an action is a choice of the scheduler or the hardware. *)
From S2P Require Import Prelude.

(** ** CPULocalStorage *)
Record CPULocalStorage := mkLS {
  core_id : Z;
  stack_top : Z;
  current_context : Z;
  scratch_stack_top : Z;
  current_task_ptr : Z;
  current_task_kernel_stack_top : Z;
  sched_task_sp : Z;
  sched_task_ip : Z;
  hold_interrupts_depth : Z;
  hold_interrupts_initial : bool;
  gdt_pointer : Z;
}.

(** The fields of the packed struct with their sizes, in order. *)
Inductive ls_field :=
  | Fcore_id | Fstack_top | Fcurrent_context | Fscratch_stack_top | Fcurrent_task_ptr
  | Fcurrent_task_kernel_stack_top | Fsched_task_sp | Fsched_task_ip
  | Fhold_interrupts_depth | Fhold_interrupts_initial | Fgdt_pointer.

#[export] Instance ls_field_eq_dec : EqDecision ls_field.
Proof. solve_decision. Defined.

Definition ls_layout : list (ls_field * Z) :=
  [(Fcore_id, 1); (Fstack_top, 8); (Fcurrent_context, 1); (Fscratch_stack_top, 8);
   (Fcurrent_task_ptr, 8); (Fcurrent_task_kernel_stack_top, 8); (Fsched_task_sp, 8);
   (Fsched_task_ip, 8); (Fhold_interrupts_depth, 8); (Fhold_interrupts_initial, 1);
   (Fgdt_pointer, 8)].

(** [core::mem::offset_of!] on a packed struct: the sizes before the field. *)
Fixpoint offset_in (l : list (ls_field * Z)) (f : ls_field) : Z :=
  match l with
  | [] => 0
  | (g, n) :: l => if decide (g = f) then 0 else n + offset_in l f
  end.
Definition offset_of (f : ls_field) : Z := offset_in ls_layout f.

Definition set_depth (s : CPULocalStorage) (d : Z) : CPULocalStorage :=
  mkLS (core_id s) (stack_top s) (current_context s) (scratch_stack_top s) (current_task_ptr s)
    (current_task_kernel_stack_top s) (sched_task_sp s) (sched_task_ip s) d
    (hold_interrupts_initial s) (gdt_pointer s).
Definition set_initial (s : CPULocalStorage) (b : bool) : CPULocalStorage :=
  mkLS (core_id s) (stack_top s) (current_context s) (scratch_stack_top s) (current_task_ptr s)
    (current_task_kernel_stack_top s) (sched_task_sp s) (sched_task_ip s)
    (hold_interrupts_depth s) b (gdt_pointer s).
Definition set_task (s : CPULocalStorage) (ptr kstack : Z) : CPULocalStorage :=
  mkLS (core_id s) (stack_top s) (current_context s) (scratch_stack_top s) ptr kstack
    (sched_task_sp s) (sched_task_ip s) (hold_interrupts_depth s) (hold_interrupts_initial s)
    (gdt_pointer s).

(** [get_current_task], [clear_current_task] and [set_current_task]; a reference to a
    thread is its address. *)
Definition get_current_task (s : CPULocalStorage) : outcome Z :=
  _ ← assert_ (negb (current_task_ptr s =? 0)); Done (current_task_ptr s).
Definition clear_current_task (s : CPULocalStorage) : outcome CPULocalStorage :=
  _ ← assert_ (negb (current_task_ptr s =? 0));
  Done (set_task s 0 (current_task_kernel_stack_top s)).
Definition set_current_task (s : CPULocalStorage) (task kstack_top : Z) : outcome CPULocalStorage :=
  _ ← assert_ (current_task_ptr s =? 0); Done (set_task s task kstack_top).

(** ** Holding interrupts

    A core: its storage and the interrupt flag. *)
Record cpu := mkCpu { ls : CPULocalStorage; if_flag : bool }.

Definition inc_hold_interrupts (c : cpu) : outcome cpu :=
  let depth := hold_interrupts_depth (ls c) in
  let c := if depth =? 0
           then let enabled := if_flag c in
                let c := if enabled then mkCpu (ls c) false else c in
                mkCpu (set_initial (ls c) enabled) (if_flag c)
           else c in
  depth ← add_u64 depth 1;
  Done (mkCpu (set_depth (ls c) depth) (if_flag c)).

Definition dec_hold_interrupts (c : cpu) : outcome cpu :=
  depth ← sub_u64 (hold_interrupts_depth (ls c)) 1;
  let c := mkCpu (set_depth (ls c) depth) (if_flag c) in
  Done (if depth =? 0
        then if hold_interrupts_initial (ls c) then mkCpu (ls c) true else c
        else c).

(** [with_held_interrupts]; [enabled] is [is_ls_enabled()]. *)
Definition with_held_interrupts {R} (enabled : bool) (f : cpu → outcome (R * cpu)) (c : cpu) : outcome (R * cpu) :=
  if enabled
  then c ← inc_hold_interrupts c; '(r, c) ← f c; c ← dec_hold_interrupts c; Done (r, c)
  else f c.

(** ** One access at a time *)
Inductive lock := LSched (t : nat) | LOther (n : nat).
Inductive guard := GLock (l : lock) | GHold.

#[export] Instance lock_eq_dec : EqDecision lock.
Proof. solve_decision. Defined.
#[export] Instance guard_eq_dec : EqDecision guard.
Proof. solve_decision. Defined.

(** Whom [inc_hold_interrupts] was called by. *)
Inductive caller := KLock (l : lock) | KTry (l : lock) | KHold.

(** Where a piece of code is.  [PRun] is everything outside of the functions below;
    the arguments are the local variables. *)
Inductive pc :=
  | PRun
  | PIncRead (k : caller)                       (* let depth = hold_interrupts_depth() *)
  | PIncTest (k : caller) (depth : Z)           (* if depth == 0 { are_enabled() *)
  | PIncDisable (k : caller) (depth : Z) (enabled : bool)   (* if enabled { disable() } *)
  | PIncInitial (k : caller) (depth : Z) (enabled : bool)   (* set_hold_interrupts_initial *)
  | PIncDepth (k : caller) (depth : Z)          (* set_hold_interrupts_depth(depth + 1) *)
  | PCas (l : lock)                             (* compare_exchange_weak *)
  | PSpin (l : lock)                            (* while self.is_locked() *)
  | PTryCas (l : lock)                          (* compare_exchange of try_lock *)
  | PStore (l : lock)                           (* store(false) of unlock *)
  | PDecRead                                    (* let depth = hold_interrupts_depth() - 1 *)
  | PDecWrite (depth : Z)                       (* set_hold_interrupts_depth *)
  | PDecTest (depth : Z).                       (* if depth == 0 { if initial { enable() } } *)

#[export] Instance caller_eq_dec : EqDecision caller.
Proof. solve_decision. Defined.
#[export] Instance pc_eq_dec : EqDecision pc.
Proof. solve_decision. Defined.

(** A piece of code: where it is and the guards it holds. *)
Record frame := mkFrame { fpc : pc; held : list guard }.

Definition go (f : frame) (p : pc) : frame := mkFrame p (held f).

(** The next access of [RawSpinlock::lock], [try_lock], [unlock] and of the functions
    they call; [spurious] is the failure [compare_exchange_weak] is allowed. *)
Definition advance (spurious : bool) (f : frame) (c : cpu) (w : lock → bool)
    : outcome (frame * cpu * (lock → bool)) :=
  match fpc f with
  | PRun => Done (f, c, w)
  | PIncRead k => Done (go f (PIncTest k (hold_interrupts_depth (ls c))), c, w)
  | PIncTest k d => Done (go f (if d =? 0 then PIncDisable k d (if_flag c) else PIncDepth k d), c, w)
  | PIncDisable k d en => Done (go f (PIncInitial k d en), if en then mkCpu (ls c) false else c, w)
  | PIncInitial k d en => Done (go f (PIncDepth k d), mkCpu (set_initial (ls c) en) (if_flag c), w)
  | PIncDepth k d =>
      d ← add_u64 d 1;
      let f := match k with
               | KLock l => go f (PCas l)
               | KTry l => go f (PTryCas l)
               | KHold => mkFrame PRun (GHold :: held f)
               end in
      Done (f, mkCpu (set_depth (ls c) d) (if_flag c), w)
  | PCas l =>
      if w l || spurious then Done (go f (PSpin l), c, w)
      else Done (mkFrame PRun (GLock l :: held f), c, <[l := true]> w)
  | PSpin l => Done (go f (if w l then PSpin l else PCas l), c, w)
  | PTryCas l =>
      if w l then Done (go f PDecRead, c, w)
      else Done (mkFrame PRun (GLock l :: held f), c, <[l := true]> w)
  | PStore l => Done (go f PDecRead, c, <[l := false]> w)
  | PDecRead => d ← sub_u64 (hold_interrupts_depth (ls c)) 1; Done (go f (PDecWrite d), c, w)
  | PDecWrite d => Done (go f (PDecTest d), mkCpu (set_depth (ls c) d) (if_flag c), w)
  | PDecTest d =>
      Done (go f PRun,
            if d =? 0 then if hold_interrupts_initial (ls c) then mkCpu (ls c) true else c else c, w)
  end.

(** ** The machine

    A core runs the frames of its [stack], the top one first; the others were
    interrupted.  While a thread runs, the frames of the core's scheduler wait in
    [below]; the frames of a thread that is not running are [parked]. *)
Record core := mkCore {
  the_cpu : cpu;
  stack : list frame;
  running : option nat;
  below : list frame;
}.

Record machine := mkMachine {
  cores : list core;
  words : lock → bool;
  parked : nat → option (list frame);
}.

Inductive action :=
  | ACall (k : caller)      (* code outside calls [lock], [try_lock] or holds interrupts *)
  | ARelease (g : guard)    (* a guard is dropped *)
  | AAdvance (spurious : bool)
  | AInterrupt              (* an interrupt is accepted *)
  | AIret                   (* the handler returns *)
  | AFlag (b : bool)        (* [sti] and [cli] of the system-call stubs *)
  | ARunTick (t : nat)      (* [sched_run_tick] of a thread that is not running *)
  | AEnterSched             (* [enter_sched] of the running thread *)
  | ASpawn (t : nat)        (* a thread is created *)
  | AExit (t : nat).        (* [exit_thread_inner] in the scheduler *)

Definition set_cpu (k : core) (c : cpu) : core := mkCore c (stack k) (running k) (below k).
Definition set_stack (k : core) (s : list frame) : core := mkCore (the_cpu k) s (running k) (below k).
Definition set_if (c : cpu) (b : bool) : cpu := mkCpu (ls c) b.

Definition with_core (m : machine) (i : nat) (k : core) : machine :=
  mkMachine (<[i := k]> (cores m)) (words m) (parked m).

Definition at_rest (f : frame) : bool := bool_decide (fpc f = PRun).

(** Dropping one guard. *)
Fixpoint remove_guard (g : guard) (l : list guard) : list guard :=
  match l with
  | [] => []
  | x :: l => if decide (x = g) then l else x :: remove_guard g l
  end.

(** One action on core [i].  A thread may only enter the scheduler with the one guard
    the scheduler expects: with another one held the kernel stops
    ([Ipc.held_interrupts_panics]).  [None]: it is not possible in this state. *)
Definition exec (i : nat) (a : action) (m : machine) : option machine :=
  k ← cores m !! i;
  match stack k with
  | [] => None
  | f :: rest =>
      match a with
      | ACall c => if at_rest f then Some (with_core m i (set_stack k (go f (PIncRead c) :: rest))) else None
      | ARelease g =>
          if at_rest f && bool_decide (g ∈ held f) then
            let f := mkFrame (match g with GLock l => PStore l | GHold => PDecRead end)
                       (remove_guard g (held f)) in
            Some (with_core m i (set_stack k (f :: rest)))
          else None
      | AAdvance sp =>
          if at_rest f then None else
          match advance sp f (the_cpu k) (words m) with
          | Done (f, c, w) =>
              Some (mkMachine (<[i := set_stack (set_cpu k c) (f :: rest)]> (cores m)) w (parked m))
          | _ => None
          end
      | AInterrupt =>
          if if_flag (the_cpu k)
          then Some (with_core m i (set_stack (set_cpu k (set_if (the_cpu k) false)) (mkFrame PRun [] :: f :: rest)))
          else None
      | AIret =>
          match rest with
          | [] => None
          | _ => if at_rest f && bool_decide (held f = [])
                 then Some (with_core m i (set_stack (set_cpu k (set_if (the_cpu k) true)) rest)) else None
          end
      | AFlag b =>
          if at_rest f && bool_decide (held f = [])
          then Some (with_core m i (set_cpu k (set_if (the_cpu k) b))) else None
      | ARunTick t =>
          match running k, rest, parked m t with
          | None, [], Some (g :: gs) =>
              if at_rest f && bool_decide (held f = [GLock (LSched t)])
              then Some (mkMachine (<[i := mkCore (the_cpu k) (mkFrame (fpc g) (held f) :: gs) (Some t) [mkFrame PRun []]]> (cores m))
                           (words m) (<[t := None]> (parked m)))
              else None
          | _, _, _ => None
          end
      | AEnterSched =>
          match running k with
          | Some t =>
              if at_rest f && bool_decide (held f = [GLock (LSched t)])
              then Some (mkMachine (<[i := mkCore (set_if (the_cpu k) false) [mkFrame PRun (held f)] None []]> (cores m))
                           (words m) (<[t := Some (mkFrame PRun [] :: rest)]> (parked m)))
              else None
          | None => None
          end
      | ASpawn t =>
          match parked m t with
          | None => if existsb (λ k, bool_decide (running k = Some t)) (cores m) then None
                    else Some (mkMachine (cores m) (words m) (<[t := Some [mkFrame PRun []]]> (parked m)))
          | Some _ => None
          end
      | AExit t =>
          match running k with
          | None => if bool_decide (GLock (LSched t) ∈ held f)
                    then Some (mkMachine (cores m) (words m) (<[t := None]> (parked m))) else None
          | Some _ => None
          end
      end
  end.

(** Booted: each core has left [core_start_multitasking] with interrupts on, and runs
    its scheduler; no lock is taken. *)
Definition boot_cpu (id : Z) : cpu :=
  mkCpu (mkLS id 0 0 0 0 0 0 0 0 false 0) true.
Definition booted (n : nat) : machine :=
  mkMachine ((λ i, mkCore (boot_cpu (Z.of_nat i)) [mkFrame PRun []] None []) <$> seq 0 n) (λ _, false) (λ _, None).

Fixpoint run (acts : list (nat * action)) (m : machine) : option machine :=
  match acts with
  | [] => Some m
  | (i, a) :: acts => m ← exec i a m; run acts m
  end.

Definition reachable (n : nat) (m : machine) : Prop := ∃ acts, run acts (booted n) = Some m.

(** ** The functions and their accesses agree *)
Fixpoint advance_n (n : nat) (x : frame * cpu * (lock → bool)) : outcome (frame * cpu * (lock → bool)) :=
  match n with
  | O => Done x
  | S n => let '(f, c, w) := x in x ← advance false f c w; advance_n n x
  end.

Definition inc_done (k : caller) (f : frame) : frame :=
  match k with KLock l => go f (PCas l) | KTry l => go f (PTryCas l) | KHold => mkFrame PRun (GHold :: held f) end.

Lemma advance_inc k h c w :
  advance_n (if hold_interrupts_depth (ls c) =? 0 then 5 else 3) (mkFrame (PIncRead k) h, c, w) =
  (c' ← inc_hold_interrupts c; Done (inc_done k (mkFrame (PIncRead k) h), c', w)).
Proof.
  unfold inc_hold_interrupts. destruct c as [s i]. cbn [ls if_flag].
  destruct (Z.eqb_spec (hold_interrupts_depth s) 0) as [E|E]; cbn -[add_u64 Z.eqb]; rewrite ?E; cbn -[add_u64].
  - destruct (add_u64 0 1) as [d| |]; cbn; [|done..]. by destruct i, k.
  - rewrite (proj2 (Z.eqb_neq _ _) E). cbn -[add_u64]. destruct (add_u64 (hold_interrupts_depth s) 1); cbn; by destruct k.
Qed.

Lemma advance_dec h c w :
  advance_n 3 (mkFrame PDecRead h, c, w) =
  (c' ← dec_hold_interrupts c; Done (mkFrame PRun h, c', w)).
Proof.
  unfold dec_hold_interrupts. destruct c as [s i]. cbn [ls if_flag]. cbn -[sub_u64].
  destruct (sub_u64 (hold_interrupts_depth s) 1) as [d| |]; cbn; [|done..].
  by destruct (d =? 0), (hold_interrupts_initial s).
Qed.

(** ** The invariant of a core *)

(** What an interrupted or parked frame can be doing: it holds nothing, and what it
    has read is still true when it goes on, on whatever core. *)
Definition quiet (f : frame) : Prop :=
  held f = [] ∧
  match fpc f with
  | PRun | PIncRead _ => True
  | PIncTest _ d => d = 0
  | PIncDisable _ d en => d = 0 ∧ en = true
  | _ => False
  end.

Definition top_ok (c : cpu) (f : frame) : Prop :=
  let n := Z.of_nat (length (held f)) in
  let D := hold_interrupts_depth (ls c) in
  match fpc f with
  | PRun | PIncRead _ => D = n ∧ (held f ≠ [] → if_flag c = false)
  | PIncTest _ d => D = n ∧ d = n ∧ (held f ≠ [] → if_flag c = false)
  | PIncDisable _ d en => held f = [] ∧ D = 0 ∧ d = 0 ∧ en = if_flag c
  | PIncInitial _ d _ => held f = [] ∧ D = 0 ∧ d = 0 ∧ if_flag c = false
  | PIncDepth _ d | PDecTest d => D = n ∧ d = n ∧ if_flag c = false
  | PCas _ | PSpin _ | PTryCas _ | PStore _ | PDecRead => D = n + 1 ∧ if_flag c = false
  | PDecWrite d => D = n + 1 ∧ d = n ∧ if_flag c = false
  end.

Definition idle_frame : frame := mkFrame PRun [].

Record core_ok (k : core) : Prop := {
  core_stack : ∃ f rest, stack k = f :: rest ∧ top_ok (the_cpu k) f ∧ Forall quiet rest;
  core_below : Forall (λ f, f = idle_frame) (below k);
}.

(** The locks a frame owns: those of its guards and the one it is about to release. *)
Definition guard_lock (g : guard) : option lock := match g with GLock l => Some l | GHold => None end.
Definition owned (f : frame) : list lock :=
  omap guard_lock (held f) ++ match fpc f with PStore l => [l] | _ => [] end.
Definition core_owned (k : core) : list lock := concat (owned <$> stack k ++ below k).
Definition all_owned (m : machine) : list lock := concat (core_owned <$> cores m).

Record machine_ok (m : machine) : Prop := {
  ok_cores : Forall core_ok (cores m);
  ok_parked : ∀ t fs, parked m t = Some fs → ∃ rest, fs = idle_frame :: rest ∧ Forall quiet rest;
  ok_nodup : NoDup (all_owned m);
  ok_words : ∀ l, words m l = true ↔ l ∈ all_owned m;
}.

(** With interrupts on, the running frame holds nothing and may be set aside. *)
Lemma top_ok_quiet c f : top_ok c f → if_flag c = true → quiet f ∧ hold_interrupts_depth (ls c) = 0.
Proof.
  unfold top_ok, quiet. intros H Hi. rewrite Hi in H.
  assert (Hh : ∀ P : Prop, (held f ≠ [] → true = false) → (held f = [] → P) → P).
  { intros P Hn HP. destruct (held f); [by apply HP|]. discriminate Hn. done. }
  destruct (fpc f); destruct_and?; try done; eapply Hh; eauto; intros E; rewrite ?E in *; naive_solver.
Qed.

Lemma quiet_top_ok c f :
  quiet f → hold_interrupts_depth (ls c) = 0 → if_flag c = true → top_ok c f.
Proof. unfold quiet, top_ok. intros [Hh Hp] HD Hi. rewrite Hh. destruct (fpc f); naive_solver. Qed.

Lemma quiet_owned f : quiet f → owned f = [].
Proof. unfold quiet, owned. intros [-> Hp]. cbn. by destruct (fpc f). Qed.

Lemma quiets_owned l : Forall quiet l → concat (owned <$> l) = [].
Proof. induction 1 as [|f l Hf Hl IH]; [done|]. cbn. by rewrite (quiet_owned f Hf), IH. Qed.

Lemma idles_quiet l : Forall (λ f, f = idle_frame) l → Forall quiet l.
Proof. intros H. eapply Forall_impl; [exact H|]. intros f ->. by split. Qed.

(** A core owns what its running frame owns. *)
Lemma core_owned_top k f rest :
  stack k = f :: rest → Forall quiet rest → Forall (λ f, f = idle_frame) (below k) → core_owned k = owned f.
Proof.
  intros E Hr Hb. unfold core_owned. rewrite E. cbn. rewrite fmap_app, concat_app, quiets_owned by done.
  rewrite quiets_owned by by apply idles_quiet. by rewrite app_nil_r.
Qed.

Lemma remove_guard_perm g l : g ∈ l → l ≡ₚ g :: remove_guard g l.
Proof.
  induction l as [|x l IH]; intros Hin; [set_solver|]. cbn. case_decide as E; [by subst|].
  assert (g ∈ l) as Hl by set_solver. etransitivity; [apply perm_skip, (IH Hl)|]. constructor.
Qed.

(** ** One access keeps the invariant of its core *)
Inductive owned_change (w : lock → bool) (f : frame) : frame → (lock → bool) → Prop :=
  | own_same f' : owned f' ≡ₚ owned f → owned_change w f f' w
  | own_take f' l : w l = false → owned f' = l :: owned f → owned_change w f f' (<[l := true]> w)
  | own_drop f' l : owned f ≡ₚ l :: owned f' → owned_change w f f' (<[l := false]> w).

Lemma advance_ok sp f c w f' c' w' :
  top_ok c f → advance sp f c w = Done (f', c', w') → top_ok c' f' ∧ owned_change w f f' w'.
Proof.
  destruct f as [p h]. unfold advance, top_ok. cbv zeta. cbn [fpc held].
  destruct p as [|k|k d|k d en|k d en|k d|l|l|l|l| |d|d]; intros Hok Hadv; unfold add_u64, sub_u64 in Hadv; inv_outcome; destruct_and?;
    cbn [fpc held go].
  - split; [by split|by apply own_same].
  - split; [by split_and!|by apply own_same].
  - split; [|apply own_same; unfold owned; cbn; by destruct (_ =? 0)].
    destruct (Z.eqb_spec d 0) as [E|E].
    + destruct h; [|cbn in *; lia]. by split_and!.
    + split_and!; try done. destruct h; [done|by auto].
  - split; [|by apply own_same]. subst en. destruct (if_flag c) eqn:Ei; cbn; by split_and!.
  - split; [|by apply own_same]. subst h. cbn. by split_and!.
  - destruct k as [l|l|]; cbn [fpc held go ls if_flag set_depth hold_interrupts_depth];
      (split; [|by apply own_same]); cbn [length]; split_and!; try done; lia.
  - destruct (w l) eqn:Ew; cbn in Hadv; [|destruct sp]; simplify_eq; cbn.
    + split; [done|by apply own_same].
    + split; [done|by apply own_same].
    + split; [split; [lia|done]|]. apply own_take; [done|]. unfold owned. cbn. by rewrite !app_nil_r.
  - split; [by destruct (w' l)|]. apply own_same. unfold owned. cbn. by destruct (w' l).
  - destruct (w l) eqn:Ew; simplify_eq; cbn.
    + split; [done|by apply own_same].
    + split; [split; [lia|done]|]. apply own_take; [done|]. unfold owned. cbn. by rewrite !app_nil_r.
  - split; [done|]. apply own_drop. unfold owned. cbn. rewrite app_nil_r. symmetry. apply Permutation_cons_append.
  - split; [|by apply own_same]. split_and!; [lia|lia|done].
  - split; [|by apply own_same]. cbn. by split_and!.
  - split; [|by apply own_same]. subst d. destruct (Z.eqb_spec (Z.of_nat (length h)) 0).
    + destruct (hold_interrupts_initial (ls c)); cbn; (split; [done|]); intros Hne; [|done]. destruct h; [done|cbn in *; lia].
    + by split.
Qed.

(** ** Every action keeps the invariant *)
Lemma all_owned_insert cs i k k' :
  cs !! i = Some k →
  ∃ R, concat (core_owned <$> cs) ≡ₚ core_owned k ++ R ∧
       concat (core_owned <$> <[i := k']> cs) ≡ₚ core_owned k' ++ R.
Proof.
  intros Hk. exists (concat (core_owned <$> (take i cs ++ drop (S i) cs))).
  assert (Hgen : ∀ z, concat (core_owned <$> (take i cs ++ z :: drop (S i) cs)) ≡ₚ
    core_owned z ++ concat (core_owned <$> (take i cs ++ drop (S i) cs))).
  { intros z. rewrite !fmap_app, !concat_app. cbn. solve_Permutation. }
  split; [rewrite <- (take_drop_middle cs i k Hk) at 1; apply Hgen|].
  rewrite insert_take_drop by by eapply lookup_lt_Some. apply Hgen.
Qed.

Definition parked_ok (pk : nat → option (list frame)) : Prop :=
  ∀ t fs, pk t = Some fs → ∃ rest, fs = idle_frame :: rest ∧ Forall quiet rest.

Lemma machine_ok_update m i k k' f f' w' pk :
  machine_ok m → cores m !! i = Some k → core_ok k' → core_owned k = owned f → core_owned k' = owned f' →
  owned_change (words m) f f' w' → parked_ok pk →
  machine_ok (mkMachine (<[i := k']> (cores m)) w' pk).
Proof.
  intros [Hc _ Hn Hw] Hk Hk' Ef Ef' Hch Hpk.
  destruct (all_owned_insert (cores m) i k k' Hk) as (R & H1 & H2). rewrite Ef in H1. rewrite Ef' in H2.
  unfold all_owned in *. split; cbn; [by apply Forall_insert|done| |].
  - rewrite H2. rewrite H1 in Hn. destruct Hch as [f' E|f' l Hl E|f' l E]; [by rewrite E| |].
    + rewrite E. cbn. constructor; [|done]. rewrite <- H1, <- Hw, Hl. done.
    + rewrite E in Hn. by apply NoDup_cons in Hn as [_ Hn].
  - intros x. unfold all_owned. cbn. rewrite H2. specialize (Hw x). rewrite H1 in Hw, Hn.
    destruct Hch as [f' E|f' l Hl E|f' l E]; [by rewrite E| |].
    + rewrite E. cbn. rewrite elem_of_cons. destruct (decide (l = x)) as [->|Hne].
      * rewrite fn_lookup_insert. naive_solver.
      * rewrite fn_lookup_insert_ne by done. naive_solver.
    + rewrite E in Hw, Hn. cbn in Hw, Hn. apply NoDup_cons in Hn as [Hn _]. rewrite elem_of_cons in Hw.
      destruct (decide (l = x)) as [->|Hne].
      * rewrite fn_lookup_insert. naive_solver.
      * rewrite fn_lookup_insert_ne by done. naive_solver.
Qed.

(** The same for a core whose frame changes without touching a lock. *)
Lemma machine_ok_frame m i k f rest k' f' rest' pk :
  machine_ok m → cores m !! i = Some k → stack k = f :: rest →
  stack k' = f' :: rest' → top_ok (the_cpu k') f' → Forall quiet rest' →
  Forall (λ f, f = idle_frame) (below k') → owned f' ≡ₚ owned f → parked_ok pk →
  machine_ok (mkMachine (<[i := k']> (cores m)) (words m) pk).
Proof.
  intros Hm Hk Es Es' Ht' Hr' Hb' Ho Hpk. pose proof (proj1 (Forall_lookup _ _) (ok_cores _ Hm) i k Hk) as [Hs Hb].
  destruct Hs as (f0 & rest0 & E & Ht & Hr). rewrite Es in E. simplify_eq.
  eapply (machine_ok_update m i k k' f0 f'); eauto.
  - split; [|done]. exists f', rest'. done.
  - by eapply core_owned_top.
  - by eapply core_owned_top.
  - by apply own_same.
Qed.

Lemma machine_ok_parked m pk : machine_ok m → parked_ok pk → machine_ok (mkMachine (cores m) (words m) pk).
Proof. intros [Hc _ Hn Hw] Hp. by split. Qed.

Lemma parked_insert pk t o :
  parked_ok pk → (∀ fs, o = Some fs → ∃ rest, fs = idle_frame :: rest ∧ Forall quiet rest) →
  parked_ok (<[t := o]> pk).
Proof.
  intros Hp Ho x fs. destruct (decide (t = x)) as [->|Hne].
  - rewrite fn_lookup_insert. apply Ho.
  - rewrite fn_lookup_insert_ne by done. apply Hp.
Qed.

Lemma owned_held_perm h h' : h ≡ₚ h' → owned (mkFrame PRun h) ≡ₚ owned (mkFrame PRun h').
Proof. intros E. unfold owned. cbn. by rewrite E. Qed.

Lemma release_ok c f g :
  top_ok c f → fpc f = PRun → g ∈ held f →
  let f' := mkFrame (match g with GLock l => PStore l | GHold => PDecRead end) (remove_guard g (held f)) in
  top_ok c f' ∧ owned f' ≡ₚ owned f.
Proof.
  intros Ht Hp Hg f'. destruct f as [p h]. cbn in *. subst p. pose proof (remove_guard_perm g h Hg) as E.
  destruct Ht as [HD Hi]. cbn in HD, Hi. rewrite (Permutation_length E) in HD. cbn [length] in HD.
  assert (if_flag c = false) by (apply Hi; intros ->; set_solver).
  split.
  - unfold f', top_ok. destruct g; cbn; split; (done || lia).
  - symmetry. rewrite (owned_held_perm _ _ E). unfold f', owned. destruct g as [l|]; cbn; rewrite ?app_nil_r; [|done].
    apply Permutation_cons_append.
Qed.

Lemma exec_ok i a m m' : machine_ok m → exec i a m = Some m' → machine_ok m'.
Proof.
  intros Hm Hex. unfold exec in Hex. destruct (cores m !! i) as [k|] eqn:Hk; [|done]. cbn in Hex.
  pose proof (proj1 (Forall_lookup _ _) (ok_cores _ Hm) i k Hk) as [(f & rest & Es & Ht & Hr) Hb].
  pose proof (ok_parked _ Hm) as Hp. rewrite Es in Hex.
  assert (Hrest : ∀ x : bool, at_rest f && x = true → fpc f = PRun ∧ x = true).
  { intros x Hx. apply andb_true_iff in Hx as [Hx ?]. unfold at_rest in Hx. by apply bool_decide_eq_true in Hx. }
  destruct f as [p h]. destruct a as [c|g|sp| | |b|t| |t|t]; cbn -[remove_guard] in Hex.
  - (* a call *) destruct (at_rest _) eqn:Ea; [|done]. simplify_eq. apply bool_decide_eq_true in Ea. cbn in Ea. subst p.
    by eapply machine_ok_frame.
  - (* a guard is dropped *) destruct (at_rest _ && _) eqn:Ea; [|done]. simplify_eq.
    apply Hrest in Ea as [Ep Eg]. apply bool_decide_eq_true in Eg.
    destruct (release_ok _ _ _ Ht Ep Eg) as [Ht' Ho]. eapply machine_ok_frame; eauto; done.
  - (* an access *) destruct (at_rest _) eqn:Ea; [done|].
    destruct (advance sp _ _ _) as [[[f' c'] w']| |] eqn:Eadv; simplify_eq.
    destruct (advance_ok _ _ _ _ _ _ _ Ht Eadv) as [Ht' Ho].
    eapply (machine_ok_update m i k _ _ f'); eauto.
    + split; [|done]. exists f', rest. done.
    + by eapply core_owned_top.
    + by eapply core_owned_top.
  - (* an interrupt *) destruct (if_flag (the_cpu k)) eqn:Ei; [|done]. simplify_eq.
    destruct (top_ok_quiet _ _ Ht Ei) as [Hq HD].
    eapply (machine_ok_frame m i k _ rest _ idle_frame (mkFrame p h :: rest)); [done|done|exact Es|done|by split|by constructor|done| |done].
    by rewrite (quiet_owned _ Hq).
  - (* its return *) destruct rest as [|g rest]; [done|]. destruct (at_rest _ && _) eqn:Ea; [|done]. simplify_eq.
    apply Hrest in Ea as [Ep Eg]. apply bool_decide_eq_true in Eg. cbn in Ep, Eg. subst p h.
    destruct Ht as [HD _]. inversion_clear Hr as [|? ? Hq Hr'].
    eapply (machine_ok_frame m i k _ _ _ g rest); [done|done|exact Es|done|by apply quiet_top_ok|done|done| |done]. by rewrite (quiet_owned _ Hq).
  - (* sti, cli *) destruct (at_rest _ && _) eqn:Ea; [|done]. simplify_eq.
    apply Hrest in Ea as [Ep Eg]. apply bool_decide_eq_true in Eg. cbn in Ep, Eg. subst p h.
    destruct Ht as [HD _]. by eapply machine_ok_frame.
  - (* a thread is run *) destruct (running k), rest as [|? ?], (parked m t) as [[|g gs]|] eqn:Epk; try done.
    destruct (at_rest _ && _) eqn:Ea; [|done]. simplify_eq.
    apply Hrest in Ea as [Ep Eg]. apply bool_decide_eq_true in Eg. cbn in Ep, Eg. subst p h.
    destruct (Hp _ _ Epk) as (rest & Eq & Hq). simplify_eq.
    eapply machine_ok_frame; eauto; [by repeat constructor|]. by apply parked_insert.
  - (* it enters the scheduler *) destruct (running k) as [t|]; [|done]. destruct (at_rest _ && _) eqn:Ea; [|done]. simplify_eq.
    apply Hrest in Ea as [Ep Eg]. apply bool_decide_eq_true in Eg. cbn in Ep, Eg. subst p h.
    destruct Ht as [HD _]. eapply machine_ok_frame; [done|done|exact Es|done|by split|done|done|done|].
    apply parked_insert; [done|]. intros ? [= <-]. by exists rest.
  - destruct (parked m t); [done|]. destruct (existsb _ _); [done|]. simplify_eq.
    apply machine_ok_parked; [done|]. apply parked_insert; [done|]. intros ? [= <-]. by exists [].
  - destruct (running k); [done|]. case_bool_decide; [|done]. simplify_eq.
    apply machine_ok_parked; [done|]. by apply parked_insert.
Qed.

Lemma booted_ok n : machine_ok (booted n).
Proof.
  assert (Ho : all_owned (booted n) = []).
  { unfold all_owned, booted. cbn. generalize 0%nat. induction n as [|n IH]; intros j; [done|]. cbn. apply IH. }
  split; [| done | rewrite Ho; constructor | intros l; rewrite Ho; set_solver].
  apply Forall_fmap, Forall_forall. intros i _. split; [|constructor].
  exists idle_frame, []. split_and!; [done| |constructor]. by split.
Qed.

Lemma run_ok acts m m' : machine_ok m → run acts m = Some m' → machine_ok m'.
Proof.
  revert m. induction acts as [|[i a] acts IH]; cbn; intros m Hm Hr; [by simplify_eq|].
  destruct (exec i a m) as [m1|] eqn:Ex; [|done]. cbn in Hr. eapply IH; [|done]. by eapply exec_ok.
Qed.

Lemma reachable_ok n m : reachable n m → machine_ok m.
Proof. intros [acts Hr]. eapply run_ok; [|done]. apply booted_ok. Qed.

(** ** Mutual exclusion *)
Lemma NoDup_concat_inj {A} (ls : list (list A)) i j a b x :
  NoDup (concat ls) → ls !! i = Some a → ls !! j = Some b → x ∈ a → x ∈ b → i = j.
Proof.
  revert i j. induction ls as [|l ls IH]; intros i j; [done|]. cbn. intros (H1 & H2 & H3)%NoDup_app Hi Hj Ha Hb.
  assert (Hin : ∀ n c, ls !! n = Some c → x ∈ c → x ∈ concat ls).
  { intros n c Hn Hc. rewrite <- (list_fmap_id ls). apply (elem_of_concat_fmap id). exists c.
    split; [by eapply list_elem_of_lookup_2|done]. }
  destruct i as [|i], j as [|j]; cbn in *; simplify_eq; try done.
  - destruct (H2 x Ha). by eapply Hin.
  - destruct (H2 x Hb). by eapply Hin.
  - f_equal. by apply IH.
Qed.

(** Only the running frame of a core holds guards. *)
Lemma holder_is_top k f : core_ok k → f ∈ stack k → held f ≠ [] → ∃ rest, stack k = f :: rest ∧ top_ok (the_cpu k) f.
Proof.
  intros [(g & rest & E & Ht & Hr) _] Hin Hne. rewrite E in Hin. apply elem_of_cons in Hin as [->|Hin]; [by eauto|].
  rewrite Forall_forall in Hr. by destruct (Hr f Hin).
Qed.

Lemma top_held_off c f : top_ok c f → held f ≠ [] → if_flag c = false.
Proof. unfold top_ok. destruct (fpc f); naive_solver. Qed.

Lemma held_owned f l : GLock l ∈ held f → l ∈ owned f.
Proof.
  intros Hin. unfold owned. apply elem_of_app. left. apply list_elem_of_omap. exists (GLock l). done.
Qed.

Lemma core_owned_elem k f l : f ∈ stack k → l ∈ owned f → l ∈ core_owned k.
Proof.
  intros Hf Hl. unfold core_owned. apply elem_of_concat_fmap. exists f. split; [|done]. apply elem_of_app. by left.
Qed.

(** C7: in every state any number of cores can reach, with interrupts accepted between
    any two accesses of the lock functions and threads moved between cores: no two
    pieces of code hold a guard of the same lock, and its word is set while one does; a
    core on which a guard is held has interrupts disabled; outside of the functions its
    count of held interrupts is the number of guards, and neither counting down nor,
    short of [2^64] guards, counting up overflows. *)
Theorem spinlock_exclusion n m :
  reachable n m →
  (∀ l i j ki kj fi fj, cores m !! i = Some ki → cores m !! j = Some kj → fi ∈ stack ki → fj ∈ stack kj →
     GLock l ∈ held fi → GLock l ∈ held fj → i = j ∧ fi = fj ∧ words m l = true) ∧
  (∀ i k f, cores m !! i = Some k → f ∈ stack k → held f ≠ [] → if_flag (the_cpu k) = false) ∧
  (∀ i k f rest, cores m !! i = Some k → stack k = f :: rest → fpc f = PRun →
     hold_interrupts_depth (ls (the_cpu k)) = Z.of_nat (length (held f))) ∧
  (∀ i k f rest sp r, cores m !! i = Some k → stack k = f :: rest →
     hold_interrupts_depth (ls (the_cpu k)) + 1 < u64_lim →
     advance sp f (the_cpu k) (words m) ≠ Panic r).
Proof.
  intros Hr%reachable_ok. pose proof (ok_cores _ Hr) as Hc. rewrite Forall_lookup in Hc. split_and!.
  - intros l i j ki kj fi fj Hi Hj Hfi Hfj Hli Hlj.
    pose proof (core_owned_elem _ _ _ Hfi (held_owned _ _ Hli)) as H1.
    pose proof (core_owned_elem _ _ _ Hfj (held_owned _ _ Hlj)) as H2.
    assert (i = j) as <-.
    { eapply NoDup_concat_inj; [apply (ok_nodup _ Hr)|..]; [rewrite list_lookup_fmap, Hi; done|rewrite list_lookup_fmap, Hj; done|done|done]. }
    simplify_eq. destruct (holder_is_top _ _ (Hc _ _ Hi) Hfi) as (? & E1 & _); [by intros E; rewrite E in Hli; set_solver|].
    destruct (holder_is_top _ _ (Hc _ _ Hi) Hfj) as (? & E2 & _); [by intros E; rewrite E in Hlj; set_solver|].
    split_and!; [done|congruence|]. apply (ok_words _ Hr). apply elem_of_concat_fmap. exists ki.
    split; [by eapply list_elem_of_lookup_2|done].
  - intros i k f Hk Hf Hne. destruct (holder_is_top _ _ (Hc _ _ Hk) Hf Hne) as (? & _ & Ht). by eapply top_held_off.
  - intros i k f rest Hk Es Hp. destruct (Hc _ _ Hk) as [(g & rest' & E & Ht & _) _]. rewrite E in Es. simplify_eq.
    unfold top_ok in Ht. rewrite Hp in Ht. by destruct Ht.
  - intros i k f rest sp r Hk Es Hlim. destruct (Hc _ _ Hk) as [(g & rest' & E & Ht & _) _]. rewrite E in Es. simplify_eq.
    unfold top_ok in Ht. unfold advance. destruct (fpc f); destruct_and?; try done; try by repeat case_match.
    + unfold add_u64. rewrite chk_ok by lia. by case_match.
    + unfold sub_u64. rewrite chk_ok by lia. done.
Qed.

(** Taking a lock as its accesses, when it is free. *)
Definition take_lock (l : lock) : list action := [ACall (KLock l); AAdvance false; AAdvance false; AAdvance false; AAdvance false; AAdvance false; AAdvance false].
Definition release_lock (l : lock) : list action := [ARelease (GLock l); AAdvance false; AAdvance false; AAdvance false; AAdvance false].

(** Two cores: core 0 runs thread 0, which is interrupted by the timer while core 1
    spins for the thread's lock. *)
Definition preempted : list (nat * action) :=
  [(0%nat, ASpawn 0)] ++ (pair 0%nat <$> take_lock (LSched 0)) ++ [(0%nat, ARunTick 0)] ++
  (pair 0%nat <$> release_lock (LSched 0)) ++ [(0%nat, AInterrupt)] ++ (pair 0%nat <$> take_lock (LSched 0)) ++
  [(0%nat, AEnterSched)].

Definition contended : list (nat * action) :=
  preempted ++ (pair 1%nat <$> take_lock (LSched 0)).

Lemma spinlock_exclusion_witness :
  ∃ m, run contended (booted 2) = Some m ∧
    words m (LSched 0) = true ∧
    (cores m !! 1%nat ≫= λ k, head (stack k)) = Some (mkFrame (PSpin (LSched 0)) []) ∧
    (∀ i k f, cores m !! i = Some k → f ∈ stack k → held f ≠ [] → if_flag (the_cpu k) = false).
Proof.
  assert (H : is_Some (run contended (booted 2))) by (vm_compute; by eexists).
  destruct H as [m Hm]. exists m. split; [exact Hm|].
  assert (E : (λ m, (words m (LSched 0), cores m !! 1%nat ≫= λ k, head (stack k))) <$> run contended (booted 2) =
    Some (true, Some (mkFrame (PSpin (LSched 0)) []))) by by vm_compute.
  rewrite Hm in E. injection E as E1 E2. split_and!; [done|done|].
  apply (spinlock_exclusion 2 m). by exists contended.
Defined.

(** ** Restoring the interrupt flag *)

(** What is run between [inc_hold_interrupts] and [dec_hold_interrupts] and leaves the
    count, the saved flag and the flag as they were gets the flag of the beginning back. *)
Lemma hold_roundtrip {R} (f : cpu → outcome (R * cpu)) c r c' :
  (∀ c1 r c2, f c1 = Done (r, c2) → c2 = c1) → 0 ≤ hold_interrupts_depth (ls c) →
  with_held_interrupts true f c = Done (r, c') →
  if_flag c' = if_flag c ∧ hold_interrupts_depth (ls c') = hold_interrupts_depth (ls c).
Proof.
  intros Hf Hd H. unfold with_held_interrupts, inc_hold_interrupts, dec_hold_interrupts, add_u64, sub_u64 in H.
  destruct c as [s i]. cbn [ls if_flag] in *. destruct (Z.eqb_spec (hold_interrupts_depth s) 0) as [E|E].
  - inv_outcome. match goal with H : f _ = Done ?p |- _ => destruct p; apply Hf in H as -> end. inv_outcome.
    cbn in *. rewrite E in *. cbn in *. by destruct i.
  - inv_outcome. match goal with H : f _ = Done ?p |- _ => destruct p; apply Hf in H as -> end. inv_outcome. cbn in *.
    replace (hold_interrupts_depth s + 1 - 1) with (hold_interrupts_depth s) in * by lia.
    rewrite (proj2 (Z.eqb_neq _ _) E). cbn. split; [done|lia].
Qed.

Definition deaf_trace : list (nat * action) := preempted ++ (pair 0%nat <$> release_lock (LSched 0)).

Definition core_view (k : core) : option nat * list frame * Z * bool :=
  (running k, stack k, hold_interrupts_depth (ls (the_cpu k)), if_flag (the_cpu k)).

(** The flag is not restored across a switch: the count goes from the thread to the
    scheduler, with the flag the thread saved.  After the timer has preempted a thread,
    the scheduler of the core drops the thread's guard and goes on with interrupts
    disabled and no guard held; when another core has taken the thread from the queue by
    then, the loop executes [hlt] in this state and no interrupt reaches the core again. *)
Theorem scheduler_left_deaf :
  ∃ m k, reachable 2 m ∧ cores m !! 0%nat = Some k ∧
    running k = None ∧ stack k = [mkFrame PRun []] ∧ hold_interrupts_depth (ls (the_cpu k)) = 0 ∧
    if_flag (the_cpu k) = false.
Proof.
  assert (H : is_Some (run deaf_trace (booted 2))) by (vm_compute; by eexists).
  destruct H as [m Hm].
  assert (E : (run deaf_trace (booted 2) ≫= λ m, core_view <$> cores m !! 0%nat) = Some (None, [mkFrame PRun []], 0, false))
    by by vm_compute.
  rewrite Hm in E. cbn in E. destruct (cores m !! 0%nat) as [k|] eqn:Ek; [|discriminate]. exists m, k.
  injection E as E1 E2 E3 E4.
  split_and!; [by exists deaf_trace|done..].
Qed.

(** In that state an interrupt is not accepted, and taking and releasing locks does not
    change it. *)
Lemma deaf_stays_deaf c c1 c2 :
  hold_interrupts_depth (ls c) = 0 → if_flag c = false →
  inc_hold_interrupts c = Done c1 → dec_hold_interrupts c1 = Done c2 →
  hold_interrupts_depth (ls c2) = 0 ∧ if_flag c2 = false.
Proof.
  destruct c as [s i]. unfold inc_hold_interrupts, dec_hold_interrupts. cbn [ls if_flag]. intros -> ->.
  cbn. intros [= <-]. cbn. intros [= <-]. done.
Qed.

(** The offsets the assembly uses are those of the fields. *)
Lemma asm_offsets :
  offset_of Fstack_top = 0x1 ∧ offset_of Fcurrent_context = 0x9 ∧
  offset_of Fcurrent_task_kernel_stack_top = 0x1A ∧ offset_of Fsched_task_sp = 0x22 ∧
  offset_of Fsched_task_ip = 0x2A ∧ offset_of Fhold_interrupts_depth = 0x32.
Proof. by vm_compute. Qed.
