(* ===== verification/Switch.v ===== *)
(** * Assembly: the switch of threads, the first entry of a thread, system calls

    The inline assembly of [kernel/src/scheduling/taskmanager.rs] ([sched_run_tick],
    [enter_sched], [enable_syscall]), [kernel/src/scheduling/process.rs]
    ([start_new_task]), [kernel/src/syscall/mod.rs] (the three entry stubs) and
    [kernel/src/assembly/registers.rs], with the register assignment of the macro
    [make_syscall!] of [kernel_userspace/src/syscall.rs], on a machine with the sixteen
    registers, the flags, [cr3], the segment selectors and memory in words.  All of
    these blocks access the stack in words of eight bytes at distances of eight, so
    that memory is a map from the address of a word to the word.  A [call] of compiled
    code is a parameter that keeps the registers the C calling convention says. *)
From S2P Require Import Prelude Lock.

(** ** Selectors *)
Definition SegmentSelector_new (index rpl : Z) : Z := Z.lor (Z.shiftl index 3) rpl.
Definition KERNEL_CODE_SELECTOR : Z := SegmentSelector_new 1 0.
Definition KERNEL_DATA_SELECTOR : Z := SegmentSelector_new 2 0.
Definition USER_CODE_SELECTOR : Z := SegmentSelector_new 4 3.
Definition USER_DATA_SELECTOR : Z := SegmentSelector_new 3 3.
Definition TSS_SELECTOR : Z := SegmentSelector_new 5 0.

Inductive ProcessPrivilige := PKernel | PUser.
Definition get_code_segment (p : ProcessPrivilige) : Z :=
  match p with PKernel => KERNEL_CODE_SELECTOR | PUser => USER_CODE_SELECTOR end.
Definition get_data_segment (p : ProcessPrivilige) : Z :=
  match p with PKernel => KERNEL_DATA_SELECTOR | PUser => USER_DATA_SELECTOR end.

(** [enable_syscall]: the model-specific registers it writes. *)
Definition star : Z := Z.lor (Z.shiftl (USER_CODE_SELECTOR - 16) 48) (Z.shiftl KERNEL_CODE_SELECTOR 32).
Definition flag_mask : Z := 0x200.
Definition enable_syscall (handler efer : Z) : list (Z * Z) :=
  [(0xC0000081, star); (0xC0000082, handler); (0xC0000084, flag_mask); (0xC0000080, Z.lor efer 1)].

(** The selectors [sysret] and [syscall] load, from the register of the processor. *)
Definition sysret_cs : Z := Z.lor (Z.shiftr star 48 + 16) 3.
Definition sysret_ss : Z := Z.lor (Z.shiftr star 48 + 8) 3.
Definition syscall_cs : Z := Z.land (Z.shiftr star 32) 0xFFFC.
Definition syscall_ss : Z := syscall_cs + 8.

(** The descriptors [create_gdt_for_core] adds, from index 1. *)
Inductive descriptor := KernelCode | KernelData | UserData | UserCode | Tss.
Definition create_gdt_for_core : list descriptor := [KernelCode; KernelData; UserData; UserCode; Tss].

(** ** The machine *)
Inductive reg := RAX | RBX | RCX | RDX | RSI | RDI | RBP | RSP
  | R8 | R9 | R10 | R11 | R12 | R13 | R14 | R15.

Record regs := mkRegs {
  rax : Z; rbx : Z; rcx : Z; rdx : Z; rsi : Z; rdi : Z; rbp : Z; rsp : Z;
  r8 : Z; r9 : Z; r10 : Z; r11 : Z; r12 : Z; r13 : Z; r14 : Z; r15 : Z;
}.

Definition get (g : regs) (r : reg) : Z :=
  match r with
  | RAX => rax g | RBX => rbx g | RCX => rcx g | RDX => rdx g | RSI => rsi g | RDI => rdi g
  | RBP => rbp g | RSP => rsp g | R8 => r8 g | R9 => r9 g | R10 => r10 g | R11 => r11 g
  | R12 => r12 g | R13 => r13 g | R14 => r14 g | R15 => r15 g
  end.

Definition put (g : regs) (r : reg) (v : Z) : regs :=
  let '(mkRegs a b c d s i p q e f h j k l m n) := g in
  match r with
  | RAX => mkRegs v b c d s i p q e f h j k l m n
  | RBX => mkRegs a v c d s i p q e f h j k l m n
  | RCX => mkRegs a b v d s i p q e f h j k l m n
  | RDX => mkRegs a b c v s i p q e f h j k l m n
  | RSI => mkRegs a b c d v i p q e f h j k l m n
  | RDI => mkRegs a b c d s v p q e f h j k l m n
  | RBP => mkRegs a b c d s i v q e f h j k l m n
  | RSP => mkRegs a b c d s i p v e f h j k l m n
  | R8 => mkRegs a b c d s i p q v f h j k l m n
  | R9 => mkRegs a b c d s i p q e v h j k l m n
  | R10 => mkRegs a b c d s i p q e f v j k l m n
  | R11 => mkRegs a b c d s i p q e f h v k l m n
  | R12 => mkRegs a b c d s i p q e f h j v l m n
  | R13 => mkRegs a b c d s i p q e f h j k v m n
  | R14 => mkRegs a b c d s i p q e f h j k l v n
  | R15 => mkRegs a b c d s i p q e f h j k l m v
  end.

(** A core and the memory it sees: [gs] is the storage its [gs] base points to. *)
Record mach := mkMach {
  rs : regs;
  flags : Z;
  cr3 : Z;
  mem : Z → Z;
  gs : CPULocalStorage;
  cs : Z;
  ss : Z;
}.

Definition set_rs (s : mach) (g : regs) : mach := mkMach g (flags s) (cr3 s) (mem s) (gs s) (cs s) (ss s).
Definition set_flags (s : mach) (f : Z) : mach := mkMach (rs s) f (cr3 s) (mem s) (gs s) (cs s) (ss s).
Definition set_cr3 (s : mach) (v : Z) : mach := mkMach (rs s) (flags s) v (mem s) (gs s) (cs s) (ss s).
Definition set_mem (s : mach) (m : Z → Z) : mach := mkMach (rs s) (flags s) (cr3 s) m (gs s) (cs s) (ss s).
Definition set_gs (s : mach) (g : CPULocalStorage) : mach := mkMach (rs s) (flags s) (cr3 s) (mem s) g (cs s) (ss s).
Definition set_seg (s : mach) (c d : Z) : mach := mkMach (rs s) (flags s) (cr3 s) (mem s) (gs s) c d.
Definition set_reg (s : mach) (r : reg) (v : Z) : mach := set_rs s (put (rs s) r v).

Definition IF : Z := 0x200.

(** The field at an offset of the storage. *)
Definition gs_read (s : CPULocalStorage) (off : Z) : option Z :=
  if off =? offset_of Fstack_top then Some (stack_top s)
  else if off =? offset_of Fcurrent_context then Some (current_context s)
  else if off =? offset_of Fcurrent_task_kernel_stack_top then Some (current_task_kernel_stack_top s)
  else if off =? offset_of Fsched_task_sp then Some (sched_task_sp s)
  else if off =? offset_of Fsched_task_ip then Some (sched_task_ip s)
  else if off =? offset_of Fhold_interrupts_depth then Some (hold_interrupts_depth s)
  else None.

Definition with_context (s : CPULocalStorage) (c : Z) : CPULocalStorage :=
  mkLS (core_id s) (stack_top s) c (scratch_stack_top s) (current_task_ptr s)
    (current_task_kernel_stack_top s) (sched_task_sp s) (sched_task_ip s)
    (hold_interrupts_depth s) (hold_interrupts_initial s) (gdt_pointer s).
Definition with_sched (s : CPULocalStorage) (sp ip : Z) : CPULocalStorage :=
  mkLS (core_id s) (stack_top s) (current_context s) (scratch_stack_top s) (current_task_ptr s)
    (current_task_kernel_stack_top s) sp ip
    (hold_interrupts_depth s) (hold_interrupts_initial s) (gdt_pointer s).

Definition gs_write (s : CPULocalStorage) (off v : Z) : option CPULocalStorage :=
  if off =? offset_of Fcurrent_context then Some (with_context s (v mod 256))
  else if off =? offset_of Fsched_task_sp then Some (with_sched s v (sched_task_ip s))
  else if off =? offset_of Fsched_task_ip then Some (with_sched s (sched_task_sp s) v)
  else None.

Inductive instr :=
  | Push (r : reg) | Pop (r : reg) | Pushfq | Popfq
  | Mov (d s : reg) | MovImm (d : reg) (v : Z)
  | MovImm8 (d : reg) (v : Z)         (* the low byte *)
  | LoadGs (d : reg) (off : Z)        (* mov d, gs:off *)
  | StoreGs (off : Z) (r : reg)       (* mov gs:off, r *)
  | FromCr3 (d : reg) | ToCr3 (r : reg)
  | AddImm (d : reg) (v : Z)
  | Xor (r : reg)                     (* xor r, r *)
  | Cli | Sti
  | Call (f : mach → mach)
  | JneGs (off : Z) (target : Z)      (* cmp qword ptr gs:off, 0; jne target *)
  | Jmp (r : reg) | Iretq | Sysretq | Ret.

(** How a block is left. *)
Inductive exit :=
  | Fall                (* its end is reached *)
  | JumpTo (a : Z)
  | User (rip : Z)      (* [iretq] or [sysretq] *)
  | Stuck.

Definition push (s : mach) (v : Z) : mach :=
  let sp := get (rs s) RSP - 8 in set_reg (set_mem s (<[sp := v]> (mem s))) RSP sp.

Definition top (s : mach) (n : Z) : Z := mem s (get (rs s) RSP + 8 * n).
Definition drop_words (s : mach) (n : Z) : mach := set_reg s RSP (get (rs s) RSP + 8 * n).

(** The calling convention: a compiled function returns with the stack pointer and the
    registers it has to keep, and does not write the words its callers keep. *)
Record abi (keep : Z → Prop) (f : mach → mach) : Prop := {
  abi_rbx : ∀ s, rbx (rs (f s)) = rbx (rs s);
  abi_rbp : ∀ s, rbp (rs (f s)) = rbp (rs s);
  abi_rsp : ∀ s, rsp (rs (f s)) = rsp (rs s);
  abi_r12 : ∀ s, r12 (rs (f s)) = r12 (rs s);
  abi_r13 : ∀ s, r13 (rs (f s)) = r13 (rs s);
  abi_r14 : ∀ s, r14 (rs (f s)) = r14 (rs s);
  abi_r15 : ∀ s, r15 (rs (f s)) = r15 (rs s);
  abi_mem : ∀ s a, keep a → mem (f s) a = mem s a;
  abi_seg : ∀ s, cs (f s) = cs s ∧ ss (f s) = ss s;
}.

(** One instruction: the next state, or how the block is left. *)
Definition istep (i : instr) (s : mach) : mach + (exit * mach) :=
  match i with
  | Push r => inl (push s (get (rs s) r))
  | Pop r => inl (set_reg (drop_words s 1) r (top s 0))
  | Pushfq => inl (push s (flags s))
  | Popfq => inl (set_flags (drop_words s 1) (top s 0))
  | Mov d r => inl (set_reg s d (get (rs s) r))
  | MovImm d v => inl (set_reg s d v)
  | MovImm8 d v => inl (set_reg s d (get (rs s) d - get (rs s) d mod 256 + v))
  | LoadGs d off =>
      match gs_read (gs s) off with Some v => inl (set_reg s d v) | None => inr (Stuck, s) end
  | StoreGs off r =>
      match gs_write (gs s) off (get (rs s) r) with Some g => inl (set_gs s g) | None => inr (Stuck, s) end
  | FromCr3 d => inl (set_reg s d (cr3 s))
  | ToCr3 r => inl (set_cr3 s (get (rs s) r))
  | AddImm d v => inl (set_reg s d (get (rs s) d + v))
  | Xor r => inl (set_reg s r 0)
  | Cli => inl (set_flags s (Z.ldiff (flags s) IF))
  | Sti => inl (set_flags s (Z.lor (flags s) IF))
  | Call f => inl (drop_words (f (push s 0)) 1)   (* the return address is pushed, and popped by the callee *)
  | JneGs off t =>
      match gs_read (gs s) off with
      | Some v => if v =? 0 then inl s else inr (JumpTo t, s)
      | None => inr (Stuck, s)
      end
  | Jmp r => inr (JumpTo (get (rs s) r), s)
  | Ret => inr (JumpTo (top s 0), drop_words s 1)
  | Sysretq => inr (User (get (rs s) RCX), set_seg (set_flags s (get (rs s) R11)) sysret_cs sysret_ss)
  | Iretq =>
      let s' := set_seg (set_flags s (top s 2)) (top s 1) (top s 4) in
      inr (User (top s 0), set_reg s' RSP (top s 3))
  end.

Fixpoint run_block (b : list instr) (s : mach) : exit * mach :=
  match b with
  | [] => (Fall, s)
  | i :: b => match istep i s with inl s => run_block b s | inr e => e end
  end.

(** ** The blocks of the source *)
Section blocks.
(** The addresses of the labels [2:] in [sched_run_tick] and [enter_sched]. *)
Variables L_tick L_enter : Z.

(** [sched_run_tick], up to the jump and after the label; its operands are [cl = 1],
    [rdi = ip], [rsi = sp] and [r8 = cr3]. *)
Definition tick_out : list instr :=
  [Push RBX; Push RBP; Pushfq; FromCr3 R9; Push R9; ToCr3 R8; StoreGs 0x9 RCX;
   MovImm R8 L_tick; StoreGs 0x22 RSP; StoreGs 0x2A R8; Mov RSP RSI; Jmp RDI].
Definition tick_in : list instr := [Pop RAX; ToCr3 RAX; Popfq; Pop RBP; Pop RBX].

(** [enter_sched], up to the jump and after the label; its operand is [cl = 0]. *)
Definition enter_out : list instr :=
  [Push RBX; Push RBP; Pushfq; Cli; StoreGs 0x9 RCX; MovImm RDI L_enter; Mov RSI RSP;
   LoadGs RSP 0x22; LoadGs RAX 0x2A; Jmp RAX].
Definition enter_in : list instr := [Popfq; Pop RBP; Pop RBX].

(** The registers each of the two assembly statements names as outputs: the compiler
    keeps nothing in them over the statement, and keeps what it likes in the others. *)
Definition tick_clobbers : list reg := [RAX; R15; R14; R13; R12; R11; R10; R9; R8; RDI; RSI; RDX; RCX].
Definition enter_clobbers : list reg := [RAX; R15; R14; R13; R12; R11; R10; R9; R8; RDI; RSI; RDX; RCX].

(** [start_new_task]. *)
Definition start_new_task (after_start_cleanup : mach → mach) : list instr :=
  [MovImm8 RCX 2; StoreGs 0x9 RCX; Call after_start_cleanup; Pop RDI;
   Xor R15; Xor R14; Xor R13; Xor R12; Xor R11; Xor R10; Xor R9; Xor R8; Xor RSI; Xor RDX;
   Xor RCX; Xor RBX; Xor RAX; Xor RBP; Iretq].

(** The three entries of system calls. *)
Definition syscall_kernel_handler (bad_interrupts_held : Z) (syscall_handler : mach → mach) : list instr :=
  [JneGs 0x32 bad_interrupts_held; Push RBP; Push R15; Pushfq; Cli; MovImm8 RAX 1; StoreGs 0x9 RAX;
   Mov R15 RSP; LoadGs RSP 0x1A; Sti; Call syscall_handler; Cli; MovImm8 RCX 2; StoreGs 0x9 RCX;
   Mov RSP R15; Popfq; Pop R15; Pop RBP; Ret].

Definition wrapped_syscall_handler (syscall_handler : mach → mach) : list instr :=
  [MovImm8 RAX 1; StoreGs 0x9 RAX; Sti; Call syscall_handler; Cli; MovImm8 RCX 2; StoreGs 0x9 RCX;
   Xor R11; Xor R10; Xor R9; Xor R8; Xor RDI; Xor RSI; Xor RDX; Xor RCX; Iretq].

Definition syscall_sysret_handler (syscall_handler : mach → mach) : list instr :=
  [MovImm8 RAX 1; StoreGs 0x9 RAX; Mov R15 RSP; Mov R14 R11; Mov R13 RCX; Mov RCX R10;
   LoadGs RSP 0x1A; Sti; Call syscall_handler; Cli; Xor R10; Xor R9; Xor R8; Xor RDI; Xor RSI;
   MovImm8 RCX 2; StoreGs 0x9 RCX; Mov RCX R13; Mov R11 R14; Mov RSP R15; Sysretq].

(** [wrap_function_registers!]. *)
Definition wrap_function_registers (f : mach → mach) : list instr :=
  [Push RBP; Push RAX; Push RBX; Push RCX; Push RDX; Push RSI; Push RDI; Push R8; Push R9; Push R10;
   Push R11; Push R12; Push R13; Push R14; Push R15; Mov RSI RSP; Mov RDI RSP; AddImm RDI (15 * 8); Call f;
   Pop R15; Pop R14; Pop R13; Pop R12; Pop R11; Pop R10; Pop R9; Pop R8; Pop RDI; Pop RSI; Pop RDX;
   Pop RCX; Pop RBX; Pop RAX; Pop RBP; Iretq].
End blocks.

(** ** What the processor does on the way in *)

(** [syscall]: no memory is touched; [mask] is the flag mask [enable_syscall] sets. *)
Definition do_syscall (mask : Z) (s : mach) (next : Z) : mach :=
  set_seg (set_flags (set_reg (set_reg s RCX next) R11 (flags s)) (Z.ldiff (flags s) mask)) syscall_cs syscall_ss.

(** [int 0x80] from the user: the stack of the task state segment, then the frame. *)
Definition do_int (s : mach) (rsp0 next : Z) : mach :=
  let t := set_reg s RSP rsp0 in
  set_seg (set_flags (push (push (push (push (push t (ss s)) (rsp (rs s))) (flags s)) (cs s)) next)
    (Z.ldiff (flags s) IF)) KERNEL_CODE_SELECTOR 0.

(** [call rax]. *)
Definition do_call (s : mach) (next : Z) : mach := push s next.

(** ** [make_syscall!] *)
Inductive flavour := Kernel | Iret | Syscall.

(** The register of the third argument: [syscall] overwrites [rcx]. *)
Definition arg3_reg (k : flavour) : reg := match k with Syscall => R10 | _ => RCX end.

(** The inputs of the assembly block: the number and up to five arguments. *)
Definition make_syscall (k : flavour) (number : Z) (args : list Z) (g : regs) : regs :=
  let g := put g RDI number in
  let fix go (rl : list reg) (args : list Z) (g : regs) :=
    match rl, args with
    | r :: rl, a :: args => go rl args (put g r a)
    | _, _ => g
    end in
  go [RSI; RDX; arg3_reg k; R8; R9] args g.

(** The registers the block declares as overwritten. *)
Definition clobbered (k : flavour) : list reg :=
  match k with
  | Syscall => [RAX; R15; R14; R13; R11; R10; R9; R8; RDI; RSI; RDX; RCX]
  | _ => [RAX; R11; R10; R9; R8; RDI; RSI; RDX; RCX]
  end.


(** A whole system call, from the macro to the instruction behind it. *)
Definition system_call (k : flavour) (bad_interrupts_held next : Z) (syscall_handler : mach → mach)
    (number : Z) (args : list Z) (s : mach) : exit * mach :=
  let s := set_rs s (make_syscall k number args (rs s)) in
  match k with
  | Kernel => run_block (syscall_kernel_handler bad_interrupts_held syscall_handler) (do_call s next)
  | Iret => run_block (wrapped_syscall_handler syscall_handler)
              (do_int s (current_task_kernel_stack_top (gs s)) next)
  | Syscall => run_block (syscall_sysret_handler syscall_handler) (do_syscall flag_mask s next)
  end.

(** ** A new thread

    The words [Process::new_thread] writes at the saved stack pointer: the argument and
    the interrupt frame. *)
Definition new_thread_words (p : ProcessPrivilige) (entry_point arg stack_pointer : Z) : list Z :=
  [arg; entry_point; get_code_segment p; 0x202; stack_pointer; get_data_segment p].

Definition words_at (m : Z → Z) (a : Z) (ws : list Z) : Prop :=
  ∀ i w, ws !! i = Some w → m (a + 8 * Z.of_nat i) = w.

(** ** Symbolic execution *)
Lemma gs_read_fields g :
  gs_read g 0x1 = Some (stack_top g) ∧ gs_read g 0x9 = Some (current_context g) ∧
  gs_read g 0x1A = Some (current_task_kernel_stack_top g) ∧ gs_read g 0x22 = Some (sched_task_sp g) ∧
  gs_read g 0x2A = Some (sched_task_ip g) ∧ gs_read g 0x32 = Some (hold_interrupts_depth g).
Proof. by destruct g. Qed.

Lemma gs_write_fields g v :
  gs_write g 0x9 v = Some (with_context g (v mod 256)) ∧
  gs_write g 0x22 v = Some (with_sched g v (sched_task_ip g)) ∧
  gs_write g 0x2A v = Some (with_sched g (sched_task_sp g) v).
Proof. by destruct g. Qed.

Lemma run_cons i b s : run_block (i :: b) s = match istep i s with inl s => run_block b s | inr e => e end.
Proof. reflexivity. Qed.
(** Pushing on a machine given by its fields. *)
Lemma push_mk a b c d si di p q x8 x9 x10 x11 x12 x13 x14 x15 fl c3 m g c1 c2 v :
  push (mkMach (mkRegs a b c d si di p q x8 x9 x10 x11 x12 x13 x14 x15) fl c3 m g c1 c2) v =
  mkMach (mkRegs a b c d si di p (q - 8) x8 x9 x10 x11 x12 x13 x14 x15) fl c3 (<[q - 8 := v]> m) g c1 c2.
Proof. reflexivity. Qed.
Lemma run_nil s : run_block [] s = (Fall, s).
Proof. reflexivity. Qed.

(** Words of the stack that were just pushed. *)
Lemma word_eq (m : Z → Z) a v b : a = b → <[a := v]> m b = v.
Proof. intros ->. apply fn_lookup_insert. Qed.
Lemma word_ne (m : Z → Z) a v b : a ≠ b → <[a := v]> m b = m b.
Proof. apply fn_lookup_insert_ne. Qed.
Ltac stack_words :=
  repeat match goal with |- context [<[?a := ?v]> ?m ?b] =>
    first [rewrite (word_ne m a v b) by lia | rewrite (word_eq m a v b) by lia] end.

(** Run a block on a machine given by its fields, an instruction at a time. *)
Ltac mach_simpl :=
  cbn [get put rs flags cr3 mem gs cs ss rax rbx rcx rdx rsi rdi rbp rsp r8 r9 r10 r11 r12 r13 r14 r15].
Ltac gs_simpl :=
  repeat match goal with
  | |- context [gs_write _ 0x9 _] => rewrite (proj1 (gs_write_fields _ _))
  | |- context [gs_write _ 0x22 _] => rewrite (proj1 (proj2 (gs_write_fields _ _)))
  | |- context [gs_write _ 0x2A _] => rewrite (proj2 (proj2 (gs_write_fields _ _)))
  | |- context [gs_read _ 0x1A] => rewrite (proj1 (proj2 (proj2 (gs_read_fields _))))
  | |- context [gs_read _ 0x22] => rewrite (proj1 (proj2 (proj2 (proj2 (gs_read_fields _)))))
  | |- context [gs_read _ 0x2A] => rewrite (proj1 (proj2 (proj2 (proj2 (proj2 (gs_read_fields _))))))
  | |- context [gs_read _ 0x32] => rewrite (proj2 (proj2 (proj2 (proj2 (proj2 (gs_read_fields _))))))
  end.
Ltac exec_step :=
  first [rewrite run_cons | rewrite run_nil];
  unfold istep; rewrite ?push_mk; unfold drop_words, top, set_reg, set_rs, set_flags, set_cr3, set_gs, set_seg;
  mach_simpl; gs_simpl; cbv beta iota.
Ltac exec_block :=
  unfold tick_out, tick_in, enter_out, enter_in, start_new_task, syscall_kernel_handler,
    wrapped_syscall_handler, syscall_sysret_handler, wrap_function_registers;
  repeat exec_step.

Section switch.
Variables L_tick L_enter : Z.

Lemma tick_out_spec s :
  let m := <[rsp (rs s) - 8 - 8 - 8 - 8 := cr3 s]> (<[rsp (rs s) - 8 - 8 - 8 := flags s]>
           (<[rsp (rs s) - 8 - 8 := rbp (rs s)]> (<[rsp (rs s) - 8 := rbx (rs s)]> (mem s)))) in
  ∃ s', run_block (tick_out L_tick) s = (JumpTo (rdi (rs s)), s') ∧
    mem s' = m ∧ rsp (rs s') = rsi (rs s) ∧ cr3 s' = r8 (rs s) ∧ flags s' = flags s ∧
    gs s' = with_sched (with_context (gs s) (rcx (rs s) mod 256)) (rsp (rs s) - 8 - 8 - 8 - 8) L_tick.
Proof.
  destruct s as [[] fl c m g c1 c2]. mach_simpl. cbv zeta. exec_block. eexists. split; [reflexivity|]. by split_and!.
Qed.

Lemma enter_out_spec s :
  let m := <[rsp (rs s) - 8 - 8 - 8 := flags s]>
           (<[rsp (rs s) - 8 - 8 := rbp (rs s)]> (<[rsp (rs s) - 8 := rbx (rs s)]> (mem s))) in
  ∃ s', run_block (enter_out L_enter) s = (JumpTo (sched_task_ip (gs s)), s') ∧
    mem s' = m ∧ rsp (rs s') = sched_task_sp (gs s) ∧ cr3 s' = cr3 s ∧
    rdi (rs s') = L_enter ∧ rsi (rs s') = rsp (rs s) - 8 - 8 - 8 ∧ flags s' = Z.ldiff (flags s) IF ∧
    gs s' = with_context (gs s) (rcx (rs s) mod 256).
Proof.
  destruct s as [[] fl c m g c1 c2]. mach_simpl. cbv zeta. exec_block. eexists. split; [reflexivity|]. by split_and!.
Qed.

Lemma tick_in_spec s :
  ∃ s', run_block tick_in s = (Fall, s') ∧ cr3 s' = mem s (rsp (rs s)) ∧ flags s' = mem s (rsp (rs s) + 8) ∧
    rbp (rs s') = mem s (rsp (rs s) + 16) ∧ rbx (rs s') = mem s (rsp (rs s) + 24) ∧
    rsp (rs s') = rsp (rs s) + 32 ∧ rdi (rs s') = rdi (rs s) ∧ rsi (rs s') = rsi (rs s) ∧
    mem s' = mem s ∧ gs s' = gs s.
Proof.
  destruct s as [[] fl c m g c1 c2]. mach_simpl. exec_block.
  eexists. split; [reflexivity|]. mach_simpl. split_and!; try done; try lia; f_equal; lia.
Qed.

Lemma enter_in_spec s :
  ∃ s', run_block enter_in s = (Fall, s') ∧ flags s' = mem s (rsp (rs s)) ∧
    rbp (rs s') = mem s (rsp (rs s) + 8) ∧ rbx (rs s') = mem s (rsp (rs s) + 16) ∧
    rsp (rs s') = rsp (rs s) + 24 ∧ cr3 s' = cr3 s ∧ mem s' = mem s ∧ gs s' = gs s.
Proof.
  destruct s as [[] fl c m g c1 c2]. mach_simpl. exec_block.
  eexists. split; [reflexivity|]. mach_simpl. split_and!; try done; try lia; f_equal; lia.
Qed.

(** [n] words below [a] and [k] words below [b] do not overlap. *)
Definition apart (a n b k : Z) : Prop := a <= b - 8 * k ∨ b <= a - 8 * n.

(** What the two statements do not declare as overwritten is what their assembly saves. *)
Lemma clobbers_tick g g' r :
  rsp g' = rsp g → rbx g' = rbx g → rbp g' = rbp g → r ∉ tick_clobbers → get g' r = get g r.
Proof. destruct r; try done; intros _ _ _ []; unfold tick_clobbers; set_solver. Qed.
Lemma clobbers_enter g g' r :
  rsp g' = rsp g → rbx g' = rbx g → rbp g' = rbp g → r ∉ enter_clobbers → get g' r = get g r.
Proof. destruct r; try done; intros _ _ _ []; unfold enter_clobbers; set_solver. Qed.

(** C8: a scheduler runs a thread with [sched_run_tick]; when the thread, having used the
    core as it likes but for the scheduler's stack words and the two saved fields, calls
    [enter_sched], the scheduler goes on behind the jump with every register its assembly
    statement does not declare as overwritten (the stack pointer, [rbx] and [rbp] are left
    to the assembly, [r12] to [r15] to the compiler), its flags and its address space, and
    with the place to resume the thread at in the registers it is read from.  When any
    scheduler, of this or of another core, later runs the thread at that place, the thread
    goes on behind its own jump with every register [enter_sched] does not declare as
    overwritten and its flags, in the address space it is given; neither side writes a
    word beyond what it pushes. *)
Theorem context_switch S0 e0 S1 T :
  run_block (tick_out L_tick) S0 = (e0, S1) →
  sched_task_sp (gs T) = sched_task_sp (gs S1) → sched_task_ip (gs T) = sched_task_ip (gs S1) →
  (∀ a, rsp (rs S0) - 32 <= a < rsp (rs S0) → mem T a = mem S1 a) →
  apart (rsp (rs S0)) 4 (rsp (rs T)) 3 →
  ∃ T1 S2, e0 = JumpTo (rdi (rs S0)) ∧ rsp (rs S1) = rsi (rs S0) ∧ cr3 S1 = r8 (rs S0) ∧
    run_block (enter_out L_enter) T = (JumpTo L_tick, T1) ∧ run_block tick_in T1 = (Fall, S2) ∧
    (∀ r, r ∉ tick_clobbers → get (rs S2) r = get (rs S0) r) ∧
    rsp (rs S2) = rsp (rs S0) ∧ rbx (rs S2) = rbx (rs S0) ∧ rbp (rs S2) = rbp (rs S0) ∧
    rdi (rs S2) = L_enter ∧ rsi (rs S2) = rsp (rs T) - 24 ∧
    flags S2 = flags S0 ∧ cr3 S2 = cr3 S0 ∧ current_context (gs S2) = rcx (rs T) mod 256 ∧
    (∀ a, ¬ (rsp (rs T) - 24 <= a < rsp (rs T)) → mem S2 a = mem T a) ∧
    ∀ S3, rdi (rs S3) = rdi (rs S2) → rsi (rs S3) = rsi (rs S2) →
      (∀ a, rsp (rs T) - 24 <= a < rsp (rs T) → mem S3 a = mem S2 a) →
      apart (rsp (rs S3)) 4 (rsp (rs T)) 3 →
      ∃ S4 T', run_block (tick_out L_tick) S3 = (JumpTo L_enter, S4) ∧ run_block enter_in S4 = (Fall, T') ∧
        (∀ r, r ∉ enter_clobbers → get (rs T') r = get (rs T) r) ∧
        rsp (rs T') = rsp (rs T) ∧ rbx (rs T') = rbx (rs T) ∧ rbp (rs T') = rbp (rs T) ∧
        flags T' = flags T ∧ cr3 T' = r8 (rs S3) ∧ current_context (gs T') = rcx (rs S3) mod 256 ∧
        (∀ a, ¬ (rsp (rs S3) - 32 <= a < rsp (rs S3)) → mem T' a = mem S3 a).
Proof.
  intros H0 Hsp Hip Hkeep Hap. unfold apart in *.
  destruct (tick_out_spec S0) as (S1' & E0 & Em0 & Er0 & Ec0 & _ & Eg0). rewrite E0 in H0. injection H0 as <- <-.
  destruct (enter_out_spec T) as (T1 & E1 & Em1 & Er1 & Ec1 & Edi & Esi & _ & Eg1).
  destruct (tick_in_spec T1) as (S2 & E2 & Hc2 & Hf2 & Hbp2 & Hbx2 & Hsp2 & Hdi2 & Hsi2 & Hm2 & Hg2).
  rewrite Eg0 in Hsp, Hip. cbn in Hsp, Hip. rewrite Hsp in Er1. rewrite Hip in E1.
  assert (Hw : ∀ a, rsp (rs S0) - 32 <= a < rsp (rs S0) → mem T1 a = mem S1' a).
  { intros a Ha. rewrite Em1, !fn_lookup_insert_ne by lia. by apply Hkeep. }
  exists T1, S2. rewrite Er1 in *.
  assert (rsp (rs S2) = rsp (rs S0)) by lia.
  assert (rbx (rs S2) = rbx (rs S0)) by (rewrite Hbx2, Hw, Em0 by lia; by stack_words).
  assert (rbp (rs S2) = rbp (rs S0)) by (rewrite Hbp2, Hw, Em0 by lia; by stack_words).
  split_and!; try done.
  - intros r. by apply clobbers_tick.
  - congruence.
  - lia.
  - rewrite Hf2, Hw, Em0 by lia. by stack_words.
  - rewrite Hc2, Hw, Em0 by lia. by stack_words.
  - by rewrite Hg2, Eg1.
  - intros a Ha. rewrite Hm2, Em1. by rewrite !fn_lookup_insert_ne by lia.
  - intros S3 Hdi3 Hsi3 Hkeep3 Hap3.
    destruct (tick_out_spec S3) as (S4 & E4 & Em4 & Er4 & Ec4 & _ & Eg4).
    destruct (enter_in_spec S4) as (T' & E5 & Hf5 & Hbp5 & Hbx5 & Hsp5 & Hc5 & Hm5 & Hg5).
    rewrite Hdi3, Hdi2, Edi in E4. rewrite Hsi3, Hsi2, Esi in Er4. rewrite Er4 in *.
    assert (Hw3 : ∀ a, rsp (rs T) - 24 <= a < rsp (rs T) → mem S4 a = mem T1 a).
    { intros a Ha. rewrite Em4, !fn_lookup_insert_ne by lia. by rewrite Hkeep3, Hm2. }
    assert (rsp (rs T') = rsp (rs T)) by lia.
    assert (rbx (rs T') = rbx (rs T)) by (rewrite Hbx5, Hw3, Em1 by lia; by stack_words).
    assert (rbp (rs T') = rbp (rs T)) by (rewrite Hbp5, Hw3, Em1 by lia; by stack_words).
    exists S4, T'. split_and!; try done.
    + intros r. by apply clobbers_enter.
    + rewrite Hf5, Hw3, Em1 by lia. by stack_words.
    + congruence.
    + by rewrite Hg5, Eg4.
    + intros a Ha. rewrite Hm5, Em4. by rewrite !fn_lookup_insert_ne by lia.
Qed.
End switch.

(** A scheduler at stack [0x5000] that runs a thread at stack [0x9000]. *)
Definition ex_regs (di si sp : Z) : regs := mkRegs 0 11 1 0 si di 22 sp 0x77000 0 0 0 0 0 0 0.
Definition ex_sched : mach :=
  mkMach (ex_regs 0x400 0x9000 0x5000) 0x2 0x66000 (λ _, 0) (ls (boot_cpu 0)) 8 16.
Definition ex_jumped : mach := Eval vm_compute in snd (run_block (tick_out 0x100) ex_sched).
Definition ex_thread : mach :=
  mkMach (mkRegs 0 33 0 0 0 0 44 0x9000 0 0 0 0 0 0 0 0) 0x2 (cr3 ex_jumped) (mem ex_jumped) (gs ex_jumped) 8 16.

Lemma context_switch_witness :
  ∃ T1 S2, run_block (enter_out 0x200) ex_thread = (JumpTo 0x100, T1) ∧ run_block tick_in T1 = (Fall, S2) ∧
    rsp (rs S2) = 0x5000 ∧ rbx (rs S2) = 11 ∧ rbp (rs S2) = 22 ∧ cr3 S2 = 0x66000.
Proof.
  destruct (context_switch 0x100 0x200 ex_sched (JumpTo 0x400) ex_jumped ex_thread) as (T1 & S2 & H).
  - vm_compute. reflexivity.
  - reflexivity.
  - reflexivity.
  - intros a _. reflexivity.
  - left. vm_compute. discriminate.
  - destruct H as (_ & _ & _ & H1 & H2 & Hk & H3 & H4 & H5 & _ & _ & _ & H6 & _). exists T1, S2. exact (conj H1 (conj H2 (conj H3 (conj H4 (conj H5 H6))))).
Defined.

(** ** System calls *)
#[export] Instance reg_eq_dec : EqDecision reg.
Proof. solve_decision. Defined.

(** The arguments in the order of the C calling convention, after the number in [rdi]. *)
Definition c_args : list reg := [RSI; RDX; RCX; R8; R9].

Lemma make_syscall_spec k n args g :
  (length args ≤ 5)%nat →
  rdi (make_syscall k n args g) = n ∧
  (∀ i a, args !! i = Some a → ∃ r, [RSI; RDX; arg3_reg k; R8; R9] !! i = Some r ∧ get (make_syscall k n args g) r = a) ∧
  (∀ r, r ∉ [RDI; RSI; RDX; arg3_reg k; R8; R9] → get (make_syscall k n args g) r = get g r).
Proof.
  intros Hl. destruct g.
  destruct args as [|a1 [|a2 [|a3 [|a4 [|a5 [|]]]]]]; try (cbn in Hl; lia);
    (split; [by destruct k|split]).
  all: try (intros i a; repeat (destruct i as [|i]; [intros [= <-]; eexists; split; [reflexivity|by destruct k]|]); done).
  all: intros r Hr; destruct k, r; first [reflexivity | exfalso; apply Hr; cbn; set_solver].
Qed.

Lemma low_byte v b : 0 <= b < 256 → (v - v mod 256 + b) mod 256 = b.
Proof.
  intros Hb. rewrite (Z.div_mod v 256) at 1 by lia.
  replace (256 * (v / 256) + v mod 256 - v mod 256 + b) with (b + v / 256 * 256) by lia.
  rewrite Z.mod_add by lia. by apply Z.mod_small.
Qed.

Lemma sti_on f : Z.land (Z.lor f IF) IF = IF.
Proof.
  apply Z.bits_inj'. intros n Hn. rewrite Z.land_spec, Z.lor_spec. by destruct (Z.testbit f n), (Z.testbit IF n).
Qed.

(** What the handler is entered with. *)
Record entry_ok (k : flavour) (number : Z) (args : list Z) (s E : mach) : Prop := {
  entry_number : rdi (rs E) = number;
  entry_args : ∀ i a, args !! i = Some a → ∃ r, c_args !! i = Some r ∧ get (rs E) r = a;
  entry_context : current_context (gs E) = 1;
  entry_stack : current_task_kernel_stack_top (gs s) - 48 <= rsp (rs E) < current_task_kernel_stack_top (gs s);
  entry_irq : Z.land (flags E) IF = IF;
}.

(** What the caller finds behind the call. *)
Record return_ok (k : flavour) (s E R : mach) : Prop := {
  return_rax : rax (rs R) = rax (rs E);
  return_rsp : rsp (rs R) = rsp (rs s);
  return_flags : flags R = flags s;
  return_seg : cs R = cs s ∧ ss R = ss s;
  return_regs : ∀ r, r ∉ clobbered k → get (rs R) r = get (rs s) r;
  return_context : current_context (gs R) = 2;
}.

(** The words of the stack a system call relies on while the handler runs. *)
Definition saved_words (k : flavour) (s : mach) (a : Z) : Prop :=
  match k with
  | Kernel => rsp (rs s) - 32 <= a < rsp (rs s)
  | Iret => current_task_kernel_stack_top (gs s) - 40 <= a < current_task_kernel_stack_top (gs s)
  | Syscall => False
  end.

(** Who makes the call: a user with the user's selectors, or the kernel with none of its
    interrupts held, on a stack of its own. *)
Definition may_call (k : flavour) (s : mach) : Prop :=
  match k with
  | Kernel => hold_interrupts_depth (gs s) = 0 ∧
      apart (current_task_kernel_stack_top (gs s)) 1 (rsp (rs s)) 4
  | Iret => True
  | Syscall => cs s = USER_CODE_SELECTOR ∧ ss s = USER_DATA_SELECTOR
  end.

Definition left_to (k : flavour) (next : Z) : exit := match k with Kernel => JumpTo next | _ => User next end.

(** Membership of concrete lists of registers. *)
Ltac reg_in := apply (bool_decide_unpack _); vm_compute; exact I.
Ltac kept_regs Hr Hc :=
  match type of Hc with ?r ∉ _ =>
    destruct r; first [exfalso; apply Hc; reg_in
      | apply (Hr RBX); reg_in | apply (Hr RBP); reg_in | apply (Hr RSP); reg_in | apply (Hr R12); reg_in
      | apply (Hr R13); reg_in | apply (Hr R14); reg_in | apply (Hr R15); reg_in ]
  end.

(** What the convention says of the call in state [E]. *)
Ltac kept_by Habi E :=
  pose proof (abi_rbx _ _ Habi E) as Hb; pose proof (abi_rbp _ _ Habi E) as Hbp; pose proof (abi_r12 _ _ Habi E) as H12;
  pose proof (abi_r13 _ _ Habi E) as H13; pose proof (abi_r14 _ _ Habi E) as H14; pose proof (abi_r15 _ _ Habi E) as H15.
(** The arguments, one position after the other. *)
Ltac by_position Ha :=
  intros i a Hi; destruct (Ha i a Hi) as (r & Hri & Hg);
  do 5 (destruct i as [|i]; [cbn in Hri; simplify_eq; eexists; split; [reflexivity|reflexivity]|]); done.

(** Run up to the call of the handler, name the state it is entered with, and go on
    with what the convention says of the state it returns. *)
Ltac exec_to_call :=
  repeat lazymatch goal with
  | |- context [run_block (Call _ :: _) _] => fail
  | _ => exec_step
  end.

Section system_calls.
Variables (bad next : Z) (h : mach → mach).

Lemma syscall_entry number args s :
  (length args ≤ 5)%nat → abi (saved_words Syscall s) h → may_call Syscall s →
  ∃ E R, system_call Syscall bad next h number args s = (User next, R) ∧
    entry_ok Syscall number args s E ∧ return_ok Syscall s (h E) R.
Proof.
  intros Hl Habi [Hcs Hss]. unfold system_call. destruct (make_syscall_spec Syscall number args (rs s) Hl) as (Hn & Ha & Hr).
  destruct (make_syscall _ _ _ _) as [ra rb rc rd rsi' rdi' rbp' rsp' x8 x9 x10 x11 x12 x13 x14 x15].
  destruct s as [G fl c m g c1 c2]. cbn [rs cs ss] in *. unfold do_syscall, set_rs, set_flags, set_seg, set_reg.
  mach_simpl. unfold syscall_sysret_handler. exec_to_call. rewrite run_cons. unfold istep. rewrite push_mk.
  match goal with |- context [h ?X] => set (E := X) end.
  kept_by Habi E.
  destruct (h E) as [[ya yb yc yd ysi ydi ybp ysp y8 y9 y10 y11 y12 y13 y14 y15] fl' c' m' g' c1' c2'] eqn:Eh.
  cbn in Hb, Hbp, H12, H13, H14, H15. subst yb ybp y12 y13 y14 y15. exec_block.
  exists E. eexists. split; [reflexivity|]. split.
  - subst E. split; mach_simpl; [exact Hn| | |cbn [current_task_kernel_stack_top with_context]; lia|apply sti_on].
    + by_position Ha.
    + cbn. apply low_byte. lia.
  - rewrite Eh. cbn in Hcs, Hss. subst c1 c2. split; mach_simpl; try done.
    + apply (Hr RSP). reg_in.
    + intros r Hc. kept_regs Hr Hc.
    + cbn. apply low_byte. lia.
Qed.

Lemma iret_entry number args s :
  (length args ≤ 5)%nat → abi (saved_words Iret s) h →
  ∃ E R, system_call Iret bad next h number args s = (User next, R) ∧
    entry_ok Iret number args s E ∧ return_ok Iret s (h E) R.
Proof.
  intros Hl Habi. unfold system_call. destruct (make_syscall_spec Iret number args (rs s) Hl) as (Hn & Ha & Hr).
  destruct (make_syscall _ _ _ _) as [ra rb rc rd rsi' rdi' rbp' rsp' x8 x9 x10 x11 x12 x13 x14 x15].
  destruct s as [G fl c m g c1 c2]. cbn [rs cs ss gs] in *.
  unfold do_int, set_rs, set_reg, set_rs. mach_simpl. rewrite !push_mk. unfold set_flags, set_seg.
  mach_simpl. unfold wrapped_syscall_handler. exec_to_call. rewrite run_cons. unfold istep. rewrite push_mk.
  match goal with |- context [h ?X] => set (E := X) end.
  kept_by Habi E.
  pose proof (abi_rsp _ _ Habi E) as Hsp. pose proof (abi_mem _ _ Habi E) as Hm. unfold saved_words in Hm. cbn [gs] in Hm.
  destruct (h E) as [[ya yb yc yd ysi ydi ybp ysp y8 y9 y10 y11 y12 y13 y14 y15] fl' c' m' g' c1' c2'] eqn:Eh.
  cbn in Hb, Hbp, H12, H13, H14, H15, Hsp. subst yb ybp y12 y13 y14 y15 ysp.
  set (K := current_task_kernel_stack_top g) in *. cbn [mem] in Hm.
  assert (Hw : ∀ a, K - 40 <= a < K → m' a =
    <[K - 8 - 8 - 8 - 8 - 8 := next]> (<[K - 8 - 8 - 8 - 8 := c1]> (<[K - 8 - 8 - 8 := fl]> (<[K - 8 - 8 := rsp']> (<[K - 8 := c2]> m)))) a).
  { intros a Ha'. rewrite Hm by lia. subst E. mach_simpl.
    by rewrite fn_lookup_insert_ne by lia. }
  exec_block. exists E. eexists. split; [f_equal; f_equal; rewrite Hw by lia; by stack_words|]. split.
  - subst E. split; mach_simpl; [exact Hn| | |subst K; cbn [current_task_kernel_stack_top]; lia|apply sti_on].
    + by_position Ha.
    + cbn. apply low_byte. lia.
  - rewrite Eh. split; mach_simpl; try done.
    + rewrite Hw by lia. stack_words. apply (Hr RSP). reg_in.
    + rewrite Hw by lia. by stack_words.
    + split; rewrite Hw by lia; by stack_words.
    + intros r Hc. destruct (decide (r = RSP)) as [->|Hne]; [cbn [get]; mach_simpl; rewrite Hw by lia; stack_words; apply (Hr RSP); reg_in|].
      destruct r; try done; try (exfalso; apply Hc; reg_in).
      all: first [apply (Hr RBX); reg_in | apply (Hr RBP); reg_in | apply (Hr R12); reg_in
      | apply (Hr R13); reg_in | apply (Hr R14); reg_in | apply (Hr R15); reg_in ].
    + cbn. apply low_byte. lia.
Qed.

Lemma kernel_entry number args s :
  (length args ≤ 5)%nat → abi (saved_words Kernel s) h → may_call Kernel s →
  ∃ E R, system_call Kernel bad next h number args s = (JumpTo next, R) ∧
    entry_ok Kernel number args s E ∧ return_ok Kernel s (h E) R.
Proof.
  intros Hl Habi [Hd Hap]. unfold system_call. destruct (make_syscall_spec Kernel number args (rs s) Hl) as (Hn & Ha & Hr).
  assert (Hsp0 : rsp (make_syscall Kernel number args (rs s)) = rsp (rs s)) by (apply (Hr RSP); reg_in).
  destruct (make_syscall _ _ _ _) as [ra rb rc rd rsi' rdi' rbp' rsp' x8 x9 x10 x11 x12 x13 x14 x15].
  destruct s as [G fl c m g c1 c2]. cbn [rs cs ss gs rsp] in *. unfold apart in Hap. rewrite <- Hsp0 in Hap.
  unfold do_call, set_rs. mach_simpl. rewrite push_mk.
  unfold syscall_kernel_handler. rewrite run_cons. unfold istep. mach_simpl. gs_simpl. rewrite Hd. cbn [Z.eqb].
  exec_to_call. rewrite run_cons. unfold istep. rewrite push_mk.
  match goal with |- context [h ?X] => set (E := X) end.
  kept_by Habi E.
  pose proof (abi_mem _ _ Habi E) as Hm. pose proof (abi_seg _ _ Habi E) as Hseg. unfold saved_words in Hm. cbn [rs] in Hm. rewrite <- Hsp0 in Hm.
  destruct (h E) as [[ya yb yc yd ysi ydi ybp ysp y8 y9 y10 y11 y12 y13 y14 y15] fl' c' m' g' c1' c2'] eqn:Eh.
  cbn in Hb, Hbp, H12, H13, H14, H15, Hseg. subst yb ybp y12 y13 y14 y15. destruct Hseg as [-> ->]. cbn [mem] in Hm.
  assert (Hw : ∀ a, rsp' - 32 <= a < rsp' → m' a =
    <[rsp' - 8 - 8 - 8 - 8 := fl]> (<[rsp' - 8 - 8 - 8 := x15]> (<[rsp' - 8 - 8 := rbp']> (<[rsp' - 8 := next]> m))) a).
  { intros a Ha'. rewrite Hm by lia. subst E. mach_simpl.
    cbn [current_task_kernel_stack_top with_context]. by rewrite fn_lookup_insert_ne by lia. }
  exec_block. exists E. eexists. split; [f_equal; f_equal; rewrite Hw by lia; by stack_words|]. split.
  - subst E. split; mach_simpl; [exact Hn| | |cbn [current_task_kernel_stack_top with_context]; lia|apply sti_on].
    + by_position Ha.
    + cbn. apply low_byte. lia.
  - rewrite Eh. split; mach_simpl; try done.
    + lia.
    + rewrite Hw by lia. by stack_words.
    + intros r Hc. destruct r; try (exfalso; apply Hc; reg_in); mach_simpl.
      * apply (Hr RBX). reg_in.
      * rewrite Hw by lia. stack_words. apply (Hr RBP). reg_in.
      * lia.
      * apply (Hr R12). reg_in.
      * apply (Hr R13). reg_in.
      * apply (Hr R14). reg_in.
      * rewrite Hw by lia. stack_words. apply (Hr R15). reg_in.
    + cbn. apply low_byte. lia.
Qed.

(** C9: through each of the three entries (the call of kernel threads, [int 0x80] and
    [syscall]) the handler is entered on the thread's kernel stack, with interrupts on,
    and with the number and the arguments of [make_syscall!] as its C arguments; if it
    keeps the calling convention, the call returns behind the caller's instruction with
    the handler's result, the caller's stack, flags and selectors, and every register
    the macro does not declare as overwritten.  (Two comments of the source say otherwise:
    that system calls run without interrupts, and that the number is in [rax]; the entries
    execute [sti], and the macro puts the number into [rdi].) *)
Theorem system_call_spec k number args s :
  (length args ≤ 5)%nat → abi (saved_words k s) h → may_call k s →
  ∃ E R, system_call k bad next h number args s = (left_to k next, R) ∧
    entry_ok k number args s E ∧ return_ok k s (h E) R.
Proof.
  intros Hl Habi Hm. destruct k; cbn [left_to].
  - by apply kernel_entry.
  - by apply iret_entry.
  - by apply syscall_entry.
Qed.
End system_calls.

(** A handler that only returns 42, and a user that calls it. *)
Definition ex_handler (s : mach) : mach := set_reg s RAX 42.
Definition ex_user : mach :=
  mkMach (mkRegs 0 33 0 0 0 0 44 0x9000 0 0 0 0 55 66 77 88) 0x202 0x66000 (λ _, 0)
    (mkLS 0 0 2 0 0x1234 0xA000 0x5000 0x100 0 true 0) USER_CODE_SELECTOR USER_DATA_SELECTOR.

Lemma system_call_spec_witness :
  ∃ R, system_call Syscall 0 0x401 ex_handler 14 [1; 2; 3] ex_user = (User 0x401, R) ∧
    rax (rs R) = 42 ∧ rsp (rs R) = 0x9000 ∧ flags R = 0x202 ∧ r12 (rs R) = 55.
Proof.
  destruct (system_call_spec 0 0x401 ex_handler Syscall 14 [1; 2; 3] ex_user) as (E & R & H1 & H2 & H3).
  - cbn. lia.
  - split; try (intros [[] ? ? ? ? ? ?]; try split; reflexivity).
  - split; reflexivity.
  - exists R. split; [exact H1|]. destruct H3 as [Ha Hs Hf _ Hr _]. rewrite Ha, Hs, Hf.
    split_and!; try reflexivity; [by destruct E as [[] ? ? ? ? ? ?]|]. apply (Hr R12). reg_in.
Defined.

(** A kernel thread that makes a system call with interrupts held is stopped. *)
Lemma held_interrupts_call bad next h number args s :
  hold_interrupts_depth (gs s) ≠ 0 →
  fst (system_call Kernel bad next h number args s) = JumpTo bad.
Proof.
  intros Hd. unfold system_call. unfold syscall_kernel_handler. rewrite run_cons. unfold istep.
  change (gs (do_call _ _)) with (gs s). gs_simpl. by rewrite (proj2 (Z.eqb_neq _ _) Hd).
Qed.

(** The entry by [syscall] clears the scratch registers but [rdx], which the caller finds
    as the handler left it. *)
Lemma sysret_leaves_rdx next h number args s :
  ∃ E, rdx (rs (snd (system_call Syscall 0 next h number args s))) = rdx (rs (h E)).
Proof.
  unfold system_call. destruct (make_syscall _ _ _ _), s as [G fl c m g c1 c2].
  unfold do_syscall, set_rs, set_flags, set_seg, set_reg. mach_simpl. unfold syscall_sysret_handler.
  exec_to_call. rewrite run_cons. unfold istep. rewrite push_mk.
  match goal with |- context [h ?X] => exists X; set (E := X) end.
  destruct (h E) as [[] ? ? ? ? ? ?]. exec_block. reflexivity.
Qed.

(** The pops of the wrapper read the words of [Registers], from the lowest address. *)
Lemma wrap_pops m q fl c3 g c1 c2 a b c d si di p x8 x9 x10 x11 x12 x13 x14 x15 :
  run_block [Pop R15; Pop R14; Pop R13; Pop R12; Pop R11; Pop R10; Pop R9; Pop R8; Pop RDI; Pop RSI; Pop RDX;
     Pop RCX; Pop RBX; Pop RAX; Pop RBP; Iretq]
    (mkMach (mkRegs a b c d si di p q x8 x9 x10 x11 x12 x13 x14 x15) fl c3 m g c1 c2) =
  (User (m (q + 120)),
   mkMach (mkRegs (m (q + 104)) (m (q + 96)) (m (q + 88)) (m (q + 80)) (m (q + 72)) (m (q + 64)) (m (q + 112))
             (m (q + 144)) (m (q + 56)) (m (q + 48)) (m (q + 40)) (m (q + 32)) (m (q + 24)) (m (q + 16)) (m (q + 8)) (m q))
     (m (q + 136)) c3 m g (m (q + 128)) (m (q + 152))).
Proof. exec_block. repeat (f_equal; try lia). Qed.

(** Around the wrapped function the interrupted code keeps its registers. *)
Lemma wrap_restores f s :
  abi (λ a, rsp (rs s) - 120 <= a < rsp (rs s) + 40) f →
  ∃ R, run_block (wrap_function_registers f) s = (User (mem s (rsp (rs s))), R) ∧
    flags R = mem s (rsp (rs s) + 16) ∧ rsp (rs R) = mem s (rsp (rs s) + 24) ∧
    ∀ r, r ≠ RSP → get (rs R) r = get (rs s) r.
Proof.
  intros Habi. destruct s as [[a b c d si di p q x8 x9 x10 x11 x12 x13 x14 x15] fl c3 m g c1 c2]. mach_simpl.
  unfold wrap_function_registers. exec_to_call. rewrite run_cons. unfold istep. rewrite push_mk.
  match goal with |- context [f ?X] => remember X as E eqn:HE end.
  assert (Er : rsp (rs E) = q - 128) by (rewrite HE; mach_simpl; lia).
  assert (Ex : ∀ z, q <= z → mem E z = m z) by (intros z Hz; rewrite HE; mach_simpl; by stack_words).
  assert (Ew : ∀ z v, (z, v) ∈ [(q - 8, p); (q - 16, a); (q - 24, b); (q - 32, c); (q - 40, d); (q - 48, si); (q - 56, di);
    (q - 64, x8); (q - 72, x9); (q - 80, x10); (q - 88, x11); (q - 96, x12); (q - 104, x13); (q - 112, x14); (q - 120, x15)] → mem E z = v).
  { intros z v Hin. repeat (apply elem_of_cons in Hin as [[= -> ->]|Hin]; [rewrite HE; mach_simpl; by stack_words|]). by apply not_elem_of_nil in Hin. }
  clear HE. pose proof (abi_rsp _ _ Habi E) as Hsp. pose proof (abi_mem _ _ Habi E) as Hm. cbn [rs rsp] in Hm. rewrite Er in Hsp.
  destruct (f E) as [[] fl' c' m' g' c1' c2'] eqn:Eh. cbn [rs rsp mem] in Hsp, Hm. subst rsp0.
  unfold drop_words, set_reg, set_rs. mach_simpl. rewrite wrap_pops.
  replace (q - 128 + 8 * 1) with (q - 120) by lia.
  assert (Hx : ∀ z, q <= z < q + 40 → m' z = m z) by (intros z Hz; rewrite Hm, Ex by lia; done).
  assert (Hy : ∀ z, q - 120 <= z < q → m' z = mem E z) by (intros; apply Hm; lia).
  eexists. split; [f_equal; rewrite Hx by lia; do 2 f_equal; lia|]. mach_simpl.
  split_and!; [rewrite Hx by lia; f_equal; lia..|].
  intros r Hne. destruct r; try done; mach_simpl; rewrite Hy by lia; apply Ew;
    repeat first [apply elem_of_cons; left; f_equal; lia | apply elem_of_cons; right].
Qed.

Section new_thread.
Variables (L_tick : Z) (cleanup : mach → mach).

(** A thread that runs for the first time: the jump of [sched_run_tick] into
    [start_new_task] ends at the entry point, in the mode of the process, on the thread's
    stack, with interrupts on, the argument in [rdi] and every other register zero. *)
Theorem new_thread_starts p entry_point arg stack_pointer S :
  words_at (mem S) (rsi (rs S)) (new_thread_words p entry_point arg stack_pointer) →
  apart (rsp (rs S)) 4 (rsi (rs S) + 48) 6 → abi (λ a, rsi (rs S) <= a < rsi (rs S) + 48) cleanup →
  ∃ S1 T, run_block (tick_out L_tick) S = (JumpTo (rdi (rs S)), S1) ∧
    run_block (start_new_task cleanup) S1 = (User entry_point, T) ∧
    rs T = mkRegs 0 0 0 0 0 arg 0 stack_pointer 0 0 0 0 0 0 0 0 ∧
    flags T = 0x202 ∧ cs T = get_code_segment p ∧ ss T = get_data_segment p.
Proof.
  intros Hw Hap Habi. unfold apart in Hap.
  destruct (tick_out_spec L_tick S) as (S1 & E1 & Em & Er & Ec & Ef & Eg). exists S1.
  assert (Hk : ∀ a, rsi (rs S) <= a < rsi (rs S) + 48 → mem S1 a = mem S a).
  { intros a Ha. rewrite Em. by rewrite !fn_lookup_insert_ne by lia. }
  destruct S1 as [[a b c d si di p0 q x8 x9 x10 x11 x12 x13 x14 x15] fl c3 m g c1 c2]. cbn [rs rsp mem] in *. subst q.
  unfold start_new_task. exec_to_call. rewrite run_cons. unfold istep. rewrite push_mk.
  match goal with |- context [cleanup ?X] => set (E := X) end.
  pose proof (abi_rsp _ _ Habi E) as Hsp. pose proof (abi_mem _ _ Habi E) as Hm.
  destruct (cleanup E) as [[] fl' c' m' g' c1' c2'] eqn:Eh. cbn in Hsp. cbn [mem] in Hm. rewrite Hsp.
  assert (Hx : ∀ i w, new_thread_words p entry_point arg stack_pointer !! i = Some w → m' (rsi (rs S) + 8 * Z.of_nat i) = w).
  { intros i w Hi. assert (i < 6)%nat by (by apply lookup_lt_Some in Hi). rewrite Hm by lia.
    subst E. mach_simpl. rewrite fn_lookup_insert_ne, Hk by lia. by apply Hw. }
  exec_block.
  pose proof (Hx 0%nat _ eq_refl) as W0. pose proof (Hx 1%nat _ eq_refl) as W1. pose proof (Hx 2%nat _ eq_refl) as W2.
  pose proof (Hx 3%nat _ eq_refl) as W3. pose proof (Hx 4%nat _ eq_refl) as W4. pose proof (Hx 5%nat _ eq_refl) as W5.
  set (sp := rsi (rs S)) in *.
  replace (sp - 8 + 8 * 1) with sp by lia.
  eexists. split; [exact E1|]. split; [f_equal; f_equal; rewrite <- W1; f_equal; lia|]. mach_simpl.
  split_and!.
  - f_equal; [rewrite <- W0; f_equal; lia|rewrite <- W4; f_equal; lia].
  - rewrite <- W3. f_equal. lia.
  - rewrite <- W2. f_equal. lia.
  - rewrite <- W5. f_equal. lia.
Qed.
End new_thread.

(** [syscall] and [sysret] load the selectors of the descriptor table. *)
Lemma star_selectors :
  syscall_cs = KERNEL_CODE_SELECTOR ∧ syscall_ss = KERNEL_DATA_SELECTOR ∧
  sysret_cs = USER_CODE_SELECTOR ∧ sysret_ss = USER_DATA_SELECTOR ∧
  create_gdt_for_core !! Z.to_nat (KERNEL_CODE_SELECTOR / 8 - 1) = Some KernelCode ∧
  create_gdt_for_core !! Z.to_nat (KERNEL_DATA_SELECTOR / 8 - 1) = Some KernelData ∧
  create_gdt_for_core !! Z.to_nat (USER_CODE_SELECTOR / 8 - 1) = Some UserCode ∧
  create_gdt_for_core !! Z.to_nat (USER_DATA_SELECTOR / 8 - 1) = Some UserData ∧
  create_gdt_for_core !! Z.to_nat (TSS_SELECTOR / 8 - 1) = Some Tss.
Proof. by vm_compute. Qed.
