(* ===== verification/Ipc.v ===== *)
(** * Kernel objects: signals, ports, channels, interrupts, processes

    [kernel/src/object.rs], [port.rs], [channel.rs], [interrupts/mod.rs]
    ([KInterruptHandle]), [time.rs] and the object half of
    [scheduling/process.rs] and [scheduling/taskmanager.rs].  An [Arc] of an
    object is its number in the table of its kind; each operation runs under the
    object's lock and is one transition of [Kernel].  The strong counts of
    channel ends and of processes are kept: dropping the last one closes the end, or
    drops the process's reference table. *)
From S2P Require Import Prelude Sched.

(** ** Data *)

(** [ObjectSignal], a bit set over [u64]. *)
Definition READABLE : Z := Z.shiftl 1 1.
Definition CHANNEL_CLOSED : Z := Z.shiftl 1 20.
Definition PROCESS_EXITED : Z := Z.shiftl 1 20.
Definition ObjectSignal_all : Z := Z.lor READABLE (Z.lor CHANNEL_CLOSED PROCESS_EXITED).

Definition intersects (a b : Z) : bool := negb (Z.land a b =? 0).

Inductive PortNotificationType :=
  | SignalOne (trigger signals : Z)
  | Interrupt (timestamp : Z)
  | User (bytes : list Z).

Record PortNotification := mkNotif { key : Z; ty : PortNotificationType }.

Inductive SignalWaiterType :=
  | One (thread : nat)
  | WPort (port : nat) (key : Z).

Record SignalWaiter := mkWaiter { w_ty : SignalWaiterType; w_mask : Z }.

Record KObjectSignal := mkSignal { signal_status : Z; signal_waiters : list SignalWaiter }.

Definition KObjectSignal_new : KObjectSignal := mkSignal 0 [].

Record KPort := mkPort { p_queue : list PortNotification; p_waiters : list nat }.

Definition KPort_new : KPort := mkPort [] [].

(** [KernelValue]. *)
Inductive KernelValue :=
  | VMessage (m : nat)
  | VProcess (p : nat)
  | VChannel (c : nat)
  | VPort (p : nat)
  | VInterrupt (i : nat).

Record ChannelMessage := mkMsg { data : list Z; handles : option (list KernelValue) }.

Record KChannelInner := mkChanInner { signal : KObjectSignal; open : bool; queue : list ChannelMessage }.

Definition KChannelInner_default : KChannelInner := mkChanInner KObjectSignal_new true [].

(** [ch_strong] is the strong count of the [Arc<KChannelHandle>]. *)
Record KChannelHandle := mkChan { channel : KChannelInner; peer : nat; ch_strong : nat }.

Inductive InterruptWaiter :=
  | WaitNone
  | WaitThread (t : nat)
  | WaitPort (port : nat) (key : Z).

Record KInterruptHandle := mkInt { waiting_ack : bool; pending : bool; waiter : InterruptWaiter }.

Definition KInterruptHandle_new : KInterruptHandle := mkInt false false WaitNone.

Inductive ProcessExit := NotExitedYet | Exited.

(** [ProcessReferences]. *)
Record ProcessReferences := mkRefs { references : gmap Z KernelValue; next_id : Z }.

Record Process := mkProc {
  p_threads : gmap Z nat;      (* ProcessThreads::threads *)
  p_thread_next_id : Z;
  p_args : list Z;
  p_refs : ProcessReferences;
  p_exit_status : ProcessExit;
  p_signals : KObjectSignal;
}.

Record Kernel := mkKernel {
  k_sd : SchedData;
  k_ports : gmap nat KPort;
  k_chans : gmap nat KChannelHandle;
  k_ints : gmap nat KInterruptHandle;
  k_msgs : gmap nat (list Z);      (* KMessage *)
  k_procs : gmap nat Process;      (* by process number, the pid *)
  PROCESSES : gset nat;
  SLEPT_PROCESSES : list (Z * nat);
  k_next : nat;                    (* the next object *)
  k_arcs : gmap nat nat;           (* the strong counts of the [Arc<Process>]es, without the one in PROCESSES *)
}.

Definition upd_sd (k : Kernel) s := mkKernel s (k_ports k) (k_chans k) (k_ints k) (k_msgs k) (k_procs k) (PROCESSES k) (SLEPT_PROCESSES k) (k_next k) (k_arcs k).
Definition upd_ports (k : Kernel) x := mkKernel (k_sd k) x (k_chans k) (k_ints k) (k_msgs k) (k_procs k) (PROCESSES k) (SLEPT_PROCESSES k) (k_next k) (k_arcs k).
Definition upd_chans (k : Kernel) x := mkKernel (k_sd k) (k_ports k) x (k_ints k) (k_msgs k) (k_procs k) (PROCESSES k) (SLEPT_PROCESSES k) (k_next k) (k_arcs k).
Definition upd_ints (k : Kernel) x := mkKernel (k_sd k) (k_ports k) (k_chans k) x (k_msgs k) (k_procs k) (PROCESSES k) (SLEPT_PROCESSES k) (k_next k) (k_arcs k).
Definition upd_msgs (k : Kernel) x := mkKernel (k_sd k) (k_ports k) (k_chans k) (k_ints k) x (k_procs k) (PROCESSES k) (SLEPT_PROCESSES k) (k_next k) (k_arcs k).
Definition upd_procs (k : Kernel) x := mkKernel (k_sd k) (k_ports k) (k_chans k) (k_ints k) (k_msgs k) x (PROCESSES k) (SLEPT_PROCESSES k) (k_next k) (k_arcs k).
Definition upd_registered (k : Kernel) x := mkKernel (k_sd k) (k_ports k) (k_chans k) (k_ints k) (k_msgs k) (k_procs k) x (SLEPT_PROCESSES k) (k_next k) (k_arcs k).
Definition upd_slept (k : Kernel) x := mkKernel (k_sd k) (k_ports k) (k_chans k) (k_ints k) (k_msgs k) (k_procs k) (PROCESSES k) x (k_next k) (k_arcs k).
Definition upd_next (k : Kernel) x := mkKernel (k_sd k) (k_ports k) (k_chans k) (k_ints k) (k_msgs k) (k_procs k) (PROCESSES k) (SLEPT_PROCESSES k) x (k_arcs k).
Definition upd_arcs (k : Kernel) x := mkKernel (k_sd k) (k_ports k) (k_chans k) (k_ints k) (k_msgs k) (k_procs k) (PROCESSES k) (SLEPT_PROCESSES k) (k_next k) x.

(** Following an [Arc]: the object exists while there is a reference. *)
Definition deref_arc {A} (m : gmap nat A) (i : nat) : outcome A :=
  match m !! i with Some x => Done x | None => Panic PUnreachable end.

Definition kwake (k : Kernel) (t : nat) : outcome Kernel :=
  s ← wake (k_sd k) t; Done (upd_sd k s).

(** ** Ports *)

(** [KPort::notify]. *)
Definition port_notify (k : Kernel) (p : nat) (notif : PortNotification) : outcome Kernel :=
  this ← deref_arc (k_ports k) p;
  let q := p_queue this ++ [notif] in
  match p_waiters this with
  | t :: ws => kwake (upd_ports k (<[p := mkPort q ws]> (k_ports k))) t
  | [] => Done (upd_ports k (<[p := mkPort q []]> (k_ports k)))
  end.

(** One round of the loop of [KPort::wait] by [thread]: a notification, or the
    thread is registered and goes to sleep. *)
Definition port_wait_round (k : Kernel) (p thread : nat) : outcome (option PortNotification * Kernel) :=
  this ← deref_arc (k_ports k) p;
  match p_queue this with
  | n :: q => Done (Some n, upd_ports k (<[p := mkPort q (p_waiters this)]> (k_ports k)))
  | [] =>
      let k := upd_sd k (set_state (k_sd k) thread Sleeping) in
      Done (None, upd_ports k (<[p := mkPort [] (p_waiters this ++ [thread])]> (k_ports k)))
  end.

(** ** Signals *)
Definition signal_wait (s : KObjectSignal) (w : SignalWaiter) : KObjectSignal :=
  mkSignal (signal_status s) (signal_waiters s ++ [w]).

(** The body of the [for] loop of [set_signal]. *)
Definition fire_waiter (new : Z) (k : Kernel) (w : SignalWaiter) : outcome Kernel :=
  match w_ty w with
  | One t => kwake k t
  | WPort port key => port_notify k port (mkNotif key (SignalOne (w_mask w) new))
  end.

Fixpoint fire_waiters (new : Z) (k : Kernel) (ws : list SignalWaiter) : outcome Kernel :=
  match ws with
  | [] => Done k
  | w :: ws => k ← fire_waiter new k w; fire_waiters new k ws
  end.

Definition set_signal (k : Kernel) (s : KObjectSignal) (sig : Z) (status : bool)
  : outcome (KObjectSignal * Kernel) :=
  let new := if status then Z.lor (signal_status s) sig
             else Z.ldiff (signal_status s) sig in
  if new =? signal_status s then Done (s, k)
  else
    k ← fire_waiters new k (filter (λ w, intersects new (w_mask w) = true) (signal_waiters s));
    Done (mkSignal new (filter (λ w, intersects new (w_mask w) = false) (signal_waiters s)), k).

(** ** Channels *)
Definition CHANNEL_CAPACITY : Z := 10000.

Definition set_chan (k : Kernel) (c : nat) (x : KChannelHandle) : Kernel := upd_chans k (<[c := x]> (k_chans k)).

Definition chan_with (h : KChannelHandle) (x : KChannelInner) : KChannelHandle := mkChan x (peer h) (ch_strong h).

(** [Weak::upgrade] of the peer: the [Arc] it yields lives for the call. *)
Definition upgrade_peer (k : Kernel) (h : KChannelHandle) : option (nat * KChannelHandle) :=
  match k_chans k !! peer h with
  | Some p => if (0 <? ch_strong p)%nat then Some (peer h, p) else None
  | None => None
  end.

(** [channel_create]. *)
Definition channel_create (k : Kernel) : (nat * nat) * Kernel :=
  let l := k_next k in
  let r := S l in
  let k := set_chan k l (mkChan KChannelInner_default r 1) in
  let k := set_chan k r (mkChan KChannelInner_default l 1) in
  ((l, r), upd_next k (S r)).

(** [KChannelHandle::send]. *)
Definition chan_send (k : Kernel) (c : nat) (msg : ChannelMessage) : outcome (option unit * Kernel) :=
  this ← deref_arc (k_chans k) c;
  match upgrade_peer k this with
  | None => Done (None, k)
  | Some (p, h) =>
      let chan := channel h in
      if negb (open chan) then Done (None, k)
      else if CHANNEL_CAPACITY <? Z.of_nat (length (queue chan)) then Done (None, k)
      else
        '(sg, k) ← set_signal k (signal chan) READABLE true;
        Done (Some tt, set_chan k p (chan_with h (mkChanInner sg (open chan) (queue chan ++ [msg]))))
  end.

Inductive ReadError := Empty | Closed | Size (min_bytes min_handles : Z).

Definition handles_len (m : ChannelMessage) : Z :=
  match handles m with Some h => Z.of_nat (length h) | None => 0 end.

(** [KChannelHandle::read]. *)
Definition chan_read (k : Kernel) (c : nat) (max_bytes max_handles : Z)
  : outcome (result ChannelMessage ReadError * Kernel) :=
  h ← deref_arc (k_chans k) c;
  let chan := channel h in
  match queue chan with
  | [] => Done (Err (if open chan then Empty else Closed), k)
  | packet :: q =>
      let dl := Z.of_nat (length (data packet)) in
      if (max_bytes <? dl) || (max_handles <? handles_len packet) then
        Done (Err (Size dl (handles_len packet)), k)
      else
        let empty := match q with [] => true | _ => false end in
        '(sg, k) ← set_signal k (signal chan) READABLE (negb empty);
        Done (Ok packet, set_chan k c (chan_with h (mkChanInner sg (open chan) q)))
  end.

Definition proc_arcs (k : Kernel) (p : nat) : nat := default O (k_arcs k !! p).

(** Cloning a value: the counts of channel ends and processes matter, since something happens
    when they reach zero. *)
Definition clone_value (k : Kernel) (v : KernelValue) : Kernel :=
  match v with
  | VChannel c => upd_chans k (alter (λ h, mkChan (channel h) (peer h) (S (ch_strong h))) c (k_chans k))
  | VProcess p => upd_arcs k (<[p := S (proc_arcs k p)]> (k_arcs k))
  | _ => k
  end.

(** The handles in a queue. *)
Definition queued_values (q : list ChannelMessage) : list KernelValue :=
  concat ((λ m, default [] (handles m)) <$> q).

(** [close]: the second half tells the peer. *)
Definition close_peer (k : Kernel) (h : KChannelHandle) : outcome Kernel :=
  match upgrade_peer k h with
  | None => Done k
  | Some (p, ph) =>
      let chan := channel ph in
      '(sg, k) ← set_signal k (signal chan) CHANNEL_CLOSED true;
      Done (set_chan k p (chan_with ph (mkChanInner sg false (queue chan))))
  end.

Definition set_proc (k : Kernel) (p : nat) (x : Process) : Kernel := upd_procs k (<[p := x]> (k_procs k)).

Definition with_refs (x : Process) (r : ProcessReferences) : Process :=
  mkProc (p_threads x) (p_thread_next_id x) (p_args x) r (p_exit_status x) (p_signals x).

Fixpoint drop_each (drop : Kernel → KernelValue → outcome Kernel) (k : Kernel) (vs : list KernelValue) : outcome Kernel :=
  match vs with
  | [] => Done k
  | v :: vs => k ← drop k v; drop_each drop k vs
  end.

(** Dropping a value.  The last reference to a channel end closes it, which drops the handles in
    its queue; the last reference to a process drops its table of references (in no particular
    order: a [HashMap]).  Both can go on; the depth of that recursion is bounded by the number of
    live ends and processes.  Messages are bytes; a port holds nothing but numbers once nobody
    waits at it (a waiting thread has a reference to the port itself), and an interrupt handle
    holds at most a reference to a port.  The memory of the process is not in this state. *)
Fixpoint drop_value (fuel : nat) (k : Kernel) (v : KernelValue) : outcome Kernel :=
  match v with
  | VChannel c =>
      h ← deref_arc (k_chans k) c;
      match ch_strong h with
      | O => Panic PUnreachable
      | S (S n) => Done (set_chan k c (mkChan (channel h) (peer h) (S n)))
      | S O =>
          match fuel with
          | O => OutOfFuel
          | S fuel =>
              (* Drop for KChannelHandle: close *)
              let k := set_chan k c (mkChan (channel h) (peer h) 0) in
              let chan := channel h in
              '(sg, k) ← set_signal k (signal chan) CHANNEL_CLOSED true;
              let k := set_chan k c (mkChan (mkChanInner sg false []) (peer h) 0) in
              k ← drop_each (drop_value fuel) k (queued_values (queue chan));
              close_peer k h
          end
      end
  | VProcess p =>
      match proc_arcs k p with
      | O => Panic PUnreachable
      | S n =>
          let k := upd_arcs k (<[p := n]> (k_arcs k)) in
          if (0 <? n)%nat || bool_decide (p ∈ PROCESSES k) then Done k
          else
            match fuel with
            | O => OutOfFuel
            | S fuel =>
                x ← deref_arc (k_procs k) p;
                let k := set_proc k p (with_refs x (mkRefs ∅ (next_id (p_refs x)))) in
                drop_each (drop_value fuel) k (snd <$> map_to_list (references (p_refs x)))
            end
      end
  | _ => Done k
  end.

Definition live_chans (k : Kernel) : nat := size (filter (λ p, (0 <? ch_strong (snd p))%nat = true) (k_chans k)).
Definition live_procs (k : Kernel) : nat := size (filter (λ p, (0 <? snd p)%nat = true) (k_arcs k)).

Definition drop_kernel_value (k : Kernel) (v : KernelValue) : outcome Kernel :=
  drop_value (S (live_chans k + live_procs k)) k v.

(** ** Interrupt handles *)
Definition set_int (k : Kernel) (i : nat) (x : KInterruptHandle) : Kernel := upd_ints k (<[i := x]> (k_ints k)).

(** [KInterruptHandle::trigger]; [now] is [uptime()]. *)
Definition int_trigger (k : Kernel) (now : Z) (i : nat) : outcome Kernel :=
  this ← deref_arc (k_ints k) i;
  if pending this || waiting_ack this then
    Done (set_int k i (mkInt (waiting_ack this) true (waiter this)))
  else
    match waiter this with
    | WaitNone => Done (set_int k i (mkInt (waiting_ack this) true WaitNone))
    | WaitThread t =>
        k ← kwake k t;
        Done (set_int k i (mkInt (waiting_ack this) true WaitNone))
    | WaitPort port key => port_notify k port (mkNotif key (Interrupt now))
    end.

(** One round of [KInterruptHandle::wait]: [Ok (Some r)] returns to the caller,
    [Ok None] went to sleep, [Err tt] is the failed [kassert!]. *)
Definition int_wait_round (k : Kernel) (i thread : nat) : outcome (result (option Z) unit * Kernel) :=
  this ← deref_arc (k_ints k) i;
  match waiter this with
  | WaitNone =>
      if pending this then
        Done (Ok (Some 0), set_int k i (mkInt false false WaitNone))
      else
        let k := upd_sd k (set_state (k_sd k) thread Sleeping) in
        Done (Ok None, set_int k i (mkInt false (pending this) (WaitThread thread)))
  | _ => Done (Err tt, k)
  end.

Definition int_set_port (k : Kernel) (now : Z) (i port : nat) (ky : Z) : outcome Kernel :=
  this ← deref_arc (k_ints k) i;
  if pending this && negb (waiting_ack this) then
    k ← port_notify k port (mkNotif ky (Interrupt now));
    Done (set_int k i (mkInt true (pending this) (WaitPort port ky)))
  else Done (set_int k i (mkInt (waiting_ack this) (pending this) (WaitPort port ky))).

Definition int_ack (k : Kernel) (now : Z) (i : nat) : outcome Kernel :=
  this ← deref_arc (k_ints k) i;
  if pending this then
    match waiter this with
    | WaitNone => Done (set_int k i (mkInt true (pending this) WaitNone))
    | WaitThread t =>
        k ← kwake k t;
        Done (set_int k i (mkInt true (pending this) WaitNone))
    | WaitPort port ky =>
        k ← port_notify k port (mkNotif ky (Interrupt now));
        Done (set_int k i (mkInt true (pending this) (WaitPort port ky)))
    end
  else Done (set_int k i (mkInt false (pending this) (waiter this))).

(** [int_interrupt_handler]: every source of the vector is triggered. *)
Fixpoint int_interrupt_handler (k : Kernel) (now : Z) (sources : list nat) : outcome Kernel :=
  match sources with
  | [] => Done k
  | i :: sources => k ← int_trigger k now i; int_interrupt_handler k now sources
  end.

(** ** Processes *)
(** [ProcessReferences::add_value]. *)
Definition refs_add_value (r : ProcessReferences) (v : KernelValue) : outcome (Z * ProcessReferences) :=
  if next_id r =? 0 then Panic PUnwrap
  else
    let id := next_id r in
    n ← add_u64 (next_id r) 1;
    _ ← assert_ (match references r !! id with None => true | Some _ => false end);
    Done (id, mkRefs (<[id := v]> (references r)) n).

Definition add_value (k : Kernel) (p : nat) (v : KernelValue) : outcome (Z * Kernel) :=
  x ← deref_arc (k_procs k) p;
  '(id, r) ← refs_add_value (p_refs x) v;
  Done (id, set_proc k p (with_refs x r)).

Definition get_value (k : Kernel) (p : nat) (id : Z) : outcome (option KernelValue) :=
  x ← deref_arc (k_procs k) p;
  Done (references (p_refs x) !! id).

(** [share_kernel_value]: unknown processes get nothing. *)
Definition share_kernel_value (k : Kernel) (v : KernelValue) (p : nat) : outcome (option Z * Kernel) :=
  if decide (p ∈ PROCESSES k) then '(id, k) ← add_value k p v; Done (Some id, k)
  else Done (None, k).

(** The tail that [kill_threads] and [exit_thread_inner] share: the process has
    no thread left. *)
Definition process_exited (k : Kernel) (p : nat) : outcome Kernel :=
  x ← deref_arc (k_procs k) p;
  '(sg, k) ← set_signal k (p_signals x) PROCESS_EXITED true;
  let k := set_proc k p (mkProc (p_threads x) (p_thread_next_id x) (p_args x) (p_refs x) Exited sg) in
  Done (upd_registered k (PROCESSES k ∖ {[p]})).

Fixpoint kill_all (s : SchedData) (ts : list nat) : SchedData :=
  match ts with
  | [] => s
  | t :: ts => kill_all (set_thread s t (with_sched (threads s t) (with_killed (sched (threads s t)) true))) ts
  end.

(** [Process::kill_threads]. *)
Definition kill_threads (k : Kernel) (p : nat) : outcome Kernel :=
  x ← deref_arc (k_procs k) p;
  let k := upd_sd k (kill_all (k_sd k) (snd <$> map_to_list (p_threads x))) in
  if decide (p_threads x = ∅) then process_exited k p else Done k.

(** [exit_thread_inner]. *)
Definition exit_thread_inner (k : Kernel) (t : nat) : outcome Kernel :=
  let k := upd_sd k (set_state (k_sd k) t Zombie) in
  let p := t_process (threads (k_sd k) t) in
  x ← deref_arc (k_procs k) p;
  let ts := delete (tid (threads (k_sd k) t)) (p_threads x) in
  let k := set_proc k p (mkProc ts (p_thread_next_id x) (p_args x) (p_refs x) (p_exit_status x) (p_signals x)) in
  if decide (ts = ∅) then process_exited k p else Done k.

(** The last [Arc<Thread>] goes, and with it the reference the thread has to its process
    (the mapping of the user stack that [Thread::drop] frees is no kernel object). *)
Definition thread_dropped (k : Kernel) (t : nat) : outcome Kernel :=
  drop_kernel_value k (VProcess (t_process (threads (k_sd k) t))).

(** ** Sleeping threads

    [BinaryHeap<Reverse<SleptProcess>>]: [peek] is an entry with the smallest
    wake-up time; the list is kept sorted by it (among equal times the heap's
    order is not specified; here it is that of the pushes). *)
Fixpoint slept_push (l : list (Z * nat)) (e : Z * nat) : list (Z * nat) :=
  match l with
  | [] => [e]
  | x :: l => if fst e <? fst x then e :: x :: l else x :: slept_push l e
  end.

Fixpoint check_sleep_loop (now : Z) (k : Kernel) (l : list (Z * nat)) : outcome Kernel :=
  match l with
  | [] => Done (upd_slept k [])
  | (wakeup, t) :: l' =>
      if wakeup <=? now then k ← kwake k t; check_sleep_loop now k l'
      else Done (upd_slept k l)
  end.

Definition check_sleep (k : Kernel) (now : Z) : outcome Kernel := check_sleep_loop now k (SLEPT_PROCESSES k).

(** ** One round of the scheduler

    [run] is what happens between [sched_run_tick]'s jump into the thread and its
    return: arbitrary code, which leaves the kernel in some state, the thread with
    some stack and instruction pointer, and the core with some depth of held
    interrupts.  The writes to the TSS, CR3 and the core's local storage are not
    part of the state. *)
Section scheduler.
Context (run : Kernel → nat → Kernel * SavedTaskState * Z).

Definition scheduler_round (k : Kernel) : outcome Kernel :=
  let '(o, s) := pop_thread (k_sd k) in
  let k := upd_sd k s in
  match o with
  | None => Done k
  | Some task =>
      let c := sched (threads (k_sd k) task) in
      if negb (in_syscall c) && killed c then
        k ← exit_thread_inner k task;
        thread_dropped k task
      else
        _ ← assert_ (bool_decide (state c = Runnable));
        _ ← unwrap (task_state c);
        let k := upd_sd k (set_thread (k_sd k) task
                   (with_sched (threads (k_sd k) task) (with_task_state c None))) in
        let '(k, saved, depth) := run k task in
        let k := upd_sd k (set_thread (k_sd k) task (with_sched (threads (k_sd k) task)
                   (with_task_state (sched (threads (k_sd k) task)) (Some saved)))) in
        k ← (if negb (depth =? 1) then exit_thread_inner k task else Done k);
        match state (sched (threads (k_sd k) task)) with
        | Zombie => Panic PUnreachable
        | Runnable =>
            let k := upd_sd k (set_state (k_sd k) task Runnable) in
            s ← queue_thread (k_sd k) task;
            Done (upd_sd k s)
        | Sleeping => Done k
        end
  end.
End scheduler.

(** ** Frames: what the primitives leave alone *)

(** Everything but the threads and the ports is the same. *)
Definition same_objects (k k' : Kernel) : Prop :=
  k_chans k' = k_chans k ∧ k_ints k' = k_ints k ∧ k_msgs k' = k_msgs k ∧ k_procs k' = k_procs k ∧
  PROCESSES k' = PROCESSES k ∧ SLEPT_PROCESSES k' = SLEPT_PROCESSES k ∧ k_next k' = k_next k ∧ k_arcs k' = k_arcs k.

Lemma same_objects_refl k : same_objects k k.
Proof. by split_and!. Qed.

Lemma same_objects_trans k1 k2 k3 : same_objects k1 k2 → same_objects k2 k3 → same_objects k1 k3.
Proof. unfold same_objects. naive_solver congruence. Qed.

#[export] Hint Resolve same_objects_refl : fioxa.

(** A state in which waking cannot panic: the run queue is well formed. *)
Definition sched_ok (k : Kernel) : Prop := ∃ l, q_repr (k_sd k) l.

Lemma kwake_ok k t :
  sched_ok k → ∃ k', kwake k t = Done k' ∧ sched_ok k' ∧ same_objects k k' ∧ k_ports k' = k_ports k ∧
    state (sched (threads (k_sd k') t)) ≠ Sleeping ∧
    (∀ x, state (sched (threads (k_sd k) x)) ≠ Sleeping → state (sched (threads (k_sd k') x)) ≠ Sleeping).
Proof.
  intros [l Hq]. unfold kwake. destruct (wake_ok _ _ t Hq) as (s' & -> & Hs & Hns & Hoth).
  cbn [mbind outcome_bind]. exists (upd_sd k s'). splits; try done.
  - destruct (decide (state (sched (threads (k_sd k) t)) = Sleeping)) as [E|E].
    + destruct (Hs E) as [? _]. eexists. done.
    + rewrite (Hns E). by exists l.
  - cbn. destruct (decide (state (sched (threads (k_sd k) t)) = Sleeping)) as [E|E].
    + by rewrite (proj2 (Hs E)).
    + by rewrite (Hns E).
  - intros x Hx. cbn. destruct (decide (x = t)) as [->|Hne]; [by rewrite (Hns Hx)|by rewrite Hoth].
Qed.

(** Every port a waiter names exists. *)
Definition waiter_ok (k : Kernel) (w : SignalWaiter) : Prop :=
  match w_ty w with One _ => True | WPort p _ => is_Some (k_ports k !! p) end.

Definition port_queue (k : Kernel) (p : nat) : list PortNotification :=
  match k_ports k !! p with Some x => p_queue x | None => [] end.

Definition same_dom (k k' : Kernel) : Prop := ∀ p, is_Some (k_ports k !! p) → is_Some (k_ports k' !! p).

Lemma same_dom_refl k : same_dom k k.
Proof. by intros p. Qed.

Lemma same_dom_trans k1 k2 k3 : same_dom k1 k2 → same_dom k2 k3 → same_dom k1 k3.
Proof. intros H1 H2 p Hp. by apply H2, H1. Qed.

#[export] Hint Resolve same_dom_refl : fioxa.

(** [notify] queues the notification and wakes the first waiter, if any. *)
Lemma port_notify_ok k p n :
  sched_ok k → is_Some (k_ports k !! p) →
  ∃ k', port_notify k p n = Done k' ∧ sched_ok k' ∧ same_objects k k' ∧ same_dom k k' ∧
    (∀ q, port_queue k' q = if decide (p = q) then port_queue k q ++ [n] else port_queue k q) ∧
    (∀ x t ws, k_ports k !! p = Some (mkPort x (t :: ws)) →
       k_ports k' !! p = Some (mkPort (x ++ [n]) ws) ∧ state (sched (threads (k_sd k') t)) ≠ Sleeping) ∧
    (∀ x, state (sched (threads (k_sd k) x)) ≠ Sleeping → state (sched (threads (k_sd k') x)) ≠ Sleeping).
Proof.
  intros Hs [port Hp]. unfold port_notify, deref_arc. rewrite Hp. cbn [mbind outcome_bind].
  set (put ws := upd_ports k (<[p := mkPort (p_queue port ++ [n]) ws]> (k_ports k))).
  assert (Hput : ∀ ws k', k_ports k' = k_ports (put ws) →
    same_dom k k' ∧ ∀ q, port_queue k' q = if decide (p = q) then port_queue k q ++ [n] else port_queue k q).
  { intros ws k' E. split.
    - intros q [y Hq]. rewrite E. cbn. destruct (decide (p = q)) as [<-|]; [rewrite lookup_insert_eq|rewrite lookup_insert_ne by done]; by eexists.
    - intros q. unfold port_queue. rewrite E. cbn. case_decide as Eq.
      + subst q. by rewrite lookup_insert_eq, Hp.
      + by rewrite lookup_insert_ne. }
  destruct (p_waiters port) as [|t ws] eqn:Ew.
  - exists (put []). destruct (Hput [] (put []) eq_refl). splits; try done.
    intros x t ws [= ->]. done.
  - destruct (kwake_ok (put ws) t Hs) as (k' & E & Hs' & Hsame & Hports & Ht & Hx).
    fold (put ws). rewrite E. exists k'. destruct (Hput ws k' Hports) as [? ?].
    splits; try done. intros x t' ws' [= ->].
    cbn in Ew, Hports. injection Ew as <- <-. rewrite Hports. by rewrite lookup_insert_eq.
Qed.

(** ** Signals *)

(** What the waiters that fire put into port [p]. *)
Definition notifs (new : Z) (ws : list SignalWaiter) (p : nat) : list PortNotification :=
  omap (λ w, match w_ty w with
             | WPort q ky => if decide (q = p) then Some (mkNotif ky (SignalOne (w_mask w) new)) else None
             | One _ => None
             end) ws.

Lemma waiter_ok_dom k k' w : same_dom k k' → waiter_ok k w → waiter_ok k' w.
Proof. unfold waiter_ok. destruct (w_ty w); [done|]. intros Hd. apply Hd. Qed.

Lemma fire_waiters_ok new ws : ∀ k,
  sched_ok k → Forall (waiter_ok k) ws →
  ∃ k', fire_waiters new k ws = Done k' ∧ sched_ok k' ∧ same_objects k k' ∧ same_dom k k' ∧
    (∀ p, port_queue k' p = port_queue k p ++ notifs new ws p) ∧
    (∀ t m, mkWaiter (One t) m ∈ ws → state (sched (threads (k_sd k') t)) ≠ Sleeping) ∧
    (∀ x, state (sched (threads (k_sd k) x)) ≠ Sleeping → state (sched (threads (k_sd k') x)) ≠ Sleeping).
Proof.
  induction ws as [|[[t|p ky] m] ws IH]; intros k Hs Hw; cbn [fire_waiters].
  { exists k. splits; eauto with fioxa; [intros p; symmetry; apply app_nil_r|by intros ? ? ?%elem_of_nil]. }
  - apply Forall_cons in Hw as [_ Hw]. unfold fire_waiter. cbn [w_ty].
    destruct (kwake_ok k t Hs) as (k1 & -> & Hs1 & Hsame1 & Hp1 & Ht & Hx1). cbn [mbind outcome_bind].
    assert (Hd1 : same_dom k k1) by (intros q; by rewrite Hp1).
    destruct (IH k1 Hs1) as (k2 & -> & Hs2 & Hsame2 & Hd2 & Hq2 & Ht2 & Hx2).
    { eapply Forall_impl; [exact Hw|]. intros w. by apply waiter_ok_dom. }
    exists k2. splits; try done.
    + by eapply same_objects_trans.
    + by eapply same_dom_trans.
    + intros q. rewrite Hq2. unfold port_queue. by rewrite Hp1.
    + intros t' m' [[= -> ->]|Hin]%elem_of_cons; [by apply Hx2|by eapply Ht2].
    + intros x Hx. by apply Hx2, Hx1.
  - apply Forall_cons in Hw as [Hok Hw]. unfold fire_waiter. cbn [w_ty w_mask].
    destruct (port_notify_ok k p (mkNotif ky (SignalOne m new)) Hs Hok) as (k1 & -> & Hs1 & Hsame1 & Hd1 & Hq1 & _ & Hx1).
    cbn [mbind outcome_bind].
    destruct (IH k1 Hs1) as (k2 & -> & Hs2 & Hsame2 & Hd2 & Hq2 & Ht2 & Hx2).
    { eapply Forall_impl; [exact Hw|]. intros w. by apply waiter_ok_dom. }
    exists k2. splits; try done.
    + by eapply same_objects_trans.
    + by eapply same_dom_trans.
    + intros q. rewrite Hq2, Hq1. unfold notifs. cbn. case_decide; [by rewrite <- (assoc_L (++))|done].
    + intros t' m' [Heq|Hin]%elem_of_cons; [done|by eapply Ht2].
    + intros x Hx. by apply Hx2, Hx1.
Qed.

(** *** Who is woken *)

(** What waking does to the scheduling data of a thread. *)
Definition awakened (c : ThreadSched) : ThreadSched := match state c with Sleeping => with_state c Runnable | _ => c end.

Lemma awakened_idem c : awakened (awakened c) = awakened c.
Proof. unfold awakened. by destruct c as [[] ? ? ? ?]. Qed.

(** Exactly the threads of [T] are woken: those of them that slept are runnable and queued, and
    every other thread is as it was, in the run queue too. *)
Definition wakes (k k' : Kernel) (T : list nat) : Prop :=
  (∀ t, sched (threads (k_sd k') t) = if decide (t ∈ T) then awakened (sched (threads (k_sd k) t)) else sched (threads (k_sd k) t)) ∧
  (∀ t, t_process (threads (k_sd k') t) = t_process (threads (k_sd k) t) ∧ tid (threads (k_sd k') t) = tid (threads (k_sd k) t)) ∧
  (∀ l, q_repr (k_sd k) l → ∃ l', q_repr (k_sd k') (l ++ l') ∧ (∀ t, t ∈ l' → t ∈ T) ∧
     ∀ t, t ∈ T → state (sched (threads (k_sd k) t)) = Sleeping → t ∈ l ++ l').

Lemma wakes_refl k k' : k_sd k' = k_sd k → wakes k k' [].
Proof.
  intros E. unfold wakes. rewrite E. split_and!; [by intros t; rewrite decide_False by apply not_elem_of_nil|done|].
  intros l Hl. exists []. rewrite app_nil_r. split_and!; [done|done|]. by intros t ?%elem_of_nil.
Qed.

Lemma wakes_trans k1 k2 k3 T1 T2 : wakes k1 k2 T1 → wakes k2 k3 T2 → wakes k1 k3 (T1 ++ T2).
Proof.
  intros (S1 & P1 & Q1) (S2 & P2 & Q2). split_and!.
  - intros t. rewrite S2, S1. repeat case_decide; rewrite ?awakened_idem; set_solver.
  - intros t. destruct (P1 t) as [<- <-]. apply P2.
  - intros l Hl. destruct (Q1 l Hl) as (l1 & Hl1 & I1 & J1). destruct (Q2 _ Hl1) as (l2 & Hl2 & I2 & J2).
    exists (l1 ++ l2). rewrite (assoc_L (++)). split_and!; [done|set_solver|]. intros t Ht Hs.
    destruct (decide (t ∈ T1)) as [H1|H1]; [apply elem_of_app; left; by apply J1|].
    apply J2; [set_solver|]. by rewrite S1, decide_False by done.
Qed.

Lemma kwake_wakes k t k' : sched_ok k → kwake k t = Done k' → wakes k k' [t] ∧ k_ports k' = k_ports k.
Proof.
  intros [l0 Hq0] E. unfold kwake, wake in E. destruct (state (sched (threads (k_sd k) t))) eqn:Es;
    cbn [mbind outcome_bind] in E.
  1,2: injection E as <-; split; [|done]; split_and!; cbn [k_sd upd_sd];
    [intros x; case_decide as Hx; [apply list_elem_of_singleton in Hx as ->; unfold awakened; by rewrite Es|done]|done|];
    intros l Hl; exists []; rewrite app_nil_r; split_and!; [done|set_solver|]; intros x ->%list_elem_of_singleton; by rewrite Es.
  destruct (queue_thread_ok (set_state (k_sd k) t Runnable) l0 t) as (s' & E' & _ & Hsame); [by apply set_state_q|].
  rewrite E' in E. injection E as <-. cbn [k_sd upd_sd k_ports].
  assert (Hth : ∀ x, threads (set_state (k_sd k) t Runnable) x = if decide (t = x) then with_sched (threads (k_sd k) t) (with_state (sched (threads (k_sd k) t)) Runnable) else threads (k_sd k) x)
    by (intros x; unfold set_state; by rewrite threads_set_thread).
  split; [|done]. split_and!; cbn [k_sd upd_sd].
  - intros x. rewrite (proj1 (Hsame x)), Hth. case_decide as Hx.
    + subst x. rewrite decide_True by set_solver. unfold awakened. by rewrite Es.
    + by rewrite decide_False by set_solver.
  - intros x. destruct (Hsame x) as (_ & -> & ->). rewrite Hth. case_decide; by subst.
  - intros l Hl. destruct (queue_thread_ok (set_state (k_sd k) t Runnable) l t) as (s'' & E'' & Hq & _); [by apply set_state_q|].
    rewrite E' in E''. injection E'' as <-. case_decide as Ht; [exists []; rewrite app_nil_r|exists [t]];
      (split_and!; [done|set_solver|intros x ->%list_elem_of_singleton _; set_solver]).
Qed.

Definition port_waiters (k : Kernel) (p : nat) : list nat := match k_ports k !! p with Some x => p_waiters x | None => [] end.

(** The threads the waiters [ws] serve: a thread that waits for the signal itself, or the first
    that waits at the port. *)
Fixpoint served (pw : nat → list nat) (ws : list SignalWaiter) : list nat :=
  match ws with
  | [] => []
  | w :: ws => match w_ty w with
               | One t => t :: served pw ws
               | WPort p _ => take 1 (pw p) ++ served (<[p := drop 1 (pw p)]> pw) ws
               end
  end.

Lemma served_ext ws : ∀ f g, (∀ p, f p = g p) → served f ws = served g ws.
Proof.
  induction ws as [|[[t|p ky] m] ws IH]; intros f g H; cbn [served w_ty]; [done|f_equal; by apply IH|].
  rewrite H. f_equal. apply IH. intros q. destruct (decide (p = q)) as [->|]; [by rewrite !fn_lookup_insert|by rewrite !fn_lookup_insert_ne].
Qed.

(** A port after [n] notifications. *)
Definition notified (ns : list PortNotification) (x : KPort) : KPort := mkPort (p_queue x ++ ns) (drop (length ns) (p_waiters x)).

Lemma port_notify_wakes k p n k' : sched_ok k → port_notify k p n = Done k' →
  wakes k k' (take 1 (port_waiters k p)) ∧ ∀ q, k_ports k' !! q = notified (if decide (p = q) then [n] else []) <$> k_ports k !! q.
Proof.
  intros Hs. unfold port_notify, deref_arc, port_waiters. destruct (k_ports k !! p) as [x|] eqn:Hp; [|done]. cbn [mbind outcome_bind].
  assert (Hq : ∀ ws k', drop 1 (p_waiters x) = ws → k_ports k' = <[p := mkPort (p_queue x ++ [n]) ws]> (k_ports k) →
    ∀ q, k_ports k' !! q = notified (if decide (p = q) then [n] else []) <$> k_ports k !! q).
  { intros ws k1 <- E q. rewrite E. case_decide as Eq; [subst q; by rewrite lookup_insert_eq, Hp|].
    rewrite lookup_insert_ne by done. destruct (k_ports k !! q) as [[? ?]|]; [|done]. unfold notified. cbn. by rewrite app_nil_r. }
  destruct (p_waiters x) as [|t ws] eqn:Ew.
  - intros [= <-]. split; [by apply wakes_refl|by apply (Hq []); rewrite ?Ew].
  - intros E. cbn [take]. destruct (kwake_wakes (upd_ports k (<[p := mkPort (p_queue x ++ [n]) ws]> (k_ports k))) t k' Hs E) as [Hw Hports].
    split; [exact Hw|]. by apply (Hq ws).
Qed.

Lemma notified_comp a b x : notified b (notified a x) = notified (a ++ b) x.
Proof. unfold notified. cbn. by rewrite (assoc_L (++)), drop_drop, length_app. Qed.

Lemma fire_waiters_wakes new ws : ∀ k k', sched_ok k → Forall (waiter_ok k) ws → fire_waiters new k ws = Done k' →
  wakes k k' (served (port_waiters k) ws) ∧ ∀ q, k_ports k' !! q = notified (notifs new ws q) <$> k_ports k !! q.
Proof.
  induction ws as [|[[t|p ky] m] ws IH]; intros k k' Hs Hw; cbn [fire_waiters].
  - intros [= <-]. split; [by apply wakes_refl|]. intros q. destruct (k_ports k !! q) as [[? ?]|]; [|done].
    unfold notified. cbn. by rewrite app_nil_r.
  - apply Forall_cons in Hw as [_ Hw]. unfold fire_waiter. cbn [w_ty]. intros (k1 & E1 & E)%bind_Done.
    destruct (kwake_ok k t Hs) as (k1' & E1' & Hs1 & _). rewrite E1 in E1'. injection E1' as <-.
    destruct (kwake_wakes k t k1 Hs E1) as [Hw1 Hp1].
    destruct (IH k1 k' Hs1) as [Hw2 Hp2]; [eapply Forall_impl; [exact Hw|]; intros w; apply waiter_ok_dom; intros q; by rewrite Hp1|done|].
    split; [|intros q; by rewrite Hp2, Hp1]. cbn [served w_ty]. eapply (wakes_trans _ _ _ [t]); [exact Hw1|].
    erewrite served_ext; [exact Hw2|]. intros q. unfold port_waiters. by rewrite Hp1.
  - apply Forall_cons in Hw as [Hok Hw]. unfold fire_waiter. cbn [w_ty w_mask]. intros (k1 & E1 & E)%bind_Done.
    destruct (port_notify_ok k p (mkNotif ky (SignalOne m new)) Hs Hok) as (k1' & E1' & Hs1 & _ & Hd1 & _). rewrite E1 in E1'. injection E1' as <-.
    destruct (port_notify_wakes k p _ k1 Hs E1) as [Hw1 Hp1].
    destruct (IH k1 k' Hs1) as [Hw2 Hp2]; [eapply Forall_impl; [exact Hw|]; intros w; by apply waiter_ok_dom|done|].
    split.
    + cbn [served w_ty]. eapply wakes_trans; [exact Hw1|]. erewrite served_ext; [exact Hw2|]. intros q. unfold port_waiters. rewrite Hp1.
      destruct (decide (p = q)) as [->|Hne]; [rewrite fn_lookup_insert|rewrite fn_lookup_insert_ne by done]; by destruct (k_ports k !! q).
    + intros q. rewrite Hp2, Hp1. destruct (k_ports k !! q) as [x|]; [|done]. cbn [fmap option_fmap option_map]. rewrite notified_comp.
      unfold notifs. cbn [omap list_omap w_ty w_mask]. by case_decide.
Qed.

Lemma filter_keep_all {X} (P : X → Prop) `{∀ x, Decision (P x)} (l : list X) :
  (∀ x, x ∈ l → P x) → filter P l = l.
Proof.
  induction l as [|x l IH]; intros Hl; [done|]. rewrite filter_cons_True by (apply Hl; left).
  f_equal. apply IH. intros y Hy. apply Hl. by right.
Qed.

(** A waiter is registered only for signals that are not set: whoever asks for a
    signal that is set is served at once. *)
Definition signal_ok (k : Kernel) (s : KObjectSignal) : Prop :=
  ∀ w, w ∈ signal_waiters s → waiter_ok k w ∧ intersects (signal_status s) (w_mask w) = false.

Definition new_status (s : KObjectSignal) (sig : Z) (status : bool) : Z :=
  if status then Z.lor (signal_status s) sig else Z.ldiff (signal_status s) sig.

Definition hit_waiters (new : Z) (s : KObjectSignal) : list SignalWaiter :=
  filter (λ w, intersects new (w_mask w) = true) (signal_waiters s).

Lemma set_signal_ok k s sig status :
  sched_ok k → signal_ok k s →
  let new := new_status s sig status in
  ∃ k', set_signal k s sig status = Done (mkSignal new (filter (λ w, intersects new (w_mask w) = false) (signal_waiters s)), k') ∧
    sched_ok k' ∧ same_objects k k' ∧ same_dom k k' ∧
    (∀ p, port_queue k' p = port_queue k p ++ notifs new (hit_waiters new s) p) ∧
    (∀ t m, mkWaiter (One t) m ∈ signal_waiters s → intersects new m = true →
       state (sched (threads (k_sd k') t)) ≠ Sleeping) ∧
    wakes k k' (served (port_waiters k) (hit_waiters new s)) ∧
    (∀ p, k_ports k' !! p = notified (notifs new (hit_waiters new s) p) <$> k_ports k !! p).
Proof.
  intros Hs Hok new. unfold set_signal. fold (new_status s sig status). fold new. fold (hit_waiters new s).
  destruct (Z.eqb_spec new (signal_status s)) as [E|E].
  - assert (Hno : ∀ w, w ∈ signal_waiters s → intersects new (w_mask w) = false)
      by (intros w Hw; rewrite E; by apply Hok).
    assert (Hfil : filter (λ w, intersects new (w_mask w) = false) (signal_waiters s) = signal_waiters s).
    { apply filter_keep_all. exact Hno. }
    assert (Hhit : hit_waiters new s = []).
    { apply elem_of_nil_inv. intros w [Hw Hin]%list_elem_of_filter. by rewrite Hno in Hw. }
    exists k. rewrite Hfil, Hhit. rewrite E. destruct s as [st ws]. cbn [signal_status signal_waiters] in *.
    splits; eauto with fioxa.
    + intros p. symmetry. apply app_nil_r.
    + intros t m Hin Hi. pose proof (Hno _ Hin) as Hn. cbn [w_mask] in Hn. congruence.
    + by apply wakes_refl.
    + intros p. destruct (k_ports k !! p) as [[? ?]|]; [|done]. unfold notified. cbn. by rewrite app_nil_r.
  - assert (Hall : Forall (waiter_ok k) (hit_waiters new s)) by (apply Forall_forall; intros w [_ Hw]%list_elem_of_filter; by apply Hok).
    destruct (fire_waiters_ok new (hit_waiters new s) k Hs Hall) as (k' & E' & Hs' & Hsame & Hd & Hq & Ht & _).
    destruct (fire_waiters_wakes new (hit_waiters new s) k k' Hs Hall E') as [Hwk Hports]. rewrite E'.
    exists k'. splits; try done. intros t m Hin Hi. eapply Ht. apply list_elem_of_filter. done.
Qed.

(** C32: [set_signal] updates the status bits, removes exactly the waiters whose
    mask meets the new status and serves exactly them: the threads among them stop
    sleeping, and the ports receive one notification for each, in registration order, which
    the thread that waited longest at the port is woken for.  The threads that are served
    and slept become runnable and join the run queue; every other thread, port and entry of
    the queue is as it was.  The waiters that stay wait for signals that are not set, so no
    signal is missed; no other object changes. *)
Theorem set_signal_spec k s sig status :
  sched_ok k → signal_ok k s →
  let new := new_status s sig status in
  ∃ s' k', set_signal k s sig status = Done (s', k') ∧
    signal_status s' = new ∧ (∀ w, w ∈ signal_waiters s' ↔ w ∈ signal_waiters s ∧ intersects new (w_mask w) = false) ∧
    signal_ok k' s' ∧ sched_ok k' ∧ same_objects k k' ∧
    (∀ p, port_queue k' p = port_queue k p ++ notifs new (hit_waiters new s) p) ∧
    (∀ t m, mkWaiter (One t) m ∈ signal_waiters s → intersects new m = true →
       state (sched (threads (k_sd k') t)) ≠ Sleeping) ∧
    wakes k k' (served (port_waiters k) (hit_waiters new s)) ∧
    (∀ p, k_ports k' !! p = notified (notifs new (hit_waiters new s) p) <$> k_ports k !! p).
Proof.
  intros Hs Hok new. destruct (set_signal_ok k s sig status Hs Hok) as (k' & E & Hs' & Hsame & Hd & Hq & Ht & Hwk & Hports).
  eexists _, k'. splits; try done; cbn [signal_waiters signal_status].
  - intros w. rewrite list_elem_of_filter. naive_solver.
  - intros w [Hn Hw]%list_elem_of_filter. split; [|done]. eapply waiter_ok_dom; [exact Hd|]. by apply Hok.
Qed.

(** ** Channels *)
Definition chan_open (k : Kernel) (c p : nat) : Prop :=
  ∃ hc hp, k_chans k !! c = Some hc ∧ peer hc = p ∧ k_chans k !! p = Some hp ∧ c ≠ p ∧
    (0 < ch_strong hp)%nat ∧ open (channel hp) = true.

Definition chan_queue (k : Kernel) (p : nat) : list ChannelMessage :=
  match k_chans k !! p with Some h => queue (channel h) | None => [] end.

(** The receiving end: its waiters are well formed, and it is readable exactly
    when a message is queued. *)
Definition recv_ok (k : Kernel) (p : nat) : Prop :=
  ∀ h, k_chans k !! p = Some h → signal_ok k (signal (channel h)) ∧
    Z.testbit (signal_status (signal (channel h))) 1 = (match queue (channel h) with [] => false | _ => true end).

Lemma signal_ok_dom k k' s : same_dom k k' → signal_ok k s → signal_ok k' s.
Proof. intros Hd Hs w Hw. destruct (Hs w Hw). split; [by eapply waiter_ok_dom|done]. Qed.

Lemma filtered_signal_ok k k' s new :
  same_dom k k' → signal_ok k s →
  signal_ok k' (mkSignal new (filter (λ w, intersects new (w_mask w) = false) (signal_waiters s))).
Proof.
  intros Hd Hok w [Hn Hw]%list_elem_of_filter. split; [|done].
  eapply waiter_ok_dom; [exact Hd|]. by apply Hok.
Qed.

Lemma readable_bit s b : Z.testbit (new_status s READABLE b) 1 = b.
Proof.
  unfold new_status, READABLE. destruct b.
  - rewrite Z.lor_spec. by rewrite orb_true_r.
  - rewrite Z.ldiff_spec. by rewrite andb_false_r.
Qed.

Lemma set_chan_lookup k c x d :
  k_chans (set_chan k c x) !! d = if decide (c = d) then Some x else k_chans k !! d.
Proof. cbn. case_decide; [subst; by rewrite lookup_insert_eq|by rewrite lookup_insert_ne]. Qed.

(** Storing a channel with a new signal and queue. *)
Lemma recv_ok_set k k' p h b o q :
  same_dom k k' → signal_ok k (signal (channel h)) →
  b = (match q with [] => false | _ => true end) →
  let s := signal (channel h) in
  let new := new_status s READABLE b in
  recv_ok (set_chan k' p (chan_with h (mkChanInner
    (mkSignal new (filter (λ w, intersects new (w_mask w) = false) (signal_waiters s))) o q))) p.
Proof.
  intros Hd Hok -> s new h'. rewrite set_chan_lookup, decide_True by done. intros [= <-]. cbn [channel chan_with signal queue signal_status].
  split; [|apply readable_bit].
  apply (filtered_signal_ok k); [exact Hd|done].
Qed.

Lemma chan_open_set k k' c p h x :
  k_chans k' = k_chans k → k_chans k !! p = Some h → open x = open (channel h) →
  chan_open k c p → chan_open (set_chan k' p (chan_with h x)) c p.
Proof.
  intros E Hp Ho (hc & hp & Hc & Hpeer & Hp' & Hne & Hst & Hop). rewrite Hp in Hp'. injection Hp' as <-.
  exists hc, (chan_with h x). rewrite !set_chan_lookup, E, (decide_True (P := p = p)), decide_False by done.
  splits; try done. cbn. by rewrite Ho.
Qed.

Lemma chan_send_ok k c p m :
  sched_ok k → chan_open k c p → recv_ok k p →
  ∃ k', chan_send k c m =
      Done (if CHANNEL_CAPACITY <? Z.of_nat (length (chan_queue k p)) then None else Some tt, k') ∧
    sched_ok k' ∧ chan_open k' c p ∧ recv_ok k' p ∧
    chan_queue k' p = (if CHANNEL_CAPACITY <? Z.of_nat (length (chan_queue k p)) then chan_queue k p
                       else chan_queue k p ++ [m]).
Proof.
  intros Hs Hco Hr. pose proof Hco as (hc & hp & Hc & Hpeer & Hp & Hne & Hst & Hop).
  unfold chan_send, deref_arc, upgrade_peer, chan_queue. rewrite Hc. cbn [mbind outcome_bind].
  rewrite Hpeer, Hp. rewrite (proj2 (Nat.ltb_lt 0 (ch_strong hp)) Hst), Hop. cbn [negb].
  destruct (Z.ltb_spec CHANNEL_CAPACITY (Z.of_nat (length (queue (channel hp))))).
  - exists k. splits; try done. by rewrite Hp.
  - destruct (Hr hp Hp) as [Hok _].
    destruct (set_signal_ok k (signal (channel hp)) READABLE true Hs Hok) as (k1 & -> & Hs1 & Hsame & Hd & _).
    cbn [mbind outcome_bind]. eexists. splits; [done|done| | |].
    + eapply chan_open_set; [apply Hsame|done|done|done].
    + apply (recv_ok_set k k1 p hp true); [done|done|by destruct (queue (channel hp))].
    + rewrite set_chan_lookup, decide_True by done. done.
Qed.

(** What a read reports on an open channel with this queue. *)
Definition read_spec (q : list ChannelMessage) (mb mh : Z)
  : result ChannelMessage ReadError * list ChannelMessage :=
  match q with
  | [] => (Err Empty, [])
  | m :: q' =>
      if (mb <? Z.of_nat (length (data m))) || (mh <? handles_len m)
      then (Err (Size (Z.of_nat (length (data m))) (handles_len m)), q)
      else (Ok m, q')
  end.

Lemma chan_read_ok k c p mb mh :
  sched_ok k → chan_open k c p → recv_ok k p →
  ∃ k', chan_read k p mb mh = Done (fst (read_spec (chan_queue k p) mb mh), k') ∧
    sched_ok k' ∧ chan_open k' c p ∧ recv_ok k' p ∧ chan_queue k' p = snd (read_spec (chan_queue k p) mb mh).
Proof.
  intros Hs Hco Hr. pose proof Hco as (hc & hp & Hc & Hpeer & Hp & Hne & Hst & Hop).
  unfold chan_read, deref_arc, chan_queue. rewrite Hp. cbn [mbind outcome_bind]. rewrite Hop.
  destruct (queue (channel hp)) as [|m q] eqn:Eq; cbn [read_spec].
  { exists k. rewrite Hp. done. }
  destruct (_ || _) eqn:Esz; cbn [fst snd].
  { exists k. rewrite Hp. done. }
  destruct (Hr hp Hp) as [Hok _].
  destruct (set_signal_ok k (signal (channel hp)) READABLE (negb (match q with [] => true | _ => false end)) Hs Hok)
    as (k1 & -> & Hs1 & Hsame & Hd & _).
  cbn [mbind outcome_bind]. eexists. splits; [done|done| | |].
  - eapply chan_open_set; [apply Hsame|done|done|done].
  - apply (recv_ok_set k k1 p hp); [done|done|by destruct q].
  - rewrite set_chan_lookup, decide_True by done. done.
Qed.

(** One direction of a channel under any sequence of sends and reads. *)
Inductive chan_op := OpSend (m : ChannelMessage) | OpRead (max_bytes max_handles : Z).
Inductive chan_res := Sent (ok : bool) | Received (r : result ChannelMessage ReadError).

Fixpoint run_chan (k : Kernel) (c p : nat) (ops : list chan_op) : outcome (list chan_res * Kernel) :=
  match ops with
  | [] => Done ([], k)
  | OpSend m :: ops =>
      '(o, k) ← chan_send k c m;
      '(rs, k) ← run_chan k c p ops;
      Done (Sent (match o with Some _ => true | None => false end) :: rs, k)
  | OpRead mb mh :: ops =>
      '(r, k) ← chan_read k p mb mh;
      '(rs, k) ← run_chan k c p ops;
      Done (Received r :: rs, k)
  end.

(** The specification: a queue bounded by the capacity. *)
Fixpoint spec_chan (q : list ChannelMessage) (ops : list chan_op) : list chan_res * list ChannelMessage :=
  match ops with
  | [] => ([], q)
  | OpSend m :: ops =>
      let full := CHANNEL_CAPACITY <? Z.of_nat (length q) in
      let '(rs, q') := spec_chan (if full then q else q ++ [m]) ops in
      (Sent (negb full) :: rs, q')
  | OpRead mb mh :: ops =>
      let '(r, q1) := read_spec q mb mh in
      let '(rs, q') := spec_chan q1 ops in
      (Received r :: rs, q')
  end.

(** C11: each direction of an open channel is a FIFO: under any interleaving of
    sends by one end and reads by the other, messages arrive once, unmodified and
    in order, a read with too small buffers reports the sizes and leaves the
    message, a full queue refuses, and the end is readable exactly when a message
    is queued. *)
Theorem channel_refines_fifo ops : ∀ k c p,
  sched_ok k → chan_open k c p → recv_ok k p →
  ∃ k', run_chan k c p ops = Done (fst (spec_chan (chan_queue k p) ops), k') ∧
    chan_queue k' p = snd (spec_chan (chan_queue k p) ops) ∧ chan_open k' c p ∧ recv_ok k' p ∧ sched_ok k'.
Proof.
  induction ops as [|[m|mb mh] ops IH]; intros k c p Hs Hco Hr; cbn [run_chan spec_chan].
  - exists k. done.
  - destruct (chan_send_ok k c p m Hs Hco Hr) as (k1 & -> & Hs1 & Hco1 & Hr1 & Hq1). cbn [mbind outcome_bind].
    destruct (IH k1 c p Hs1 Hco1 Hr1) as (k2 & -> & Hq2 & ?). cbn [mbind outcome_bind]. rewrite <- Hq1.
    destruct (spec_chan (chan_queue k1 p) ops) as [rs q]. exists k2. split; [|done]. cbn [fst].
    by destruct (CHANNEL_CAPACITY <? _).
  - destruct (chan_read_ok k c p mb mh Hs Hco Hr) as (k1 & -> & Hs1 & Hco1 & Hr1 & Hq1). cbn [mbind outcome_bind].
    destruct (IH k1 c p Hs1 Hco1 Hr1) as (k2 & -> & Hq2 & ?). cbn [mbind outcome_bind]. rewrite Hq1 in *.
    destruct (read_spec (chan_queue k p) mb mh) as [r q1]. cbn [fst snd] in *.
    destruct (spec_chan q1 ops) as [rs q]. exists k2. done.
Qed.

(** ** Dropping channel ends *)
(** Neither the ends nor the counts of processes. *)
Definition same_refs (k k' : Kernel) : Prop := k_chans k' = k_chans k ∧ k_arcs k' = k_arcs k.

Lemma kwake_refs k t k' : kwake k t = Done k' → same_refs k k'.
Proof. unfold kwake. intros H. inv_outcome. done. Qed.

Lemma port_notify_refs k p n k' : port_notify k p n = Done k' → same_refs k k'.
Proof.
  unfold port_notify. intros H. inv_outcome.
  destruct (p_waiters _); [by inv_outcome|]. by apply kwake_refs in H0.
Qed.

Lemma fire_waiters_refs new ws : ∀ k k', fire_waiters new k ws = Done k' → same_refs k k'.
Proof.
  induction ws as [|[[t|p ky] m] ws IH]; intros k k' H; cbn [fire_waiters] in H; inv_outcome; [done| |];
    unfold fire_waiter in *; cbn [w_ty] in *; destruct (IH _ _ H0) as [E1 E2]; unfold same_refs; rewrite E1, E2;
    [by eapply kwake_refs|by eapply port_notify_refs].
Qed.

Lemma set_signal_refs k s sig b s' k' : set_signal k s sig b = Done (s', k') → same_refs k k'.
Proof.
  unfold set_signal. destruct (_ =? _); intros H; inv_outcome; [done|]. by eapply fire_waiters_refs.
Qed.

Lemma set_signal_chans k s sig b s' k' : set_signal k s sig b = Done (s', k') → k_chans k' = k_chans k.
Proof. intros H. by apply set_signal_refs in H as [? _]. Qed.

Lemma set_signal_arcs k s sig b s' k' : set_signal k s sig b = Done (s', k') → k_arcs k' = k_arcs k.
Proof. intros H. by apply set_signal_refs in H as [_ ?]. Qed.

Lemma outcome_not_fuel_bind {A B} (m : outcome A) (f : A → outcome B) :
  m ≠ OutOfFuel → (∀ a, m = Done a → f a ≠ OutOfFuel) → (m ≫= f) ≠ OutOfFuel.
Proof. intros Hm Hf. destruct m; cbn; [by apply Hf|done|done]. Qed.

Lemma queue_thread_fuel s t : queue_thread s t ≠ OutOfFuel.
Proof.
  unfold queue_thread. destruct (queued _); [done|]. destruct (queue_head _).
  - destruct (queue_tail _); [|done]. cbn. by destruct (next _).
  - by destruct (queue_tail _).
Qed.

Lemma kwake_fuel k t : kwake k t ≠ OutOfFuel.
Proof.
  unfold kwake, wake. destruct (state _); [done..|]. apply outcome_not_fuel_bind; [apply queue_thread_fuel|done].
Qed.

Lemma set_signal_fuel k s sig b : set_signal k s sig b ≠ OutOfFuel.
Proof.
  unfold set_signal. destruct (_ =? _); [done|]. apply outcome_not_fuel_bind; [|done].
  generalize (filter (λ w, intersects (if b then Z.lor (signal_status s) sig else Z.ldiff (signal_status s) sig)
    (w_mask w) = true) (signal_waiters s)) as ws. intros ws. revert k. induction ws as [|[[t|p ky] m] ws IH]; intros k;
    [done| |]; cbn [fire_waiters]; apply outcome_not_fuel_bind; try (intros; apply IH); unfold fire_waiter; cbn [w_ty].
  - apply kwake_fuel.
  - unfold port_notify, deref_arc. destruct (k_ports k !! p) as [x|]; [|done]. cbn.
    destruct (p_waiters x); [done|apply kwake_fuel].
Qed.

(** The ends that are alive, as a set. *)
Definition live (m : gmap nat KChannelHandle) : gset nat :=
  dom (filter (λ p, (0 <? ch_strong (snd p))%nat = true) m).

Lemma elem_of_live m c : c ∈ live m ↔ ∃ h, m !! c = Some h ∧ (0 < ch_strong h)%nat.
Proof.
  unfold live. rewrite elem_of_dom. split.
  - intros [h [Hh Hst]%map_lookup_filter_Some]. exists h. split; [done|]. by apply Nat.ltb_lt.
  - intros (h & Hh & Hst). exists h. apply map_lookup_filter_Some. split; [done|]. by apply Nat.ltb_lt.
Qed.

Lemma live_chans_size k : live_chans k = size (live (k_chans k)).
Proof. unfold live_chans, live. by rewrite size_dom. Qed.

(** Updating an end without making it alive. *)
Lemma live_insert_subset m c h :
  (ch_strong h = 0 ∨ c ∈ live m)%nat → live (<[c := h]> m) ⊆ live m.
Proof.
  intros Hc d (x & Hx & Hst)%elem_of_live. destruct (decide (c = d)) as [<-|Hne].
  - rewrite lookup_insert_eq in Hx. injection Hx as <-. destruct Hc; [lia|done].
  - rewrite lookup_insert_ne in Hx by done. apply elem_of_live. eauto.
Qed.

Lemma live_insert_dead m c h : ch_strong h = 0%nat → live (<[c := h]> m) ⊆ live m ∖ {[c]}.
Proof.
  intros H0 d Hd. apply elem_of_difference. split; [eapply live_insert_subset; [by left|exact Hd]|].
  intros ->%elem_of_singleton. apply elem_of_live in Hd as (x & Hx & Hst).
  rewrite lookup_insert_eq in Hx. injection Hx as <-. lia.
Qed.

(** The processes with a reference. *)
Definition held (m : gmap nat nat) : gset nat := dom (filter (λ p, (0 <? snd p)%nat = true) m).

Lemma elem_of_held m p : p ∈ held m ↔ (0 < default O (m !! p))%nat.
Proof.
  unfold held. rewrite elem_of_dom. split.
  - intros [n [Hn Hst]%map_lookup_filter_Some]. rewrite Hn. by apply Nat.ltb_lt.
  - destruct (m !! p) as [n|] eqn:Hn; cbn [default]; [|cbn; lia]. intros Hst. exists n. apply map_lookup_filter_Some. split; [done|]. by apply Nat.ltb_lt in Hst.
Qed.

Lemma live_procs_size k : live_procs k = size (held (k_arcs k)).
Proof. unfold live_procs, held. by rewrite size_dom. Qed.

Lemma held_insert m p n : (n ≤ default O (m !! p))%nat → held (<[p := n]> m) ⊆ held m.
Proof.
  intros Hn d. rewrite !elem_of_held. destruct (decide (p = d)) as [<-|]; [rewrite lookup_insert_eq|by rewrite lookup_insert_ne]. cbn. lia.
Qed.

Lemma held_insert_zero m p : held (<[p := O]> m) ⊆ held m ∖ {[p]}.
Proof.
  intros d. rewrite elem_of_difference, !elem_of_held, elem_of_singleton.
  destruct (decide (p = d)) as [<-|]; [rewrite lookup_insert_eq; cbn; lia|rewrite lookup_insert_ne by done]. naive_solver.
Qed.

(** Nothing is revived. *)
Definition no_more (k k' : Kernel) : Prop := live (k_chans k') ⊆ live (k_chans k) ∧ held (k_arcs k') ⊆ held (k_arcs k).
Definition weight (k : Kernel) : nat := (size (live (k_chans k)) + size (held (k_arcs k)))%nat.

#[export] Instance no_more_preorder : PreOrder no_more.
Proof. split; [by intros k; split|]. intros a b c [? ?] [? ?]. split; by etransitivity. Qed.

Lemma no_more_weight k k' : no_more k k' → (weight k' ≤ weight k)%nat.
Proof. intros [H1%subseteq_size H2%subseteq_size]. unfold weight. lia. Qed.

Lemma close_peer_ok k h :
  close_peer k h ≠ OutOfFuel ∧ ∀ k', close_peer k h = Done k' → no_more k k'.
Proof.
  unfold close_peer, upgrade_peer. destruct (k_chans k !! peer h) as [ph|] eqn:Ep; [|split; [done|by intros k' [= <-]]].
  destruct (Nat.ltb_spec 0 (ch_strong ph)) as [Hst|Hst]; [|split; [done|by intros k' [= <-]]]. split.
  - apply outcome_not_fuel_bind; [apply set_signal_fuel|by intros []].
  - intros k' H. inv_outcome. destruct x as [sg k1]. inv_outcome. pose proof (set_signal_arcs _ _ _ _ _ _ H) as Ea.
    split; cbn; [|by rewrite Ea]. erewrite set_signal_chans by done. apply live_insert_subset. right. apply elem_of_live. eauto.
Qed.

(** Dropping each of a list, when dropping one is bounded by the weight. *)
Lemma drop_each_ok drop n vs : (∀ k v, (weight k < n)%nat → drop k v ≠ OutOfFuel ∧ ∀ k', drop k v = Done k' → no_more k k') →
  ∀ k, (weight k < n)%nat → drop_each drop k vs ≠ OutOfFuel ∧ ∀ k', drop_each drop k vs = Done k' → no_more k k'.
Proof.
  intros Hd. induction vs as [|v vs IHv]; intros k0 Hk0; cbn [drop_each]; [split; [done|by intros k' [= <-]]|].
  destruct (Hd k0 v Hk0) as [Hn Hl]. split.
  - apply outcome_not_fuel_bind; [done|]. intros k' Hk'. apply IHv. apply Hl, no_more_weight in Hk'. lia.
  - intros k' Hk'. inv_outcome. rename x into k1. pose proof (Hl _ H) as Hl1.
    destruct (IHv k1) as [_ Hl2]; [apply no_more_weight in Hl1; lia|]. etransitivity; [exact Hl1|by apply Hl2].
Qed.

Lemma drop_value_ok fuel : ∀ k v,
  (weight k < fuel)%nat → drop_value fuel k v ≠ OutOfFuel ∧ ∀ k', drop_value fuel k v = Done k' → no_more k k'.
Proof.
  induction fuel as [|fuel IH]; intros k v Hf; [lia|].
  destruct v as [m|p|c|p|i]; cbn [drop_value]; try (split; [done|by intros k' [= <-]]).
  - destruct (proc_arcs k p) as [|n] eqn:En; [by split|]. set (k1 := upd_arcs k _).
    assert (Hk1 : no_more k k1) by (split; [done|]; apply held_insert; unfold proc_arcs in En; lia).
    destruct ((0 <? n)%nat || bool_decide (p ∈ PROCESSES k1)) eqn:Eb; [split; [done|by intros k' [= <-]]|].
    apply orb_false_iff in Eb as [Hn%Nat.ltb_ge _]. assert (n = O) as -> by lia.
    unfold deref_arc. destruct (k_procs k1 !! p) as [x|]; [|by split]. cbn [mbind outcome_bind]. set (k2 := set_proc k1 p _).
    assert (Hp : p ∈ held (k_arcs k)) by (apply elem_of_held; unfold proc_arcs in En; lia).
    assert (Hw : (weight k2 < fuel)%nat).
    { unfold weight. pose proof (held_insert_zero (k_arcs k) p) as Hz. apply subseteq_size in Hz. rewrite size_difference, size_singleton in Hz by set_solver.
      assert (size (held (k_arcs k)) ≠ 0)%nat by (apply size_non_empty_iff; set_solver). change (k_arcs k2) with (<[p := O]> (k_arcs k)). change (k_chans k2) with (k_chans k). unfold weight in Hf. lia. }
    destruct (drop_each_ok _ fuel (snd <$> map_to_list (references (p_refs x))) IH k2 Hw) as [Hn' Hl]. split; [done|].
    intros k' Hk'. transitivity k1; [exact Hk1|by apply (Hl k')].
  - unfold deref_arc. destruct (k_chans k !! c) as [h|] eqn:Ec; [|by split]. cbn [mbind outcome_bind].
    destruct (ch_strong h) as [|[|n]] eqn:Est; [by split| |].
    2: { split; [done|]. intros k' [= <-]. split; [|done]. apply live_insert_subset. right. apply elem_of_live. exists h. split; [done|lia]. }
    assert (Hc : c ∈ live (k_chans k)) by (apply elem_of_live; exists h; split; [done|lia]).
    destruct (set_signal _ (signal (channel h)) CHANNEL_CLOSED true) as [[sg k2]| |] eqn:Es;
      [|by split|by apply set_signal_fuel in Es]. rewrite bind_ret. cbv beta iota.
    pose proof (set_signal_arcs _ _ _ _ _ _ Es) as Ea. apply set_signal_chans in Es. set (k3 := set_chan k2 c _).
    assert (Hk3 : live (k_chans k3) ⊆ live (k_chans k) ∖ {[c]}).
    { unfold k3. cbn [set_chan upd_chans k_chans]. rewrite Es. cbn [set_chan upd_chans k_chans].
      rewrite insert_insert_eq. by apply live_insert_dead. }
    assert (Ha3 : k_arcs k3 = k_arcs k) by exact Ea.
    assert (Hsz : (weight k3 < fuel)%nat).
    { unfold weight in *. rewrite Ha3. apply subseteq_size in Hk3. rewrite size_difference, size_singleton in Hk3 by set_solver.
      assert (size (live (k_chans k)) ≠ 0)%nat by (apply size_non_empty_iff; set_solver). lia. }
    destruct (drop_each_ok _ fuel (queued_values (queue (channel h))) IH k3 Hsz) as [Hn Hl]. split.
    + apply outcome_not_fuel_bind; [done|]. intros k' _. apply close_peer_ok.
    + intros k' Hk'. inv_outcome. apply Hl in H. apply close_peer_ok in H0. transitivity k3; [split; [set_solver|by rewrite Ha3]|by transitivity x].
Qed.

(** C35: dropping a handle always terminates: closing a channel end drops the
    handles still queued in it, and the last handle of a process drops those of its
    table, which may close further ends and drop further processes, but each level of
    that recursion ends a live end or process, so its depth is at most their number; none
    is revived. *)
Theorem drop_kernel_value_terminates k v :
  drop_kernel_value k v ≠ OutOfFuel ∧
  ∀ k', drop_kernel_value k v = Done k' → live (k_chans k') ⊆ live (k_chans k) ∧ held (k_arcs k') ⊆ held (k_arcs k).
Proof. unfold drop_kernel_value. apply drop_value_ok. unfold weight. rewrite live_chans_size, live_procs_size. lia. Qed.

(** Dropping the last handle of an end closes the other one and nothing
    else: its messages stay and can still be read, it is signalled as closed, it
    accepts no more, and once drained its reader is told so. *)
Theorem drop_last_handle_closes_peer k c p hc hp m mb mh :
  sched_ok k → k_chans k !! c = Some hc → ch_strong hc = 1%nat → queue (channel hc) = [] →
  peer hc = p → c ≠ p → k_chans k !! p = Some hp → (0 < ch_strong hp)%nat →
  signal_ok k (signal (channel hc)) → signal_ok k (signal (channel hp)) →
  ∃ k' hp', drop_kernel_value k (VChannel c) = Done k' ∧
    k_chans k' !! p = Some hp' ∧ queue (channel hp') = queue (channel hp) ∧ open (channel hp') = false ∧
    signal_status (signal (channel hp')) = Z.lor (signal_status (signal (channel hp))) CHANNEL_CLOSED ∧
    (peer hp = c → chan_send k' p m = Done (None, k')) ∧
    (queue (channel hp) = [] → chan_read k' p mb mh = Done (Err Closed, k')).
Proof.
  intros Hs Hc Hst Hq Hpeer Hne Hp Hstp Hokc Hokp. unfold drop_kernel_value. cbn [drop_value].
  unfold deref_arc. rewrite Hc. cbn [mbind outcome_bind]. rewrite Hst.
  set (k1 := set_chan k c _).
  destruct (set_signal_ok k1 (signal (channel hc)) CHANNEL_CLOSED true Hs Hokc)
    as (k2 & -> & Hs2 & (Ech2 & _) & Hd2 & _ & _). rewrite bind_ret. cbv beta iota.
  rewrite Hq. cbn [queued_values fmap list_fmap concat drop_each]. rewrite bind_ret. set (k3 := set_chan k2 c _).
  assert (Hp3 : k_chans k3 !! p = Some hp).
  { unfold k3. rewrite set_chan_lookup, decide_False, Ech2 by done. unfold k1.
    by rewrite set_chan_lookup, decide_False. }
  unfold close_peer, upgrade_peer. rewrite Hpeer, Hp3, (proj2 (Nat.ltb_lt 0 (ch_strong hp)) Hstp).
  destruct (set_signal_ok k3 (signal (channel hp)) CHANNEL_CLOSED true) as (k4 & -> & _ & (Ech4 & _) & _);
    [done|by eapply signal_ok_dom|]. cbn [mbind outcome_bind].
  eexists _, _. splits; [done|by rewrite set_chan_lookup, decide_True|done|done|done| |].
  - intros Hpc. unfold chan_send, deref_arc. rewrite set_chan_lookup, decide_True by done. cbn [mbind outcome_bind].
    unfold upgrade_peer. cbn [chan_with peer]. rewrite Hpc, set_chan_lookup, decide_False, Ech4 by done.
    unfold k3. by rewrite set_chan_lookup, decide_True.
  - intros Hqp. unfold chan_read, deref_arc. rewrite set_chan_lookup, decide_True by done.
    cbn [mbind outcome_bind chan_with channel queue]. by rewrite Hqp.
Qed.

(** ** Interrupts *)

(** [n] acknowledgements in a row. *)
Fixpoint ack_times (n : nat) (k : Kernel) (now : Z) (i : nat) : outcome Kernel :=
  match n with O => Done k | S n => k ← int_ack k now i; ack_times n k now i end.

(** [ack] never clears [pending]: once an interrupt bound to a port has been
    triggered while waiting for an acknowledgement, every acknowledgement sends
    another notification although no interrupt arrives. *)
Theorem ack_repeats_forever n : ∀ k now i ky p wa,
  sched_ok k → is_Some (k_ports k !! p) → k_ints k !! i = Some (mkInt wa true (WaitPort p ky)) →
  ∃ k' wa', ack_times n k now i = Done k' ∧ k_ints k' !! i = Some (mkInt wa' true (WaitPort p ky)) ∧
    port_queue k' p = port_queue k p ++ replicate n (mkNotif ky (Interrupt now)).
Proof.
  induction n as [|n IH]; intros k now i ky p wa Hs Hp Hi; cbn [ack_times].
  { exists k, wa. rewrite app_nil_r. done. }
  unfold int_ack, deref_arc. rewrite Hi. cbn [mbind outcome_bind pending waiter].
  destruct (port_notify_ok k p (mkNotif ky (Interrupt now)) Hs Hp) as (k1 & -> & Hs1 & _ & Hd & Hq & _).
  cbn [mbind outcome_bind]. set (k2 := set_int k1 i _).
  destruct (IH k2 now i ky p true) as (k3 & wa' & -> & Hi3 & Hq3); [done|by apply Hd|by apply lookup_insert_eq|].
  exists k3, wa'. splits; try done. rewrite Hq3. change (port_queue k2 p) with (port_queue k1 p).
  rewrite Hq, decide_True by done. cbn. by rewrite <- app_assoc.
Qed.

(** ** Reference tables *)
Definition refs_ok (r : ProcessReferences) : Prop :=
  0 < next_id r ∧ ∀ id, is_Some (references r !! id) → 0 < id < next_id r.

(** A value added to a process gets an id no live or deleted reference of the
    process has had, looking the id up gives the value, other references are
    unaffected, and the table stays well formed. *)
Theorem add_value_spec k p x v :
  k_procs k !! p = Some x → refs_ok (p_refs x) → next_id (p_refs x) < u64_lim - 1 →
  ∃ id k', add_value k p v = Done (id, k') ∧ id = next_id (p_refs x) ∧
    get_value k p id = Done None ∧ get_value k' p id = Done (Some v) ∧
    (∀ q id', (q, id') ≠ (p, id) → get_value k' q id' = get_value k q id') ∧
    (∃ x', k_procs k' !! p = Some x' ∧ refs_ok (p_refs x') ∧ next_id (p_refs x') = id + 1).
Proof.
  intros Hx [Hpos Hlt] Hlim. unfold add_value, refs_add_value, deref_arc. rewrite Hx. cbn [mbind outcome_bind].
  destruct (Z.eqb_spec (next_id (p_refs x)) 0); [lia|].
  assert (Hnone : references (p_refs x) !! next_id (p_refs x) = None).
  { destruct (references (p_refs x) !! next_id (p_refs x)) eqn:E; [|done].
    destruct (Hlt (next_id (p_refs x))); [by eexists|lia]. }
  unfold add_u64. rewrite chk_ok by lia. rewrite bind_ret, Hnone. cbn [assert_]. rewrite !bind_ret. cbv beta iota.
  eexists _, _. splits; [done|done| | | |].
  - unfold get_value, deref_arc. rewrite Hx. cbn. by rewrite Hnone.
  - unfold get_value, deref_arc. cbn [set_proc upd_procs k_procs]. rewrite lookup_insert_eq. cbn. by rewrite lookup_insert_eq.
  - intros q id' Hne. unfold get_value, deref_arc. cbn [set_proc upd_procs k_procs].
    destruct (decide (p = q)) as [<-|Hpq]; [|by rewrite lookup_insert_ne].
    rewrite lookup_insert_eq, Hx. cbn. rewrite lookup_insert_ne; [done|]. intros <-. done.
  - exists (with_refs x (mkRefs (<[next_id (p_refs x) := v]> (references (p_refs x))) (next_id (p_refs x) + 1))).
    splits; [by apply lookup_insert_eq| |done]. split; cbn; [lia|]. intros id.
    destruct (decide (next_id (p_refs x) = id)) as [<-|Hne]; [lia|].
    rewrite lookup_insert_ne by done. intros Hid%Hlt. lia.
Qed.

(** ** Process exit *)
Lemma process_exited_ok k p x :
  sched_ok k → k_procs k !! p = Some x → signal_ok k (p_signals x) →
  ∃ k', process_exited k p = Done k' ∧ sched_ok k' ∧ p ∉ PROCESSES k' ∧
    (∀ q, q ≠ p → q ∈ PROCESSES k' ↔ q ∈ PROCESSES k) ∧
    (∃ x', k_procs k' !! p = Some x' ∧ p_exit_status x' = Exited ∧
       Z.testbit (signal_status (p_signals x')) 20 = true ∧ p_threads x' = p_threads x) ∧
    (∀ t m, mkWaiter (One t) m ∈ signal_waiters (p_signals x) → Z.testbit m 20 = true →
       state (sched (threads (k_sd k') t)) ≠ Sleeping).
Proof.
  intros Hs Hx Hok. unfold process_exited, deref_arc. rewrite Hx. cbn [mbind outcome_bind].
  destruct (set_signal_ok k (p_signals x) PROCESS_EXITED true Hs Hok) as (k1 & -> & Hs1 & Hsame & _ & _ & Ht & _).
  cbn [mbind outcome_bind].
  assert (Hbit : Z.testbit (new_status (p_signals x) PROCESS_EXITED true) 20 = true)
    by (unfold new_status, PROCESS_EXITED; rewrite Z.lor_spec; apply orb_true_r).
  eexists. splits; [done|done|cbn; set_solver| | |].
  - intros q Hq. cbn. destruct Hsame as (_ & _ & _ & _ & -> & _). set_solver.
  - eexists. split; [apply lookup_insert_eq|]. done.
  - intros t m Hin Hm. apply (Ht t m Hin). unfold intersects. apply negb_true_iff, Z.eqb_neq.
    intros E. assert (Hz : Z.testbit (Z.land (new_status (p_signals x) PROCESS_EXITED true) m) 20 = true)
      by (by rewrite Z.land_spec, Hbit, Hm). rewrite E in Hz. done.
Qed.

(** C34: when the scheduler exits a thread it becomes a zombie and leaves its
    process; the process exits exactly when that was its last thread: then it is
    marked exited and unregistered, its exit signal is set and every thread
    waiting for it is woken. *)
Theorem exit_thread_inner_spec k t x :
  let p := t_process (threads (k_sd k) t) in
  let ts := delete (tid (threads (k_sd k) t)) (p_threads x) in
  sched_ok k → k_procs k !! p = Some x → signal_ok k (p_signals x) →
  ∃ k' x', exit_thread_inner k t = Done k' ∧ sched_ok k' ∧ k_procs k' !! p = Some x' ∧ p_threads x' = ts ∧
    (ts ≠ ∅ → k_sd k' = set_state (k_sd k) t Zombie ∧ p_exit_status x' = p_exit_status x ∧ PROCESSES k' = PROCESSES k) ∧
    (ts = ∅ → p_exit_status x' = Exited ∧ p ∉ PROCESSES k' ∧ (∀ q, q ≠ p → q ∈ PROCESSES k' ↔ q ∈ PROCESSES k) ∧
       Z.testbit (signal_status (p_signals x')) 20 = true ∧
       ∀ t' m, mkWaiter (One t') m ∈ signal_waiters (p_signals x) → Z.testbit m 20 = true →
         state (sched (threads (k_sd k') t')) ≠ Sleeping).
Proof.
  intros p ts [l Hq] Hx Hok. unfold exit_thread_inner.
  assert (Ep : threads (set_state (k_sd k) t Zombie) t = with_sched (threads (k_sd k) t) (with_state (sched (threads (k_sd k) t)) Zombie))
    by (unfold set_state; by rewrite threads_set_thread, decide_True).
  cbn [k_sd upd_sd]. rewrite Ep. cbn [t_process tid with_sched]. fold p. cbn [k_procs upd_sd].
  unfold deref_arc. rewrite Hx. cbn [mbind outcome_bind]. fold ts.
  set (k1 := set_proc (upd_sd k (set_state (k_sd k) t Zombie)) p _).
  assert (Hs1 : sched_ok k1) by (exists l; by apply set_state_q).
  case_decide as Ets.
  - destruct (process_exited_ok k1 p (mkProc ts (p_thread_next_id x) (p_args x) (p_refs x) (p_exit_status x) (p_signals x)))
      as (k' & -> & Hs' & Hpn & Hpo & (x' & Hx' & He & Hb & Hts) & Hw); [done|apply lookup_insert_eq|done|].
    exists k', x'. by splits.
  - eexists k1, _. splits; [done|done|apply lookup_insert_eq|done|done|done].
Qed.

(** ** The scheduler's round *)
Lemma queue_thread_same_sched s t s' : queue_thread s t = Done s' → same_sched s s'.
Proof.
  unfold queue_thread. intros H x. destruct (queued _); [by injection H as <-|].
  set (s1 := set_thread s t _) in H.
  assert (E1 : ∀ x, sched (threads s1 x) = sched (threads s x) ∧ t_process (threads s1 x) = t_process (threads s x) ∧
                    tid (threads s1 x) = tid (threads s x))
    by (intros y; unfold s1; rewrite threads_set_thread; case_decide; by subst).
  destruct (queue_head s1); [|inv_outcome; apply E1].
  destruct (queue_tail s1) as [tl|]; inv_outcome; [|apply E1].
  change (threads (set_tail ?a ?b)) with (threads a). rewrite threads_set_thread.
  case_decide; [subst; apply E1|apply E1].
Qed.

(** What the primitives never change: the processes, whose a thread is, and that
    it is a zombie. *)
Definition frame (k k' : Kernel) : Prop :=
  k_procs k' = k_procs k ∧
  ∀ x, t_process (threads (k_sd k') x) = t_process (threads (k_sd k) x) ∧
       (state (sched (threads (k_sd k) x)) = Zombie → state (sched (threads (k_sd k') x)) = Zombie).

Lemma frame_refl k : frame k k.
Proof. by split. Qed.

Lemma frame_trans k1 k2 k3 : frame k1 k2 → frame k2 k3 → frame k1 k3.
Proof.
  intros [E1 H1] [E2 H2]. split; [congruence|]. intros x. destruct (H1 x), (H2 x). split; [congruence|auto].
Qed.

#[export] Hint Resolve frame_refl : fioxa.

Lemma kwake_frame k t k' : kwake k t = Done k' → frame k k'.
Proof.
  unfold kwake, wake. intros H. inv_outcome. rename x into s. split; [done|]. intros y. cbn.
  destruct (state (sched (threads (k_sd k) t))) eqn:E; inv_outcome; [done|done|].
  apply queue_thread_same_sched in H. destruct (H y) as (-> & -> & _). rewrite state_set_state. unfold set_state.
  rewrite threads_set_thread. case_decide; [subst; split; [done|congruence]|done].
Qed.

Lemma port_notify_frame k p n k' : port_notify k p n = Done k' → frame k k'.
Proof.
  unfold port_notify. intros H. inv_outcome. destruct (p_waiters _); [inv_outcome; by split|].
  apply kwake_frame in H0. exact H0.
Qed.

Lemma set_signal_frame k s sig b s' k' : set_signal k s sig b = Done (s', k') → frame k k'.
Proof.
  unfold set_signal. destruct (_ =? _); intros H; inv_outcome; [apply frame_refl|].
  revert H. generalize (filter (λ w, intersects (if b then Z.lor (signal_status s) sig else Z.ldiff (signal_status s) sig)
    (w_mask w) = true) (signal_waiters s)) as ws. intros ws. revert k.
  induction ws as [|[[t|p ky] m] ws IH]; intros k H; cbn [fire_waiters] in H; inv_outcome; [apply frame_refl| |];
    (eapply frame_trans; [|exact (IH _ H0)]); unfold fire_waiter in *; cbn [w_ty] in *.
  - by apply (kwake_frame _ _ _ H).
  - by apply (port_notify_frame _ _ _ _ H).
Qed.

Lemma chan_send_frame k c m o k' : chan_send k c m = Done (o, k') → frame k k'.
Proof.
  unfold chan_send. intros H. inv_outcome. destruct (upgrade_peer k _) as [[p h]|]; [|inv_outcome; apply frame_refl].
  destruct (negb _); [inv_outcome; apply frame_refl|]. destruct (_ <? _); [inv_outcome; apply frame_refl|].
  inv_outcome. destruct x0 as [sg k1]. inv_outcome. apply set_signal_frame in H0. exact H0.
Qed.

Lemma chan_read_frame k c mb mh r k' : chan_read k c mb mh = Done (r, k') → frame k k'.
Proof.
  unfold chan_read. intros H. inv_outcome. destruct (queue _) as [|m q]; [inv_outcome; apply frame_refl|].
  destruct (_ || _); [inv_outcome; apply frame_refl|].
  inv_outcome. destruct x0 as [sg k1]. inv_outcome. apply set_signal_frame in H0. exact H0.
Qed.

Lemma exit_thread_zombie k t k' : exit_thread_inner k t = Done k' → state (sched (threads (k_sd k') t)) = Zombie.
Proof.
  unfold exit_thread_inner, process_exited. intros H. inv_outcome.
  assert (Hz : state (sched (threads (set_state (k_sd k) t Zombie) t)) = Zombie)
    by (by rewrite state_set_state, decide_True).
  case_decide; inv_outcome; [|done]. destruct x1 as [sg k1]. inv_outcome.
  apply (set_signal_frame _ _ _ _ _ _ H2). done.
Qed.

(** A thread that comes back to the scheduler with interrupts still held is
    meant to be exited with an error message; the round marks it a zombie and
    then panics on that very state: whatever the thread did, such a round never
    completes, and when the thread can be exited it is the [panic!("bad state")]
    that stops the core. *)
Theorem held_interrupts_panics run k l t k1 saved depth :
  let s := snd (pop_thread (k_sd k)) in
  let c := sched (threads s t) in
  let back k := upd_sd k (set_thread (k_sd k) t (with_sched (threads (k_sd k) t)
                  (with_task_state (sched (threads (k_sd k) t)) (Some saved)))) in
  q_repr (k_sd k) (t :: l) → must_exit c = false →
  run (upd_sd (upd_sd k s) (set_thread s t (with_sched (threads s t) (with_task_state c None)))) t = (k1, saved, depth) →
  depth ≠ 1 →
  (∀ k', scheduler_round run k ≠ Done k') ∧
  (∀ k3, state c = Runnable → is_Some (task_state c) → exit_thread_inner (back k1) t = Done k3 →
     scheduler_round run k = Panic PUnreachable).
Proof.
  intros s c back Hq Hme Hrun Hd. unfold scheduler_round.
  destruct (pop_thread_cons _ _ _ Hq) as (s' & E & _ & _).
  assert (Es : s = s') by (unfold s; by rewrite E). subst c. clearbody s. subst s.
  rewrite E. cbn [k_sd upd_sd]. unfold must_exit in Hme. rewrite Hme.
  cbn [k_sd upd_sd] in Hrun. rewrite Hrun, (proj2 (Z.eqb_neq depth 1) Hd). cbn [negb]. fold (back k1). split.
  - intros k' H. inv_outcome.
    match goal with E : exit_thread_inner _ _ = _ |- _ => apply exit_thread_zombie in E; rename E into Ez end.
    by rewrite Ez in H2.
  - intros k3 Hr [ts Ht] Hx. rewrite Hr, bool_decide_true, Ht by done. cbn [assert_ unwrap mbind outcome_bind].
    rewrite Hx. cbn [mbind outcome_bind]. by rewrite (exit_thread_zombie _ _ _ Hx).
Qed.

(** ** Concrete instances *)

(** Thread 3 of process 9 sleeps; process 9 has it as its only thread; port 5 and
    interrupt 6 exist; a fresh channel joins ends 7 and 8. *)
Definition demo_sd : SchedData :=
  set_thread (sd (sys_init 1)) 3 (mkThread 9 1 false None (mkSched Sleeping (Some (mkSaved 0 0)) 0 false false)).

Definition demo_proc : Process :=
  mkProc {[ 1 := 3%nat ]} 2 [] (mkRefs ∅ 1) NotExitedYet (mkSignal 0 [mkWaiter (One 3) PROCESS_EXITED]).

Definition demo_kernel : Kernel :=
  snd (channel_create (mkKernel demo_sd {[ 5%nat := KPort_new ]} ∅ {[ 6%nat := mkInt false true (WaitPort 5 77) ]}
    ∅ {[ 9%nat := demo_proc ]} {[ 9%nat ]} [] 7 {[ 9%nat := 1%nat ]})).

Lemma demo_sched_ok : sched_ok demo_kernel.
Proof. exists []. change (q_repr demo_sd []). apply set_thread_q; [apply (inv_q _ _ (init_inv 1))|done|done]. Qed.

(** Two waiters of a signal: a thread and a port. *)
Definition demo_signal : KObjectSignal := mkSignal 0 [mkWaiter (WPort 5 42) READABLE; mkWaiter (One 3) READABLE].

Lemma demo_signal_ok : signal_ok demo_kernel demo_signal.
Proof.
  intros w [->|[->|[]%elem_of_nil]%elem_of_cons]%elem_of_cons; (split; [|done]); [|done].
  exists KPort_new. done.
Qed.

Lemma set_signal_spec_witness :
  ∃ s' k', set_signal demo_kernel demo_signal READABLE true = Done (s', k') ∧ signal_waiters s' = [] ∧
    port_queue k' 5 = [mkNotif 42 (SignalOne READABLE READABLE)] ∧ state (sched (threads (k_sd k') 3)) ≠ Sleeping ∧
    (∀ t, t ≠ 3%nat → sched (threads (k_sd k') t) = sched (threads (k_sd demo_kernel) t)).
Proof.
  destruct (set_signal_spec demo_kernel demo_signal READABLE true demo_sched_ok demo_signal_ok)
    as (s' & k' & E & _ & Hw & _ & _ & _ & Hq & Ht & (Hwk & _) & _).
  exists s', k'. split; [exact E|]. split; [|split; [|split]].
  - apply elem_of_nil_inv. intros w [Hin Hi]%Hw. revert Hi.
    apply elem_of_cons in Hin as [->|[->|[]%elem_of_nil]%elem_of_cons]; vm_compute; discriminate.
  - rewrite Hq. reflexivity.
  - apply (Ht 3%nat READABLE); [right; left|reflexivity].
  - intros t Hne. rewrite Hwk.
    assert (Es : served (port_waiters demo_kernel) (hit_waiters (new_status demo_signal READABLE true) demo_signal) = [3%nat]) by (vm_compute; reflexivity).
    rewrite Es, decide_False by (intros ?%list_elem_of_singleton; done). reflexivity.
Defined.

Lemma demo_chan_open : chan_open demo_kernel 7 8.
Proof. do 2 eexists. splits; [reflexivity|reflexivity|reflexivity|done|cbn; lia|done]. Qed.

Lemma demo_recv_ok : recv_ok demo_kernel 8.
Proof. intros h [= <-]. split; [by intros w ?%elem_of_nil|done]. Qed.

(** Two messages are sent; a read with too small a buffer leaves the first one. *)
Lemma channel_refines_fifo_witness :
  let m1 := mkMsg [1; 2; 3] None in
  let m2 := mkMsg [4] (Some [VPort 5]) in
  ∃ k', run_chan demo_kernel 7 8 [OpSend m1; OpSend m2; OpRead 2 0; OpRead 3 0; OpRead 3 1; OpRead 9 9]
    = Done ([Sent true; Sent true; Received (Err (Size 3 0)); Received (Ok m1); Received (Ok m2); Received (Err Empty)], k') ∧
    chan_queue k' 8 = [].
Proof.
  intros m1 m2.
  destruct (channel_refines_fifo [OpSend m1; OpSend m2; OpRead 2 0; OpRead 3 0; OpRead 3 1; OpRead 9 9]
              demo_kernel 7 8 demo_sched_ok demo_chan_open demo_recv_ok) as (k' & E & Hq & _).
  exists k'. split; [exact E|exact Hq].
Defined.

Lemma drop_last_handle_closes_peer_witness :
  ∃ k' hp', drop_kernel_value demo_kernel (VChannel 7) = Done k' ∧ k_chans k' !! 8%nat = Some hp' ∧
    open (channel hp') = false ∧ chan_send k' 8 (mkMsg [1] None) = Done (None, k') ∧ chan_read k' 8 9 9 = Done (Err Closed, k').
Proof.
  destruct (drop_last_handle_closes_peer demo_kernel 7 8 (mkChan KChannelInner_default 8 1) (mkChan KChannelInner_default 7 1)
              (mkMsg [1] None) 9 9 demo_sched_ok) as (k' & hp' & E & Hp & _ & Ho & _ & Hs & Hr);
    [reflexivity|reflexivity|reflexivity|reflexivity|done|reflexivity|cbn; lia|by intros w ?%elem_of_nil|by intros w ?%elem_of_nil|].
  exists k', hp'. split; [exact E|]. split; [exact Hp|]. split; [exact Ho|]. split; [by apply Hs|by apply Hr].
Defined.

(** A process that has exited, with an end in its table; its last handle is in the queue of
    another end, which goes: the process goes too, and with it its end. *)
Definition demo_chain : Kernel :=
  let k := snd (channel_create (upd_registered demo_kernel ∅)) in
  let k := set_proc k 9 (with_refs demo_proc (mkRefs {[ 1 := VChannel 7 ]} 2)) in
  set_chan k 9 (mkChan (mkChanInner KObjectSignal_new true [mkMsg [] (Some [VProcess 9])]) 10 1).

Lemma drop_kernel_value_terminates_witness :
  ∃ k', drop_kernel_value demo_chain (VChannel 9) = Done k' ∧ live (k_chans k') ⊆ {[7%nat; 8%nat; 9%nat; 10%nat]} ∧ held (k_arcs k') ⊆ {[9%nat]} ∧
    (∃ h, k_chans k' !! 8%nat = Some h ∧ open (channel h) = false).
Proof.
  destruct (drop_kernel_value_terminates demo_chain (VChannel 9)) as [Hf Hl].
  destruct (drop_kernel_value demo_chain (VChannel 9)) as [k'| |] eqn:E; [|vm_compute in E; discriminate|done].
  destruct (Hl k' eq_refl) as [H1 H2]. exists k'. split; [reflexivity|]. split; [|split].
  - etransitivity; [exact H1|]. vm_compute. done.
  - etransitivity; [exact H2|]. vm_compute. done.
  - assert (Eo : match drop_kernel_value demo_chain (VChannel 9) with
               | Done k => match k_chans k !! 8%nat with Some h => negb (open (channel h)) | None => false end | _ => false end = true) by (vm_compute; reflexivity).
    rewrite E in Eo. destruct (k_chans k' !! 8%nat) as [h|]; [|done]. exists h. split; [done|]. by apply negb_true_iff in Eo.
Defined.

(** One interrupt, three acknowledgements: three more notifications. *)
Lemma ack_repeats_forever_witness :
  ∃ k' wa', ack_times 3 demo_kernel 1000 6 = Done k' ∧ k_ints k' !! 6%nat = Some (mkInt wa' true (WaitPort 5 77)) ∧
    port_queue k' 5 = replicate 3 (mkNotif 77 (Interrupt 1000)).
Proof.
  apply (ack_repeats_forever 3 demo_kernel 1000 6 77 5 false demo_sched_ok); [by exists KPort_new|reflexivity].
Defined.

Lemma add_value_spec_witness :
  ∃ id k', add_value demo_kernel 9 (VPort 5) = Done (id, k') ∧ id = 1 ∧ get_value k' 9 1 = Done (Some (VPort 5)).
Proof.
  destruct (add_value_spec demo_kernel 9 demo_proc (VPort 5)) as (id & k' & E & -> & _ & Hg & _);
    [reflexivity| |reflexivity|].
  - split; [reflexivity|]. intros id [v [=]].
  - exists 1, k'. done.
Defined.

(** The only thread of process 9 exits: the process is gone and the thread that
    waits for it is woken. *)
Lemma exit_thread_inner_spec_witness :
  ∃ k' x', exit_thread_inner demo_kernel 3 = Done k' ∧ k_procs k' !! 9%nat = Some x' ∧ p_exit_status x' = Exited ∧
    9%nat ∉ PROCESSES k'.
Proof.
  destruct (exit_thread_inner_spec demo_kernel 3 demo_proc demo_sched_ok) as (k' & x' & E & _ & Hx & _ & _ & Hl);
    [reflexivity| |].
  - intros w [->|[]%elem_of_nil]%elem_of_cons. done.
  - destruct Hl as (He & Hp & _); [reflexivity|]. exists k', x'. done.
Defined.

(** Thread 3 is queued and comes back with two levels of held interrupts. *)
Definition demo_queued : SchedData :=
  mkSD (<[3%nat := mkThread 9 1 true None (mkSched Runnable (Some (mkSaved 0 0)) 0 false false)]> (threads (sd (sys_init 1))))
    (Some 3%nat) (Some 3%nat).

Lemma demo_queued_repr : q_repr demo_queued [3%nat].
Proof.
  split; try done.
  - apply NoDup_singleton.
  - intros t. rewrite list_elem_of_singleton. unfold demo_queued. cbn.
    destruct (decide (t = 3%nat)) as [->|Hne]; [by rewrite fn_lookup_insert|]. by rewrite fn_lookup_insert_ne.
  - intros t Hne%not_elem_of_cons. unfold demo_queued. cbn. rewrite fn_lookup_insert_ne; [done|]. intros <-. by destruct Hne.
Qed.

Lemma held_interrupts_panics_witness :
  scheduler_round (λ k _, (k, mkSaved 8 8, 2)) (upd_sd demo_kernel demo_queued) = Panic PUnreachable.
Proof.
  destruct (held_interrupts_panics (λ k _, (k, mkSaved 8 8, 2)) (upd_sd demo_kernel demo_queued) [] 3 _ (mkSaved 8 8) 2
              demo_queued_repr eq_refl eq_refl) as [_ H]; [lia|].
  eapply H; [reflexivity|by eexists|reflexivity].
Defined.
