(* ===== verification/Syscall.v ===== *)
(** * System calls

    [kernel/src/syscall/mod.rs], with [spawn_thread] of
    [scheduling/taskmanager.rs] and [new_thread] of [scheduling/process.rs].  A
    handler is a computation in the monad [sys]: it changes the [World] (kernel
    objects, the memory of each process, the user's buffers, the clock), returns a
    [SyscallError] where the source's [kunwrap!], [kassert!], [kenum_cast!] and
    [kpanic!] do, and can panic.  A handler that blocks ends with what it waits
    for; [resume] is the rest of it, run when the thread is scheduled again.

    The structures a call passes by pointer are [repr(C)] and made of 64-bit
    words; the memory of a process is viewed as words (for them) and bytes (for
    the buffers).  Page faults on the user's pointers are not part of the model. *)
From S2P Require Import Prelude Page PhysMem AllocIface PageAlloc PageTable PageMapper Sched Ipc.

(** ** The world *)
Record UserMem := mkUser { u_word : Z → Z; u_byte : Z → Z }.

(** [ProcessMemory] and the privilege of the process. *)
Record ProcessMemory := mkPMem_ { pm_mapper : PageMapperManager; owned32_pages : list Z; pm_kernel : bool }.

Record World := mkWorld {
  w_k : Kernel;
  w_vm : vm_world (A := PageFrameAllocator);
  w_mem : gmap nat ProcessMemory;
  w_user : nat → UserMem;
  w_now : Z;                           (* uptime() *)
}.

Definition upd_k (w : World) k := mkWorld k (w_vm w) (w_mem w) (w_user w) (w_now w).
Definition upd_vm (w : World) v := mkWorld (w_k w) v (w_mem w) (w_user w) (w_now w).
Definition upd_mem (w : World) m := mkWorld (w_k w) (w_vm w) m (w_user w) (w_now w).
Definition upd_user (w : World) p (u : UserMem) := mkWorld (w_k w) (w_vm w) (w_mem w) (<[p := u]> (w_user w)) (w_now w).

Definition write_word (u : UserMem) (a v : Z) : UserMem := mkUser (<[a := v]> (u_word u)) (u_byte u).

Fixpoint write_words (u : UserMem) (a : Z) (vs : list Z) : UserMem :=
  match vs with [] => u | v :: vs => write_words (write_word u a v) (a + 8) vs end.

Fixpoint write_bytes (u : UserMem) (a : Z) (bs : list Z) : UserMem :=
  match bs with [] => u | b :: bs => write_bytes (mkUser (u_word u) (<[a := b]> (u_byte u))) (a + 1) bs end.

(** [slice::from_raw_parts]. *)
Definition read_bytes (u : UserMem) (a n : Z) : list Z := (λ i, u_byte u (a + i)) <$> seqZ 0 n.
Definition read_words (u : UserMem) (a n : Z) : list Z := (λ i, u_word u (a + 8 * i)) <$> seqZ 0 n.

(** ** The monad *)
Inductive SyscallError := Error.

Definition sys (A : Type) : Type := World → outcome (result A SyscallError * World).

#[export] Instance sys_ret : MRet sys := λ A a w, Done (Ok a, w).
#[export] Instance sys_bind : MBind sys := λ A B f m w,
  match m w with
  | Done (Ok a, w) => f a w
  | Done (Err e, w) => Done (Err e, w)
  | Panic r => Panic r
  | OutOfFuel => OutOfFuel
  end.

Definition kerror {A} : sys A := λ w, Done (Err Error, w).
Definition kassert (b : bool) : sys unit := if b then mret tt else kerror.
Definition kunwrap {A} (o : option A) : sys A := match o with Some a => mret a | None => kerror end.
Definition pure {A} (o : outcome A) : sys A := λ w, a ← o; Done (Ok a, w).
Definition gets {A} (f : World → A) : sys A := λ w, Done (Ok (f w), w).

(** An operation on the kernel's objects. *)
Definition on_k {A} (f : Kernel → outcome (A * Kernel)) : sys A :=
  λ w, '(a, k) ← f (w_k w); Done (Ok a, upd_k w k).
Definition on_k_ (f : Kernel → outcome Kernel) : sys unit :=
  λ w, k ← f (w_k w); Done (Ok tt, upd_k w k).
Definition on_user (p : nat) (f : UserMem → UserMem) : sys unit :=
  λ w, Done (Ok tt, upd_user w p (f (w_user w p))).

(** ** Results of a handler *)
Inductive Blocked :=
  | BSignal (v : KernelValue)        (* Wait on an object *)
  | BPort (port : nat) (buf : Z)     (* KPort::wait *)
  | BInterrupt (i : nat)             (* KInterruptHandle::wait *)
  | BSleep (start : Z).

Inductive hres := HRet (r : Z) | HBlock (b : Blocked).

(** ** Arguments *)

(** [KernelReferenceID::from_usize]. *)
Definition from_usize (v : Z) : option Z := if v =? 0 then None else Some v.

(** [ObjectSignal::from_bits_truncate]. *)
Definition from_bits_truncate (v : Z) : Z := Z.land v ObjectSignal_all.

(** [KernelValue::object_type() as usize]. *)
Definition object_type (v : option KernelValue) : Z :=
  match v with
  | None => 0
  | Some (VMessage _) => 1
  | Some (VProcess _) => 2
  | Some (VChannel _) => 3
  | Some (VPort _) => 4
  | Some (VInterrupt _) => 5
  end.

(** [kenum_cast!]. *)
Definition cast_process (v : KernelValue) : sys nat := match v with VProcess p => mret p | _ => kerror end.
Definition cast_channel (v : KernelValue) : sys nat := match v with VChannel c => mret c | _ => kerror end.
Definition cast_port (v : KernelValue) : sys nat := match v with VPort p => mret p | _ => kerror end.
Definition cast_message (v : KernelValue) : sys nat := match v with VMessage m => mret m | _ => kerror end.
Definition cast_interrupt (v : KernelValue) : sys nat := match v with VInterrupt i => mret i | _ => kerror end.

(** [repr(C)] layout of a [PortNotification]: key, tag, payload. *)
Definition notification_words (n : PortNotification) : list Z :=
  key n ::
  match ty n with
  | SignalOne trigger signals => [0; trigger; signals]
  | Interrupt timestamp => [1; timestamp]
  | User bytes => [2; of_le_bytes bytes]
  end.

(** Reading one; another tag is undefined behaviour. *)
Definition read_notification (u : UserMem) (a : Z) : outcome PortNotification :=
  let w i := u_word u (a + 8 * i) in
  match w 1 mod u32_lim with
  | 0 => Done (mkNotif (w 0) (SignalOne (w 2) (w 3)))
  | 1 => Done (mkNotif (w 0) (Interrupt (w 2)))
  | 2 => Done (mkNotif (w 0) (User (le_bytes 8 (w 2))))
  | _ => Panic PUnreachable
  end.

(** ** Handlers

    [t] is the current thread; its process is [p]. *)
Definition current_process (t : nat) : sys nat := gets (λ w, t_process (threads (k_sd (w_k w)) t)).

(** [thread.process().get_value(id)], unwrapped. *)
Definition lookup_ref (p : nat) (id : Z) : sys KernelValue :=
  o ← on_k (λ k, v ← get_value k p id; Done (v, k)); kunwrap o.

(** A reference given as a [usize]. *)
Definition lookup_arg (p : nat) (arg : Z) : sys KernelValue :=
  id ← kunwrap (from_usize arg); lookup_ref p id.

Definition new_value (p : nat) (v : KernelValue) : sys Z := on_k (λ k, add_value k p v).

Definition echo_handler (arg1 : Z) : sys hres := mret (HRet arg1).

Definition read_args_handler (t : nat) (arg1 : Z) : sys hres :=
  p ← current_process t;
  proc ← on_k (λ k, x ← deref_arc (k_procs k) p; Done (x, k));
  if arg1 =? 0 then mret (HRet (Z.of_nat (length (p_args proc))))
  else
    _ ← on_user p (λ u, write_bytes u arg1 (p_args proc));
    mret (HRet arg1).

(** *** References *)

(** [KObject::signals] of a channel end or a process. *)
Definition object_signal (k : Kernel) (v : KernelValue) : outcome (option KObjectSignal) :=
  match v with
  | VChannel c => h ← deref_arc (k_chans k) c; Done (Some (signal (channel h)))
  | VProcess q => x ← deref_arc (k_procs k) q; Done (Some (p_signals x))
  | _ => Done None
  end.

Definition add_waiter (k : Kernel) (v : KernelValue) (wt : SignalWaiter) : outcome Kernel :=
  match v with
  | VChannel c =>
      h ← deref_arc (k_chans k) c;
      let ch := channel h in
      Done (set_chan k c (chan_with h (mkChanInner (signal_wait (signal ch) wt) (open ch) (queue ch))))
  | VProcess q =>
      x ← deref_arc (k_procs k) q;
      Done (set_proc k q (mkProc (p_threads x) (p_thread_next_id x) (p_args x) (p_refs x) (p_exit_status x)
                            (signal_wait (p_signals x) wt)))
  | _ => Done k
  end.

Definition signals_of (v : KernelValue) : sys KObjectSignal :=
  o ← on_k (λ k, s ← object_signal k v; Done (s, k)); kunwrap o.

(** The [Arc] the caller holds on [v] outlives the wait. *)
Definition wait_handler (t : nat) (v : KernelValue) (mask : Z) : sys hres :=
  s ← signals_of v;
  if intersects (signal_status s) mask then mret (HRet (signal_status s))
  else
    _ ← on_k_ (λ k, Done (upd_sd k (set_state (k_sd k) t Sleeping)));
    _ ← on_k_ (λ k, add_waiter k v (mkWaiter (One t) mask));
    _ ← on_k_ (λ k, Done (clone_value k v));
    mret (HBlock (BSignal v)).

Definition wait_port_handler (p : nat) (v : KernelValue) (wait : Z) : sys hres :=
  u ← gets (λ w, w_user w p);
  port ← lookup_ref p (u_word u wait);
  port ← cast_port port;
  let mask := from_bits_truncate (u_word u (wait + 8)) in
  let key := u_word u (wait + 16) in
  s ← signals_of v;
  _ ← (if intersects (signal_status s) mask then
         on_k_ (λ k, port_notify k port (mkNotif key (SignalOne mask (signal_status s))))
       else on_k_ (λ k, add_waiter k v (mkWaiter (WPort port key) mask)));
  mret (HRet 0).

Definition remove_ref (k : Kernel) (p : nat) (id : Z) : outcome Kernel :=
  x ← deref_arc (k_procs k) p;
  Done (set_proc k p (with_refs x (mkRefs (delete id (references (p_refs x))) (next_id (p_refs x))))).

Definition sys_reference_handler (t : nat) (arg1 arg2 arg3 : Z) : sys hres :=
  p ← current_process t;
  _ ← kassert (arg1 <? 5);
  id ← kunwrap (from_usize arg2);
  match arg1 with
  | 0 (* Clone *) =>
      v ← lookup_ref p id;
      _ ← on_k_ (λ k, Done (clone_value k v));
      id ← new_value p v;
      mret (HRet id)
  | 1 (* Delete *) =>
      v ← lookup_ref p id;
      _ ← on_k_ (λ k, remove_ref k p id);
      _ ← on_k_ (λ k, drop_kernel_value k v);
      mret (HRet 0)
  | 2 (* GetType *) =>
      o ← on_k (λ k, v ← get_value k p id; Done (v, k));
      mret (HRet (object_type o))
  | 3 (* Wait *) =>
      v ← lookup_ref p id;
      wait_handler t v (from_bits_truncate arg3)
  | _ (* WaitPort *) =>
      v ← lookup_ref p id;
      wait_port_handler p v arg3
  end.

(** *** Processes *)

(** [ProcessExit as usize]. *)
Definition exit_code (e : ProcessExit) : Z := match e with Exited => 0 | NotExitedYet => 1 end.

Definition sys_process_handler (t : nat) (arg1 arg2 : Z) : sys hres :=
  p ← current_process t;
  _ ← kassert (arg1 <? 2);
  v ← lookup_arg p arg2;
  q ← cast_process v;
  match arg1 with
  | 0 (* GetExitCode *) =>
      x ← on_k (λ k, x ← deref_arc (k_procs k) q; Done (x, k));
      mret (HRet (exit_code (p_exit_status x)))
  | _ (* Kill *) =>
      _ ← on_k_ (λ k, kill_threads k q);
      mret (HRet 0)
  end.

(** *** Sleep *)
Definition sleep_handler (t : nat) (arg1 : Z) : sys hres :=
  start ← gets w_now;
  time ← pure (add_u64 start arg1);
  _ ← on_k_ (λ k, Done (upd_sd k (set_state (k_sd k) t Sleeping)));
  _ ← on_k_ (λ k, Done (upd_slept k (slept_push (SLEPT_PROCESSES k) (time, t))));
  mret (HBlock (BSleep start)).

(** *** Messages *)
Definition new_message (k : Kernel) (data : list Z) : nat * Kernel :=
  (k_next k, upd_next (upd_msgs k (<[k_next k := data]> (k_msgs k))) (S (k_next k))).

Definition message_handler (t : nat) (arg1 arg2 : Z) : sys hres :=
  _ ← kassert (arg1 <? 3);
  p ← current_process t;
  u ← gets (λ w, w_user w p);
  match arg1 with
  | 0 (* Create: (pointer, length) before, the reference after *) =>
      let data := read_bytes u (u_word u arg2) (u_word u (arg2 + 8)) in
      m ← on_k (λ k, Done (new_message k data));
      id ← new_value p (VMessage m);
      _ ← on_user p (λ u, write_word u arg2 id);
      mret (HRet 0)
  | 1 (* GetSize: the reference before, the length after *) =>
      v ← lookup_ref p (u_word u arg2);
      m ← cast_message v;
      data ← on_k (λ k, d ← deref_arc (k_msgs k) m; Done (d, k));
      _ ← on_user p (λ u, write_word u arg2 (Z.of_nat (length data)));
      mret (HRet 0)
  | _ (* Read: reference, pointer, length *) =>
      let loc := u_word u (arg2 + 8) in
      let len := u_word u (arg2 + 16) in
      v ← lookup_ref p (u_word u arg2);
      m ← cast_message v;
      data ← on_k (λ k, d ← deref_arc (k_msgs k) m; Done (d, k));
      _ ← kassert (Z.of_nat (length data) =? len);
      _ ← on_user p (λ u, write_bytes u loc data);
      mret (HRet 0)
  end.

(** *** Channels *)

(** [ChannelReadResult as usize]. *)
Definition RES_Ok : Z := 0.
Definition RES_Empty : Z := 1.
Definition RES_Size : Z := 2.
Definition RES_Closed : Z := 3.

(** Every handle of a received message becomes a reference of the process. *)
Fixpoint add_values (p : nat) (vs : list KernelValue) : sys (list Z) :=
  match vs with
  | [] => mret []
  | v :: vs => id ← new_value p v; ids ← add_values p vs; mret (id :: ids)
  end.

Definition channel_read_handler (t : nat) (read : Z) : sys hres :=
  p ← current_process t;
  u ← gets (λ w, w_user w p);
  v ← lookup_ref p (u_word u read);
  c ← cast_channel v;
  r ← on_k (λ k, chan_read k c (u_word u (read + 16)) (u_word u (read + 32)));
  match r with
  | Ok msg =>
      _ ← on_user p (λ u, write_word u (read + 16) (Z.of_nat (length (data msg))));
      _ ← on_user p (λ u, write_bytes u (u_word u (read + 8)) (data msg));
      _ ← (match handles msg with
           | Some hs =>
               _ ← on_user p (λ u, write_word u (read + 32) (Z.of_nat (length hs)));
               ids ← add_values p hs;
               on_user p (λ u, write_words u (u_word u (read + 24)) ids)
           | None => on_user p (λ u, write_word u (read + 32) 0)
           end);
      mret (HRet RES_Ok)
  | Err Empty => mret (HRet RES_Empty)
  | Err (Size min_bytes min_handles) =>
      _ ← on_user p (λ u, write_word (write_word u (read + 16) min_bytes) (read + 32) min_handles);
      mret (HRet RES_Size)
  | Err Closed => mret (HRet RES_Closed)
  end.

(** The references named by the handle array; null is refused.  The clones of an
    array that turns out to be bad are dropped again, which leaves the counts as
    they were: they are taken when all of it is known to be good. *)
Fixpoint lookup_refs (p : nat) (ids : list Z) : sys (list KernelValue) :=
  match ids with
  | [] => mret []
  | id :: ids =>
      id ← kunwrap (from_usize id);
      v ← lookup_ref p id;
      vs ← lookup_refs p ids;
      mret (v :: vs)
  end.

Fixpoint clone_values (k : Kernel) (vs : list KernelValue) : Kernel :=
  match vs with [] => k | v :: vs => clone_values (clone_value k v) vs end.

Fixpoint drop_values (k : Kernel) (vs : list KernelValue) : outcome Kernel :=
  match vs with [] => Done k | v :: vs => k ← drop_kernel_value k v; drop_values k vs end.

Definition channel_write_handler (t : nat) (write : Z) : sys hres :=
  p ← current_process t;
  u ← gets (λ w, w_user w p);
  v ← lookup_ref p (u_word u write);
  c ← cast_channel v;
  let bytes := read_bytes u (u_word u (write + 8)) (u_word u (write + 16)) in
  let hptr := u_word u (write + 24) in
  let hlen := u_word u (write + 32) in
  hs ← (if negb (hptr =? 0) && (0 <? hlen) then
          vs ← lookup_refs p (read_words u hptr hlen);
          _ ← on_k_ (λ k, Done (clone_values k vs));
          mret (Some vs)
        else mret None);
  o ← on_k (λ k, chan_send k c (mkMsg bytes hs));
  match o with
  | Some _ => mret (HRet 1)
  | None => _ ← on_k_ (λ k, drop_values k (default [] hs)); mret (HRet 0)
  end.

Definition sys_channel_handler (t : nat) (syscall arg2 : Z) : sys hres :=
  _ ← kassert (syscall <? 3);
  p ← current_process t;
  match syscall with
  | 0 (* Create *) =>
      '(l, r) ← on_k (λ k, Done (channel_create k));
      left ← new_value p (VChannel l);
      right ← new_value p (VChannel r);
      _ ← on_user p (λ u, write_word (write_word u arg2 left) (arg2 + 8) right);
      mret (HRet 1)
  | 1 (* Read *) => channel_read_handler t arg2
  | _ (* Write *) => channel_write_handler t arg2
  end.

(** *** Ports *)
Definition new_port (k : Kernel) : nat * Kernel :=
  (k_next k, upd_next (upd_ports k (<[k_next k := KPort_new]> (k_ports k))) (S (k_next k))).

(** One round of [KPort::wait] and what follows it. *)
Definition port_wait_step (t port : nat) (buf : Z) : sys hres :=
  p ← current_process t;
  o ← on_k (λ k, port_wait_round k port t);
  match o with
  | Some n => _ ← on_user p (λ u, write_words u buf (notification_words n)); mret (HRet 0)
  | None => mret (HBlock (BPort port buf))
  end.

Definition sys_port_handler (t : nat) (syscall arg1 arg2 : Z) : sys hres :=
  _ ← kassert (syscall <? 3);
  p ← current_process t;
  match syscall with
  | 0 (* Create *) =>
      port ← on_k (λ k, Done (new_port k));
      id ← new_value p (VPort port);
      mret (HRet id)
  | 1 (* Wait *) =>
      v ← lookup_arg p arg1;
      port ← cast_port v;
      port_wait_step t port arg2
  | _ (* Push *) =>
      v ← lookup_arg p arg1;
      port ← cast_port v;
      u ← gets (λ w, w_user w p);
      n ← pure (read_notification u arg2);
      _ ← on_k_ (λ k, port_notify k port n);
      mret (HRet 0)
  end.

(** *** Interrupts *)
Definition new_interrupt (k : Kernel) : nat * Kernel :=
  (k_next k, upd_next (set_int k (k_next k) KInterruptHandle_new) (S (k_next k))).

Definition interrupt_wait_step (t i : nat) : sys hres :=
  r ← on_k (λ k, int_wait_round k i t);
  match r with
  | Ok (Some v) => mret (HRet v)
  | Ok None => mret (HBlock (BInterrupt i))
  | Err _ => kerror
  end.

Definition sys_interrupt_handler (t : nat) (syscall handle port key : Z) : sys hres :=
  _ ← kassert (syscall <? 5);
  p ← current_process t;
  now ← gets w_now;
  match syscall with
  | 0 (* Create *) =>
      i ← on_k (λ k, Done (new_interrupt k));
      id ← new_value p (VInterrupt i);
      mret (HRet id)
  | 1 (* Trigger *) =>
      v ← lookup_arg p handle;
      i ← cast_interrupt v;
      _ ← on_k_ (λ k, int_trigger k now i);
      mret (HRet 0)
  | 2 (* SetPort *) =>
      v ← lookup_arg p handle;
      i ← cast_interrupt v;
      v ← lookup_arg p port;
      q ← cast_port v;
      _ ← on_k_ (λ k, int_set_port k now i q key);
      mret (HRet 0)
  | 3 (* Acknowledge *) =>
      v ← lookup_arg p handle;
      i ← cast_interrupt v;
      _ ← on_k_ (λ k, int_ack k now i);
      mret (HRet 0)
  | _ (* Wait *) =>
      v ← lookup_arg p handle;
      i ← cast_interrupt v;
      interrupt_wait_step t i
  end.

(** *** Memory

    [task.process().memory] of the caller, with the allocator behind it. *)
Section memory.
Context (off : Z).
#[local] Instance frame_allocator : PageAllocator PageFrameAllocator := pfa_allocator off.

Definition get_memory (p : nat) : sys ProcessMemory :=
  o ← gets (λ w, w_mem w !! p);
  pure (match o with Some m => Done m | None => Panic PUnreachable end).

Definition set_memory (p : nat) (m : ProcessMemory) : sys unit :=
  λ w, Done (Ok tt, upd_mem w (<[p := m]> (w_mem w))).

(** An operation on the allocator, the memory and the mappings. *)
Definition on_vm {A} (f : vm_world (A := PageFrameAllocator) → outcome (A * vm_world (A := PageFrameAllocator))) : sys A :=
  λ w, '(a, v) ← f (w_vm w); Done (Ok a, upd_vm w v).

Definition on_mapper {A} (p : nat)
    (f : vm_world (A := PageFrameAllocator) → PageMapperManager →
         outcome (A * (PageMapperManager * vm_world (A := PageFrameAllocator)))) : sys A :=
  m ← get_memory p;
  '(a, pm) ← on_vm (λ v, '(a, (pm, v)) ← f v (pm_mapper m); Done ((a, pm), v));
  _ ← set_memory p (mkPMem_ pm (owned32_pages m) (pm_kernel m));
  mret a.

(** [(arg2 + 0xFFF) & !0xFFF]. *)
Definition page_align_up (v : Z) : outcome Z := s ← add_u64 v 0xFFF; Done (Z.land s (not_u64 0xFFF)).

Definition mmap_page_handler (t : nat) (arg1 arg2 : Z) : sys hres :=
  _ ← kassert (arg1 <=? EndUserMem);
  p ← current_process t;
  sz ← pure (page_align_up arg2);
  lazy_page ← on_vm (λ v, new_lazy v sz);
  if arg1 =? 0 then
    a ← on_mapper p (λ v pm, insert_mapping v pm lazy_page flags_all);
    mret (HRet a)
  else
    o ← on_mapper p (λ v pm, insert_mapping_at v pm arg1 lazy_page flags_all);
    _ ← kunwrap o;
    mret (HRet arg1).

Definition mmap_page32_handler (t : nat) : sys hres :=
  p ← current_process t;
  o ← on_vm (λ '(s, st), '(o, s) ← allocate_page_32bit off s; Done (o, (s, st)));
  page ← kunwrap o;
  let r := get_address page in
  m ← get_memory p;
  e ← on_vm (λ '(s, st), '(e, s) ← identity_map off Size4KB 3 s (page_mapper (pm_mapper m)) page flags_all;
                          Done (e, (s, st)));
  _ ← pure (match e with Ok _ => Done tt | Err _ => Panic PUnwrap end);
  _ ← set_memory p (mkPMem_ (pm_mapper m) (owned32_pages m ++ [r]) (pm_kernel m));
  mret (HRet r).

Definition unmmap_page_handler (t : nat) (arg1 arg2 : Z) : sys hres :=
  _ ← kassert (arg1 <=? EndUserMem);
  p ← current_process t;
  s ← pure (add_u64 arg1 arg2);
  e ← pure (page_align_up s);
  r ← on_mapper p (λ v pm, free_mapping off v pm arg1 e);
  match r with Ok _ => mret (HRet 0) | Err _ => kerror end.

(** *** Threads *)
Definition STACK_ADDR : Z := 0x100000000000.
Definition KSTACK_ADDR : Z := 0xffff800000000000.
Definition STACK_SIZE : Z := 0x20000.
Definition KSTACK_SIZE : Z := 0x10000.

(** The base of a thread's stack: one stack and a guard page per thread id. *)
Definition stack_of (addr size tid : Z) : outcome Z := o ← mul_u64 (size + 0x1000) tid; add_u64 addr o.

(** [Process::new_thread].  The first instruction is that of [start_new_task], at
    [start]; the argument and the interrupt frame it pops from the kernel stack
    are contents of memory the model has no view of. *)
Definition new_thread (start : Z) (p : nat) : sys (option nat) :=
  proc ← on_k (λ k, x ← deref_arc (k_procs k) p; Done (x, k));
  let tid := p_thread_next_id proc in
  nxt ← pure (add_u64 tid 1);
  _ ← on_k_ (λ k, Done (set_proc k p (mkProc (p_threads proc) nxt (p_args proc) (p_refs proc) (p_exit_status proc) (p_signals proc))));
  m ← get_memory p;
  stack_base ← pure (stack_of STACK_ADDR STACK_SIZE tid);
  stack ← on_vm (λ v, if pm_kernel m then new_lazy_filled v STACK_SIZE else new_lazy v STACK_SIZE);
  o ← on_mapper p (λ v pm, insert_mapping_at_set off v pm stack_base stack flags_all);
  _ ← pure (unwrap o);
  kstack_base ← pure (stack_of KSTACK_ADDR KSTACK_SIZE tid);
  kstack_top ← pure (add_u64 kstack_base KSTACK_SIZE);
  kstack ← on_vm (λ v, new_lazy_filled v KSTACK_SIZE);
  top ← on_vm (λ v, base_top_stack v kstack);
  _ ← pure (virt_addr_for_phys off top);
  o ← on_mapper p (λ v pm, insert_mapping_at_set off v pm kstack_base kstack flags_writeable);
  _ ← pure (unwrap o);
  let th := mkThread p tid false None
    (mkSched Runnable (Some (mkSaved (kstack_top - 0x1000) start)) kstack_top false false) in
  proc ← on_k (λ k, x ← deref_arc (k_procs k) p; Done (x, k));
  match p_exit_status proc with
  | Exited => mret None
  | NotExitedYet =>
      (* the thread has a reference to its process *)
      t ← on_k (λ k, let k := clone_value k (VProcess p) in
                     Done (k_next k, upd_next (upd_sd k (set_thread (k_sd k) (k_next k) th)) (S (k_next k))));
      _ ← on_k_ (λ k, Done (set_proc k p (mkProc (<[tid := t]> (p_threads proc)) (p_thread_next_id proc) (p_args proc)
                                           (p_refs proc) (p_exit_status proc) (p_signals proc))));
      mret (Some t)
  end.

(** [spawn_thread]; an exited process is a [todo!()]. *)
Definition spawn_thread (start : Z) (t : nat) : sys hres :=
  p ← current_process t;
  o ← new_thread start p;
  match o with
  | Some th =>
      tid ← gets (λ w, tid (threads (k_sd (w_k w)) th));
      _ ← on_k_ (λ k, s ← queue_thread (k_sd k) th; Done (upd_sd k s));
      mret (HRet tid)
  | None => pure (Panic PUnreachable)
  end.

(** [Drop for Thread]: only the user stack is given back. *)
Definition drop_thread (p : nat) (tid : Z) : sys unit :=
  stack_base ← pure (stack_of STACK_ADDR STACK_SIZE tid);
  r ← on_mapper p (λ v pm, free_mapping off v pm stack_base (stack_base + STACK_SIZE));
  pure (match r with Ok _ => Done tt | Err _ => Panic PUnwrap end).

(** ** Dispatch *)
Inductive sys_out :=
  | SRet (r : Z)
  | SBlock (b : Blocked)
  | SYield           (* back to the scheduler, to return 0 later *)
  | SExit.           (* back to the scheduler for the last time *)

Definition set_in_syscall (w : World) (t : nat) (b : bool) : World :=
  let k := w_k w in
  let x := threads (k_sd k) t in
  upd_k w (upd_sd k (set_thread (k_sd k) t (with_sched x (with_in_syscall (sched x) b)))).

Definition set_killed (w : World) (t : nat) : World :=
  let k := w_k w in
  let x := threads (k_sd k) t in
  upd_k w (upd_sd k (set_thread (k_sd k) t (with_sched x (with_killed (sched x) true)))).

(** [kill_bad_task]. *)
Definition kill_bad_task (w : World) (t : nat) : World := set_in_syscall (set_killed w t) t false.

Definition call_handler (start : Z) (t : nat) (number arg1 arg2 arg3 arg4 : Z) : sys hres :=
  match number with
  | 0 => echo_handler arg1
  | 3 => spawn_thread start t
  | 4 => sleep_handler t arg1
  | 6 => mmap_page_handler t arg1 arg2
  | 10 => mmap_page32_handler t
  | 9 => unmmap_page_handler t arg1 arg2
  | 7 => read_args_handler t arg1
  | 8 => p ← current_process t; mret (HRet (Z.of_nat p))
  | 11 => message_handler t arg1 arg2
  | 15 => sys_reference_handler t arg1 arg2 arg3
  | 16 => sys_process_handler t arg1 arg2
  | 14 => sys_channel_handler t arg1 arg2
  | 12 => sys_port_handler t arg1 arg2 arg3
  | 13 => sys_interrupt_handler t arg1 arg2 arg3 arg4
  | _ => kerror
  end.

(** What follows the handler: the flag is cleared, an error kills the thread. *)
Definition finish (t : nat) (r : outcome (result hres SyscallError * World)) : outcome (sys_out * World) :=
  '(r, w) ← r;
  match r with
  | Ok (HRet v) => Done (SRet v, set_in_syscall w t false)
  | Ok (HBlock b) => Done (SBlock b, w)
  | Err Error => Done (SExit, kill_bad_task (set_in_syscall w t false) t)
  end.

Definition syscall_handler (start : Z) (w : World) (t : nat) (number arg1 arg2 arg3 arg4 : Z) : outcome (sys_out * World) :=
  let c := sched (threads (k_sd (w_k w)) t) in
  _ ← assert_ (negb (in_syscall c));
  if killed c then Done (SExit, w)
  else
    let w := set_in_syscall w t true in
    match number with
    | 1 (* YIELD_NOW *) => Done (SYield, set_in_syscall w t false)
    | 5 (* EXIT_THREAD *) => Done (SExit, set_killed (set_in_syscall w t false) t)
    | _ => finish t (call_handler start t number arg1 arg2 arg3 arg4 w)
    end.

(** The rest of a blocked handler. *)
Definition resume_handler (t : nat) (b : Blocked) : sys hres :=
  match b with
  | BSignal v =>
      s ← signals_of v;
      _ ← on_k_ (λ k, drop_kernel_value k v);
      mret (HRet (signal_status s))
  | BPort port buf => port_wait_step t port buf
  | BInterrupt i => interrupt_wait_step t i
  | BSleep start => now ← gets w_now; d ← pure (sub_u64 now start); mret (HRet d)
  end.

Definition resume (w : World) (t : nat) (b : Blocked) : outcome (sys_out * World) := finish t (resume_handler t b w).
End memory.

(** ** Running handlers *)
Lemma upd_k_same w : upd_k w (w_k w) = w.
Proof. by destruct w. Qed.

Lemma sys_bind_ok {A B} (m : sys A) (f : A → sys B) w a w' : m w = Done (Ok a, w') → (m ≫= f) w = f a w'.
Proof. unfold mbind, sys_bind. by intros ->. Qed.

Lemma sys_bind_err {A B} (m : sys A) (f : A → sys B) w w' : m w = Done (Err Error, w') → (m ≫= f) w = Done (Err Error, w').
Proof. unfold mbind, sys_bind. by intros ->. Qed.

Lemma kassert_true b w : b = true → kassert b w = Done (Ok tt, w).
Proof. by intros ->. Qed.

Lemma on_k_read {A} (f : Kernel → outcome A) a w :
  f (w_k w) = Done a → on_k (λ k, x ← f k; Done (x, k)) w = Done (Ok a, w).
Proof. intros E. unfold on_k. rewrite E. cbn. by rewrite upd_k_same. Qed.

Section refs.
Context (w : World) (p : nat) (x : Process) (Hx : k_procs (w_k w) !! p = Some x).

Lemma get_value_at id : get_value (w_k w) p id = Done (references (p_refs x) !! id).
Proof. unfold get_value, deref_arc. by rewrite Hx. Qed.

Lemma lookup_ref_at id :
  lookup_ref p id w =
    match references (p_refs x) !! id with Some v => Done (Ok v, w) | None => Done (Err Error, w) end.
Proof.
  unfold lookup_ref. erewrite sys_bind_ok by (apply on_k_read, get_value_at).
  by destruct (references (p_refs x) !! id).
Qed.

Lemma lookup_arg_at id :
  lookup_arg p id w =
    match from_usize id with Some id => lookup_ref p id w | None => Done (Err Error, w) end.
Proof. unfold lookup_arg, from_usize. by destruct (id =? 0). Qed.
End refs.

(** ** Handles

    The references a call names, in its arguments and in the structures and arrays they point
    to, each with what it has to stand for.  [GetType] (the operation 2 of call 15) is not
    among them: it may be asked about any number. *)
Definition of_kind (n : Z) (o : option KernelValue) : bool := object_type o =? n.
Definition has_signals (o : option KernelValue) : bool := of_kind 2 o || of_kind 3 o.
Definition any_value (o : option KernelValue) : bool := match o with Some _ => true | None => false end.

Definition handles_of (u : UserMem) (number arg1 arg2 arg3 : Z) : list (Z * (option KernelValue → bool)) :=
  match number, arg1 with
  | 16, _ => [(arg2, of_kind 2)]
  | 14, 1 => [(u_word u arg2, of_kind 3)]
  | 14, 2 =>
      (u_word u arg2, of_kind 3) ::
        (if negb (u_word u (arg2 + 24) =? 0) && (0 <? u_word u (arg2 + 32))
         then (λ id, (id, any_value)) <$> read_words u (u_word u (arg2 + 24)) (u_word u (arg2 + 32)) else [])
  | 12, 1 | 12, 2 => [(arg2, of_kind 4)]
  | 13, 1 | 13, 3 | 13, 4 => [(arg2, of_kind 5)]
  | 13, 2 => [(arg2, of_kind 5); (arg3, of_kind 4)]
  | 11, 1 | 11, 2 => [(u_word u arg2, of_kind 1)]
  | 15, 0 | 15, 1 => [(arg2, any_value)]
  | 15, 3 => [(arg2, has_signals)]
  | 15, 4 => [(arg2, has_signals); (u_word u arg3, of_kind 4)]
  | _, _ => []
  end.

(** [w'] is [w] with thread [t] marked killed and out of the call. *)
Definition only_killed (w w' : World) (t : nat) : Prop :=
  w_vm w' = w_vm w ∧ w_mem w' = w_mem w ∧ w_user w' = w_user w ∧ w_now w' = w_now w ∧
  same_objects (w_k w) (w_k w') ∧ k_ports (w_k w') = k_ports (w_k w) ∧
  queue_head (k_sd (w_k w')) = queue_head (k_sd (w_k w)) ∧ queue_tail (k_sd (w_k w')) = queue_tail (k_sd (w_k w)) ∧
  (∀ t', t' ≠ t → threads (k_sd (w_k w')) t' = threads (k_sd (w_k w)) t') ∧
  let x := threads (k_sd (w_k w)) t in
  threads (k_sd (w_k w')) t = with_sched x (with_in_syscall (with_killed (sched x) true) false).

Lemma finish_error t w w0 :
  (∀ b, w = set_in_syscall w0 t b → ∃ w', finish t (Done (Err Error, w)) = Done (SExit, w') ∧ only_killed w0 w' t).
Proof.
  intros b ->. cbn [finish mbind outcome_bind]. eexists. split; [reflexivity|].
  unfold only_killed, kill_bad_task, set_killed, set_in_syscall. splits; try done.
  - intros t' Ht. cbn [w_k upd_k k_sd upd_sd]. rewrite !threads_set_thread, !decide_False by done. done.
  - cbn [w_k upd_k k_sd upd_sd]. rewrite !threads_set_thread, !decide_True by done. cbn. done.
Qed.

Lemma frame_lookup w t b p : k_procs (w_k (set_in_syscall w t b)) !! p = k_procs (w_k w) !! p.
Proof. done. Qed.

(** Handlers on a reference that is missing or of the wrong kind. *)
Lemma bad_arg {B} (f : KernelValue → sys B) w p x id :
  k_procs (w_k w) !! p = Some x →
  (∀ v, references (p_refs x) !! id = Some v → f v w = Done (Err Error, w)) →
  (lookup_arg p id ≫= f) w = Done (Err Error, w) ∧ (lookup_ref p id ≫= f) w = Done (Err Error, w).
Proof.
  intros Hx Hf. assert (Hr : (lookup_ref p id ≫= f) w = Done (Err Error, w)).
  { unfold mbind, sys_bind. rewrite (lookup_ref_at w p x Hx). destruct (references (p_refs x) !! id) eqn:E; [by apply Hf|done]. }
  split; [|done]. unfold mbind, sys_bind. rewrite lookup_arg_at. unfold from_usize. destruct (id =? 0); [done|exact Hr].
Qed.

Lemma current_process_at {B} (f : nat → sys B) t w :
  (current_process t ≫= f) w = f (t_process (threads (k_sd (w_k w)) t)) w.
Proof. done. Qed.

Lemma kassert_at {B} b (f : unit → sys B) w :
  (kassert b ≫= f) w = if b then f tt w else Done (Err Error, w).
Proof. by destruct b. Qed.

Lemma kunwrap_at {A B} (o : option A) (f : A → sys B) w :
  (kunwrap o ≫= f) w = match o with Some a => f a w | None => Done (Err Error, w) end.
Proof. by destruct o. Qed.

Lemma gets_at {A B} (g : World → A) (f : A → sys B) w : (gets g ≫= f) w = f (g w) w.
Proof. done. Qed.

(** A cast to the wrong kind. *)
Lemma cast_bad {B} v (f : nat → sys B) w :
  (object_type (Some v) ≠ 1 → (cast_message v ≫= f) w = Done (Err Error, w)) ∧
  (object_type (Some v) ≠ 2 → (cast_process v ≫= f) w = Done (Err Error, w)) ∧
  (object_type (Some v) ≠ 3 → (cast_channel v ≫= f) w = Done (Err Error, w)) ∧
  (object_type (Some v) ≠ 4 → (cast_port v ≫= f) w = Done (Err Error, w)) ∧
  (object_type (Some v) ≠ 5 → (cast_interrupt v ≫= f) w = Done (Err Error, w)).
Proof. by destruct v. Qed.

Lemma signals_of_bad {B} v (f : KObjectSignal → sys B) w :
  object_type (Some v) ≠ 2 → object_type (Some v) ≠ 3 → (signals_of v ≫= f) w = Done (Err Error, w).
Proof. destruct v, w; try done; naive_solver. Qed.

Lemma wait_handler_bad v t mask w :
  object_type (Some v) ≠ 2 → object_type (Some v) ≠ 3 → wait_handler t v mask w = Done (Err Error, w).
Proof. intros. unfold wait_handler. by apply signals_of_bad. Qed.

(** A call that ends in an error before it has changed anything. *)
Definition refuses {A} (m : sys A) (w : World) : Prop := m w = Done (Err Error, w).

(** Case analysis on the operation code of a call that names a handle. *)
Ltac op_cases Hh :=
  repeat match type of Hh with
  | context [match ?a with _ => _ end] => is_var a; destruct a; try (by apply elem_of_nil in Hh)
  end.

Section bad.
Context (off start : Z) (w : World) (t : nat) (arg1 arg2 arg3 arg4 : Z) (x : Process).
Let p := t_process (threads (k_sd (w_k w)) t).
Context (Hx : k_procs (w_k w) !! p = Some x).

(** A handle that does not stand for what it should, and what follows a lookup that is fine. *)
Definition bad (id : Z) (ok : option KernelValue → bool) : Prop := ok (references (p_refs x) !! id) = false.

Lemma lookup_refuses {B} (f : KernelValue → sys B) id :
  (∀ v, references (p_refs x) !! id = Some v → refuses (f v) w) →
  refuses (lookup_arg p id ≫= f) w ∧ refuses (lookup_ref p id ≫= f) w.
Proof. apply (bad_arg f w p x id Hx). Qed.

(** A cast to a kind the handle is not of. *)
Lemma cast_refuses {B} v id (f : nat → sys B) : references (p_refs x) !! id = Some v →
  (bad id (of_kind 1) → refuses (cast_message v ≫= f) w) ∧ (bad id (of_kind 2) → refuses (cast_process v ≫= f) w) ∧
  (bad id (of_kind 3) → refuses (cast_channel v ≫= f) w) ∧ (bad id (of_kind 4) → refuses (cast_port v ≫= f) w) ∧
  (bad id (of_kind 5) → refuses (cast_interrupt v ≫= f) w).
Proof. unfold bad, of_kind, refuses. intros ->. split_and!; intros H%Z.eqb_neq; by apply cast_bad. Qed.

(** A cast is fine or refuses. *)
Lemma cast_through {B} v (f : nat → sys B) : (∀ n, refuses (f n) w) →
  refuses (cast_channel v ≫= f) w ∧ refuses (cast_port v ≫= f) w ∧ refuses (cast_interrupt v ≫= f) w.
Proof. intros Hf. destruct v as [m|q|c|q|i]; split_and!; try done; apply Hf. Qed.

Lemma signals_refuses {B} v id (f : KObjectSignal → sys B) : references (p_refs x) !! id = Some v →
  bad id has_signals → refuses (signals_of v ≫= f) w.
Proof. unfold bad, has_signals, of_kind. intros ->. destruct v; try done; intros _; by apply signals_of_bad. Qed.

Lemma lookup_refs_refuses ids id : id ∈ ids → bad id any_value → refuses (lookup_refs p ids) w.
Proof.
  intros Hin Hb. induction ids as [|i ids IH]; [by apply elem_of_nil in Hin|]. cbn [lookup_refs]. unfold refuses. rewrite kunwrap_at.
  unfold from_usize. destruct (i =? 0); [done|]. apply lookup_refuses. intros v Hv.
  apply elem_of_cons in Hin as [->|Hin]; [unfold bad in Hb; by rewrite Hv in Hb|]. apply sys_bind_err, (IH Hin).
Qed.

Lemma wait_port_refuses v id id' ok a : references (p_refs x) !! id = Some v →
  (id', ok) ∈ [(id, has_signals); (u_word (w_user w p) a, of_kind 4)] → bad id' ok → refuses (wait_port_handler p v a) w.
Proof.
  intros Hv Hin Hb. unfold wait_port_handler, refuses. rewrite gets_at. apply lookup_refuses. intros v' Hv'.
  apply elem_of_cons in Hin as [[= -> ->]|Hin].
  - apply cast_through. intros q. by eapply signals_refuses.
  - apply list_elem_of_singleton in Hin as [= -> ->]. by eapply cast_refuses.
Qed.

Lemma reference_handler_bad id ok :
  (id, ok) ∈ handles_of (w_user w p) 15 arg1 arg2 arg3 → bad id ok → refuses (sys_reference_handler t arg1 arg2 arg3) w.
Proof.
  intros Hh Hb. unfold refuses, sys_reference_handler. rewrite current_process_at, kassert_at. fold p.
  destruct (arg1 <? 5); [|done]. rewrite kunwrap_at. cbn [handles_of] in Hh. unfold from_usize. destruct (arg2 =? 0); [done|].
  assert (Hany : bad arg2 any_value → ∀ B (f : KernelValue → sys B), refuses (lookup_ref p arg2 ≫= f) w).
  { intros Ha B f. apply lookup_refuses. intros v Hv. unfold bad in Ha. by rewrite Hv in Ha. }
  op_cases Hh.
  1,4: apply list_elem_of_singleton in Hh as [= -> ->]; by apply Hany.
  - apply list_elem_of_singleton in Hh as [= -> ->]. apply lookup_refuses. intros v Hv. unfold wait_handler. by eapply signals_refuses.
  - apply lookup_refuses. intros v Hv. by eapply wait_port_refuses.
Qed.

Lemma channel_write_bad id ok :
  (id, ok) ∈ handles_of (w_user w p) 14 2 arg2 arg3 → bad id ok → refuses (channel_write_handler t arg2) w.
Proof.
  intros Hh Hb. unfold refuses, channel_write_handler. rewrite current_process_at, gets_at. fold p. cbn [handles_of] in Hh.
  apply lookup_refuses. intros v Hv. apply elem_of_cons in Hh as [[= -> ->]|Hh]; [by eapply cast_refuses|].
  apply cast_through. intros c. destruct (_ && _); [|by apply elem_of_nil in Hh].
  apply list_elem_of_fmap in Hh as (i & [= -> ->] & Hi). apply sys_bind_err, sys_bind_err. by eapply lookup_refs_refuses.
Qed.

Lemma interrupt_bad id ok :
  (id, ok) ∈ handles_of (w_user w p) 13 arg1 arg2 arg3 → bad id ok → refuses (sys_interrupt_handler t arg1 arg2 arg3 arg4) w.
Proof.
  intros Hh Hb. unfold refuses, sys_interrupt_handler. rewrite kassert_at. destruct (arg1 <? 5); [|done].
  rewrite current_process_at, gets_at. fold p. cbn [handles_of] in Hh. op_cases Hh.
  3: apply lookup_refuses; intros v Hv; apply elem_of_cons in Hh as [[= -> ->]|Hh%list_elem_of_singleton]; [by eapply cast_refuses|];
     injection Hh as -> ->; apply cast_through; intros i; apply lookup_refuses; intros v' Hv'; by eapply cast_refuses.
  all: apply list_elem_of_singleton in Hh as [= -> ->]; apply lookup_refuses; intros v Hv; by eapply cast_refuses.
Qed.

Lemma call_handler_bad number id ok :
  (id, ok) ∈ handles_of (w_user w p) number arg1 arg2 arg3 → bad id ok →
  refuses (call_handler off start t number arg1 arg2 arg3 arg4) w.
Proof.
  intros Hh Hb. destruct (decide (number = 15)) as [->|H15]; [by eapply reference_handler_bad|].
  destruct (decide (number = 13)) as [->|H13]; [by eapply interrupt_bad|].
  destruct (decide (number = 14 ∧ arg1 = 2)) as [[-> ->]|H14].
  { cbn [call_handler]. unfold refuses, sys_channel_handler. rewrite kassert_at. cbn [Z.ltb Z.compare Pos.compare Pos.compare_cont]. rewrite current_process_at. by eapply channel_write_bad. }
  unfold handles_of in Hh. op_cases Hh; try (by destruct H14); try done.
  all: apply list_elem_of_singleton in Hh as [= -> ->]; unfold refuses; cbn [call_handler];
    unfold sys_process_handler, sys_channel_handler, sys_port_handler, message_handler;
    rewrite ?current_process_at, ?kassert_at; try (destruct (arg1 <? _); [|done]); cbn [Z.ltb Z.compare Pos.compare Pos.compare_cont];
    rewrite ?current_process_at, ?gets_at; unfold channel_read_handler; rewrite ?current_process_at, ?gets_at;
    apply lookup_refuses; intros v Hv; by eapply cast_refuses.
Qed.
End bad.

(** Asking for the type of a number changes nothing: 0 for one that is not held. *)
Lemma get_type_answers w t id arg3 x :
  let p := t_process (threads (k_sd (w_k w)) t) in
  k_procs (w_k w) !! p = Some x → id ≠ 0 →
  sys_reference_handler t 2 id arg3 w = Done (Ok (HRet (object_type (references (p_refs x) !! id))), w).
Proof.
  intros p Hx Hid. unfold sys_reference_handler. rewrite current_process_at, kassert_at. fold p. cbn [Z.ltb Z.compare Pos.compare Pos.compare_cont].
  rewrite kunwrap_at. unfold from_usize. rewrite (proj2 (Z.eqb_neq id 0) Hid).
  by erewrite sys_bind_ok by (apply on_k_read, get_value_at; done).
Qed.

(** [w'] is [w]: only the flag of the call is written. *)
Definition unchanged (w w' : World) : Prop :=
  w_vm w' = w_vm w ∧ w_mem w' = w_mem w ∧ w_user w' = w_user w ∧ w_now w' = w_now w ∧
  same_objects (w_k w) (w_k w') ∧ k_ports (w_k w') = k_ports (w_k w) ∧
  queue_head (k_sd (w_k w')) = queue_head (k_sd (w_k w)) ∧ queue_tail (k_sd (w_k w')) = queue_tail (k_sd (w_k w)) ∧
  ∀ t, threads (k_sd (w_k w')) t = threads (k_sd (w_k w)) t.

(** C12: no system call works on a reference the caller does not hold: whichever call names an
    id that is not in the caller's table or stands for an object of a kind the call does not
    work on (as its handle, as the port of a [WaitPort] or [SetPort], or among the handles of a
    message) kills the calling thread and changes nothing else: no object, no other thread, no
    memory.  The one call that may name any id is [GetType], which answers 0 for an id that is
    not held and changes nothing. *)
Theorem bad_handle_kills_caller off start w t number arg1 arg2 arg3 arg4 x :
  let p := t_process (threads (k_sd (w_k w)) t) in
  k_procs (w_k w) !! p = Some x →
  in_syscall (sched (threads (k_sd (w_k w)) t)) = false → killed (sched (threads (k_sd (w_k w)) t)) = false →
  (∀ id ok, (id, ok) ∈ handles_of (w_user w p) number arg1 arg2 arg3 → ok (references (p_refs x) !! id) = false →
     ∃ w', syscall_handler off start w t number arg1 arg2 arg3 arg4 = Done (SExit, w') ∧ only_killed w w' t) ∧
  (number = 15 → arg1 = 2 → arg2 ≠ 0 → references (p_refs x) !! arg2 = None →
     ∃ w', syscall_handler off start w t number arg1 arg2 arg3 arg4 = Done (SRet 0, w') ∧ unchanged w w').
Proof.
  intros p Hx Hin Hk. unfold syscall_handler. rewrite Hin, Hk. cbn [negb assert_ mbind outcome_bind].
  assert (Hp : t_process (threads (k_sd (w_k (set_in_syscall w t true))) t) = p)
    by (cbn; unfold set_thread; cbn; by rewrite fn_lookup_insert).
  split.
  - intros id ok Hh Hb. pose proof (call_handler_bad off start (set_in_syscall w t true) t arg1 arg2 arg3 arg4 x) as Hc.
    rewrite Hp in Hc. specialize (Hc Hx number id ok Hh Hb). unfold refuses in Hc. rewrite Hc.
    destruct (finish_error t (set_in_syscall w t true) w true eq_refl) as (w' & E & Ho). rewrite E.
    assert (Hn : number ≠ 1 ∧ number ≠ 5) by (split; intros ->; by apply elem_of_nil in Hh).
    exists w'. split; [|done]. destruct number as [|[[|[]|]|[]|]|]; naive_solver.
  - intros -> -> H2 Hnone. cbn [call_handler].
    pose proof (get_type_answers (set_in_syscall w t true) t arg2 arg3 x) as Hg. rewrite Hp in Hg. rewrite (Hg Hx H2), Hnone.
    cbn [finish mbind outcome_bind]. eexists. split; [reflexivity|]. unfold unchanged, set_in_syscall. splits; try done.
    intros t'. cbn [w_k upd_k k_sd upd_sd]. rewrite !threads_set_thread. repeat case_decide; try done.
    subst t'. destruct (threads (k_sd (w_k w)) t) as [? ? ? ? [? ? ? ? ?]]. cbn in *. by subst.
Qed.

(** ** User buffers *)
Lemma u_word_write_bytes bs : ∀ u a, u_word (write_bytes u a bs) = u_word u.
Proof. induction bs as [|b bs IH]; intros u a; [done|]. cbn [write_bytes]. by rewrite IH. Qed.

Lemma u_byte_write_words vs : ∀ u a, u_byte (write_words u a vs) = u_byte u.
Proof. induction vs as [|v vs IH]; intros u a; [done|]. cbn [write_words]. by rewrite IH. Qed.

Lemma u_byte_below bs : ∀ u a x, x < a → u_byte (write_bytes u a bs) x = u_byte u x.
Proof.
  induction bs as [|b bs IH]; intros u a x Hx; [done|]. cbn [write_bytes].
  rewrite IH by lia. cbn. apply fn_lookup_insert_ne. lia.
Qed.

Lemma u_word_outside vs : ∀ u a x,
  (∀ i, 0 <= i < Z.of_nat (length vs) → x ≠ a + 8 * i) → u_word (write_words u a vs) x = u_word u x.
Proof.
  induction vs as [|v vs IH]; intros u a x Hx; [done|]. cbn [write_words].
  rewrite IH by (intros i Hi; specialize (Hx (i + 1)); cbn in Hx; lia).
  cbn. apply fn_lookup_insert_ne. specialize (Hx 0). cbn in Hx. lia.
Qed.

Lemma read_bytes_cons u a n : 0 < n → read_bytes u a n = u_byte u a :: read_bytes u (a + 1) (n - 1).
Proof.
  intros. unfold read_bytes. rewrite (seqZ_cons 0 n) by lia. cbn [fmap list_fmap]. rewrite Z.add_0_r. f_equal.
  apply list_eq. intros i. rewrite !list_lookup_fmap. change (Z.succ 0) with 1. replace (Z.pred n) with (n - 1) by lia.
  destruct (decide (Z.of_nat i < n - 1)) as [Hi|Hi].
  - rewrite !lookup_seqZ_lt by lia. cbn. do 2 f_equal. lia.
  - rewrite !lookup_seqZ_ge by lia. done.
Qed.

Lemma read_write_bytes bs : ∀ u a, read_bytes (write_bytes u a bs) a (Z.of_nat (length bs)) = bs.
Proof.
  induction bs as [|b bs IH]; intros u a; [done|]. rewrite read_bytes_cons by (cbn; lia). cbn [write_bytes].
  rewrite u_byte_below by lia. cbn [u_byte]. rewrite fn_lookup_insert. f_equal.
  replace (Z.of_nat (length (b :: bs)) - 1) with (Z.of_nat (length bs)) by (cbn; lia). apply IH.
Qed.

Lemma u_word_written vs : ∀ u a i v, vs !! i = Some v → u_word (write_words u a vs) (a + 8 * Z.of_nat i) = v.
Proof.
  induction vs as [|v' vs IH]; intros u a [|i] v Hi; try done; cbn [write_words].
  - injection Hi as ->. rewrite u_word_outside by lia. replace (a + 8 * Z.of_nat 0) with a by lia. apply fn_lookup_insert.
  - replace (a + 8 * Z.of_nat (S i)) with (a + 8 + 8 * Z.of_nat i) by lia. by apply IH.
Qed.

(** ** Handles that travel *)
Lemma lookup_refs_at w p x ids vs :
  k_procs (w_k w) !! p = Some x → Forall2 (λ id v, id ≠ 0 ∧ references (p_refs x) !! id = Some v) ids vs →
  lookup_refs p ids w = Done (Ok vs, w).
Proof.
  intros Hx. induction 1 as [|id v ids vs [Hne Hv] _ IH]; [done|]. cbn [lookup_refs].
  unfold from_usize. rewrite (proj2 (Z.eqb_neq id 0) Hne). rewrite kunwrap_at.
  erewrite sys_bind_ok by (rewrite (lookup_ref_at w p x Hx), Hv; reflexivity).
  by erewrite sys_bind_ok by exact IH.
Qed.

(** Only strong counts grow. *)
Definition counted (k k' : Kernel) : Prop :=
  k_sd k' = k_sd k ∧ k_ports k' = k_ports k ∧ k_procs k' = k_procs k ∧
  ∀ c, match k_chans k !! c, k_chans k' !! c with
       | None, None => True
       | Some h, Some h' => channel h' = channel h ∧ peer h' = peer h ∧ (ch_strong h ≤ ch_strong h')%nat
       | _, _ => False
       end.

Lemma clone_values_counted vs : ∀ k, counted k (clone_values k vs).
Proof.
  induction vs as [|v vs IH]; intros k; cbn [clone_values]; unfold counted.
  { splits; try done. intros c. by destruct (k_chans k !! c). }
  destruct (IH (clone_value k v)) as (E1 & E2 & E3 & E4).
  assert (H : counted k (clone_value k v)).
  { unfold counted. destruct v as [m|q|c|q|i]; cbn [clone_value]; try (splits; try done; intros c'; cbn; by destruct (k_chans k !! c')).
    splits; try done. intros c'. cbn. destruct (decide (c = c')) as [->|Hne].
    - rewrite lookup_alter_eq. destruct (k_chans k !! c'); cbn; [|done]. splits; try done. lia.
    - rewrite lookup_alter_ne by done. by destruct (k_chans k !! c'). }
  destruct H as (F1 & F2 & F3 & F4). splits; try congruence. intros c. specialize (E4 c). specialize (F4 c).
  destruct (k_chans k !! c), (k_chans (clone_value k v) !! c), (k_chans (clone_values _ vs) !! c); try done.
  destruct E4 as (? & ? & ?), F4 as (? & ? & ?). splits; try congruence. lia.
Qed.

Lemma counted_chan k k' c r :
  counted k k' → sched_ok k → chan_open k c r → recv_ok k r →
  sched_ok k' ∧ chan_open k' c r ∧ recv_ok k' r ∧ chan_queue k' r = chan_queue k r.
Proof.
  intros (E1 & E2 & E3 & E4) [l Hs] (hc & hr & Hc & Hp & Hr & Hne & Hst & Ho) Hrec.
  pose proof (E4 c) as Ec. pose proof (E4 r) as Er. rewrite Hc in Ec. rewrite Hr in Er.
  destruct (k_chans k' !! c) as [hc'|] eqn:Hc'; [|done]. destruct (k_chans k' !! r) as [hr'|] eqn:Hr'; [|done].
  destruct Ec as (Ec1 & Ec2 & _), Er as (Er1 & Er2 & Er3). splits.
  - exists l. by rewrite E1.
  - exists hc', hr'. splits; [done|congruence|done|done|lia|congruence].
  - intros h. rewrite Hr'. intros [= <-]. destruct (Hrec hr Hr) as [Hok Hbit]. rewrite Er1. split; [|done].
    intros wt Hw. destruct (Hok wt Hw). split; [|done]. unfold waiter_ok in *. by rewrite E2.
  - unfold chan_queue. by rewrite Hr', Hr, Er1.
Qed.

(** Adding a list of values: consecutive fresh ids. *)
Lemma add_values_at p vs : ∀ w x,
  k_procs (w_k w) !! p = Some x → refs_ok (p_refs x) → next_id (p_refs x) + Z.of_nat (length vs) < u64_lim →
  ∃ k' x', add_values p vs w = Done (Ok (seqZ (next_id (p_refs x)) (Z.of_nat (length vs))), upd_k w k') ∧
    k_procs k' !! p = Some x' ∧ refs_ok (p_refs x') ∧ k_chans k' = k_chans (w_k w) ∧
    (∀ i v, vs !! i = Some v → references (p_refs x') !! (next_id (p_refs x) + Z.of_nat i) = Some v) ∧
    (∀ id, id < next_id (p_refs x) → references (p_refs x') !! id = references (p_refs x) !! id).
Proof.
  induction vs as [|v vs IH]; intros w x Hx Hok Hlim; cbn [add_values].
  { exists (w_k w), x. rewrite upd_k_same. by splits. }
  cbn [length] in Hlim. pose proof Hok as [Hpos Hlt].
  assert (Hnone : references (p_refs x) !! next_id (p_refs x) = None).
  { destruct (references (p_refs x) !! next_id (p_refs x)) eqn:E; [|done]. destruct (Hlt (next_id (p_refs x))); [by eexists|lia]. }
  set (x1 := with_refs x (mkRefs (<[next_id (p_refs x) := v]> (references (p_refs x))) (next_id (p_refs x) + 1))).
  assert (Eadd : new_value p v w = Done (Ok (next_id (p_refs x)), upd_k w (set_proc (w_k w) p x1))).
  { unfold new_value, on_k, add_value, refs_add_value, deref_arc. rewrite Hx. cbn [mbind outcome_bind].
    rewrite (proj2 (Z.eqb_neq _ 0)) by lia. unfold add_u64. rewrite chk_ok by lia. rewrite bind_ret, Hnone. done. }
  rewrite (sys_bind_ok _ _ _ _ _ Eadd).
  destruct (IH (upd_k w (set_proc (w_k w) p x1)) x1) as (k' & x' & E & Hx' & Hok' & Hch & Hnew & Hold).
  { apply lookup_insert_eq. }
  { split; cbn; [lia|]. intros id [u Hu]. destruct (decide (id = next_id (p_refs x))) as [->|Hne]; [lia|].
    rewrite lookup_insert_ne in Hu by done. destruct (Hlt id); [by eexists|lia]. }
  { cbn. lia. }
  cbn [next_id p_refs x1 with_refs references] in *. exists k', x'. splits; [|done|done|done| |].
  - rewrite (sys_bind_ok _ _ _ _ _ E). unfold mret, sys_ret. do 3 f_equal. cbn [length]. rewrite (seqZ_cons (next_id (p_refs x)) _) by lia.
    f_equal. f_equal; lia.
  - intros [|i] u Hu.
    + injection Hu as ->. rewrite Hold by lia. rewrite Z.add_0_r. apply lookup_insert_eq.
    + replace (next_id (p_refs x) + Z.of_nat (S i)) with (next_id (p_refs x) + 1 + Z.of_nat i) by lia. by apply Hnew.
  - intros id Hid. rewrite Hold by lia. apply lookup_insert_ne. lia.
Qed.

(** The five words of a [ChannelWrite] or [ChannelRead]. *)
Definition args_at (u : UserMem) (a handle data data_len handles handles_len : Z) : Prop :=
  u_word u a = handle ∧ u_word u (a + 8) = data ∧ u_word u (a + 16) = data_len ∧
  u_word u (a + 24) = handles ∧ u_word u (a + 32) = handles_len.

Lemma lookup_chan w p x id c {B} (f : nat → sys B) :
  k_procs (w_k w) !! p = Some x → references (p_refs x) !! id = Some (VChannel c) →
  (v ← lookup_ref p id; cast_channel v ≫= f) w = f c w.
Proof.
  intros Hx Hc. erewrite sys_bind_ok by (rewrite (lookup_ref_at w p x Hx), Hc; reflexivity). done.
Qed.

Lemma on_user_at {B} p g (f : unit → sys B) w : (on_user p g ≫= f) w = f tt (upd_user w p (g (w_user w p))).
Proof. done. Qed.

Lemma w_user_upd w p u : w_user (upd_user w p u) p = u.
Proof. apply fn_lookup_insert. Qed.

Lemma sys_bind_assoc {A B C} (m : sys A) (f : A → sys B) (g : B → sys C) w :
  ((m ≫= f) ≫= g) w = (m ≫= λ a, f a ≫= g) w.
Proof. unfold mbind, sys_bind. by destruct (m w) as [[[a|e] w']| |]. Qed.

Lemma channel_write_ok w t a x c r sid dptr n hptr ids vs :
  let p := t_process (threads (k_sd (w_k w)) t) in
  let u := w_user w p in
  k_procs (w_k w) !! p = Some x → references (p_refs x) !! sid = Some (VChannel c) →
  sched_ok (w_k w) → chan_open (w_k w) c r → recv_ok (w_k w) r →
  Z.of_nat (length (chan_queue (w_k w) r)) <= CHANNEL_CAPACITY →
  args_at u a sid dptr n hptr (Z.of_nat (length ids)) → hptr ≠ 0 → ids ≠ [] →
  read_words u hptr (Z.of_nat (length ids)) = ids →
  Forall2 (λ id v, id ≠ 0 ∧ references (p_refs x) !! id = Some v) ids vs →
  ∃ k', channel_write_handler t a w = Done (Ok (HRet 1), upd_k w k') ∧ frame (w_k w) k' ∧
    sched_ok k' ∧ chan_open k' c r ∧ recv_ok k' r ∧
    chan_queue k' r = chan_queue (w_k w) r ++ [mkMsg (read_bytes u dptr n) (Some vs)].
Proof.
  intros p u Hx Hsid Hs Hco Hr Hcap (E0 & E1 & E2 & E3 & E4) Hh Hids Hw Hvs.
  unfold channel_write_handler. rewrite current_process_at, gets_at. fold p u. rewrite E0.
  rewrite (lookup_chan w p x sid c) by done. rewrite E1, E2, E3, E4.
  rewrite (proj2 (Z.eqb_neq hptr 0) Hh), (proj2 (Z.ltb_lt 0 _)) by (destruct ids; [done|cbn; lia]). cbn [negb andb].
  pose proof (clone_values_counted vs (w_k w)) as Hk. set (k1 := clone_values (w_k w) vs) in *.
  destruct (counted_chan _ _ _ _ Hk Hs Hco Hr) as (Hs1 & Hco1 & Hr1 & Hq1).
  destruct (chan_send_ok k1 c r (mkMsg (read_bytes u dptr n) (Some vs)) Hs1 Hco1 Hr1) as (k2 & E & Hs2 & Hco2 & Hr2 & Hq2).
  rewrite Hq1, (proj2 (Z.ltb_ge _ _) Hcap) in *.
  assert (Hsome : (vs ← lookup_refs p (read_words u hptr (Z.of_nat (length ids)));
                   _ ← on_k_ (λ k, Done (clone_values k vs)); mret (Some vs)) w = Done (Ok (Some vs), upd_k w k1)).
  { rewrite Hw. erewrite sys_bind_ok by (by eapply lookup_refs_at). done. }
  rewrite (sys_bind_ok _ _ _ _ _ Hsome).
  assert (Hsend : on_k (λ k, chan_send k c (mkMsg (read_bytes u dptr n) (Some vs))) (upd_k w k1) = Done (Ok (Some tt), upd_k w k2))
    by (unfold on_k; cbn [w_k upd_k]; by rewrite E).
  rewrite (sys_bind_ok _ _ _ _ _ Hsend). exists k2. splits; try done.
  eapply frame_trans; [|exact (chan_send_frame _ _ _ _ _ E)].
  destruct Hk as (F1 & _ & F3 & _). split; [done|]. by rewrite F1.
Qed.

Lemma channel_read_ok w t b y c r rid pd cap ph caph m q vs :
  let p := t_process (threads (k_sd (w_k w)) t) in
  k_procs (w_k w) !! p = Some y → references (p_refs y) !! rid = Some (VChannel r) →
  sched_ok (w_k w) → chan_open (w_k w) c r → recv_ok (w_k w) r →
  chan_queue (w_k w) r = m :: q → handles m = Some vs →
  args_at (w_user w p) b rid pd cap ph caph → Z.of_nat (length (data m)) <= cap → Z.of_nat (length vs) <= caph →
  (ph + 8 * Z.of_nat (length vs) <= b ∨ b + 40 <= ph) →
  refs_ok (p_refs y) → next_id (p_refs y) + Z.of_nat (length vs) < u64_lim →
  ∃ w', channel_read_handler t b w = Done (Ok (HRet RES_Ok), w') ∧
    chan_queue (w_k w') r = q ∧
    u_word (w_user w' p) (b + 16) = Z.of_nat (length (data m)) ∧ u_word (w_user w' p) (b + 32) = Z.of_nat (length vs) ∧
    read_bytes (w_user w' p) pd (Z.of_nat (length (data m))) = data m ∧
    ∀ i v, vs !! i = Some v →
      let id := u_word (w_user w' p) (ph + 8 * Z.of_nat i) in
      get_value (w_k w) p id = Done None ∧ get_value (w_k w') p id = Done (Some v).
Proof.
  intros p Hy Hrid Hs Hco Hr Hq Hm (E0 & E1 & E2 & E3 & E4) Hcap Hcaph Hdis Hrefs Hlim.
  unfold channel_read_handler. rewrite current_process_at, gets_at. fold p. rewrite E0.
  rewrite (lookup_chan w p y rid r) by done. rewrite E2, E4.
  destruct (chan_read_ok (w_k w) c r cap caph Hs Hco Hr) as (k1 & E & _ & _ & _ & Hq1).
  rewrite Hq in E, Hq1. cbn [read_spec] in E, Hq1. unfold handles_len in E, Hq1. rewrite Hm in E, Hq1.
  rewrite (proj2 (Z.ltb_ge _ _) Hcap), (proj2 (Z.ltb_ge _ _) Hcaph) in E, Hq1. cbn [orb fst snd] in E, Hq1.
  assert (Hread : on_k (λ k, chan_read k r cap caph) w = Done (Ok (Ok m), upd_k w k1)) by (unfold on_k; by rewrite E).
  rewrite (sys_bind_ok _ _ _ _ _ Hread). cbv iota beta. rewrite Hm. rewrite !on_user_at.
  cbn [w_user upd_k]. rewrite !w_user_upd.
  set (n := Z.of_nat (length (data m))). set (u1 := write_word (w_user w p) (b + 16) n).
  assert (Hpd : u_word u1 (b + 8) = pd) by (rewrite <- E1; apply fn_lookup_insert_ne; lia). rewrite Hpd.
  set (u2 := write_bytes u1 pd (data m)). rewrite sys_bind_assoc, on_user_at, w_user_upd.
  set (u3 := write_word u2 (b + 32) (Z.of_nat (length vs))).
  assert (Hu2 : ∀ a, a ≠ b + 16 → u_word u2 a = u_word (w_user w p) a)
    by (intros a Ha; unfold u2; rewrite u_word_write_bytes; apply fn_lookup_insert_ne; congruence).
  assert (Hu3 : ∀ a, a ≠ b + 16 → a ≠ b + 32 → u_word u3 a = u_word (w_user w p) a)
    by (intros a Ha1 Ha2; rewrite <- Hu2 by done; apply fn_lookup_insert_ne; congruence).
  set (w3 := upd_user _ p u3).
  destruct (chan_read_frame _ _ _ _ _ _ E) as [Hprocs _].
  destruct (add_values_at p vs w3 y) as (k' & y' & Eadd & Hy' & _ & Hch & Hnew & _);
    [by rewrite <- Hy, <- Hprocs|done|done|].
  set (ids := seqZ (next_id (p_refs y)) (Z.of_nat (length vs))) in *.
  assert (Hlen : length ids = length vs) by (unfold ids; rewrite length_seqZ; lia).
  rewrite sys_bind_assoc, (sys_bind_ok _ _ _ _ _ Eadd), on_user_at.
  assert (Huw : w_user (upd_k w3 k') p = u3) by (cbn; apply fn_lookup_insert). rewrite Huw.
  assert (Hph : u_word u3 (b + 24) = ph) by (rewrite <- E3; apply Hu3; lia). rewrite Hph.
  set (u4 := write_words u3 ph ids).
  assert (Hout : ∀ a, b <= a < b + 40 → u_word u4 a = u_word u3 a)
    by (intros a Ha; apply u_word_outside; intros i Hi; rewrite Hlen in Hi; lia).
  eexists. split; [reflexivity|]. rewrite w_user_upd. splits.
  - unfold chan_queue. cbn [w_k upd_user upd_k]. rewrite Hch. exact Hq1.
  - rewrite Hout by lia. unfold u3. cbn [u_word write_word]. rewrite fn_lookup_insert_ne by lia.
    unfold u2. rewrite u_word_write_bytes. apply fn_lookup_insert.
  - rewrite Hout by lia. apply fn_lookup_insert.
  - transitivity (read_bytes u2 pd n); [|apply read_write_bytes].
    unfold read_bytes. apply list_fmap_ext. intros i x _. unfold u4. by rewrite u_byte_write_words.
  - intros i v Hv. assert (Hid : ids !! i = Some (next_id (p_refs y) + Z.of_nat i))
      by (apply lookup_seqZ; split; [done|]; apply lookup_lt_Some in Hv; lia).
    unfold u4. rewrite (u_word_written ids u3 ph i _ Hid). cbv zeta. cbn [w_k upd_user upd_k].
    unfold get_value, deref_arc. rewrite Hy, Hy'. cbn [mbind outcome_bind]. split; [|by rewrite (Hnew i v Hv)].
    f_equal. destruct (references (p_refs y) !! (next_id (p_refs y) + Z.of_nat i)) eqn:Eold; [|done].
    destruct (proj2 Hrefs (next_id (p_refs y) + Z.of_nat i)); [by rewrite Eold|lia].
Qed.

(** C3: a message sent through a channel arrives: when one thread's write call
    names bytes and references of its process and another thread, of any process
    that holds the other end, reads with buffers that are large enough, the reader
    finds the sender's bytes and sizes in its buffers and, for each handle, a new
    reference of its own process to the very object the sender's stood for. *)
Theorem channel_transfer w ts tr a b x y c r sid dptr n hptr ids vs rid pd cap ph caph :
  let p := t_process (threads (k_sd (w_k w)) ts) in
  let q := t_process (threads (k_sd (w_k w)) tr) in
  k_procs (w_k w) !! p = Some x → references (p_refs x) !! sid = Some (VChannel c) →
  k_procs (w_k w) !! q = Some y → references (p_refs y) !! rid = Some (VChannel r) →
  sched_ok (w_k w) → chan_open (w_k w) c r → recv_ok (w_k w) r → chan_queue (w_k w) r = [] →
  args_at (w_user w p) a sid dptr n hptr (Z.of_nat (length ids)) → 0 <= n → hptr ≠ 0 → ids ≠ [] →
  read_words (w_user w p) hptr (Z.of_nat (length ids)) = ids →
  Forall2 (λ id v, id ≠ 0 ∧ references (p_refs x) !! id = Some v) ids vs →
  args_at (w_user w q) b rid pd cap ph caph → n <= cap → Z.of_nat (length vs) <= caph →
  (ph + 8 * Z.of_nat (length vs) <= b ∨ b + 40 <= ph) →
  refs_ok (p_refs y) → next_id (p_refs y) + Z.of_nat (length vs) < u64_lim →
  ∃ w1 w2, channel_write_handler ts a w = Done (Ok (HRet 1), w1) ∧
    channel_read_handler tr b w1 = Done (Ok (HRet RES_Ok), w2) ∧
    u_word (w_user w2 q) (b + 16) = n ∧ read_bytes (w_user w2 q) pd n = read_bytes (w_user w p) dptr n ∧
    u_word (w_user w2 q) (b + 32) = Z.of_nat (length vs) ∧
    ∀ i v, vs !! i = Some v →
      let id := u_word (w_user w2 q) (ph + 8 * Z.of_nat i) in
      get_value (w_k w1) q id = Done None ∧ get_value (w_k w2) q id = Done (Some v).
Proof.
  intros p q Hx Hsid Hy Hrid Hs Hco Hr Hq Ha Hn Hh Hids Hw Hvs Hb Hcap Hcaph Hdis Hrefs Hlim.
  destruct (channel_write_ok w ts a x c r sid dptr n hptr ids vs) as (k1 & E & [Fp Ft] & Hs1 & Hco1 & Hr1 & Hq1); try done.
  { rewrite Hq. done. }
  assert (Ep : t_process (threads (k_sd k1) tr) = q) by apply Ft. rewrite Hq in Hq1.
  assert (Hlen : Z.of_nat (length (read_bytes (w_user w p) dptr n)) = n)
    by (unfold read_bytes; rewrite length_fmap, length_seqZ; lia).
  pose proof (channel_read_ok (upd_k w k1) tr b y c r rid pd cap ph caph
    (mkMsg (read_bytes (w_user w p) dptr n) (Some vs)) [] vs) as Hread.
  cbn [w_k upd_k w_user data handles] in Hread. rewrite Ep, Hlen, Fp in Hread.
  destruct Hread as (w2 & E2 & _ & H16 & H32 & Hd & Hi); try done.
  exists (upd_k w k1), w2. done.
Qed.

(** ** Panics a program can cause *)

Lemma new_lazy_small (v : vm_world (A := PageFrameAllocator)) : ∃ id v', new_lazy v 0x1000 = Done (id, v').
Proof. destruct v as [s st]. by eexists _, _. Qed.

Lemma on_mapper_panic {A B} p f (g : A → sys B) w m r :
  w_mem w !! p = Some m → (∀ v pm, f v pm = Panic r) → (on_mapper p f ≫= g) w = Panic r.
Proof.
  intros Hm Hf. unfold on_mapper. rewrite sys_bind_assoc.
  assert (E : get_memory p w = Done (Ok m, w)) by (unfold get_memory; rewrite gets_at, Hm; done).
  rewrite (sys_bind_ok _ _ _ _ _ E). unfold mbind, sys_bind, on_vm. by rewrite Hf.
Qed.

(** Arguments that are not validated reach assertions and checked arithmetic of
    the kernel: a sleep beyond the end of time, a mapping whose size cannot be
    rounded up, and one at an address that is not a multiple of the page size. *)
Theorem unchecked_arguments_panic off w t m :
  let p := t_process (threads (k_sd (w_k w)) t) in
  w_mem w !! p = Some m →
  (∀ d, u64_lim <= w_now w + d → sleep_handler t d w = Panic POverflow) ∧
  (∀ sz, u64_lim <= sz + 0xFFF → mmap_page_handler off t 0 sz w = Panic POverflow) ∧
  (∀ a, 0 < a <= EndUserMem → a mod 0x1000 ≠ 0 → mmap_page_handler off t a 0x1000 w = Panic PAssert).
Proof.
  intros p Hm. splits.
  - intros d Hd. unfold sleep_handler. rewrite gets_at. unfold mbind, sys_bind, pure, add_u64. rewrite chk_over by lia. done.
  - intros sz Hsz. unfold mmap_page_handler. rewrite kassert_at. cbn [Z.leb Z.compare EndUserMem]. rewrite current_process_at.
    unfold mbind, sys_bind, pure, page_align_up, add_u64. rewrite chk_over by lia. done.
  - intros a Ha Hal. unfold mmap_page_handler. rewrite kassert_at, (proj2 (Z.leb_le a EndUserMem)) by lia.
    rewrite current_process_at. fold p. rewrite (sys_bind_ok _ _ w 0x1000 w) by done.
    destruct (new_lazy_small (w_vm w)) as (id & v & El).
    rewrite (sys_bind_ok _ _ w id (upd_vm w v)) by (unfold on_vm; by rewrite El).
    rewrite (proj2 (Z.eqb_neq a 0)) by lia. apply (on_mapper_panic _ _ _ _ m); [done|]. intros v' pm. unfold insert_mapping_at.
    replace (Z.land a 0xFFF =? 0) with false; [done|]. symmetry. apply Z.eqb_neq. change 0xFFF with (2 ^ 12 - 1).
    by rewrite land_ones_mod by lia.
Qed.

(** ** A concrete run

    Process 9 (thread 3) holds channel end 7 and port 5, process 10 (thread 4) the
    other end; the message carries three bytes and the port. *)
Definition demo_sender : Process :=
  mkProc {[ 1 := 3%nat ]} 2 [] (mkRefs {[ 1 := VChannel 7; 2 := VPort 5 ]} 3) NotExitedYet KObjectSignal_new.
Definition demo_receiver : Process :=
  mkProc {[ 1 := 4%nat ]} 2 [] (mkRefs {[ 1 := VChannel 8 ]} 2) NotExitedYet KObjectSignal_new.

Definition blank_user : UserMem := mkUser (λ _, 0) (λ _, 0).

Definition demo_threads : SchedData :=
  set_thread demo_sd 4 (mkThread 10 1 false None (mkSched Runnable (Some (mkSaved 0 0)) 0 false false)).

Definition demo_sys : World :=
  mkWorld (upd_arcs (upd_sd (set_proc (set_proc demo_kernel 9 demo_sender) 10 demo_receiver) demo_threads) {[ 9%nat := 1%nat; 10%nat := 1%nat ]})
    (demo_world, mkStore ∅ 0) ∅
    (<[9%nat := write_bytes (write_words (write_words blank_user 0x1000 [1; 0x2000; 3; 0x3000; 1]) 0x3000 [2]) 0x2000 [65; 66; 67]]>
      (<[10%nat := write_words blank_user 0x1000 [1; 0x5000; 16; 0x6000; 4]]> (λ _, blank_user))) 0.

Lemma demo_threads_ok : sched_ok (w_k demo_sys).
Proof.
  exists []. change (q_repr demo_threads []). apply set_thread_q; [|done|done].
  change (q_repr demo_sd []). apply set_thread_q; [apply (inv_q _ _ (init_inv 1))|done|done].
Qed.

Lemma channel_transfer_witness :
  ∃ w1 w2, channel_write_handler 3 0x1000 demo_sys = Done (Ok (HRet 1), w1) ∧
    channel_read_handler 4 0x1000 w1 = Done (Ok (HRet RES_Ok), w2) ∧
    read_bytes (w_user w2 10) 0x5000 3 = [65; 66; 67] ∧
    get_value (w_k w2) 10 (u_word (w_user w2 10) 0x6000) = Done (Some (VPort 5)).
Proof.
  assert (Hco : chan_open (w_k demo_sys) 7 8).
  { exists (mkChan KChannelInner_default 8 1), (mkChan KChannelInner_default 7 1). splits; try reflexivity; [done|cbn; lia]. }
  assert (Hr : recv_ok (w_k demo_sys) 8) by (intros h [= <-]; split; [by intros wt ?%elem_of_nil|done]).
  assert (Ha : args_at (w_user demo_sys 9) 0x1000 1 0x2000 3 0x3000 1) by (repeat split).
  assert (Hb : args_at (w_user demo_sys 10) 0x1000 1 0x5000 16 0x6000 4) by (repeat split).
  assert (Hok : refs_ok (p_refs demo_receiver)).
  { split; [reflexivity|]. intros id [v Hv]. cbn in Hv. apply lookup_singleton_Some in Hv as [<- _]. done. }
  destruct (channel_transfer demo_sys 3 4 0x1000 0x1000 demo_sender demo_receiver 7 8 1 0x2000 3 0x3000 [2] [VPort 5]
              1 0x5000 16 0x6000 4 eq_refl eq_refl eq_refl eq_refl demo_threads_ok Hco Hr eq_refl Ha)
    as (w1 & w2 & E1 & E2 & _ & Hd & _ & Hi);
    [lia|lia|done|reflexivity|by repeat constructor|exact Hb|lia|cbn; lia|right; cbn; lia|exact Hok|reflexivity|].
  exists w1, w2. split; [exact E1|]. split; [exact E2|]. split; [exact Hd|].
  destruct (Hi 0%nat (VPort 5) eq_refl) as [_ H]. exact H.
Defined.

(** The sender tries to wait on its channel end as if it were a port. *)
(** Waiting at a port that is a channel; a message with a handle that is not held (thread 4's
    array is empty memory, so its handles are null); the type of a number that is not held. *)
Lemma bad_handle_kills_caller_witness :
  (∃ w', syscall_handler PhysMapOffset 0 demo_sys 3 12 1 1 0 0 = Done (SExit, w') ∧ only_killed demo_sys w' 3) ∧
  (∃ w', syscall_handler PhysMapOffset 0 demo_sys 4 14 2 0x1000 0 0 = Done (SExit, w') ∧ only_killed demo_sys w' 4) ∧
  (∃ w', syscall_handler PhysMapOffset 0 demo_sys 3 15 2 77 0 0 = Done (SRet 0, w') ∧ unchanged demo_sys w').
Proof.
  split; [|split].
  - apply (bad_handle_kills_caller PhysMapOffset 0 demo_sys 3 12 1 1 0 0 demo_sender) with (id := 1) (ok := of_kind 4); [reflexivity..|left|reflexivity].
  - apply (bad_handle_kills_caller PhysMapOffset 0 demo_sys 4 14 2 0x1000 0 0 demo_receiver) with (id := 0) (ok := any_value);
      [reflexivity..|right; vm_compute; left|reflexivity].
  - apply (bad_handle_kills_caller PhysMapOffset 0 demo_sys 3 15 2 77 0 0 demo_sender); [reflexivity..|done|reflexivity].
Defined.
