(* ===== verification/UserLib.v ===== *)
(** * The client library of the system calls

    [kernel_userspace/src]: [syscall.rs], [object.rs], [message.rs], [port.rs],
    [interrupt.rs], [process.rs] and [channel.rs].  A function of the library runs in
    thread [t] on the [World] of [Syscall]: it puts the structure of the call on its
    stack, makes the call, and reads what the kernel put there.  Where a structure or a
    buffer lies is an argument.  A call that blocks ends the run with what the thread
    waits for; a call that fails ends the thread. *)
From S2P Require Import Prelude Page PhysMem AllocIface PageAlloc PageTable PageMapper Sched Ipc Syscall.

(** ** Calls *)
Inductive ures (A : Type) :=
  | URet (a : A)
  | UKilled
  | UBlock (b : Blocked)
  | UYielded.
Arguments URet {A} a.
Arguments UKilled {A}.
Arguments UBlock {A} b.
Arguments UYielded {A}.

Definition ulib (A : Type) : Type := World → outcome (ures A * World).

#[export] Instance ulib_ret : MRet ulib := λ A a w, Done (URet a, w).
#[export] Instance ulib_bind : MBind ulib := λ A B f m w,
  '(r, w) ← m w;
  match r with
  | URet a => f a w
  | UKilled => Done (UKilled, w)
  | UBlock b => Done (UBlock b, w)
  | UYielded => Done (UYielded, w)
  end.

(** The program panics. *)
Definition upanic {A} : ulib A := λ _, Panic PUnwrap.
Definition uunwrap {A} (o : option A) : ulib A := match o with Some a => mret a | None => upanic end.

Section lib.
Context (off start : Z) (t : nat).

(** [make_syscall!]; the way into the kernel and back is [Switch.system_call]. *)
Definition ucall (number arg1 arg2 arg3 arg4 : Z) : ulib Z := λ w,
  '(o, w) ← syscall_handler off start w t number arg1 arg2 arg3 arg4;
  Done (match o with SRet r => URet r | SBlock b => UBlock b | SYield => UYielded | SExit => UKilled end, w).

Definition my_process (w : World) : nat := t_process (threads (k_sd (w_k w)) t).
Definition my_memory (w : World) : UserMem := w_user w (my_process w).

Definition put (f : UserMem → UserMem) : ulib unit := λ w, Done (URet tt, upd_user w (my_process w) (f (my_memory w))).
Definition get {A} (f : UserMem → A) : ulib A := λ w, Done (URet (f (my_memory w)), w).

(** *** [syscall.rs] *)
Definition echo (num : Z) : ulib Z := ucall 0 num 0 0 0.
Definition yield_now : ulib unit := _ ← ucall 1 0 0 0 0; mret tt.
Definition user_spawn_thread (bootstrap raw : Z) : ulib Z := ucall 3 bootstrap raw 0 0.
Definition sleep (ms : Z) : ulib Z := ucall 4 ms 0 0 0.
Definition exit : ulib unit := _ ← ucall 5 0 0 0 0; mret tt.
Definition mmap_page (vmem length : Z) : ulib Z := ucall 6 vmem length 0 0.
Definition unmmap_page (vmem mapping_length : Z) : ulib unit := _ ← ucall 9 vmem mapping_length 0 0; mret tt.
Definition mmap_page32 : ulib Z := r ← ucall 10 0 0 0 0; mret (r mod 2 ^ 32).
Definition get_pid : ulib Z := ucall 8 0 0 0 0.

(** The vector is at [buf]; an empty one has a dangling pointer, not null. *)
Definition read_args_raw (buf : Z) : ulib (list Z) :=
  size ← ucall 7 0 0 0 0;
  _ ← put (λ u, write_bytes u buf (replicate (Z.to_nat size) 0));
  _ ← ucall 7 buf 0 0 0;
  get (λ u, read_bytes u buf size).

(** *** [object.rs] *)
Definition clone_reference (kref : Z) : ulib Z := id ← ucall 15 0 kref 0 0; uunwrap (from_usize id).
Definition delete_reference (kref : Z) : ulib unit := _ ← ucall 15 1 kref 0 0; mret tt.
Definition get_type (kref : Z) : ulib Z :=
  id ← ucall 15 2 kref 0 0; uunwrap (if id <? 6 then Some id else None).
Definition object_wait (kref mask : Z) : ulib Z := ucall 15 3 kref mask 0.
Definition object_wait_port (kref port : Z) : ulib unit := _ ← ucall 15 4 kref port 0; mret tt.
Definition object_wait_port_rs (sa kref port mask key : Z) : ulib unit :=
  _ ← put (λ u, write_words u sa [port; mask; key]);
  object_wait_port kref sa.

(** *** [message.rs] *)
Definition message_syscall (action arg : Z) : ulib unit := _ ← ucall 11 action arg 0 0; mret tt.

Definition MessageHandle_create (sa buf len : Z) : ulib Z :=
  _ ← put (λ u, write_words u sa [buf; len]);
  _ ← message_syscall 0 sa;
  get (λ u, u_word u sa).

Definition get_size (sa h : Z) : ulib Z :=
  _ ← put (λ u, write_word u sa h);
  _ ← message_syscall 1 sa;
  get (λ u, u_word u sa).

Definition read (sa h buf len : Z) : ulib unit :=
  _ ← put (λ u, write_words u sa [h; buf; len]);
  message_syscall 2 sa.

(** The new vector, and that of the caller once it is large enough, is at [buf]. *)
Definition read_vec (sa h buf : Z) : ulib (list Z) :=
  size ← get_size sa h;
  _ ← put (λ u, write_bytes u buf (replicate (Z.to_nat size) 0));
  _ ← read sa h buf size;
  get (λ u, read_bytes u buf size).

Definition read_into_vec (sa h buf old_len : Z) : ulib (list Z) :=
  size ← get_size sa h;
  _ ← put (λ u, write_bytes u (buf + old_len) (replicate (Z.to_nat (size - old_len)) 0));
  _ ← read sa h buf size;
  get (λ u, read_bytes u buf size).

(** *** [port.rs] *)
Definition port_create : ulib Z := id ← ucall 12 0 0 0 0; uunwrap (from_usize id).
Definition port_wait (handle notification : Z) : ulib unit := _ ← ucall 12 1 handle notification 0; mret tt.
Definition port_wait_rs (sa handle : Z) : ulib (outcome PortNotification) :=
  _ ← put (λ u, write_words u sa [0; 2; 0]);
  _ ← port_wait handle sa;
  get (λ u, read_notification u sa).
Definition port_push (handle packet : Z) : ulib unit := _ ← ucall 12 2 handle packet 0; mret tt.

(** *** [interrupt.rs] *)
Definition interrupt_create : ulib Z := id ← ucall 13 0 0 0 0; uunwrap (from_usize id).
Definition interrupt_trigger (handle : Z) : ulib unit := _ ← ucall 13 1 handle 0 0; mret tt.
Definition interrupt_set_port (handle port key : Z) : ulib unit := _ ← ucall 13 2 handle port key; mret tt.
Definition interrupt_acknowledge (handle : Z) : ulib unit := _ ← ucall 13 3 handle 0 0; mret tt.
Definition interrupt_wait (handle : Z) : ulib unit := _ ← ucall 13 4 handle 0 0; mret tt.

(** *** [process.rs] *)
Definition process_get_exit_code (handle : Z) : ulib ProcessExit :=
  res ← ucall 16 0 handle 0 0;
  uunwrap (if res =? 0 then Some Exited else if res =? 1 then Some NotExitedYet else None).
Definition process_kill (handle : Z) : ulib unit := _ ← ucall 16 1 handle 0 0; mret tt.

Fixpoint blocking_exit_code (fuel : nat) (handle : Z) : ulib ProcessExit :=
  match fuel with
  | O => λ _, OutOfFuel
  | S fuel =>
      e ← process_get_exit_code handle;
      match e with
      | NotExitedYet => _ ← object_wait handle PROCESS_EXITED; blocking_exit_code fuel handle
      | a => mret a
      end
  end.

(** *** [channel.rs] *)
Definition user_channel_create (create : Z) : ulib bool := res ← ucall 14 0 create 0 0; mret (negb (res mod 2 ^ 16 =? 0)).
Definition channel_create_rs (sa : Z) : ulib (Z * Z) :=
  _ ← put (λ u, write_words u sa [0; 0]);
  _ ← user_channel_create sa;
  l ← get (λ u, u_word u sa);
  r ← get (λ u, u_word u (sa + 8));
  l ← uunwrap (from_usize l);
  r ← uunwrap (from_usize r);
  mret (l, r).

Definition channel_write (write : Z) : ulib bool := res ← ucall 14 2 write 0 0; mret (negb (res mod 2 ^ 16 =? 0)).
Definition channel_write_rs (sa handle data data_len handles handles_len : Z) : ulib bool :=
  _ ← put (λ u, write_words u sa [handle; data; data_len; handles; handles_len]);
  channel_write sa.

Inductive ChannelReadResult := ROk | REmpty | RSize | RClosed.
Definition read_result (v : Z) : option ChannelReadResult :=
  match v with 0 => Some ROk | 1 => Some REmpty | 2 => Some RSize | 3 => Some RClosed | _ => None end.
Definition channel_read (read : Z) : ulib ChannelReadResult :=
  res ← ucall 14 1 read 0 0; uunwrap (read_result (res mod 2 ^ 16)).

(** The result with the lengths of the two vectors. *)
Fixpoint read_loop (fuel : nat) (sa handle : Z) : ulib (ChannelReadResult * Z * Z) :=
  match fuel with
  | O => λ _, OutOfFuel
  | S fuel =>
      res ← channel_read sa;
      match res with
      | ROk => n ← get (λ u, u_word u (sa + 16)); h ← get (λ u, u_word u (sa + 32)); mret (res, n, h)
      | REmpty => _ ← object_wait handle READABLE; read_loop fuel sa handle
      | _ => mret (res, 0, 0)
      end
  end.
Definition channel_read_rs (fuel : nat) (sa handle data data_cap handles handles_cap : Z) : ulib (ChannelReadResult * Z * Z) :=
  _ ← put (λ u, write_words u sa [handle; data; data_cap; handles; handles_cap]);
  read_loop fuel sa handle.

(** [channel_read_val] of a value of [n] bytes. *)
Fixpoint delete_all (hs : list Z) : ulib unit :=
  match hs with [] => mret tt | h :: hs => _ ← delete_reference h; delete_all hs end.
Fixpoint read_val_loop (fuel : nat) (sa handle n handles : Z) : ulib (ChannelReadResult * Z) :=
  match fuel with
  | O => λ _, OutOfFuel
  | S fuel =>
      res ← channel_read sa;
      match res with
      | ROk =>
          len ← get (λ u, u_word u (sa + 16));
          h ← get (λ u, u_word u (sa + 32));
          if len =? n then mret (res, h)
          else hs ← get (λ u, read_words u handles h); _ ← delete_all (rev hs); mret (RSize, 0)
      | REmpty => _ ← object_wait handle READABLE; read_val_loop fuel sa handle n handles
      | _ => mret (res, 0)
      end
  end.
Definition channel_read_val (fuel : nat) (sa handle data n handles handles_cap : Z) : ulib (ChannelReadResult * Z) :=
  _ ← put (λ u, write_words u sa [handle; data; n; handles; handles_cap]);
  read_val_loop fuel sa handle n handles.
End lib.

(** ** Making calls *)
Section calls.
Context (off start : Z) (t : nat).

(** The thread is neither in a call nor killed. *)
Definition calm (w : World) : Prop :=
  in_syscall (sched (threads (k_sd (w_k w)) t)) = false ∧ killed (sched (threads (k_sd (w_k w)) t)) = false.

Lemma ulib_bind_ret {A B} (m : ulib A) (f : A → ulib B) w a w' : m w = Done (URet a, w') → (m ≫= f) w = f a w'.
Proof. unfold mbind, ulib_bind. by intros ->. Qed.

Lemma ulib_assoc {A B C} (m : ulib A) (f : A → ulib B) (g : B → ulib C) w :
  (m ≫= λ a, f a ≫= g) w = ((m ≫= f) ≫= g) w.
Proof. unfold mbind, ulib_bind. cbn. by destruct (m w) as [[[]]| |]. Qed.

Lemma my_process_flag w b : my_process t (set_in_syscall w t b) = my_process t w.
Proof. unfold my_process, set_in_syscall. cbn. by rewrite fn_lookup_insert. Qed.

(** A call whose handler returns, leaving the thread alone. *)
Lemma ucall_ret number a1 a2 a3 a4 w v w' :
  calm w → number ≠ 1 → number ≠ 5 →
  call_handler off start t number a1 a2 a3 a4 (set_in_syscall w t true) = Done (Ok (HRet v), w') →
  k_sd (w_k w') = k_sd (w_k (set_in_syscall w t true)) →
  ucall off start t number a1 a2 a3 a4 w = Done (URet v, set_in_syscall w' t false) ∧ calm (set_in_syscall w' t false) ∧
    my_process t (set_in_syscall w' t false) = my_process t w.
Proof.
  intros [Hi Hk] H1 H5 E Hsd. unfold ucall, syscall_handler. rewrite Hi, Hk. cbn [negb assert_ mbind outcome_bind].
  destruct (decide (number = 1)); [done|]. destruct (decide (number = 5)); [done|].
  assert (Hm : (match number with
     | 1 => Done (SYield, set_in_syscall (set_in_syscall w t true) t false)
     | 5 => Done (SExit, set_killed (set_in_syscall (set_in_syscall w t true) t false) t)
     | _ => finish t (call_handler off start t number a1 a2 a3 a4 (set_in_syscall w t true))
     end) = finish t (call_handler off start t number a1 a2 a3 a4 (set_in_syscall w t true))) by (repeat case_match; congruence).
  rewrite Hm, E. cbn [finish mbind outcome_bind]. split; [done|]. split.
  - unfold calm. cbn. rewrite fn_lookup_insert. cbn. rewrite Hsd. cbn. rewrite fn_lookup_insert. done.
  - rewrite my_process_flag. unfold my_process. rewrite Hsd. cbn. by rewrite fn_lookup_insert.
Qed.

(** ** Messages *)

(** The thread's process has a reference [id] to a message that holds [d]. *)
Definition has_message (w : World) (id : Z) (d : list Z) : Prop :=
  ∃ x m, k_procs (w_k w) !! my_process t w = Some x ∧ references (p_refs x) !! id = Some (VMessage m) ∧ k_msgs (w_k w) !! m = Some d.

Lemma has_message_flag w b id d : has_message w id d → has_message (set_in_syscall w t b) id d.
Proof. intros (x & m & Hx & Hid & Hm). exists x, m. by rewrite my_process_flag. Qed.

Lemma has_message_user w p u id d : has_message w id d → has_message (upd_user w p u) id d.
Proof. done. Qed.

Lemma calm_user w p u : calm w → calm (upd_user w p u).
Proof. done. Qed.

Lemma my_memory_put w u : my_memory t (upd_user w (my_process t w) u) = u.
Proof. unfold my_memory. apply fn_lookup_insert. Qed.

(** Looking a message up in a handler. *)
Lemma lookup_message {B} w id d (f : list Z → sys B) :
  has_message w id d →
  (v ← lookup_ref (my_process t w) id; m ← cast_message v; dt ← on_k (λ k, d ← deref_arc (k_msgs k) m; Done (d, k)); f dt) w = f d w.
Proof.
  intros (x & m & Hx & Hid & Hm). erewrite sys_bind_ok by (rewrite (lookup_ref_at w _ x Hx), Hid; reflexivity).
  cbn [cast_message]. unfold mret, sys_ret. erewrite sys_bind_ok by reflexivity.
  erewrite sys_bind_ok; [reflexivity|]. unfold deref_arc. apply on_k_read. by rewrite Hm.
Qed.

(** A message call: the structure is on the stack of the thread. *)
Lemma message_call_ok action sa w v w' :
  calm w → message_handler t action sa (set_in_syscall w t true) = Done (Ok (HRet v), w') →
  k_sd (w_k w') = k_sd (w_k (set_in_syscall w t true)) →
  message_syscall off start t action sa w = Done (URet tt, set_in_syscall w' t false) ∧ calm (set_in_syscall w' t false) ∧
    my_process t (set_in_syscall w' t false) = my_process t w.
Proof.
  intros Hc E Hsd. destruct (ucall_ret 11 action sa 0 0 w v w' Hc) as (Eu & Hc' & Hp); [done|done|exact E|done|].
  split; [|done]. unfold message_syscall. by erewrite ulib_bind_ret by exact Eu.
Qed.

(** What the wrappers share: the words are written, the handler sees them and changes the
    kernel's objects and the memory, but not the threads. *)
Lemma message_wrapper f action sa w v k' g :
  let p := my_process t w in
  let u := f (my_memory t w) in
  let w2 := set_in_syscall (upd_user w p u) t true in
  calm w →
  (my_process t w2 = p → w_user w2 p = u → message_handler t action sa w2 = Done (Ok (HRet v), upd_user (upd_k w2 k') p (g u))) →
  k_sd k' = k_sd (w_k w2) →
  ∃ w', (_ ← put t f; message_syscall off start t action sa) w = Done (URet tt, w') ∧ calm w' ∧ my_process t w' = p ∧
    my_memory t w' = g u ∧ k_procs (w_k w') = k_procs k' ∧ k_msgs (w_k w') = k_msgs k'.
Proof.
  intros p u w2 Hc Hh Hsd.
  assert (Hp2 : my_process t w2 = p) by (unfold w2; by rewrite my_process_flag).
  assert (Hu2 : w_user w2 p = u) by (unfold w2; cbn; apply fn_lookup_insert).
  destruct (message_call_ok action sa (upd_user w p u) v (upd_user (upd_k w2 k') p (g u))) as (E & Hc' & Hp'); [done|by apply Hh|done|].
  erewrite ulib_bind_ret by reflexivity. eexists. split; [exact E|]. split; [done|]. split; [done|]. split; [|done].
  unfold my_memory. rewrite Hp'. apply fn_lookup_insert.
Qed.

Lemma has_message_same w w' id d :
  my_process t w' = my_process t w → k_procs (w_k w') = k_procs (w_k w) → k_msgs (w_k w') = k_msgs (w_k w) →
  has_message w id d → has_message w' id d.
Proof. intros E1 E2 E3 (x & m & Hx & Hid & Hm). exists x, m. by rewrite E1, E2, E3. Qed.

(** The handler's first steps. *)
Lemma message_handler_start action sa w2 p : my_process t w2 = p →
  ∀ r, (action <? 3) = true →
  (let u := w_user w2 p in
   match action with
   | 0 =>
      m ← on_k (λ k, Done (new_message k (read_bytes u (u_word u sa) (u_word u (sa + 8)))));
      id ← new_value p (VMessage m);
      _ ← on_user p (λ u, write_word u sa id);
      mret (HRet 0)
   | 1 =>
      v ← lookup_ref p (u_word u sa);
      m ← cast_message v;
      data ← on_k (λ k, d ← deref_arc (k_msgs k) m; Done (d, k));
      _ ← on_user p (λ u, write_word u sa (Z.of_nat (length data)));
      mret (HRet 0)
   | _ =>
      v ← lookup_ref p (u_word u sa);
      m ← cast_message v;
      data ← on_k (λ k, d ← deref_arc (k_msgs k) m; Done (d, k));
      _ ← kassert (Z.of_nat (length data) =? u_word u (sa + 16));
      _ ← on_user p (λ u', write_bytes u' (u_word u (sa + 8)) data);
      mret (HRet 0)
   end) w2 = r → message_handler t action sa w2 = r.
Proof.
  intros <- r Ha H. unfold message_handler. rewrite Ha. cbn [kassert]. erewrite sys_bind_ok by reflexivity.
  rewrite current_process_at, gets_at. exact H.
Qed.

Lemma get_size_ok sa w id d :
  calm w → has_message w id d →
  ∃ w', get_size off start t sa id w = Done (URet (Z.of_nat (length d)), w') ∧ calm w' ∧ has_message w' id d ∧
    my_process t w' = my_process t w.
Proof.
  intros Hc Hm. set (p := my_process t w). set (w2 := set_in_syscall (upd_user w p (write_word (my_memory t w) sa id)) t true).
  destruct (message_wrapper (λ u, write_word u sa id) 1 sa w 0 (w_k w2) (λ u, write_word u sa (Z.of_nat (length d))))
    as (w' & E & Hc' & Hp' & Hu & Hk1 & Hk2); [done| |done|].
  { intros Hp2 Hu2. fold p in Hp2, Hu2 |- *. fold w2 in Hp2, Hu2 |- *. apply (message_handler_start 1 sa w2 p Hp2); [done|]. cbv zeta iota. rewrite Hu2.
    cbn [u_word write_word]. rewrite fn_lookup_insert, <- Hp2, (lookup_message w2 id d) by (by apply has_message_flag).
    rewrite on_user_at, Hp2, Hu2, upd_k_same. done. }
  exists w'. unfold get_size. rewrite ulib_assoc. erewrite ulib_bind_ret by exact E. unfold get. rewrite Hu. cbn [u_word write_word].
  rewrite fn_lookup_insert. splits; [done|done| |done]. by apply (has_message_same w).
Qed.

Lemma read_ok sa w id d buf :
  calm w → has_message w id d →
  ∃ w', read off start t sa id buf (Z.of_nat (length d)) w = Done (URet tt, w') ∧ calm w' ∧ has_message w' id d ∧
    my_process t w' = my_process t w ∧ read_bytes (my_memory t w') buf (Z.of_nat (length d)) = d.
Proof.
  intros Hc Hm. set (p := my_process t w). set (u := write_words (my_memory t w) sa [id; buf; Z.of_nat (length d)]).
  set (w2 := set_in_syscall (upd_user w p u) t true).
  destruct (message_wrapper (λ u, write_words u sa [id; buf; Z.of_nat (length d)]) 2 sa w 0 (w_k w2) (λ u, write_bytes u buf d))
    as (w' & E & Hc' & Hp' & Hu & Hk1 & Hk2); [done| |done|].
  { intros Hp2 Hu2. fold p in Hp2, Hu2 |- *. fold u in Hp2, Hu2 |- *. fold w2 in Hp2, Hu2 |- *.
    pose proof (u_word_written [id; buf; Z.of_nat (length d)] (my_memory t w) sa) as Hw. fold u in Hw.
    pose proof (Hw 0%nat id eq_refl) as W0. pose proof (Hw 1%nat buf eq_refl) as W1. pose proof (Hw 2%nat _ eq_refl) as W2.
    change (8 * Z.of_nat 0) with 0 in W0. rewrite Z.add_0_r in W0.
    apply (message_handler_start 2 sa w2 p Hp2); [done|]. cbv zeta iota. rewrite Hu2.
    change (sa + 8 * Z.of_nat 1) with (sa + 8) in W1. change (sa + 8 * Z.of_nat 2) with (sa + 16) in W2.
    rewrite W0, W1, W2, <- Hp2, (lookup_message w2 id d) by (by apply has_message_flag).
    rewrite Z.eqb_refl. cbn [kassert]. erewrite sys_bind_ok by reflexivity. rewrite on_user_at, Hp2, Hu2, upd_k_same. done. }
  exists w'. unfold read. splits; [exact E|done| |done|]; [by apply (has_message_same w)|].
  rewrite Hu. apply read_write_bytes.
Qed.

Lemma add_value_keeps k p v id k' : add_value k p v = Done (id, k') → k_sd k' = k_sd k ∧ k_msgs k' = k_msgs k.
Proof. unfold add_value. intros E. inv_outcome. by case_match; inv_outcome. Qed.

Lemma create_ok sa w x buf n :
  calm w → k_procs (w_k w) !! my_process t w = Some x → refs_ok (p_refs x) → next_id (p_refs x) < u64_lim - 1 →
  ∃ id w', MessageHandle_create off start t sa buf n w = Done (URet id, w') ∧ calm w' ∧
    has_message w' id (read_bytes (my_memory t w) buf n) ∧ my_process t w' = my_process t w ∧ id = next_id (p_refs x).
Proof.
  intros Hc Hx Hok Hlim. set (p := my_process t w) in *. set (u := write_words (my_memory t w) sa [buf; n]).
  set (w2 := set_in_syscall (upd_user w p u) t true). set (d := read_bytes (my_memory t w) buf n).
  destruct (new_message (w_k w2) d) as [m k1] eqn:Em.
  assert (Hk1 : k_procs k1 = k_procs (w_k w) ∧ k_msgs k1 !! m = Some d ∧ k_sd k1 = k_sd (w_k w2))
    by (unfold new_message in Em; injection Em as <- <-; cbn; by rewrite lookup_insert_eq).
  destruct Hk1 as (Hk1p & Hk1m & Hk1s).
  destruct (add_value_spec k1 p x (VMessage m)) as (id & k2 & E2 & Hid & _ & Hg & _); [by rewrite Hk1p|done|done|].
  destruct (add_value_keeps _ _ _ _ _ E2) as [Hs2 Hm2].
  destruct (message_wrapper (λ u, write_words u sa [buf; n]) 0 sa w 0 k2 (λ u, write_word u sa id))
    as (w' & E & Hc' & Hp' & Hu & Hkp & Hkm); [done| |by rewrite Hs2, Hk1s|].
  { intros Hp2 Hu2. fold p in Hp2, Hu2 |- *. fold u in Hp2, Hu2 |- *. fold w2 in Hp2, Hu2 |- *.
    pose proof (u_word_written [buf; n] (my_memory t w) sa) as Hw. fold u in Hw.
    pose proof (Hw 0%nat buf eq_refl) as W0. pose proof (Hw 1%nat n eq_refl) as W1.
    change (8 * Z.of_nat 0) with 0 in W0. rewrite Z.add_0_r in W0. change (sa + 8 * Z.of_nat 1) with (sa + 8) in W1.
    apply (message_handler_start 0 sa w2 p Hp2); [done|]. cbv zeta iota. rewrite Hu2, W0, W1.
    assert (Ed : read_bytes u buf n = d) by (unfold d, read_bytes, u; apply list_fmap_ext; intros; by rewrite u_byte_write_words).
    rewrite Ed. erewrite sys_bind_ok by (unfold on_k; rewrite Em; reflexivity).
    erewrite sys_bind_ok by (unfold new_value, on_k; cbn [w_k upd_k]; rewrite E2; reflexivity).
    rewrite on_user_at. cbn [w_user upd_k]. rewrite Hu2. done. }
  exists id, w'. unfold MessageHandle_create. rewrite ulib_assoc. erewrite ulib_bind_ret by exact E.
  unfold get. rewrite Hu. cbn [u_word write_word]. rewrite fn_lookup_insert. splits; [done|done| |done|done].
  unfold get_value, deref_arc in Hg. destruct (k_procs k2 !! p) as [x2|] eqn:Ex2; [|done]. injection Hg as Hg.
  exists x2, m. rewrite Hp', Hkp, Hkm, Hm2. splits; [done|done|done].
Qed.

(** C26: a message created from a buffer is read back byte for byte through the reference
    the library returns, whatever the program does to its memory in between: the kernel
    keeps its own copy, and the size and the contents come from it. *)
Theorem message_roundtrip sa sa' w x buf n vec (overwrite : UserMem → UserMem) :
  calm w → k_procs (w_k w) !! my_process t w = Some x → refs_ok (p_refs x) → next_id (p_refs x) < u64_lim - 1 → 0 ≤ n →
  ∃ id w1 w2, MessageHandle_create off start t sa buf n w = Done (URet id, w1) ∧
    (_ ← put t overwrite; read_vec off start t sa' id vec) w1 = Done (URet (read_bytes (my_memory t w) buf n), w2).
Proof.
  intros Hc Hx Hok Hlim Hn. destruct (create_ok sa w x buf n Hc Hx Hok Hlim) as (id & w1 & E1 & Hc1 & Hm1 & Hp1 & _).
  set (d := read_bytes (my_memory t w) buf n) in *. exists id, w1.
  set (w1' := upd_user w1 (my_process t w1) (overwrite (my_memory t w1))).
  destruct (get_size_ok sa' w1' id d) as (w2 & E2 & Hc2 & Hm2 & Hp2); [done|done|].
  set (w2' := upd_user w2 (my_process t w2) (write_bytes (my_memory t w2) vec (replicate (Z.to_nat (Z.of_nat (length d))) 0))).
  destruct (read_ok sa' w2' id d vec) as (w3 & E3 & _ & _ & _ & Hd); [done|done|].
  exists w3. split; [done|]. erewrite ulib_bind_ret by reflexivity. fold w1'. unfold read_vec.
  erewrite ulib_bind_ret by exact E2. erewrite ulib_bind_ret by reflexivity. fold w2'.
  erewrite ulib_bind_ret by exact E3. unfold get. by rewrite Hd.
Qed.
End calls.

(** ** Running it

    The sender of [Syscall.demo_sys] makes a message of its three bytes, clears the buffer
    and reads it. *)
Lemma message_roundtrip_witness :
  ∃ id w1 w2, MessageHandle_create PhysMapOffset 0 3 0x7000 0x2000 3 demo_sys = Done (URet id, w1) ∧
    (_ ← put 3 (λ u, write_bytes u 0x2000 [0; 0; 0]); read_vec PhysMapOffset 0 3 0x7000 id 0x8000) w1 = Done (URet [65; 66; 67], w2).
Proof.
  apply (message_roundtrip PhysMapOffset 0 3 0x7000 0x7000 demo_sys demo_sender 0x2000 3 0x8000 (λ u, write_bytes u 0x2000 [0; 0; 0])).
  - by split.
  - reflexivity.
  - split; [reflexivity|]. intros id [v Hv]. cbn in Hv. apply lookup_insert_Some in Hv as [[<- _]|[_ Hv]]; [done|].
    apply lookup_singleton_Some in Hv as [<- _]. done.
  - reflexivity.
  - lia.
Defined.

(** A thread that waits in [channel_read_rs] waits for [READABLE] only.  When the other end
    is closed the thread stays asleep, although a read would now report [Closed]. *)
Definition reader_waits : outcome (ures (ChannelReadResult * Z * Z) * World) :=
  channel_read_rs PhysMapOffset 0 3 2 0x7000 1 0x8000 16 0x9000 1 demo_sys.
Definition peer_gone : outcome (ures unit * World) :=
  '(_, w) ← reader_waits; delete_reference PhysMapOffset 0 4 1 w.
Definition reader_view (w : World) : ThreadState * option nat :=
  (state (sched (threads (k_sd (w_k w)) 3)), queue_head (k_sd (w_k w))).

Lemma reader_misses_close :
  ('(r, w) ← reader_waits; Done (r, reader_view w)) = Done (UBlock (BSignal (VChannel 7)), (Sleeping, None)) ∧
  ('(r, w) ← peer_gone; Done (r, reader_view w)) = Done (URet tt, (Sleeping, None)) ∧
  ('(_, w) ← peer_gone; '(r, _) ← chan_read (w_k w) 7 16 1; Done r) = Done (Err Closed).
Proof. by vm_compute. Qed.
