(* ===== verification/Keyboard.v ===== *)
(** * Keyboard: scan codes, key codes and key maps

    [input/src/keyboard.rs], [input/src/keyboard/virtual_code.rs],
    [input/src/keyboard/us_keyboard.rs], [ps2/src/scancode/set2.rs],
    [ps2/src/scancode/keys.rs] and [ps2/src/translate.rs].  A [char] is its code
    point, a [u8] a number below 256.  The enumerations whose constructors clash
    live in a module of their own.  [scancode_of] is the published table of set 2, written
    out by key; the decoder is compared with it. *)
From Stdlib Require Import Ascii String.
From S2P Require Import Prelude.

Definition char (c : ascii) : Z := Z.of_N (N_of_ascii c).
Arguments char c%_char_scope.

(** ** Virtual key codes *)

Module Modifier.
Inductive Modifier :=
  | LeftShift | RightShift | LeftAlt | RightAlt | LeftWindows | RightWindows | LeftControl
  | RightControl | CapsLock | ScrollLock | NumLock.
#[global] Instance Modifier_eq_dec : EqDecision Modifier.
Proof. solve_decision. Defined.
Definition all : list Modifier := [LeftShift; RightShift; LeftAlt; RightAlt; LeftWindows; RightWindows; LeftControl; RightControl; CapsLock; ScrollLock; NumLock].
End Modifier.

Module Control.
Inductive Control :=
  | Escape | Enter | Space | Backspace | Delete | Tab | Insert | Home | End | PageUp | PageDown
  | ArrowLeft | ArrowRight | ArrowUp | ArrowDown | PrintScreen | PauseBreak.
#[global] Instance Control_eq_dec : EqDecision Control.
Proof. solve_decision. Defined.
Definition all : list Control := [Escape; Enter; Space; Backspace; Delete; Tab; Insert; Home; End; PageUp; PageDown; ArrowLeft; ArrowRight; ArrowUp; ArrowDown; PrintScreen; PauseBreak].
End Control.

Module Number.
Inductive Number :=
  | N0 | N1 | N2 | N3 | N4 | N5 | N6 | N7 | N8 | N9.
#[global] Instance Number_eq_dec : EqDecision Number.
Proof. solve_decision. Defined.
Definition all : list Number := [N0; N1; N2; N3; N4; N5; N6; N7; N8; N9].
End Number.

Module Numpad.
Inductive Numpad :=
  | N0 | N1 | N2 | N3 | N4 | N5 | N6 | N7 | N8 | N9 | Div | Mul | Sub | Add | Enter | Period.
#[global] Instance Numpad_eq_dec : EqDecision Numpad.
Proof. solve_decision. Defined.
Definition all : list Numpad := [N0; N1; N2; N3; N4; N5; N6; N7; N8; N9; Div; Mul; Sub; Add; Enter; Period].
End Numpad.

Module Letter.
Inductive Letter :=
  | A | B | C | D | E | F | G | H | I | J | K | L | M | N | O | P | Q | R | S | T | U | V | W | X
  | Y | Z.
#[global] Instance Letter_eq_dec : EqDecision Letter.
Proof. solve_decision. Defined.
Definition all : list Letter := [A; B; C; D; E; F; G; H; I; J; K; L; M; N; O; P; Q; R; S; T; U; V; W; X; Y; Z].
End Letter.

Module Misc.
Inductive Misc :=
  | Hyphen | Equals | Comma | Period | SemiColon | ForwardSlash | BackSlash | BackTick
  | LeftBracket | RightBracket | Quote | MenuKey.
#[global] Instance Misc_eq_dec : EqDecision Misc.
Proof. solve_decision. Defined.
Definition all : list Misc := [Hyphen; Equals; Comma; Period; SemiColon; ForwardSlash; BackSlash; BackTick; LeftBracket; RightBracket; Quote; MenuKey].
End Misc.

Module Function.
Inductive Function :=
  | F0 | F1 | F2 | F3 | F4 | F5 | F6 | F7 | F8 | F9 | F10 | F11 | F12 | F13 | F14 | F15 | F16 | F17
  | F18 | F19 | F20 | F21 | F22 | F23 | F24.
#[global] Instance Function_eq_dec : EqDecision Function.
Proof. solve_decision. Defined.
Definition all : list Function := [F0; F1; F2; F3; F4; F5; F6; F7; F8; F9; F10; F11; F12; F13; F14; F15; F16; F17; F18; F19; F20; F21; F22; F23; F24].
End Function.

Inductive VirtualKeyCode :=
  | KModifier (value : Modifier.Modifier)
  | KControl (value : Control.Control)
  | KNumber (value : Number.Number)
  | KNumpad (value : Numpad.Numpad)
  | KLetter (value : Letter.Letter)
  | KMisc (value : Misc.Misc)
  | KFunction (value : Function.Function).

#[global] Instance VirtualKeyCode_eq_dec : EqDecision VirtualKeyCode.
Proof. solve_decision. Defined.

(** The [From] instances, [into]. *)
Class Into (A : Type) := into : A → VirtualKeyCode.
#[export] Instance Modifier_into : Into Modifier.Modifier := KModifier.
#[export] Instance Control_into : Into Control.Control := KControl.
#[export] Instance Number_into : Into Number.Number := KNumber.
#[export] Instance Numpad_into : Into Numpad.Numpad := KNumpad.
#[export] Instance Letter_into : Into Letter.Letter := KLetter.
#[export] Instance Misc_into : Into Misc.Misc := KMisc.
#[export] Instance Function_into : Into Function.Function := KFunction.

Inductive KeyboardEvent := Down (k : VirtualKeyCode) | Up (k : VirtualKeyCode).

(** ** Scan code set 2 *)

(** [map_scancode]; unknown codes are printed and dropped. *)
Definition map_scancode (code : Z) : option VirtualKeyCode :=
  match code with
  | 0x01 => Some (into Function.F9)
  | 0x03 => Some (into Function.F5)
  | 0x04 => Some (into Function.F3)
  | 0x05 => Some (into Function.F1)
  | 0x06 => Some (into Function.F2)
  | 0x07 => Some (into Function.F12)
  | 0x09 => Some (into Function.F10)
  | 0x0A => Some (into Function.F8)
  | 0x0B => Some (into Function.F6)
  | 0x0C => Some (into Function.F4)
  | 0x0D => Some (into Control.Tab)
  | 0x0E => Some (into Misc.BackTick)
  | 0x11 => Some (into Modifier.LeftAlt)
  | 0x12 => Some (into Modifier.LeftShift)
  | 0x14 => Some (into Modifier.LeftControl)
  | 0x15 => Some (into Letter.Q)
  | 0x16 => Some (into Number.N1)
  | 0x1A => Some (into Letter.Z)
  | 0x1B => Some (into Letter.S)
  | 0x1C => Some (into Letter.A)
  | 0x1D => Some (into Letter.W)
  | 0x1E => Some (into Number.N2)
  | 0x21 => Some (into Letter.C)
  | 0x22 => Some (into Letter.X)
  | 0x23 => Some (into Letter.D)
  | 0x24 => Some (into Letter.E)
  | 0x25 => Some (into Number.N4)
  | 0x26 => Some (into Number.N3)
  | 0x29 => Some (into Control.Space)
  | 0x2A => Some (into Letter.V)
  | 0x2B => Some (into Letter.F)
  | 0x2C => Some (into Letter.T)
  | 0x2D => Some (into Letter.R)
  | 0x2E => Some (into Number.N5)
  | 0x31 => Some (into Letter.N)
  | 0x32 => Some (into Letter.B)
  | 0x33 => Some (into Letter.H)
  | 0x34 => Some (into Letter.G)
  | 0x35 => Some (into Letter.Y)
  | 0x36 => Some (into Number.N6)
  | 0x3A => Some (into Letter.M)
  | 0x3B => Some (into Letter.J)
  | 0x3C => Some (into Letter.U)
  | 0x3D => Some (into Number.N7)
  | 0x3E => Some (into Number.N8)
  | 0x41 => Some (into Misc.Comma)
  | 0x42 => Some (into Letter.K)
  | 0x43 => Some (into Letter.I)
  | 0x44 => Some (into Letter.O)
  | 0x45 => Some (into Number.N0)
  | 0x46 => Some (into Number.N9)
  | 0x49 => Some (into Misc.Period)
  | 0x4A => Some (into Misc.ForwardSlash)
  | 0x4B => Some (into Letter.L)
  | 0x4C => Some (into Misc.SemiColon)
  | 0x4D => Some (into Letter.P)
  | 0x4E => Some (into Misc.Hyphen)
  | 0x52 => Some (into Misc.Quote)
  | 0x54 => Some (into Misc.LeftBracket)
  | 0x55 => Some (into Misc.Equals)
  | 0x58 => Some (into Modifier.CapsLock)
  | 0x59 => Some (into Modifier.RightShift)
  | 0x5A => Some (into Control.Enter)
  | 0x5B => Some (into Misc.RightBracket)
  | 0x5D => Some (into Misc.BackSlash)
  | 0x66 => Some (into Control.Backspace)
  | 0x69 => Some (into Numpad.N1)
  | 0x6B => Some (into Numpad.N4)
  | 0x6C => Some (into Numpad.N7)
  | 0x70 => Some (into Numpad.N0)
  | 0x71 => Some (into Numpad.Period)
  | 0x72 => Some (into Numpad.N2)
  | 0x73 => Some (into Numpad.N5)
  | 0x74 => Some (into Numpad.N6)
  | 0x75 => Some (into Numpad.N8)
  | 0x76 => Some (into Control.Escape)
  | 0x77 => Some (into Modifier.NumLock)
  | 0x78 => Some (into Function.F11)
  | 0x79 => Some (into Numpad.Add)
  | 0x7A => Some (into Numpad.N3)
  | 0x7B => Some (into Numpad.Sub)
  | 0x7C => Some (into Numpad.Mul)
  | 0x7D => Some (into Numpad.N9)
  | 0x7E => Some (into Modifier.ScrollLock)
  | 0x83 => Some (into Function.F7)
  | 0xE1 => Some (into Control.PauseBreak)
  | _ => None
  end.

(** [map_extened_scancode]. *)
Definition map_extened_scancode (code : Z) : option VirtualKeyCode :=
  match code with
  | 0x11 => Some (into Modifier.RightAlt)
  | 0x14 => Some (into Modifier.RightControl)
  | 0x1F => Some (into Modifier.LeftWindows)
  | 0x27 => Some (into Modifier.RightWindows)
  | 0x2F => Some (into Misc.MenuKey)
  | 0x4A => Some (into Numpad.Div)
  | 0x5A => Some (into Numpad.Enter)
  | 0x69 => Some (into Control.End)
  | 0x6B => Some (into Control.ArrowLeft)
  | 0x6C => Some (into Control.Home)
  | 0x70 => Some (into Control.Insert)
  | 0x71 => Some (into Control.Delete)
  | 0x72 => Some (into Control.ArrowDown)
  | 0x74 => Some (into Control.ArrowRight)
  | 0x75 => Some (into Control.ArrowUp)
  | 0x7A => Some (into Control.PageDown)
  | 0x7D => Some (into Control.PageUp)
  | _ => None
  end.

Definition RELEASE_CODE : Z := 0xF0.
Definition EXTENDED_CODE : Z := 0xE0.

Module State.
Inductive State := Start | Release | Extended | ExtendedRelease.
End State.

(** [ScancodeSet2]. *)
Record ScancodeSet2 := mkSet2 { state : State.State }.

Definition ScancodeSet2_new : ScancodeSet2 := mkSet2 State.Start.

(** [Scancode::add_byte]. *)
Definition add_byte (self : ScancodeSet2) (code : Z) : option KeyboardEvent * ScancodeSet2 :=
  if code =? 0xFA then (None, self)
  else
    match state self with
    | State.Start =>
        if code =? RELEASE_CODE then (None, mkSet2 State.Release)
        else if code =? EXTENDED_CODE then (None, mkSet2 State.Extended)
        else (match map_scancode code with Some key => Some (Down key) | None => None end, self)
    | State.Release =>
        (match map_scancode code with Some key => Some (Up key) | None => None end, mkSet2 State.Start)
    | State.Extended =>
        if code =? RELEASE_CODE then (None, mkSet2 State.ExtendedRelease)
        else (match map_extened_scancode code with Some key => Some (Down key) | None => None end, mkSet2 State.Start)
    | State.ExtendedRelease =>
        (match map_extened_scancode code with Some key => Some (Up key) | None => None end, mkSet2 State.Start)
    end.

(** ** The US key map *)

Definition get_unicode (keycode : VirtualKeyCode) (lshift rshift caps numlock : bool) : Z :=
  let shift := lshift || rshift in
  let caps_shift := xorb shift caps in
  match keycode with
  | KNumber number =>
      if shift then
        match number with
        | Number.N0 => char ")"
        | Number.N1 => char "!"
        | Number.N2 => char "@"
        | Number.N3 => char "#"
        | Number.N4 => char "$"
        | Number.N5 => char "%"
        | Number.N6 => char "^"
        | Number.N7 => char "&"
        | Number.N8 => char "*"
        | Number.N9 => char "("
        end
      else
        match number with
        | Number.N0 => char "0"
        | Number.N1 => char "1"
        | Number.N2 => char "2"
        | Number.N3 => char "3"
        | Number.N4 => char "4"
        | Number.N5 => char "5"
        | Number.N6 => char "6"
        | Number.N7 => char "7"
        | Number.N8 => char "8"
        | Number.N9 => char "9"
        end
  | KNumpad key =>
      if numlock then
        match key with
        | Numpad.N0 => char "0"
        | Numpad.N1 => char "1"
        | Numpad.N2 => char "2"
        | Numpad.N3 => char "3"
        | Numpad.N4 => char "4"
        | Numpad.N5 => char "5"
        | Numpad.N6 => char "6"
        | Numpad.N7 => char "7"
        | Numpad.N8 => char "8"
        | Numpad.N9 => char "9"
        | Numpad.Enter => 10
        | Numpad.Period => char "."
        | _ => 0
        end
      else
        match key with
        | Numpad.N5 => char "5"
        | Numpad.Enter => 10
        | Numpad.Period => char "."
        | _ => 0
        end
  | KLetter letter =>
      if caps_shift then
        match letter with
        | Letter.A => char "A"
        | Letter.B => char "B"
        | Letter.C => char "C"
        | Letter.D => char "D"
        | Letter.E => char "E"
        | Letter.F => char "F"
        | Letter.G => char "G"
        | Letter.H => char "H"
        | Letter.I => char "I"
        | Letter.J => char "J"
        | Letter.K => char "K"
        | Letter.L => char "L"
        | Letter.M => char "M"
        | Letter.N => char "N"
        | Letter.O => char "O"
        | Letter.P => char "P"
        | Letter.Q => char "Q"
        | Letter.R => char "R"
        | Letter.S => char "S"
        | Letter.T => char "T"
        | Letter.U => char "U"
        | Letter.V => char "V"
        | Letter.W => char "W"
        | Letter.X => char "X"
        | Letter.Y => char "Y"
        | Letter.Z => char "Z"
        end
      else
        match letter with
        | Letter.A => char "a"
        | Letter.B => char "b"
        | Letter.C => char "c"
        | Letter.D => char "d"
        | Letter.E => char "e"
        | Letter.F => char "f"
        | Letter.G => char "g"
        | Letter.H => char "h"
        | Letter.I => char "i"
        | Letter.J => char "j"
        | Letter.K => char "k"
        | Letter.L => char "l"
        | Letter.M => char "m"
        | Letter.N => char "n"
        | Letter.O => char "o"
        | Letter.P => char "p"
        | Letter.Q => char "q"
        | Letter.R => char "r"
        | Letter.S => char "s"
        | Letter.T => char "t"
        | Letter.U => char "u"
        | Letter.V => char "v"
        | Letter.W => char "w"
        | Letter.X => char "x"
        | Letter.Y => char "y"
        | Letter.Z => char "z"
        end
  | KControl key =>
      match key with
        | Control.Enter => 10
        | Control.Space => char " "
        | Control.Backspace => 8
        | Control.Delete => 127
        | Control.Tab => 9
        | Control.ArrowUp => 0x2191
        | Control.ArrowDown => 0x2193
        | _ => 0
        end
  | KMisc key =>
      if shift then
        match key with
        | Misc.Hyphen => char "_"
        | Misc.Equals => char "+"
        | Misc.Comma => char "<"
        | Misc.Period => char ">"
        | Misc.SemiColon => char ":"
        | Misc.ForwardSlash => char "?"
        | Misc.BackSlash => char "|"
        | Misc.BackTick => char "~"
        | Misc.LeftBracket => char "{"
        | Misc.RightBracket => char "}"
        | Misc.Quote => 34
        | Misc.MenuKey => 0
        end
      else
        match key with
        | Misc.Hyphen => char "-"
        | Misc.Equals => char "="
        | Misc.Comma => char ","
        | Misc.Period => char "."
        | Misc.SemiColon => char ";"
        | Misc.ForwardSlash => char "/"
        | Misc.BackSlash => char "\"
        | Misc.BackTick => char "`"
        | Misc.LeftBracket => char "["
        | Misc.RightBracket => char "]"
        | Misc.Quote => char "'"
        | Misc.MenuKey => 0
        end
  | KFunction _ => 0
  | KModifier _ => 0
  end.

(** ** Raw key codes and [translate_raw_keycode] *)

Module RawKeyCode.
Inductive RawKeyCode :=
  | Escape | CapsLock | Backspace | Enter | LeftShift | RightShift | LeftControl | RightControl
  | LeftWindows | RightWindows | LeftAlt | RightAlt | MenuKey | NumLock | ScrollLock | Insert
  | Home | PageUp | Delete | End | PageDown | PauseBreak | F1 | F2 | F3 | F4 | F5 | F6 | F7 | F8
  | F9 | F10 | F11 | F12 | Num1 | Num2 | Num3 | Num4 | Num5 | Num6 | Num7 | Num8 | Num9 | Num0 | A
  | B | C | D | E | F | G | H | I | J | K | L | M | N | O | P | Q | R | S | T | U | V | W | X | Y
  | Z | BackTick | Hyphen | Equals | LeftBracket | RightBracket | BackSlash | SemiColon | Quote
  | Comma | Period | Slash | Tab | Space | Numpad1 | Numpad2 | Numpad3 | Numpad4 | Numpad5
  | Numpad6 | Numpad7 | Numpad8 | Numpad9 | Numpad0 | NumpadSlash | NumpadMul | NumpadMinus
  | NumpadPlus | NumpadEnter | NumpadPeriod | UpArrow | LeftArrow | DownArrow | RightArrow.
Definition all : list RawKeyCode := [Escape; CapsLock; Backspace; Enter; LeftShift; RightShift; LeftControl; RightControl; LeftWindows; RightWindows; LeftAlt; RightAlt; MenuKey; NumLock; ScrollLock; Insert; Home; PageUp; Delete; End; PageDown; PauseBreak; F1; F2; F3; F4; F5; F6; F7; F8; F9; F10; F11; F12; Num1; Num2; Num3; Num4; Num5; Num6; Num7; Num8; Num9; Num0; A; B; C; D; E; F; G; H; I; J; K; L; M; N; O; P; Q; R; S; T; U; V; W; X; Y; Z; BackTick; Hyphen; Equals; LeftBracket; RightBracket; BackSlash; SemiColon; Quote; Comma; Period; Slash; Tab; Space; Numpad1; Numpad2; Numpad3; Numpad4; Numpad5; Numpad6; Numpad7; Numpad8; Numpad9; Numpad0; NumpadSlash; NumpadMul; NumpadMinus; NumpadPlus; NumpadEnter; NumpadPeriod; UpArrow; LeftArrow; DownArrow; RightArrow].
End RawKeyCode.

Inductive RawKeyCodeState := RawUp (k : RawKeyCode.RawKeyCode) | RawDown (k : RawKeyCode.RawKeyCode).

Module SpecialCodes.
Inductive SpecialCodes :=
  | Insert | Home | PageUp | PageDown | Delete | End | UpArrow | LeftArrow | RightArrow | DownArrow
  | Enter | Backspace.
#[global] Instance SpecialCodes_eq_dec : EqDecision SpecialCodes.
Proof. solve_decision. Defined.
Definition all : list SpecialCodes := [Insert; Home; PageUp; PageDown; Delete; End; UpArrow; LeftArrow; RightArrow; DownArrow; Enter; Backspace].
End SpecialCodes.

Inductive KeyCode := Unicode (c : Z) | Special (s : SpecialCodes.SpecialCodes).

(** What [Display] writes. *)
Definition SpecialCodes_fmt (s : SpecialCodes.SpecialCodes) : list Z :=
  match s with
  | SpecialCodes.Insert => char <$> String.list_ascii_of_string "Insert"
  | SpecialCodes.Home => char <$> String.list_ascii_of_string "Home"
  | SpecialCodes.PageUp => char <$> String.list_ascii_of_string "PageUp"
  | SpecialCodes.PageDown => char <$> String.list_ascii_of_string "PageDown"
  | SpecialCodes.Delete => [127]
  | SpecialCodes.End => char <$> String.list_ascii_of_string "End"
  | SpecialCodes.UpArrow => [0x2191]
  | SpecialCodes.DownArrow => [0x2193]
  | SpecialCodes.LeftArrow => [0x2190]
  | SpecialCodes.RightArrow => [0x2192]
  | SpecialCodes.Enter => [10]
  | SpecialCodes.Backspace => [8]
  end.

Definition translate_raw_keycode (code : RawKeyCode.RawKeyCode) (shift caps num_lock : bool) : KeyCode :=
  let normal_shift := if caps then negb shift else shift in
  match code with
  | RawKeyCode.Num1 => Unicode (if shift then char "!" else char "1")
  | RawKeyCode.Num2 => Unicode (if shift then char "@" else char "2")
  | RawKeyCode.Num3 => Unicode (if shift then char "#" else char "3")
  | RawKeyCode.Num4 => Unicode (if shift then char "$" else char "4")
  | RawKeyCode.Num5 => Unicode (if shift then char "%" else char "5")
  | RawKeyCode.Num6 => Unicode (if shift then char "^" else char "6")
  | RawKeyCode.Num7 => Unicode (if shift then char "&" else char "7")
  | RawKeyCode.Num8 => Unicode (if shift then char "*" else char "8")
  | RawKeyCode.Num9 => Unicode (if shift then char "(" else char "9")
  | RawKeyCode.Num0 => Unicode (if shift then char ")" else char "0")
  | RawKeyCode.Numpad0 => if num_lock then Unicode (char "0") else Special SpecialCodes.Insert
  | RawKeyCode.Numpad1 => if num_lock then Unicode (char "1") else Special SpecialCodes.End
  | RawKeyCode.Numpad2 => if num_lock then Unicode (char "2") else Special SpecialCodes.DownArrow
  | RawKeyCode.Numpad3 => if num_lock then Unicode (char "3") else Special SpecialCodes.PageDown
  | RawKeyCode.Numpad4 => if num_lock then Unicode (char "4") else Special SpecialCodes.LeftArrow
  | RawKeyCode.Numpad5 => Unicode (char "5")
  | RawKeyCode.Numpad6 => if num_lock then Unicode (char "6") else Special SpecialCodes.RightArrow
  | RawKeyCode.Numpad7 => if num_lock then Unicode (char "7") else Special SpecialCodes.Home
  | RawKeyCode.Numpad8 => if num_lock then Unicode (char "8") else Special SpecialCodes.UpArrow
  | RawKeyCode.Numpad9 => if num_lock then Unicode (char "9") else Special SpecialCodes.PageUp
  | RawKeyCode.A => Unicode (if normal_shift then char "A" else char "a")
  | RawKeyCode.B => Unicode (if normal_shift then char "B" else char "b")
  | RawKeyCode.C => Unicode (if normal_shift then char "C" else char "c")
  | RawKeyCode.D => Unicode (if normal_shift then char "D" else char "d")
  | RawKeyCode.E => Unicode (if normal_shift then char "E" else char "e")
  | RawKeyCode.F => Unicode (if normal_shift then char "F" else char "f")
  | RawKeyCode.G => Unicode (if normal_shift then char "G" else char "g")
  | RawKeyCode.H => Unicode (if normal_shift then char "H" else char "h")
  | RawKeyCode.I => Unicode (if normal_shift then char "I" else char "i")
  | RawKeyCode.J => Unicode (if normal_shift then char "J" else char "j")
  | RawKeyCode.K => Unicode (if normal_shift then char "K" else char "k")
  | RawKeyCode.L => Unicode (if normal_shift then char "L" else char "l")
  | RawKeyCode.M => Unicode (if normal_shift then char "M" else char "m")
  | RawKeyCode.N => Unicode (if normal_shift then char "N" else char "n")
  | RawKeyCode.O => Unicode (if normal_shift then char "O" else char "o")
  | RawKeyCode.P => Unicode (if normal_shift then char "P" else char "p")
  | RawKeyCode.Q => Unicode (if normal_shift then char "Q" else char "q")
  | RawKeyCode.R => Unicode (if normal_shift then char "R" else char "r")
  | RawKeyCode.S => Unicode (if normal_shift then char "S" else char "s")
  | RawKeyCode.T => Unicode (if normal_shift then char "T" else char "t")
  | RawKeyCode.U => Unicode (if normal_shift then char "U" else char "u")
  | RawKeyCode.V => Unicode (if normal_shift then char "V" else char "v")
  | RawKeyCode.W => Unicode (if normal_shift then char "W" else char "w")
  | RawKeyCode.X => Unicode (if normal_shift then char "X" else char "x")
  | RawKeyCode.Y => Unicode (if normal_shift then char "Y" else char "y")
  | RawKeyCode.Z => Unicode (if normal_shift then char "Z" else char "z")
  | RawKeyCode.Space => Unicode (char " ")
  | RawKeyCode.Tab => Unicode (char " ")
  | RawKeyCode.Enter => Special SpecialCodes.Enter
  | RawKeyCode.Backspace => Special SpecialCodes.Backspace
  | RawKeyCode.BackTick => Unicode (if normal_shift then char "~" else char "`")
  | RawKeyCode.Hyphen => Unicode (if normal_shift then char "_" else char "-")
  | RawKeyCode.Equals => Unicode (if normal_shift then char "+" else char "=")
  | RawKeyCode.LeftBracket => Unicode (if normal_shift then char "{" else char "[")
  | RawKeyCode.RightBracket => Unicode (if normal_shift then char "{" else char "]")
  | RawKeyCode.BackSlash => Unicode (if normal_shift then char "|" else char "\")
  | RawKeyCode.SemiColon => Unicode (if normal_shift then char ":" else char ";")
  | RawKeyCode.Quote => Unicode (if normal_shift then 34 else char "'")
  | RawKeyCode.Comma => Unicode (if normal_shift then char "<" else char ",")
  | RawKeyCode.Period => Unicode (if normal_shift then char ">" else char ".")
  | RawKeyCode.Slash => Unicode (if normal_shift then char "?" else char "/")
  | RawKeyCode.NumpadSlash => Unicode (char "/")
  | RawKeyCode.NumpadMul => Unicode (char "*")
  | RawKeyCode.NumpadMinus => Unicode (char "-")
  | RawKeyCode.NumpadPlus => Unicode (char "+")
  | RawKeyCode.NumpadEnter => Special SpecialCodes.Enter
  | RawKeyCode.NumpadPeriod => if num_lock then Unicode (char ".") else Special SpecialCodes.Delete
  | RawKeyCode.UpArrow => Special SpecialCodes.UpArrow
  | RawKeyCode.DownArrow => Special SpecialCodes.DownArrow
  | RawKeyCode.LeftArrow => Special SpecialCodes.LeftArrow
  | RawKeyCode.RightArrow => Special SpecialCodes.RightArrow
  | _ => Unicode 0
  end.
(** ** What the decoder is meant to undo *)

(** Scan code set 2 as the makers of keyboards publish it: the code of each key with one,
    and whether the prefix 0xE0 comes before it.  Print Screen and Pause send longer
    sequences (below); there are no F0 and F13 to F24. *)
Definition scancode_of (k : VirtualKeyCode) : option (bool * Z) :=
  match k with
  | KLetter l => Some (false,
      match l with
      | Letter.A => 0x1C | Letter.B => 0x32 | Letter.C => 0x21 | Letter.D => 0x23 | Letter.E => 0x24
      | Letter.F => 0x2B | Letter.G => 0x34 | Letter.H => 0x33 | Letter.I => 0x43 | Letter.J => 0x3B
      | Letter.K => 0x42 | Letter.L => 0x4B | Letter.M => 0x3A | Letter.N => 0x31 | Letter.O => 0x44
      | Letter.P => 0x4D | Letter.Q => 0x15 | Letter.R => 0x2D | Letter.S => 0x1B | Letter.T => 0x2C
      | Letter.U => 0x3C | Letter.V => 0x2A | Letter.W => 0x1D | Letter.X => 0x22 | Letter.Y => 0x35
      | Letter.Z => 0x1A
      end)
  | KNumber n => Some (false,
      match n with
      | Number.N0 => 0x45 | Number.N1 => 0x16 | Number.N2 => 0x1E | Number.N3 => 0x26 | Number.N4 => 0x25
      | Number.N5 => 0x2E | Number.N6 => 0x36 | Number.N7 => 0x3D | Number.N8 => 0x3E | Number.N9 => 0x46
      end)
  | KNumpad n => Some
      match n with
      | Numpad.N0 => (false, 0x70) | Numpad.N1 => (false, 0x69) | Numpad.N2 => (false, 0x72) | Numpad.N3 => (false, 0x7A)
      | Numpad.N4 => (false, 0x6B) | Numpad.N5 => (false, 0x73) | Numpad.N6 => (false, 0x74) | Numpad.N7 => (false, 0x6C)
      | Numpad.N8 => (false, 0x75) | Numpad.N9 => (false, 0x7D) | Numpad.Div => (true, 0x4A) | Numpad.Mul => (false, 0x7C)
      | Numpad.Sub => (false, 0x7B) | Numpad.Add => (false, 0x79) | Numpad.Enter => (true, 0x5A)
      | Numpad.Period => (false, 0x71)
      end
  | KMisc m => Some
      match m with
      | Misc.BackTick => (false, 0x0E) | Misc.Hyphen => (false, 0x4E) | Misc.Equals => (false, 0x55)
      | Misc.LeftBracket => (false, 0x54) | Misc.RightBracket => (false, 0x5B) | Misc.BackSlash => (false, 0x5D)
      | Misc.SemiColon => (false, 0x4C) | Misc.Quote => (false, 0x52) | Misc.Comma => (false, 0x41)
      | Misc.Period => (false, 0x49) | Misc.ForwardSlash => (false, 0x4A) | Misc.MenuKey => (true, 0x2F)
      end
  | KModifier m => Some
      match m with
      | Modifier.LeftShift => (false, 0x12) | Modifier.RightShift => (false, 0x59)
      | Modifier.LeftAlt => (false, 0x11) | Modifier.RightAlt => (true, 0x11)
      | Modifier.LeftControl => (false, 0x14) | Modifier.RightControl => (true, 0x14)
      | Modifier.LeftWindows => (true, 0x1F) | Modifier.RightWindows => (true, 0x27)
      | Modifier.CapsLock => (false, 0x58) | Modifier.ScrollLock => (false, 0x7E) | Modifier.NumLock => (false, 0x77)
      end
  | KControl c =>
      match c with
      | Control.Escape => Some (false, 0x76) | Control.Enter => Some (false, 0x5A) | Control.Space => Some (false, 0x29)
      | Control.Backspace => Some (false, 0x66) | Control.Tab => Some (false, 0x0D)
      | Control.Insert => Some (true, 0x70) | Control.Delete => Some (true, 0x71)
      | Control.Home => Some (true, 0x6C) | Control.End => Some (true, 0x69)
      | Control.PageUp => Some (true, 0x7D) | Control.PageDown => Some (true, 0x7A)
      | Control.ArrowUp => Some (true, 0x75) | Control.ArrowDown => Some (true, 0x72)
      | Control.ArrowLeft => Some (true, 0x6B) | Control.ArrowRight => Some (true, 0x74)
      | Control.PrintScreen | Control.PauseBreak => None
      end
  | KFunction f =>
      match f with
      | Function.F1 => Some (false, 0x05) | Function.F2 => Some (false, 0x06) | Function.F3 => Some (false, 0x04)
      | Function.F4 => Some (false, 0x0C) | Function.F5 => Some (false, 0x03) | Function.F6 => Some (false, 0x0B)
      | Function.F7 => Some (false, 0x83) | Function.F8 => Some (false, 0x0A) | Function.F9 => Some (false, 0x01)
      | Function.F10 => Some (false, 0x09) | Function.F11 => Some (false, 0x78) | Function.F12 => Some (false, 0x07)
      | _ => None
      end
  end.

(** The bytes a set-2 keyboard sends for an event: 0xE0 before an extended code, 0xF0
    before the code of a key that is let go. *)
Definition encode_event (e : KeyboardEvent) : option (list Z) :=
  let '(k, release) := match e with Down k => (k, []) | Up k => (k, [0xF0]) end in
  match scancode_of k with
  | Some (ext, c) => Some ((if ext : bool then [0xE0] else []) ++ release ++ [c])
  | None => None
  end.

Fixpoint encode (es : list KeyboardEvent) : option (list Z) :=
  match es with
  | [] => Some []
  | e :: es => b ← encode_event e; bs ← encode es; Some (b ++ bs)
  end.

(** The bytes as the driver sees them: command acknowledgements may arrive
    anywhere, also inside a sequence. *)
Inductive with_acks : list Z → list Z → Prop :=
  | wa_nil : with_acks [] []
  | wa_byte b l l' : with_acks l l' → with_acks (b :: l) (b :: l')
  | wa_ack l l' : with_acks l l' → with_acks l (0xFA :: l').

Fixpoint add_bytes (d : ScancodeSet2) (bs : list Z) : list KeyboardEvent * ScancodeSet2 :=
  match bs with
  | [] => ([], d)
  | b :: bs =>
      let '(o, d) := add_byte d b in
      let '(es, d) := add_bytes d bs in
      (match o with Some e => e :: es | None => es end, d)
  end.

(** ** Lemmas on the tables *)
Lemma map_scancode_range c k : map_scancode c = Some k → 0 <= c < 256 ∧ c ≠ 0xFA ∧ c ≠ RELEASE_CODE ∧ c ≠ EXTENDED_CODE.
Proof.
  destruct c as [|p|p]; [done| |done]. unfold map_scancode.
  do 8 (destruct p as [p|p|]; try done).
Qed.

Lemma map_extened_scancode_range c k : map_extened_scancode c = Some k → 0 <= c < 256 ∧ c ≠ 0xFA ∧ c ≠ RELEASE_CODE.
Proof.
  destruct c as [|p|p]; [done| |done]. unfold map_extened_scancode.
  do 8 (destruct p as [p|p|]; try done).
Qed.

Lemma scancode_of_spec k ext c :
  scancode_of k = Some (ext, c) → (if ext then map_extened_scancode c else map_scancode c) = Some k.
Proof.
  by destruct k as [[]|[]|[]|[]|[]|[]|[]]; cbn; intros [= <- <-].
Qed.

Lemma add_bytes_app bs1 : ∀ d bs2,
  add_bytes d (bs1 ++ bs2) =
    let '(e1, d) := add_bytes d bs1 in let '(e2, d) := add_bytes d bs2 in (e1 ++ e2, d).
Proof.
  induction bs1 as [|b bs1 IH]; intros d bs2; cbn [add_bytes app].
  - by destruct (add_bytes d bs2).
  - destruct (add_byte d b) as [o d1]. rewrite IH.
    destruct (add_bytes d1 bs1) as [e1 d2]. destruct (add_bytes d2 bs2) as [e2 d3]. by destruct o.
Qed.

(** Acknowledgements leave the decoder as it is. *)
Lemma add_bytes_acks l l' : with_acks l l' → ∀ d, add_bytes d l' = add_bytes d l.
Proof.
  induction 1 as [|b l l' H IH|l l' H IH]; intros d; cbn [add_bytes]; [done| |].
  - destruct (add_byte d b) as [o d1]. by rewrite IH.
  - change (add_byte d 0xFA) with (@None KeyboardEvent, d). cbv iota beta. rewrite IH. by destruct (add_bytes d l).
Qed.

Lemma decode_event e b : encode_event e = Some b → add_bytes ScancodeSet2_new b = ([e], ScancodeSet2_new).
Proof.
  assert (Hne : ∀ a b, a ≠ b → (a =? b) = false) by (intros; by apply Z.eqb_neq).
  unfold encode_event. destruct e as [k|k]; cbn;
    destruct (scancode_of k) as [[[] c]|] eqn:E; try done; intros [= <-]; pose proof (scancode_of_spec _ _ _ E) as Hc;
    first [pose proof (map_extened_scancode_range _ _ Hc) as (_ & H1 & H2) |
           pose proof (map_scancode_range _ _ Hc) as (_ & H1 & H2 & H3)];
    unfold add_bytes, add_byte; cbn; rewrite ?(Hne c 250), ?(Hne c RELEASE_CODE), ?(Hne c EXTENDED_CODE), ?Hc by done; done.
Qed.

Lemma decode_encode es : ∀ bs, encode es = Some bs → add_bytes ScancodeSet2_new bs = (es, ScancodeSet2_new).
Proof.
  induction es as [|e es IH]; intros bs; cbn [encode]; [by intros [= <-]|].
  destruct (encode_event e) as [b|] eqn:E; [|done]. destruct (encode es) as [bs'|] eqn:E'; [|done].
  cbn. intros [= <-]. rewrite add_bytes_app, (decode_event _ _ E), (IH bs' eq_refl). done.
Qed.

Definition codes : list Z := seqZ 0 256.

Definition published (c : Z) : bool :=
  match map_scancode c with Some k => (c =? 0xE1) || bool_decide (scancode_of k = Some (false, c)) | None => true end &&
  match map_extened_scancode c with Some k => bool_decide (scancode_of k = Some (true, c)) | None => true end.

Lemma codes_published c : 0 <= c < 256 → published c = true.
Proof.
  intros Hc. assert (H : forallb published codes = true) by (vm_compute; reflexivity).
  rewrite List.forallb_forall in H. apply H, list_elem_of_In, elem_of_seqZ. lia.
Qed.

(** Every code the decoder knows is the published one of its key, the first byte of the
    sequence of Pause excepted. *)
Lemma scancode_of_unique c k :
  (map_scancode c = Some k → c = 0xE1 ∨ scancode_of k = Some (false, c)) ∧
  (map_extened_scancode c = Some k → scancode_of k = Some (true, c)).
Proof.
  split; intros E.
  - destruct (map_scancode_range _ _ E) as [Hr _]. pose proof (codes_published c Hr) as H. unfold published in H.
    rewrite E in H. apply andb_true_iff in H as [[H%Z.eqb_eq|H%bool_decide_eq_true]%orb_true_iff _]; [by left|by right].
  - destruct (map_extened_scancode_range _ _ E) as [Hr _]. pose proof (codes_published c Hr) as H. unfold published in H.
    rewrite E in H. apply andb_true_iff in H as [_ H]. by apply bool_decide_eq_true in H.
Qed.

(** C36: the decoder undoes the encoding of scan code set 2: the published bytes of any
    sequence of presses and releases of the keys with a code, with acknowledgement bytes
    anywhere in between, decode to exactly these events and leave the decoder in its start
    state; and every code the decoder knows, 0xE1 excepted, is the published code of the
    key it is decoded to. *)
Theorem keyboard_decode_encode es bs bs' :
  encode es = Some bs → with_acks bs bs' →
  add_bytes ScancodeSet2_new bs' = (es, ScancodeSet2_new) ∧
  ∀ c k, (map_scancode c = Some k → c = 0xE1 ∨ scancode_of k = Some (false, c)) ∧
         (map_extened_scancode c = Some k → scancode_of k = Some (true, c)).
Proof.
  intros He Ha. split; [|intros; apply scancode_of_unique].
  rewrite (add_bytes_acks _ _ Ha). by apply decode_encode.
Qed.

(** Shift down, A down, A up, right alt up, with an acknowledgement in the middle
    of a release and of an extended code. *)
Lemma keyboard_decode_encode_witness :
  add_bytes ScancodeSet2_new [0x12; 0x1C; 0xF0; 0xFA; 0x1C; 0xE0; 0xF0; 0xFA; 0x11] =
    ([Down (into Modifier.LeftShift); Down (into Letter.A); Up (into Letter.A); Up (into Modifier.RightAlt)], ScancodeSet2_new).
Proof.
  eapply (keyboard_decode_encode _ [0x12; 0x1C; 0xF0; 0x1C; 0xE0; 0xF0; 0x11]); [vm_compute; reflexivity|].
  repeat first [apply wa_nil | apply wa_ack | apply wa_byte].
Defined.

(** The two keys with longer sequences: Pause, which has no release, is decoded to itself
    pressed twice and never let go, and to Control and Num Lock pressed and let go between;
    Print Screen is decoded to nothing. *)
Definition pause_sequence : list Z := [0xE1; 0x14; 0x77; 0xE1; 0xF0; 0x14; 0xF0; 0x77].
Definition print_screen_make : list Z := [0xE0; 0x12; 0xE0; 0x7C].
Definition print_screen_break : list Z := [0xE0; 0xF0; 0x7C; 0xE0; 0xF0; 0x12].

Lemma long_sequences_misread :
  add_bytes ScancodeSet2_new pause_sequence =
    ([Down (into Control.PauseBreak); Down (into Modifier.LeftControl); Down (into Modifier.NumLock);
      Down (into Control.PauseBreak); Up (into Modifier.LeftControl); Up (into Modifier.NumLock)], ScancodeSet2_new) ∧
  add_bytes ScancodeSet2_new (print_screen_make ++ print_screen_break) = ([], ScancodeSet2_new).
Proof. split; vm_compute; reflexivity. Qed.

(** ** The US key map *)

Definition letter_index (l : Letter.Letter) : Z :=
  match List.find (λ p, bool_decide (snd p = l)) (zip (seqZ 0 26) Letter.all) with Some (i, _) => i | None => -1 end.

(** The modifiers act on the US key map as the layout prescribes: the two
    shift keys are interchangeable; a letter is its ASCII capital exactly when one
    of shift and caps lock is on and the small letter otherwise; caps lock changes
    no other key, num lock only the number pad, and shift neither the number pad
    nor the control keys. *)
Theorem get_unicode_modifiers k ls rs caps num :
  get_unicode k ls rs caps num = get_unicode k (ls || rs) false caps num ∧
  match k with
  | KLetter l => get_unicode k ls rs caps num = (if xorb (ls || rs) caps then 65 else 97) + letter_index l
  | KNumpad _ => get_unicode k ls rs caps num = get_unicode k false false false num
  | KNumber _ | KMisc _ => get_unicode k ls rs caps num = get_unicode k ls rs false false
  | KControl _ | KFunction _ | KModifier _ => get_unicode k ls rs caps num = get_unicode k false false false false
  end.
Proof.
  split; [unfold get_unicode; by rewrite orb_false_r|].
  destruct k as [x|x|x|x|x|x|x]; try done. unfold get_unicode.
  destruct (xorb (ls || rs) caps); destruct x; reflexivity.
Qed.

Definition is_some {X} (o : option X) : bool := match o with Some _ => true | None => false end.

Lemma is_some_true {X} (o : option X) : is_some o = true → ∃ x, o = Some x.
Proof. destruct o; [by eexists|done]. Qed.

(** The keys with a position on the keyboard. *)
Definition decodable_keys : list VirtualKeyCode := omap map_scancode codes ++ omap map_extened_scancode codes.

Definition types (c : Z) (x : VirtualKeyCode * bool) : bool :=
  let '(k, shift) := x in
  (get_unicode k shift false false false =? c) && bool_decide (is_Some (scancode_of k)).

Definition typing (c : Z) : option (VirtualKeyCode * bool) :=
  List.find (types c) (k ← decodable_keys; [(k, false); (k, true)]).

Lemma printable_is_typable : List.forallb (λ c, is_some (typing c)) (seqZ 32 95) = true.
Proof. vm_compute. reflexivity. Qed.

Lemma typing_spec c k shift :
  typing c = Some (k, shift) → get_unicode k shift false false false = c ∧ is_Some (scancode_of k).
Proof.
  unfold typing. intros H. apply find_some in H as [_ H]. unfold types in H.
  apply andb_true_iff in H as [H1 H2]. by apply Z.eqb_eq in H1; apply bool_decide_eq_true in H2.
Qed.

Lemma encode_event_some k : is_Some (scancode_of k) → ∃ bs, encode_event (Down k) = Some bs.
Proof. unfold encode_event. intros [[ext c] ->]. by eexists. Qed.

(** Every printable ASCII character can be typed: some key's code, sent by the
    keyboard, is decoded to a key press that the US map turns into the character,
    with or without shift and with the locks off. *)
Theorem printable_typable c :
  32 <= c < 127 →
  ∃ bs k shift, add_bytes ScancodeSet2_new bs = ([Down k], ScancodeSet2_new) ∧ get_unicode k shift false false false = c.
Proof.
  intros Hc. pose proof printable_is_typable as H. rewrite List.forallb_forall in H. specialize (H c).
  rewrite <- list_elem_of_In, elem_of_seqZ in H. specialize (H ltac:(lia)).
  apply is_some_true in H as [[k shift] E].
  destruct (typing_spec _ _ _ E) as [Hu Hs]. destruct (encode_event_some k Hs) as [bs He].
  exists bs, k, shift. split; [by apply decode_event|exact Hu].
Qed.

Lemma printable_typable_witness :
  ∃ bs k shift, add_bytes ScancodeSet2_new bs = ([Down k], ScancodeSet2_new) ∧ get_unicode k shift false false false = char "}".
Proof. apply (printable_typable (char "}")). vm_compute. split; [discriminate|reflexivity]. Defined.

(** [translate_raw_keycode] is not such a map: no key and no state of the
    modifiers yields a closing brace (the shifted right bracket yields an opening
    one), and caps lock turns punctuation keys into their shifted characters. *)
Theorem translate_misses_right_brace code shift caps num_lock :
  translate_raw_keycode code shift caps num_lock ≠ Unicode (char "}") ∧
  translate_raw_keycode RawKeyCode.SemiColon false true num_lock = Unicode (char ":").
Proof. split; [|done]. by destruct code, shift, caps, num_lock. Qed.
