(* ===== verification/Ps2.v ===== *)
(** * The PS/2 driver

    [ps2/src/main.rs] (the controller), [ps2/src/keyboard.rs] and
    [ps2/src/mouse.rs].  The 8042 controller behind the I/O ports is hardware: a
    parameter [PortIO] of the model.  Every method runs in the monad [io] of
    computations that change the driver and the device and may fail with an
    error message, as the [?] of the source threads it. *)
From S2P Require Import Prelude Keyboard.

(** ** The ports *)

(** Port 0x64 read and written, port 0x60 read and written. *)
Class PortIO (D : Type) := {
  status_port_read : D → Z * D;
  command_port_write : D → Z → D;
  data_port_read : D → Z * D;
  data_port_write : D → Z → D;
}.

(** ** The driver's state *)
Inductive MouseTypeId := Standard | WithScrollWheel | WithExtraButtons.

Inductive PS2MousePackets :=
  | PNone
  | POne (a : Z)
  | PTwo (a b : Z)
  | PThree (a b c : Z).

Record Mouse := mkMouse { mouse_type : MouseTypeId; packet_state : PS2MousePackets }.

Definition Mouse_new : Mouse := mkMouse Standard PNone.

Record MousePacket := mkPacket { left : bool; right : bool; middle : bool; x_mov : Z; y_mov : Z }.

Inductive InputServiceMessage :=
  | MKeyboardEvent (e : KeyboardEvent)
  | MMouseEvent (p : MousePacket).

(** [PS2Controller], with the device its [PS2Command]s talk to; [Keyboard] is
    its decoder. *)
Record PS2Controller (D : Type) := mkCtl { dev : D; keyboard : ScancodeSet2; mouse : Mouse }.
Arguments mkCtl {D}.
Arguments dev {D}.
Arguments keyboard {D}.
Arguments mouse {D}.

Definition with_dev {D} (c : PS2Controller D) (d : D) : PS2Controller D := mkCtl d (keyboard c) (mouse c).

Definition PS2Controller_new {D} (d : D) : PS2Controller D := mkCtl d ScancodeSet2_new Mouse_new.

(** ** The monad *)
Definition io (D A : Type) : Type := PS2Controller D → result A string * PS2Controller D.

#[export] Instance io_ret D : MRet (io D) := λ A a c, (Ok a, c).
#[export] Instance io_bind D : MBind (io D) := λ A B f m c,
  match m c with (Ok a, c) => f a c | (Err e, c) => (Err e, c) end.

Definition fail {D A} (e : string) : io D A := λ c, (Err e, c).

(** The result of [m] as a value, as for a [Result] that is not propagated. *)
Definition try_ {D A} (m : io D A) : io D (result A string) := λ c, let '(r, c) := m c in (Ok r, c).

Section driver.
Context {D : Type} `{PortIO D}.

Definition status_read : io D Z := λ c, let '(v, d) := status_port_read (dev c) in (Ok v, with_dev c d).
Definition data_read : io D Z := λ c, let '(v, d) := data_port_read (dev c) in (Ok v, with_dev c d).
Definition command_out (v : Z) : io D unit := λ c, (Ok tt, with_dev c (command_port_write (dev c) v)).
Definition data_out (v : Z) : io D unit := λ c, (Ok tt, with_dev c (data_port_write (dev c) v)).

(** ** [PS2Command] *)
Definition timeout : nat := Z.to_nat 100000.

Fixpoint read_loop (n : nat) : io D Z :=
  match n with
  | O => fail "PS2 read timeout"
  | S n => test ← status_read; if Z.land test 1 =? 1 then data_read else read_loop n
  end.

Definition ps2_read : io D Z := read_loop timeout.

Fixpoint wait_write_loop (n : nat) : io D unit :=
  match n with
  | O => fail "PS2 write timeout"
  | S n => test ← status_read; if Z.land test 2 =? 0 then mret tt else wait_write_loop n
  end.

Definition wait_write : io D unit := wait_write_loop timeout.

Definition write_command (command : Z) : io D unit := _ ← wait_write; command_out command.
Definition write_data (data : Z) : io D unit := _ ← wait_write; data_out data.

(** ** [Keyboard] *)
Fixpoint kb_send_loop (n : nat) (command : Z) : io D unit :=
  match n with
  | O => fail "Keyboard required too many command resends"
  | S n =>
      _ ← write_data command;
      response ← ps2_read;
      if response =? 0xFE then kb_send_loop n command
      else if negb (response =? 0xFA) then fail "Keyboard didn't acknolodge command"
      else mret tt
  end.

Definition kb_send_command (command : Z) : io D unit := kb_send_loop 10 command.

Definition kb_initialize : io D unit :=
  _ ← write_command 0xAE;
  _ ← kb_send_command 0xFF;
  r ← ps2_read;
  if negb (r =? 0xAA) then fail "Keyboard failed self test"
  else
    _ ← write_command 0x20;
    configuration ← ps2_read;
    _ ← write_command 0x60;
    _ ← write_data (Z.lor configuration 1);
    _ ← kb_send_command 0xF0;
    _ ← kb_send_command 2;
    mret tt.

Definition decode_byte (scancode : Z) : io D (option KeyboardEvent) :=
  λ c, let '(e, k) := add_byte (keyboard c) scancode in (Ok e, mkCtl (dev c) k (mouse c)).

Definition kb_check_interrupts : io D (option KeyboardEvent) :=
  scancode ← data_read; decode_byte scancode.

(** ** [Mouse] *)
Fixpoint ms_send_loop (n : nat) (command : Z) : io D unit :=
  match n with
  | O => fail "Mouse required too many command resends"
  | S n =>
      _ ← write_command 0xD4;
      _ ← write_data command;
      response ← ps2_read;
      if response =? 0xFE then ms_send_loop n command
      else if response =? 0xFA then mret tt
      else fail "Mouse didn't acknolodge command"
  end.

Definition ms_send_command (command : Z) : io D unit := ms_send_loop 10 command.

Definition set_mouse_type (t : MouseTypeId) : io D unit :=
  λ c, (Ok tt, mkCtl (dev c) (keyboard c) (mkMouse t (packet_state (mouse c)))).

(** The two attempts to switch to a richer protocol end with reading the id. *)
Definition ms_upgrade : io D Z :=
  _ ← ms_send_command 0xF3; _ ← ms_send_command 200;
  _ ← ms_send_command 0xF3; _ ← ms_send_command 100;
  _ ← ms_send_command 0xF3; _ ← ms_send_command 80;
  _ ← ms_send_command 0xF2;
  ps2_read.

Definition mouse_type_of (mode : Z) : MouseTypeId :=
  match mode with 0 => Standard | 3 => WithScrollWheel | 4 => WithExtraButtons | _ => Standard end.

Definition ms_initialize : io D unit :=
  _ ← write_command 0xA8;
  _ ← ms_send_command 0xFF;
  r ← ps2_read;
  if negb (r =? 0xAA) then fail "Mouse failed self test"
  else
    r ← ps2_read;
    if negb (r =? 0) then fail "Mouse failed self test"
    else
      _ ← write_command 0x20;
      configuration ← ps2_read;
      _ ← write_command 0x60;
      _ ← write_data (Z.lor configuration 2);
      _ ← ms_send_command 0xF6;
      _ ← ms_send_command 0xF2;
      mode ← ps2_read;
      mode ← (if mode =? 0 then ms_upgrade else mret mode);
      (* the second read binds a [mode] of its own *)
      _ ← (if mode =? 3 then (_ ← ms_upgrade; mret tt) else mret tt);
      _ ← set_mouse_type (mouse_type_of mode);
      _ ← ms_send_command 0xF4;
      mret tt.
End driver.

(** [x as i8]. *)
Definition as_i8 (x : Z) : Z := (x + 128) mod 256 - 128.

Definition send_packet (p1 p2 p3 : Z) : InputServiceMessage :=
  let x := if 0 <? Z.land p1 16 then - (256 - p2) else p2 in
  let y := if 0 <? Z.land p1 32 then 256 - p3 else - p3 in
  MMouseEvent (mkPacket (0 <? Z.land p1 1) (0 <? Z.land p1 2) (0 <? Z.land p1 4) (as_i8 x) (as_i8 y)).

(** [Mouse::check_interrupts], on the byte it reads. *)
Definition mouse_byte (m : Mouse) (data : Z) : outcome (option InputServiceMessage * Mouse) :=
  let next p := mkMouse (mouse_type m) p in
  match packet_state m, mouse_type m with
  | PNone, _ => Done (None, next (POne data))
  | POne a, _ => Done (None, next (PTwo a data))
  | PTwo a b, Standard => Done (Some (send_packet a b data), next PNone)
  | _, Standard => Panic PUnreachable
  | PTwo a b, _ => Done (None, next (PThree a b data))
  | PThree a b c, _ => Done (Some (send_packet a b c), next PNone)
  end.

Definition ms_check_interrupts {D} `{PortIO D} (c : PS2Controller D) : outcome (option InputServiceMessage * PS2Controller D) :=
  let '(data, d) := data_port_read (dev c) in
  '(e, m) ← mouse_byte (mouse c) data;
  Done (e, mkCtl d (keyboard c) m).

Section controller.
Context {D : Type} `{PortIO D}.

(** The loop that empties the output buffer. *)
Fixpoint flush_loop (n : nat) : io D unit :=
  match n with
  | O => mret tt
  | S n =>
      test ← status_read;
      _ ← (if Z.land test 1 =? 1 then (_ ← data_read; mret tt) else mret tt);
      flush_loop n
  end.

Definition flush : io D unit := flush_loop timeout.

(** A port test: 0 means success. *)
Definition port_test (command : Z) (e : string) : io D unit :=
  _ ← write_command command;
  r ← ps2_read;
  if negb (r =? 0) then fail e else mret tt.

(** [r.and_then(|_| m)]. *)
Definition and_then (r : result unit string) (m : io D unit) : io D (result unit string) :=
  match r with Ok _ => try_ m | Err e => mret (Err e) end.

(** [PS2Controller::initialize]; the outcomes of the two devices, which the code
    only prints, are returned. *)
Definition controller_initialize : io D (result unit string * result unit string) :=
  _ ← write_command 0xAD;
  _ ← write_command 0xA7;
  _ ← flush;
  _ ← write_command 0x20;
  configuration ← ps2_read;
  let configuration := Z.land configuration (0xFF - Z.lor (Z.lor 1 2) 64) in
  _ ← write_command 0x60;
  _ ← write_data configuration;
  _ ← write_command 0xAA;
  r ← ps2_read;
  if negb (r =? 0x55) then fail "PS2 Controller failed self test"
  else
    k ← try_ (port_test 0xAB "Keyboard port failed test");
    m ← try_ (port_test 0xA9 "Mouse port failed test");
    k ← and_then k kb_initialize;
    m ← and_then m ms_initialize;
    mret (k, m).
End controller.

(** ** Commands and their resends

    A device that is always ready and answers from a script; it records what was
    written to the command port ([true]) and to the data port ([false]). *)
Record script := mkScript { answers : list Z; written : list (bool * Z) }.

#[export] Instance script_io : PortIO script := {
  status_port_read d := ((match answers d with [] => 0 | _ => 1 end), d);
  command_port_write d v := mkScript (answers d) (written d ++ [(true, v)]);
  data_port_read d := (match answers d with [] => 0 | a :: _ => a end, mkScript (tail (answers d)) (written d));
  data_port_write d v := mkScript (answers d) (written d ++ [(false, v)]);
}.

Definition on_script (c : PS2Controller script) (a : list Z) (w : list (bool * Z)) : PS2Controller script :=
  with_dev c (mkScript a w).

Lemma timeout_S : ∃ n, timeout = S n.
Proof. exists (Z.to_nat 99999). unfold timeout. lia. Qed.

Lemma script_read c a l w : ps2_read (on_script c (a :: l) w) = (Ok a, on_script c l w).
Proof. unfold ps2_read. destruct timeout_S as [n ->]. done. Qed.

Lemma script_wait c l w : wait_write (on_script c l w) = (Ok tt, on_script c l w).
Proof. unfold wait_write. destruct timeout_S as [n ->]. by destruct l. Qed.

Lemma script_write_command c l w v : write_command v (on_script c l w) = (Ok tt, on_script c l (w ++ [(true, v)])).
Proof. unfold write_command, mbind, io_bind. by rewrite script_wait. Qed.

Lemma script_write_data c l w v : write_data v (on_script c l w) = (Ok tt, on_script c l (w ++ [(false, v)])).
Proof. unfold write_data, mbind, io_bind. by rewrite script_wait. Qed.

Lemma io_bind_ok {D A B} (m : io D A) (f : A → io D B) c a c' : m c = (Ok a, c') → (m ≫= f) c = f a c'.
Proof. unfold mbind, io_bind. by intros ->. Qed.

Fixpoint times {X} (n : nat) (l : list X) : list X := match n with O => [] | S n => l ++ times n l end.

Lemma kb_send_loop_spec cmd k : ∀ n c r rest w,
  kb_send_loop k cmd (on_script c (replicate n 0xFE ++ r :: rest) w) =
    if (n <? k)%nat then
      if r =? 0xFE then kb_send_loop (k - S n) cmd (on_script c rest (w ++ times (S n) [(false, cmd)]))
      else (if r =? 0xFA then Ok tt else Err "Keyboard didn't acknolodge command"%string,
            on_script c rest (w ++ times (S n) [(false, cmd)]))
    else (Err "Keyboard required too many command resends"%string,
          on_script c (replicate (n - k) 0xFE ++ r :: rest) (w ++ times k [(false, cmd)])).
Proof.
  induction k as [|k IH]; intros n c r rest w; cbn [kb_send_loop].
  { cbn. by rewrite app_nil_r, Nat.sub_0_r. }
  erewrite io_bind_ok by apply script_write_data.
  destruct n as [|n]; cbn [replicate app].
  - erewrite io_bind_ok by apply script_read. cbn [times app]. rewrite Nat.sub_succ, Nat.sub_0_r.
    destruct (Z.eqb_spec r 0xFE); [done|]. by destruct (Z.eqb_spec r 0xFA).
  - erewrite io_bind_ok by apply script_read. cbn [Z.eqb Pos.eqb]. rewrite IH.
    change (S n <? S k)%nat with (n <? k)%nat. cbn [times]. rewrite !Nat.sub_succ, <- !(assoc_L (++)). done.
Qed.

Lemma ms_send_loop_spec cmd k : ∀ n c r rest w,
  ms_send_loop k cmd (on_script c (replicate n 0xFE ++ r :: rest) w) =
    if (n <? k)%nat then
      if r =? 0xFE then ms_send_loop (k - S n) cmd (on_script c rest (w ++ times (S n) [(true, 0xD4); (false, cmd)]))
      else (if r =? 0xFA then Ok tt else Err "Mouse didn't acknolodge command"%string,
            on_script c rest (w ++ times (S n) [(true, 0xD4); (false, cmd)]))
    else (Err "Mouse required too many command resends"%string,
          on_script c (replicate (n - k) 0xFE ++ r :: rest) (w ++ times k [(true, 0xD4); (false, cmd)])).
Proof.
  induction k as [|k IH]; intros n c r rest w; cbn [ms_send_loop].
  { cbn. by rewrite app_nil_r, Nat.sub_0_r. }
  erewrite io_bind_ok by apply script_write_command. erewrite io_bind_ok by apply script_write_data.
  destruct n as [|n]; cbn [replicate app].
  - erewrite io_bind_ok by apply script_read. cbn [times app]. rewrite Nat.sub_succ, Nat.sub_0_r, <- (assoc_L (++)).
    destruct (Z.eqb_spec r 0xFE); [done|]. by destruct (Z.eqb_spec r 0xFA).
  - erewrite io_bind_ok by apply script_read. cbn [Z.eqb Pos.eqb]. rewrite IH.
    change (S n <? S k)%nat with (n <? k)%nat. cbn [times]. rewrite !Nat.sub_succ, <- !(assoc_L (++)). done.
Qed.

(** A command to the keyboard or the mouse is sent once more for each resend
    request, at most ten times; an acknowledgement ends it with success, any
    other answer with an error, ten requests with the error of its own, and no
    byte beyond the answer is consumed. *)
Theorem send_command_retries cmd n r rest c w :
  r ≠ 0xFE →
  let d := on_script c (replicate n 0xFE ++ r :: rest) w in
  let left := replicate (n - 10) 0xFE ++ r :: rest in
  let sent l := w ++ times (Nat.min (S n) 10) l in
  kb_send_command cmd d =
    (if (n <? 10)%nat then
       (if r =? 0xFA then Ok tt else Err "Keyboard didn't acknolodge command"%string, on_script c rest (sent [(false, cmd)]))
     else (Err "Keyboard required too many command resends"%string, on_script c left (sent [(false, cmd)]))) ∧
  ms_send_command cmd d =
    (if (n <? 10)%nat then
       (if r =? 0xFA then Ok tt else Err "Mouse didn't acknolodge command"%string,
        on_script c rest (sent [(true, 0xD4); (false, cmd)]))
     else (Err "Mouse required too many command resends"%string, on_script c left (sent [(true, 0xD4); (false, cmd)]))).
Proof.
  intros Hr d left sent. unfold kb_send_command, ms_send_command, d, left, sent.
  rewrite kb_send_loop_spec, ms_send_loop_spec, (proj2 (Z.eqb_neq r 0xFE) Hr).
  destruct (Nat.ltb_spec n 10).
  - by rewrite Nat.min_l by lia.
  - by rewrite Nat.min_r by lia.
Qed.

Lemma send_command_retries_witness :
  kb_send_command 0xFF (on_script (PS2Controller_new (mkScript [] [])) [0xFE; 0xFE; 0xFA; 0xAA] []) =
    (Ok tt, on_script (PS2Controller_new (mkScript [] [])) [0xAA] [(false, 0xFF); (false, 0xFF); (false, 0xFF)]).
Proof. apply (send_command_retries 0xFF 2 0xFA [0xAA] (PS2Controller_new (mkScript [] [])) []). discriminate. Defined.

(** ** Mouse packets *)

(** A movement as the hardware reports it: nine-bit displacements, upwards
    positive, and the byte of the wheel for mice that have one. *)
Record movement := mkMove { m_left : bool; m_right : bool; m_middle : bool; dx : Z; dy : Z; wheel : Z }.

Definition move_head (m : movement) : Z :=
  Z.b2z (m_left m) + 2 * Z.b2z (m_right m) + 4 * Z.b2z (m_middle m) + 8
    + 16 * Z.b2z (dx m <? 0) + 32 * Z.b2z (dy m <? 0).

Definition move_bytes (t : MouseTypeId) (m : movement) : list Z :=
  [move_head m; dx m mod 256; dy m mod 256] ++
  match t with Standard => [] | _ => [wheel m] end.

Fixpoint mouse_bytes (m : Mouse) (bs : list Z) : outcome (list InputServiceMessage * Mouse) :=
  match bs with
  | [] => Done ([], m)
  | b :: bs =>
      '(o, m) ← mouse_byte m b;
      '(es, m) ← mouse_bytes m bs;
      Done (match o with Some e => e :: es | None => es end, m)
  end.

Definition reported (m : movement) : InputServiceMessage :=
  MMouseEvent (mkPacket (m_left m) (m_right m) (m_middle m) (as_i8 (dx m)) (as_i8 (- dy m))).

Definition move_ok (m : movement) : Prop := -256 <= dx m < 256 ∧ -256 <= dy m < 256.

Lemma nine_bits v : -256 <= v < 256 → (if v <? 0 then - (256 - v mod 256) else v mod 256) = v.
Proof.
  intros. destruct (Z.ltb_spec v 0).
  - pose proof (Z.mod_unique v 256 (-1) (v + 256)). lia.
  - rewrite Z.mod_small by lia. done.
Qed.

Lemma move_head_bits m :
  (0 <? Z.land (move_head m) 1) = m_left m ∧ (0 <? Z.land (move_head m) 2) = m_right m ∧
  (0 <? Z.land (move_head m) 4) = m_middle m ∧ (0 <? Z.land (move_head m) 16) = (dx m <? 0) ∧
  (0 <? Z.land (move_head m) 32) = (dy m <? 0).
Proof. unfold move_head. by destruct (m_left m), (m_right m), (m_middle m), (dx m <? 0), (dy m <? 0). Qed.

Lemma send_packet_move m : move_ok m → send_packet (move_head m) (dx m mod 256) (dy m mod 256) = reported m.
Proof.
  intros [Hx%nine_bits Hy%nine_bits]. unfold send_packet, reported.
  destruct (move_head_bits m) as (-> & -> & -> & -> & ->). rewrite Hx.
  replace (if dy m <? 0 then 256 - dy m mod 256 else - (dy m mod 256)) with (- dy m); [done|].
  destruct (dy m <? 0); lia.
Qed.

Lemma mouse_bytes_move t m rest : move_ok m →
  mouse_bytes (mkMouse t PNone) (move_bytes t m ++ rest) =
    ('(es, m') ← mouse_bytes (mkMouse t PNone) rest; Done (reported m :: es, m')).
Proof.
  intros Hm. unfold move_bytes. rewrite <- (send_packet_move m Hm).
  destruct t; cbn [app mouse_bytes mouse_byte packet_state mouse_type mbind outcome_bind];
    by destruct (mouse_bytes _ rest) as [[es m']| |].
Qed.

(** Whatever its protocol, the mouse driver turns the byte stream of any
    sequence of movements into one message each, with the buttons, the horizontal
    and the negated vertical displacement, never hits its [unreachable!] and ends
    between packets.  Displacements that fit a byte are reported exactly; larger
    ones, which the hardware's ninth bit allows, come out with the wrong sign. *)
Theorem mouse_stream_spec t ms :
  Forall move_ok ms →
  mouse_bytes (mkMouse t PNone) (concat (move_bytes t <$> ms)) = Done (reported <$> ms, mkMouse t PNone) ∧
  (∀ m, -128 <= dx m < 128 → -128 < dy m <= 128 →
     reported m = MMouseEvent (mkPacket (m_left m) (m_right m) (m_middle m) (dx m) (- dy m))) ∧
  (∀ v, 128 <= v < 256 → as_i8 v < 0).
Proof.
  intros Hms. splits.
  - induction Hms as [|m ms Hm _ IH]; [done|]. cbn [fmap list_fmap concat].
    rewrite mouse_bytes_move by done. rewrite IH. done.
  - intros m Hx Hy. unfold reported, as_i8. rewrite !Z.mod_small by lia. do 2 f_equal; lia.
  - intros v Hv. unfold as_i8. pose proof (Z.mod_unique (v + 128) 256 1 (v - 128)). lia.
Qed.

(** A drag to the upper left on a wheel mouse. *)
Lemma mouse_stream_spec_witness :
  mouse_bytes (mkMouse WithScrollWheel PNone) [0x19; 0xFD; 0x02; 0x00; 0x08; 0x00; 0x00; 0xFF] =
    Done ([MMouseEvent (mkPacket true false false (-3) (-2)); MMouseEvent (mkPacket false false false 0 0)],
          mkMouse WithScrollWheel PNone).
Proof.
  apply (mouse_stream_spec WithScrollWheel [mkMove true false false (-3) 2 0; mkMove false false false 0 0 255]).
  repeat constructor; cbn; lia.
Defined.

(** A mouse that can do five buttons answers 0, then 3, then 4 to the id
    requests; the driver keeps the type of the first upgrade, because the id of the
    second one goes to a variable of its own. *)
Lemma five_button_mouse_stays_wheel :
  let acks := replicate 7 0xFA in
  let s := [0xFA; 0xAA; 0x00; 0x47; 0xFA; 0xFA; 0] ++ acks ++ [3] ++ acks ++ [4] ++ [0xFA] in
  let '(r, c) := ms_initialize (PS2Controller_new (mkScript s [])) in
  r = Ok tt ∧ answers (dev c) = [] ∧ mouse_type (mouse c) = WithScrollWheel.
Proof. vm_compute. done. Qed.
