(* ===== verification/Text.v ===== *)
(** * Strings of the standard library

    A [String] is the list of its code points, a byte string a list of numbers
    below 256.  The functions the file-system code uses of [core::str]:
    [char::decode_utf16] with the replacement character, [String::from_utf8_lossy],
    [str::trim] and [str::split]. *)
From S2P Require Import Prelude.

Definition REPLACEMENT_CHARACTER : Z := 0xFFFD.

Definition in_range (lo hi b : Z) : bool := (lo <=? b) && (b <=? hi).

(** [char::decode_utf16(iter).map(|c| c.unwrap_or(REPLACEMENT_CHARACTER))]: a lead
    surrogate without its trail is an error of its own, and the unit after it is
    decoded again. *)
Fixpoint decode_utf16 (l : list Z) : list Z :=
  match l with
  | [] => []
  | u :: l' =>
      if in_range 0xD800 0xDBFF u then
        match l' with
        | v :: l'' =>
            if in_range 0xDC00 0xDFFF v then
              (0x10000 + (u - 0xD800) * 0x400 + (v - 0xDC00)) :: decode_utf16 l''
            else REPLACEMENT_CHARACTER :: decode_utf16 l'
        | [] => [REPLACEMENT_CHARACTER]
        end
      else if in_range 0xDC00 0xDFFF u then REPLACEMENT_CHARACTER :: decode_utf16 l'
      else u :: decode_utf16 l'
  end.

(** The length of the sequence a first byte announces and the range of its second
    byte; [None] for a byte that starts none. *)
Definition utf8_first (b : Z) : option (nat * Z * Z) :=
  if in_range 0xC2 0xDF b then Some (1%nat, 0x80, 0xBF)
  else if b =? 0xE0 then Some (2%nat, 0xA0, 0xBF)
  else if in_range 0xE1 0xEC b then Some (2%nat, 0x80, 0xBF)
  else if b =? 0xED then Some (2%nat, 0x80, 0x9F)
  else if in_range 0xEE 0xEF b then Some (2%nat, 0x80, 0xBF)
  else if b =? 0xF0 then Some (3%nat, 0x90, 0xBF)
  else if in_range 0xF1 0xF3 b then Some (3%nat, 0x80, 0xBF)
  else if b =? 0xF4 then Some (3%nat, 0x80, 0x8F)
  else None.

(** The payload of a first byte of a sequence with [n] continuation bytes. *)
Definition utf8_payload (n : nat) (b : Z) : Z :=
  match n with 1%nat => b mod 0x20 | 2%nat => b mod 0x10 | _ => b mod 0x08 end.

(** [from_utf8_lossy]: each maximal prefix of a sequence that is cut short is one
    replacement character.  [n] continuation bytes are still expected, the next one
    in [lo, hi], with [acc] decoded so far. *)
Fixpoint utf8_lossy_from (n : nat) (lo hi acc : Z) (l : list Z) : list Z :=
  let start b rest k :=
    if b <? 0x80 then b :: rest
    else match utf8_first b with
         | Some (n, lo, hi) => k n lo hi (utf8_payload n b)
         | None => REPLACEMENT_CHARACTER :: rest
         end in
  match l with
  | [] => match n with O => [] | _ => [REPLACEMENT_CHARACTER] end
  | b :: l =>
      match n with
      | O => start b (utf8_lossy_from 0 0 0 0 l) (λ n lo hi acc, utf8_lossy_from n lo hi acc l)
      | S n' =>
          if in_range lo hi b then
            let acc := acc * 0x40 + b mod 0x40 in
            match n' with
            | O => acc :: utf8_lossy_from 0 0 0 0 l
            | _ => utf8_lossy_from n' 0x80 0xBF acc l
            end
          else
            REPLACEMENT_CHARACTER ::
              start b (utf8_lossy_from 0 0 0 0 l) (λ n lo hi acc, utf8_lossy_from n lo hi acc l)
      end
  end.

Definition from_utf8_lossy (l : list Z) : list Z := utf8_lossy_from 0 0 0 0 l.

(** The [White_Space] property. *)
Definition is_whitespace (c : Z) : bool :=
  in_range 0x09 0x0D c || (c =? 0x20) || (c =? 0x85) || (c =? 0xA0) || (c =? 0x1680) ||
  in_range 0x2000 0x200A c || (c =? 0x2028) || (c =? 0x2029) || (c =? 0x202F) || (c =? 0x205F) || (c =? 0x3000).

Fixpoint trim_start (l : list Z) : list Z :=
  match l with c :: l' => if is_whitespace c then trim_start l' else l | [] => [] end.

Definition trim (l : list Z) : list Z := reverse (trim_start (reverse (trim_start l))).

(** [str::split] on a character. *)
Fixpoint split_on (sep : Z) (l : list Z) : list (list Z) :=
  match l with
  | [] => [[]]
  | c :: l =>
      if c =? sep then [] :: split_on sep l
      else match split_on sep l with s :: ss => (c :: s) :: ss | [] => [[c]] end
  end.

(** ASCII text is read as it is. *)
Lemma from_utf8_lossy_ascii l : Forall (λ b, 0 <= b < 0x80) l → from_utf8_lossy l = l.
Proof.
  unfold from_utf8_lossy. induction 1 as [|b l Hb _ IH]; [done|]. cbn [utf8_lossy_from].
  rewrite (proj2 (Z.ltb_lt b 0x80)) by lia. by rewrite IH.
Qed.

(** Neither half of a split contains the separator, and joining gives it back. *)
Lemma split_on_join sep l : foldr (λ s acc, match acc with None => Some s | Some a => Some (s ++ sep :: a) end) None (split_on sep l) = Some l.
Proof.
  induction l as [|c l IH]; [done|]. cbn [split_on]. destruct (Z.eqb_spec c sep) as [->|].
  - cbn [foldr]. by rewrite IH.
  - destruct (split_on sep l) as [|s ss]; [done|]. cbn [foldr] in *.
    destruct (foldr _ None ss); cbn in *; congruence.
Qed.

(** Worked cases: two-, three- and four-byte sequences, a stray continuation
    byte, a sequence cut short by another, an overlong form. *)
Lemma utf8_examples :
  from_utf8_lossy [0xC3; 0xA9; 0xE2; 0x82; 0xAC; 0xF0; 0x9F; 0x98; 0x80] = [0xE9; 0x20AC; 0x1F600] ∧
  from_utf8_lossy [0x41; 0x80; 0x42] = [0x41; REPLACEMENT_CHARACTER; 0x42] ∧
  from_utf8_lossy [0xE2; 0x82; 0xC3; 0xA9] = [REPLACEMENT_CHARACTER; 0xE9] ∧
  from_utf8_lossy [0xC0; 0xAF] = [REPLACEMENT_CHARACTER; REPLACEMENT_CHARACTER] ∧
  decode_utf16 [0xD83D; 0xDE00; 0xD83D; 0x41; 0xDE00] = [0x1F600; REPLACEMENT_CHARACTER; 0x41; REPLACEMENT_CHARACTER].
Proof. by vm_compute. Qed.

(** [str::as_bytes]: the bytes of a code point, and of a string. *)
Definition utf8_char (c : Z) : list Z :=
  if c <? 0x80 then [c]
  else if c <? 0x800 then [0xC0 + c / 0x40; 0x80 + c mod 0x40]
  else if c <? 0x10000 then [0xE0 + c / 0x1000; 0x80 + (c / 0x40) mod 0x40; 0x80 + c mod 0x40]
  else [0xF0 + c / 0x40000; 0x80 + (c / 0x1000) mod 0x40; 0x80 + (c / 0x40) mod 0x40; 0x80 + c mod 0x40].

Definition as_bytes (s : list Z) : list Z := concat (utf8_char <$> s).

(** The values of a [char]. *)
Definition is_char (c : Z) : Prop := 0 ≤ c < 0x110000 ∧ ¬ (0xD800 ≤ c ≤ 0xDFFF).

Lemma in_range_true lo hi b : lo ≤ b ≤ hi → in_range lo hi b = true.
Proof. unfold in_range. lia. Qed.

(** A byte inside a sequence, and the last byte of one. *)
Lemma utf8_continue n lo hi acc b l : lo ≤ b ≤ hi →
  utf8_lossy_from (S (S n)) lo hi acc (b :: l) = utf8_lossy_from (S n) 0x80 0xBF (acc * 0x40 + b mod 0x40) l.
Proof. intros Hb. cbn [utf8_lossy_from]. by rewrite in_range_true. Qed.

Lemma utf8_last lo hi acc b l : lo ≤ b ≤ hi →
  utf8_lossy_from 1 lo hi acc (b :: l) = (acc * 0x40 + b mod 0x40) :: utf8_lossy_from 0 0 0 0 l.
Proof. intros Hb. cbn [utf8_lossy_from]. by rewrite in_range_true. Qed.

Lemma utf8_lead b n lo hi l : 0x80 ≤ b → utf8_first b = Some (n, lo, hi) →
  utf8_lossy_from 0 0 0 0 (b :: l) = utf8_lossy_from n lo hi (utf8_payload n b) l.
Proof. intros Hb Hf. cbn [utf8_lossy_from]. by rewrite (proj2 (Z.ltb_ge b 0x80)), Hf. Qed.

Lemma utf8_first_spec b : 0xC2 ≤ b ≤ 0xF4 →
  utf8_first b = Some (if b <? 0xE0 then 1%nat else if b <? 0xF0 then 2%nat else 3%nat,
                       if b =? 0xE0 then 0xA0 else if b =? 0xF0 then 0x90 else 0x80,
                       if b =? 0xED then 0x9F else if b =? 0xF4 then 0x8F else 0xBF).
Proof.
  intros Hb. assert (Hall : forallb (λ b, bool_decide (utf8_first b =
    Some (if b <? 0xE0 then 1%nat else if b <? 0xF0 then 2%nat else 3%nat,
          if b =? 0xE0 then 0xA0 else if b =? 0xF0 then 0x90 else 0x80,
          if b =? 0xED then 0x9F else if b =? 0xF4 then 0x8F else 0xBF))) (seqZ 0xC2 51) = true) by by vm_compute.
  rewrite forallb_forall in Hall. specialize (Hall b). apply bool_decide_eq_true in Hall; [done|].
  apply list_elem_of_In, elem_of_seqZ. lia.
Qed.

(** Linear arithmetic with quotients and remainders by constants. *)
Ltac dlia := Z.div_mod_to_equations; lia.

(** Reading the bytes of a code point gives it back. *)
Lemma utf8_char_read c l : is_char c → utf8_lossy_from 0 0 0 0 (utf8_char c ++ l) = c :: utf8_lossy_from 0 0 0 0 l.
Proof.
  intros [Hc Hs]. unfold utf8_char.
  destruct (Z.ltb_spec c 0x80); [|destruct (Z.ltb_spec c 0x800); [|destruct (Z.ltb_spec c 0x10000)]]; cbn [app].
  - cbn [utf8_lossy_from]. by rewrite (proj2 (Z.ltb_lt c 0x80)).
  - rewrite (utf8_lead _ 1 0x80 0xBF); [|dlia|rewrite utf8_first_spec by dlia; repeat case_match; try dlia; done].
    cbn [utf8_payload]. rewrite utf8_last by dlia. f_equal. dlia.
  - erewrite (utf8_lead _ 2); [|dlia|rewrite utf8_first_spec by dlia; rewrite (proj2 (Z.ltb_ge _ 0xE0)), (proj2 (Z.ltb_lt _ 0xF0)) by dlia; done].
    cbn [utf8_payload]. rewrite utf8_continue, utf8_last by (repeat case_match; dlia). f_equal. dlia.
  - erewrite (utf8_lead _ 3); [|dlia|rewrite utf8_first_spec by dlia; rewrite (proj2 (Z.ltb_ge _ 0xE0)), (proj2 (Z.ltb_ge _ 0xF0)) by dlia; done].
    cbn [utf8_payload]. rewrite !utf8_continue, utf8_last by (repeat case_match; dlia). f_equal. dlia.
Qed.

Lemma from_utf8_lossy_as_bytes s : Forall is_char s → from_utf8_lossy (as_bytes s) = s.
Proof.
  unfold from_utf8_lossy, as_bytes. induction 1 as [|c s Hc _ IH]; [done|]. cbn [fmap list_fmap concat]. by rewrite utf8_char_read, IH.
Qed.

(** The characters below 128 are their own bytes. *)
Lemma as_bytes_ascii s : Forall (λ b, 0 ≤ b < 0x80) s → as_bytes s = s.
Proof.
  unfold as_bytes. induction 1 as [|c s Hc _ IH]; [done|]. cbn [fmap list_fmap concat]. rewrite IH.
  unfold utf8_char. by rewrite (proj2 (Z.ltb_lt c 0x80)) by lia.
Qed.
