(* ===== verification/Fat.v ===== *)
(** * The FAT file system

    [kernel/src/fs/fat.rs], [kernel/src/fs/mbr.rs] and the partition table and
    path lookup of [kernel/src/fs/mod.rs].  The disk behind a partition (the
    [DiskDevice] trait object) is a parameter: its sectors of 512 bytes, read
    without failing.  Packed structures are read from the bytes of a buffer at
    their offsets; integers keep the width the source gives them. *)
From S2P Require Import Prelude Text.

(** ** Bytes *)
Definition byte_at (l : list Z) (i : nat) : Z := nth i l 0.
Definition u16_at (l : list Z) (i : nat) : Z := byte_at l i + 256 * byte_at l (i + 1).
Definition u32_at (l : list Z) (i : nat) : Z := u16_at l i + 65536 * u16_at l (i + 2).
Definition slice (l : list Z) (i n : nat) : list Z := take n (drop i l).

Definition u16s_at (l : list Z) (i n : nat) : list Z := (λ k, u16_at l (i + 2 * k)) <$> seq 0 n.

(** ** On-disk structures *)
Record BiosParameterBlock := mkBPB {
  software_name : list Z;
  bytes_per_sector : Z;
  sectors_per_cluster : Z;
  reserved_sectors : Z;
  fat_copies : Z;
  root_dir_entries : Z;
  total_sectors : Z;
  media_type : Z;
  fat_sector_cnt : Z;
  sectors_per_track : Z;
  head_cnt : Z;
  hidden_sectors : Z;
  total_sectors_ext : Z;
}.

Definition read_bpb (b : list Z) : BiosParameterBlock :=
  mkBPB (slice b 3 8) (u16_at b 11) (byte_at b 13) (u16_at b 14) (byte_at b 16) (u16_at b 17) (u16_at b 19)
    (byte_at b 21) (u16_at b 22) (u16_at b 24) (u16_at b 26) (u32_at b 28) (u32_at b 32).

Definition BPB_SIZE : nat := 36.

Record FAT16Ext := mkF16 {
  f16_drive_number : Z; f16_flags : Z; f16_signature : Z; f16_volume_id : Z;
  f16_volume_label : list Z; f16_fat_type_label : list Z;
}.

Definition read_fat16ext (b : list Z) (o : nat) : FAT16Ext :=
  mkF16 (byte_at b o) (byte_at b (o + 1)) (byte_at b (o + 2)) (u32_at b (o + 3)) (slice b (o + 7) 11) (slice b (o + 18) 8).

Record FAT32Ext := mkF32 {
  sectors_per_fat : Z; f32_flags : Z; fat_version : Z; root_cluster : Z; fat_info : Z; backup_sector : Z;
  f32_drive_number : Z; boot_signature : Z; f32_volume_id : Z;
  f32_volume_label : list Z; f32_fat_type_label : list Z;
}.

Definition read_fat32ext (b : list Z) (o : nat) : FAT32Ext :=
  mkF32 (u32_at b o) (u16_at b (o + 4)) (u16_at b (o + 6)) (u32_at b (o + 8)) (u16_at b (o + 12)) (u16_at b (o + 14))
    (byte_at b (o + 28)) (byte_at b (o + 30)) (u32_at b (o + 31)) (slice b (o + 35) 11) (slice b (o + 46) 8).

Inductive FatExtendedBootRecord := FAT16 (e : FAT16Ext) | FAT32 (e : FAT32Ext).

(** [DirectoryEntry] and [LongFileName], 32 bytes each. *)
Record DirectoryEntry := mkDirEnt {
  de_name : list Z; de_ext : list Z; attributes : Z; first_cluster_hi : Z; first_cluster_low : Z; de_size : Z;
  de_raw : list Z;
}.

Definition read_direntry (b : list Z) : DirectoryEntry :=
  mkDirEnt (slice b 0 8) (slice b 8 3) (byte_at b 11) (u16_at b 20) (u16_at b 26) (u32_at b 28) b.

(** [chars_1], [chars_2] and [chars_3]. *)
Definition lfn_units (b : list Z) : list Z := u16s_at b 1 5 ++ u16s_at b 14 6 ++ u16s_at b 28 2.

(** The entries of a buffer, as the [from_raw_parts] cast gives them. *)
Definition entries_of (buf : list Z) (n : nat) : list DirectoryEntry :=
  (λ i, read_direntry (slice buf (32 * i) 32)) <$> seq 0 n.

(** ** State *)
Inductive FATFileType :=
  | FFolder (children : option (gmap (list Z) Z))
  | FFile (size : Z).

Record FATFile := mkFile { cluster : Z; entry_type : FATFileType }.

(** [FSPartitionDisk]: the sectors of the disk behind it, and its place there. *)
Record FSPartitionDisk := mkDisk { sectors : Z → list Z; partition_offset : Z; partition_length : Z }.

Record FAT := mkFAT {
  partition_id : Z;
  bpb : BiosParameterBlock;
  fat_ebr : FatExtendedBootRecord;
  disk : FSPartitionDisk;
  file_id_lookup : gmap Z FATFile;
  cluster_chain_buffer : gmap Z (list Z);
  file_ids : Z;                          (* the counter of [next_file_id] *)
}.

Definition with_files (f : FAT) m := mkFAT (partition_id f) (bpb f) (fat_ebr f) (disk f) m (cluster_chain_buffer f) (file_ids f).
Definition with_cache (f : FAT) c := mkFAT (partition_id f) (bpb f) (fat_ebr f) (disk f) (file_id_lookup f) c (file_ids f).
Definition with_ids (f : FAT) n := mkFAT (partition_id f) (bpb f) (fat_ebr f) (disk f) (file_id_lookup f) (cluster_chain_buffer f) n.

Inductive FSServiceError := NoSuchPartition (id : Z) | CouldNotFollowPath | FileNotFound | InvalidRequestForFileType.

(** [FSPartitionDisk::read]: the bytes put at the start of the buffer. *)
Definition disk_read (d : FSPartitionDisk) (sector count : Z) : outcome (list Z) :=
  e ← add_u64 sector count;
  _ ← assert_ (e <=? partition_length d);
  s ← add_u64 sector (partition_offset d);
  Done (concat (sectors d <$> seqZ s count)).

(** Overwriting part of a buffer. *)
Definition put (buf : list Z) (off : nat) (bytes : list Z) : list Z :=
  take off buf ++ bytes ++ drop (off + length bytes) buf.

(** ** Geometry *)
Definition root_dir_sectors (self : FAT) : outcome Z :=
  match fat_ebr self with
  | FAT16 _ =>
      a ← mul_u16 (root_dir_entries (bpb self)) 32;
      b ← add_u16 a (bytes_per_sector (bpb self));
      c ← sub_u16 b 1;
      div_ c (bytes_per_sector (bpb self))
  | FAT32 _ => Done 0
  end.

Definition first_data_sector (self : FAT) : outcome Z :=
  match fat_ebr self with
  | FAT16 _ =>
      m ← mul_u32 (fat_sector_cnt (bpb self)) (fat_copies (bpb self));
      s ← add_u32 (reserved_sectors (bpb self)) m;
      r ← root_dir_sectors self;
      add_u32 s r
  | FAT32 fat32 =>
      m ← mul_u32 (sectors_per_fat fat32) (fat_copies (bpb self));
      add_u32 (reserved_sectors (bpb self)) m
  end.

Definition get_start_sector_of_cluster (self : FAT) (cluster : Z) : outcome Z :=
  _ ← assert_ (2 <=? cluster);
  c ← sub_u32 cluster 2;
  m ← mul_u32 c (sectors_per_cluster (bpb self));
  f ← first_data_sector self;
  add_u32 m f.

Definition get_root_directory_sector (self : FAT) : outcome Z :=
  match fat_ebr self with
  | FAT16 _ => f ← first_data_sector self; r ← root_dir_sectors self; sub_u32 f r
  | FAT32 fat32 => get_start_sector_of_cluster self (root_cluster fat32)
  end.

Definition fat_size (self : FAT) : Z := match fat_ebr self with FAT16 _ => 2 | FAT32 _ => 4 end.

Definition get_next_cluster (self : FAT) (cluster : Z) : outcome (Z * FAT) :=
  fat_buf_offset ← add_u32 (cluster / (512 / fat_size self)) (reserved_sectors (bpb self));
  '(fat_buffer, self) ←
    (match cluster_chain_buffer self !! fat_buf_offset with
     | Some b => Done (b, self)
     | None =>
         buf ← disk_read (disk self) fat_buf_offset 1;
         Done (buf, with_cache self (<[fat_buf_offset := buf]> (cluster_chain_buffer self)))
     end);
  let idx := Z.to_nat (cluster mod (512 / fat_size self)) in
  Done (if fat_size self =? 4 then u32_at fat_buffer (4 * idx) else u16_at fat_buffer (2 * idx), self).

(** ** Directories *)
Definition DOT : Z := 46.

(** The name of an entry without a long name. *)
Definition short_name (entry : DirectoryEntry) : list Z :=
  let name := trim (from_utf8_lossy (de_name entry)) in
  if Z.land (attributes entry) 0x10 =? 0 then
    let n := trim (from_utf8_lossy (de_ext entry)) in
    match n with [] => name | _ => name ++ [DOT] ++ n end
  else name.

(** [take_while(|b| *b != 0)]. *)
Fixpoint take_nonzero (l : list Z) : list Z :=
  match l with x :: l => if x =? 0 then [] else x :: take_nonzero l | [] => [] end.

Definition entry_file (entry : DirectoryEntry) : FATFile :=
  let cluster := Z.lor (Z.shiftl (first_cluster_hi entry) 8) (first_cluster_low entry) in
  if Z.land (attributes entry) 0x10 =? 0x10 then mkFile cluster (FFolder None)
  else mkFile cluster (FFile (de_size entry)).

Fixpoint parse_entries (self : FAT) (entries : list DirectoryEntry) (dir_entries : gmap (list Z) Z) (lfn_buf : list Z)
  : outcome (bool * (FAT * gmap (list Z) Z * list Z)) :=
  match entries with
  | [] => Done (false, (self, dir_entries, lfn_buf))
  | entry :: entries =>
      if byte_at (de_name entry) 0 =? 0 then Done (true, (self, dir_entries, lfn_buf))
      else if byte_at (de_name entry) 0 =? 0xE5 then parse_entries self entries dir_entries lfn_buf
      else if attributes entry =? 0x0F then
        let chars := decode_utf16 (take_nonzero (lfn_units (de_raw entry))) in
        parse_entries self entries dir_entries (chars ++ lfn_buf)
      else
        let '(name, lfn_buf) := match lfn_buf with [] => (short_name entry, []) | _ => (lfn_buf, []) end in
        if bool_decide (name = [DOT]) || bool_decide (name = [DOT; DOT]) then
          parse_entries self entries dir_entries lfn_buf
        else
          let file_id := file_ids self in
          (* fetch_add wraps *)
          let self := with_ids self ((file_id + 1) mod u64_lim) in
          let self := with_files self (<[file_id := entry_file entry]> (file_id_lookup self)) in
          parse_entries self entries (<[name := file_id]> dir_entries) lfn_buf
  end.

(** The [while] loop of [read_directory]: it follows the chain, which may be a
    cycle on a damaged disk, so its rounds are bounded by [fuel]. *)
Fixpoint read_directory_loop (fuel : nat) (self : FAT) (cluster : Z) (entries : gmap (list Z) Z) (lfn_buf : list Z)
  : outcome (gmap (list Z) Z * FAT) :=
  if 0 <? cluster then
    match fuel with
    | O => OutOfFuel
    | S fuel =>
        let n := sectors_per_cluster (bpb self) in
        sector ← get_start_sector_of_cluster self cluster;
        buffer ← disk_read (disk self) sector n;
        '(last, (self, entries, lfn_buf)) ← parse_entries self (entries_of buffer (Z.to_nat (16 * n))) entries lfn_buf;
        if last : bool then Done (entries, self)
        else
          '(cluster, self) ← get_next_cluster self cluster;
          read_directory_loop fuel self cluster entries lfn_buf
    end
  else Done (entries, self).

Definition read_directory (fuel : nat) (self : FAT) (cluster : Z) : outcome (gmap (list Z) Z * FAT) :=
  read_directory_loop fuel self cluster ∅ [].

Fixpoint root_loop (self : FAT) (ss : list Z) (children : gmap (list Z) Z) (lfn_buf : list Z)
  : outcome (gmap (list Z) Z * FAT) :=
  match ss with
  | [] => Done (children, self)
  | sector :: ss =>
      buffer ← disk_read (disk self) sector 1;
      '(last, (self, children, lfn_buf)) ← parse_entries self (entries_of buffer 16) children lfn_buf;
      if last : bool then Done (children, self) else root_loop self ss children lfn_buf
  end.

Definition enumerate_root (fuel : nat) (self : FAT) : outcome (gmap (list Z) Z * FAT) :=
  _ ← (match file_id_lookup self !! 0 with Some _ => Panic PUnreachable | None => Done tt end);
  '(children, self) ←
    (match fat_ebr self with
     | FAT32 fat32 => read_directory fuel self (root_cluster fat32)
     | FAT16 _ =>
         e ← first_data_sector self;
         r ← root_dir_sectors self;
         s ← sub_u32 e r;
         root_loop self (seqZ s (e - s)) ∅ []
     end);
  let folder := mkFile 0 (FFolder (Some children)) in
  Done (children, with_files self (<[0 := folder]> (file_id_lookup self))).

Definition get_fat_file (self : FAT) (file_id : Z) : result FATFile FSServiceError :=
  match file_id_lookup self !! file_id with Some f => Ok f | None => Err FileNotFound end.

(** ** Files *)
Inductive VFileSpecialized :=
  | VFolder (children : gmap (list Z) (Z * Z))
  | VFile_ (size : Z).

Record VFile := mkVFile { location : Z * Z; specialized : VFileSpecialized }.

(** [get_file_by_id]; note that the file is stored back as it was read, without
    the children that were just enumerated. *)
Definition get_file_by_id (fuel : nat) (self : FAT) (file_id : Z) : outcome (result VFile FSServiceError * FAT) :=
  match get_fat_file self file_id with
  | Err e => Done (Err e, self)
  | Ok fat_file =>
      match entry_type fat_file with
      | FFile size => Done (Ok (mkVFile (partition_id self, file_id) (VFile_ size)), self)
      | FFolder children =>
          '(file, self) ←
            (match children with
             | Some f => Done (f, self)
             | None =>
                 '(f, self) ← read_directory fuel self (cluster fat_file);
                 Done (f, with_files self (<[file_id := fat_file]> (file_id_lookup self)))
             end);
          Done (Ok (mkVFile (partition_id self, file_id) (VFolder (pair (partition_id self) <$> file))), self)
      end
  end.

(** [sectors.last_mut()]: a run that continues the last one extends it. *)
Definition push_run (runs : list (Z * Z)) (file_sector read_amount : Z) : outcome (list (Z * Z)) :=
  match last runs with
  | Some (start, len) =>
      e ← add_u32 start len;
      if e =? file_sector then
        len ← add_u32 len read_amount;
        Done (<[pred (length runs) := (start, len)]> runs)
      else Done (runs ++ [(file_sector, read_amount)])
  | None => Done [(file_sector, read_amount)]
  end.

(** The first loop of [read_file]: the runs of sectors of the file.  A round takes
    at least one sector, so [sectors_to_read] rounds are enough. *)
Fixpoint file_runs (fuel : nat) (self : FAT) (sectors_to_read cluster : Z) (runs : list (Z * Z))
  : outcome (list (Z * Z) * FAT) :=
  if 0 <? sectors_to_read then
    match fuel with
    | O => OutOfFuel
    | S fuel =>
        let read_amount := Z.min sectors_to_read (sectors_per_cluster (bpb self)) in
        file_sector ← get_start_sector_of_cluster self cluster;
        runs ← push_run runs file_sector read_amount;
        left ← sub_u32 sectors_to_read read_amount;
        '(cluster, self) ← get_next_cluster self cluster;
        file_runs fuel self left cluster runs
    end
  else Done (runs, self).

(** The inner loop of the second one: at most 56 sectors at a time. *)
Fixpoint read_run (fuel : nat) (d : FSPartitionDisk) (sector len : Z) (buffer : list Z) (buffer_offset : nat)
  : outcome (list Z * nat) :=
  if 0 <? len then
    match fuel with
    | O => OutOfFuel
    | S fuel =>
        let read_amount := Z.min len 56 in
        _ ← (if (buffer_offset <=? length buffer)%nat then Done tt else Panic PIndex);
        bytes ← disk_read d sector read_amount;
        sector ← add_u32 sector read_amount;
        len ← sub_u32 len read_amount;
        read_run fuel d sector len (put buffer buffer_offset bytes) (buffer_offset + Z.to_nat (read_amount * 512))
    end
  else Done (buffer, buffer_offset).

Fixpoint read_runs (d : FSPartitionDisk) (runs : list (Z * Z)) (buffer : list Z) (buffer_offset : nat) : outcome (list Z * nat) :=
  match runs with
  | [] => Done (buffer, buffer_offset)
  | (sector, len) :: runs =>
      '(buffer, buffer_offset) ← read_run (Z.to_nat len) d sector len buffer buffer_offset;
      read_runs d runs buffer buffer_offset
  end.

(** [Vec::resize(n, 0)]. *)
Definition resize (buf : list Z) (n : nat) : list Z := take n buf ++ replicate (n - length buf) 0.

(** [FAT::read_file]; the slice it returns. *)
Definition read_file (self : FAT) (file_id : Z) (buffer : list Z) : outcome (result (list Z) FSServiceError * FAT) :=
  match file_id_lookup self !! file_id with
  | None => Done (Err FileNotFound, self)
  | Some fat_file =>
      match entry_type fat_file with
      | FFolder _ => Done (Err InvalidRequestForFileType, self)
      | FFile length =>
          up ← add_u64 length 511;
          let buffer_size := Z.land up (not_u64 511) in
          up ← add_u32 length 511;
          let sectors_to_read := up / 512 in
          let buffer := resize buffer (Z.to_nat buffer_size) in
          '(runs, self) ← file_runs (Z.to_nat sectors_to_read) self sectors_to_read (cluster fat_file) [];
          '(buffer, _) ← read_runs (disk self) runs buffer 0;
          Done (Ok (take (Z.to_nat length) buffer), self)
      end
  end.

Fixpoint follow_chain (n : nat) (self : FAT) (cluster : Z) : outcome (Z * FAT) :=
  match n with
  | O => Done (cluster, self)
  | S n => '(cluster, self) ← get_next_cluster self cluster; follow_chain n self cluster
  end.

(** [FAT::read_file_sector]: the length and the buffer. *)
Definition read_file_sector (self : FAT) (file_id file_sector : Z)
  : outcome (result (option (Z * list Z)) FSServiceError * FAT) :=
  match get_fat_file self file_id with
  | Err e => Done (Err e, self)
  | Ok fat_file =>
      match entry_type fat_file with
      | FFolder _ => Done (Err InvalidRequestForFileType, self)
      | FFile length =>
          up ← add_u32 length 511;
          let sectors_to_read := up / 512 in
          if file_sector =? sectors_to_read then Done (Ok None, self)
          else
            nxt ← add_u64 file_sector 1;
            let length := if nxt =? sectors_to_read then length mod 512 else 512 in
            hops ← div_ file_sector (sectors_per_cluster (bpb self));
            '(cl, self) ← follow_chain (Z.to_nat hops) self (cluster fat_file);
            start ← get_start_sector_of_cluster self cl;
            o ← rem_ (file_sector mod u32_lim) (sectors_per_cluster (bpb self));
            sector ← add_u32 start o;
            buffer ← disk_read (disk self) sector 1;
            Done (Ok (Some (length, buffer)), self)
      end
  end.

(** ** Mounting *)

(** [read_bios_block]; [None] is the [todo!] for FAT12. *)
Definition read_bios_block (fuel : nat) (pid ids : Z) (d : FSPartitionDisk) : outcome FAT :=
  buffer ← disk_read d 0 1;
  let bpb := read_bpb buffer in
  total_clusters ← div_ (total_sectors bpb) (sectors_per_cluster bpb);
  total_clusters ← (if total_clusters =? 0 then div_ (total_sectors_ext bpb) (sectors_per_cluster bpb) else Done total_clusters);
  ebr ← (if total_clusters <? 4085 then Panic PUnreachable
         else if total_clusters <? 65535 then Done (FAT16 (read_fat16ext buffer BPB_SIZE))
         else Done (FAT32 (read_fat32ext buffer BPB_SIZE)));
  '(_, fat) ← enumerate_root fuel (mkFAT pid bpb ebr d ∅ ∅ ids);
  Done fat.

(** [PartitionTableEntry], 16 bytes each from offset 446. *)
Record PartitionTableEntry := mkPTE { bootable : Z; pte_id : Z; start_lba : Z; pte_length : Z }.

Definition read_pte (b : list Z) (i : nat) : PartitionTableEntry :=
  let o := (446 + 16 * i)%nat in
  mkPTE (byte_at b o) (byte_at b (o + 4)) (u32_at b (o + 8)) (u32_at b (o + 12)).

(** [PARTITION], with the counters of [next_partition_id] and [next_file_id]. *)
Record Mounts := mkMounts { PARTITION : gmap Z FAT; next_partition : Z; next_file : Z }.

Fixpoint mount_all (fuel : nat) (secs : Z → list Z) (parts : list PartitionTableEntry) (s : Mounts) : outcome Mounts :=
  match parts with
  | [] => Done s
  | part :: parts =>
      if (0 <? start_lba part) || (0 <? bootable part) then
        let pid := next_partition s in
        fat ← read_bios_block fuel pid (next_file s) (mkDisk secs (start_lba part) (pte_length part));
        mount_all fuel secs parts (mkMounts (<[pid := fat]> (PARTITION s)) (pid + 1) (file_ids fat))
      else mount_all fuel secs parts s
  end.

(** [read_partitions]. *)
Definition read_partitions (fuel : nat) (secs : Z → list Z) (s : Mounts) : outcome Mounts :=
  let mbr := secs 0 in
  _ ← assert_ (bool_decide (slice mbr 510 2 = [0x55; 0xAA]));
  mount_all fuel secs (read_pte mbr <$> seq 0 4) s.

(** ** The file-system service *)
Definition with_partition {A} (s : Mounts) (id : Z) (f : FAT → outcome (result A FSServiceError * FAT))
  : outcome (result A FSServiceError * Mounts) :=
  match PARTITION s !! id with
  | None => Done (Err (NoSuchPartition id), s)
  | Some p => '(r, p) ← f p; Done (r, mkMounts (<[id := p]> (PARTITION s)) (next_partition s) (file_ids p))
  end.

(** The counter of file ids is one for all partitions. *)
Definition lend_ids (s : Mounts) (f : FAT) : FAT := with_ids f (next_file s).

Definition fs_get_file_by_id (fuel : nat) (s : Mounts) (id : Z * Z) : outcome (result VFile FSServiceError * Mounts) :=
  with_partition s (fst id) (λ p, get_file_by_id fuel (lend_ids s p) (snd id)).

Definition fs_read_file (s : Mounts) (id : Z * Z) (buffer : list Z) : outcome (result (list Z) FSServiceError * Mounts) :=
  with_partition s (fst id) (λ p, read_file (lend_ids s p) (snd id) buffer).

Definition fs_read_file_sector (s : Mounts) (id : Z * Z) (sector : Z)
  : outcome (result (option (Z * list Z)) FSServiceError * Mounts) :=
  with_partition s (fst id) (λ p, read_file_sector (lend_ids s p) (snd id) sector).

Definition SLASH : Z := 47.

Fixpoint walk_path (fuel : nat) (s : Mounts) (file : VFile) (path : list (list Z)) : outcome (result VFile FSServiceError * Mounts) :=
  match path with
  | [] => Done (Ok file, s)
  | [] :: path => walk_path fuel s file path
  | sect :: path =>
      match specialized file with
      | VFile_ _ => Done (Err CouldNotFollowPath, s)
      | VFolder f =>
          match f !! sect with
          | None => Done (Err CouldNotFollowPath, s)
          | Some id =>
              '(r, s) ← fs_get_file_by_id fuel s id;
              match r with Ok file => walk_path fuel s file path | Err e => Done (Err e, s) end
          end
      end
  end.

Definition get_file_from_path (fuel : nat) (s : Mounts) (pid : Z) (path : list Z) : outcome (result VFile FSServiceError * Mounts) :=
  '(r, s) ← fs_get_file_by_id fuel s (pid, 0);
  match r with Ok file => walk_path fuel s file (split_on SLASH path) | Err e => Done (Err e, s) end.

Inductive FSServiceMessage :=
  | RunStat (disk : Z) (path : list Z)
  | ReadRequest (disk node sector : Z)
  | ReadFullFileRequest (disk node : Z)
  | GetDisksRequest.

Inductive StatResponse :=
  | StatFolder (node_id : Z) (children : gset (list Z))
  | StatFile (node_id file_size : Z).

Inductive FSServiceMessageResp :=
  | RespStat (s : StatResponse)
  | RespRead (len : option Z) (data : option (list Z))
  | RespDisks (disks : gset Z).

(** [run_fs_query]; the message a response carries is its bytes. *)
Definition run_fs_query (fuel : nat) (s : Mounts) (q : FSServiceMessage) (buffer : list Z)
  : outcome (result FSServiceMessageResp FSServiceError * Mounts) :=
  match q with
  | RunStat d path =>
      '(r, s) ← get_file_from_path fuel s d path;
      Done (match r with
            | Err e => Err e
            | Ok file =>
                Ok (RespStat (match specialized file with
                              | VFolder children => StatFolder (snd (location file)) (dom children)
                              | VFile_ size => StatFile (snd (location file)) size
                              end))
            end, s)
  | ReadRequest d node sector =>
      '(r, s) ← fs_read_file_sector s (d, node) sector;
      Done (match r with
            | Err e => Err e
            | Ok (Some (len, buf)) => Ok (RespRead (Some len) (Some (take (Z.to_nat len) buf)))
            | Ok None => Ok (RespRead None None)
            end, s)
  | ReadFullFileRequest d node =>
      '(r, s) ← fs_read_file s (d, node) buffer;
      Done (match r with
            | Err e => Err e
            | Ok v => Ok (RespRead (Some (Z.of_nat (length v))) (Some v))
            end, s)
  | GetDisksRequest => Done (Ok (RespDisks (dom (PARTITION s))), s)
  end.

(** ** Reading a file is reading its clusters

    The abstract view: the sectors of the partition, the file allocation table on
    it, and the chain of clusters that starts at a cluster. *)
Definition sec (d : FSPartitionDisk) (s : Z) : list Z := sectors d (s + partition_offset d).

Definition fat_per_sector (self : FAT) : Z := 512 / fat_size self.

Definition next_of (self : FAT) (c : Z) : Z :=
  let b := sec (disk self) (c / fat_per_sector self + reserved_sectors (bpb self)) in
  let idx := Z.to_nat (c mod fat_per_sector self) in
  if fat_size self =? 4 then u32_at b (4 * idx) else u16_at b (2 * idx).

Fixpoint chain (self : FAT) (c : Z) (n : nat) : list Z :=
  match n with O => [] | S n => c :: chain self (next_of self c) n end.

(** The sectors of cluster [c], when the data starts at [fds]. *)
Definition cluster_sectors (self : FAT) (fds c : Z) : list Z :=
  seqZ ((c - 2) * sectors_per_cluster (bpb self) + fds) (sectors_per_cluster (bpb self)).

Definition file_sectors (self : FAT) (fds c : Z) (n : nat) : list Z :=
  concat (cluster_sectors self fds <$> chain self c n).

(** A mounted partition: the cache holds what the disk does, sectors are whole
    and the geometry fits the integers of the source. *)
Record fat_ok (self : FAT) (fds : Z) : Prop := {
  fo_cache : ∀ o b, cluster_chain_buffer self !! o = Some b → b = sec (disk self) o;
  fo_sector : ∀ s, length (sec (disk self) s) = 512%nat;
  fo_fds : first_data_sector self = Done fds;
  fo_spc : 0 < sectors_per_cluster (bpb self);
  fo_nonneg : 0 <= fds ∧ 0 <= reserved_sectors (bpb self) ∧ 0 <= partition_offset (disk self);
  fo_length : 0 <= partition_length (disk self) < u32_lim ∧ partition_length (disk self) + partition_offset (disk self) < u64_lim;
}.

(** A cluster whose data and table entry lie inside the partition. *)
Definition cluster_ok (self : FAT) (fds c : Z) : Prop :=
  2 <= c ∧ (c - 2) * sectors_per_cluster (bpb self) + fds + sectors_per_cluster (bpb self) <= partition_length (disk self) ∧
  c / fat_per_sector self + reserved_sectors (bpb self) < partition_length (disk self).

(** Only the cache changes. *)
Definition same_fat (a b : FAT) : Prop :=
  partition_id b = partition_id a ∧ bpb b = bpb a ∧ fat_ebr b = fat_ebr a ∧ disk b = disk a ∧
  file_id_lookup b = file_id_lookup a ∧ file_ids b = file_ids a.

Lemma same_fat_refl a : same_fat a a.
Proof. by splits. Qed.

Lemma same_fat_trans a b c : same_fat a b → same_fat b c → same_fat a c.
Proof. unfold same_fat. naive_solver congruence. Qed.

#[export] Hint Resolve same_fat_refl : fioxa.

Lemma seqZ_shift {X} (f : Z → X) k s n : f <$> seqZ (s + k) n = (λ x, f (x + k)) <$> seqZ s n.
Proof.
  apply list_eq. intros i. rewrite !list_lookup_fmap.
  destruct (decide (Z.of_nat i < n)).
  - rewrite !lookup_seqZ_lt by lia. cbn. do 2 f_equal. lia.
  - rewrite !lookup_seqZ_ge by lia. done.
Qed.

Lemma seqZ_one o : seqZ o 1 = [o].
Proof. by rewrite seqZ_cons, seqZ_nil by lia. Qed.

Lemma disk_read_ok d s n :
  0 <= s → 0 <= n → s + n <= partition_length d → 0 <= partition_offset d →
  partition_length d + partition_offset d < u64_lim →
  disk_read d s n = Done (concat (sec d <$> seqZ s n)).
Proof.
  intros. unfold disk_read. arith_keep. rewrite (proj2 (Z.leb_le _ _)) by lia. cbn [assert_ mbind outcome_bind].
  arith_keep. by rewrite seqZ_shift.
Qed.

Section fat.
Context (fds : Z).

Lemma same_fat_ok a b : same_fat a b → (∀ o x, cluster_chain_buffer b !! o = Some x → x = sec (disk b) o) → fat_ok a fds → fat_ok b fds.
Proof.
  intros (_ & E2 & E3 & E4 & _) Hc [? ? Hf ? ? ?].
  assert (Hf' : first_data_sector b = first_data_sector a) by (unfold first_data_sector, root_dir_sectors; by rewrite E2, E3).
  split; [exact Hc|..]; rewrite ?E2, ?E4, ?Hf'; done.
Qed.

Lemma same_next a b c : same_fat a b → next_of b c = next_of a c.
Proof. intros (_ & E2 & E3 & E4 & _). unfold next_of, fat_per_sector, fat_size. by rewrite E2, E3, E4. Qed.

Lemma same_chain a b n : same_fat a b → ∀ c, chain b c n = chain a c n.
Proof. intros Hs. induction n as [|n IH]; intros c; cbn; [done|]. by rewrite (same_next a b), IH. Qed.

Lemma same_cluster_ok a b c : same_fat a b → cluster_ok a fds c → cluster_ok b fds c.
Proof. intros (_ & E2 & E3 & E4 & _). unfold cluster_ok, fat_per_sector, fat_size. by rewrite E2, E3, E4. Qed.

(** The cached lookup returns the table's entry. *)
Lemma get_next_cluster_ok self c :
  fat_ok self fds → cluster_ok self fds c →
  ∃ self', get_next_cluster self c = Done (next_of self c, self') ∧ same_fat self self' ∧ fat_ok self' fds.
Proof.
  intros Hok (H2 & _ & Hfat). pose proof Hok as [Hc Hs Hf Hspc (Hn1 & Hn2 & Hn3) (Hl1 & Hl2)].
  unfold get_next_cluster. fold (fat_per_sector self).
  assert (0 < fat_per_sector self) by (unfold fat_per_sector, fat_size; destruct (fat_ebr self); reflexivity).
  assert (0 <= c / fat_per_sector self) by (apply Z.div_pos; lia).
  arith_keep. unfold next_of. set (o := c / fat_per_sector self + _) in *.
  destruct (cluster_chain_buffer self !! o) as [b|] eqn:E.
  - rewrite (Hc _ _ E). exists self. eauto with fioxa.
  - rewrite disk_read_ok by lia. rewrite !bind_ret, seqZ_one. cbn [fmap list_fmap concat]. rewrite app_nil_r.
    set (self' := with_cache self _). exists self'. assert (Hsame : same_fat self self') by (by splits).
    splits; [done|done|]. apply (same_fat_ok self); [done| |done].
    intros o' x. cbn. destruct (decide (o = o')) as [->|]; [rewrite lookup_insert_eq; congruence|].
    rewrite lookup_insert_ne by done. apply Hc.
Qed.

Lemma start_sector_ok self c :
  fat_ok self fds → cluster_ok self fds c →
  get_start_sector_of_cluster self c = Done ((c - 2) * sectors_per_cluster (bpb self) + fds).
Proof.
  intros [_ _ Hf Hspc (Hn1 & _ & _) (Hl1 & _)] (H2 & Hin & _). unfold get_start_sector_of_cluster.
  rewrite (proj2 (Z.leb_le 2 c)) by lia. cbn [assert_]. rewrite bind_ret.
  assert (0 <= (c - 2) * sectors_per_cluster (bpb self)) by nia.
  assert (c - 2 <= (c - 2) * sectors_per_cluster (bpb self)) by nia.
  unfold sub_u32, mul_u32, add_u32. rewrite !chk_ok by lia. rewrite bind_ret, chk_ok by lia. rewrite bind_ret, Hf, bind_ret.
  by rewrite chk_ok by lia.
Qed.
End fat.

(** *** Runs of sectors *)
Definition expand (runs : list (Z * Z)) : list Z := concat ((λ '(s, n), seqZ s n) <$> runs).

Definition run_ok (lim : Z) (r : Z * Z) : Prop := 0 <= fst r ∧ 0 < snd r ∧ fst r + snd r <= lim.

Lemma expand_app a b : expand (a ++ b) = expand a ++ expand b.
Proof. unfold expand. by rewrite fmap_app, concat_app. Qed.

Lemma expand_one s n : expand [(s, n)] = seqZ s n.
Proof. unfold expand. cbn. apply app_nil_r. Qed.

Lemma push_run_ok lim runs s n :
  lim < u32_lim → Forall (run_ok lim) runs → run_ok lim (s, n) →
  ∃ runs', push_run runs s n = Done runs' ∧ Forall (run_ok lim) runs' ∧ expand runs' = expand runs ++ seqZ s n.
Proof.
  intros Hlim Hruns (Hs & Hn & Hsn). cbn [fst snd] in *. unfold push_run.
  destruct (last runs) as [[st len]|] eqn:El.
  - apply last_Some in El as [init ->]. apply Forall_app in Hruns as [Hi Hl].
    apply Forall_singleton in Hl as (H1 & H2 & H3). cbn [fst snd] in *.
    unfold add_u32. rewrite (chk_ok u32_lim (st + len)) by lia. rewrite bind_ret. destruct (Z.eqb_spec (st + len) s) as [<-|].
    + rewrite chk_ok by lia. rewrite bind_ret. eexists. split; [reflexivity|].
      rewrite length_app, Nat.add_1_r. cbn [pred]. rewrite <- (Nat.add_0_r (length init)), insert_app_r. cbn [insert list_insert].
      split; [apply Forall_app; split; [done|]; apply Forall_singleton; unfold run_ok; cbn; lia|].
      rewrite !expand_app, !expand_one, <- (assoc_L (++)). f_equal. apply seqZ_app; lia.
    + eexists. split; [reflexivity|]. split.
      * apply Forall_app. split; [apply Forall_app; split; [done|]|]; apply Forall_singleton; unfold run_ok; cbn; lia.
      * by rewrite (expand_app _ [(s, n)]), expand_one.
  - apply last_None in El as ->. eexists. split; [reflexivity|]. split; [by apply Forall_singleton|].
    by rewrite expand_one.
Qed.

Lemma take_seqZ k s n : 0 <= k <= n → take (Z.to_nat k) (seqZ s n) = seqZ s k.
Proof.
  intros. replace n with (k + (n - k)) by lia. rewrite seqZ_app by lia.
  apply take_app_length'. rewrite length_seqZ. lia.
Qed.

(** Clusters that hold [n] sectors. *)
Definition clusters_for (self : FAT) (n : Z) : nat :=
  Z.to_nat ((n + sectors_per_cluster (bpb self) - 1) / sectors_per_cluster (bpb self)).

Lemma clusters_for_step self n :
  0 < sectors_per_cluster (bpb self) → 0 < n →
  clusters_for self n = S (clusters_for self (n - Z.min n (sectors_per_cluster (bpb self)))).
Proof.
  intros Hspc Hn. unfold clusters_for. set (k := sectors_per_cluster (bpb self)) in *.
  destruct (Z.min_spec n k) as [[Hlt ->]|[Hge ->]].
  - replace (n - n + k - 1) with (k - 1) by lia. rewrite (Z.div_small (k - 1) k) by lia.
    replace (n + k - 1) with (n - 1 + 1 * k) by lia. rewrite Z.div_add, Z.div_small by lia. done.
  - replace (n + k - 1) with (n - k + k - 1 + 1 * k) by lia. rewrite Z.div_add by lia.
    assert (0 <= (n - k + k - 1) / k) by (apply Z.div_pos; lia). lia.
Qed.

Section runs.
Context (fds : Z).

Lemma take_cluster self c n rest :
  0 < sectors_per_cluster (bpb self) → 0 < n →
  let a := Z.min n (sectors_per_cluster (bpb self)) in
  take (Z.to_nat n) (cluster_sectors self fds c ++ rest) =
    seqZ ((c - 2) * sectors_per_cluster (bpb self) + fds) a ++ take (Z.to_nat (n - a)) rest.
Proof.
  intros Hspc Hn a. unfold cluster_sectors. rewrite take_app, length_seqZ.
  destruct (Z.min_spec n (sectors_per_cluster (bpb self))) as [[Hlt E]|[Hge E]]; unfold a; rewrite E.
  - rewrite take_seqZ by lia. f_equal. f_equal. lia.
  - rewrite take_ge by (rewrite length_seqZ; lia). f_equal. f_equal. lia.
Qed.

Lemma file_runs_ok fuel : ∀ self n c runs,
  fat_ok self fds → 0 <= n <= Z.of_nat fuel → n < u32_lim → Forall (run_ok (partition_length (disk self))) runs →
  Forall (cluster_ok self fds) (chain self c (clusters_for self n)) →
  ∃ runs' self', file_runs fuel self n c runs = Done (runs', self') ∧ same_fat self self' ∧
    Forall (run_ok (partition_length (disk self))) runs' ∧
    expand runs' = expand runs ++ take (Z.to_nat n) (file_sectors self fds c (clusters_for self n)).
Proof.
  induction fuel as [|fuel IH]; intros self n c runs Hok Hn Hn32 Hruns Hch; cbn [file_runs].
  - replace n with 0 by lia. cbn. exists runs, self. splits; eauto with fioxa. by rewrite app_nil_r.
  - destruct (Z.ltb_spec 0 n).
    2: { replace n with 0 by lia. cbn. exists runs, self. splits; eauto with fioxa. by rewrite app_nil_r. }
    pose proof Hok as [_ _ _ Hspc (Hn1 & _) (Hl1 & _)]. rewrite clusters_for_step in Hch |- * by lia.
    set (a := Z.min n (sectors_per_cluster (bpb self))) in *. assert (Ha : 0 < a <= n) by lia.
    cbn [chain] in Hch. apply Forall_cons in Hch as [Hc Hch]. pose proof Hc as (Hc2 & Hin & _).
    rewrite (start_sector_ok fds self c Hok Hc), bind_ret.
    destruct (push_run_ok (partition_length (disk self)) runs ((c - 2) * sectors_per_cluster (bpb self) + fds) a)
      as (runs1 & -> & Hr1 & He1); [lia|done|split; cbn; nia|]. rewrite bind_ret.
    unfold sub_u32. rewrite chk_ok by lia. rewrite bind_ret.
    destruct (get_next_cluster_ok fds self c Hok Hc) as (self1 & -> & Hs1 & Hok1). rewrite bind_ret. cbv beta iota.
    pose proof Hs1 as (_ & Eb & _ & Ed & _).
    assert (Ecl : clusters_for self1 (n - a) = clusters_for self (n - a)) by (unfold clusters_for; by rewrite Eb).
    destruct (IH self1 (n - a) (next_of self c) runs1) as (runs2 & self2 & -> & Hs2 & Hr2 & He2);
      [done|lia|lia|by rewrite Ed| |].
    { rewrite Ecl, (same_chain self self1) by done. eapply Forall_impl; [exact Hch|]. intros. by eapply same_cluster_ok. }
    exists runs2, self2. splits; [done|by eapply same_fat_trans|by rewrite <- Ed|].
    rewrite He2, He1, Ecl. unfold file_sectors at 2. cbn [chain fmap list_fmap concat].
    rewrite take_cluster by lia. fold a. rewrite <- (assoc_L (++)). do 3 f_equal.
    unfold file_sectors. rewrite (same_chain self self1) by done. f_equal. apply list_fmap_ext. intros i x _.
    unfold cluster_sectors. by rewrite Eb.
Qed.
End runs.

(** *** Filling the buffer *)
Lemma put_put buf o x y : (o <= length buf)%nat → put (put buf o x) (o + length x) y = put buf o (x ++ y).
Proof.
  intros Ho. unfold put.
  assert (E : take (o + length x) (take o buf ++ x ++ drop (o + length x) buf) = take o buf ++ x).
  { rewrite (assoc_L (++)). apply take_app_length'. rewrite length_app, length_take. lia. }
  rewrite E, <- !(assoc_L (++)). f_equal. f_equal. f_equal. rewrite length_app.
  rewrite (assoc_L (++)), drop_app, drop_drop, length_app, length_take. rewrite (drop_ge (take o buf ++ x)).
  - cbn. f_equal. lia.
  - rewrite length_app, length_take. lia.
Qed.

Lemma length_put buf o x : (o + length x <= length buf)%nat → length (put buf o x) = length buf.
Proof. intros. unfold put. rewrite !length_app, length_take, length_drop. lia. Qed.

Definition whole (d : FSPartitionDisk) : Prop := ∀ s, length (sec d s) = 512%nat.

Lemma length_secs d l : whole d → length (concat (sec d <$> l)) = (512 * length l)%nat.
Proof. intros Hw. induction l as [|s l IH]; [done|]. cbn. rewrite length_app, Hw, IH. lia. Qed.

Section reading.
Context (d : FSPartitionDisk) (Hw : whole d).
Context (Hlim : 0 <= partition_length d < u32_lim) (Hoff : 0 <= partition_offset d).
Context (H64 : partition_length d + partition_offset d < u64_lim).

Lemma read_run_ok fuel : ∀ s n buf o,
  0 <= s → 0 <= n <= Z.of_nat fuel → s + n <= partition_length d → (o + Z.to_nat (512 * n) <= length buf)%nat →
  read_run fuel d s n buf o = Done (put buf o (concat (sec d <$> seqZ s n)), (o + Z.to_nat (512 * n))%nat).
Proof.
  assert (Hz : ∀ b o, (o <= length b)%nat → put b o [] = b)
    by (intros b o Ho; unfold put; cbn; by rewrite Nat.add_0_r, take_drop).
  induction fuel as [|fuel IH]; intros s n buf o Hs Hn Hin Ho; cbn [read_run].
  { replace n with 0 by lia. cbn. rewrite Hz by lia. by rewrite Nat.add_0_r. }
  destruct (Z.ltb_spec 0 n).
  2: { replace n with 0 by lia. cbn. rewrite Hz by lia. by rewrite Nat.add_0_r. }
  rewrite (proj2 (Nat.leb_le o (length buf))) by lia. rewrite bind_ret.
  set (a := Z.min n 56). assert (Ha : 0 < a <= n) by lia.
  rewrite disk_read_ok by lia. rewrite bind_ret. unfold add_u32, sub_u32. rewrite !chk_ok by lia. rewrite bind_ret.
  rewrite bind_ret.
  assert (Hl : length (concat (sec d <$> seqZ s a)) = Z.to_nat (a * 512)) by (rewrite length_secs, length_seqZ by done; lia).
  rewrite IH; [|lia|lia|lia|rewrite length_put; lia].
  replace (Z.to_nat (a * 512)) with (length (concat (sec d <$> seqZ s a))).
  rewrite put_put by lia. do 2 f_equal; [|lia].
  f_equal. rewrite <- concat_app, <- fmap_app, <- seqZ_app by lia. do 3 f_equal. lia.
Qed.

Lemma read_runs_ok runs : ∀ buf o,
  Forall (run_ok (partition_length d)) runs → (o + 512 * length (expand runs) <= length buf)%nat →
  read_runs d runs buf o = Done (put buf o (concat (sec d <$> expand runs)), (o + 512 * length (expand runs))%nat).
Proof.
  induction runs as [|[s n] runs IH]; intros buf o Hr Ho; cbn [read_runs].
  { unfold expand. cbn. f_equal. f_equal; [|lia]. unfold put. cbn. by rewrite Nat.add_0_r, take_drop. }
  apply Forall_cons in Hr as [(H1 & H2 & H3) Hr]. cbn [fst snd] in *.
  change (expand ((s, n) :: runs)) with (seqZ s n ++ expand runs) in *. rewrite length_app, length_seqZ in Ho.
  rewrite read_run_ok by lia. rewrite bind_ret. cbv beta iota.
  assert (Hl : length (concat (sec d <$> seqZ s n)) = Z.to_nat (512 * n)) by (rewrite length_secs, length_seqZ by done; lia).
  rewrite IH; [|done|rewrite length_put; lia]. replace (Z.to_nat (512 * n)) with (length (concat (sec d <$> seqZ s n))) at 1.
  rewrite put_put by lia. rewrite fmap_app, concat_app, length_app, length_seqZ. do 2 f_equal. lia.
Qed.
End reading.

(** The bytes of the first [n] clusters of a chain. *)
Definition chain_bytes (self : FAT) (fds c : Z) (n : nat) : list Z :=
  concat (sec (disk self) <$> file_sectors self fds c n).

Lemma sectors_for len : 0 <= len → 0 <= (len + 511) / 512 ∧ len <= 512 * ((len + 511) / 512) < len + 512.
Proof. intros. pose proof (Z.div_mod (len + 511) 512). pose proof (Z.mod_pos_bound (len + 511) 512). lia. Qed.

Lemma length_file_sectors self fds c n :
  0 < sectors_per_cluster (bpb self) →
  length (file_sectors self fds c n) = (n * Z.to_nat (sectors_per_cluster (bpb self)))%nat.
Proof.
  intros. unfold file_sectors. revert c. induction n as [|n IH]; intros c; [done|].
  cbn [chain fmap list_fmap concat]. rewrite length_app, IH. unfold cluster_sectors. rewrite length_seqZ. lia.
Qed.

Lemma take_secs d l n k : whole d → (k <= 512 * n)%nat →
  take k (concat (sec d <$> take n l)) = take k (concat (sec d <$> l)).
Proof.
  intros Hw Hk. rewrite <- (take_drop n l) at 2. rewrite fmap_app, concat_app.
  destruct (decide (n <= length l)%nat) as [Hn|Hn].
  - rewrite take_app_le; [done|]. rewrite length_secs, length_take by done. lia.
  - rewrite (drop_ge l) by lia. cbn. by rewrite app_nil_r.
Qed.

(** C10: [read_file] returns the file: whatever the scratch buffer held before,
    gathering the chain into runs of adjacent sectors and reading them in batches
    of at most 56 yields exactly the first [len] bytes of the concatenation of the
    clusters of its chain; only the cache of the allocation table changes, and it
    keeps agreeing with the disk. *)
Theorem read_file_spec self fds file_id c0 len buf :
  fat_ok self fds → file_id_lookup self !! file_id = Some (mkFile c0 (FFile len)) →
  0 <= len < u32_lim - 511 →
  let n := clusters_for self ((len + 511) / 512) in
  Forall (cluster_ok self fds) (chain self c0 n) →
  ∃ self', read_file self file_id buf = Done (Ok (take (Z.to_nat len) (chain_bytes self fds c0 n)), self') ∧
    same_fat self self'.
Proof.
  intros Hok Hf Hlen n Hch. unfold read_file. rewrite Hf. cbn [entry_type cluster].
  pose proof Hok as [_ Hw _ Hspc (_ & _ & Hoff) (Hl1 & Hl2)].
  destruct (sectors_for len) as [Hs0 Hs1]; [lia|]. set (k := (len + 511) / 512) in *.
  unfold add_u64, add_u32. rewrite (chk_ok u64_lim), (chk_ok u32_lim) by (unfold u64_lim, u32_lim in *; lia). rewrite !bind_ret. cbv beta zeta. fold k.
  assert (Hbs : Z.land (len + 511) (not_u64 511) = 512 * k).
  { change 511 with (2 ^ 9 - 1) at 2. rewrite land_not_ones by (unfold u64_lim, u32_lim in *; lia).
    change (2 ^ 9) with 512. pose proof (Z.div_mod (len + 511) 512). lia. }
  rewrite Hbs.
  destruct (file_runs_ok fds (Z.to_nat k) self k c0 []) as (runs & self' & -> & Hsame & Hr & He);
    [done|lia|unfold u32_lim in *; lia|done|done|]. rewrite bind_ret. cbv beta iota. cbn [app expand fmap list_fmap concat] in He.
  change (expand []) with (@nil Z) in He. cbn [app] in He. fold n in He.
  assert (Hfl : length (expand runs) = Z.to_nat k).
  { rewrite He, length_take, length_file_sectors by done. unfold n, clusters_for.
    set (spc := sectors_per_cluster (bpb self)) in *. pose proof (Z.div_mod (k + spc - 1) spc). pose proof (Z.mod_pos_bound (k + spc - 1) spc).
    assert (0 <= (k + spc - 1) / spc) by (apply Z.div_pos; lia). nia. }
  pose proof Hsame as (_ & _ & _ & Ed & _). rewrite Ed.
  set (buf' := resize buf (Z.to_nat (512 * k))).
  assert (Hb : length buf' = Z.to_nat (512 * k)) by (unfold buf', resize; rewrite length_app, length_take, length_replicate; lia).
  rewrite (read_runs_ok (disk self) Hw Hl1 Hoff Hl2) by (first [done|lia]). rewrite bind_ret. cbv beta iota.
  exists self'. split; [|done]. do 3 f_equal. unfold put. rewrite take_0. cbn [app].
  assert (Hbl : length (concat (sec (disk self) <$> expand runs)) = Z.to_nat (512 * k)) by (rewrite length_secs, Hfl by done; lia).
  rewrite take_app_le by (rewrite Hbl; lia). rewrite He. apply take_secs; [done|lia].
Qed.

(** *** One sector at a time *)
Lemma chain_lookup_ok self fds n : ∀ c h,
  fat_ok self fds → Forall (cluster_ok self fds) (chain self c n) → (h < n)%nat →
  ∃ ch self', chain self c n !! h = Some ch ∧ follow_chain h self c = Done (ch, self') ∧
    same_fat self self' ∧ fat_ok self' fds ∧ cluster_ok self fds ch.
Proof.
  revert self. induction n as [|n IH]; intros self c h Hok Hch Hh; [lia|]. cbn [chain] in Hch |- *.
  apply Forall_cons in Hch as [Hc Hch]. destruct h as [|h]; cbn [follow_chain].
  { exists c, self. splits; eauto with fioxa. }
  destruct (get_next_cluster_ok fds self c Hok Hc) as (self1 & -> & Hs1 & Hok1). rewrite bind_ret. cbv beta iota.
  destruct (IH self1 (next_of self c) h Hok1) as (ch & self2 & El & Ef & Hs2 & Hok2 & Hc2); [|lia|].
  { rewrite (same_chain self self1) by done. eapply Forall_impl; [exact Hch|]. intros. by eapply same_cluster_ok. }
  rewrite (same_chain self self1) in El by done. exists ch, self2. splits; try done; [by eapply same_fat_trans|].
  destruct Hs1 as (E1 & E2 & E3 & E4 & E5 & E6). unfold cluster_ok, fat_per_sector, fat_size in *. by rewrite <- E2, <- E3, <- E4.
Qed.

Lemma file_sectors_lookup self fds n : ∀ c i,
  0 < sectors_per_cluster (bpb self) → 0 <= i < Z.of_nat n * sectors_per_cluster (bpb self) →
  ∃ ch, chain self c n !! Z.to_nat (i / sectors_per_cluster (bpb self)) = Some ch ∧
    file_sectors self fds c n !! Z.to_nat i =
      Some ((ch - 2) * sectors_per_cluster (bpb self) + fds + i mod sectors_per_cluster (bpb self)).
Proof.
  induction n as [|n IH]; intros c i Hspc Hi; [lia|]. set (spc := sectors_per_cluster (bpb self)) in *.
  change (file_sectors self fds c (S n)) with (cluster_sectors self fds c ++ file_sectors self fds (next_of self c) n).
  cbn [chain]. assert (Hl : length (cluster_sectors self fds c) = Z.to_nat spc) by (unfold cluster_sectors; by rewrite length_seqZ).
  destruct (decide (i < spc)) as [Hlt|Hge].
  - rewrite Z.div_small, Z.mod_small by lia. exists c. split; [done|]. rewrite lookup_app_l by lia.
    unfold cluster_sectors. rewrite lookup_seqZ_lt by (fold spc; lia). f_equal. fold spc. lia.
  - destruct (IH (next_of self c) (i - spc) Hspc) as (ch & E1 & E2); [lia|].
    assert (Ei : i = (i - spc) + 1 * spc) by lia.
    assert (Ed : i / spc = (i - spc) / spc + 1) by (rewrite Ei at 1; rewrite Z.div_add by lia; lia).
    assert (Em : i mod spc = (i - spc) mod spc) by (rewrite Ei at 1; by rewrite Z.mod_add by lia).
    assert (0 <= (i - spc) / spc) by (apply Z.div_pos; lia).
    exists ch. rewrite Em. split.
    + rewrite Ed. replace (Z.to_nat ((i - spc) / spc + 1)) with (S (Z.to_nat ((i - spc) / spc))) by lia. exact E1.
    + rewrite lookup_app_r by lia. rewrite Hl. replace (Z.to_nat i - Z.to_nat spc)%nat with (Z.to_nat (i - spc)) by lia. exact E2.
Qed.

Lemma sector_slice d l i s : whole d → l !! i = Some s →
  take 512 (drop (512 * i) (concat (sec d <$> l))) = sec d s.
Proof.
  intros Hw. revert i. induction l as [|x l IH]; intros i Hi; [done|]. cbn [fmap list_fmap concat]. destruct i as [|i].
  - injection Hi as ->. rewrite Nat.mul_0_r, drop_0. by rewrite take_app_length' by (by rewrite Hw).
  - replace (512 * S i)%nat with (length (sec d x) + 512 * i)%nat by (rewrite Hw; lia).
    rewrite <- drop_drop, drop_app_length. by apply IH.
Qed.

(** [read_file_sector] agrees with [read_file]: the sector after the last is
    the end of the file; of every other sector of the file it returns the bytes and
    how many of them belong to the file, except that the last sector of a file
    whose size is a multiple of 512 is reported with length zero, so that a reader
    that goes by the lengths loses it. *)
Theorem read_file_sector_spec self fds file_id c0 len i :
  fat_ok self fds → file_id_lookup self !! file_id = Some (mkFile c0 (FFile len)) →
  0 <= len < u32_lim - 511 →
  let k := (len + 511) / 512 in
  let n := clusters_for self k in
  Forall (cluster_ok self fds) (chain self c0 n) → 0 <= i <= k →
  (i = k → read_file_sector self file_id i = Done (Ok None, self)) ∧
  (i < k → ∃ self' l buf, read_file_sector self file_id i = Done (Ok (Some (l, buf)), self') ∧ same_fat self self' ∧
     let file := take (Z.to_nat len) (chain_bytes self fds c0 n) in
     (if decide (i + 1 = k ∧ len mod 512 = 0) then l = 0 ∧ length (drop (Z.to_nat (512 * i)) file) = 512%nat
      else take (Z.to_nat l) buf = take 512 (drop (Z.to_nat (512 * i)) file))).
Proof.
  intros Hok Hf Hlen k n Hch Hi. unfold read_file_sector, get_fat_file. rewrite Hf. cbn [entry_type cluster].
  pose proof Hok as [_ Hw _ Hspc (_ & _ & Hoff) (Hl1 & Hl2)]. set (spc := sectors_per_cluster (bpb self)) in *.
  destruct (sectors_for len) as [Hs0 Hs1]; [lia|]. fold k in Hs0, Hs1.
  assert (Eup : add_u32 len 511 = Done (len + 511)) by (apply chk_ok; lia). rewrite Eup, bind_ret. clear Eup. cbv beta zeta. fold k.
  split; [intros ->; by rewrite Z.eqb_refl|]. intros Hik. rewrite (proj2 (Z.eqb_neq i k)) by lia.
  unfold add_u64. rewrite chk_ok by (unfold u64_lim, u32_lim in *; lia). rewrite bind_ret. cbv beta zeta.
  unfold div_. rewrite (proj2 (Z.eqb_neq spc 0)) by lia. rewrite bind_ret.
  assert (Hnk : k <= Z.of_nat n * spc).
  { unfold n, clusters_for. fold spc. pose proof (Z.div_mod (k + spc - 1) spc). pose proof (Z.mod_pos_bound (k + spc - 1) spc).
    assert (0 <= (k + spc - 1) / spc) by (apply Z.div_pos; lia). nia. }
  destruct (file_sectors_lookup self fds n c0 i Hspc) as (ch & Ech & Esec); [fold spc; lia|]. fold spc in Ech, Esec.
  destruct (chain_lookup_ok self fds n c0 (Z.to_nat (i / spc)) Hok Hch) as (ch' & self1 & Ech' & -> & Hs & Hok1 & Hc).
  { apply lookup_lt_Some in Ech. assert (Hcl : ∀ c m, length (chain self c m) = m) by (intros c m; revert c; induction m; cbn; auto).
    by rewrite Hcl in Ech. }
  rewrite Ech in Ech'. injection Ech' as <-. rewrite bind_ret. cbv beta iota.
  rewrite (start_sector_ok fds self1 ch Hok1) by (by eapply same_cluster_ok). rewrite bind_ret.
  pose proof Hs as (_ & Eb & _ & Ed & _). rewrite Eb, Ed. fold spc. unfold rem_. rewrite (proj2 (Z.eqb_neq spc 0)) by lia.
  rewrite bind_ret, (Z.mod_small i u32_lim) by (unfold u32_lim in *; lia).
  pose proof (Z.mod_pos_bound i spc) as Hm. destruct Hc as (Hc2 & Hin & _). fold spc in Hin.
  pose proof (fo_nonneg _ _ Hok) as (Hf0 & _). assert (0 <= (ch - 2) * spc) by nia.
  unfold add_u32. rewrite chk_ok by lia. rewrite bind_ret, disk_read_ok by lia. rewrite bind_ret, seqZ_one.
  cbn [fmap list_fmap concat]. rewrite app_nil_r. set (s := (ch - 2) * spc + fds + i mod spc) in *.
  eexists self1, _, _. split; [reflexivity|]. split; [done|]. cbv zeta.
  assert (Hslice : take 512 (drop (Z.to_nat (512 * i)) (chain_bytes self fds c0 n)) = sec (disk self) s).
  { unfold chain_bytes. replace (Z.to_nat (512 * i)) with (512 * Z.to_nat i)%nat by lia. by apply sector_slice. }
  assert (Hbl : (Z.to_nat len <= length (chain_bytes self fds c0 n))%nat).
  { unfold chain_bytes. rewrite length_secs, length_file_sectors by done. fold spc. nia. }
  rewrite <- Hslice. clear Hslice. set (B := chain_bytes self fds c0 n) in *.
  assert (Hd : len mod 512 = len - 512 * (len / 512)) by (pose proof (Z.div_mod len 512); lia).
  assert (Hk1 : k = len / 512 + (if decide (len mod 512 = 0) then 0 else 1)).
  { pose proof (Z.mod_pos_bound len 512). unfold k. case_decide as E.
    - replace (len + 511) with (511 + (len / 512) * 512) by lia. rewrite Z.div_add by lia. rewrite Z.div_small by lia. lia.
    - replace (len + 511) with ((len mod 512 - 1) + (len / 512 + 1) * 512) by lia. rewrite Z.div_add by lia. rewrite Z.div_small by lia. lia. }
  destruct (decide (i + 1 = k ∧ len mod 512 = 0)) as [[E1 E2]|E].
  - rewrite E1, Z.eqb_refl, E2. split; [done|].
    rewrite length_drop, length_take. rewrite decide_True in Hk1 by done. lia.
  - rewrite skipn_firstn_comm, take_take, take_take. f_equal.
    destruct (Z.eqb_spec (i + 1) k) as [Ek|Ek].
    + assert (len mod 512 ≠ 0) by (intros ?; by apply E). rewrite decide_False in Hk1 by done.
      pose proof (Z.mod_pos_bound len 512). lia.
    + destruct (decide (len mod 512 = 0)); lia.
Qed.

(** ** A concrete volume

    FAT16, two sectors per cluster, data from sector 3; file 1 has 1300 bytes in
    the chain 2 -> 4, file 2 has 1024 bytes in cluster 3, and every data sector
    repeats its own number. *)
Definition demo_fat_sector : list Z := [0; 0; 0; 0; 4; 0; 0xFF; 0xFF; 0xFF; 0xFF] ++ replicate 502 0.

Definition demo_disk : FSPartitionDisk :=
  mkDisk (λ s, if s =? 101 then demo_fat_sector else replicate 512 (s - 100)) 100 1000.

Definition demo_fat : FAT :=
  mkFAT 0 (mkBPB [] 512 2 1 1 16 1000 0xF8 1 0 0 0 0) (FAT16 (mkF16 0 0 0 0 [] [])) demo_disk
    {[ 1 := mkFile 2 (FFile 1300); 2 := mkFile 3 (FFile 1024) ]} ∅ 3.

Lemma demo_fat_ok : fat_ok demo_fat 3.
Proof.
  split; [done| |reflexivity|reflexivity|done|done].
  intros s. unfold sec, demo_fat, demo_disk. cbn [disk sectors partition_offset]. by destruct (_ =? _).
Qed.

Lemma demo_chain_ok : Forall (cluster_ok demo_fat 3) (chain demo_fat 2 2).
Proof. repeat constructor; vm_compute; congruence. Qed.

Lemma read_file_spec_witness :
  ∃ self', read_file demo_fat 1 [9; 9] = Done (Ok (replicate 512 3 ++ replicate 512 4 ++ replicate 276 7), self').
Proof.
  destruct (read_file_spec demo_fat 3 1 2 1300 [9; 9] demo_fat_ok eq_refl) as (self' & E & _);
    [done|exact demo_chain_ok|]. exists self'. exact E.
Defined.

(** The last sector of file 2 is full and comes back with length zero. *)
Lemma read_file_sector_spec_witness :
  ∃ self' l buf, read_file_sector demo_fat 2 1 = Done (Ok (Some (l, buf)), self') ∧ l = 0.
Proof.
  destruct (read_file_sector_spec demo_fat 3 2 3 1024 1 demo_fat_ok eq_refl) as [_ H]; [done| |done|].
  - repeat constructor; vm_compute; congruence.
  - destruct H as (self' & l & buf & E & _ & Hl); [reflexivity|]. exists self', l, buf. split; [exact E|].
    revert Hl. cbv zeta. rewrite decide_True by done. by intros [-> _].
Defined.
