(* ===== verification/Slab.v ===== *)
(** * Slab allocators

    [kernel/src/allocator/slab_allocator.rs], the kernel's heap, and
    [userspace_slaballoc/src/slab.rs], the heap of programs.  Both keep nine lists
    of free blocks of the sizes 8 to 2048 inside the blocks themselves, carve a new
    page into blocks when a list is empty and pass larger requests to where pages
    come from.  They differ only in that source: the kernel maps frames at the end
    of its heap, a program calls [mmap_page].  The source is the interface
    [PageSource]; the allocator is verified against what the source promises. *)
From S2P Require Import Prelude.

(** [core::alloc::Layout]. *)
Record Layout := mkLayout { l_size : Z; l_align : Z }.

Definition SLAB_SIZES : list Z := [8; 16; 32; 64; 128; 256; 512; 1024; 2048].

(** Find the smallest block. *)
Definition block_size (min_size : Z) : option nat :=
  fst <$> list_find (λ size, min_size ≤ size) SLAB_SIZES.

(** [layout.size().max(layout.align())]. *)
Definition min_size (layout : Layout) : Z := Z.max (l_size layout) (l_align layout).

(** Where the allocator gets its memory. *)
Class PageSource (S : Type) := {
  ps_page : S → outcome (Z * S);          (* one page, to be carved *)
  ps_alloc : S → Z → outcome (Z * S);     (* a request of more than 2048 bytes *)
  ps_free : S → Z → Z → outcome S;        (* the return of such a request *)
}.

(** The allocator with the memory its lists live in: [nodes] is the [next] field of
    the [ListNode] at an address. *)
Record SlabAllocator (S : Type) := mkSlab {
  slab_heads : list (option Z);
  nodes : Z → option Z;
  source : S;
}.
Arguments mkSlab {S}.
Arguments slab_heads {S}.
Arguments nodes {S}.
Arguments source {S}.

(** The addresses [(base..base + n).step_by(step)] yields. *)
Definition step_by (base n step : Z) : list Z :=
  (λ i, base + Z.of_nat i * step) <$> seq 0 (Z.to_nat ((n + step - 1) / step)).

(** The loop that links the blocks of a new page. *)
Fixpoint carve (nodes : Z → option Z) (current_node : option Z) (blocks : list Z)
  : (Z → option Z) * option Z :=
  match blocks with
  | [] => (nodes, current_node)
  | block :: blocks => carve (<[block := current_node]> nodes) (Some block) blocks
  end.

Section slab.
Context {S : Type} `{PageSource S}.

Definition SlabAllocator_new (src : S) (memory : Z → option Z) : SlabAllocator S :=
  mkSlab (replicate (length SLAB_SIZES) None) memory src.

Definition slab_alloc (s : SlabAllocator S) (layout : Layout) : outcome (Z * SlabAllocator S) :=
  match block_size (min_size layout) with
  | Some i =>
      head ← index (slab_heads s) i;
      match head with
      | Some node =>
          heads ← index_set (slab_heads s) i (nodes s node);
          Done (node, mkSlab heads (<[node := None]> (nodes s)) (source s))
      | None =>
          bs ← index SLAB_SIZES i;
          '(base, src) ← ps_page (source s);
          _ ← add_u64 base 0x1000;
          let '(mem, current_node) := carve (nodes s) None (step_by base 0x1000 bs) in
          nxt ← unwrap current_node;
          heads ← index_set (slab_heads s) i (mem nxt);
          Done (nxt, mkSlab heads (<[nxt := None]> mem) src)
      end
  | None =>
      '(base, src) ← ps_alloc (source s) (min_size layout);
      Done (base, mkSlab (slab_heads s) (nodes s) src)
  end.

Definition slab_dealloc (s : SlabAllocator S) (ptr : Z) (layout : Layout) : outcome (SlabAllocator S) :=
  match block_size (min_size layout) with
  | Some i =>
      head ← index (slab_heads s) i;
      heads ← index_set (slab_heads s) i (Some ptr);
      Done (mkSlab heads (<[ptr := head]> (nodes s)) (source s))
  | None =>
      src ← ps_free (source s) ptr (min_size layout);
      Done (mkSlab (slab_heads s) (nodes s) src)
  end.
End slab.

(** ** Disjoint ranges of bytes *)
Notation range := (Z * Z)%type (only parsing).   (* start, length *)

Definition disj (x y : range) : Prop := x.1 + x.2 ≤ y.1 ∨ y.1 + y.2 ≤ x.1.

Definition inside (x y : range) : Prop := y.1 ≤ x.1 ∧ x.1 + x.2 ≤ y.1 + y.2.

Fixpoint all_disj (l : list range) : Prop :=
  match l with [] => True | x :: l => Forall (disj x) l ∧ all_disj l end.

#[export] Instance disj_sym : Symmetric disj.
Proof. unfold disj. intros ???. tauto. Qed.

#[export] Instance all_disj_perm : Proper ((≡ₚ) ==> iff) all_disj.
Proof.
  assert (Himp : ∀ l l', l ≡ₚ l' → all_disj l → all_disj l').
  { induction 1 as [|x l l' Hp IH|x y l|]; cbn; [done| | |tauto].
    - intros [Hx Hl]. split; [by rewrite <- Hp|auto].
    - intros [[Hxy Hx]%Forall_cons [Hy Hl]]. split_and!; [constructor; [by symmetry|done]|done|done]. }
  intros l l' Hp. split; apply Himp; [done|by symmetry].
Qed.

Lemma all_disj_app l1 l2 :
  all_disj (l1 ++ l2) ↔ all_disj l1 ∧ all_disj l2 ∧ ∀ x y, x ∈ l1 → y ∈ l2 → disj x y.
Proof.
  induction l1 as [|x l1 IH]; cbn; [set_solver|].
  rewrite Forall_app, !Forall_forall, IH. set_solver.
Qed.

Lemma disj_inside x y x' : disj x y → inside x' x → disj x' y.
Proof. unfold disj, inside. lia. Qed.

(** Ranges inside the ranges of a disjoint list are disjoint. *)
Lemma all_disj_inside l l' : Forall2 inside l' l → all_disj l → all_disj l'.
Proof.
  induction 1 as [|x' x l' l Hx Hl IH]; cbn; [done|]. intros [Hd Hall]. split; [|auto].
  clear IH Hall. induction Hl as [|y' y l' l Hy Hl IH]; [done|].
  apply Forall_cons in Hd as [Hxy Hd]. constructor; [|auto].
  symmetry. eapply disj_inside; [|done]. symmetry. by eapply disj_inside.
Qed.

Lemma disj_ne x y : 0 < x.2 → 0 < y.2 → disj x y → x.1 ≠ y.1.
Proof. unfold disj. lia. Qed.

(** ** What the source promises *)
Definition pages_for (len : Z) : nat := Z.to_nat ((len + 0xFFF) / 0x1000).

Class PageSourceSpec (S : Type) `{PageSource S} := {
  (** the ranges handed out and not returned, and a number of pages that can still
      be had *)
  ps_inv : S → list range → nat → Prop;
  ps_inv_perm s : Proper ((≡ₚ) ==> (=) ==> iff) (ps_inv s);
  ps_inv_disj s R n : ps_inv s R n → all_disj R;
  ps_page_spec s R n :
    ps_inv s R (1 + n) →
    ∃ base s', ps_page s = Done (base, s') ∧ ps_inv s' ((base, 0x1000) :: R) n ∧
      base mod 0x1000 = 0 ∧ 0 ≤ base ∧ base + 0x1000 < u64_lim;
  ps_alloc_spec s R len n :
    ps_inv s R (pages_for len + n) → 2048 < len →
    ∃ base s', ps_alloc s len = Done (base, s') ∧ ps_inv s' ((base, len) :: R) n ∧
      base mod 0x1000 = 0 ∧ 0 ≤ base;
  ps_free_spec s R base len n :
    ps_inv s ((base, len) :: R) n → 2048 < len →
    ∃ s', ps_free s base len = Done s' ∧ ps_inv s' R n;
}.
#[export] Existing Instance ps_inv_perm.

(** ** The lists of free blocks *)
Fixpoint chain (next : Z → option Z) (head : option Z) (l : list Z) : Prop :=
  match l with
  | [] => head = None
  | x :: l => head = Some x ∧ chain next (next x) l
  end.

Lemma chain_ext next next' head l :
  (∀ x, x ∈ l → next' x = next x) → chain next head l → chain next' head l.
Proof.
  revert head. induction l as [|x l IH]; intros head Hx; cbn; [done|].
  intros [-> Hl]. split; [done|]. rewrite Hx by set_solver. apply IH; [set_solver|done].
Qed.

Lemma chain_insert next head l x v : x ∉ l → chain next head l → chain (<[x := v]> next) head l.
Proof. intros Hx. apply chain_ext. intros y Hy. apply fn_lookup_insert_ne. set_solver. Qed.

(** Carving links the blocks of the page in front of the list, the last one first. *)
Lemma carve_ok blocks : ∀ next head l,
  NoDup (blocks ++ l) → chain next head l →
  let '(next', head') := carve next head blocks in
  chain next' head' (reverse blocks ++ l) ∧ ∀ x, x ∉ blocks → next' x = next x.
Proof.
  induction blocks as [|b blocks IH]; intros next head l Hnd Hl; cbn [carve]; [done|].
  cbn in Hnd. apply NoDup_cons in Hnd as [Hb Hnd].
  specialize (IH (<[b := head]> next) (Some b) (b :: l)). destruct (carve _ _ blocks) as [next' head'].
  destruct IH as [Hc Hout].
  - rewrite <- Permutation_middle. constructor; done.
  - split; [done|]. rewrite fn_lookup_insert. apply chain_insert; [set_solver|done].
  - split.
    + rewrite reverse_cons, <- (assoc_L (++)). done.
    + intros x Hx. rewrite Hout by set_solver. apply fn_lookup_insert_ne. set_solver.
Qed.

(** *** The blocks of the nine lists *)
Definition sized (sz : Z) (l : list Z) : list range := (λ a, (a, sz)) <$> l.

Definition free_blocks (free : list (list Z)) : list range := concat (zip_with sized SLAB_SIZES free).

Lemma concat_zip_with_insert {A B C} (g : A → B → list C) ks : ∀ ls i k l l' c,
  ks !! i = Some k → ls !! i = Some l → g k l ≡ₚ c ++ g k l' →
  concat (zip_with g ks ls) ≡ₚ c ++ concat (zip_with g ks (<[i := l']> ls)).
Proof.
  induction ks as [|k0 ks IH]; intros [|l0 ls] [|i] k l l' c Hk Hl Hp; try done; cbn in *; simplify_eq.
  - by rewrite Hp, (assoc_L (++)).
  - rewrite (IH ls i k l l' c) by done. solve_Permutation.
Qed.

Lemma free_blocks_take free i sz x l :
  SLAB_SIZES !! i = Some sz → free !! i = Some (x :: l) →
  free_blocks free ≡ₚ (x, sz) :: free_blocks (<[i := l]> free).
Proof. intros. by eapply (concat_zip_with_insert sized _ _ i sz (x :: l) l [(x, sz)]). Qed.

Lemma free_blocks_put free i sz x l :
  SLAB_SIZES !! i = Some sz → free !! i = Some l →
  free_blocks (<[i := x :: l]> free) ≡ₚ (x, sz) :: free_blocks free.
Proof.
  intros Hsz Hl. rewrite (free_blocks_take _ i sz x l) by (done || by apply list_lookup_insert_eq, lookup_lt_is_Some_1).
  by rewrite list_insert_insert_eq, list_insert_id.
Qed.

Lemma elem_of_free_blocks free i sz x l :
  SLAB_SIZES !! i = Some sz → free !! i = Some l → x ∈ l → (x, sz) ∈ free_blocks free.
Proof.
  intros Hsz Hl Hx. unfold free_blocks. apply list_elem_of_In, in_concat.
  exists (sized sz l). split; apply list_elem_of_In.
  - apply list_elem_of_lookup. exists i. by rewrite lookup_zip_with, Hsz; cbn; rewrite Hl.
  - apply list_elem_of_fmap. by exists x.
Qed.

(** ** The sizes *)
Lemma SLAB_SIZES_pow i sz : SLAB_SIZES !! i = Some sz → ∃ k, 3 ≤ k ≤ 11 ∧ sz = 2 ^ k.
Proof.
  intros Hi%list_elem_of_lookup_2. unfold SLAB_SIZES in Hi.
  repeat (apply elem_of_cons in Hi as [->|Hi]);
    [exists 3|exists 4|exists 5|exists 6|exists 7|exists 8|exists 9|exists 10|exists 11|by apply elem_of_nil in Hi];
    (split; [lia|reflexivity]).
Qed.

Lemma block_size_Some n i :
  block_size n = Some i → ∃ sz, SLAB_SIZES !! i = Some sz ∧ n ≤ sz.
Proof.
  intros E. apply fmap_Some_1 in E as ([j sz] & Hf & [= ->]). apply list_find_Some in Hf as (? & ? & _). eauto.
Qed.

Lemma block_size_None n : block_size n = None ↔ 2048 < n.
Proof.
  unfold block_size. etransitivity; [apply fmap_None|]. etransitivity; [apply list_find_None|]. split.
  - rewrite Forall_forall. intros Hall. specialize (Hall 2048). cbn in Hall. assert (¬ (n ≤ 2048)); [|lia].
    apply Hall. unfold SLAB_SIZES. set_solver.
  - intros. unfold SLAB_SIZES. repeat constructor; cbn; lia.
Qed.

(** The blocks a page is carved into. *)
Lemma page_blocks base k :
  3 ≤ k ≤ 11 → base mod 0x1000 = 0 →
  let B := step_by base 0x1000 (2 ^ k) in
  B ≠ [] ∧ NoDup B ∧ all_disj (sized (2 ^ k) B) ∧
  Forall (λ b, inside b (base, 0x1000) ∧ b.1 mod b.2 = 0) (sized (2 ^ k) B).
Proof.
  intros Hk Hb B.
  assert (Hpow : 0x1000 = 2 ^ (12 - k) * 2 ^ k) by (rewrite <- Z.pow_add_r by lia; by replace (12 - k + k) with 12 by lia).
  assert (H0 : 0 < 2 ^ k) by lia. assert (H1 : 0 < 2 ^ (12 - k)) by lia.
  assert (Hn : (0x1000 + 2 ^ k - 1) / 2 ^ k = 2 ^ (12 - k)).
  { symmetry. apply (Z.div_unique _ _ _ (2 ^ k - 1)); lia. }
  unfold B, step_by. rewrite Hn. set (n := Z.to_nat (2 ^ (12 - k))).
  assert (Hz : Z.of_nat n = 2 ^ (12 - k)) by lia.
  assert (Hdisj : ∀ m j, all_disj (sized (2 ^ k) ((λ i, base + Z.of_nat i * 2 ^ k) <$> seq j m))).
  { induction m as [|m IH]; intros j; [done|]. split; [|apply IH].
    apply Forall_forall. intros x (y & -> & (i & -> & Hi)%list_elem_of_fmap)%list_elem_of_fmap.
    apply elem_of_seq in Hi. left. cbn. nia. }
  split_and!.
  - destruct n eqn:En; [lia|done].
  - apply NoDup_fmap_2, NoDup_seq. intros i j E. nia.
  - apply Hdisj.
  - apply Forall_forall. intros x (y & -> & (i & -> & Hi)%list_elem_of_fmap)%list_elem_of_fmap.
    apply elem_of_seq in Hi. unfold inside. cbn. split; [nia|].
    rewrite (Z.div_mod base 0x1000), Hb, Z.add_0_r by lia.
    replace (0x1000 * (base / 0x1000)) with (base / 0x1000 * 2 ^ (12 - k) * 2 ^ k)
      by (rewrite <- Z.mul_assoc, <- Hpow; lia).
    rewrite <- Z.mul_add_distr_r. apply Z.mod_mul. lia.
Qed.

(** ** The invariant

    [live] are the allocations that have not been returned. *)
Definition live_small (x : Z * Layout) : option range :=
  i ← block_size (min_size x.2); sz ← SLAB_SIZES !! i; Some (x.1, sz).

Definition live_big (x : Z * Layout) : option range :=
  match block_size (min_size x.2) with Some _ => None | None => Some (x.1, min_size x.2) end.

(** The bytes the caller asked for. *)
Definition user_range (x : Z * Layout) : range := (x.1, l_size x.2).

(** The bytes set aside for it. *)
Definition live_block (x : Z * Layout) : range :=
  match live_small x with Some b => b | None => (x.1, min_size x.2) end.

Lemma user_inside x : inside (user_range x) (live_block x).
Proof.
  destruct x as [a l]. unfold live_block, live_small, user_range, inside. cbn [fst snd].
  destruct (block_size (min_size l)) as [i|] eqn:E; cbn [mbind option_bind]; [|cbn; unfold min_size; lia].
  destruct (block_size_Some _ _ E) as (sz & -> & Hle). cbn. unfold min_size in Hle. lia.
Qed.

Lemma live_small_of a l i sz live :
  block_size (min_size l) = Some i → SLAB_SIZES !! i = Some sz →
  omap live_small ((a, l) :: live) = (a, sz) :: omap live_small live ∧
  omap live_big ((a, l) :: live) = omap live_big live ∧ live_block (a, l) = (a, sz).
Proof.
  intros E Hsz.
  assert (E1 : live_small (a, l) = Some (a, sz))
    by (unfold live_small; cbn [fst snd]; rewrite E; cbn [mbind option_bind]; by rewrite Hsz).
  assert (E2 : live_big (a, l) = None) by (unfold live_big; cbn [fst snd]; by rewrite E).
  unfold live_block. cbn [omap list_omap]. by rewrite E1, E2.
Qed.

Lemma live_big_of a l live :
  block_size (min_size l) = None →
  omap live_small ((a, l) :: live) = omap live_small live ∧
  omap live_big ((a, l) :: live) = (a, min_size l) :: omap live_big live ∧ live_block (a, l) = (a, min_size l).
Proof.
  intros E.
  assert (E1 : live_small (a, l) = None) by (unfold live_small; cbn [fst snd]; by rewrite E).
  assert (E2 : live_big (a, l) = Some (a, min_size l)) by (unfold live_big; cbn [fst snd]; by rewrite E).
  unfold live_block. cbn [omap list_omap]. by rewrite E1, E2.
Qed.

Lemma live_split live : live_block <$> live ≡ₚ omap live_small live ++ omap live_big live.
Proof.
  induction live as [|[a l] live IH]; [done|]. rewrite fmap_cons, IH.
  destruct (block_size (min_size l)) as [i|] eqn:E.
  - destruct (block_size_Some _ _ E) as (sz & Hsz & _). by destruct (live_small_of a l i sz live E Hsz) as (-> & -> & ->).
  - destruct (live_big_of a l live E) as (-> & -> & ->). by rewrite Permutation_middle.
Qed.

(** A block of a slab page, at a multiple of its size. *)
Definition block_ok (pages : list Z) (b : range) : Prop :=
  b.1 mod b.2 = 0 ∧ 0 < b.2 ∧ ∃ p, p ∈ pages ∧ inside b (p, 0x1000).

Section correct.
Context {S : Type} `{PageSourceSpec S}.

Record slab_state (s : SlabAllocator S) (live : list (Z * Layout)) (n : nat)
    (free : list (list Z)) (pages : list Z) : Prop := {
  ss_chains : Forall2 (chain (nodes s)) (slab_heads s) free;
  ss_length : length free = length SLAB_SIZES;
  ss_source : ps_inv (source s) (sized 0x1000 pages ++ omap live_big live) n;
  ss_disj : all_disj (free_blocks free ++ omap live_small live);
  ss_blocks : Forall (block_ok pages) (free_blocks free ++ omap live_small live);
}.

Definition slab_inv (s : SlabAllocator S) (live : list (Z * Layout)) (n : nat) : Prop :=
  ∃ free pages, slab_state s live n free pages.

(** The pages a request takes from the source: none if a block of the size is free. *)
Definition need (s : SlabAllocator S) (layout : Layout) : nat :=
  match block_size (min_size layout) with
  | Some i => match slab_heads s !! i with Some (Some _) => 0 | _ => 1 end
  | None => pages_for (min_size layout)
  end.

#[global] Instance slab_inv_perm s : Proper ((≡ₚ) ==> (=) ==> iff) (slab_inv s).
Proof.
  assert (Himp : ∀ l l' n, l ≡ₚ l' → slab_inv s l n → slab_inv s l' n).
  { intros l l' n Hp (free & pages & [H1 H2 H3 H4 H5]). exists free, pages.
    split; [done|done|by rewrite <- Hp..]. }
  intros l l' Hp n ? <-. split; apply Himp; [done|by symmetry].
Qed.

(** The callers' bytes do not overlap. *)
Lemma live_disjoint s live n : slab_inv s live n → all_disj (user_range <$> live).
Proof.
  intros (free & pages & [_ _ Hsrc Hd Hb]).
  apply all_disj_app in Hd as (_ & Hsm & _). apply Forall_app in Hb as [_ Hb].
  apply ps_inv_disj, all_disj_app in Hsrc as (_ & Hbig & Hcross).
  apply (all_disj_inside (live_block <$> live)).
  - apply Forall2_fmap_2, Forall_Forall2_diag, Forall_true. apply user_inside.
  - rewrite live_split, all_disj_app. split_and!; [done..|]. intros x y Hx Hy.
    eapply Forall_forall in Hb as (_ & _ & p & Hp & Hin); [|exact Hx].
    eapply disj_inside; [|exact Hin]. apply Hcross; [by apply list_elem_of_fmap; exists p|done].
Qed.

Lemma free_blocks_fill free i sz l :
  SLAB_SIZES !! i = Some sz → free !! i = Some [] →
  free_blocks (<[i := l]> free) ≡ₚ sized sz l ++ free_blocks free.
Proof.
  intros Hsz Hl. unfold free_blocks.
  rewrite (concat_zip_with_insert sized _ (<[i := l]> free) i sz l [] (sized sz l)).
  - by rewrite list_insert_insert_eq, (list_insert_id free).
  - done.
  - by apply list_lookup_insert_eq, lookup_lt_is_Some_1.
  - cbn. by rewrite app_nil_r.
Qed.

(** A block that is disjoint from the free ones is on none of the lists. *)
Lemma not_listed free i l x sz :
  length free = length SLAB_SIZES → 0 < sz → Forall (disj (x, sz)) (free_blocks free) →
  free !! i = Some l → x ∉ l.
Proof.
  intros Hlen Hsz Hd Hl Hx.
  destruct (SLAB_SIZES !! i) as [sz'|] eqn:Hi;
    [|apply lookup_ge_None in Hi; apply lookup_lt_Some in Hl; lia].
  pose proof (elem_of_free_blocks _ _ _ _ _ Hi Hl Hx) as Hin.
  destruct (SLAB_SIZES_pow _ _ Hi) as (k & Hk & ->). rewrite Forall_forall in Hd.
  apply (disj_ne (x, sz) (x, 2 ^ k)); [done|cbn; lia|by apply Hd|done].
Qed.

(** Writing a node that is on none of the lists leaves them alone. *)
Lemma chains_insert next heads free x v :
  Forall2 (chain next) heads free → (∀ i l, free !! i = Some l → x ∉ l) →
  Forall2 (chain (<[x := v]> next)) heads free.
Proof.
  intros Hc Hx. apply Forall2_same_length_lookup. split; [by eapply Forall2_length|].
  intros i h l Hh Hl. apply chain_insert; [by eapply Hx|]. by eapply Forall2_lookup_lr.
Qed.

Lemma chains_ext next next' heads free :
  Forall2 (chain next) heads free → (∀ i l x, free !! i = Some l → x ∈ l → next' x = next x) →
  Forall2 (chain next') heads free.
Proof.
  intros Hc Hx. apply Forall2_same_length_lookup. split; [by eapply Forall2_length|].
  intros i h l Hh Hl. apply (chain_ext next); [intros; by eapply Hx|]. by eapply Forall2_lookup_lr.
Qed.

Lemma block_mod a sz al : a mod 2 ^ sz = 0 → 0 ≤ al ≤ sz → a mod 2 ^ al = 0.
Proof.
  intros Ha Hal. apply Z.mod_divide; [lia|]. apply Z.mod_divide in Ha; [|lia].
  etransitivity; [|exact Ha]. exists (2 ^ (sz - al)). rewrite <- Z.pow_add_r by lia. f_equal. lia.
Qed.

(** *** Allocation from a list that is not empty *)
Lemma take_block_ok s live n free pages i sz x layout :
  slab_state s live n free pages → block_size (min_size layout) = Some i → SLAB_SIZES !! i = Some sz →
  slab_heads s !! i = Some (Some x) →
  ∃ s', slab_alloc s layout = Done (x, s') ∧ slab_inv s' ((x, layout) :: live) n ∧ x mod sz = 0.
Proof.
  intros [Hc Hlen Hsrc Hd Hb] Ei Hsz Hh. unfold slab_alloc. rewrite Ei, (proj2 (index_Done _ _ _) Hh), bind_ret.
  rewrite index_set_ok, bind_ret by by eapply lookup_lt_Some.
  destruct (Forall2_lookup_l _ _ _ _ _ Hc Hh) as ([|y l] & Hl & Hch); [done|]. destruct Hch as [[= <-] Hch].
  rewrite (free_blocks_take free i sz x l) in Hd, Hb by done.
  destruct (live_small_of x layout i sz live Ei Hsz) as (Es & Eb & _).
  pose proof Hd as [Hf _]. apply Forall_app in Hf as [Hf _]. apply Forall_cons in Hb as [Hbx Hb].
  eexists. split; [done|]. split; [|apply Hbx]. exists (<[i := l]> free), pages.
  split; cbn [slab_heads nodes source]; rewrite ?Es, ?Eb, <- ?Permutation_middle; [|by rewrite length_insert|done|done|by constructor].
  apply chains_insert; [by apply Forall2_insert|]. intros j lj. eapply not_listed; [by rewrite length_insert| |done].
  apply Hbx.
Qed.

(** *** Allocation that carves a page *)
Lemma carve_page_ok s live n free pages i sz layout :
  slab_state s live (1 + n) free pages → block_size (min_size layout) = Some i → SLAB_SIZES !! i = Some sz →
  slab_heads s !! i = Some None →
  ∃ x s', slab_alloc s layout = Done (x, s') ∧ slab_inv s' ((x, layout) :: live) n ∧ x mod sz = 0.
Proof.
  intros [Hc Hlen Hsrc Hd Hb] Ei Hsz Hh.
  destruct (ps_page_spec _ _ _ Hsrc) as (base & src & Epage & Hsrc' & Hal & Hb0 & Hb1).
  unfold slab_alloc. rewrite Ei, (proj2 (index_Done _ _ _) Hh), bind_ret, (proj2 (index_Done _ _ _) Hsz), bind_ret.
  rewrite Epage, bind_ret. unfold add_u64. rewrite chk_ok, bind_ret by lia.
  destruct (SLAB_SIZES_pow _ _ Hsz) as (k & Hk & ->).
  destruct (page_blocks base k Hk Hal) as (HB0 & HBnd & HBd & HBin).
  set (B := step_by base 0x1000 (2 ^ k)) in *.
  destruct (Forall2_lookup_l _ _ _ _ _ Hc Hh) as ([|y l] & Hl & Hch); [|by destruct Hch].
  pose proof (carve_ok B (nodes s) None [] ltac:(by rewrite app_nil_r) eq_refl) as Hcarve.
  destruct (carve (nodes s) None B) as [mem head]. destruct Hcarve as [Hchain Hout]. rewrite app_nil_r in Hchain.
  destruct (reverse B) as [|x rest] eqn:Erev; [by apply (f_equal reverse) in Erev; rewrite reverse_involutive in Erev|].
  destruct Hchain as [-> Hchain]. cbn [unwrap]. rewrite bind_ret, index_set_ok, bind_ret by by eapply lookup_lt_Some.
  assert (HB : B ≡ₚ x :: rest) by by rewrite <- Erev, reverse_Permutation.
  destruct (live_small_of x layout i (2 ^ k) live Ei Hsz) as (Es & Eb & _).
  assert (Hperm : free_blocks (<[i := rest]> free) ++ (x, 2 ^ k) :: omap live_small live ≡ₚ
                  sized (2 ^ k) B ++ free_blocks free ++ omap live_small live).
  { rewrite (free_blocks_fill free i (2 ^ k) rest) by done. unfold sized. rewrite HB. cbn. solve_Permutation. }
  assert (Hnew : ∀ b, b ∈ sized (2 ^ k) B → block_ok (base :: pages) b).
  { intros b Hbin. pose proof Hbin as (a & -> & _)%list_elem_of_fmap.
    eapply Forall_forall in HBin as [Hin Hm]; [|exact Hbin]. split_and!; [done|cbn; lia|]. exists base. split; [left|done]. }
  assert (Hpage : ∀ b b', b ∈ sized (2 ^ k) B → b' ∈ free_blocks free ++ omap live_small live → disj b b').
  { intros b b' Hbin Hb'. eapply Forall_forall in HBin as [Hin _]; [|exact Hbin]. eapply disj_inside; [|exact Hin].
    eapply Forall_forall in Hb as (_ & _ & p & Hp & Hin'); [|exact Hb']. symmetry. eapply disj_inside; [|exact Hin'].
    symmetry. apply ps_inv_disj in Hsrc' as [Hf _]. rewrite Forall_forall in Hf. apply Hf, elem_of_app. left.
    apply list_elem_of_fmap. by exists p. }
  assert (Hxb : x ∈ B) by (rewrite HB; left).
  assert (Hold : ∀ j l y, free !! j = Some l → y ∈ B → y ∉ l).
  { intros j lj y Hj Hy. eapply (not_listed _ _ _ _ (2 ^ k)); [done|lia| |done].
    apply Forall_forall. intros b Hbf. apply Hpage; [apply list_elem_of_fmap; by exists y|set_solver]. }
  eexists x, _. split; [done|]. split; [|apply (Hnew (x, 2 ^ k)), list_elem_of_fmap; by exists x].
  exists (<[i := rest]> free), (base :: pages).
  split; cbn [slab_heads nodes source]; rewrite ?Es, ?Eb; [|by rewrite length_insert|done| |].
  - apply chains_insert.
    + apply Forall2_insert; [|done]. eapply chains_ext; [done|]. intros j lj y Hj Hy. apply Hout.
      intros HyB. by eapply Hold.
    + intros j lj Hj. apply list_lookup_insert_Some in Hj as [(<- & <- & _)|[_ Hj]]; [|by eapply Hold].
      rewrite HB in HBnd. by apply NoDup_cons in HBnd as [? _].
  - rewrite Hperm, all_disj_app. split_and!; done.
  - rewrite Hperm, Forall_app. split; [by apply Forall_forall|]. eapply Forall_impl; [exact Hb|].
    intros b (? & ? & p & ? & ?). split_and!; [done..|]. exists p. split; [by right|done].
Qed.

(** A [Layout] has a power of two as its alignment. *)
Definition layout_ok (l : Layout) : Prop := ∃ k, 0 ≤ k ∧ l_align l = 2 ^ k.

Lemma slab_alloc_ok s live n layout :
  slab_inv s live (need s layout + n) → layout_ok layout →
  ∃ a s', slab_alloc s layout = Done (a, s') ∧ slab_inv s' ((a, layout) :: live) n ∧
    all_disj (user_range <$> (a, layout) :: live) ∧
    (l_align layout ≤ 0x1000 → a mod l_align layout = 0).
Proof.
  intros Hinv (k & Hk & Hal). pose proof Hinv as (free & pages & Hst).
  cut (∃ a s', slab_alloc s layout = Done (a, s') ∧ slab_inv s' ((a, layout) :: live) n ∧
         (l_align layout ≤ 0x1000 → a mod l_align layout = 0)).
  { intros (a & s' & ? & Hinv' & ?). exists a, s'. split_and!; [done|done| |done]. by eapply live_disjoint. }
  unfold need in Hst. destruct (block_size (min_size layout)) as [i|] eqn:Ei.
  - destruct (block_size_Some _ _ Ei) as (sz & Hsz & Hle). destruct (SLAB_SIZES_pow _ _ Hsz) as (m & Hm & Em).
    assert (Hmod : ∀ a, a mod sz = 0 → a mod l_align layout = 0).
    { intros a Ha. rewrite Hal. apply (block_mod a m); [congruence|]. split; [done|].
      apply (Z.pow_le_mono_r_iff 2); [lia|lia|]. unfold min_size in Hle. lia. }
    destruct (slab_heads s !! i) as [[x|]|] eqn:Eh.
    + destruct (take_block_ok _ _ _ _ _ _ _ _ _ Hst Ei Hsz Eh) as (s' & ? & ? & ?). eauto 6.
    + destruct (carve_page_ok _ _ _ _ _ _ _ _ Hst Ei Hsz Eh) as (x & s' & ? & ? & ?). eauto 7.
    + destruct Hst as [Hc Hlen _ _ _]. apply Forall2_length in Hc. apply lookup_ge_None in Eh.
      apply lookup_lt_Some in Hsz. lia.
  - destruct Hst as [Hc Hlen Hsrc Hd Hb]. pose proof (proj1 (block_size_None _) Ei) as Hbig.
    destruct (ps_alloc_spec _ _ _ _ Hsrc Hbig) as (base & src & Ea & Hsrc' & Hb0 & _).
    unfold slab_alloc. rewrite Ei, Ea, bind_ret. eexists base, _. split; [done|].
    destruct (live_big_of base layout live Ei) as (Es & Eb & _). split.
    + exists free, pages. split; cbn [slab_heads nodes source]; rewrite ?Es, ?Eb; [done..| |done|done].
      by rewrite <- Permutation_middle.
    + intros Hle. rewrite Hal in *. change 0x1000 with (2 ^ 12) in *. apply (block_mod base 12); [done|].
      split; [done|]. by apply (Z.pow_le_mono_r_iff 2).
Qed.

(** C24: an allocation succeeds while the source has the pages it needs: the bytes it returns overlap
    no live allocation, they are aligned as the layout asks for alignments up to a
    page, and the allocator's lists stay well formed. *)
Theorem slab_alloc_spec s live n layout :
  slab_inv s live (need s layout + n) → layout_ok layout →
  ∃ a s', slab_alloc s layout = Done (a, s') ∧ slab_inv s' ((a, layout) :: live) n ∧
    all_disj (user_range <$> (a, layout) :: live) ∧
    (l_align layout ≤ 0x1000 → a mod l_align layout = 0).
Proof. apply slab_alloc_ok. Qed.

Lemma slab_dealloc_ok s live n a layout :
  slab_inv s ((a, layout) :: live) n →
  ∃ s', slab_dealloc s a layout = Done s' ∧ slab_inv s' live n ∧
    match block_size (min_size layout) with
    | Some i => slab_heads s' !! i = Some (Some a) ∧ ∀ l, block_size (min_size l) = Some i → need s' l = 0%nat
    | None => slab_heads s' = slab_heads s
    end.
Proof.
  intros (free & pages & [Hc Hlen Hsrc Hd Hb]). unfold slab_dealloc.
  destruct (block_size (min_size layout)) as [i|] eqn:Ei.
  - destruct (block_size_Some _ _ Ei) as (sz & Hsz & _).
    destruct (live_small_of a layout i sz live Ei Hsz) as (Es & Eb & _). rewrite Es in Hd, Hb. rewrite Eb in Hsrc.
    assert (Hi : (i < length free)%nat) by (apply lookup_lt_Some in Hsz; lia).
    destruct (lookup_lt_is_Some_2 _ _ Hi) as [l Hl].
    destruct (Forall2_lookup_r _ _ _ _ _ Hc Hl) as (h & Hh & Hch).
    rewrite (proj2 (index_Done _ _ _) Hh), bind_ret, index_set_ok, bind_ret by by eapply lookup_lt_Some.
    eexists. split; [done|]. split.
    + rewrite <- Permutation_middle in Hd, Hb. pose proof Hd as [[Hf _]%Forall_app _].
      pose proof Hb as [Hba _]%Forall_cons.
      assert (Hnl : ∀ j lj, free !! j = Some lj → a ∉ lj) by (intros j lj; eapply not_listed; [done|apply Hba|done]).
      exists (<[i := a :: l]> free), pages.
      split; cbn [slab_heads nodes source]; [|by rewrite length_insert|done| |];
        [|rewrite (free_blocks_put free i sz a l) by done; done..].
      apply Forall2_insert; [by apply chains_insert|]. split; [done|]. rewrite fn_lookup_insert.
      apply chain_insert; [by eapply Hnl|done].
    + assert (Hin : (<[i := Some a]> (slab_heads s)) !! i = Some (Some a))
        by (apply list_lookup_insert_eq; by eapply lookup_lt_Some).
      split; [done|]. intros l' El'. unfold need. rewrite El'. cbn [slab_heads]. by rewrite Hin.
  - destruct (live_big_of a layout live Ei) as (Es & Eb & _). rewrite Es in Hd, Hb.
    rewrite Eb, <- Permutation_middle in Hsrc.
    destruct (ps_free_spec _ _ _ _ _ Hsrc) as (src & Ef & Hsrc'); [by apply block_size_None|].
    rewrite Ef, bind_ret. eexists. split; [done|]. split; [|done]. exists free, pages. by split.
Qed.

(** A live allocation given back with its layout leaves the others as they
    were; its block is on the free list of its size again, or its pages are back at
    the source. *)
Theorem slab_dealloc_spec s live n a layout :
  slab_inv s ((a, layout) :: live) n →
  ∃ s', slab_dealloc s a layout = Done s' ∧ slab_inv s' live n ∧
    match block_size (min_size layout) with
    | Some i => slab_heads s' !! i = Some (Some a) ∧ ∀ l, block_size (min_size l) = Some i → need s' l = 0%nat
    | None => slab_heads s' = slab_heads s
    end.
Proof. apply slab_dealloc_ok. Qed.

(** The allocator starts with no free block. *)
Lemma SlabAllocator_new_ok src memory n : ps_inv src [] n → slab_inv (SlabAllocator_new src memory) [] n.
Proof.
  intros Hs. exists (replicate (length SLAB_SIZES) []), []. split; cbn; try done.
  repeat constructor.
Qed.
End correct.
