(* ===== verification/UserHeap.v ===== *)
(** * The heap of a program

    [userspace_slaballoc/src/slab.rs]: the slab allocator of [Slab] over the pages that
    [mmap_page] and [unmmap_page] of the client library give and take, down through the
    system calls to the mappings of the process.  The calls satisfy the interface of a
    page source, so what [Slab] proves of the allocator holds of the heap of a program. *)
From S2P Require Import Prelude Page PhysMem AllocIface PageAlloc PageTable PageMapper Sched Ipc Syscall UserLib Slab.

(** ** The source of pages

    A call that does not return ends the program. *)
Definition returned {A} (r : outcome (ures A * World)) : outcome (A * World) :=
  '(r, w) ← r; match r with URet a => Done (a, w) | _ => Panic PUnreachable end.

Section source.
Context (off start : Z) (t : nat).

Definition user_page (w : World) : outcome (Z * World) := returned (mmap_page off start t 0 0x1000 w).
Definition user_pages (w : World) (min_size : Z) : outcome (Z * World) := returned (mmap_page off start t 0 min_size w).
Definition user_free (w : World) (ptr max_size : Z) : outcome World :=
  '(_, w) ← returned (unmmap_page off start t ptr max_size w); Done w.

#[local] Instance user_source : PageSource World := {
  ps_page := user_page;
  ps_alloc := user_pages;
  ps_free := user_free;
}.

(** [GlobalAlloc for Locked<SlabAllocator>]. *)
Definition user_alloc (s : SlabAllocator World) (layout : Layout) : outcome (Z * SlabAllocator World) := slab_alloc s layout.
Definition user_dealloc (s : SlabAllocator World) (ptr : Z) (layout : Layout) : outcome (SlabAllocator World) := slab_dealloc s ptr layout.
End source.

(** ** Where mappings go *)
Definition round (len : Z) : Z := 0x1000 * Z.of_nat (pages_for len).

Lemma round_spec len : 0 ≤ len → len ≤ round len ∧ round len < len + 0x1000 ∧ round len mod 0x1000 = 0.
Proof.
  intros Hl. unfold round, pages_for. assert (0 ≤ (len + 0xFFF) / 0x1000) by (apply Z.div_pos; lia).
  rewrite Z2Nat.id by done. pose proof (Z.mul_div_le (len + 0xFFF) 0x1000). pose proof (Z.mul_succ_div_gt (len + 0xFFF) 0x1000).
  split; [lia|]. split; [lia|]. rewrite Z.mul_comm. apply Z.mod_mul. lia.
Qed.

Lemma align_up_round len : 0 ≤ len → len + 0xFFF < u64_lim → page_align_up len = Done (round len).
Proof.
  intros H0 Hl. unfold page_align_up, add_u64. rewrite chk_ok by lia. cbn [mbind outcome_bind].
  change 0xFFF with (2 ^ 12 - 1) at 2. rewrite land_not_ones by lia. f_equal. change (2 ^ 12) with 0x1000.
  unfold round, pages_for. rewrite Z2Nat.id by (apply Z.div_pos; lia). pose proof (Z.div_mod (len + 0xFFF) 0x1000 ltac:(lia)). lia.
Qed.

Lemma round_base b len : 0 ≤ b → 0 ≤ len → b mod 0x1000 = 0 → round (b + len) = b + round len.
Proof.
  intros Hb Hl Hm. unfold round, pages_for. rewrite !Z2Nat.id by (apply Z.div_pos; lia).
  pose proof (Z.div_mod b 0x1000 ltac:(lia)). replace (b + len + 0xFFF) with (len + 0xFFF + b / 0x1000 * 0x1000) by lia.
  rewrite Z.div_add by lia. lia.
Qed.

(** A stretch of addresses without a mapping, between two mappings that do not belong to
    the heap, large enough for [n] more pages however they are asked for. *)
Definition avoids (l : list MapEntry) (a b : Z) : Prop := ∀ r, r ∈ l → r_end r ≤ a ∨ b ≤ r_start r.
Definition foreign (R : list range) (r : MapEntry) : Prop := ∀ x, x ∈ R → x.1 ≠ r_start r.
Definition room (l : list MapEntry) (R : list range) (n : nat) : Prop :=
  ∃ a b lo hi, avoids l a b ∧ a + 0x1000 + 0x2000 * Z.of_nat n ≤ b ∧ lo ∈ l ∧ hi ∈ l ∧ foreign R lo ∧ foreign R hi ∧
    0 ≤ r_end lo ≤ a ∧ b ≤ r_start hi ≤ 2 ^ 47.

(** The mapping of a range of the heap. *)
Definition heap_entry (l : list MapEntry) (x : range) : Prop :=
  0 < x.2 ∧ 0x1000 ≤ x.1 ∧ x.1 mod 0x1000 = 0 ∧ x.1 + round x.2 ≤ 2 ^ 47 ∧
  ∃ r, r ∈ l ∧ r_start r = x.1 ∧ r_end r = x.1 + round x.2.

Record placed (l : list MapEntry) (R : list range) (n : nat) : Prop := {
  lo_ordered : ordered l;
  lo_ends : Forall (λ r, r_end r mod 0x1000 = 0 ∧ r_end r ≤ 2 ^ 64 - 2 ^ 46 - 0x2000) l;
  lo_heap : Forall (heap_entry l) R;
  lo_room : room l R n;
}.

(** Two neighbours enclose a stretch that avoids all mappings. *)
Lemma neighbours l a b hi j : ordered l → avoids l a b → a < b → l !! j = Some hi → b ≤ r_start hi →
  ∀ i lo, (i < j)%nat → l !! i = Some lo → r_end lo ≤ a →
  ∃ k x y, (i ≤ k < j)%nat ∧ l !! k = Some x ∧ l !! S k = Some y ∧ r_end x ≤ a ∧ b ≤ r_start y ∧ r_start y ≤ r_start hi.
Proof.
  intros Ho Hav Hab Hj Hhi i. remember (j - i)%nat as d eqn:Ed. revert i Ed. induction d as [|d IH]; intros i Ed lo Hij Hlo Hlo'; [lia|].
  destruct (lookup_lt_is_Some_2 l (S i)) as [y Hy]; [apply lookup_lt_Some in Hj; lia|].
  destruct (Hav y) as [Hye|Hye]; [by eapply list_elem_of_lookup_2| |].
  - assert (S i ≠ j) by (intros <-; rewrite Hj in Hy; injection Hy as <-; pose proof (ordered_entry _ _ _ Ho Hj); lia).
    destruct (IH (S i) ltac:(lia) y) as (k & x & z & Hk & ?); [lia|done|done|]. exists k, x, z. split; [lia|done].
  - exists i, lo, y. splits; try done; [lia..|].
    destruct (decide (S i = j)) as [<-|]; [rewrite Hj in Hy; injection Hy as <-; lia|].
    pose proof (ordered_lookup l (S i) j y hi Ho ltac:(lia) Hy Hj). pose proof (ordered_entry _ _ _ Ho Hy). lia.
Qed.

Lemma room_gap l R n m : ordered l → room l R (m + n) → (0 < m)%nat →
  ∃ j x y, l !! j = Some x ∧ l !! S j = Some y ∧ r_end x + 0x1000 + 0x1000 * Z.of_nat m ≤ r_start y ∧ r_start y ≤ 2 ^ 47 ∧ Z.of_nat m * 0x2000 ≤ 2 ^ 47.
Proof.
  intros Ho (a & b & lo & hi & Hav & Hab & Hlo & Hhi & _ & _ & Hla & Hbh) Hm.
  apply list_elem_of_lookup in Hlo as [i Hi]. apply list_elem_of_lookup in Hhi as [j Hj].
  assert (Hij : (i < j)%nat).
  { destruct (decide (i < j)%nat); [done|exfalso]. destruct (decide (i = j)) as [->|]; [rewrite Hi in Hj; injection Hj as ->; pose proof (ordered_entry _ _ _ Ho Hi); lia|].
    pose proof (ordered_lookup l j i hi lo Ho ltac:(lia) Hj Hi). pose proof (ordered_entry _ _ _ Ho Hj). pose proof (ordered_entry _ _ _ Ho Hi). lia. }
  destruct (neighbours l a b hi j Ho Hav ltac:(lia) Hj ltac:(lia) i lo Hij Hi ltac:(lia)) as (k & x & y & _ & Hx & Hy & Hxa & Hby & Hyh).
  exists k, x, y. splits; try done; lia.
Qed.

Lemma between l i x y r : ordered l → l !! i = Some x → l !! S i = Some y → r ∈ l → r_end r ≤ r_end x ∨ r_start y ≤ r_start r.
Proof.
  intros Ho Hx Hy [k Hk]%list_elem_of_lookup. pose proof (ordered_entry _ _ _ Ho Hk). pose proof (ordered_entry _ _ _ Ho Hx). pose proof (ordered_entry _ _ _ Ho Hy).
  destruct (decide (k < i)%nat) as [|]; [pose proof (ordered_lookup l k i r x Ho ltac:(lia) Hk Hx); lia|].
  destruct (decide (k = i)) as [->|]; [rewrite Hx in Hk; injection Hk as ->; lia|].
  destruct (decide (k = S i)) as [->|]; [rewrite Hy in Hk; injection Hk as ->; lia|].
  pose proof (ordered_lookup l (S i) k y r Ho ltac:(lia) Hy Hk). lia.
Qed.

(** A new mapping between two neighbours, behind a page of padding. *)
Lemma layout_insert l R n m i x y len id flags :
  let z := mkEntry (r_end x + 0x1000) (r_end x + 0x1000 + round len) id flags in
  let l' := take (S i) l ++ z :: drop (S i) l in
  placed l R (m + n) → l !! i = Some x → l !! S i = Some y → r_end z ≤ r_start y → r_start y ≤ 2 ^ 47 →
  ordered l' → 0 < len → pages_for len = m →
  placed l' ((r_start z, len) :: R) n ∧ Forall (disj (r_start z, len)) R ∧ r_start z mod 0x1000 = 0 ∧ 0x1000 ≤ r_start z.
Proof.
  intros z l' [Ho He Hh Hr] Hx Hy Hzy Hy47 Ho' Hlen Hm.
  assert (Hin : ∀ r, r ∈ l' ↔ r = z ∨ r ∈ l).
  { intros r. unfold l'. rewrite elem_of_app, elem_of_cons. rewrite <- (take_drop (S i) l) at 3. rewrite elem_of_app. tauto. }
  pose proof (ordered_entry _ _ _ Ho Hx) as Hxe. destruct (round_spec len ltac:(lia)) as (Hr1 & Hr2 & Hr3).
  pose proof (Forall_lookup_1 _ _ _ _ He Hx) as [Hxal _].
  assert (Hsep : ∀ r, r ∈ l → r_end r ≤ r_end x ∨ r_end z ≤ r_start r).
  { intros r Hrl. destruct (between l i x y r Ho Hx Hy Hrl); [by left|right; lia]. }
  assert (Hpos : ∀ r, r ∈ l → 0 ≤ r_start r < r_end r) by (intros r [k Hk]%list_elem_of_lookup; exact (ordered_entry _ _ _ Ho Hk)).
  assert (Hzal : r_start z mod 0x1000 = 0) by (unfold z; cbn [r_start]; rewrite Z.add_mod, Hxal by lia; done).
  assert (Hfor : ∀ r, r ∈ l → r_start z ≠ r_start r).
  { intros r Hrl. pose proof (Hpos r Hrl). destruct (Hsep r Hrl); unfold z in *; cbn [r_start r_end] in *; lia. }
  split; [split; [done| | |]|split; [|split; [done|unfold z; cbn [r_start]; lia]]].
  - apply Forall_forall. intros r [->|Hrl]%Hin; [|by apply (proj1 (Forall_forall _ _) He)].
    split; [|unfold z in *; cbn [r_end] in *; lia]. unfold z in *. cbn [r_end r_start] in *. rewrite Z.add_mod, Hzal, Hr3 by lia. done.
  - apply Forall_cons. split.
    + unfold heap_entry. cbn [fst snd]. split; [done|]. split; [unfold z; cbn [r_start]; lia|]. split; [done|].
      split; [unfold z in *; cbn [r_start r_end] in *; lia|]. exists z. split; [apply Hin; by left|done].
    + eapply Forall_impl; [exact Hh|]. intros e (H1 & H2 & H3 & H4 & r & Hrl & H5). unfold heap_entry. split_and!; try done.
      exists r. split; [apply Hin; by right|done].
  - destruct Hr as (a & b & lo & hi & Hav & Hab & Hlo & Hhi & Hfl & Hfh & Hla & Hbh).
    assert (Hf : ∀ r, r ∈ l → foreign R r → foreign ((r_start z, len) :: R) r).
    { intros r Hrl Hf e [->|He']%elem_of_cons; [by apply Hfor|by apply Hf]. }
    exists (Z.max a (if decide (r_end z ≤ a ∨ b ≤ r_start z) then a else r_end z)), b, lo, hi.
    split_and!; [| |by apply Hin; right|by apply Hin; right|by apply Hf|by apply Hf|lia|lia|lia|lia].
    + intros r [->|Hrl]%Hin; [case_decide; lia|]. destruct (Hav r Hrl); [left; lia|by right].
    + case_decide as Hd; [lia|]. assert (r_end x ≤ a).
      { destruct (Hav x) as [|Hbx]; [by eapply list_elem_of_lookup_2|done|]. unfold z in *. cbn [r_start r_end] in *. lia. }
      subst m. unfold z in *. cbn [r_end r_start] in *. unfold round in *. assert (0 < Z.of_nat (pages_for len)) by lia. lia.
  - eapply Forall_impl; [exact Hh|]. intros e (H1 & _ & _ & _ & r & Hrl & H5 & H6). unfold disj. cbn [fst snd].
    destruct (round_spec e.2 ltac:(lia)) as (? & _). destruct (Hsep r Hrl); unfold z in *; cbn [r_start r_end] in *; lia.
Qed.

(** Taking a mapping of the heap away. *)
Lemma layout_delete l R n b len i r :
  placed l ((b, len) :: R) n → all_disj ((b, len) :: R) → l !! i = Some r → r_start r = b → placed (delete i l) R n.
Proof.
  intros [Ho He Hh Hr] Hd Hi Hb.
  assert (Hin : ∀ r', r' ∈ l → r_start r' ≠ b → r' ∈ delete i l).
  { intros r' [k Hk]%list_elem_of_lookup Hne. destruct (decide (k < i)%nat).
    - apply list_elem_of_lookup. exists k. by rewrite list_lookup_delete_lt.
    - destruct (decide (k = i)) as [->|]; [rewrite Hi in Hk; by injection Hk as <-|].
      apply list_elem_of_lookup. exists (pred k). rewrite list_lookup_delete_ge by lia. by replace (S (pred k)) with k by lia. }
  assert (Hsub : ∀ r', r' ∈ delete i l → r' ∈ l) by (intros r' Hr'; by eapply elem_of_sublist; [|apply sublist_delete]).
  apply Forall_cons in Hh as [Hbh Hh]. cbn [all_disj] in Hd. destruct Hd as [Hd _]. split.
  - by apply ordered_delete.
  - apply Forall_forall. intros r' Hr'. by apply (proj1 (Forall_forall _ _) He), Hsub.
  - apply Forall_forall. intros e Hel. pose proof (proj1 (Forall_forall _ _) Hh e Hel) as (H1 & H2 & H3 & H4 & r' & Hrl & H5 & H6).
    unfold heap_entry. split_and!; try done. exists r'. split; [|done]. apply Hin; [done|]. rewrite H5.
    pose proof (proj1 (Forall_forall _ _) Hd e Hel) as Hde. apply disj_ne in Hde; [cbn in Hde; congruence|apply Hbh|done].
  - destruct Hr as (a & b' & lo & hi & Hav & Hab & Hlo & Hhi & Hfl & Hfh & Hla & Hbh').
    exists a, b', lo, hi. split_and!; try lia.
    + intros r' Hr'. by apply Hav, Hsub.
    + apply Hin; [done|]. intros E. apply (Hfl (b, len)); [left|by rewrite E].
    + apply Hin; [done|]. intros E. apply (Hfh (b, len)); [left|by rewrite E].
    + intros e He'. apply Hfl. by right.
    + intros e He'. apply Hfh. by right.
Qed.

(** ** Frames and mappings

    The frames that the mappings of a store hold. *)
Definition all_frames (m : gmap nat ArcInner) : list Z :=
  concat ((λ p, lazy_frames (value p.2)) <$> map_to_list m).

Lemma all_frames_insert m id c : m !! id = None → all_frames (<[id := c]> m) ≡ₚ lazy_frames (value c) ++ all_frames m.
Proof. intros Hn. unfold all_frames. by rewrite map_to_list_insert by done. Qed.

Lemma all_frames_delete m id c : m !! id = Some c → all_frames m ≡ₚ lazy_frames (value c) ++ all_frames (delete id m).
Proof. intros Hc. rewrite <- all_frames_insert by apply lookup_delete_eq. by rewrite insert_delete_id. Qed.

Lemma all_frames_release st id c : arcs st !! id = Some c →
  all_frames (arcs (arc_release st id c)) ≡ₚ (if (strong c <=? 1)%nat then [] else lazy_frames (value c)) ++ all_frames (delete id (arcs st)).
Proof.
  intros Hc. unfold arc_release. cbn [arcs]. destruct (strong c <=? 1)%nat; [done|].
  rewrite <- insert_delete_eq. rewrite all_frames_insert by apply lookup_delete_eq. done.
Qed.

Lemma omap_nones k : omap id (replicate k (@None Z)) = [].
Proof. by induction k. Qed.

(** The mappings of a list are live, each named once; new ones get new names. *)
Record store_ok (st : ArcStore) (l : list MapEntry) : Prop := {
  so_arcs : NoDup (r_arc <$> l);
  so_live : ∀ r, r ∈ l → is_Some (arcs st !! r_arc r);
  so_next : ∀ id, is_Some (arcs st !! id) → (id < next_arc st)%nat;
}.

Lemma store_new st l mp i base end_ flags : store_ok st l → (i ≤ length l)%nat →
  store_ok (mkStore (<[next_arc st := mkArc 1 mp]> (arcs st)) (S (next_arc st))) (take i l ++ mkEntry base end_ (next_arc st) flags :: drop i l).
Proof.
  intros [Hn Hl Hx] Hi. assert (Hp : take i l ++ mkEntry base end_ (next_arc st) flags :: drop i l ≡ₚ mkEntry base end_ (next_arc st) flags :: l).
  { rewrite <- Permutation_middle. by rewrite take_drop. }
  split.
  - rewrite Hp. cbn. constructor; [|done]. intros (r & E & Hr)%list_elem_of_fmap. specialize (Hx _ (Hl r Hr)). lia.
  - intros r. rewrite Hp. intros [->|Hr]%elem_of_cons; cbn [arcs r_arc]; [rewrite lookup_insert_eq; eauto|].
    rewrite lookup_insert_ne; [by apply Hl|]. specialize (Hx _ (Hl r Hr)). lia.
  - intros id. cbn [arcs next_arc]. intros [c Hc]. destruct (decide (id = next_arc st)) as [->|]; [lia|].
    rewrite lookup_insert_ne in Hc by done. pose proof (Hx id). assert (id < next_arc st)%nat by eauto. lia.
Qed.

Lemma store_release st l i r c : store_ok st l → l !! i = Some r → arcs st !! r_arc r = Some c → store_ok (arc_release st (r_arc r) c) (delete i l).
Proof.
  intros [Hn Hl Hx] Hi Hc. assert (Hp : l ≡ₚ r :: delete i l) by by apply delete_Permutation.
  rewrite Hp in Hn. cbn in Hn. apply NoDup_cons in Hn as [Hnr Hn].
  assert (Hsub : ∀ id, is_Some (arcs (arc_release st (r_arc r) c) !! id) → is_Some (arcs st !! id)).
  { intros id. unfold arc_release. cbn [arcs]. destruct (decide (id = r_arc r)) as [->|]; [rewrite Hc; eauto|].
    case_match; [rewrite lookup_delete_ne by done|rewrite lookup_insert_ne by done]; done. }
  split; [done| |].
  - intros r' Hr'. assert (r_arc r' ≠ r_arc r) by (intros E; apply Hnr; rewrite <- E; by apply list_elem_of_fmap_2).
    unfold arc_release. cbn [arcs]. destruct (strong c <=? 1)%nat; [rewrite lookup_delete_ne by done|rewrite lookup_insert_ne by done];
      apply Hl; rewrite Hp; by right.
  - intros id Hid. cbn [arc_release next_arc]. by apply Hx, Hsub.
Qed.

(** ** The calls *)
Lemma on_mapper_done {X} p f (w : World) m (a : X) pm v :
  w_mem w !! p = Some m → f (w_vm w) (pm_mapper m) = Done (a, (pm, v)) →
  on_mapper p f w = Done (Ok a, upd_mem (upd_vm w v) (<[p := mkPMem_ pm (owned32_pages m) (pm_kernel m)]> (w_mem w))).
Proof.
  intros Hm E. unfold on_mapper, get_memory. erewrite sys_bind_ok; [|erewrite sys_bind_ok by reflexivity; rewrite Hm; reflexivity].
  erewrite sys_bind_ok; [|unfold on_vm; rewrite E; reflexivity]. cbn beta iota. by erewrite sys_bind_ok by reflexivity.
Qed.

Section spec.
Context (off start : Z) (Hoff : offset_ok off) (t : nat).
#[local] Instance heap_allocator : PageAllocator PageFrameAllocator := pfa_allocator off.
#[local] Instance heap_allocator_spec : PageAllocatorSpec PageFrameAllocator := pfa_allocator_spec off Hoff.

(** The memory of a process whose heap has the ranges [R], with room for [n] pages more. *)
Record space_inv (v : vm_world (A := PageFrameAllocator)) (pm : PageMapperManager) (R : list range) (n : nat) (F : list Z) : Prop := {
  si_layout : placed (mappings pm) R n;
  si_store : store_ok (snd v) (mappings pm);
  si_owns : pa_owns (fst v) F;
  si_frames : frames_wf F (tables 3 (snd (fst v)) (page_mapper pm) ++ all_frames (arcs (snd v)));
  si_small : ∀ a, user_addr a → small_at (snd (fst v)) (page_mapper pm) a;
}.

Lemma space_map v pm R n F len : 0 < len → space_inv v pm R (pages_for len + n) F →
  round len ≤ 2 ^ 46 ∧
  ∃ base v1 pm', new_lazy v (round len) = Done (next_arc (snd v), v1) ∧
    insert_mapping v1 pm (next_arc (snd v)) flags_all = Done (base, (pm', v1)) ∧
    space_inv v1 pm' ((base, len) :: R) n F ∧ Forall (disj (base, len)) R ∧ base mod 0x1000 = 0 ∧ 0x1000 ≤ base ∧ base + round len ≤ 2 ^ 47.
Proof using Hoff.
  intros Hlen [Hl Hs Ho Hf Hsm]. destruct v as [s st]. cbn [fst snd] in *.
  pose proof (round_spec len ltac:(lia)) as (Hr1 & Hr2 & Hr3).
  assert (Hm : (0 < pages_for len)%nat) by (unfold round in Hr1; lia).
  destruct (room_gap _ R n _ (lo_ordered _ _ _ Hl) (lo_room _ _ _ Hl) Hm) as (j & x & y & Hx & Hy & Hgap & Hy47 & Hm46).
  assert (H46 : round len ≤ 2 ^ 46) by (unfold round; lia). split; [done|].
  unfold new_lazy, add_u64, arc_new. rewrite chk_ok by (unfold u64_lim; lia). cbn [mbind outcome_bind].
  set (mp := mkMapping _ _). set (st1 := mkStore _ _).
  assert (Hid : arcs (snd (s, st1)) !! next_arc st = Some (mkArc 1 mp)) by apply lookup_insert_eq.
  assert (Hgapj : gap (mappings pm) (size mp) j) by (exists x, y; split_and!; [done|done|cbn [size mp]; unfold round; lia]).
  destruct (insert_mapping_spec (s, st1) pm (next_arc st) (mkArc 1 mp) flags_all Hid (lo_ordered _ _ _ Hl)) as [H|[H _]].
  { apply Forall_lookup. intros i r Hr. pose proof (Forall_lookup_1 _ _ _ _ (lo_ends _ _ _ Hl) Hr) as [_ ?].
    pose proof (ordered_entry _ _ _ (lo_ordered _ _ _ Hl) Hr). cbn [value size mp]. unfold u64_lim. lia. }
  { cbn [value size mp]. lia. }
  2: { by destruct (H j). }
  destruct H as (i & x' & y' & Hx' & Hy' & Hfirst & E & Hfit & Hord). cbn [value size mp] in *.
  assert (Hy'47 : r_start y' ≤ 2 ^ 47).
  { assert (i ≤ j)%nat by (destruct (decide (j < i)%nat); [by destruct (Hfirst j)|lia]).
    destruct (decide (i = j)) as [->|]; [congruence|].
    pose proof (ordered_lookup _ (S i) (S j) y' y (lo_ordered _ _ _ Hl) ltac:(lia) Hy' Hy). pose proof (ordered_entry _ _ _ (lo_ordered _ _ _ Hl) Hy'). lia. }
  destruct (layout_insert _ R n _ i x' y' len (next_arc st) flags_all Hl Hx' Hy' Hfit Hy'47 Hord Hlen eq_refl) as (Hl' & Hd & Hal & Hge).
  eexists _, (s, st1), _. split; [done|]. split; [exact E|]. split; [|split_and!; try done; cbn [r_start] in *; lia].
  split; cbn [fst snd mappings page_mapper]; [done| |done| |done].
  - apply store_new; [done|]. apply lookup_lt_Some in Hx'. lia.
  - eapply frames_wf_perm; [|exact Hf]. unfold st1. cbn [arcs]. rewrite all_frames_insert.
    + unfold mp, lazy_frames. cbn [value mapping]. by rewrite omap_nones.
    + apply eq_None_not_Some. intros H. apply (so_next _ _ Hs) in H. lia.
Qed.

Lemma range_page a b x : a mod 0x1000 = 0 → b mod 0x1000 = 0 → ¬ (a ≤ x < b) → ∀ y, a ≤ y < b → y / 0x1000 ≠ x / 0x1000.
Proof.
  intros Ha Hb Hx y Hy E. pose proof (Z.div_mod x 0x1000 ltac:(lia)). pose proof (Z.div_mod y 0x1000 ltac:(lia)).
  pose proof (Z.div_mod a 0x1000 ltac:(lia)). pose proof (Z.div_mod b 0x1000 ltac:(lia)).
  pose proof (Z.mod_pos_bound x 0x1000 ltac:(lia)). pose proof (Z.mod_pos_bound y 0x1000 ltac:(lia)). lia.
Qed.

Lemma space_unmap v pm R n F b len : all_disj ((b, len) :: R) → space_inv v pm ((b, len) :: R) n F →
  ∃ pm' v' F', free_mapping off v pm b (b + round len) = Done (Ok tt, (pm', v')) ∧ space_inv v' pm' R n F'.
Proof using Hoff.
  intros Hd [Hl Hs Ho Hf Hsm]. destruct v as [s st]. cbn [fst snd] in *.
  pose proof (lo_heap _ _ _ Hl) as [(H0 & Hlo & Hal & Hhi & r0 & Hr0 & Hr0s & Hr0e) _]%Forall_cons. cbn [fst snd] in *.
  destruct (round_spec len ltac:(lia)) as (Hr1 & Hr2 & Hr3).
  destruct (free_mapping_ok off Hoff s st F pm b (b + round len)) as [H|[H _]];
    [split; [done|by eapply frames_wf_app]|by apply (lo_ordered _ _ _ Hl)|lia|lia|done|done| | |by destruct (H r0)].
  { intros r Hr. destruct (so_live _ _ Hs r Hr) as [c Hc]. exists c. split; [done|].
    apply (frames_wf_app _ _ (all_frames (delete (r_arc r) (arcs st)))). eapply frames_wf_perm; [|exact Hf].
    rewrite (all_frames_delete _ _ _ Hc). by rewrite !(assoc_L (++)). }
  destruct H as (i & r & c & s' & F' & Hi & Hrs & Hre & Hc & E & Hord & Ho' & Hp & Hnone & Hsame).
  exists (mkPMM (page_mapper pm) (delete i (mappings pm))), (s', arc_release st (r_arc r) c), F'. split; [exact E|]. split; cbn [fst snd mappings page_mapper].
  - by eapply layout_delete.
  - by apply store_release.
  - done.
  - eapply frames_wf_perm; [|exact Hf]. rewrite (all_frames_release _ _ _ Hc), (all_frames_delete _ _ _ Hc).
    rewrite !(assoc_L (++)). rewrite !(assoc_L (++)) in Hp. f_equiv. exact Hp.
  - intros a Ha. destruct (decide (b ≤ a < b + round len)) as [Hin|Hout]; [intros d e; by rewrite Hnone|].
    eapply small_at_same; [|by apply Hsm]. apply Hsame; [by apply user_virt_ok|]. apply range_page; [done| |done].
    by rewrite Z.add_mod, Hal, Hr3 by lia.
Qed.
(** The heap of the process of thread [t]: the thread runs, the ranges do not overlap, and
    the memory of the process is as [space_inv] says. *)
Definition user_heap_inv (w : World) (R : list range) (n : nat) : Prop :=
  calm t w ∧ all_disj R ∧ ∃ m F, w_mem w !! my_process t w = Some m ∧ space_inv (w_vm w) (pm_mapper m) R n F.

Lemma user_mmap w R n len : 0 < len → user_heap_inv w R (pages_for len + n) →
  ∃ base w', mmap_page off start t 0 len w = Done (URet base, w') ∧ user_heap_inv w' ((base, len) :: R) n ∧
    base mod 0x1000 = 0 ∧ 0 ≤ base ∧ base + len ≤ 2 ^ 47.
Proof using Hoff.
  intros Hlen (Hc & Hd & m & F & Hm & Hsi). destruct (space_map _ _ _ _ _ len Hlen Hsi) as (H46 & base & v1 & pm' & El & Ei & Hsi' & Hdb & Hal & Hge & Hle).
  destruct (round_spec len ltac:(lia)) as (Hr1 & _). set (w1 := set_in_syscall w t true).
  set (w2 := upd_mem (upd_vm w1 v1) (<[my_process t w := mkPMem_ pm' (owned32_pages m) (pm_kernel m)]> (w_mem w))).
  assert (Eh : call_handler off start t 6 0 len 0 0 w1 = Done (Ok (HRet base), w2)).
  { change (mmap_page_handler off t 0 len w1 = Done (Ok (HRet base), w2)). unfold mmap_page_handler. rewrite kassert_at. cbn [Z.leb Z.compare EndUserMem].
    rewrite current_process_at. change (t_process _) with (my_process t w1). unfold w1. rewrite my_process_flag. fold w1.
    erewrite sys_bind_ok by (unfold pure; rewrite align_up_round by (unfold u64_lim; lia); reflexivity).
    erewrite sys_bind_ok by (unfold on_vm; change (w_vm w1) with (w_vm w); rewrite El; reflexivity). cbn [Z.eqb].
    erewrite sys_bind_ok by (eapply (on_mapper_done _ _ (upd_vm w1 v1)); [exact Hm|exact Ei]). done. }
  destruct (ucall_ret off start t 6 0 len 0 0 w base w2 Hc) as (E & Hc' & Hp); [done|done|exact Eh|done|].
  exists base, (set_in_syscall w2 t false). split; [exact E|]. split; [|lia]. split; [done|]. split; [by split|].
  rewrite Hp. exists (mkPMem_ pm' (owned32_pages m) (pm_kernel m)), F. split; [apply lookup_insert_eq|done].
Qed.

Lemma user_unmap w R n b len : user_heap_inv w ((b, len) :: R) n →
  ∃ w', unmmap_page off start t b len w = Done (URet tt, w') ∧ user_heap_inv w' R n.
Proof using Hoff.
  intros (Hc & Hd & m & F & Hm & Hsi). destruct (space_unmap _ _ _ _ _ _ _ Hd Hsi) as (pm' & v1 & F' & Ef & Hsi').
  pose proof (lo_heap _ _ _ (si_layout _ _ _ _ _ Hsi)) as [(H0 & Hlo & Hal & Hhi & _) _]%Forall_cons. cbn [fst snd] in *.
  destruct (round_spec len ltac:(lia)) as (Hr1 & Hr2 & _). set (w1 := set_in_syscall w t true).
  set (w2 := upd_mem (upd_vm w1 v1) (<[my_process t w := mkPMem_ pm' (owned32_pages m) (pm_kernel m)]> (w_mem w))).
  assert (Eh : call_handler off start t 9 b len 0 0 w1 = Done (Ok (HRet 0), w2)).
  { change (unmmap_page_handler off t b len w1 = Done (Ok (HRet 0), w2)). unfold unmmap_page_handler. rewrite kassert_at.
    rewrite (proj2 (Z.leb_le b EndUserMem)) by (unfold EndUserMem; lia). rewrite current_process_at.
    change (t_process _) with (my_process t w1). unfold w1. rewrite my_process_flag. fold w1.
    erewrite sys_bind_ok by (unfold pure, add_u64; rewrite chk_ok by (unfold u64_lim; lia); reflexivity).
    erewrite sys_bind_ok by (unfold pure; rewrite align_up_round by (unfold u64_lim; lia); reflexivity).
    erewrite sys_bind_ok by (eapply (on_mapper_done _ _ w1); [exact Hm|rewrite round_base by lia; exact Ef]). done. }
  destruct (ucall_ret off start t 9 b len 0 0 w 0 w2 Hc) as (E & Hc' & Hp); [done|done|exact Eh|done|].
  exists (set_in_syscall w2 t false). split.
  { unfold unmmap_page. by erewrite ulib_bind_ret by exact E. }
  split; [done|]. split; [apply Hd|]. rewrite Hp. exists (mkPMem_ pm' (owned32_pages m) (pm_kernel m)), F'. split; [apply lookup_insert_eq|done].
Qed.

#[local] Instance heap_source : PageSource World := user_source off start t.

Definition user_source_spec : PageSourceSpec World.
Proof using Hoff.
  refine {| ps_inv := user_heap_inv |}.
  - intros w R R' Hp n ? <-.
    assert (Himp : ∀ R R', R ≡ₚ R' → user_heap_inv w R n → user_heap_inv w R' n).
    { clear. intros R R' Hp (Hc & Hd & m & F & Hm & [Hl Hs Ho Hf Hsm]). split; [done|]. split; [by rewrite <- Hp|]. exists m, F. split; [done|].
      split; [|done..]. destruct Hl as [H1 H2 H3 (a & b & lo & hi & H4 & H5 & H6 & H7 & H8 & H9 & H10)]. split; [done|done|by rewrite <- Hp|].
      exists a, b, lo, hi. split_and!; try done; try lia; intros x Hx; [apply H8|apply H9]; by rewrite Hp. }
    split; apply Himp; [done|by symmetry].
  - intros w R n (_ & Hd & _). done.
  - intros w R n Hi. destruct (user_mmap w R n 0x1000 ltac:(lia) Hi) as (base & w' & E & Hi' & Hal & H0 & Hle). exists base, w'.
    cbn [ps_page heap_source user_source]. unfold user_page, returned. rewrite E. split_and!; try done. unfold u64_lim. lia.
  - intros w R len n Hi Hlen. destruct (user_mmap w R n len ltac:(lia) Hi) as (base & w' & E & Hi' & Hal & H0 & _). exists base, w'.
    cbn [ps_alloc heap_source user_source]. unfold user_pages, returned. rewrite E. done.
  - intros w R base len n Hi _. destruct (user_unmap w R n base len Hi) as (w' & E & Hi'). exists w'.
    cbn [ps_free heap_source user_source]. unfold user_free, returned. rewrite E. done.
Defined.

#[local] Instance heap_source_spec : PageSourceSpec World := user_source_spec.

(** C25: in a program whose address space has room for the pages the request needs, an
    allocation succeeds: the bytes overlap no live allocation and are aligned as the layout
    asks up to a page; giving them back succeeds, through the kernel for large requests, and
    leaves the other allocations as they were.  The address space stays ordered, its frames
    accounted for and its mappings live. *)
Theorem user_heap_spec s live n layout :
  slab_inv s live (need s layout + n) → Slab.layout_ok layout →
  ∃ a s', user_alloc off start t s layout = Done (a, s') ∧ slab_inv s' ((a, layout) :: live) n ∧
    all_disj (user_range <$> (a, layout) :: live) ∧ (l_align layout ≤ 0x1000 → a mod l_align layout = 0) ∧
    ∃ s'', user_dealloc off start t s' a layout = Done s'' ∧ slab_inv s'' live n.
Proof using Hoff.
  intros Hi Hl. destruct (slab_alloc_ok s live n layout Hi Hl) as (a & s' & E & Hi' & Hd & Hal).
  destruct (slab_dealloc_ok s' live n a layout Hi') as (s'' & E' & Hi'' & _).
  exists a, s'. split_and!; try done. by exists s''.
Qed.
End spec.

(** ** A program

    The sender of [Syscall.demo_sys] with the address space of [PageMapper]'s examples. *)
Definition demo_heap_world : World :=
  upd_mem (upd_vm demo_sys (demo_mapped_world, demo_store)) {[ 9%nat := mkPMem_ demo_pmm [] false ]}.

#[local] Instance demo_user_source : PageSource World := user_source PhysMapOffset 0 3.
#[local] Instance demo_user_source_spec : PageSourceSpec World := user_source_spec PhysMapOffset 0 phys_map_offset_ok 3.

Lemma demo_frames : frames_wf (range_frames 0x10000 4) (tables 3 demo_mapped 0x5000 ++ all_frames (arcs demo_store)).
Proof.
  rewrite demo_mapped_tables. split; [apply (bool_decide_unpack _); vm_compute; exact I|].
  rewrite (assoc_L (++)). apply Forall_app. split.
  - destruct demo_mapped_wf as [_ Hf]. cbn [demo_mapped_world snd] in Hf. by rewrite demo_mapped_tables in Hf.
  - assert (all_frames (arcs demo_store) = [0x7000; 0x8000] ∨ all_frames (arcs demo_store) = [0x8000; 0x7000]) as [-> | ->] by (vm_compute; auto);
      by repeat constructor.
Qed.

Lemma demo_placed : placed (mappings demo_pmm) [] 1.
Proof.
  split; [exact demo_ordered|repeat constructor; cbn; lia|constructor|].
  exists 0x403000, 0x7fff0000, (mkEntry 0x400000 0x403000 0 flags_all), (mkEntry 0x7fff0000 0x7fff1000 1 flags_all).
  split_and!; try (cbn; lia); try (by repeat constructor); [|intros x Hx; by apply elem_of_nil in Hx..].
  intros r Hr. cbn in Hr. repeat (apply elem_of_cons in Hr as [->|Hr]; [cbn; lia|]). by apply elem_of_nil in Hr.
Qed.

Lemma demo_user_heap : user_heap_inv PhysMapOffset phys_map_offset_ok 3 demo_heap_world [] 1.
Proof.
  split; [by split|]. split; [done|]. exists (mkPMem_ demo_pmm [] false), (range_frames 0x10000 4). split; [reflexivity|].
  split; cbn [fst snd demo_heap_world w_vm upd_mem upd_vm pm_mapper mappings page_mapper demo_pmm].
  - exact demo_placed.
  - split.
    + apply (bool_decide_unpack _). by vm_compute.
    + intros r Hr. cbn in Hr. repeat (apply elem_of_cons in Hr as [->|Hr]; [by eexists|]). by apply elem_of_nil in Hr.
    + intros id [c Hc]. unfold demo_store in Hc. cbn [arcs] in Hc. rewrite !lookup_insert_Some in Hc. cbn. naive_solver lia.
  - exact demo_mapped_owns.
  - exact demo_frames.
  - exact demo_small.
Qed.

Definition demo_user_slab : SlabAllocator World := SlabAllocator_new demo_heap_world (λ _, None).

Lemma user_heap_spec_witness :
  ∃ a s', user_alloc PhysMapOffset 0 3 demo_user_slab (mkLayout 3000 8) = Done (a, s') ∧
    ∃ s'', user_dealloc PhysMapOffset 0 3 s' a (mkLayout 3000 8) = Done s''.
Proof.
  destruct (user_heap_spec PhysMapOffset 0 phys_map_offset_ok 3 demo_user_slab [] 0 (mkLayout 3000 8)) as (a & s' & E & _ & _ & _ & s'' & E' & _).
  - apply SlabAllocator_new_ok. exact demo_user_heap.
  - by exists 3.
  - exists a, s'. split; [exact E|]. exists s''. exact E'.
Defined.
