(* ===== verification/Allocators.v ===== *)
(** * The other allocators

    Allocators of the repository that the programs do not use at present: the linked list
    of [kernel/src/allocator/linked_list.rs], the bump allocator of
    [kernel/src/allocator/bump.rs], the blocks of fixed size of
    [kernel/src/allocator/fixed_size_block.rs], and the bump allocator for programs of
    [userspace_bumpalloc/src/bump.rs].  [BumpHeap] discharges the interface that the blocks
    of fixed size ask of the heap below them. *)
From S2P Require Import Prelude Slab.

(** ** The list of free regions *)
Module LinkedList.

(** A node lies at the start of the region it describes. *)
Record ListNode := mkNode { n_size : Z; n_next : option Z }.
Definition NODE_ALIGN : Z := 8.
Definition NODE_SIZE : Z := 16.

Record LinkedListAllocator := mkLLA { head : option Z; lnode : Z → ListNode }.

Definition LinkedListAllocator_new (memory : Z → ListNode) : LinkedListAllocator := mkLLA None memory.

Definition ll_align_up (addr align : Z) : outcome Z :=
  remainder ← rem_ addr align;
  if remainder =? 0 then Done addr else d ← sub_u64 addr remainder; add_u64 d align.

Definition end_addr (a : LinkedListAllocator) (region : Z) : outcome Z := add_u64 region (n_size (lnode a region)).

Definition add_free_region (a : LinkedListAllocator) (addr size : Z) : outcome LinkedListAllocator :=
  up ← ll_align_up addr NODE_ALIGN;
  _ ← assert_ (up =? addr);
  _ ← assert_ (NODE_SIZE <=? size);
  Done (mkLLA (Some addr) (<[addr := mkNode size (head a)]> (lnode a))).

Definition ll_init (a : LinkedListAllocator) (heap_start heap_size : Z) : outcome LinkedListAllocator :=
  add_free_region a heap_start heap_size.

(** [None] is [Err(())]. *)
Definition alloc_from_region (a : LinkedListAllocator) (region size align : Z) : outcome (option Z) :=
  alloc_start ← ll_align_up region align;
  if u64_lim <=? alloc_start + size then Done None
  else
    let alloc_end := alloc_start + size in
    e ← end_addr a region;
    if e <? alloc_end then Done None
    else
      let excess_size := e - alloc_end in
      Done (if (0 <? excess_size) && (excess_size <? NODE_SIZE) then None else Some alloc_start).

(** The [next] field of the head or of a region. *)
Definition get_next (a : LinkedListAllocator) (prev : option Z) : option Z :=
  match prev with None => head a | Some p => n_next (lnode a p) end.
Definition set_next (a : LinkedListAllocator) (prev nxt : option Z) : LinkedListAllocator :=
  match prev with
  | None => mkLLA nxt (lnode a)
  | Some p => mkLLA (head a) (<[p := mkNode (n_size (lnode a p)) nxt]> (lnode a))
  end.

Fixpoint find_region (fuel : nat) (a : LinkedListAllocator) (previous_region : option Z) (size align : Z)
  : outcome (option (Z * Z) * LinkedListAllocator) :=
  match fuel with
  | O => OutOfFuel
  | S fuel =>
      match get_next a previous_region with
      | None => Done (None, a)
      | Some this_region =>
          r ← alloc_from_region a this_region size align;
          match r with
          | Some alloc_start =>
              let next_free := n_next (lnode a this_region) in
              let a := set_next a (Some this_region) None in
              Done (Some (this_region, alloc_start), set_next a previous_region next_free)
          | None => find_region fuel a (Some this_region) size align
          end
      end
  end.

(** [Layout::align_to] fails when the rounded size does not fit an [isize]. *)
Definition size_align (layout : Layout) : outcome (Z * Z) :=
  let align := Z.max (l_align layout) NODE_ALIGN in
  _ ← (if 2 ^ 63 - align <? l_size layout then Panic PUnwrap else Done tt);
  let padded := (l_size layout + align - 1) / align * align in
  Done (Z.max padded NODE_SIZE, align).

(** A null pointer is 0. *)
Definition ll_alloc (fuel : nat) (a : LinkedListAllocator) (layout : Layout) : outcome (Z * LinkedListAllocator) :=
  '(size, align) ← size_align layout;
  '(r, a) ← find_region fuel a None size align;
  match r with
  | Some (region, alloc_start) =>
      alloc_end ← (if u64_lim <=? alloc_start + size then Panic PUnwrap else Done (alloc_start + size));
      e ← end_addr a region;
      excess_size ← sub_u64 e alloc_end;
      a ← (if 0 <? excess_size then add_free_region a alloc_end excess_size else Done a);
      Done (alloc_start, a)
  | None => Done (0, a)
  end.

Definition ll_dealloc (a : LinkedListAllocator) (ptr : Z) (layout : Layout) : outcome LinkedListAllocator :=
  '(size, _) ← size_align layout;
  add_free_region a ptr size.

(** *** What a region is good for *)
Definition up (addr align : Z) : Z := if addr mod align =? 0 then addr else addr - addr mod align + align.

Definition place (r : range) (size align : Z) : option Z :=
  let st := up r.1 align in
  let excess := r.1 + r.2 - (st + size) in
  if (excess <? 0) || ((0 <? excess) && (excess <? NODE_SIZE)) then None else Some st.

Lemma up_spec addr align : 0 < align → addr ≤ up addr align < addr + align ∧ up addr align mod align = 0.
Proof.
  intros Ha. unfold up. pose proof (Z.mod_pos_bound addr align Ha). destruct (Z.eqb_spec (addr mod align) 0); [lia|]. split; [lia|].
  replace (addr - addr mod align + align) with ((addr / align + 1) * align) by (pose proof (Z.div_mod addr align); lia). apply Z.mod_mul. lia.
Qed.

Lemma align_up_ok addr align : 0 ≤ addr → 0 < align → addr + align < u64_lim → ll_align_up addr align = Done (up addr align).
Proof.
  intros H0 Ha Hl. unfold ll_align_up, up, rem_. rewrite (proj2 (Z.eqb_neq align 0)) by lia. cbn [mbind outcome_bind].
  pose proof (Z.mod_pos_bound addr align Ha). pose proof (Z.mod_le addr align H0 Ha). case_match; [done|].
  unfold sub_u64, add_u64. rewrite chk_ok by lia. cbn [mbind outcome_bind]. by rewrite chk_ok by lia.
Qed.

Lemma alloc_from_region_ok a r sz size align :
  n_size (lnode a r) = sz → 0 ≤ r → 0 ≤ sz → 0 ≤ size → 0 < align → r + sz + align < u64_lim →
  alloc_from_region a r size align = Done (place (r, sz) size align).
Proof.
  intros Hsz Hr H0 Hs Ha Hl. pose proof (up_spec r align Ha). unfold alloc_from_region. rewrite align_up_ok by lia. cbn [mbind outcome_bind].
  unfold end_addr, add_u64, place. cbn [fst snd]. rewrite Hsz.
  destruct (Z.leb_spec u64_lim (up r align + size)).
  - rewrite (proj2 (Z.ltb_lt _ 0)) by lia. done.
  - rewrite chk_ok by lia. cbn [mbind outcome_bind]. destruct (Z.ltb_spec (r + sz) (up r align + size)).
    + rewrite (proj2 (Z.ltb_lt _ 0)) by lia. done.
    + rewrite (proj2 (Z.ltb_ge _ 0)) by lia. done.
Qed.

(** *** The list *)
Fixpoint regions (mem : Z → ListNode) (start : option Z) (l : list range) : Prop :=
  match l with
  | [] => start = None
  | (x, sz) :: l => start = Some x ∧ n_size (mem x) = sz ∧ regions mem (n_next (mem x)) l
  end.

Lemma regions_ext mem mem' start l : (∀ x, x ∈ l.*1 → mem' x = mem x) → regions mem start l → regions mem' start l.
Proof.
  revert start. induction l as [|[x sz] l IH]; intros start He; cbn; [done|]. intros (-> & Hs & Hl).
  rewrite (He x) by (cbn; left). split_and!; [done|done|]. apply IH; [|done]. intros y Hy. apply He. cbn. by right.
Qed.

Lemma find_region_ok size align : ∀ l fuel a prev,
  regions (lnode a) (get_next a prev) l → NoDup l.*1 → (∀ p, prev = Some p → p ∉ l.*1) → (length l < fuel)%nat →
  0 ≤ size → 0 < align → Forall (λ r, 0 ≤ r.1 ∧ 0 ≤ r.2 ∧ r.1 + r.2 + align < u64_lim) l →
  (Forall (λ r, place r size align = None) l ∧ find_region fuel a prev size align = Done (None, a)) ∨
  (∃ l1 r sz l2 ptr a', l = l1 ++ (r, sz) :: l2 ∧ Forall (λ r, place r size align = None) l1 ∧ place (r, sz) size align = Some ptr ∧
     find_region fuel a prev size align = Done (Some (r, ptr), a') ∧ n_size (lnode a' r) = sz ∧
     regions (lnode a') (get_next a' prev) (l1 ++ l2) ∧ (prev ≠ None → head a' = head a) ∧
     (∀ p, prev = Some p → n_size (lnode a' p) = n_size (lnode a p)) ∧
     (∀ x, x ∉ l.*1 → prev ≠ Some x → lnode a' x = lnode a x)).
Proof.
  induction l as [|[r sz] l IH]; intros fuel a prev Hr Hnd Hp Hf Hs Ha Hall; (destruct fuel as [|fuel]; [cbn in Hf; lia|]); cbn [find_region].
  - cbn in Hr. rewrite Hr. by left.
  - destruct Hr as (Hg & Hsz & Hr). rewrite Hg. cbn in Hnd. apply NoDup_cons in Hnd as [Hrl Hnd].
    apply Forall_cons in Hall as [(? & ? & ?) Hall]. cbn [fst snd] in *.
    rewrite (alloc_from_region_ok a r sz) by done. cbn [mbind outcome_bind].
    destruct (place (r, sz) size align) as [ptr|] eqn:Ep.
    + right. exists [], r, sz, l, ptr. eexists. split; [done|]. split; [constructor|]. split; [done|]. split; [done|].
      assert (Hne : prev ≠ Some r) by (intros ->; apply (Hp r eq_refl); left).
      destruct prev as [p|]; cbn [set_next lnode head get_next app].
      * assert (p ≠ r) by congruence. assert (p ∉ l.*1) by (intros Hin; apply (Hp p eq_refl); by right).
        rewrite !(fn_lookup_insert_ne _ p r), !fn_lookup_insert by done. split_and!; [done| |done|intros q [= <-]; rewrite fn_lookup_insert; cbn [n_size]; by rewrite fn_lookup_insert_ne|].
        -- eapply regions_ext; [|exact Hr]. intros x Hx. rewrite !fn_lookup_insert_ne by (intros ->; done). done.
        -- intros x Hx Hxp. cbn in Hx. apply not_elem_of_cons in Hx as [? ?]. rewrite !fn_lookup_insert_ne by congruence. done.
      * rewrite fn_lookup_insert. split_and!; [done| |done|done|].
        -- eapply regions_ext; [|exact Hr]. intros x Hx. rewrite !fn_lookup_insert_ne by (intros ->; done). done.
        -- intros x Hx _. cbn in Hx. apply not_elem_of_cons in Hx as [? ?]. rewrite !fn_lookup_insert_ne by congruence. done.
    + destruct (IH fuel a (Some r)) as [[Hno E]|(l1 & r' & sz' & l2 & ptr & a' & El & Hno & Hpl & E & Hsz' & Hr' & Hh & Hps & Hsame)];
        [done|done|intros p [= <-]; done|cbn in Hf; lia|done|done|done| |].
      * left. split; [by constructor|done].
      * right. exists ((r, sz) :: l1), r', sz', l2, ptr, a'. split; [by rewrite El|]. split; [by constructor|]. split; [done|]. split; [done|]. split; [done|].
        assert (Hkeep : ∀ x, x ∉ ((r, sz) :: l).*1 → lnode a' x = lnode a x).
        { intros x Hx. cbn in Hx. apply not_elem_of_cons in Hx as [? ?]. apply Hsame; [done|congruence]. }
        split_and!.
        -- destruct prev as [p|]; cbn [get_next] in *; [|rewrite Hh by done]; [rewrite Hkeep by by apply Hp|];
             (split; [done|]; split; [by rewrite (Hps r eq_refl)|exact Hr']).
        -- intros _. by apply Hh.
        -- intros p ->. by rewrite Hkeep by by apply Hp.
        -- intros x Hx _. by apply Hkeep.
Qed.

(** *** Allocation *)
Definition region_ok (r : range) : Prop := 0 < r.1 ∧ r.1 mod 8 = 0 ∧ 16 ≤ r.2 ∧ r.1 + r.2 < 2 ^ 63.

(** The regions of the list and the blocks handed out share no byte. *)
Record ll_inv (a : LinkedListAllocator) (free live : list range) : Prop := {
  li_list : regions (lnode a) (head a) free;
  li_disj : all_disj (free ++ live);
  li_ok : Forall region_ok (free ++ live);
}.

Lemma disj_starts l : all_disj l → Forall region_ok l → NoDup l.*1.
Proof.
  induction l as [|x l IH]; cbn; [constructor|]. intros [Hx Hl] [Hxo Hlo]%Forall_cons. constructor; [|auto].
  intros (y & E & Hy)%list_elem_of_fmap. rewrite Forall_forall in Hx, Hlo. destruct Hxo as (? & ? & ? & ?), (Hlo y Hy) as (? & ? & ? & ?).
  destruct (Hx y Hy); lia.
Qed.

Lemma size_align_ok layout : layout_ok layout → 0 ≤ l_size layout ≤ 2 ^ 61 → l_align layout ≤ 2 ^ 61 →
  ∃ size align, size_align layout = Done (size, align) ∧ NODE_SIZE ≤ size ∧ l_size layout ≤ size ∧ size mod 8 = 0 ∧
    0 < align ≤ 2 ^ 61 ∧ align mod 8 = 0 ∧ align mod l_align layout = 0 ∧ size ≤ 2 ^ 62.
Proof.
  intros (k & Hk & Ek) Hs Ha. unfold size_align. set (align := Z.max (l_align layout) NODE_ALIGN).
  assert (Hal : align = 2 ^ Z.max k 3).
  { unfold align, NODE_ALIGN. rewrite Ek. change 8 with (2 ^ 3). destruct (Z.max_spec k 3) as [[? ->]|[? ->]].
    - rewrite Z.max_r; [done|]. apply Z.pow_le_mono_r; lia.
    - rewrite Z.max_l; [done|]. apply Z.pow_le_mono_r; lia. }
  assert (Hpos : 8 ≤ align ≤ 2 ^ 61) by (unfold align, NODE_ALIGN; lia).
  assert (H8 : align mod 8 = 0).
  { rewrite Hal. change 8 with (2 ^ 3). replace (Z.max k 3) with (Z.max k 3 - 3 + 3) by lia. rewrite Z.pow_add_r by lia. apply Z.mod_mul. lia. }
  rewrite (proj2 (Z.ltb_ge _ _)) by lia. cbn [mbind outcome_bind].
  set (padded := (l_size layout + align - 1) / align * align).
  pose proof (Z.div_mod (l_size layout + align - 1) align ltac:(lia)). pose proof (Z.mod_pos_bound (l_size layout + align - 1) align ltac:(lia)).
  assert (Hpd : l_size layout ≤ padded < l_size layout + align) by (unfold padded; lia).
  eexists _, align. split; [done|]. unfold NODE_SIZE in *. split_and!; try lia.
  - destruct (Z.max_spec padded 16) as [[_ ->]|[_ ->]]; [done|]. unfold padded. rewrite Z.mul_mod, H8, Z.mul_0_r by lia. done.
  - rewrite Hal, Ek. replace (Z.max k 3) with (Z.max k 3 - k + k) by lia. rewrite Z.pow_add_r by lia. apply Z.mod_mul. lia.
Qed.

Lemma add_free_region_ok a addr size free live :
  ll_inv a free live → region_ok (addr, size) → Forall (disj (addr, size)) (free ++ live) →
  ∃ a', add_free_region a addr size = Done a' ∧ ll_inv a' ((addr, size) :: free) live.
Proof.
  intros [Hl Hd Ho] Hro Hdn. pose proof Hro as (? & Hm & ? & ?). cbn [fst snd] in *. unfold add_free_region.
  assert (E : up addr NODE_ALIGN = addr) by (unfold up, NODE_ALIGN; by rewrite Hm).
  rewrite align_up_ok by (unfold NODE_ALIGN, u64_lim; lia). rewrite E. cbn [mbind outcome_bind].
  rewrite Z.eqb_refl, (proj2 (Z.leb_le NODE_SIZE size)) by (unfold NODE_SIZE; lia). cbn [assert_ mbind outcome_bind].
  eexists. split; [done|]. split; cbn [lnode head regions app].
  - rewrite fn_lookup_insert. cbn. split_and!; [done|done|]. eapply regions_ext; [|exact Hl].
    intros x (y & -> & Hy)%list_elem_of_fmap. apply fn_lookup_insert_ne. intros ->.
    rewrite Forall_forall in Hdn, Ho. assert (Hy' : y ∈ free ++ live) by (apply elem_of_app; by left).
    destruct (Ho y Hy') as (? & ? & ? & ?). destruct (Hdn y Hy'); cbn [fst snd] in *; lia.
  - split; [done|exact Hd].
  - constructor; [exact Hro|exact Ho].
Qed.

Lemma place_inside r size align ptr : 0 < align → 0 ≤ size → place r size align = Some ptr →
  inside (ptr, size) r ∧ ptr mod align = 0 ∧ (ptr + size = r.1 + r.2 ∨ ptr + size + NODE_SIZE ≤ r.1 + r.2).
Proof.
  intros Ha Hs. unfold place. destruct (up_spec r.1 align Ha) as [Hup Hm].
  destruct (_ || _) eqn:Eb; [done|]. apply orb_false_iff in Eb as [E1%Z.ltb_ge E2]. intros [= <-]. unfold inside. cbn [fst snd].
  split; [lia|]. split; [done|]. apply andb_false_iff in E2 as [E2%Z.ltb_ge|E2%Z.ltb_ge]; lia.
Qed.

(** An allocation takes the first region of the list that has room for it behind its
    alignment; the rest of the region goes back to the list.  The block is aligned, lies in
    the region and shares no byte with what is free or handed out.  When no region has room
    the pointer is null and nothing changes. *)
Theorem ll_alloc_spec fuel a free live layout size align :
  ll_inv a free live → (length free < fuel)%nat → layout_ok layout → 0 ≤ l_size layout ≤ 2 ^ 61 → l_align layout ≤ 2 ^ 61 →
  size_align layout = Done (size, align) →
  (Forall (λ r, place r size align = None) free ∧ ll_alloc fuel a layout = Done (0, a)) ∨
  (∃ l1 r l2 ptr a', free = l1 ++ r :: l2 ∧ Forall (λ r, place r size align = None) l1 ∧ place r size align = Some ptr ∧
     ll_alloc fuel a layout = Done (ptr, a') ∧
     ll_inv a' ((if 0 <? r.1 + r.2 - (ptr + size) then [(ptr + size, r.1 + r.2 - (ptr + size))] else []) ++ l1 ++ l2) ((ptr, size) :: live) ∧
     l_size layout ≤ size ∧ ptr mod l_align layout = 0 ∧ inside (ptr, size) r).
Proof.
  intros Hinv Hf Hlo Hls Hla Hsa. destruct (size_align_ok layout Hlo Hls Hla) as (size' & align' & E & Hs16 & Hsl & Hs8 & Hal & Hal8 & Hdiv & Hs62).
  rewrite Hsa in E. injection E as <- <-. pose proof Hinv as [Hl Hd Ho]. unfold ll_alloc. rewrite Hsa. cbn [mbind outcome_bind].
  pose proof (proj1 (all_disj_app _ _) Hd) as (Hdf & Hdl & Hdx). pose proof (proj1 (Forall_app _ _ _) Ho) as [Hof Hol].
  destruct (find_region_ok size align free fuel a None) as [[Hno ->]|(l1 & r & sz & l2 & ptr & a' & El & Hno & Hpl & -> & Hsz & Hr & _ & _ & Hsame)];
    [done|by apply disj_starts|done|done|unfold NODE_SIZE in *; lia|lia| |by left|right].
  { eapply Forall_impl; [exact Hof|]. intros x (? & ? & ? & ?). unfold u64_lim. lia. }
  exists l1, (r, sz), l2, ptr. cbn [mbind outcome_bind fst snd].
  destruct (place_inside (r, sz) size align ptr ltac:(lia) ltac:(unfold NODE_SIZE in *; lia) Hpl) as (Hin & Hpm & Hfit).
  unfold inside in Hin. cbn [fst snd] in *.
  assert (Hrok : region_ok (r, sz)) by (rewrite El in Hof; apply Forall_app in Hof as [_ Hof]; by apply Forall_cons in Hof as [? _]).
  pose proof Hrok as (? & ? & ? & ?). cbn [fst snd] in *.
  rewrite (proj2 (Z.leb_gt _ _)) by (unfold u64_lim; lia). cbn [mbind outcome_bind]. unfold end_addr, add_u64, sub_u64. rewrite Hsz.
  rewrite (chk_ok _ (r + sz)) by (unfold u64_lim; lia). cbn [mbind outcome_bind]. rewrite chk_ok by (unfold u64_lim; lia). cbn [mbind outcome_bind].
  assert (Hp8 : ptr mod 8 = 0).
  { rewrite (Z.div_mod ptr align), Hpm, Z.add_0_r, Z.mul_comm, Z.mul_mod, Hal8, Z.mul_0_r by lia. done. }
  assert (Hpa : ptr mod l_align layout = 0).
  { destruct Hlo as (k & Hk & Ek). assert (l_align layout ≠ 0) by (rewrite Ek; pose proof (Z.pow_pos_nonneg 2 k); lia).
    rewrite (Z.div_mod ptr align), Hpm, Z.add_0_r, Z.mul_comm, Z.mul_mod, Hdiv, Z.mul_0_r by lia. by apply Z.mod_0_l. }
  assert (Hperm : free ++ live ≡ₚ (r, sz) :: (l1 ++ l2) ++ live) by (rewrite El; solve_Permutation).
  rewrite Hperm in Hd, Ho. destruct Hd as [Hdr Hd]. apply Forall_cons in Ho as [_ Ho].
  assert (Hnew : ll_inv a' (l1 ++ l2) ((ptr, size) :: live)).
  { split; [exact Hr| |].
    - rewrite <- Permutation_middle. split; [|exact Hd]. eapply Forall_impl; [exact Hdr|]. intros y Hy. eapply disj_inside; [exact Hy|]. unfold inside. cbn. lia.
    - rewrite <- Permutation_middle. constructor; [|exact Ho]. unfold region_ok, NODE_SIZE in *. cbn. lia. }
  destruct (Z.ltb_spec 0 (r + sz - (ptr + size))) as [Hex|Hex].
  - destruct (add_free_region_ok a' (ptr + size) (r + sz - (ptr + size)) _ _ Hnew) as (a2 & -> & Hinv2).
    + unfold region_ok, NODE_SIZE in *. cbn [fst snd]. rewrite Z.add_mod, Hp8, Hs8 by lia. split_and!; [lia|done|lia|lia].
    + rewrite <- Permutation_middle. constructor; [unfold disj; cbn; lia|]. eapply Forall_impl; [exact Hdr|].
      intros y Hy. eapply disj_inside; [exact Hy|]. unfold inside. cbn. lia.
    + cbn [mbind outcome_bind]. exists a2. split_and!; done.
  - cbn [mbind outcome_bind]. exists a'. split_and!; done.
Qed.

(** A block given back with its layout is in the list again. *)
Theorem ll_dealloc_spec a free live ptr layout size align :
  ll_inv a free ((ptr, size) :: live) → size_align layout = Done (size, align) →
  ∃ a', ll_dealloc a ptr layout = Done a' ∧ ll_inv a' ((ptr, size) :: free) live.
Proof.
  intros [Hl Hd Ho] Hs. unfold ll_dealloc. rewrite Hs. cbn [mbind outcome_bind].
  rewrite <- Permutation_middle in Hd, Ho. destruct Hd as [Hdn Hd]. apply Forall_cons in Ho as [Hro Ho].
  by apply add_free_region_ok.
Qed.

(** The regions of the list, in order. *)
Fixpoint walk (fuel : nat) (a : LinkedListAllocator) (start : option Z) : list range :=
  match fuel, start with
  | S fuel, Some r => (r, n_size (lnode a r)) :: walk fuel a (n_next (lnode a r))
  | _, _ => []
  end.

(** The bytes between the start of a region and an aligned block are lost: they are neither
    free nor part of the block, and do not come back with it.  Here a heap of 0x1000 bytes has
    0xF08 left after one allocation is given back. *)
Lemma padding_is_lost :
  (a ← ll_init (LinkedListAllocator_new (λ _, mkNode 0 None)) 0x1008 0x1000;
   '(p, a) ← ll_alloc 5 a (mkLayout 16 256);
   a ← ll_dealloc a p (mkLayout 16 256);
   Done (walk 5 a (head a))) = Done [(0x1100, 0x100); (0x1200, 0xE08)].
Proof. by vm_compute. Qed.
End LinkedList.

(** ** An allocator as the layer below another one *)

(** A null pointer is [None]. *)
Class HeapOps (H : Type) := {
  h_alloc : H → Layout → outcome (option Z * H);
  h_dealloc : H → Z → Layout → outcome H;
}.

Definition extent (x : Z * Layout) : range := (x.1, l_size x.2).

(** What [Layout] guarantees of a layout. *)
Definition valid (l : Layout) : Prop := layout_ok l ∧ 0 < l_size l < 2 ^ 62 ∧ l_align l ≤ 2 ^ 62.

(** Blocks do not overlap and are aligned; what was handed out can be given back. *)
Class HeapSpec (H : Type) `{HeapOps H} := {
  h_inv : H → list (Z * Layout) → Prop;
  h_inv_perm h : Proper ((≡ₚ) ==> iff) (h_inv h);
  h_inv_disj h live : h_inv h live → all_disj (extent <$> live);
  h_inv_aligned h live : h_inv h live → Forall (λ x, x.1 ≠ 0 ∧ x.1 mod l_align x.2 = 0) live;
  h_alloc_spec h live layout :
    h_inv h live → valid layout →
    (∃ h', h_alloc h layout = Done (None, h') ∧ h_inv h' live) ∨
    (∃ p h', h_alloc h layout = Done (Some p, h') ∧ h_inv h' ((p, layout) :: live));
  h_dealloc_spec h live p layout :
    h_inv h ((p, layout) :: live) → ∃ h', h_dealloc h p layout = Done h' ∧ h_inv h' live;
}.
#[export] Existing Instance h_inv_perm.

(** ** The bump allocator of the kernel *)
Module BumpHeap.
Record BumpAllocator := mkBump { heap_start : Z; heap_end : Z; next : Z; allocations : Z }.

Definition BumpAllocator_new : BumpAllocator := mkBump 0 0 0 0.

Definition bump_init (b : BumpAllocator) (start size : Z) : outcome BumpAllocator :=
  e ← add_u64 start size; Done (mkBump start e start (allocations b)).

Section bump.
(** [linked_list_allocator::align_up]: the smallest multiple of a power of two that is not
    below the address. *)
Context (align_up : Z → Z → outcome Z).

Definition bump_alloc (b : BumpAllocator) (layout : Layout) : outcome (option Z * BumpAllocator) :=
  if heap_start b =? 0 then Done (None, b)
  else
    alloc_start ← align_up (next b) (l_align layout);
    if u64_lim <=? alloc_start + l_size layout then Done (None, b)
    else
      let alloc_end := alloc_start + l_size layout in
      if heap_end b <? alloc_end then Done (None, b)
      else
        n ← add_u64 (allocations b) 1;
        Done (Some alloc_start, mkBump (heap_start b) (heap_end b) alloc_end n).

Definition bump_dealloc (b : BumpAllocator) (_ptr : Z) (_layout : Layout) : outcome BumpAllocator :=
  n ← sub_u64 (allocations b) 1;
  Done (mkBump (heap_start b) (heap_end b) (if n =? 0 then heap_start b else next b) n).

Instance bump_ops : HeapOps BumpAllocator := {| h_alloc := bump_alloc; h_dealloc := bump_dealloc |}.

(** The documented behaviour of [align_up]. *)
Hypothesis align_up_spec : ∀ addr k, 0 ≤ addr → 0 ≤ k < 64 → addr + 2 ^ k < u64_lim →
  align_up addr (2 ^ k) = Done ((addr + 2 ^ k - 1) / 2 ^ k * 2 ^ k).

(** The blocks handed out lie between the start and [next]. *)
Record bump_inv (b : BumpAllocator) (live : list (Z * Layout)) : Prop := {
  bi_bounds : 0 < heap_start b ≤ next b ∧ next b ≤ heap_end b < 2 ^ 63;
  bi_count : allocations b = Z.of_nat (length live) ∧ allocations b ≤ next b - heap_start b;
  bi_disj : all_disj (extent <$> live);
  bi_live : Forall (λ x, heap_start b ≤ x.1 ∧ x.1 + l_size x.2 ≤ next b ∧ x.1 mod l_align x.2 = 0) live;
}.

Lemma bump_alloc_ok b live layout : bump_inv b live → valid layout →
  bump_alloc b layout = Done (None, b) ∨
  ∃ p b', bump_alloc b layout = Done (Some p, b') ∧ bump_inv b' ((p, layout) :: live).
Proof using align_up_spec.
  intros [Hb [Hc Hcn] Hd Hl] ((k & Hk & Ek) & Hs & Ha). unfold bump_alloc. rewrite (proj2 (Z.eqb_neq (heap_start b) 0)) by lia.
  pose proof (Z.pow_pos_nonneg 2 k ltac:(lia) Hk) as Hpos. rewrite Ek in Ha.
  assert (k ≤ 62) by (apply (Z.pow_le_mono_r_iff 2); lia). rewrite Ek, align_up_spec by (unfold u64_lim; lia). cbn [mbind outcome_bind].
  set (p := (next b + 2 ^ k - 1) / 2 ^ k * 2 ^ k).
  assert (Hp : next b ≤ p) by (unfold p; pose proof (Z.div_mod (next b + 2 ^ k - 1) (2 ^ k) ltac:(lia)); pose proof (Z.mod_pos_bound (next b + 2 ^ k - 1) (2 ^ k) ltac:(lia)); lia).
  destruct (Z.leb_spec u64_lim (p + l_size layout)); [by left|]. destruct (Z.ltb_spec (heap_end b) (p + l_size layout)); [by left|]. right.
  unfold add_u64. rewrite chk_ok by (unfold u64_lim in *; lia). cbn [mbind outcome_bind]. eexists p, _. split; [done|].
  split; cbn [heap_start heap_end next allocations].
  - lia.
  - cbn [length]. lia.
  - cbn. split; [|done]. apply Forall_fmap. eapply Forall_impl; [exact Hl|]. intros x (? & ? & ?). unfold disj, compose, extent. cbn. lia.
  - constructor; [cbn [fst snd]; rewrite Ek; split_and!; [lia|lia|apply Z.mod_mul; lia]|].
    eapply Forall_impl; [exact Hl|]. intros x (? & ? & ?). split_and!; [done|lia|done].
Qed.

Lemma bump_dealloc_ok b live p layout : bump_inv b ((p, layout) :: live) →
  ∃ b', bump_dealloc b p layout = Done b' ∧ bump_inv b' live.
Proof using.
  intros [Hb [Hc Hcn] Hd Hl]. cbn [length] in Hc. unfold bump_dealloc, sub_u64. rewrite chk_ok by (unfold u64_lim; lia). cbn [mbind outcome_bind].
  apply Forall_cons in Hl as [_ Hl]. eexists. split; [done|]. split; cbn [heap_start heap_end next allocations]; [case_match; lia| |apply Hd|].
  - destruct (Z.eqb_spec (allocations b - 1) 0); lia.
  - destruct (Z.eqb_spec (allocations b - 1) 0); [|done]. destruct live; [constructor|cbn in Hc; lia].
Qed.

Definition bump_spec : HeapSpec BumpAllocator.
Proof using align_up_spec.
  refine {| h_inv := bump_inv |}.
  - intros b l l' Hp. assert (Himp : ∀ l l', l ≡ₚ l' → bump_inv b l → bump_inv b l').
    { clear. intros l l' Hp [H1 H2 H3 H4]. split; [done|by rewrite <- Hp|by rewrite <- Hp|by rewrite <- Hp]. }
    split; apply Himp; [done|by symmetry].
  - by intros b live [].
  - intros b live [Hb _ _ Hl]. eapply Forall_impl; [exact Hl|]. intros x (? & ? & ?). split; [lia|done].
  - intros b live layout Hi Hv. destruct (bump_alloc_ok b live layout Hi Hv) as [E|(p & b' & E & Hi')]; [left|right]; eauto.
  - intros b live p layout. apply bump_dealloc_ok.
Defined.
End bump.
End BumpHeap.

(** ** The bump allocator of programs *)
Module UserBump.
Definition is_power_of_two (x : Z) : bool := (0 <? x) && (Z.land x (x - 1) =? 0).

Definition ub_align_down (addr align : Z) : outcome Z :=
  if is_power_of_two align then Done (Z.land addr (not_u64 (align - 1)))
  else if align =? 0 then Done addr
  else Panic PAssert.

Definition ub_align_up (addr align : Z) : outcome Z :=
  a ← add_u64 addr align; a ← sub_u64 a 1; ub_align_down a align.

(** [pages] are the addresses given to [mmap_page], oldest first. *)
Record UserBumpAllocator := mkBump { heap_start : Z; heap_end : Z; next : Z; allocations : Z; pages : list Z }.

Definition UserBumpAllocator_new : UserBumpAllocator := mkBump 0x7F0000000000 0x7F0000000000 0x7F0000000000 0 [].

Definition ub_alloc (b : UserBumpAllocator) (layout : Layout) : outcome (option Z * UserBumpAllocator) :=
  if heap_start b =? 0 then Done (None, b)
  else
    alloc_start ← ub_align_up (next b) (l_align layout);
    if u64_lim <=? alloc_start + l_size layout then Done (None, b)
    else
      let alloc_end := alloc_start + l_size layout in
      up ← (if heap_end b <? alloc_end then add_u64 alloc_end 0xFFF else Done (heap_end b));
      let mapped := step_by (heap_end b) (up - heap_end b) 0x1000 in
      e ← ub_align_up alloc_end 0x1000;
      n ← add_u64 (allocations b) 1;
      Done (Some alloc_start, mkBump (heap_start b) e alloc_end n (pages b ++ mapped)).

Definition ub_dealloc (b : UserBumpAllocator) (_ptr : Z) (_layout : Layout) : outcome UserBumpAllocator :=
  n ← sub_u64 (allocations b) 1;
  Done (mkBump (heap_start b) (heap_end b) (if n =? 0 then heap_start b else next b) n (pages b)).

(** A full page maps the page behind it too, which the next allocation maps again. *)
Lemma page_mapped_twice :
  ('(_, b) ← ub_alloc UserBumpAllocator_new (mkLayout 0x1000 8); '(_, b) ← ub_alloc b (mkLayout 8 8); Done (pages b)) =
    Done [0x7F0000000000; 0x7F0000001000; 0x7F0000001000; 0x7F0000002000].
Proof. by vm_compute. Qed.

(** When everything was given back the next allocation moves the end of the heap down, and
    growing maps pages again that are mapped. *)
Lemma heap_end_moves_down :
  ('(p, b) ← ub_alloc UserBumpAllocator_new (mkLayout 0x3000 8); b ← ub_dealloc b 0 (mkLayout 0x3000 8); '(_, b) ← ub_alloc b (mkLayout 8 8);
   '(_, b) ← ub_alloc b (mkLayout 0x1000 8); Done (pages b)) =
    Done [0x7F0000000000; 0x7F0000001000; 0x7F0000002000; 0x7F0000003000; 0x7F0000001000; 0x7F0000002000].
Proof. by vm_compute. Qed.

Lemma align_up_power addr k : 0 ≤ addr → 0 ≤ k < 64 → addr + 2 ^ k < u64_lim →
  ub_align_up addr (2 ^ k) = Done ((addr + 2 ^ k - 1) / 2 ^ k * 2 ^ k).
Proof.
  intros H0 Hk Hl. pose proof (Z.pow_pos_nonneg 2 k ltac:(lia) ltac:(lia)). unfold ub_align_up, add_u64, sub_u64.
  rewrite (chk_ok _ (addr + 2 ^ k)) by lia. cbn [mbind outcome_bind]. rewrite chk_ok by lia. cbn [mbind outcome_bind].
  unfold ub_align_down, is_power_of_two. rewrite (proj2 (Z.ltb_lt 0 (2 ^ k))) by lia.
  assert (Hland : Z.land (2 ^ k) (2 ^ k - 1) = 0).
  { replace (2 ^ k - 1) with (Z.ones k) by (rewrite Z.ones_equiv; lia). rewrite Z.land_ones, Z.mod_same by lia. done. }
  rewrite Hland. cbn [Z.eqb andb]. f_equal. rewrite land_not_ones by lia.
  pose proof (Z.div_mod (addr + 2 ^ k - 1) (2 ^ k) ltac:(lia)). lia.
Qed.
End UserBump.

(** ** Blocks of fixed size over a heap *)
Module FixedSize.
Definition BLOCK_SIZES : list Z := [8; 16; 32; 64; 128; 256; 512; 1024; 2048].

Definition list_index (layout : Layout) : option nat :=
  fst <$> list_find (λ size, Z.max (l_size layout) (l_align layout) ≤ size) BLOCK_SIZES.

(** [fnodes] is the [next] field of the node at an address; the heap below is
    [linked_list_allocator::Heap], whose documented behaviour is [HeapSpec]. *)
Record FixedSizeBlockAllocator (H : Type) := mkFixed {
  list_heads : list (option Z);
  fnodes : Z → option Z;
  fallback_allocator : H;
}.
Arguments mkFixed {H}.
Arguments list_heads {H}.
Arguments fnodes {H}.
Arguments fallback_allocator {H}.

Section blocks.
Context {H : Type} `{HeapOps H}.

Definition FixedSizeBlockAllocator_new (memory : Z → option Z) (empty : H) : FixedSizeBlockAllocator H :=
  mkFixed (replicate (length BLOCK_SIZES) None) memory empty.

Definition fallback_alloc (f : FixedSizeBlockAllocator H) (layout : Layout) : outcome (option Z * FixedSizeBlockAllocator H) :=
  '(p, h) ← h_alloc (fallback_allocator f) layout; Done (p, mkFixed (list_heads f) (fnodes f) h).

Definition fixed_alloc (f : FixedSizeBlockAllocator H) (layout : Layout) : outcome (option Z * FixedSizeBlockAllocator H) :=
  match list_index layout with
  | Some i =>
      node ← index (list_heads f) i;
      match node with
      | Some node =>
          heads ← index_set (list_heads f) i (fnodes f node);
          Done (Some node, mkFixed heads (<[node := None]> (fnodes f)) (fallback_allocator f))
      | None => bs ← index BLOCK_SIZES i; fallback_alloc f (mkLayout bs bs)
      end
  | None => fallback_alloc f layout
  end.

Definition fixed_dealloc (f : FixedSizeBlockAllocator H) (ptr : Z) (layout : Layout) : outcome (FixedSizeBlockAllocator H) :=
  match list_index layout with
  | Some i =>
      old ← index (list_heads f) i;
      bs ← index BLOCK_SIZES i;
      _ ← assert_ (8 <=? bs);
      heads ← index_set (list_heads f) i (Some ptr);
      Done (mkFixed heads (<[ptr := old]> (fnodes f)) (fallback_allocator f))
  | None =>
      _ ← (if ptr =? 0 then Panic PUnwrap else Done tt);
      h ← h_dealloc (fallback_allocator f) ptr layout;
      Done (mkFixed (list_heads f) (fnodes f) h)
  end.
End blocks.

Section correct.
Context {H : Type} `{HeapSpec H}.

Definition block (bs a : Z) : Z * Layout := (a, mkLayout bs bs).
Definition blocks (free : list (list Z)) : list (Z * Layout) := concat (zip_with (λ bs l, block bs <$> l) BLOCK_SIZES free).

(** What the heap below handed out for an allocation. *)
Definition held (x : Z * Layout) : Z * Layout :=
  match list_index x.2 with
  | Some i => match BLOCK_SIZES !! i with Some bs => block bs x.1 | None => x end
  | None => x
  end.

Definition fixed_inv (f : FixedSizeBlockAllocator H) (live : list (Z * Layout)) : Prop :=
  ∃ free, Forall2 (chain (fnodes f)) (list_heads f) free ∧ length free = length BLOCK_SIZES ∧
    h_inv (fallback_allocator f) (blocks free ++ (held <$> live)).

Lemma list_index_block layout : list_index layout = block_size (min_size layout).
Proof using. done. Qed.

Lemma held_block layout i bs a : list_index layout = Some i → BLOCK_SIZES !! i = Some bs → held (a, layout) = block bs a.
Proof using. intros Ei Ebs. unfold held. cbn [fst snd]. by rewrite Ei, Ebs. Qed.

Lemma held_inside x : inside (extent x) (extent (held x)) ∧ ((held x).1 = x.1).
Proof using.
  destruct x as [a l]. unfold held. cbn [fst snd]. destruct (list_index l) as [i|] eqn:Ei; [|by split; [unfold inside; lia|]].
  rewrite list_index_block in Ei. destruct (block_size_Some _ _ Ei) as (bs & Hbs & Hle). rewrite (Hbs : BLOCK_SIZES !! i = Some bs). cbn. split; [|done].
  unfold min_size in Hle. unfold inside, extent. cbn. lia.
Qed.

(** Allocations share no byte. *)
Lemma fixed_disj f live : fixed_inv f live → all_disj (extent <$> live).
Proof using.
  intros (free & _ & _ & Hi). apply h_inv_disj in Hi. rewrite fmap_app in Hi. apply all_disj_app in Hi as (_ & Hi & _).
  eapply all_disj_inside; [|exact Hi]. rewrite <- list_fmap_compose. apply Forall2_fmap_2, Forall2_same_length_lookup_2; [done|].
  intros i x y Hx Hy. rewrite Hx in Hy. injection Hy as <-. apply held_inside.
Qed.

Lemma fixed_aligned f p layout live : fixed_inv f ((p, layout) :: live) → layout_ok layout → p mod l_align layout = 0 ∧ p ≠ 0.
Proof using.
  intros (free & _ & _ & Hi) (k & Hk & Ek). apply h_inv_aligned in Hi. apply Forall_app in Hi as [_ Hi]. cbn in Hi. apply Forall_cons in Hi as [[Hn Hm] _].
  destruct (list_index layout) as [i|] eqn:Ei.
  - rewrite list_index_block in Ei. destruct (block_size_Some _ _ Ei) as (bs & Hbs & Hle). destruct (SLAB_SIZES_pow _ _ Hbs) as (m & Hm' & ->).
    rewrite (held_block layout i (2 ^ m)) in Hm, Hn by done. cbn in Hm, Hn. split; [|done]. rewrite Ek. apply (block_mod p m); [done|].
    split; [done|]. apply (Z.pow_le_mono_r_iff 2); [lia|lia|]. unfold min_size in Hle. lia.
  - unfold held in Hm, Hn. cbn [fst snd] in Hm, Hn. rewrite Ei in Hm, Hn. done.
Qed.

(** A block of the right size that the heap below handed out serves the request. *)
Lemma fallback_ok f free live layout l :
  Forall2 (chain (fnodes f)) (list_heads f) free → length free = length BLOCK_SIZES →
  h_inv (fallback_allocator f) (blocks free ++ (held <$> live)) → valid l → (∀ p, held (p, layout) = (p, l)) →
  ∃ o f', fallback_alloc f l = Done (o, f') ∧ match o with None => fixed_inv f' live | Some p => fixed_inv f' ((p, layout) :: live) end.
Proof using.
  intros Hc Hl Hi Hv Hh. unfold fallback_alloc. destruct (h_alloc_spec _ _ l Hi Hv) as [(h' & -> & Hi')|(p & h' & -> & Hi')].
  - eexists None, _. split; [done|]. by exists free.
  - eexists (Some p), _. split; [done|]. exists free. cbn [fnodes list_heads fallback_allocator]. split_and!; [done|done|].
    rewrite fmap_cons, Hh. by rewrite <- Permutation_middle.
Qed.


Lemma elem_of_blocks free j l x : length free = length BLOCK_SIZES → free !! j = Some l → x ∈ l → x ∈ (blocks free).*1.
Proof using.
  intros Hlen Hj Hx. destruct (lookup_lt_is_Some_2 BLOCK_SIZES j) as [bs Hbs]; [apply lookup_lt_Some in Hj; lia|].
  apply list_elem_of_fmap. exists (block bs x). split; [done|]. unfold blocks. apply list_elem_of_In, in_concat.
  exists (block bs <$> l). split; apply list_elem_of_In.
  - apply list_elem_of_lookup. exists j. by rewrite lookup_zip_with, Hbs; cbn; rewrite Hj.
  - apply list_elem_of_fmap. by exists x.
Qed.

Lemma blocks_size free x : x ∈ blocks free → 0 < l_size x.2.
Proof using.
  unfold blocks. intros Hx%list_elem_of_In. apply in_concat in Hx as (l & Hl%list_elem_of_In & Hx%list_elem_of_In).
  apply list_elem_of_lookup in Hl as [j Hj]. apply lookup_zip_with_Some in Hj as (bs & l0 & -> & Hbs & _).
  apply list_elem_of_fmap in Hx as (a & -> & _). cbn. destruct (SLAB_SIZES_pow j bs Hbs) as (k & ? & ->). lia.
Qed.

(** An address outside of the lists, given or taken, changes none of them. *)
Lemma fixed_chains_insert (nodes : Z → option Z) heads free x v : length free = length BLOCK_SIZES → x ∉ (blocks free).*1 →
  Forall2 (chain nodes) heads free → Forall2 (chain (<[x := v]> nodes)) heads free.
Proof using.
  intros Hlen Hx Hc. apply Forall2_same_length_lookup_2; [by eapply Forall2_length|]. intros j hd l Hhd Hl.
  apply chain_insert; [|exact (Forall2_lookup_lr _ _ _ _ _ _ Hc Hhd Hl)]. intros Hin. apply Hx. by eapply elem_of_blocks.
Qed.

Lemma held_fresh h free live bs x : h_inv h (blocks free ++ block bs x :: live) → 0 < bs → x ∉ (blocks free).*1.
Proof using.
  intros Hi Hbs (y & -> & Hy)%list_elem_of_fmap. apply h_inv_disj in Hi. rewrite fmap_app, fmap_cons in Hi.
  apply all_disj_app in Hi as (_ & _ & Hd). pose proof (blocks_size _ _ Hy).
  apply (disj_ne (extent y) (extent (block bs y.1))); [done|done| |done]. apply Hd; [by apply list_elem_of_fmap_2|left].
Qed.

(** An allocation of the fixed-size allocator gives null, or a block that shares no byte
    with any other allocation and is aligned as asked; a block given back with its layout is
    the next one of its size, or goes back to the heap below. *)
Theorem fixed_alloc_spec f live layout : fixed_inv f live → valid layout →
  ∃ o f', fixed_alloc f layout = Done (o, f') ∧
    match o with
    | None => fixed_inv f' live
    | Some p => fixed_inv f' ((p, layout) :: live) ∧ p mod l_align layout = 0 ∧ all_disj (extent <$> (p, layout) :: live)
    end.
Proof using.
  intros Hinv Hv. cut (∃ o f', fixed_alloc f layout = Done (o, f') ∧ match o with None => fixed_inv f' live | Some p => fixed_inv f' ((p, layout) :: live) end).
  { intros (o & f' & E & Hi). exists o, f'. split; [done|]. destruct o as [p|]; [|done].
    split; [done|]. split; [by apply (fixed_aligned f' p layout live Hi); apply Hv|by eapply fixed_disj]. }
  destruct Hinv as (free & Hc & Hlen & Hi). unfold fixed_alloc. destruct (list_index layout) as [i|] eqn:Ei.
  - pose proof Ei as Eb. rewrite list_index_block in Eb. destruct (block_size_Some _ _ Eb) as (bs & Hbs & Hle). change (BLOCK_SIZES !! i = Some bs) in Hbs.
    destruct (SLAB_SIZES_pow i bs Hbs) as (k & Hk & Ek). pose proof (Z.pow_pos_nonneg 2 k ltac:(lia) ltac:(lia)).
    destruct (lookup_lt_is_Some_2 free i) as [l Hl]; [rewrite Hlen; by eapply lookup_lt_Some|].
    destruct (Forall2_lookup_r _ _ _ _ _ Hc Hl) as (hd & Hhd & Hch).
    rewrite (proj2 (index_Done _ _ _) Hhd). cbn [mbind outcome_bind]. destruct l as [|x l]; cbn [chain] in Hch.
    + subst hd. rewrite (proj2 (index_Done _ _ _) Hbs). cbn [mbind outcome_bind].
      apply (fallback_ok f free live layout); [done|done|done| |intros p; by apply (held_block layout i bs)].
      split; [exists k; split; [lia|done]|]. rewrite Ek. assert (2 ^ k ≤ 2 ^ 11) by (apply Z.pow_le_mono_r; lia). cbn. lia.
    + destruct Hch as [-> Hch]. unfold index_set. rewrite Hhd. cbn [mbind outcome_bind].
      assert (Hp : blocks free ≡ₚ block bs x :: blocks (<[i := l]> free)).
      { by apply (concat_zip_with_insert (λ bs l, block bs <$> l) BLOCK_SIZES free i bs (x :: l) l [block bs x]). }
      rewrite Hp in Hi. cbn [app] in Hi. rewrite Permutation_middle in Hi.
      eexists (Some x), _. split; [done|]. exists (<[i := l]> free). cbn [fnodes list_heads fallback_allocator].
      split_and!; [|by rewrite length_insert|].
      * apply fixed_chains_insert; [by rewrite length_insert|eapply held_fresh; [exact Hi|lia]|]. by apply Forall2_insert.
      * rewrite fmap_cons, (held_block layout i bs) by done. exact Hi.
  - apply (fallback_ok f free live layout); [done|done|done|done|]. intros p. unfold held. cbn [fst snd]. by rewrite Ei.
Qed.

Theorem fixed_dealloc_spec f live p layout : fixed_inv f ((p, layout) :: live) → layout_ok layout →
  ∃ f', fixed_dealloc f p layout = Done f' ∧ fixed_inv f' live ∧
    match list_index layout with Some i => list_heads f' !! i = Some (Some p) | None => list_heads f' = list_heads f end.
Proof using.
  intros Hinv Hlo. pose proof (fixed_aligned _ _ _ _ Hinv Hlo) as [_ Hp0]. destruct Hinv as (free & Hc & Hlen & Hi). unfold fixed_dealloc.
  rewrite fmap_cons in Hi. destruct (list_index layout) as [i|] eqn:Ei.
  - pose proof Ei as Eb. rewrite list_index_block in Eb. destruct (block_size_Some _ _ Eb) as (bs & Hbs & Hle). change (BLOCK_SIZES !! i = Some bs) in Hbs.
    destruct (SLAB_SIZES_pow i bs Hbs) as (k & Hk & Ek). assert (Hb8 : 2 ^ 3 ≤ 2 ^ k) by (apply Z.pow_le_mono_r; lia).
    rewrite (held_block layout i bs) in Hi by done.
    destruct (lookup_lt_is_Some_2 free i) as [l Hl]; [rewrite Hlen; by eapply lookup_lt_Some|].
    destruct (Forall2_lookup_r _ _ _ _ _ Hc Hl) as (hd & Hhd & Hch).
    rewrite (proj2 (index_Done _ _ _) Hhd), (proj2 (index_Done _ _ _) Hbs). cbn [mbind outcome_bind]. rewrite (proj2 (Z.leb_le 8 bs)) by lia.
    unfold index_set. rewrite Hhd. cbn [assert_ mbind outcome_bind]. eexists. split; [done|]. cbn [list_heads]. split.
    + exists (<[i := p :: l]> free). cbn [fnodes list_heads fallback_allocator].
      assert (Hf : p ∉ (blocks free).*1) by (eapply held_fresh; [exact Hi|lia]). split_and!; [|by rewrite length_insert|].
      * apply Forall2_insert; [by apply fixed_chains_insert|]. cbn [chain]. split; [done|]. rewrite fn_lookup_insert.
        apply chain_insert; [|done]. intros Hin. apply Hf. by eapply elem_of_blocks.
      * assert (Hp : blocks (<[i := p :: l]> free) ≡ₚ block bs p :: blocks free).
        { unfold blocks. rewrite (concat_zip_with_insert (λ bs l, block bs <$> l) BLOCK_SIZES (<[i := p :: l]> free) i bs (p :: l) l [block bs p]);
            [|done|by apply list_lookup_insert_eq, lookup_lt_is_Some_1|done]. by rewrite list_insert_insert_eq, list_insert_id. }
        rewrite Hp. cbn [app]. by rewrite Permutation_middle.
    + apply list_lookup_insert_eq. by eapply lookup_lt_Some.
  - assert (Eh : held (p, layout) = (p, layout)) by (unfold held; cbn [fst snd]; by rewrite Ei). rewrite Eh in Hi.
    rewrite (proj2 (Z.eqb_neq p 0)) by done. cbn [mbind outcome_bind]. rewrite <- Permutation_middle in Hi.
    destruct (h_dealloc_spec _ _ _ _ Hi) as (h' & -> & Hi'). cbn [mbind outcome_bind]. eexists. split; [done|]. split; [|done].
    by exists free.
Qed.
End correct.

(** *** A heap of 64 KiB *)
Section demo.
#[local] Instance demo_heap_ops : HeapOps BumpHeap.BumpAllocator := BumpHeap.bump_ops UserBump.ub_align_up.
#[local] Instance demo_heap_spec : HeapSpec BumpHeap.BumpAllocator := BumpHeap.bump_spec UserBump.ub_align_up UserBump.align_up_power.

Definition demo_fixed : FixedSizeBlockAllocator BumpHeap.BumpAllocator :=
  FixedSizeBlockAllocator_new (λ _, None) (BumpHeap.mkBump 0x10000 0x20000 0x10000 0).

Lemma demo_fixed_inv : fixed_inv demo_fixed [].
Proof.
  exists (replicate 9 []). split; [by repeat constructor|]. split; [done|].
  split; [cbn; lia|cbn; lia|done|constructor].
Qed.

Lemma fixed_alloc_spec_witness :
  ∃ o f', fixed_alloc demo_fixed (mkLayout 40 8) = Done (o, f') ∧
    match o with None => fixed_inv f' [] | Some p => p mod 8 = 0 end.
Proof.
  destruct (fixed_alloc_spec demo_fixed [] (mkLayout 40 8) demo_fixed_inv) as (o & f' & E & Hi).
  - split; [by exists 3|]. cbn. lia.
  - exists o, f'. split; [exact E|]. destruct o; [apply Hi|exact Hi].
Defined.
End demo.
End FixedSize.
