(* ===== verification/KernelHeap.v ===== *)
(** * The kernel heap's pages

    The part of [kernel/src/allocator/slab_allocator.rs] that gets memory: frames
    of the page allocator mapped at [base_address], the end of the heap, in the
    level-3 table [KERNEL_HEAP_MAP]; large allocations are unmapped and their
    frames freed when they are returned.  Its theorems discharge the promises of
    [Slab.PageSource], so that [Slab]'s theorems hold of the kernel's allocator. *)
From S2P Require Import Prelude Page PhysMem AllocIface PageAlloc PageTable Slab.

(** The [base_address] of the allocator, with the memory it works on and the root
    of [KERNEL_HEAP_MAP]. *)
Record KHeap (A : Type) := mkKHeap { base_address : Z; heap_map : Z; kh_world : A * PMem }.
Arguments mkKHeap {A}.
Arguments base_address {A}.
Arguments heap_map {A}.
Arguments kh_world {A}.

(** [((n + 0xFFF) & !0xFFF) as u64]: round to the next page. *)
Definition page_round (n : Z) : outcome Z := n ← add_u64 n 0xFFF; Done (Z.land n (not_u64 0xFFF)).

Section kheap.
Context {A : Type} `{PageAllocator A} (off : Z).

Definition take_frame (s : A * PMem) : outcome (Page Size4KB * (A * PMem)) :=
  '(o, s) ← pa_allocate_page s; f ← unwrap o; Done (f, s).

(** [KERNEL_HEAP_MAP.lock().map(..).unwrap()]. *)
Definition heap_map_page (t : Z) (s : A * PMem) (v : Z) (frame : Page Size4KB) : outcome (A * PMem) :=
  vp ← Page_new Size4KB v;
  '(r, s) ← Mapper_map off Size4KB 2 s t vp frame flags_writeable;
  match r with Ok _ => Done s | Err _ => Panic PUnwrap end.

Fixpoint heap_map_pages (t : Z) (s : A * PMem) (pages : list Z) : outcome (A * PMem) :=
  match pages with
  | [] => Done s
  | page :: pages =>
      '(frame, s) ← take_frame s;
      s ← heap_map_page t s page frame;
      heap_map_pages t s pages
  end.

(** A page for a slab. *)
Definition heap_new_page (h : KHeap A) : outcome (Z * KHeap A) :=
  '(frame, s) ← take_frame (kh_world h);
  let base := base_address h in
  base' ← add_u64 base 0x1000;
  s ← heap_map_page (heap_map h) s base frame;
  Done (base, mkKHeap base' (heap_map h) s).

(** A large allocation. *)
Definition heap_alloc_pages (h : KHeap A) (min_size : Z) : outcome (Z * KHeap A) :=
  length ← page_round min_size;
  let base := base_address h in
  base' ← add_u64 base length;
  s ← heap_map_pages (heap_map h) (kh_world h) (step_by base length 0x1000);
  Done (base, mkKHeap base' (heap_map h) s).

Fixpoint heap_unmap_pages (t : Z) (s : A * PMem) (pages : list Z) : outcome (A * PMem) :=
  match pages with
  | [] => Done s
  | page :: pages =>
      page ← Page_new Size4KB page;
      o ← Mapper_address_of off Size4KB 2 (snd s) t page;
      phys_page ← unwrap o;
      '(r, s) ← Mapper_unmap off Size4KB 2 s t page;
      _ ← (match r with Ok _ => Done tt | Err _ => Panic PUnwrap end);
      s ← pa_free_page s phys_page;
      heap_unmap_pages t s pages
  end.

Definition heap_free_pages (h : KHeap A) (base max_size : Z) : outcome (KHeap A) :=
  length ← page_round max_size;
  _ ← add_u64 base length;
  s ← heap_unmap_pages (heap_map h) (kh_world h) (step_by base length 0x1000);
  Done (mkKHeap (base_address h) (heap_map h) s).

Definition kernel_source : PageSource (KHeap A) := {|
  ps_page := heap_new_page;
  ps_alloc := heap_alloc_pages;
  ps_free := heap_free_pages;
|}.
End kheap.

(** ** The state of the heap's map *)

(** The pages below one entry of the level-4 table, which covers 512 GiB from [lo]. *)
Definition slot_ok (lo : Z) : Prop := lo mod 2 ^ 39 = 0 ∧ (0 < lo < 2 ^ 47 ∨ u64_lim - 2 ^ 47 ≤ lo < u64_lim).

Definition in_slot (lo v : Z) : Prop := lo ≤ v < lo + 2 ^ 39 ∧ v mod 0x1000 = 0.

Lemma in_slot_virt lo v : slot_ok lo → in_slot lo v → virt_ok v.
Proof.
  intros [Hm Hr] [Hv _]. unfold virt_ok, canonical, u64_lim in *.
  assert (Hd : lo = 2 ^ 39 * (lo / 2 ^ 39)) by (pose proof (Z.div_mod lo (2 ^ 39)); lia).
  assert (lo + 2 ^ 39 ≤ 2 ^ 47 ∨ 2 ^ 64 - 2 ^ 47 ≤ lo ∧ lo + 2 ^ 39 ≤ 2 ^ 64) by lia. lia.
Qed.

Lemma slot_top lo v : slot_ok lo → in_slot lo v → v / 2 ^ 39 = lo / 2 ^ 39.
Proof.
  intros [Hm _] [Hv _]. symmetry. pose proof (Z.div_mod lo (2 ^ 39)). apply (Z.div_unique _ _ _ (v - lo)); lia.
Qed.

(** Two pages of a slot are told apart below the level-4 table. *)
Lemma slot_same_path lo v v' : slot_ok lo → in_slot lo v → in_slot lo v' → same_path 2 0 v v' → v = v'.
Proof.
  intros Hlo Hv Hv' Hp.
  assert (H4 : calculate_index 4 v = calculate_index 4 v').
  { rewrite !calculate_index_mod. change (Z.of_nat 4 * 9 + 3) with 39. by rewrite (slot_top lo v Hlo Hv), (slot_top lo v' Hlo Hv'). }
  assert (E : v / 0x1000 = v' / 0x1000).
  { apply (same_path_page Size4KB); [by eapply in_slot_virt..|]. by split. }
  destruct Hv as [_ Hv], Hv' as [_ Hv']. pose proof (Z.div_mod v 0x1000). pose proof (Z.div_mod v' 0x1000). lia.
Qed.

(** The heap is such a slot. *)
Definition HEAP_END : Z := KernelHeap + 2 ^ 39.

Lemma heap_slot : slot_ok KernelHeap.
Proof. split; [reflexivity|]. unfold u64_lim, KernelHeap. lia. Qed.

(** A walk that finds nothing meets no large page. *)
Lemma translate_None n : ∀ m t v,
  translate n m t v = None → clear_path n 0 m t v ∧ slot_absent n 0 m t v.
Proof.
  induction n as [|n IH]; intros m t v; cbn [translate clear_path]; unfold slot_absent; cbn [leaf_entry];
    rewrite ?Nat.add_0_r; destruct (present _) eqn:Ep; try done.
  - intros _. split; [done|]. by intros e [= <-].
  - destruct (larger_pages _); [done|]. intros [? ?]%fmap_None%IH. done.
Qed.

Section slot.
Context {A : Type} {HA : PageAllocator A} {HS : @PageAllocatorSpec A HA} (lo : Z).

Definition maps (m : PMem) (t v f : Z) : Prop :=
  ∃ e, translate 2 m t v = Some (O, e) ∧ mapped_to Size4KB flags_writeable f e.

(** [pm] are the mapped pages with their frames, [F] the allocator's frames and [X]
    frames on their way from one to the other; no table of the map withholds writing. *)
Record kmap (t : Z) (s : A * PMem) (F X : list Z) (pm : list (Z * Z)) : Prop := {
  km_owns : pa_owns s F;
  km_frames : frames_wf (X ++ pm.*2 ++ F) (tables 2 (snd s) t);
  km_pages : NoDup pm.*1;
  km_heap : Forall (in_slot lo) pm.*1;
  km_maps : ∀ v f, (v, f) ∈ pm → maps (snd s) t v f;
  km_rest : ∀ v, in_slot lo v → v ∉ pm.*1 → translate 2 (snd s) t v = None;
  km_open : ∀ v, opens flags_writeable 2 (snd s) t v;
}.

Lemma kmap_frame t s F X pm f : kmap t s F X pm → f ∈ X ++ pm.*2 → frame_ok f.
Proof using.
  intros [_ Hwf _ _ _ _ _] Hf. eapply frames_wf_table; [exact Hwf|]. set_solver.
Qed.

Lemma frames_wf_drop X F T : frames_wf (X ++ F) T → frames_wf F T.
Proof using. unfold frames_wf. rewrite <- (assoc_L (++)). intros [(_ & _ & ?)%NoDup_app [_ ?]%Forall_app]. done. Qed.

Lemma perm_map (f : Z) X P F F' T T' :
  F' ++ T' ≡ₚ F ++ T → (X ++ (f :: P) ++ F') ++ T' ≡ₚ ((f :: X) ++ P ++ F) ++ T.
Proof using. intros Hp. rewrite <- !(assoc_L (++)). cbn [app]. rewrite Hp. solve_Permutation. Qed.

Lemma perm_unmap (f : Z) P F F' T T' :
  F' ++ T' ≡ₚ F ++ T → ([] ++ P ++ f :: F') ++ T' ≡ₚ ([] ++ (f :: P) ++ F) ++ T.
Proof using.
  intros Hp. cbn. rewrite <- !(assoc_L (++)), <- Hp. cbn. by rewrite <- Permutation_middle.
Qed.

Lemma kmap_wf t s F X pm : kmap t s F X pm → frames_wf F (tables 2 (snd s) t).
Proof using.
  intros [_ Hwf _ _ _ _ _]. apply (frames_wf_drop (X ++ pm.*2)). by rewrite <- (assoc_L (++)).
Qed.

Lemma take_frame_ok t s F X pm :
  kmap t s F X pm → (0 < length F)%nat →
  ∃ f s' F', take_frame s = Done (mkPage f, s') ∧ kmap t s' F' (f :: X) pm ∧ length F = S (length F').
Proof using.
  intros Hk HF. pose proof (kmap_wf _ _ _ _ _ Hk) as Hwf. destruct Hk as [Ho Hfr Hnd Hh Hm Hr Hop].
  unfold take_frame.
  destruct (pa_allocate_page_spec s F Ho) as [(b & s1 & F1 & -> & HFp & Ho1 & Hz & Hout)|[_ ->]]; [|cbn in HF; lia].
  cbn [mbind outcome_bind unwrap]. exists b, s1, F1. split; [done|].
  assert (Hext : ∀ f, f ∈ tables 2 (snd s) t → table (snd s1) f = table (snd s) f).
  { intros f Hf. apply Hout; [apply (frames_wf_table _ _ f Hwf); set_solver|]. intros ->.
    destruct Hwf as [Hnd' _]. apply NoDup_app in Hnd' as (_ & Hd & _). apply (Hd b); [rewrite HFp; left|done]. }
  assert (Htr : ∀ v, translate 2 (snd s1) t v = translate 2 (snd s) t v) by (intros v; by apply translate_ext).
  split; [|by rewrite HFp]. split; [done| |done|done| | |intros v; by apply (along_ext _ 2 (snd s)), Hop].
  - rewrite (tables_ext 2 (snd s) (snd s1) t Hext). eapply frames_wf_perm; [|exact Hfr].
    apply Permutation_app_tail. rewrite HFp. solve_Permutation.
  - intros v f Hvf. destruct (Hm v f Hvf) as (e & ? & ?). exists e. by rewrite Htr.
  - intros v ? ?. rewrite Htr. by apply Hr.
Qed.

Context (Hlo : slot_ok lo).

Lemma heap_page_new v : in_slot lo v → Page_new Size4KB v = Done (mkPage v).
Proof using Hlo.
  intros Hv. destruct (in_slot_virt lo v Hlo Hv) as [? ?]. destruct Hv as [? ?].
  apply Page_new_Done; [done|]. cbn. split_and!; [done|destruct Hlo as [_ ?]; unfold u64_lim in *; lia|done|done].
Qed.

Context (off : Z) (Hoff : offset_ok off).

Lemma heap_map_page_ok t s F X pm v f :
  kmap t s F (f :: X) pm → in_slot lo v → v ∉ pm.*1 → (2 ≤ length F)%nat →
  ∃ s' F', heap_map_page off t s v (mkPage f) = Done s' ∧ kmap t s' F' X ((v, f) :: pm) ∧
    (length F ≤ length F' + 2)%nat ∧ conserves 2 t F s F' s'.
Proof using Hlo Hoff.
  intros Hk Hv Hvn HF. pose proof (kmap_wf _ _ _ _ _ Hk) as Hwf.
  assert (frame_ok f) as (? & ? & ?) by (eapply kmap_frame; [exact Hk|left]).
  destruct Hk as [Ho Hfr Hnd Hh Hm Hr Hop]. destruct (translate_None 2 _ _ _ (Hr v Hv Hvn)) as [Hc Hs].
  unfold heap_map_page. rewrite heap_page_new, bind_ret by done.
  destruct (Mapper_map_ok off Hoff Size4KB 2 s F t v f flags_writeable)
    as (s' & F' & e & -> & Hcons & HF' & Ht & Hmt & Hoth & Hop');
    [done|done|split; [unfold PHYS_TOP in *; lia|done]|done|done|done|apply Hop|].
  cbn [Nat.add base_of level_of pred] in *. cbn [mbind outcome_bind]. exists s', F'. split; [done|]. split; [|split; [lia|done]].
  assert (Htr : ∀ v', in_slot lo v' → v' ≠ v → translate 2 (snd s') t v' = translate 2 (snd s) t v').
  { intros v' Hv' Hne. apply Hoth. intros Hp%(slot_same_path lo _ _ Hlo); [by subst|done..]. }
  split; [apply Hcons| |by constructor|by constructor| | |intros v'; by apply Hop', Hop].
  - destruct Hcons as (_ & Hp & _). eapply frames_wf_perm; [|exact Hfr]. by apply perm_map.
  - intros v' f' [[= -> ->]|Hin]%elem_of_cons; [by exists e|].
    destruct (Hm v' f' Hin) as (e' & ? & ?). exists e'. split; [|done].
    assert (v' ∈ pm.*1) by (apply list_elem_of_fmap; by exists (v', f')).
    rewrite Htr; [done|rewrite Forall_forall in Hh; by apply Hh|]. by intros ->.
  - intros v' Hv' Hn. rewrite fmap_cons in Hn. cbn [fst] in Hn. rewrite Htr; [apply Hr; [done|set_solver]|done|set_solver].
Qed.

(** Unmapping a page of the heap frees its frame. *)
Lemma heap_unmap_page_ok t s F pm v f :
  kmap t s F [] ((v, f) :: pm) →
  Mapper_address_of off Size4KB 2 (snd s) t (mkPage v) = Done (Some (mkPage f)) ∧
  ∃ s1 s' F', Mapper_unmap off Size4KB 2 s t (mkPage v) = Done (Ok (mkFlusher v), s1) ∧
    pa_free_page s1 (mkPage f) = Done s' ∧ kmap t s' (f :: F') [] pm ∧ (length F ≤ length F')%nat.
Proof using Hlo Hoff.
  intros Hk. pose proof (kmap_wf _ _ _ _ _ Hk) as Hwf.
  assert (Hfo : frame_ok f) by (eapply kmap_frame; [exact Hk|left]). pose proof Hfo as (? & ? & ?).
  destruct Hk as [Ho Hfr Hnd Hh Hm Hr Hop]. destruct (Hm v f) as (e & Ht & Hmt); [left|].
  pose proof (translate_leaf 2 0 _ _ _ _ Ht) as (Hc & e0 & Hle & Hpr & Hl & Ha). destruct Hmt as (_ & Hle' & _ & _ & Ha'). rewrite Hle' in Hl. rewrite Ha' in Ha.
  split.
  { rewrite (Mapper_address_of_ok off Hoff Size4KB 2); [|by eapply frames_wf_tables|done|];
      change (leaf_entry 2 (base_of Size4KB)) with (leaf_entry 2 0); rewrite Hle.
    - by rewrite Hpr, Hl, Ha.
    - intros e' [= <-] _. rewrite Ha. split; [unfold PHYS_TOP in *; lia|done]. }
  cbn in Hnd, Hh. apply NoDup_cons in Hnd as [Hv Hnd]. apply Forall_cons in Hh as [Hvh Hh].
  destruct (Mapper_unmap_ok off Hoff Size4KB 2 s F t v) as (s1 & F1 & E & (Ho1 & Hp & _) & HF1 & Htv & Hoth & _ & _ & Hop');
    [done|done|done|intros e'; change (leaf_entry 2 (base_of Size4KB)) with (leaf_entry 2 0); rewrite Hle; by intros [= <-] _|].
  cbn [Nat.add base_of level_of pred] in *. rewrite Hle in E. unfold unmap_result in E. rewrite Hpr in E.
  destruct (pa_free_page_spec s1 F1 f) as (s2 & Ef & Ho2 & Htab); [done|done| |].
  { intros Hin. destruct Hfr as [Hfn _]. change (NoDup (f :: (pm.*2 ++ F) ++ tables 2 (snd s) t)) in Hfn.
    apply NoDup_cons in Hfn as [Hfn _]. apply Hfn. rewrite <- (assoc_L (++)). apply elem_of_app. right.
    rewrite <- Hp. apply elem_of_app. by left. }
  exists s1, s2, F1. split_and!; [done|done| |done].
  - assert (Hext : tables 2 (snd s2) t = tables 2 (snd s1) t) by (apply tables_ext; intros; by rewrite Htab).
    assert (Htr2 : ∀ v', translate 2 (snd s2) t v' = translate 2 (snd s1) t v')
      by (intros; apply translate_ext; intros; by rewrite Htab).
    assert (Htr : ∀ v', in_slot lo v' → v' ≠ v → translate 2 (snd s2) t v' = translate 2 (snd s) t v').
    { intros v' Hv' Hne. rewrite Htr2. apply Hoth. intros Hpath%(slot_same_path lo _ _ Hlo); [by subst|done..]. }
    split; [done| |done|done| | |intros v'; apply (along_ext _ 2 (snd s1)); [intros; by rewrite Htab|by apply Hop', Hop]].
    + rewrite Hext. eapply frames_wf_perm; [|exact Hfr]. by apply perm_unmap.
    + intros v' f' Hin. destruct (Hm v' f') as (e' & ? & ?); [by right|]. exists e'. split; [|done].
      assert (v' ∈ pm.*1) by (apply list_elem_of_fmap; by exists (v', f')).
      rewrite Htr; [done|rewrite Forall_forall in Hh; by apply Hh|]. by intros ->.
    + intros v' Hv' Hn. destruct (decide (v' = v)) as [->|]; [by rewrite Htr2|].
      rewrite Htr by done. apply Hr; [done|]. rewrite fmap_cons. cbn [fst]. set_solver.
Qed.
(** *** The loops *)
Lemma heap_map_pages_ok t pages : ∀ s F X pm,
  kmap t s F X pm → NoDup (pages ++ pm.*1) → Forall (in_slot lo) pages → (3 * length pages ≤ length F)%nat →
  ∃ s' F' pm', heap_map_pages off t s pages = Done s' ∧ kmap t s' F' X pm' ∧ pm'.*1 ≡ₚ pages ++ pm.*1 ∧ (length F ≤ length F' + 3 * length pages)%nat.
Proof using Hlo Hoff.
  induction pages as [|v pages IH]; intros s F X pm Hk Hnd Hh HF; cbn [heap_map_pages];
    [exists s, F, pm; split_and!; [done..|cbn; lia]|].
  cbn in Hnd, HF. apply NoDup_cons in Hnd as [Hv Hnd]. apply Forall_cons in Hh as [Hvh Hh].
  destruct (take_frame_ok t s F X pm Hk) as (f & s1 & F1 & -> & Hk1 & HF1); [lia|]. rewrite bind_ret.
  destruct (heap_map_page_ok t s1 F1 X pm v f Hk1 Hvh) as (s2 & F2 & -> & Hk2 & HF2 & _); [set_solver|lia|].
  rewrite bind_ret.
  destruct (IH s2 F2 X ((v, f) :: pm) Hk2) as (s3 & F3 & pm3 & -> & Hk3 & Hp & HF3); [|done|lia|].
  - rewrite fmap_cons, <- Permutation_middle. by constructor.
  - exists s3, F3, pm3. split_and!; [done|done| |cbn; lia]. rewrite Hp, fmap_cons, <- Permutation_middle. done.
Qed.

Lemma kmap_perm t s F X pm pm' : pm ≡ₚ pm' → kmap t s F X pm → kmap t s F X pm'.
Proof using.
  intros Hp [Ho Hfr Hnd Hh Hm Hr Hop]. split; [done| |by rewrite <- Hp|by rewrite <- Hp| | |done].
  - eapply frames_wf_perm; [|exact Hfr]. by rewrite Hp.
  - intros v f Hin. apply Hm. by rewrite Hp.
  - intros v Hv Hn. apply Hr; [done|]. by rewrite Hp.
Qed.

Lemma heap_unmap_pages_ok t pages : ∀ s F pm rest,
  kmap t s F [] pm → pm.*1 ≡ₚ pages ++ rest →
  ∃ s' F' pm', heap_unmap_pages off t s pages = Done s' ∧ kmap t s' F' [] pm' ∧ pm'.*1 ≡ₚ rest ∧ (length F ≤ length F')%nat.
Proof using Hlo Hoff.
  induction pages as [|v pages IH]; intros s F pm rest Hk Hp; cbn [heap_unmap_pages]; [by exists s, F, pm|].
  assert (Hv : v ∈ pm.*1) by (rewrite Hp; left).
  apply list_elem_of_fmap in Hv as ([v' f] & -> & Hin). cbn [fst] in *.
  apply elem_of_Permutation in Hin as [pm' Hpm]. apply (kmap_perm _ _ _ _ _ _ Hpm) in Hk.
  destruct (heap_unmap_page_ok t s F pm' v' f Hk) as (Ea & s1 & s2 & F1 & Eu & Ef & Hk2 & HF1).
  rewrite heap_page_new, bind_ret, Ea, bind_ret by (apply km_heap in Hk; by apply Forall_cons in Hk as [? _]).
  cbn [unwrap]. rewrite bind_ret, Eu, bind_ret. cbn [mbind outcome_bind]. rewrite Ef. cbn [mbind outcome_bind].
  destruct (IH s2 (f :: F1) pm' rest Hk2) as (s3 & F3 & pm3 & E3 & Hk3 & Hp3 & HF3).
  - rewrite Hpm, fmap_cons in Hp. cbn in Hp. by apply Permutation_cons_inv in Hp.
  - exists s3, F3, pm3. split_and!; [done..|]. cbn in HF3. lia.
Qed.
End slot.

Section spec.
Context {A : Type} {HA : PageAllocator A} {HS : @PageAllocatorSpec A HA}.
Context (off : Z) (Hoff : offset_ok off).

(** ** The promises of the source *)
Definition pages_of (r : range) : list Z := range_frames r.1 (Z.of_nat (pages_for r.2)).

Lemma step_by_pages base n : step_by base (Z.of_nat n * 0x1000) 0x1000 = range_frames base (Z.of_nat n).
Proof using.
  unfold step_by, range_frames. do 3 f_equal. symmetry. apply (Z.div_unique _ _ _ 0xFFF); lia.
Qed.

Lemma page_round_ok n : 0 ≤ n → n + 0xFFF < u64_lim → page_round n = Done (Z.of_nat (pages_for n) * 0x1000).
Proof using.
  intros H0 H1. unfold page_round. arith_ok. f_equal. change 0xFFF with (2 ^ 12 - 1) at 2.
  rewrite land_not_ones by (unfold u64_lim in *; lia). unfold pages_for. change (2 ^ 12) with 0x1000.
  pose proof (Z.div_mod (n + 0xFFF) 0x1000). pose proof (Z.mod_pos_bound (n + 0xFFF) 0x1000). lia.
Qed.

Lemma pages_for_bound n : 0 < n → n ≤ Z.of_nat (pages_for n) * 0x1000 < n + 0x1000.
Proof using.
  intros. unfold pages_for. pose proof (Z.div_mod (n + 0xFFF) 0x1000). pose proof (Z.mod_pos_bound (n + 0xFFF) 0x1000). lia.
Qed.

Definition range_ok (r : range) : Prop := r.1 mod 0x1000 = 0 ∧ 0 < r.2.

Definition heap_base (b : Z) : Prop := KernelHeap ≤ b ∧ b mod 0x1000 = 0.

(** Every frame-backed page of the heap below [base_address] belongs to one range
    handed out; a page costs at most three frames, its own and two tables. *)
Definition kheap_inv (h : KHeap A) (R : list range) (n : nat) : Prop :=
  ∃ F pm, kmap KernelHeap (heap_map h) (kh_world h) F [] pm ∧ pm.*1 ≡ₚ concat (pages_of <$> R) ∧
    Forall (λ v, v < base_address h) pm.*1 ∧ heap_base (base_address h) ∧
    base_address h + Z.of_nat n * 0x1000 ≤ HEAP_END ∧ (3 * n ≤ length F)%nat ∧ Forall range_ok R.

Lemma elem_of_pages_of v r :
  range_ok r → v mod 0x1000 = 0 → v ∈ pages_of r ↔ r.1 ≤ v < r.1 + r.2.
Proof using.
  intros [Hm H0] Hv. unfold pages_of. rewrite elem_of_range_frames. pose proof (pages_for_bound r.2 H0). split.
  - intros (i & Hi & ->). split; [lia|]. nia.
  - intros Hr. exists ((v - r.1) / 0x1000).
    assert ((v - r.1) mod 0x1000 = 0) by (by rewrite Zminus_mod, Hv, Hm).
    pose proof (Z.div_mod (v - r.1) 0x1000). nia.
Qed.

(** Ranges of distinct pages are disjoint. *)
Lemma pages_disj R : Forall range_ok R → NoDup (concat (pages_of <$> R)) → all_disj R.
Proof using.
  induction R as [|r R IH]; [done|]. intros [Hr HR]%Forall_cons. cbn. intros (_ & Hd & HN)%NoDup_app.
  split; [|auto]. apply Forall_forall. intros r' Hr'.
  assert (Hr'ok : range_ok r') by (rewrite Forall_forall in HR; auto).
  assert (Hin : ∀ v, v ∈ pages_of r → v ∈ pages_of r' → False).
  { intros v Hv Hv'. apply (Hd v Hv). apply elem_of_concat_fmap. eauto. }
  unfold disj. destruct (decide (r.1 + r.2 ≤ r'.1)); [by left|]. destruct (decide (r'.1 + r'.2 ≤ r.1)); [by right|].
  pose proof Hr as [? ?]. pose proof Hr'ok as [? ?]. exfalso. destruct (decide (r.1 ≤ r'.1)).
  - apply (Hin r'.1); apply elem_of_pages_of; try done; lia.
  - apply (Hin r.1); apply elem_of_pages_of; try done; lia.
Qed.

(** The next [k] pages of the heap are free. *)
Lemma fresh_pages (h : KHeap A) R n k (pm : list (Z * Z)) :
  pm.*1 ≡ₚ concat (pages_of <$> R) → NoDup pm.*1 → Forall (λ v, v < base_address h) pm.*1 →
  heap_base (base_address h) → base_address h + Z.of_nat (k + n) * 0x1000 ≤ HEAP_END →
  let P := range_frames (base_address h) (Z.of_nat k) in
  NoDup (P ++ pm.*1) ∧ Forall (in_slot KernelHeap) P ∧ Forall (λ v, v < base_address h + Z.of_nat k * 0x1000) (P ++ pm.*1).
Proof using.
  intros Hp Hnd Hb [Hbase Hbm] Hend P. unfold HEAP_END in Hend.
  assert (HP : ∀ v, v ∈ P → ∃ i, 0 ≤ i < Z.of_nat k ∧ v = base_address h + i * 0x1000)
    by (intros v Hv; by apply elem_of_range_frames in Hv).
  rewrite Forall_forall in Hb. split_and!.
  - apply NoDup_app. split_and!; [apply range_frames_NoDup| |done].
    intros v (i & ? & ->)%HP Hv%Hb. cbn in Hv. lia.
  - apply Forall_forall. intros v (i & Hi & ->)%HP. split; [lia|].
    by rewrite Z.mod_add.
  - apply Forall_app. split; apply Forall_forall; [intros v (i & Hi & ->)%HP; lia|].
    intros v Hv%Hb. cbn in Hv. lia.
Qed.

Lemma heap_base_next base k : heap_base base → heap_base (base + Z.of_nat k * 0x1000).
Proof using. intros [? ?]. split; [lia|]. by rewrite Z.mod_add. Qed.

#[local] Instance kheap : PageSource (KHeap A) := kernel_source off.

Lemma kheap_page_spec h R n :
  kheap_inv h R (1 + n) →
  ∃ base h', heap_new_page off h = Done (base, h') ∧ kheap_inv h' ((base, 0x1000) :: R) n ∧
    base mod 0x1000 = 0 ∧ 0 ≤ base ∧ base + 0x1000 < u64_lim.
Proof using Hoff.
  intros (F & pm & Hk & Hp & Hb & Hbase & Hend & HF & HR).
  destruct (fresh_pages h R n 1 pm Hp (km_pages _ _ _ _ _ _ Hk) Hb Hbase Hend) as (Hnd & Hin & Hb').
  rewrite range_frames_one in *. apply NoDup_cons in Hnd as [Hv _]. apply Forall_cons in Hin as [Hin _].
  unfold heap_new_page. destruct (take_frame_ok _ _ _ _ _ _ Hk) as (f & s1 & F1 & -> & Hk1 & HF1); [lia|].
  rewrite bind_ret. cbv zeta. pose proof Hbase as [Hb0 Hbm]. unfold HEAP_END, KernelHeap in *.
  unfold add_u64. rewrite chk_ok, bind_ret by (unfold u64_lim; lia).
  destruct (heap_map_page_ok KernelHeap heap_slot off Hoff _ s1 F1 [] pm _ f Hk1 Hin Hv) as (s2 & F2 & -> & Hk2 & HF2 & _); [lia|]. rewrite bind_ret.
  eexists _, _. split; [done|]. split_and!; [|done|lia|unfold u64_lim; lia].
  exists F2, ((base_address h, f) :: pm). cbn [base_address heap_map kh_world].
  split_and!; [done| |done|by apply (heap_base_next _ 1)|unfold HEAP_END, KernelHeap; lia|lia|by constructor].
  rewrite fmap_cons, Hp. cbn [fmap list_fmap concat]. unfold pages_of at 2. cbn [fst snd].
  change (Z.of_nat (pages_for 0x1000)) with 1. by rewrite range_frames_one.
Qed.

Lemma kheap_alloc_spec h R len n :
  kheap_inv h R (pages_for len + n) → 2048 < len →
  ∃ base h', heap_alloc_pages off h len = Done (base, h') ∧ kheap_inv h' ((base, len) :: R) n ∧
    base mod 0x1000 = 0 ∧ 0 ≤ base.
Proof using Hoff.
  intros (F & pm & Hk & Hp & Hb & Hbase & Hend & HF & HR) Hlen.
  destruct (fresh_pages h R n (pages_for len) pm Hp (km_pages _ _ _ _ _ _ Hk) Hb Hbase Hend) as (Hnd & Hin & Hb').
  pose proof (pages_for_bound len ltac:(lia)) as Hpf. pose proof Hbase as [Hb0 Hbm].
  unfold heap_alloc_pages. unfold HEAP_END, KernelHeap in Hend, Hb0.
  rewrite page_round_ok, bind_ret by (unfold u64_lim; lia). cbv zeta.
  unfold add_u64. rewrite chk_ok, bind_ret by (unfold u64_lim; lia). rewrite step_by_pages.
  destruct (heap_map_pages_ok KernelHeap heap_slot off Hoff (heap_map h) _ _ _ _ _ Hk Hnd Hin) as (s' & F' & pm' & -> & Hk' & Hp' & HF').
  { unfold range_frames. rewrite length_fmap, length_seq. lia. }
  rewrite bind_ret. eexists _, _. split; [done|]. split_and!; [|done|lia].
  exists F', pm'. cbn [base_address heap_map kh_world]. rewrite Hp', Hp.
  split_and!; [done|done|by rewrite <- Hp|by apply heap_base_next|unfold HEAP_END, KernelHeap; lia| |].
  - unfold range_frames in HF'. rewrite length_fmap, length_seq in HF'. lia.
  - constructor; [split; [done|cbn; lia]|done].
Qed.

Lemma kheap_free_spec h R base len n :
  kheap_inv h ((base, len) :: R) n → 2048 < len →
  ∃ h', heap_free_pages off h base len = Done h' ∧ kheap_inv h' R n.
Proof using Hoff.
  intros (F & pm & Hk & Hp & Hb & Hbase & Hend & HF & HR) Hlen.
  pose proof (pages_for_bound len ltac:(lia)) as Hpf. apply Forall_cons in HR as [[Hm _] HR]. cbn [fst snd] in Hm.
  assert (Hlast : ∀ i, 0 ≤ i < Z.of_nat (pages_for len) → in_slot KernelHeap (base + i * 0x1000) ∧ base + i * 0x1000 < base_address h).
  { intros i Hi. assert (Hin : base + i * 0x1000 ∈ pm.*1).
    { rewrite Hp. cbn. apply elem_of_app. left. apply elem_of_range_frames. eauto. }
    pose proof (km_heap _ _ _ _ _ _ Hk) as Hh. rewrite Forall_forall in Hb, Hh. by split; [apply Hh|apply Hb]. }
  pose proof (Hlast 0 ltac:(lia)) as [[H0 _] _].
  pose proof (Hlast (Z.of_nat (pages_for len) - 1) ltac:(lia)) as [[H1 _] _].
  unfold HEAP_END, KernelHeap in H0, H1.
  unfold heap_free_pages. rewrite page_round_ok, bind_ret by (unfold u64_lim; lia).
  unfold add_u64. rewrite chk_ok, bind_ret by (unfold u64_lim; lia). rewrite step_by_pages.
  set (rest := concat (pages_of <$> R)) in *.
  destruct (heap_unmap_pages_ok KernelHeap heap_slot off Hoff (heap_map h) (range_frames base (Z.of_nat (pages_for len))) _ _ _ rest Hk Hp) as (s' & F' & pm' & -> & Hk' & Hp' & HF').
  rewrite bind_ret. eexists. split; [done|]. exists F', pm'. cbn [base_address heap_map kh_world].
  split_and!; [done|done| |done|done|lia|done].
  rewrite Hp'. rewrite Hp in Hb. by apply Forall_app in Hb as [_ ?].
Qed.

Definition kernel_source_spec : PageSourceSpec (KHeap A).
Proof using HS Hoff.
  refine {| ps_inv := kheap_inv |}.
  - assert (Himp : ∀ h l l' n, l ≡ₚ l' → kheap_inv h l n → kheap_inv h l' n).
    { intros h l l' n Hp (F & pm & Hk & Hpm & Hrest). exists F, pm. rewrite <- Hp. done. }
    intros h l l' Hp n ? <-. split; apply Himp; [done|by symmetry].
  - intros h R n (F & pm & Hk & Hpm & _ & _ & _ & _ & HR). apply pages_disj; [done|]. rewrite <- Hpm. by eapply km_pages.
  - apply kheap_page_spec.
  - apply kheap_alloc_spec.
  - apply kheap_free_spec.
Defined.

(** A large request gets the next page of the heap whatever its alignment: one of
    more than a page is not honoured when [base_address] is not a multiple of it. *)
Lemma large_alignment_ignored s n len k :
  kheap_inv (source s) [] (pages_for (Z.max len (2 ^ k)) + n) → 12 < k → base_address (source s) mod 2 ^ k ≠ 0 →
  ∃ a s', slab_alloc s (mkLayout len (2 ^ k)) = Done (a, s') ∧ a mod 2 ^ k ≠ 0.
Proof using Hoff.
  intros Hinv Hk Hmod. assert (2 ^ 13 ≤ 2 ^ k) by (apply Z.pow_le_mono_r; lia).
  assert (Hlen : 2048 < Z.max len (2 ^ k)) by lia.
  destruct (kheap_alloc_spec _ _ _ _ Hinv Hlen) as (base & h' & Ea & _).
  unfold slab_alloc. assert (block_size (min_size (mkLayout len (2 ^ k))) = None) as -> by by apply block_size_None.
  change (ps_alloc (source s) (min_size (mkLayout len (2 ^ k)))) with (heap_alloc_pages off (source s) (Z.max len (2 ^ k))).
  rewrite Ea. eexists _, _. split; [done|].
  unfold heap_alloc_pages in Ea. inv_outcome. done.
Qed.
End spec.

(** ** The kernel's allocator

    The heap as the boot code leaves it: an empty [KERNEL_HEAP_MAP] at 0x5000 and
    the buddy allocator's four free frames. *)
Section demo.
#[local] Instance demo_allocator : PageAllocator PageFrameAllocator := pfa_allocator PhysMapOffset.
#[local] Instance demo_allocator_spec : PageAllocatorSpec PageFrameAllocator :=
  pfa_allocator_spec PhysMapOffset phys_map_offset_ok.
#[local] Instance demo_source : PageSource (KHeap PageFrameAllocator) := kernel_source PhysMapOffset.
#[local] Instance demo_source_spec : PageSourceSpec (KHeap PageFrameAllocator) :=
  kernel_source_spec PhysMapOffset phys_map_offset_ok.

Definition demo_heap : KHeap PageFrameAllocator := mkKHeap KernelHeap 0x5000 demo_world.

Definition demo_slab : SlabAllocator (KHeap PageFrameAllocator) := SlabAllocator_new demo_heap (λ _, None).

Lemma demo_heap_inv : kheap_inv demo_heap [] 1.
Proof.
  exists (range_frames 0x10000 4), []. cbn [heap_map kh_world base_address demo_heap].
  split_and!; [|done|constructor|by split|vm_compute; discriminate|vm_compute; lia|constructor].
  split; [exact demo_owns| |constructor|done|set_solver| |intros v; by apply along_empty].
  - cbn [demo_world snd]. rewrite demo_tables. apply demo_frames_wf; [done|].
    intros (i & ? & ?)%elem_of_range_frames. lia.
  - intros v _ _. apply empty_table. done.
Qed.

Lemma demo_slab_inv : slab_inv demo_slab [] 1.
Proof. apply SlabAllocator_new_ok. exact demo_heap_inv. Qed.

Lemma slab_alloc_spec_witness :
  ∃ a s', slab_alloc demo_slab (mkLayout 40 8) = Done (a, s') ∧ slab_inv s' [(a, mkLayout 40 8)] 0 ∧
    all_disj [(a, 40)] ∧ (8 ≤ 0x1000 → a mod 8 = 0).
Proof.
  apply (slab_alloc_spec demo_slab [] 0 (mkLayout 40 8)); [exact demo_slab_inv|by exists 3].
Defined.

Lemma slab_dealloc_spec_witness :
  ∃ x s1 s2, slab_alloc demo_slab (mkLayout 40 8) = Done (x, s1) ∧
    slab_dealloc s1 x (mkLayout 40 8) = Done s2 ∧ slab_inv s2 [] 0 ∧
    slab_heads s2 !! 3%nat = Some (Some x) ∧ ∀ l, block_size (min_size l) = Some 3%nat → need s2 l = O.
Proof.
  assert (Hst : ∃ free pages, slab_state demo_slab [] 1 free pages) by exact demo_slab_inv.
  destruct Hst as (free & pages & Hst).
  destruct (carve_page_ok demo_slab [] 0 free pages 3 64 (mkLayout 40 8) Hst eq_refl eq_refl eq_refl)
    as (x & s1 & Ea & Hinv & _).
  destruct (slab_dealloc_spec s1 [] 0 x (mkLayout 40 8) Hinv) as (s2 & Ed & Hinv2 & Hh).
  exists x, s1, s2. exact (conj Ea (conj Ed (conj Hinv2 Hh))).
Defined.
End demo.
