(* ===== verification/BootMaps.v ===== *)
(** * The maps the kernel starts with

    Correctness of [create_offset_map] and [create_kernel_map]
    ([kernel/src/paging/offset_map.rs], modelled in [OffsetMap]): the level-3 tables through
    which the kernel sees all of physical memory and itself, built from pages of three sizes
    before the kernel leaves the firmware's page tables. *)
From S2P Require Import Prelude Page PhysMem AllocIface PageAlloc PageTable PageMapper OffsetMap KernelHeap.

(** ** Blocks of addresses

    A table at level [L] covers [2 ^ cover L] bytes, an entry of it [2 ^ cover (L - 1)]. *)
Definition cover (L : nat) : Z := Z.of_nat L * 9 + 12.

Lemma cover_pos L : 0 < 2 ^ cover L.
Proof. apply Z.pow_pos_nonneg; unfold cover; lia. Qed.

Lemma cover_S L : 2 ^ cover (S L) = 2 ^ cover L * 512.
Proof. unfold cover. replace (Z.of_nat (S L) * 9 + 12) with (Z.of_nat L * 9 + 12 + 9) by lia. rewrite Z.pow_add_r by lia. done. Qed.

Lemma index_block L v : calculate_index (S L) v = Z.to_nat (v / 2 ^ cover L mod 512).
Proof. rewrite calculate_index_mod. unfold cover. do 4 f_equal. lia. Qed.

(** Addresses of one block are in one larger block. *)
Lemma block_coarse k L v v' : (k ≤ L)%nat → v / 2 ^ cover k = v' / 2 ^ cover k → v / 2 ^ cover L = v' / 2 ^ cover L.
Proof.
  intros HL E. assert (Hc : 2 ^ cover L = 2 ^ cover k * 2 ^ (Z.of_nat (L - k) * 9)).
  { rewrite <- Z.pow_add_r by (unfold cover; lia). f_equal. unfold cover. lia. }
  rewrite Hc, <- !Z.div_div by (pose proof (cover_pos k); try apply Z.pow_pos_nonneg; lia). by rewrite E.
Qed.

Lemma index_same k L v v' : (k ≤ L)%nat → v / 2 ^ cover k = v' / 2 ^ cover k → calculate_index (S L) v = calculate_index (S L) v'.
Proof. intros HL E. rewrite !index_block. by rewrite (block_coarse k L v v' HL E). Qed.

(** The address in the block of [v] with index [j] at level [S L]. *)
Lemma index_choose L j v : (j < 512)%nat → ∃ u, calculate_index (S L) u = j ∧ u / 2 ^ cover (S L) = v / 2 ^ cover (S L).
Proof.
  intros Hj. pose proof (cover_pos L). set (q := v / 2 ^ cover (S L)). exists ((q * 512 + Z.of_nat j) * 2 ^ cover L). clearbody q. split.
  - rewrite index_block, Z.div_mul, Z.add_comm, Z.mod_add, Z.mod_small by lia. lia.
  - rewrite (cover_S L), <- Z.div_div, Z.div_mul, Z.div_add_l, Z.div_small by lia. lia.
Qed.

(** A walk that ends in an entry of level [S k] ends there for the whole block. *)
Lemma translate_depth d : ∀ m t v k e, translate d m t v = Some (k, e) → (k ≤ d)%nat.
Proof.
  induction d as [|d IH]; intros m t v k e; cbn [translate]; destruct (present _); try done; [naive_solver|].
  destruct (larger_pages _); [naive_solver|]. intros ([k' e'] & ?%IH & [= -> _])%fmap_Some. cbn. lia.
Qed.

Lemma translate_block d : ∀ m t v v' k e, translate d m t v = Some (k, e) → v / 2 ^ cover k = v' / 2 ^ cover k →
  translate d m t v' = Some (k, e).
Proof.
  induction d as [|d IH]; intros m t v v' k e Ht E; pose proof (translate_depth _ _ _ _ _ _ Ht) as Hk; cbn [translate] in *.
  - rewrite <- (index_same k 0 v v') by (done || lia). done.
  - rewrite <- (index_same k (S d) v v') by (done || lia). destruct (present _); [|done]. destruct (larger_pages _); [done|].
    apply fmap_Some in Ht as ([k' e'] & Ht & [= -> ->]). by rewrite (IH _ _ v v' _ _ Ht).
Qed.

(** Below a table with an entry some address is translated, when no table is empty. *)
Lemma full_translates d : ∀ m t v, full d m t → (∃ j, (j < 512)%nat ∧ present (table m t j) = true) →
  ∃ v', v' / 2 ^ cover (S d) = v / 2 ^ cover (S d) ∧ translate d m t v' ≠ None.
Proof.
  induction d as [|d IH]; intros m t v Hf (j & Hj & Hp).
  - destruct (index_choose 0 j v Hj) as (u & Hu & Eu). exists u. split; [exact Eu|]. cbn [translate]. by rewrite Hu, Hp.
  - destruct (index_choose (S d) j v Hj) as (u & Hu & Eu). destruct (larger_pages (table m t j)) eqn:El.
    + exists u. split; [exact Eu|]. cbn [translate]. by rewrite Hu, Hp, El.
    + destruct (Hf j Hj Hp El) as [Hne Hd]. destruct (IH m _ u Hd Hne) as (v' & Ev & Ht). exists v'. split.
      * rewrite <- Eu. by apply (block_coarse (S d)); [lia|].
      * cbn [translate]. rewrite (index_same (S d) (S d) v' u), Hu, Hp, El by done. by rewrite fmap_None.
Qed.

(** Where nothing of a block is translated there is room for a page of its size. *)
Lemma free_block n k : ∀ m t v, full (n + k) m t → (∀ v', v' / 2 ^ cover k = v / 2 ^ cover k → translate (n + k) m t v' = None) →
  clear_path n k m t v ∧ slot_absent n k m t v.
Proof.
  induction n as [|n IH]; intros m t v Hf Hn.
  - split; [done|]. intros e [= <-]. cbn [Nat.add] in *. destruct (present _) eqn:Ep; [|done]. exfalso. pose proof (Hn v eq_refl) as Hv.
    destruct k as [|k]; cbn [translate] in Hv; rewrite Ep in Hv; [done|]. destruct (larger_pages _) eqn:El; [done|].
    destruct (Hf _ (calculate_index_lt _ _) Ep El) as [Hne Hd]. destruct (full_translates k m _ v Hd Hne) as (v' & Ev & Ht).
    specialize (Hn v' Ev). cbn [translate] in Hn. by rewrite (index_same (S k) (S k) v' v (le_n _) Ev), Ep, El, fmap_None in Hn.
  - pose proof (Hn v eq_refl) as Hv. cbn [Nat.add translate clear_path] in *. unfold slot_absent. cbn [leaf_entry].
    change (S n + k)%nat with (S (n + k)) in *.
    destruct (present _) eqn:Ep; [|split; [done|by intros e ?]]. destruct (larger_pages _) eqn:El; [done|].
    destruct (IH m (pde_get_address (table m t (calculate_index (S (S (n + k))) v))) v) as [Hc Hs].
    + apply (Hf _ (calculate_index_lt _ _) Ep El).
    + intros v' Ev. specialize (Hn v' Ev). by rewrite (index_same k (S (n + k)) v' v), Ep, El, fmap_None in Hn by (done || lia).
    + done.
Qed.

(** How many tables are missing depends only on the block of the table. *)
Lemma missing_block n k : ∀ m t v v', v / 2 ^ cover (S k) = v' / 2 ^ cover (S k) → missing n k m t v = missing n k m t v'.
Proof.
  induction n as [|n IH]; intros m t v v' E; cbn [missing]; [done|].
  rewrite (index_same (S k) (S n + k) v v') by (done || lia). destruct (present _); [|done]. by apply IH.
Qed.

Lemma missing_mapped n k : ∀ m t v e, translate (n + k) m t v = Some (k, e) → missing n k m t v = O.
Proof.
  intros m t v e (_ & e0 & Hl & _)%translate_leaf. revert t Hl. induction n as [|n IH]; intros t; cbn [leaf_entry missing]; [done|].
  destruct (present _); [apply IH|done].
Qed.

(** ** A map of the pages of physical memory *)
Lemma size_cover P : PAGE_SIZE P = 2 ^ cover (base_of P).
Proof. by destruct P. Qed.

Lemma aligned_block b s y : 0 < s → b mod s = 0 → y / s = b / s ↔ b ≤ y < b + s.
Proof.
  intros Hs Hb. pose proof (Z.div_mod b s ltac:(lia)) as Eb. pose proof (Z.div_mod y s ltac:(lia)). pose proof (Z.mod_pos_bound y s Hs). split.
  - intros E. rewrite E in *. lia.
  - intros Hy. symmetry. apply (Z.div_unique y s (b / s) (y - b)); [left; lia|]. rewrite Hb in Eb. lia.
Qed.

Lemma steps3_base P : (3 - level_of P + base_of P = 2)%nat.
Proof. by destruct P. Qed.

Section slot_pages.
Context (lo : Z) (Hlo : slot_ok lo).

Lemma slot_virt a : 0 ≤ a < 2 ^ 39 → virt_ok (lo + a) ∧ (lo + a) / 2 ^ 39 = lo / 2 ^ 39.
Proof using Hlo.
  intros Ha. destruct Hlo as [Hm Hr]. pose proof (Z.div_mod lo (2 ^ 39)). split.
  - unfold virt_ok, canonical, u64_lim in *.
    assert (lo + 2 ^ 39 ≤ 2 ^ 47 ∨ 2 ^ 64 - 2 ^ 47 ≤ lo ∧ lo + 2 ^ 39 ≤ 2 ^ 64) by lia. lia.
  - symmetry. apply (Z.div_unique _ _ _ a); lia.
Qed.

Lemma slot_mod P p : p mod PAGE_SIZE P = 0 → (lo + p) mod PAGE_SIZE P = 0.
Proof using Hlo.
  intros Hp. destruct Hlo as [Hm _]. apply mod_add_0; [|done]. rewrite size_cover in *. apply Z.mod_divide in Hm as [q ->]; [|lia].
  apply Z.mod_divide; [pose proof (cover_pos (base_of P)); lia|]. exists (q * 2 ^ (39 - cover (base_of P))).
  rewrite <- Z.mul_assoc, <- Z.pow_add_r by (destruct P; unfold cover; cbn; lia). do 2 f_equal. lia.
Qed.

(** Two addresses whose walks use the same entries are in one page. *)
Lemma slot_page P a a' : 0 ≤ a < 2 ^ 39 → 0 ≤ a' < 2 ^ 39 → same_path (3 - level_of P) (base_of P) (lo + a) (lo + a') →
  (lo + a) / PAGE_SIZE P = (lo + a') / PAGE_SIZE P.
Proof using Hlo.
  intros Ha Ha' Hp. destruct (slot_virt a Ha) as [Hv H4], (slot_virt a' Ha') as [Hv' H4'].
  apply same_path_page; [done..|]. assert (steps4 P = S (3 - level_of P)) as -> by by destruct P.
  split; [|exact Hp]. assert (S (S (3 - level_of P) + base_of P) = 4%nat) as -> by by destruct P. rewrite !calculate_index_mod. change (Z.of_nat 4 * 9 + 3) with 39.
  by rewrite H4, H4'.
Qed.
End slot_pages.

Section offset.
Context {A : Type} {HA : PageAllocator A} {HS : @PageAllocatorSpec A HA} (lo : Z) (Hlo : slot_ok lo) (off : Z) (Hoff : offset_ok off).

(** [pm] are the pages of physical memory that are mapped, each at its address plus [lo]. *)
Record omap (t : Z) (s : A * PMem) (F : list Z) (pm : list (PageSize * Z)) : Prop := {
  om_owns : pa_owns s F;
  om_frames : frames_wf F (tables 2 (snd s) t);
  om_full : full 2 (snd s) t;
  om_maps : ∀ P p a, (P, p) ∈ pm → p ≤ a < p + PAGE_SIZE P →
    ∃ e, translate 2 (snd s) t (lo + a) = Some (base_of P, e) ∧ mapped_to P flags_writeable p e;
  om_rest : ∀ a, 0 ≤ a < 2 ^ 39 → translate 2 (snd s) t (lo + a) ≠ None → ∃ P p, (P, p) ∈ pm ∧ p ≤ a < p + PAGE_SIZE P;
  om_open : ∀ v, opens flags_writeable 2 (snd s) t v;
}.

Definition page_in (P : PageSize) (p : Z) : Prop := 0 < p ∧ p + PAGE_SIZE P ≤ 2 ^ 39 ∧ p mod PAGE_SIZE P = 0.

Definition apart (x y : PageSize * Z) : Prop := y.2 + PAGE_SIZE y.1 ≤ x.2 ∨ x.2 + PAGE_SIZE x.1 ≤ y.2.

(** Pages that do not overlap. *)
Record tiling (l : list (PageSize * Z)) : Prop := {
  ti_nodup : NoDup l;
  ti_apart : ∀ x y, x ∈ l → y ∈ l → x ≠ y → apart x y;
  ti_in : Forall (λ x, page_in x.1 x.2) l;
}.

Lemma tiling_perm l l' : l ≡ₚ l' → tiling l → tiling l'.
Proof using. intros Hp [? Ha ?]. split; [by rewrite <- Hp| |by rewrite <- Hp]. intros x y. rewrite <- Hp. apply Ha. Qed.

Lemma tiling_cons x l : tiling (x :: l) → page_in x.1 x.2 ∧ Forall (apart x) l ∧ tiling l.
Proof using.
  intros [Hnd Ha Hin]. apply NoDup_cons in Hnd as [Hx Hnd]. apply Forall_cons in Hin as [Hi Hin]. split; [done|]. split.
  - apply Forall_forall. intros y Hy. apply Ha; [left|by right|]. by intros ->.
  - split; [done| |done]. intros y z ? ?. apply Ha; by right.
Qed.

Lemma tiling_app_r l l' : tiling (l ++ l') → tiling l'.
Proof using. induction l as [|x l IH]; [done|]. intros (_ & _ & ?)%tiling_cons. by apply IH. Qed.

Lemma omap_perm t s F pm pm' : pm ≡ₚ pm' → omap t s F pm → omap t s F pm'.
Proof using.
  intros Hp [? ? ? Hm Hr Hop]. split; [done..| | |done].
  - intros P p a. rewrite <- Hp. apply Hm.
  - intros a Ha Hn. destruct (Hr a Ha Hn) as (P & p & ? & ?). exists P, p. by rewrite <- Hp.
Qed.

Lemma omap_add P t s F pm p :
  omap t s F pm → page_in P p → Forall (apart (P, p)) pm → Forall (λ x, page_in x.1 x.2) pm →
  (missing (3 - level_of P) (base_of P) (snd s) t (lo + p) ≤ length F)%nat →
  ∃ s' F', Mapper_map off P (3 - level_of P) s t (mkPage (lo + p)) (mkPage p) flags_writeable = Done (Ok (mkFlusher (lo + p)), s') ∧
    omap t s' F' ((P, p) :: pm) ∧ conserves 2 t F s F' s' ∧
    length F = (length F' + missing (3 - level_of P) (base_of P) (snd s) t (lo + p))%nat.
Proof using Hlo Hoff.
  intros [Ho Hfr Hfull Hm Hr Hop] (Hp0 & Hp1 & Hpm) Hap Hpin HF. pose proof (PAGE_SIZE_pos P) as Hsz. pose proof (steps3_base P) as H2.
  assert (Hblk : ∀ a, (lo + a) / PAGE_SIZE P = (lo + p) / PAGE_SIZE P ↔ p ≤ a < p + PAGE_SIZE P).
  { intros a. rewrite aligned_block by (done || by apply slot_mod). lia. }
  assert (Hfree : ∀ a, p ≤ a < p + PAGE_SIZE P → translate 2 (snd s) t (lo + a) = None).
  { intros a Ha. destruct (translate 2 (snd s) t (lo + a)) eqn:E; [exfalso|done].
    destruct (Hr a) as (P' & p' & Hin & ?); [lia|by rewrite E|]. rewrite Forall_forall in Hap. destruct (Hap _ Hin); cbn in *; lia. }
  destruct (free_block (3 - level_of P) (base_of P) (snd s) t (lo + p)) as [Hc Hs].
  { by rewrite H2. }
  { rewrite H2, <- size_cover. intros v' Ev. replace v' with (lo + (v' - lo)) in Ev |- * by lia. by apply Hfree, Hblk. }
  destruct (Mapper_map_fills off Hoff P (3 - level_of P) s F t (lo + p) p flags_writeable) as (s' & F' & e & E & Hcons & HF' & Ht & Hmt & Hoth & Hfl & Hop').
  { done. } { by rewrite H2. } { split; [lia|done]. } { done. } { done. } { done. } { rewrite H2. apply Hop. }
  rewrite H2 in *. exists s', F'. split; [done|]. split; [|done].
  assert (Hkeep : ∀ a, 0 ≤ a < 2 ^ 39 → ¬ (p ≤ a < p + PAGE_SIZE P) → translate 2 (snd s') t (lo + a) = translate 2 (snd s) t (lo + a)).
  { intros a Ha Hn. apply Hoth. intros Hpath. apply Hn, Hblk. symmetry. apply (slot_page lo Hlo); [lia|done|done]. }
  split; [apply Hcons|by eapply conserves_wf|by apply Hfl| | |intros v; by apply Hop', Hop].
  - intros P' p' a [[= -> ->]|Hin]%elem_of_cons Ha.
    + exists e. split; [|done]. apply (translate_block 2 _ _ (lo + p)); [done|]. rewrite <- size_cover. symmetry. by apply Hblk.
    + rewrite Forall_forall in Hap, Hpin. pose proof (Hap _ Hin) as [?|?]; pose proof (Hpin _ Hin) as (? & ? & _); cbn in *;
        rewrite Hkeep by lia; by apply (Hm P' p').
  - intros a Ha Hn. destruct (decide (p ≤ a < p + PAGE_SIZE P)) as [Hin|Hout]; [exists P, p; split; [left|done]|].
    rewrite Hkeep in Hn by done. destruct (Hr a Ha Hn) as (P' & p' & ? & ?). exists P', p'. split; [by right|done].
Qed.
End offset.

(** ** The loops of [create_offset_map] *)
Lemma phys_slot : slot_ok PhysMapOffset.
Proof. split; [reflexivity|]. unfold u64_lim, PhysMapOffset. lia. Qed.

Definition with_size (P : PageSize) (l : list Z) : list (PageSize * Z) := (λ p, (P, p)) <$> l.

(** The entries of the pages [l] are in one table. *)
Definition one_table (P : PageSize) (l : list Z) : Prop := ∃ q, Forall (λ p, p / 2 ^ cover (level_of P) = q) l.

Section loops.
Context {A : Type} {HA : PageAllocator A} {HS : @PageAllocatorSpec A HA} (off : Z) (Hoff : offset_ok off).

Notation omap := (omap PhysMapOffset).

Lemma offset_page_new P p : page_in P p → Page_new P (p + PhysMapOffset) = Done (mkPage (PhysMapOffset + p)).
Proof using.
  intros (Hp0 & Hp1 & Hpm). pose proof (PAGE_SIZE_pos P). destruct (slot_virt PhysMapOffset phys_slot p ltac:(lia)) as [[? ?] _].
  rewrite Z.add_comm. apply Page_new_Done; [done|]. split_and!; [done|unfold PhysMapOffset; lia|by apply slot_mod, Hpm; apply phys_slot|done].
Qed.

Lemma same_table P p p' : p / 2 ^ cover (level_of P) = p' / 2 ^ cover (level_of P) →
  (PhysMapOffset + p) / 2 ^ cover (S (base_of P)) = (PhysMapOffset + p') / 2 ^ cover (S (base_of P)).
Proof using.
  intros E. assert (HL : S (base_of P) = level_of P) by by destruct P. rewrite HL.
  assert (∃ x, PhysMapOffset = x * 2 ^ cover (level_of P)) as [x ->].
  { exists (PhysMapOffset / 2 ^ cover (level_of P)). by destruct P. }
  rewrite !(Z.add_comm (x * _)), !Z.div_add by (pose proof (cover_pos (level_of P)); lia). by rewrite E.
Qed.

(** Pages of one size whose entries are in one table: tables are made for the first. *)
Lemma map_offset_pages_ok P t c pages : ∀ s F pm,
  omap t s F pm → tiling (with_size P pages ++ pm) → one_table P pages →
  (∀ p, p ∈ pages → missing (3 - level_of P) (base_of P) (snd s) t (PhysMapOffset + p) ≤ c)%nat → (c ≤ length F)%nat →
  ∃ s' F' pm', map_offset_pages off P s t (mkPage <$> pages) = Done s' ∧ omap t s' F' pm' ∧ pm' ≡ₚ with_size P pages ++ pm ∧
    conserves 2 t F s F' s' ∧ (length F ≤ length F' + c)%nat.
Proof using Hoff.
  revert c. induction pages as [|p pages IH]; intros c s F pm Ho Ht Hq Hmiss HF; cbn [map_offset_pages fmap list_fmap].
  { exists s, F, pm. split_and!; [done|done|done| |lia]. split_and!; [apply Ho|done|done]. }
  destruct (tiling_cons _ _ Ht) as (Hpin & Hap & Ht'). apply Forall_app in Hap as [_ Hap]. cbn [fst snd] in Hpin.
  pose proof (tiling_app_r (with_size P pages) pm Ht') as Htpm.
  destruct (omap_add PhysMapOffset phys_slot off Hoff P t s F pm p Ho Hpin Hap (ti_in _ Htpm)) as (s1 & F1 & E & Ho1 & Hcons & HF1).
  { pose proof (Hmiss p (list_elem_of_here _ _)). lia. }
  cbn [get_address]. unfold add_u64. destruct Hpin as (Hp0 & Hp1 & Hpm). pose proof (PAGE_SIZE_pos P).
  rewrite (chk_ok u64_lim) by (unfold PhysMapOffset, u64_lim; lia). rewrite bind_ret, offset_page_new, bind_ret by done. rewrite E, bind_ret.
  destruct Hq as [q Hq]. apply Forall_cons in Hq as [Hq0 Hq].
  destruct (IH 0%nat s1 F1 ((P, p) :: pm) Ho1) as (s2 & F2 & pm2 & E2 & Ho2 & Hp2 & Hcons2 & HF2).
  - eapply tiling_perm; [|exact Ht]. cbn. apply Permutation_middle.
  - by exists q.
  - intros p' Hp'. rewrite Forall_forall in Hq.
    rewrite (missing_block _ _ _ _ _ (PhysMapOffset + p)) by (apply same_table; rewrite Hq0; by apply Hq).
    destruct (om_maps _ _ _ _ _ Ho1 P p p (list_elem_of_here _ _)) as (e & Htr & _); [lia|].
    erewrite missing_mapped; [done|]. rewrite steps3_base. exact Htr.
  - lia.
  - exists s2, F2, pm2. split_and!; [done|done| |by eapply conserves_trans|].
    + rewrite Hp2. cbn. by rewrite <- Permutation_middle.
    + pose proof (Hmiss p (list_elem_of_here _ _)). lia.
Qed.

Lemma map_offset_range_ok P t s F pm (r : PageRange P) :
  omap t s F pm → range_aligned r → tiling (with_size P (range_addrs r) ++ pm) → one_table P (range_addrs r) →
  (3 - level_of P ≤ length F)%nat →
  ∃ s' F' pm', map_offset_range off P s t r = Done s' ∧ omap t s' F' pm' ∧ pm' ≡ₚ with_size P (range_addrs r) ++ pm ∧
    conserves 2 t F s F' s' ∧ (length F ≤ length F' + (3 - level_of P))%nat.
Proof using Hoff.
  intros Ho [Hc Ha] Ht Hn HF. unfold map_offset_range. rewrite (PageRange_collect_addrs (Z.to_nat (pr_count r)) r eq_refl), bind_ret.
  - apply (map_offset_pages_ok P t (3 - level_of P)); try done. intros p _. apply missing_le.
  - split; [done|]. intros Hpos. destruct Ht as [_ _ Hin]. rewrite Forall_forall in Hin. pose proof (PAGE_SIZE_pos P).
    assert (Hmem : ∀ i, 0 ≤ i < pr_count r → page_in P (pr_base r + i * PAGE_SIZE P)).
    { intros i Hi. apply (Hin (P, _)). apply elem_of_app. left. unfold with_size, range_addrs. apply list_elem_of_fmap.
      eexists. split; [reflexivity|]. apply list_elem_of_fmap. exists (Z.to_nat i). split; [by rewrite Z2Nat.id by lia|]. apply elem_of_seq. lia. }
    destruct (Hmem 0 ltac:(lia)) as (? & _ & _). destruct (Hmem (pr_count r - 1) ltac:(lia)) as (_ & ? & _).
    split_and!; [lia|done|]. lia.
Qed.

(** *** One region of the memory map *)
Definition region_end (r : MemoryDescriptor) : Z := phys_start r + page_count r * 0x1000.

(** A region of whole pages below 512 GiB, what one level-3 table covers. *)
Definition region_ok (r : MemoryDescriptor) : Prop :=
  0 ≤ phys_start r ∧ phys_start r mod 0x1000 = 0 ∧ 0 < page_count r ∧ region_end r ≤ 2 ^ 39.

Definition span (x : PageSize * Z) : Z * Z := (x.2, x.2 + PAGE_SIZE x.1).
Definition covered (pm : list (PageSize * Z)) (a : Z) : Prop := ∃ P p, (P, p) ∈ pm ∧ p ≤ a < p + PAGE_SIZE P.

Definition chunk_pages (c : chunked_ranges) : list (PageSize * Z) :=
  let '(s4, s2, gb, e2, e4) := c in
  with_size Size4KB (range_addrs s4) ++ with_size Size2MB (range_addrs s2) ++ with_size Size1GB (range_addrs gb) ++
  with_size Size2MB (range_addrs e2) ++ with_size Size4KB (range_addrs e4).

Lemma chunk_spans c : span <$> chunk_pages c = chunked_span c.
Proof using. destruct c as [[[[s4 s2] gb] e2] e4]. unfold chunk_pages, chunked_span, with_size, range_span. by rewrite !fmap_app, <- !list_fmap_compose. Qed.

Lemma range_aligned_pages P (r : PageRange P) : range_aligned r → Forall (λ x, x.2 mod PAGE_SIZE x.1 = 0) (with_size P (range_addrs r)).
Proof using.
  intros [_ Hb]. unfold with_size, range_addrs. apply Forall_fmap, Forall_fmap, Forall_true. intros i. cbn.
  by rewrite Z.mod_add by (pose proof (PAGE_SIZE_pos P); lia).
Qed.

Lemma chunk_aligned c : chunked_aligned c → Forall (λ x, x.2 mod PAGE_SIZE x.1 = 0) (chunk_pages c).
Proof using.
  destruct c as [[[[s4 s2] gb] e2] e4]. intros (? & ? & ? & ? & ?). unfold chunk_pages. rewrite !Forall_app.
  split_and!; by apply range_aligned_pages.
Qed.

(** Pages that follow each other do not overlap and leave nothing out. *)
Lemma chain_tiling l : ∀ s e, chain s e (span <$> l) → Forall (λ x, x.2 mod PAGE_SIZE x.1 = 0) l → 0 < s → e ≤ 2 ^ 39 →
  tiling l ∧ (∀ x, x ∈ l → s ≤ x.2) ∧ ∀ a, covered l a ↔ s ≤ a < e.
Proof using.
  induction l as [|[P p] l IH]; intros s e Hc Hal Hs He; cbn [fmap list_fmap] in Hc.
  - cbn in Hc. subst e. split_and!; [|by intros x ?%elem_of_nil|intros a; split; [by intros (? & ? & ?%elem_of_nil & _)|lia]].
    split; [constructor|by intros x y ?%elem_of_nil|done].
  - destruct Hc as (Eps & _ & Hc). cbn in Eps. subst p. change (chain (s + PAGE_SIZE P) e (span <$> l)) in Hc. apply Forall_cons in Hal as [Hp Hal]. cbn in Hp. pose proof (PAGE_SIZE_pos P).
    assert (s + PAGE_SIZE P ≤ e).
    { clear -Hc. revert Hc. generalize (s + PAGE_SIZE P). induction l as [|[Q q] l IH]; intros z; cbn; [lia|]. intros (-> & ? & ?%IH). lia. }
    destruct (IH _ _ Hc Hal) as ([Hnd Ha Hin] & Hle & Hcov); [lia|done|].
    split_and!; [split| |].
    + constructor; [|done]. intros Hx%Hle. cbn in Hx. lia.
    + intros x y [->|Hx]%elem_of_cons [->|Hy]%elem_of_cons Hne; [done|right; by apply (Hle y)|left; by apply (Hle x)|by apply Ha].
    + constructor; [|done]. split_and!; cbn; [done|lia|done].
    + intros x [->|Hx%Hle]%elem_of_cons; cbn; lia.
    + intros a. split.
      * intros (Q & q & [[= -> ->]|Hq]%elem_of_cons & Hqa); [lia|]. assert (s + PAGE_SIZE P ≤ a < e) by (apply Hcov; by exists Q, q). lia.
      * intros Hsa. destruct (decide (a < s + PAGE_SIZE P)); [exists P, s; split; [left|lia]|].
        destruct (proj2 (Hcov a)) as (Q & q & ? & ?); [lia|]. exists Q, q. split; [by right|done].
Qed.

Lemma apart_sym x y : apart x y → apart y x.
Proof using. unfold apart. lia. Qed.

Lemma tiling_app l pm : tiling l → tiling pm → (∀ x y, x ∈ l → y ∈ pm → apart x y) → tiling (l ++ pm).
Proof using.
  intros [Hn1 Ha1 Hi1] [Hn2 Ha2 Hi2] Hx. split; [| |by apply Forall_app].
  - apply NoDup_app. split_and!; [done| |done]. intros [P p] H1 H2. pose proof (Hx _ _ H1 H2) as [?|?]; pose proof (PAGE_SIZE_pos P); cbn in *; lia.
  - intros x y [Hx1|Hx2]%elem_of_app [Hy1|Hy2]%elem_of_app Hne; [by apply Ha1|by apply Hx|apply apart_sym; by apply Hx|by apply Ha2].
Qed.

Lemma covered_app l pm a : covered (l ++ pm) a ↔ covered l a ∨ covered pm a.
Proof using. unfold covered. setoid_rewrite elem_of_app. naive_solver. Qed.

Lemma covered_perm l l' a : l ≡ₚ l' → covered l a ↔ covered l' a.
Proof using. intros Hp. unfold covered. by setoid_rewrite Hp. Qed.

Lemma near_one_table P (r : PageRange P) : near (cover (level_of P)) r → one_table P (range_addrs r).
Proof using. done. Qed.

(** A range is mapped; [rest] is still to come. *)
Lemma range_step P t s F pm rest (r : PageRange P) :
  omap t s F pm → range_aligned r → tiling (rest ++ with_size P (range_addrs r) ++ pm) → one_table P (range_addrs r) →
  (3 - level_of P ≤ length F)%nat →
  ∃ s' F' pm', map_offset_range off P s t r = Done s' ∧ omap t s' F' pm' ∧ tiling (rest ++ pm') ∧
    pm' ≡ₚ with_size P (range_addrs r) ++ pm ∧ conserves 2 t F s F' s' ∧ (length F ≤ length F' + (3 - level_of P))%nat.
Proof using Hoff.
  intros Ho Ha Ht Hn HF. destruct (map_offset_range_ok P t s F pm r Ho Ha (tiling_app_r _ _ Ht) Hn HF) as (s' & F' & pm' & E & Ho' & Hp & Hc & HF').
  exists s', F', pm'. split_and!; try done. eapply tiling_perm; [|exact Ht]. by rewrite Hp.
Qed.

Lemma gb_one_table (r : PageRange Size1GB) l : tiling (with_size Size1GB (range_addrs r) ++ l) → one_table Size1GB (range_addrs r).
Proof using.
  intros [_ _ Hin]. exists 0. apply Forall_app in Hin as [Hin _]. unfold with_size in Hin. rewrite Forall_fmap in Hin.
  eapply Forall_impl; [exact Hin|]. intros p (? & ? & _). cbn in *. apply Z.div_small. change (cover 3) with 39. lia.
Qed.

Lemma map_region_ok t s F pm r mmap :
  omap t s F pm → tiling pm → region_ok r → Forall (λ x, x.2 + PAGE_SIZE x.1 ≤ phys_start r) pm → (6 ≤ length F)%nat →
  ∃ s' F' pm', create_offset_map off s t (r :: mmap) = create_offset_map off s' t mmap ∧
    omap t s' F' pm' ∧ tiling pm' ∧ Forall (λ x, x.2 + PAGE_SIZE x.1 ≤ region_end r) pm' ∧ conserves 2 t F s F' s' ∧ (length F ≤ length F' + 6)%nat ∧
    ∀ a, covered pm' a ↔ covered pm a ∨ Z.max (phys_start r) 0x1000 ≤ a < region_end r.
Proof using Hoff.
  intros Ho Ht (Hs0 & Hsm & Hpc & Hre) Hbelow HF. cbn [create_offset_map]. unfold region_end in *.
  assert (offset_assert r = Done tt) as ->.
  { unfold offset_assert, mul_u64, add_u64, sub_u64. rewrite (chk_ok u64_lim (page_count r * 1000)), bind_ret by (unfold u64_lim; lia).
    rewrite (chk_ok u64_lim (phys_start r + _)), bind_ret by (unfold u64_lim; lia).
    rewrite chk_ok, bind_ret by (unfold u64_lim, EndPhysMapOffset, PhysMapOffset; lia). apply assert_Done, Z.leb_le.
    unfold EndPhysMapOffset, PhysMapOffset. lia. }
  rewrite bind_ret. unfold mul_u64, add_u64. rewrite (chk_ok u64_lim (page_count r * 0x1000)), bind_ret by (unfold u64_lim; lia).
  rewrite (chk_ok u64_lim (phys_start r + _)), bind_ret by (unfold u64_lim; lia).
  set (st := Z.max (phys_start r) 0x1000). set (en := phys_start r + page_count r * 0x1000).
  assert (Hstm : st mod 0x1000 = 0) by (unfold st; destruct (Z.max_spec (phys_start r) 0x1000) as [[_ ->]|[_ ->]]; done).
  assert (Henm : en mod 0x1000 = 0) by (unfold en; by rewrite Z.mod_add).
  assert (Hse : 0 < st ≤ en).
  { split; [lia|]. unfold st, en. apply Z.max_lub; [lia|]. destruct (decide (phys_start r = 0)); [lia|].
    pose proof (Z.div_mod (phys_start r) 0x1000). lia. }
  destruct (chunked_page_range_tiles st en) as (c & Ec & Hchain & Hal & Hnear); [lia|unfold u64_lim; lia|done|done|].
  rewrite Ec, bind_ret. rewrite <- chunk_spans in Hchain.
  destruct (chain_tiling _ _ _ Hchain (chunk_aligned c Hal)) as (Htc & Hge & Hcov); [lia|unfold en; lia|].
  assert (Hall : tiling (chunk_pages c ++ pm)).
  { apply tiling_app; [done|done|]. intros x y Hx%Hge Hy. rewrite Forall_forall in Hbelow. specialize (Hbelow y Hy). left. unfold st in Hx. lia. }
  destruct c as [[[[s4 s2] gb] e2] e4]. destruct Hal as (Ha1 & Ha2 & Ha3 & Ha4 & Ha5), Hnear as (Hn1 & Hn2 & Hn4 & Hn5). cbv beta iota.
  set (p1 := with_size Size4KB (range_addrs s4)) in *. set (p2 := with_size Size2MB (range_addrs s2)) in *.
  set (p3 := with_size Size1GB (range_addrs gb)) in *. set (p4 := with_size Size2MB (range_addrs e2)) in *. set (p5 := with_size Size4KB (range_addrs e4)) in *.
  assert (Hperm : chunk_pages (s4, s2, gb, e2, e4) ++ pm ≡ₚ (p3 ++ p4 ++ p2 ++ p5) ++ p1 ++ pm) by (unfold chunk_pages; fold p1 p2 p3 p4 p5; solve_Permutation).
  pose proof (tiling_perm _ _ Hperm Hall) as T0.
  destruct (range_step Size4KB t s F pm (p3 ++ p4 ++ p2 ++ p5) s4 Ho Ha1 T0 Hn1) as (u1 & F1 & m1 & -> & Ho1 & T1 & P1 & C1 & L1); [cbn; lia|].
  cbn [level_of Nat.sub] in L1. rewrite bind_ret. rewrite !(assoc_L (++)), <- (assoc_L (++) _ p5) in T1.
  destruct (range_step Size4KB t u1 F1 m1 ((p3 ++ p4) ++ p2) e4 Ho1 Ha5 T1 Hn5) as (u2 & F2 & m2 & -> & Ho2 & T2 & P2 & C2 & L2); [cbn; lia|].
  cbn [level_of Nat.sub] in L2. rewrite bind_ret. rewrite <- (assoc_L (++) _ p2) in T2.
  destruct (range_step Size2MB t u2 F2 m2 (p3 ++ p4) s2 Ho2 Ha2 T2 Hn2) as (u3 & F3 & m3 & -> & Ho3 & T3 & P3 & C3 & L3); [cbn; lia|].
  cbn [level_of Nat.sub] in L3. rewrite bind_ret. rewrite <- (assoc_L (++) _ p4) in T3.
  destruct (range_step Size2MB t u3 F3 m3 p3 e2 Ho3 Ha4 T3 Hn4) as (u4 & F4 & m4 & -> & Ho4 & T4 & P4 & C4 & L4); [cbn; lia|].
  cbn [level_of Nat.sub] in L4. rewrite bind_ret.
  destruct (range_step Size1GB t u4 F4 m4 [] gb Ho4 Ha3 T4 (gb_one_table _ _ T4)) as (u5 & F5 & m5 & -> & Ho5 & T5 & P5 & C5 & L5); [cbn; lia|].
  cbn [level_of Nat.sub] in L5. rewrite bind_ret.
  assert (Hfin : m5 ≡ₚ chunk_pages (s4, s2, gb, e2, e4) ++ pm) by (rewrite P5, P4, P3, P2, P1, Hperm; fold p1 p2 p3 p4 p5; solve_Permutation).
  exists u5, F5, m5. split_and!; [done|done|exact T5| |do 4 (eapply conserves_trans; [eassumption|]); done|lia|].
  - rewrite Hfin. apply Forall_app. split; [|eapply Forall_impl; [exact Hbelow|]; cbn; lia].
    apply Forall_forall. intros [Q q] Hq. cbn. apply (list_elem_of_fmap_2 span) in Hq. by destruct (chain_bounds _ _ _ q (q + PAGE_SIZE Q) Hchain Hq) as [_ [_ ?]].
  - intros a. rewrite (covered_perm _ _ _ Hfin), covered_app, Hcov. tauto.
Qed.

(** *** The memory map *)
Definition before (r r' : MemoryDescriptor) : Prop := region_end r ≤ phys_start r'.
Definition in_memory (mmap : list MemoryDescriptor) (a : Z) : Prop := ∃ r, r ∈ mmap ∧ phys_start r ≤ a < region_end r.

Lemma create_offset_map_ok t mmap : ∀ s F pm,
  omap t s F pm → tiling pm → Forall region_ok mmap → StronglySorted before mmap →
  Forall (λ x, Forall (λ r, x.2 + PAGE_SIZE x.1 ≤ phys_start r) mmap) pm → (6 * length mmap ≤ length F)%nat →
  ∃ s' F' pm', create_offset_map off s t mmap = Done s' ∧ omap t s' F' pm' ∧ tiling pm' ∧ conserves 2 t F s F' s' ∧
    (length F ≤ length F' + 6 * length mmap)%nat ∧ ∀ a, covered pm' a ↔ covered pm a ∨ 0x1000 ≤ a ∧ in_memory mmap a.
Proof using Hoff.
  induction mmap as [|r mmap IH]; intros s F pm Ho Ht Hr Hs Hb HF.
  { exists s, F, pm. split_and!; [done|done|done|by split_and!; [apply Ho|done|done]|lia|]. intros a. split; [by left|].
    intros [?|[_ (r & ?%elem_of_nil & _)]]; done. }
  apply Forall_cons in Hr as [Hr0 Hr]. apply StronglySorted_inv in Hs as [Hs Hbr]. cbn [length] in HF.
  destruct (map_region_ok t s F pm r mmap Ho Ht Hr0) as (s1 & F1 & pm1 & -> & Ho1 & Ht1 & Hb1 & Hc1 & HF1 & Hcov1).
  { eapply Forall_impl; [exact Hb|]. by intros x [? _]%Forall_cons. }
  { lia. }
  destruct (IH s1 F1 pm1 Ho1 Ht1 Hr Hs) as (s2 & F2 & pm2 & E & Ho2 & Ht2 & Hc2 & HF2 & Hcov2).
  { eapply Forall_impl; [exact Hb1|]. intros x Hx. eapply Forall_impl; [exact Hbr|]. intros r' Hr'. by etransitivity; [exact Hx|exact Hr']. }
  { lia. }
  exists s2, F2, pm2. split_and!; [done|done|done|by eapply conserves_trans|cbn [length]; lia|]. intros a. rewrite Hcov2, Hcov1. unfold in_memory. setoid_rewrite elem_of_cons.
  split.
  - intros [[?|?]|(? & r' & ? & ?)]; [by left|right|right; split; [done|]; exists r'; by split; [right|]].
    split; [lia|]. exists r. split; [by left|lia].
  - intros [?|(? & r' & [->|?] & ?)]; [by left; left|left; right; lia|right; split; [done|]; by exists r'].
Qed.

(** The walk of the offset map at the address [a] of physical memory. *)
Definition sees (m : PMem) (d : nat) (t a : Z) : Prop :=
  ∃ P e, translate d m t (PhysMapOffset + a) = Some (base_of P, e) ∧ larger_pages e = LARGER_PAGES P ∧
    read_write e = true ∧ user_super e = false ∧ pde_get_address e + a mod PAGE_SIZE P = a.

Lemma create_offset_map_sees t s F mmap :
  pa_owns s F → frames_wf F [t] → (∀ i, (i < 512)%nat → present (table (snd s) t i) = false) →
  Forall region_ok mmap → StronglySorted before mmap → (6 * length mmap ≤ length F)%nat →
  ∃ s' F', create_offset_map off s t mmap = Done s' ∧ conserves 2 t F s F' s' ∧ (length F ≤ length F' + 6 * length mmap)%nat ∧
    ∀ a, 0 ≤ a < 2 ^ 39 → (0x1000 ≤ a ∧ in_memory mmap a → sees (snd s') 2 t a) ∧
      (¬ (0x1000 ≤ a ∧ in_memory mmap a) → translate 2 (snd s') t (PhysMapOffset + a) = None).
Proof using Hoff.
  intros Ho Hwf He Hr Hs HF. destruct (empty_table 2 (snd s) t He) as [Htab Htr].
  destruct (create_offset_map_ok t mmap s F []) as (s' & F' & pm & E & [Ho' Hwf' _ Hm Hrest _] & Hti & Hc & HF' & Hcov); [..|done|done|done|done|].
  - split; [done|by rewrite Htab|by apply full_empty|by intros P p a ?%elem_of_nil| |intros v; by apply along_empty]. intros a _ Hn. by rewrite Htr in Hn.
  - split; [constructor|by intros x y ?%elem_of_nil|done].
  - exists s', F'. split_and!; [done..|]. intros a Ha. split.
    + intros Hin. destruct (proj2 (Hcov a) (or_intror Hin)) as (P & p & Hpm & Hpa).
      destruct (Hm P p a Hpm Hpa) as (e & Ht & _ & Hl & Hrw & Hus & Hadr). exists P, e. split_and!; try done.
      rewrite Hadr. destruct Hti as [_ _ Hin']. rewrite Forall_forall in Hin'. destruct (Hin' _ Hpm) as (_ & _ & Hal). cbn in Hal.
      pose proof (PAGE_SIZE_pos P). replace a with (a - p + p) at 1 by lia. rewrite Zplus_mod, Hal, Z.add_0_r, Zmod_mod, Z.mod_small by lia. lia.
    + intros Hn. destruct (translate 2 (snd s') t (PhysMapOffset + a)) eqn:Et; [|done]. exfalso. apply Hn.
      destruct (Hrest a Ha) as (Q & q & ? & ?); [by rewrite Et|]. destruct (proj1 (Hcov a)) as [(? & ? & ?%elem_of_nil & _)|?]; [by exists Q, q|done|done].
Qed.

(** Through the offset map the kernel sees exactly the memory of the firmware's map: from
    an empty table, with at most six frames for each region, [create_offset_map] succeeds,
    no frame is lost, and then the walk of [PhysMapOffset + a] ends for every address [a] of a
    region above page 0 in a writeable supervisor page that maps it to [a], and for every
    other address below 512 GiB nowhere. *)
Theorem create_offset_map_spec t s F mmap :
  pa_owns s F → frames_wf F [t] → (∀ i, (i < 512)%nat → present (table (snd s) t i) = false) →
  Forall region_ok mmap → StronglySorted before mmap → (6 * length mmap ≤ length F)%nat →
  ∃ s' F', create_offset_map off s t mmap = Done s' ∧ pa_owns s' F' ∧ F' ++ tables 2 (snd s') t ≡ₚ F ++ [t] ∧
    ∀ a, 0 ≤ a < 2 ^ 39 →
      (0x1000 ≤ a ∧ in_memory mmap a → sees (snd s') 2 t a) ∧
      (¬ (0x1000 ≤ a ∧ in_memory mmap a) → translate 2 (snd s') t (PhysMapOffset + a) = None).
Proof using Hoff.
  intros Ho Hwf He Hr Hs HF. destruct (empty_table 2 (snd s) t He) as [Htab _].
  destruct (create_offset_map_sees t s F mmap Ho Hwf He Hr Hs HF) as (s' & F' & E & (Ho' & Hp & _) & _ & Ha). rewrite Htab in Hp. by exists s', F'.
Qed.
End loops.

(** The window is said to be 16 TiB and the assertion of [create_offset_map] allows as much,
    but the offset map is one level-3 table: addresses 512 GiB apart are one entry. *)
Theorem offset_map_wraps m t a : translate 2 m t (PhysMapOffset + (a + 2 ^ 39)) = translate 2 m t (PhysMapOffset + a).
Proof.
  assert (Hi : ∀ L, (L ≤ 2)%nat → calculate_index (S L) (PhysMapOffset + (a + 2 ^ 39)) = calculate_index (S L) (PhysMapOffset + a)).
  { intros L HL. rewrite !index_block. pose proof (cover_pos L). f_equal.
    assert (E : 2 ^ 39 = 2 ^ (Z.of_nat (2 - L) * 9) * 512 * 2 ^ cover L).
    { change 512 with (2 ^ 9). rewrite <- !Z.pow_add_r by (unfold cover; lia). f_equal. unfold cover. lia. }
    rewrite E, Z.add_assoc, Z.div_add, Z.mod_add by lia. done. }
  cbn [translate]. rewrite !Hi by lia. done.
Qed.

(** ** The kernel's own map *)
Lemma kernel_slot : slot_ok KernelStart.
Proof. split; [reflexivity|]. unfold u64_lim, KernelStart. lia. Qed.

Section kernel_map.
Context {A : Type} {HA : PageAllocator A} {HS : @PageAllocatorSpec A HA} (off : Z) (Hoff : offset_ok off).

Notation kmap := (kmap KernelStart).

(** The pages from the [k]th on. *)
Lemma map_kernel_pages_ok t base n : ∀ k s F pm,
  kmap t s F (range_frames (base + k * 0x1000) (Z.of_nat n)) pm → 0 ≤ k → (k + Z.of_nat n) * 0x1000 ≤ 2 ^ 39 →
  Forall (λ v, v < KernelStart + k * 0x1000) pm.*1 → (2 * n ≤ length F)%nat →
  ∃ s' F' pm', map_kernel_pages off s t base ((λ i, (k + Z.of_nat i) * 0x1000) <$> seq 0 n) = Done s' ∧ kmap t s' F' [] pm' ∧
    conserves 2 t F s F' s' ∧ (length F ≤ length F' + 2 * n)%nat ∧
    (∀ v f, (v, f) ∈ pm' ↔ (v, f) ∈ pm ∨ ∃ i, k ≤ i < k + Z.of_nat n ∧ v = KernelStart + i * 0x1000 ∧ f = base + i * 0x1000).
Proof using Hoff.
  induction n as [|n IH]; intros k s F pm Hk Hk0 Hlim Hbelow HF; cbn [seq fmap list_fmap map_kernel_pages].
  { exists s, F, pm. rewrite range_frames_nil in Hk by lia. split_and!; [done|done|by split_and!; [apply Hk|done|done]|lia|]. intros v f. split; [by left|]. intros [?|(i & ? & _)]; [done|lia]. }
  rewrite Z.add_0_r. replace (Z.of_nat (S n)) with (1 + Z.of_nat n) in Hk, Hlim |- * by lia.
  rewrite range_frames_app, range_frames_one in Hk by lia. cbn [app] in Hk. set (f := base + k * 0x1000) in *. set (v := KernelStart + k * 0x1000).
  assert (Hv : in_slot KernelStart v).
  { split; [unfold v; lia|]. unfold v. by rewrite Z.mod_add. }
  assert (Hfo : frame_ok f) by (eapply kmap_frame; [exact Hk|left]). destruct Hfo as (Hf0 & Hf1 & Hf2).
  destruct (heap_map_page_ok KernelStart kernel_slot off Hoff t s F _ pm v f Hk Hv) as (s1 & F1 & E & Hk1 & HF1 & Hc1).
  { intros Hin. rewrite Forall_forall in Hbelow. specialize (Hbelow v Hin). unfold v in Hbelow. lia. }
  { lia. }
  unfold heap_map_page in E. apply bind_Done in E as (vp & Evp & E). unfold add_u64.
  rewrite (chk_ok u64_lim (KernelStart + k * 0x1000)), bind_ret by (unfold KernelStart, u64_lim; lia). fold v. rewrite Evp, bind_ret.
  rewrite (chk_ok u64_lim (base + k * 0x1000)), bind_ret by (fold f; unfold PHYS_TOP, u64_lim in *; lia). fold f.
  rewrite (Page_new_ok Size4KB f), bind_ret by (unfold PHYS_TOP in *; (lia || done)).
  destruct (Mapper_map off Size4KB 2 s t vp (mkPage f) flags_writeable) as [[[fl|] s2]| |]; try done. injection E as ->. rewrite bind_ret.
  destruct (IH (k + 1) s1 F1 ((v, f) :: pm)) as (s3 & F3 & pm3 & E3 & Hk3 & Hc3 & HF3 & Hpm3).
  { replace (base + (k + 1) * 0x1000) with (f + 1 * 0x1000) by (unfold f; lia). exact Hk1. }
  { lia. } { lia. }
  { rewrite fmap_cons. constructor; [cbn; unfold v; lia|]. eapply Forall_impl; [exact Hbelow|]. intros x ?. cbn in *. lia. }
  { lia. }
  exists s3, F3, pm3. split_and!; [|done|by eapply conserves_trans|lia|].
  - rewrite <- E3. f_equal. rewrite <- fmap_S_seq, <- list_fmap_compose. apply list_fmap_ext. intros j i _. cbn. lia.
  - intros v' f'. rewrite Hpm3, elem_of_cons. split.
    + intros [[Hx|?]|(i & Hi & Ev & Ef)]; [|by left|right; exists i; split_and!; [lia|lia|exact Ev|exact Ef]].
      injection Hx as -> ->. right. exists k. split_and!; [lia|lia|reflexivity|reflexivity].
    + intros [?|(i & ? & -> & ->)]; [by left; right|]. destruct (decide (i = k)) as [->|]; [by left; left|right; exists i; split_and!; [lia|lia|done|done]].
Qed.

(** The image is mapped; [conserves] says what else has not changed. *)
Lemma create_kernel_map_ok t s F kernel_start kernel_pages :
  pa_owns s F → frames_wf (range_frames kernel_start kernel_pages ++ F) [t] → (∀ i, (i < 512)%nat → present (table (snd s) t i) = false) →
  0 ≤ kernel_pages → kernel_pages * 0x1000 ≤ 2 ^ 39 → (2 * Z.to_nat kernel_pages ≤ length F)%nat →
  ∃ s' F', create_kernel_map off s t kernel_start kernel_pages KernelStart = Done s' ∧ conserves 2 t F s F' s' ∧
    NoDup (range_frames kernel_start kernel_pages ++ F' ++ tables 2 (snd s') t) ∧ (length F ≤ length F' + 2 * Z.to_nat kernel_pages)%nat ∧
    (∀ i, 0 ≤ i < kernel_pages → maps (snd s') t (KernelStart + i * 0x1000) (kernel_start + i * 0x1000)) ∧
    (∀ i, kernel_pages ≤ i < 2 ^ 27 → translate 2 (snd s') t (KernelStart + i * 0x1000) = None).
Proof using Hoff.
  intros Ho Hwf He Hp0 Hp1 HF. destruct (empty_table 2 (snd s) t He) as [Htab Htr]. unfold create_kernel_map. rewrite Z.eqb_refl. cbn [assert_].
  rewrite bind_ret. unfold mul_u64. rewrite (chk_ok u64_lim), bind_ret by (unfold u64_lim; lia).
  assert (Hl : step_range 0 (kernel_pages * 0x1000) = (λ i, (0 + Z.of_nat i) * 0x1000) <$> seq 0 (Z.to_nat kernel_pages)).
  { unfold step_range. replace ((kernel_pages * 0x1000 - 0 + 0xFFF) / 0x1000) with kernel_pages; [done|].
    apply (Z.div_unique _ _ _ 0xFFF); lia. }
  rewrite Hl. destruct (map_kernel_pages_ok t kernel_start (Z.to_nat kernel_pages) 0 s F []) as (s' & F' & pm & E & Hk & Hc & HF' & Hpm).
  - rewrite Z2Nat.id, Z.mul_0_l, Z.add_0_r by lia. split; [done| |constructor|done|by intros v f ?%elem_of_nil|intros v _ _; apply Htr|intros v; by apply along_empty].
    by rewrite Htab.
  - lia.
  - lia.
  - constructor.
  - done.
  - rewrite Z2Nat.id in Hpm by lia. exists s', F'. destruct Hk as [Ho' [Hnd Hok] Hndp Hin Hm Hr _].
    assert (Hiff : ∀ v f, (v, f) ∈ pm ↔ ∃ i, 0 ≤ i < kernel_pages ∧ v = KernelStart + i * 0x1000 ∧ f = kernel_start + i * 0x1000).
    { intros v f. rewrite Hpm, elem_of_nil. split; [intros [[]|(i & ?)]; by exists i|intros (i & ?); right; by exists i]. }
    split_and!; [done|done| |lia| |].
    + assert (Hperm : pm.*2 ≡ₚ range_frames kernel_start kernel_pages).
      { assert (Hpp : pm ≡ₚ (λ i, (KernelStart + Z.of_nat i * 0x1000, kernel_start + Z.of_nat i * 0x1000)) <$> seq 0 (Z.to_nat kernel_pages)).
        { apply NoDup_Permutation; [by apply NoDup_fmap_1 in Hndp|apply NoDup_fmap_2; [intros i j [=]; lia|apply NoDup_seq]|].
          intros [v f]. rewrite Hiff, list_elem_of_fmap. split.
          - intros (i & ? & -> & ->). exists (Z.to_nat i). rewrite Z2Nat.id by lia. split; [done|]. apply elem_of_seq. lia.
          - intros (i & [= -> ->] & Hi%elem_of_seq). exists (Z.of_nat i). split_and!; [lia|lia|done|done]. }
        rewrite Hpp, <- list_fmap_compose. unfold range_frames. by apply reflexive_eq. }
      cbn [app] in Hnd. rewrite <- (assoc_L (++)), Hperm in Hnd. exact Hnd.
    + intros i Hi. apply Hm, Hiff. by exists i.
    + intros i Hi. apply Hr.
      * split; [lia|]. by rewrite Z.mod_add.
      * intros ([v f] & Ev & (j & ? & -> & _)%Hiff)%list_elem_of_fmap. cbn in Ev. lia.
Qed.

(** The kernel finds itself where it was linked: from an empty table [create_kernel_map]
    maps the frames of the image, in order, from [KernelStart] on, each to a writeable
    supervisor page, nothing else of those 512 GiB, and takes the tables it needs from the
    allocator without losing a frame. *)
Theorem create_kernel_map_spec t s F kernel_start kernel_pages :
  pa_owns s F → frames_wf (range_frames kernel_start kernel_pages ++ F) [t] → (∀ i, (i < 512)%nat → present (table (snd s) t i) = false) →
  0 ≤ kernel_pages → kernel_pages * 0x1000 ≤ 2 ^ 39 → (2 * Z.to_nat kernel_pages ≤ length F)%nat →
  ∃ s' F', create_kernel_map off s t kernel_start kernel_pages KernelStart = Done s' ∧ pa_owns s' F' ∧
    NoDup (range_frames kernel_start kernel_pages ++ F' ++ tables 2 (snd s') t) ∧
    (∀ i, 0 ≤ i < kernel_pages → maps (snd s') t (KernelStart + i * 0x1000) (kernel_start + i * 0x1000)) ∧
    (∀ i, kernel_pages ≤ i < 2 ^ 27 → translate 2 (snd s') t (KernelStart + i * 0x1000) = None).
Proof using Hoff.
  intros Ho Hwf He Hp0 Hp1 HF. destruct (create_kernel_map_ok t s F kernel_start kernel_pages Ho Hwf He Hp0 Hp1 HF) as (s' & F' & E & (Ho' & _) & Hnd & _ & Hm & Hr).
  by exists s', F'.
Qed.
End kernel_map.

(** ** A machine with 64 free frames *)
Definition maps_world : alloc_world := (mkPFA (<[6%nat := Some 0x100000]> (replicate 19 None)) None true 64, demo_mem).

Lemma maps_owns : owns maps_world (range_frames 0x100000 64).
Proof.
  exists (<[6%nat := [0x100000]]> (replicate 19 [])). split; [|vm_compute; reflexivity].
  split_and!; [cbn; repeat constructor|done| |].
  - apply (range_frames_NoDup 0x100000 64).
  - apply (range_frames_ok 0x100000 64); done.
Qed.

Section demo.
#[local] Instance maps_allocator : PageAllocator PageFrameAllocator := pfa_allocator PhysMapOffset.
#[local] Instance maps_allocator_spec : PageAllocatorSpec PageFrameAllocator := pfa_allocator_spec PhysMapOffset phys_map_offset_ok.

(** Memory from 0x1ff000 to 0x40403000: a page, a gigabyte in pages of 2 MiB and 1 GiB, three
    pages; and the first megabyte without its top. *)
Definition demo_mmap : list MemoryDescriptor := [mkMD true 0 0x9f; mkMD true 0x1ff000 0x40204].

Lemma create_offset_map_spec_witness :
  ∃ s' F', create_offset_map PhysMapOffset maps_world 0x5000 demo_mmap = Done s' ∧ pa_owns s' F' ∧
    (∃ P e, translate 2 (snd s') 0x5000 (PhysMapOffset + 0x2345678) = Some (base_of P, e) ∧ pde_get_address e + 0x2345678 mod PAGE_SIZE P = 0x2345678) ∧
    translate 2 (snd s') 0x5000 (PhysMapOffset + 0xA0000) = None.
Proof.
  destruct (create_offset_map_spec PhysMapOffset phys_map_offset_ok 0x5000 maps_world (range_frames 0x100000 64) demo_mmap)
    as (s' & F' & E & Ho & _ & Hm).
  - exact maps_owns.
  - split.
    + apply NoDup_app. split_and!; [apply range_frames_NoDup| |by apply NoDup_singleton].
      intros f (i & ? & ->)%elem_of_range_frames ?%list_elem_of_singleton. lia.
    + apply Forall_app. split; [by apply range_frames_ok|by apply Forall_singleton].
  - done.
  - apply Forall_forall. intros r Hin. apply elem_of_cons in Hin as [->|[->|[]%elem_of_nil]%elem_of_cons]; apply (bool_decide_unpack _); by vm_compute.
  - repeat constructor; unfold before, region_end; cbn; lia.
  - apply (bool_decide_unpack _). by vm_compute.
  - exists s', F'. split; [exact E|]. split; [exact Ho|]. split.
    + destruct (proj1 (Hm 0x2345678 ltac:(lia))) as (P & e & Ht & _ & _ & _ & Ha); [|exists P, e; split; [exact Ht|exact Ha]].
      split; [lia|]. exists (mkMD true 0x1ff000 0x40204). split; [right; left|unfold region_end; cbn; lia].
    + apply (Hm 0xA0000 ltac:(lia)). intros [_ (r & Hin & Hr)]. unfold region_end in Hr.
      apply elem_of_cons in Hin as [->|[->|[]%elem_of_nil]%elem_of_cons]; cbn in Hr; lia.
Defined.

Lemma create_kernel_map_spec_witness :
  ∃ s' F', create_kernel_map PhysMapOffset maps_world 0x5000 0x200000 16 KernelStart = Done s' ∧ pa_owns s' F' ∧
    maps (snd s') 0x5000 (KernelStart + 3 * 0x1000) (0x200000 + 3 * 0x1000).
Proof.
  destruct (create_kernel_map_spec PhysMapOffset phys_map_offset_ok 0x5000 maps_world (range_frames 0x100000 64) 0x200000 16)
    as (s' & F' & E & Ho & _ & Hm & _).
  - exact maps_owns.
  - split.
    + apply (bool_decide_unpack _). by vm_compute.
    + rewrite <- (assoc_L (++)). apply Forall_app. split; [by apply range_frames_ok|]. apply Forall_app. split; [by apply range_frames_ok|by apply Forall_singleton].
  - done.
  - lia.
  - lia.
  - apply (bool_decide_unpack _). by vm_compute.
  - exists s', F'. split; [exact E|]. split; [exact Ho|]. apply (Hm 3). lia.
Defined.
End demo.
