(* ===== verification/Pci.v ===== *)
(** * PCI

    [kernel/src/pci]: access to the configuration space of a function through the
    legacy ports ([legacy.rs]) and through memory ([express.rs]), the header of a
    device, the enumeration of the buses and the service that gives a driver access
    to its device ([mod.rs]); and the driver's side of that service
    ([kernel_userspace/src/pci.rs]).  The reference is a configuration space indexed by
    bus, device, function and register; [cf_decode] is the decoding of the address port
    that the specification of the bus gives. *)
From S2P Require Import Prelude Page PhysMem AllocIface PageTable.

(** [!x] on a 32-bit word, and [x << n] on one. *)
Definition not_u32 (x : Z) : Z := u32_lim - 1 - x.
Definition shl_u32 (x n : Z) : Z := Z.shiftl x n mod u32_lim.

(** The trait [PCIDevice], over a state [S]. *)
Record PCIDevice (S : Type) := mkDevice {
  read_u8 : S → Z → outcome (Z * S);
  read_u16 : S → Z → outcome (Z * S);
  read_u32 : S → Z → outcome (Z * S);
  write_u8 : S → Z → Z → outcome S;
  write_u16 : S → Z → Z → outcome S;
  write_u32 : S → Z → Z → outcome S;
}.
Arguments mkDevice {S}.
Arguments read_u8 {S}.
Arguments read_u16 {S}.
Arguments read_u32 {S}.
Arguments write_u8 {S}.
Arguments write_u16 {S}.
Arguments write_u32 {S}.

(** ** Devices that are accessed a 32-bit word at a time *)
Section words.
Context {S : Type} (rd : S → Z → outcome (Z * S)) (wr : S → Z → Z → outcome S).

Definition word_read_u8 (s : S) (offset : Z) : outcome (Z * S) :=
  '(block, s) ← rd s (Z.land offset (not_u32 3));
  Done (Z.land (Z.shiftr block (8 * Z.land offset 3)) 0xFF, s).

Definition word_read_u16 (s : S) (offset : Z) : outcome (Z * S) :=
  '(block, s) ← rd s (Z.land offset (not_u32 3));
  Done (Z.land (Z.shiftr block (8 * Z.land offset 3)) 0xFFFF, s).

Definition word_write_u8 (s : S) (offset data : Z) : outcome S :=
  '(block, s) ← rd s (Z.land offset (not_u32 3));
  let block := Z.land block (not_u32 (shl_u32 0xFF (8 * Z.land offset 3))) in
  let block := Z.lor block (shl_u32 data (8 * Z.land offset 3)) in
  wr s (Z.land offset (not_u32 3)) block.

Definition word_write_u16 (s : S) (offset data : Z) : outcome S :=
  '(block, s) ← rd s (Z.land offset (not_u32 2));
  let block := Z.land block (not_u32 (shl_u32 0xFFFF (8 * Z.land offset 3))) in
  let block := Z.lor block (shl_u32 data (8 * Z.land offset 3)) in
  wr s (Z.land offset (not_u32 3)) block.

Definition word_device : PCIDevice S :=
  mkDevice word_read_u8 word_read_u16 rd word_write_u8 word_write_u16 wr.
End words.

(** ** The legacy ports

    The host bridge behind the ports 0xCF8 and 0xCFC is hardware: [HW] is its
    state. *)
Class ConfigPorts (HW : Type) := {
  write_command : HW → Z → HW;
  read_data : HW → Z;
  write_data : HW → Z → HW;
}.

Section legacy.
Context {HW : Type} `{ConfigPorts HW}.

Definition LegacyPCICommand_read (hw : HW) (address : Z) : Z * HW :=
  let hw := write_command hw address in (read_data hw, hw).

Definition LegacyPCICommand_write (hw : HW) (address value : Z) : HW :=
  write_data (write_command hw address) value.

Definition legacy_get_address (bus device function : Z) : Z :=
  Z.lor (Z.lor (Z.lor (Z.shiftl 1 31) (Z.shiftl bus 16)) (Z.shiftl device 11)) (Z.shiftl function 8).

Definition legacy_read_u32 (base_address : Z) (hw : HW) (offset : Z) : outcome (Z * HW) :=
  a ← add_u32 base_address offset; Done (LegacyPCICommand_read hw a).

Definition legacy_write_u32 (base_address : Z) (hw : HW) (offset data : Z) : outcome HW :=
  a ← add_u32 base_address offset; Done (LegacyPCICommand_write hw a data).

Definition PCILegacyDevice (base_address : Z) : PCIDevice HW :=
  word_device (legacy_read_u32 base_address) (legacy_write_u32 base_address).

Definition legacy_get_device (hw : HW) (segment bus device function : Z) : outcome (PCIDevice HW * HW) :=
  _ ← assert_ (segment =? 0);
  Done (PCILegacyDevice (legacy_get_address bus device function), hw).
End legacy.

(** ** The memory-mapped space *)
Record MCFGEntry := mkMCFG {
  mc_base_address : Z;
  pci_segment_group : Z;
  bus_number_start : Z;
  bus_number_end : Z;
}.

(** The bytes of the space, by address. *)
Definition Mmio : Type := Z → Z.

Fixpoint le_read (m : Mmio) (a : Z) (n : nat) : Z :=
  match n with O => 0 | S n => m a + 256 * le_read m (a + 1) n end.

Fixpoint le_write (m : Mmio) (a v : Z) (n : nat) : Mmio :=
  match n with O => m | S n => le_write (<[a := v mod 256]> m) (a + 1) (v / 256) n end.

(** The address space of the process that accesses the devices: the allocator, the
    page tables and the memory; [off] is [MEM_OFFSET], [t] the process's root table. *)
Section express.
Context {A : Type} `{PageAllocator A} (off t : Z).

Definition Express : Type := (A * PMem) * Mmio.

Definition express_read (n : nat) (address : Z) (s : Express) (offset : Z) : outcome (Z * Express) :=
  _ ← assert_ (offset mod Z.of_nat n =? 0);
  a ← add_u64 address offset;
  Done (le_read (snd s) a n, s).

Definition express_write (n : nat) (address : Z) (s : Express) (offset data : Z) : outcome Express :=
  _ ← assert_ (offset mod Z.of_nat n =? 0);
  a ← add_u64 address offset;
  Done (fst s, le_write (snd s) a data n).

Definition PCIExpressDevice (address : Z) : PCIDevice Express :=
  mkDevice (express_read 1 address) (express_read 2 address) (express_read 4 address)
    (express_write 1 address) (express_write 2 address) (express_write 4 address).

Definition express_get_address (entries : list MCFGEntry) (segment bus device function : Z) : outcome (option Z) :=
  let offset := Z.lor (Z.lor (Z.shiftl bus 20) (Z.shiftl device 15)) (Z.shiftl function 12) in
  match list_find (λ e, pci_segment_group e = segment) entries with
  | Some (_, e) => a ← add_u64 (mc_base_address e) offset; Done (Some a)
  | None => Done None
  end.

(** [paging::ensure_ident_map_curr_process]. *)
Definition ensure_ident_map_curr_process (s : A * PMem) (page : Page Size4KB) (flags : MemoryMappingFlags)
  : outcome (A * PMem) :=
  '(r, s) ← identity_map off Size4KB 3 s t page flags;
  match r with
  | Ok _ => Done s
  | Err (MemAlreadyMapped _ to current) => if to =? current then Done s else Panic PUnreachable
  end.

Definition express_get_device (entries : list MCFGEntry) (s : Express) (segment bus device function : Z)
  : outcome (PCIDevice Express * Express) :=
  o ← express_get_address entries segment bus device function;
  address ← unwrap o;
  page ← Page_new Size4KB address;
  w ← ensure_ident_map_curr_process (fst s) page flags_writeable;
  Done (PCIExpressDevice address, (w, snd s)).
End express.

(** ** The header *)
Section header.
Context {S : Type} (d : PCIDevice S).

Definition get_vendor_id (s : S) := read_u16 d s 0.
Definition get_device_id (s : S) := read_u16 d s 2.
Definition get_command (s : S) := read_u16 d s 4.
Definition get_status (s : S) := read_u16 d s 6.
Definition get_revision_id (s : S) := read_u8 d s 8.
Definition get_prog_if (s : S) := read_u8 d s 9.
Definition get_subclass (s : S) := read_u8 d s 10.
Definition get_class (s : S) := read_u8 d s 11.
Definition get_cache_line_size (s : S) := read_u8 d s 12.
Definition get_latency_timer (s : S) := read_u8 d s 13.
Definition get_header_type (s : S) := read_u8 d s 14.
Definition get_bist (s : S) := read_u8 d s 15.
Definition get_interrupt_num (s : S) := read_u8 d s 0x3C.

Definition get_bar (s : S) (bar_num : Z) : outcome (Z * S) :=
  _ ← assert_ (bar_num <=? 5);
  read_u32 d s (0x10 + bar_num * 4).

Fixpoint find_port (s : S) (bars : list Z) : outcome (option Z * S) :=
  match bars with
  | [] => Done (None, s)
  | i :: bars =>
      '(bar, s) ← get_bar s i;
      let address := Z.land bar 0xFFFFFFFC in
      if (0 <? address) && (Z.land bar 1 =? 1) then Done (Some address, s)
      else find_port s bars
  end.

Definition get_port_base (s : S) : outcome (option Z * S) := find_port s (seqZ 0 5).
End header.

(** ** Enumeration

    [get_device] is that of the bus.  What is started for a function is recorded:
    the PCnet driver, or the AHCI driver. *)
Inductive Started := StartPCnet (segment bus device function : Z) | StartAHCI (segment bus device function : Z).

Section enumerate.
Context {S : Type} (get_device : S → Z → Z → Z → Z → outcome (PCIDevice S * S)).

(** [get_device_id() == 0 || get_device_id() == 0xFFFF]: the register is read a
    second time when it is not zero. *)
Definition absent (d : PCIDevice S) (s : S) : outcome (bool * S) :=
  '(id, s) ← get_device_id d s;
  if id =? 0 then Done (true, s)
  else '(id, s) ← get_device_id d s; Done (id =? 0xFFFF, s).

Definition is_pcnet (d : PCIDevice S) (s : S) : outcome (bool * S) :=
  '(vendor, s) ← get_vendor_id d s;
  if vendor =? 0x1022 then '(id, s) ← get_device_id d s; Done (id =? 0x2000, s)
  else Done (false, s).

Definition is_ahci (d : PCIDevice S) (s : S) : outcome (bool * S) :=
  '(class, s) ← get_class d s;
  if class =? 0x01 then
    '(subclass, s) ← get_subclass d s;
    if subclass =? 0x06 then '(prog_if, s) ← get_prog_if d s; Done (prog_if =? 0x01, s)
    else Done (false, s)
  else Done (false, s).

Definition enumerate_function (s : S) (segment bus device function : Z) : outcome (list Started * S) :=
  '(d, s) ← get_device s segment bus device function;
  '(a, s) ← absent d s;
  if (a : bool) then Done ([], s)
  else
    '(pcnet, s) ← is_pcnet d s;
    if (pcnet : bool) then Done ([StartPCnet segment bus device function], s)
    else
      '(ahci, s) ← is_ahci d s;
      Done (if (ahci : bool) then [StartAHCI segment bus device function] else [], s).

(** A [for] loop over what is started in each round. *)
Fixpoint for_each (f : S → Z → outcome (list Started * S)) (s : S) (l : list Z) : outcome (list Started * S) :=
  match l with
  | [] => Done ([], s)
  | x :: l => '(a, s) ← f s x; '(b, s) ← for_each f s l; Done (a ++ b, s)
  end.

Definition enumerate_device (s : S) (segment bus device : Z) : outcome (list Started * S) :=
  '(d, s) ← get_device s segment bus device 0;
  '(a, s) ← absent d s;
  if (a : bool) then Done ([], s)
  else for_each (λ s function, enumerate_function s segment bus device function) s (seqZ 0 8).

Definition enumerate_bus (s : S) (segment bus : Z) : outcome (list Started * S) :=
  '(d, s) ← get_device s segment bus 0 0;
  '(a, s) ← absent d s;
  if (a : bool) then Done ([], s)
  else for_each (λ s device, enumerate_device s segment bus device) s (seqZ 0 32).

Fixpoint enumerate_entries (s : S) (entries : list MCFGEntry) : outcome (list Started * S) :=
  match entries with
  | [] => Done ([], s)
  | e :: entries =>
      '(a, s) ← for_each (λ s bus, enumerate_bus s (pci_segment_group e) bus) s
                  (seqZ (bus_number_start e) (bus_number_end e - bus_number_start e));
      '(b, s) ← enumerate_entries s entries;
      Done (a ++ b, s)
  end.

(** The fallback without an MCFG table. *)
Definition enumerate_legacy (s : S) : outcome (list Started * S) :=
  for_each (λ s bus, enumerate_bus s 0 bus) s (seqZ 0 255).
End enumerate.

(** ** The service for a driver *)
Inductive PCIDevCmd := Read (offset : Z) | Write (offset data : Z).

(** One round of [pci_dev_handler]'s loop: the answer, or the end of the service. *)
Definition pci_dev_handler_round {S} (device : PCIDevice S) (s : S) (msg : PCIDevCmd)
  : outcome (option (option Z) * S) :=
  match msg with
  | Read offset =>
      if offset <=? 256 then '(resp, s) ← read_u32 device s offset; Done (Some (Some resp), s)
      else Done (None, s)
  | Write offset data =>
      if offset <=? 256 then s ← write_u32 device s offset data; Done (Some None, s)
      else Done (None, s)
  end.

(** The driver's [PCIDevice]: a call on the service.  When the service has ended the
    reply is missing and [unwrap] panics. *)
Section client.
Context {S : Type} (device : PCIDevice S).

Definition client_read_u32 (s : S) (offset : Z) : outcome (Z * S) :=
  '(r, s) ← pci_dev_handler_round device s (Read offset);
  match r with Some (Some v) => Done (v, s) | _ => Panic PUnwrap end.

Definition client_write_u32 (s : S) (offset data : Z) : outcome S :=
  '(r, s) ← pci_dev_handler_round device s (Write offset data);
  match r with Some None => Done s | _ => Panic PUnwrap end.

Definition client_device : PCIDevice S := word_device client_read_u32 client_write_u32.
End client.

(** ** Bytes of a word *)
Definition byte_of (x k : Z) : Z := x / 2 ^ (8 * k) mod 256.

Lemma byte_of_bits x k n : 0 ≤ k → 0 ≤ n → Z.testbit (byte_of x k) n = (n <? 8) && Z.testbit x (n + 8 * k).
Proof.
  intros Hk Hn. unfold byte_of. change 256 with (2 ^ 8). rewrite Z.testbit_mod_pow2 by lia.
  by rewrite Z.div_pow2_bits by lia.
Qed.

Lemma byte_of_range x k : 0 ≤ byte_of x k < 256.
Proof. unfold byte_of. apply Z.mod_pos_bound. lia. Qed.

Lemma not_u32_bits x n : 0 ≤ x < u32_lim → 0 ≤ n < 32 → Z.testbit (not_u32 x) n = negb (Z.testbit x n).
Proof.
  intros Hx Hn. unfold not_u32. change (u32_lim - 1) with (Z.ones 32).
  rewrite Z.sub_nocarry_ldiff.
  - rewrite Z.ldiff_spec, Z.ones_spec_low by lia. done.
  - apply Z.ldiff_ones_r_low; [lia|]. destruct (decide (x = 0)) as [->|]; [done|].
    apply Z.log2_lt_pow2; unfold u32_lim in *; lia.
Qed.

Lemma high_bits x n : 0 ≤ x < u32_lim → 32 ≤ n → Z.testbit x n = false.
Proof.
  intros Hx Hn. destruct (decide (x = 0)) as [->|]; [apply Z.testbit_0_l|].
  apply Z.bits_above_log2; [lia|]. assert (Z.log2 x < 32); [|lia]. apply Z.log2_lt_pow2; unfold u32_lim in *; lia.
Qed.

(** Replacing [w] bits of a word at [sh]. *)
Definition insert_bits (block w sh data : Z) : Z :=
  Z.lor (Z.land block (not_u32 (shl_u32 (2 ^ w - 1) sh))) (shl_u32 data sh).

Lemma shl_u32_range x n : 0 ≤ shl_u32 x n < u32_lim.
Proof. apply Z.mod_pos_bound. done. Qed.

Lemma shl_u32_bits x sh n : 0 ≤ sh → 0 ≤ n < 32 → Z.testbit (shl_u32 x sh) n = (sh <=? n) && Z.testbit x (n - sh).
Proof.
  intros Hsh Hn. unfold shl_u32, u32_lim. rewrite Z.testbit_mod_pow2 by lia.
  rewrite (proj2 (Z.ltb_lt n 32)) by lia. cbn [andb]. rewrite Z.shiftl_spec by lia.
  destruct (Z.leb_spec sh n); [done|]. cbn. apply Z.testbit_neg_r. lia.
Qed.

Lemma insert_bits_spec block w sh data n :
  0 ≤ block < u32_lim → 0 ≤ w → 0 ≤ sh → 0 ≤ data < 2 ^ w → 0 ≤ n < 32 →
  Z.testbit (insert_bits block w sh data) n =
    if (sh <=? n) && (n <? sh + w) then Z.testbit data (n - sh) else Z.testbit block n.
Proof.
  intros Hb Hw Hsh Hd Hn. unfold insert_bits.
  rewrite Z.lor_spec, Z.land_spec, not_u32_bits, !shl_u32_bits by (done || apply shl_u32_range).
  replace (2 ^ w - 1) with (Z.ones w) by (rewrite Z.ones_equiv; lia).
  assert (Hd' : sh + w ≤ n → Z.testbit data (n - sh) = false).
  { intros Hle. destruct (decide (data = 0)) as [->|]; [apply Z.testbit_0_l|].
    apply Z.bits_above_log2; [lia|]. assert (Z.log2 data < w); [|lia]. apply Z.log2_lt_pow2; lia. }
  destruct (Z.leb_spec sh n); cbn [andb]; [|by rewrite andb_true_r, orb_false_r].
  rewrite Z.testbit_ones_nonneg by lia.
  destruct (Z.ltb_spec n (sh + w)).
  - rewrite (proj2 (Z.ltb_lt (n - sh) w)) by lia. cbn. by rewrite andb_false_r.
  - rewrite (proj2 (Z.ltb_ge (n - sh) w)) by lia. cbn. by rewrite Hd', andb_true_r, orb_false_r by lia.
Qed.

Lemma insert_bits_range block w sh data :
  0 ≤ block < u32_lim → 0 ≤ insert_bits block w sh data < u32_lim.
Proof.
  intros Hb. unfold insert_bits.
  assert (Hlt : ∀ x, 0 ≤ x → (∀ n, 32 ≤ n → Z.testbit x n = false) → x < u32_lim).
  { intros x Hx Hbits. destruct (decide (x = 0)) as [->|]; [done|]. unfold u32_lim. apply Z.log2_lt_pow2; [lia|].
    destruct (decide (Z.log2 x < 32)); [done|].
    pose proof (Z.bit_log2 x ltac:(lia)) as Ht. rewrite Hbits in Ht by lia. done. }
  assert (H0 : 0 ≤ Z.lor (Z.land block (not_u32 (shl_u32 (2 ^ w - 1) sh))) (shl_u32 data sh)).
  { apply Z.lor_nonneg. split; [apply Z.land_nonneg; left; lia|apply shl_u32_range]. }
  split; [done|]. apply Hlt; [done|]. intros n Hn. rewrite Z.lor_spec, Z.land_spec.
  by rewrite (high_bits block), (high_bits (shl_u32 data sh)) by (done || apply shl_u32_range).
Qed.

(** The byte at [j] after storing [data] of [w] bytes at byte [k]. *)
Lemma insert_bytes block w k data j :
  0 ≤ block < u32_lim → 0 ≤ w → 0 ≤ k → k + w ≤ 4 → 0 ≤ data < 2 ^ (8 * w) → 0 ≤ j < 4 →
  byte_of (insert_bits block (8 * w) (8 * k) data) j =
    if (k <=? j) && (j <? k + w) then byte_of data (j - k) else byte_of block j.
Proof.
  intros Hb Hw Hk Hkw Hd Hj. apply Z.bits_inj'. intros n Hn.
  rewrite byte_of_bits by lia. destruct (Z.ltb_spec n 8) as [Hn8|Hn8]; cbn [andb].
  - rewrite insert_bits_spec by lia.
    destruct (Z.leb_spec k j), (Z.ltb_spec j (k + w)); cbn [andb];
      rewrite byte_of_bits by lia; rewrite (proj2 (Z.ltb_lt n 8)) by lia; cbn [andb];
      (destruct (Z.leb_spec (8 * k) (n + 8 * j)), (Z.ltb_spec (n + 8 * j) (8 * k + 8 * w)); cbn [andb]; try lia);
      try done; f_equal; lia.
  - destruct ((k <=? j) && (j <? k + w)) eqn:E.
    + apply andb_true_iff in E as [? ?]. rewrite byte_of_bits by lia. by rewrite (proj2 (Z.ltb_ge n 8)) by lia.
    + rewrite byte_of_bits by lia. by rewrite (proj2 (Z.ltb_ge n 8)) by lia.
Qed.

(** Offsets of the 256-byte space. *)
Definition offset_check (o : Z) : bool :=
  (Z.land o (not_u32 3) =? o - o mod 4) && (Z.land o 3 =? o mod 4) &&
  (negb (o mod 2 =? 0) || (Z.land o (not_u32 2) =? o - o mod 4)).

Lemma offset_masks o :
  0 ≤ o < 256 →
  Z.land o (not_u32 3) = o - o mod 4 ∧ Z.land o 3 = o mod 4 ∧ (o mod 2 = 0 → Z.land o (not_u32 2) = o - o mod 4).
Proof.
  intros Ho. assert (Hall : forallb offset_check (seqZ 0 256) = true) by (vm_compute; reflexivity).
  rewrite forallb_forall in Hall. specialize (Hall o ltac:(apply list_elem_of_In, elem_of_seqZ; lia)).
  unfold offset_check in Hall. rewrite !andb_true_iff, orb_true_iff, negb_true_iff, !Z.eqb_eq, Z.eqb_neq in Hall. naive_solver.
Qed.

(** ** What the word accesses of a device promise *)
Definition word_offset (o : Z) : Prop := 0 ≤ o < 256 ∧ o mod 4 = 0.

Class WordSpec {S : Type} (rd : S → Z → outcome (Z * S)) (wr : S → Z → Z → outcome S) := {
  ws_inv : S → Prop;
  ws_reg : S → Z → Z;               (* the word at an offset *)
  ws_keeps : Z → Prop;              (* the registers that keep what is written *)
  ws_range s o : ws_inv s → word_offset o → 0 ≤ ws_reg s o < u32_lim;
  ws_read s o :
    ws_inv s → word_offset o →
    ∃ s', rd s o = Done (ws_reg s o, s') ∧ ws_inv s' ∧ ∀ o', word_offset o' → ws_reg s' o' = ws_reg s o';
  ws_write s o v :
    ws_inv s → word_offset o → ws_keeps o → 0 ≤ v < u32_lim →
    ∃ s', wr s o v = Done s' ∧ ws_inv s' ∧
      ∀ o', word_offset o' → ws_reg s' o' = if decide (o = o') then v else ws_reg s o';
}.

Section word_spec.
Context {S : Type} (rd : S → Z → outcome (Z * S)) (wr : S → Z → Z → outcome S) `{!WordSpec rd wr}.

(** The configuration space as an array of bytes. *)
Definition config_byte (s : S) (o : Z) : Z := byte_of (ws_reg s (o - o mod 4)) (o mod 4).

Lemma word_offset_of o : 0 ≤ o < 256 → word_offset (o - o mod 4).
Proof using.
  intros. pose proof (Z.div_mod o 4). pose proof (Z.mod_pos_bound o 4). split; [lia|].
  replace (o - o mod 4) with (o / 4 * 4) by lia. apply Z.mod_mul. lia.
Qed.

Lemma config_byte_ext s s' :
  (∀ o', word_offset o' → ws_reg s' o' = ws_reg s o') → ∀ o, 0 ≤ o < 256 → config_byte s' o = config_byte s o.
Proof. intros Hr o Ho. unfold config_byte. rewrite Hr; [done|]. by apply word_offset_of. Qed.

(** The modified word, stored, changes the bytes it covers. *)
Lemma store_bytes s s' o w data :
  ws_inv s → 0 ≤ o < 256 → 0 ≤ w → o mod 4 + w ≤ 4 → 0 ≤ data < 2 ^ (8 * w) →
  (∀ o', word_offset o' → ws_reg s' o' =
     if decide (o - o mod 4 = o') then insert_bits (ws_reg s (o - o mod 4)) (8 * w) (8 * (o mod 4)) data else ws_reg s o') →
  ∀ j, 0 ≤ j < 256 →
    config_byte s' j = if (o <=? j) && (j <? o + w) then byte_of data (j - o) else config_byte s j.
Proof.
  intros Hinv Ho Hw Hfit Hd Hreg j Hj. unfold config_byte. rewrite Hreg by by apply word_offset_of.
  pose proof (Z.div_mod o 4). pose proof (Z.mod_pos_bound o 4). pose proof (Z.div_mod j 4). pose proof (Z.mod_pos_bound j 4).
  case_decide as E.
  - rewrite insert_bytes by (try apply ws_range; try apply word_offset_of; (done || lia)).
    destruct (Z.leb_spec o j), (Z.ltb_spec j (o + w)), (Z.leb_spec (o mod 4) (j mod 4)), (Z.ltb_spec (j mod 4) (o mod 4 + w));
      cbn [andb]; try lia; rewrite ?E; try done. f_equal. lia.
  - destruct (Z.leb_spec o j), (Z.ltb_spec j (o + w)); cbn [andb]; try done. lia.
Qed.

Lemma byte_of_word block k : 0 ≤ k → Z.land (Z.shiftr block (8 * k)) 0xFF = byte_of block k.
Proof using. intros. change 0xFF with (2 ^ 8 - 1). by rewrite land_ones_mod, Z.shiftr_div_pow2 by lia. Qed.

Lemma half_of_word block k :
  0 ≤ k → Z.land (Z.shiftr block (8 * k)) 0xFFFF = byte_of block k + 256 * byte_of block (k + 1).
Proof using.
  intros. change 0xFFFF with (2 ^ 16 - 1). rewrite land_ones_mod, Z.shiftr_div_pow2 by lia. unfold byte_of.
  replace (8 * (k + 1)) with (8 * k + 8) by lia. rewrite Z.pow_add_r, <- Z.div_div by lia.
  change (2 ^ 16) with (256 * 256). change (2 ^ 8) with 256. by rewrite Z.rem_mul_r by lia.
Qed.

Lemma word_read_ok s o :
  ws_inv s → 0 ≤ o < 256 →
  ∃ s', word_read_u8 rd s o = Done (config_byte s o, s') ∧ ws_inv s' ∧
    (∀ j, 0 ≤ j < 256 → config_byte s' j = config_byte s j).
Proof.
  intros Hinv Ho. destruct (offset_masks o Ho) as (E3 & Ek & _). unfold word_read_u8. rewrite E3, Ek.
  destruct (ws_read s _ Hinv (word_offset_of o Ho)) as (s' & -> & Hinv' & Hr). cbn [mbind outcome_bind].
  exists s'. split_and!; [|done|by apply config_byte_ext].
  pose proof (Z.mod_pos_bound o 4). by rewrite byte_of_word by lia.
Qed.

Lemma word_read16_ok s o :
  ws_inv s → 0 ≤ o < 256 → o mod 2 = 0 →
  ∃ s', word_read_u16 rd s o = Done (config_byte s o + 256 * config_byte s (o + 1), s') ∧ ws_inv s' ∧
    (∀ j, 0 ≤ j < 256 → config_byte s' j = config_byte s j).
Proof.
  intros Hinv Ho H2. destruct (offset_masks o Ho) as (E3 & Ek & _). unfold word_read_u16. rewrite E3, Ek.
  destruct (ws_read s _ Hinv (word_offset_of o Ho)) as (s' & -> & Hinv' & Hr). cbn [mbind outcome_bind].
  exists s'. split_and!; [|done|by apply config_byte_ext].
  assert (Hm : (o + 1) mod 4 = o mod 4 + 1).
  { pose proof (Z.div_mod o 4). pose proof (Z.mod_pos_bound o 4). pose proof (Z.div_mod o 2).
    symmetry. apply (Z.mod_unique _ _ (o / 4)); lia. }
  pose proof (Z.mod_pos_bound o 4). rewrite half_of_word by lia. unfold config_byte. rewrite Hm.
  by replace (o + 1 - (o mod 4 + 1)) with (o - o mod 4) by lia.
Qed.

(** Both partial writes store into the word and write it back. *)
Lemma word_store_ok s o w data :
  ws_inv s → 0 ≤ o < 256 → ws_keeps (o - o mod 4) → 0 ≤ w → o mod 4 + w ≤ 4 → 0 ≤ data < 2 ^ (8 * w) →
  ∃ s', ('(block, s) ← rd s (o - o mod 4);
         wr s (o - o mod 4) (insert_bits block (8 * w) (8 * (o mod 4)) data)) = Done s' ∧ ws_inv s' ∧
    ∀ j, 0 ≤ j < 256 →
      config_byte s' j = if (o <=? j) && (j <? o + w) then byte_of data (j - o) else config_byte s j.
Proof.
  intros Hinv Ho Hk Hw Hfit Hd. pose proof (word_offset_of o Ho) as Hoff.
  destruct (ws_read s _ Hinv Hoff) as (s1 & -> & Hinv1 & Hr1). rewrite bind_ret.
  destruct (ws_write s1 _ (insert_bits (ws_reg s (o - o mod 4)) (8 * w) (8 * (o mod 4)) data) Hinv1 Hoff Hk)
    as (s2 & -> & Hinv2 & Hr2); [by apply insert_bits_range, ws_range|].
  exists s2. split_and!; [done|done|]. apply (store_bytes s s2); try done.
  intros o' Ho'. rewrite Hr2 by done. case_decide; [done|]. by apply Hr1.
Qed.
End word_spec.

Definition same_bytes {S} {rd : S → Z → outcome (Z * S)} {wr} `{!WordSpec rd wr} (s s' : S) : Prop :=
  ws_inv s' ∧ ∀ j, 0 ≤ j < 256 → config_byte rd wr s' j = config_byte rd wr s j.

Definition stored {S} {rd : S → Z → outcome (Z * S)} {wr} `{!WordSpec rd wr} (s s' : S) (o w v : Z) : Prop :=
  ws_inv s' ∧ ∀ j, 0 ≤ j < 256 →
    config_byte rd wr s' j = if (o <=? j) && (j <? o + w) then byte_of v (j - o) else config_byte rd wr s j.

(** The accesses that a device makes out of 32-bit ones (the ports, and a driver
    through its service) behave as those of an array of bytes: a read returns the
    bytes at the offset in little-endian order, a write of one or two bytes changes
    exactly them. *)
Theorem word_access_spec {S} (rd : S → Z → outcome (Z * S)) wr `{!WordSpec rd wr} s o :
  ws_inv s → 0 ≤ o < 256 →
  let d := word_device rd wr in
  let byte := config_byte rd wr s in
  (∃ s', read_u8 d s o = Done (byte o, s') ∧ same_bytes s s') ∧
  (o mod 2 = 0 → ∃ s', read_u16 d s o = Done (byte o + 256 * byte (o + 1), s') ∧ same_bytes s s') ∧
  (∀ v, ws_keeps (o - o mod 4) → 0 ≤ v < 2 ^ 8 → ∃ s', write_u8 d s o v = Done s' ∧ stored s s' o 1 v) ∧
  (∀ v, ws_keeps (o - o mod 4) → o mod 2 = 0 → 0 ≤ v < 2 ^ 16 →
     ∃ s', write_u16 d s o v = Done s' ∧ stored s s' o 2 v).
Proof.
  intros Hinv Ho. cbv zeta. destruct (offset_masks o Ho) as (E3 & Ek & E2).
  pose proof (Z.mod_pos_bound o 4) as Hmod. pose proof (Z.div_mod o 4). pose proof (Z.div_mod o 2).
  split_and!.
  - destruct (word_read_ok rd wr s o Hinv Ho) as (s' & ? & ? & ?). by exists s'.
  - intros Hev. destruct (word_read16_ok rd wr s o Hinv Ho Hev) as (s' & ? & ? & ?). by exists s'.
  - intros v Hk Hv. cbn [write_u8 word_device]. unfold word_write_u8. rewrite E3, Ek.
    destruct (word_store_ok rd wr s o 1 v Hinv Ho Hk) as (s' & E & ? & ?); [lia|lia|done|]. by exists s'.
  - intros v Hk Hev Hv. cbn [write_u16 word_device]. unfold word_write_u16. rewrite E2, E3, Ek by done.
    destruct (word_store_ok rd wr s o 2 v Hinv Ho Hk) as (s' & E & ? & ?); [lia|lia|done|]. by exists s'.
Qed.

(** ** The ports

    Documented behaviour of the host bridge (PCI Local Bus specification, configuration
    mechanism #1).  The configuration space is indexed by bus, device, function and the
    offset of a word.  The bridge takes them out of the word in the command port, when its
    bit 31 is set: the bus from bits 23 to 16, the device from bits 15 to 11, the function
    from bits 10 to 8, the word from bits 7 to 2; the data port is that word. *)
Definition CfgIndex : Type := Z * Z * Z * Z.

Definition bit_field (a low width : Z) : Z := a / 2 ^ low mod 2 ^ width.

Definition cf_decode (a : Z) : CfgIndex :=
  (bit_field a 16 8, bit_field a 11 5, bit_field a 8 3, 4 * bit_field a 2 6).

Definition cf_enabled (a : Z) : Prop := bit_field a 31 1 = 1.

Class ConfigPortsSpec (HW : Type) `{ConfigPorts HW} := {
  cp_reg : HW → CfgIndex → Z;
  cp_keeps : CfgIndex → Prop;
  cp_range hw k : 0 ≤ cp_reg hw k < u32_lim;
  cp_command hw a k : cp_reg (write_command hw a) k = cp_reg hw k;
  cp_read hw a : cf_enabled a → read_data (write_command hw a) = cp_reg hw (cf_decode a);
  cp_write hw a v k :
    cf_enabled a → cp_keeps (cf_decode a) → 0 ≤ v < u32_lim →
    cp_reg (write_data (write_command hw a) v) k = if decide (cf_decode a = k) then v else cp_reg hw k;
}.

(** The address of a function: a multiple of 256 with the enable bit. *)
Lemma legacy_get_address_val bus device function :
  0 ≤ bus < 256 → 0 ≤ device < 32 → 0 ≤ function < 8 →
  legacy_get_address bus device function = 2 ^ 31 + bus * 2 ^ 16 + device * 2 ^ 11 + function * 2 ^ 8.
Proof.
  intros Hb Hd Hf. unfold legacy_get_address. rewrite !Z.shiftl_mul_pow2 by lia.
  rewrite (lor_low 1 _ 31) by lia.
  replace (1 * 2 ^ 31 + bus * 2 ^ 16) with ((2 ^ 15 + bus) * 2 ^ 16) by lia. rewrite lor_low by lia.
  replace ((2 ^ 15 + bus) * 2 ^ 16 + device * 2 ^ 11) with (((2 ^ 15 + bus) * 2 ^ 5 + device) * 2 ^ 11) by lia.
  rewrite lor_low by lia. lia.
Qed.

Lemma bit_field_at a q low width hi lo :
  a = hi * 2 ^ (low + width) + q * 2 ^ low + lo →
  0 ≤ low → 0 ≤ width → 0 ≤ lo < 2 ^ low → 0 ≤ q < 2 ^ width → bit_field a low width = q.
Proof.
  intros -> Hl Hw Hlo Hq. unfold bit_field.
  replace (hi * 2 ^ (low + width) + q * 2 ^ low + lo) with ((hi * 2 ^ width + q) * 2 ^ low + lo)
    by (rewrite Z.pow_add_r by done; lia).
  rewrite Z.div_add_l, (Z.div_small lo), Z.add_0_r by lia.
  rewrite Z.add_comm, Z.mod_add by lia. by apply Z.mod_small.
Qed.

(** The bridge finds the function and the offset that the address was made of. *)
Lemma decode_address bus device function o :
  0 ≤ bus < 256 → 0 ≤ device < 32 → 0 ≤ function < 8 → word_offset o →
  cf_enabled (legacy_get_address bus device function + o) ∧
  cf_decode (legacy_get_address bus device function + o) = (bus, device, function, o).
Proof.
  intros Hb Hd Hf [Ho Ho4]. rewrite legacy_get_address_val by done. pose proof (Z.div_mod o 4) as Hq. unfold cf_enabled, cf_decode.
  split; [|f_equal; [f_equal; [f_equal|]|]].
  - apply (bit_field_at _ 1 31 1 0 (bus * 2 ^ 16 + device * 2 ^ 11 + function * 2 ^ 8 + o)); lia.
  - apply (bit_field_at _ bus 16 8 (2 ^ 7) (device * 2 ^ 11 + function * 2 ^ 8 + o)); lia.
  - apply (bit_field_at _ device 11 5 (2 ^ 15 + bus) (function * 2 ^ 8 + o)); lia.
  - apply (bit_field_at _ function 8 3 (2 ^ 20 + bus * 2 ^ 5 + device) o); lia.
  - transitivity (4 * (o / 4)); [|lia]. f_equal.
    apply (bit_field_at _ (o / 4) 2 6 (2 ^ 23 + bus * 2 ^ 8 + device * 2 ^ 3 + function) 0); lia.
Qed.

Section legacy_spec.
Context {HW : Type} `{ConfigPortsSpec HW}.
Context (bus device function : Z) (Hb : 0 ≤ bus < 256) (Hd : 0 ≤ device < 32) (Hf : 0 ≤ function < 8).
#[local] Notation base := (legacy_get_address bus device function).

Lemma legacy_base o : 0 ≤ o < 256 → 0 ≤ base + o < u32_lim.
Proof using Hb Hd Hf. intros. rewrite legacy_get_address_val by done. unfold u32_lim. lia. Qed.

(** The ports give word access to a function. *)
Program Definition legacy_words : WordSpec (legacy_read_u32 (HW := HW) base) (legacy_write_u32 base) := {|
  ws_inv _ := True;
  ws_reg hw o := cp_reg hw (bus, device, function, o);
  ws_keeps o := cp_keeps (bus, device, function, o);
|}.
Next Obligation. intros. apply cp_range. Qed.
Next Obligation.
  intros hw o _ Ho. destruct (decode_address bus device function o) as [He Ed]; [done..|].
  unfold legacy_read_u32, add_u32. rewrite chk_ok, bind_ret by (apply legacy_base, Ho). unfold LegacyPCICommand_read.
  rewrite cp_read, Ed by done. eexists. split; [done|]. split; [done|]. intros. apply cp_command.
Qed.
Next Obligation.
  intros hw o v _ Ho Hk Hv. destruct (decode_address bus device function o) as [He Ed]; [done..|].
  unfold legacy_write_u32, add_u32. rewrite chk_ok, bind_ret by (apply legacy_base, Ho).
  eexists. split; [done|]. split; [done|]. intros o' _. unfold LegacyPCICommand_write.
  rewrite cp_write, Ed by (rewrite ?Ed; done). destruct (decide (o = o')) as [->|]; [by rewrite decide_True|].
  rewrite decide_False; [done|congruence].
Qed.
End legacy_spec.

(** A driver's accesses, through the service, are those of the device. *)
Section client_spec.
Context {S : Type} (rd : S → Z → outcome (Z * S)) (wr : S → Z → Z → outcome S) `{!WordSpec rd wr}.
Context (device : PCIDevice S) (Hrd : read_u32 device = rd) (Hwr : write_u32 device = wr).

Program Definition client_words : WordSpec (client_read_u32 device) (client_write_u32 device) := {|
  ws_inv := ws_inv; ws_reg := ws_reg; ws_keeps := ws_keeps; ws_range := ws_range;
|}.
Next Obligation.
  intros s o Hinv [Ho Ho4]. unfold client_read_u32, pci_dev_handler_round.
  rewrite (proj2 (Z.leb_le o 256)), Hrd by lia.
  destruct (ws_read s o Hinv (conj Ho Ho4)) as (s' & -> & ? & ?). by exists s'.
Qed.
Next Obligation.
  intros s o v Hinv [Ho Ho4] Hk Hv. unfold client_write_u32, pci_dev_handler_round.
  rewrite (proj2 (Z.leb_le o 256)), Hwr by lia.
  destruct (ws_write s o v Hinv (conj Ho Ho4) Hk Hv) as (s' & -> & ? & ?). by exists s'.
Qed.
End client_spec.

(** The service accepts offset 256, which through the ports is the first register
    of the next function: a driver reads, and writes, another device. *)
Lemma service_reaches_next_function {HW} `{ConfigPortsSpec HW} (hw : HW) bus device function :
  0 ≤ bus < 256 → 0 ≤ device < 32 → 0 ≤ function < 7 →
  client_read_u32 (PCILegacyDevice (legacy_get_address bus device function)) hw 256 =
  client_read_u32 (PCILegacyDevice (legacy_get_address bus device (function + 1))) hw 0.
Proof.
  intros Hb Hd Hf. unfold client_read_u32, pci_dev_handler_round, PCILegacyDevice. cbn [read_u32 word_device].
  assert (E : legacy_get_address bus device function + 256 = legacy_get_address bus device (function + 1) + 0)
    by (rewrite !legacy_get_address_val by lia; lia).
  unfold legacy_read_u32, add_u32. by rewrite E.
Qed.

(** ** Enumeration

    What the configuration space of the machine says: the byte at an offset of each
    function. *)
Class BusSpec {S : Type} (get_device : S → Z → Z → Z → Z → outcome (PCIDevice S * S)) := {
  bs_inv : S → Prop;
  bs_segment : Z → Prop;
  bs_byte : Z → Z → Z → Z → Z → Z;
  bs_get s segment bus device function :
    bs_inv s → bs_segment segment → 0 ≤ bus < 256 → 0 ≤ device < 32 → 0 ≤ function < 8 →
    ∃ d s', get_device s segment bus device function = Done (d, s') ∧ bs_inv s' ∧
      let byte := bs_byte segment bus device function in
      ∀ s o, bs_inv s → 0 ≤ o < 256 →
        (∃ s', read_u8 d s o = Done (byte o, s') ∧ bs_inv s') ∧
        (o mod 2 = 0 → ∃ s', read_u16 d s o = Done (byte o + 256 * byte (o + 1), s') ∧ bs_inv s');
}.

Section bus_spec.
Context {S : Type} (get_device : S → Z → Z → Z → Z → outcome (PCIDevice S * S)) `{!BusSpec get_device}.

(** What the enumeration is to find. *)
Definition word_at (segment b d f o : Z) : Z := bs_byte segment b d f o + 256 * bs_byte segment b d f (o + 1).

Definition function_present (segment b d f : Z) : bool :=
  negb ((word_at segment b d f 2 =? 0) || (word_at segment b d f 2 =? 0xFFFF)).

Definition pcnet_at (segment b d f : Z) : bool :=
  (word_at segment b d f 0 =? 0x1022) && (word_at segment b d f 2 =? 0x2000).

Definition ahci_at (segment b d f : Z) : bool :=
  (bs_byte segment b d f 11 =? 0x01) && (bs_byte segment b d f 10 =? 0x06) && (bs_byte segment b d f 9 =? 0x01).

Definition function_found (segment b d f : Z) : list Started :=
  if function_present segment b d f then
    if pcnet_at segment b d f then [StartPCnet segment b d f]
    else if ahci_at segment b d f then [StartAHCI segment b d f] else []
  else [].

Definition device_found (segment b d : Z) : list Started :=
  if function_present segment b d 0 then concat (function_found segment b d <$> seqZ 0 8) else [].

Definition bus_found (segment b : Z) : list Started :=
  if function_present segment b 0 0 then concat (device_found segment b <$> seqZ 0 32) else [].

Lemma absent_ok d s segment b dv f :
  bs_inv s →
  (∀ s o, bs_inv s → 0 ≤ o < 256 →
     (∃ s', read_u8 d s o = Done (bs_byte segment b dv f o, s') ∧ bs_inv s') ∧
     (o mod 2 = 0 → ∃ s', read_u16 d s o = Done (word_at segment b dv f o, s') ∧ bs_inv s')) →
  ∃ s', absent d s = Done (negb (function_present segment b dv f), s') ∧ bs_inv s'.
Proof.
  intros Hs Hd. unfold absent, get_device_id, function_present. rewrite negb_involutive.
  destruct (Hd s 2 Hs ltac:(lia)) as [_ H16]. destruct (H16 eq_refl) as (s1 & -> & Hs1). rewrite bind_ret.
  destruct (_ =? 0); [by exists s1|]. destruct (Hd s1 2 Hs1 ltac:(lia)) as [_ H16'].
  destruct (H16' eq_refl) as (s2 & -> & Hs2). rewrite bind_ret. by exists s2.
Qed.

Lemma enumerate_function_ok s segment b d f :
  bs_inv s → bs_segment segment → 0 ≤ b < 256 → 0 ≤ d < 32 → 0 ≤ f < 8 →
  ∃ s', enumerate_function get_device s segment b d f = Done (function_found segment b d f, s') ∧ bs_inv s'.
Proof.
  intros Hs Hseg Hb Hd Hf. unfold enumerate_function, function_found.
  destruct (bs_get s segment b d f Hs Hseg Hb Hd Hf) as (dev & s1 & -> & Hs1 & Hr). rewrite bind_ret. cbv zeta in Hr.
  destruct (absent_ok dev s1 segment b d f Hs1 Hr) as (s2 & -> & Hs2). rewrite bind_ret.
  destruct (function_present segment b d f); cbn [negb]; [|by exists s2].
  assert (R16 : ∀ s o, bs_inv s → 0 ≤ o < 256 → o mod 2 = 0 →
    ∃ s', read_u16 dev s o = Done (word_at segment b d f o, s') ∧ bs_inv s') by (intros; by apply Hr).
  assert (R8 : ∀ s o, bs_inv s → 0 ≤ o < 256 →
    ∃ s', read_u8 dev s o = Done (bs_byte segment b d f o, s') ∧ bs_inv s') by (intros; by apply Hr).
  assert (Hp : ∃ s', is_pcnet dev s2 = Done (pcnet_at segment b d f, s') ∧ bs_inv s').
  { unfold is_pcnet, pcnet_at, get_vendor_id, get_device_id.
    destruct (R16 s2 0 Hs2) as (s3 & -> & Hs3); [lia|done|]. rewrite bind_ret.
    destruct (_ =? 0x1022); [|by exists s3]. destruct (R16 s3 2 Hs3) as (s4 & -> & Hs4); [lia|done|]. by exists s4. }
  destruct Hp as (s3 & -> & Hs3). rewrite bind_ret. destruct (pcnet_at _ _ _ _); [by exists s3|].
  assert (Ha : ∃ s', is_ahci dev s3 = Done (ahci_at segment b d f, s') ∧ bs_inv s').
  { unfold is_ahci, ahci_at, get_class, get_subclass, get_prog_if.
    destruct (R8 s3 11 Hs3) as (s4 & -> & Hs4); [lia|]. rewrite bind_ret.
    destruct (_ =? 0x01); cbn [andb]; [|by exists s4]. destruct (R8 s4 10 Hs4) as (s5 & -> & Hs5); [lia|]. rewrite bind_ret.
    destruct (_ =? 0x06); cbn [andb]; [|by exists s5]. destruct (R8 s5 9 Hs5) as (s6 & -> & Hs6); [lia|]. by exists s6. }
  destruct Ha as (s4 & -> & Hs4). rewrite bind_ret. by exists s4.
Qed.

Lemma for_each_ok (g : S → Z → outcome (list Started * S)) (found : Z → list Started) l : ∀ s,
  bs_inv s → (∀ s x, bs_inv s → x ∈ l → ∃ s', g s x = Done (found x, s') ∧ bs_inv s') →
  ∃ s', for_each g s l = Done (concat (found <$> l), s') ∧ bs_inv s'.
Proof.
  induction l as [|x l IH]; intros s Hs Hg; cbn [for_each]; [by exists s|].
  destruct (Hg s x Hs ltac:(left)) as (s1 & -> & Hs1). rewrite bind_ret.
  destruct (IH s1 Hs1) as (s2 & -> & Hs2); [intros; apply Hg; [done|by right]|]. rewrite bind_ret. by exists s2.
Qed.

Lemma enumerate_device_ok s segment b d :
  bs_inv s → bs_segment segment → 0 ≤ b < 256 → 0 ≤ d < 32 →
  ∃ s', enumerate_device get_device s segment b d = Done (device_found segment b d, s') ∧ bs_inv s'.
Proof.
  intros Hs Hseg Hb Hd. unfold enumerate_device, device_found.
  destruct (bs_get s segment b d 0 Hs Hseg Hb Hd) as (dev & s1 & -> & Hs1 & Hr); [lia|]. rewrite bind_ret. cbv zeta in Hr.
  destruct (absent_ok dev s1 segment b d 0 Hs1 Hr) as (s2 & -> & Hs2). rewrite bind_ret.
  destruct (function_present segment b d 0); cbn [negb]; [|by exists s2].
  apply for_each_ok; [done|]. intros s3 f Hs3 Hf%elem_of_seqZ. apply enumerate_function_ok; (done || lia).
Qed.

Lemma enumerate_bus_ok s segment b :
  bs_inv s → bs_segment segment → 0 ≤ b < 256 →
  ∃ s', enumerate_bus get_device s segment b = Done (bus_found segment b, s') ∧ bs_inv s'.
Proof.
  intros Hs Hseg Hb. unfold enumerate_bus, bus_found.
  destruct (bs_get s segment b 0 0 Hs Hseg Hb) as (dev & s1 & -> & Hs1 & Hr); [lia|lia|]. rewrite bind_ret. cbv zeta in Hr.
  destruct (absent_ok dev s1 segment b 0 0 Hs1 Hr) as (s2 & -> & Hs2). rewrite bind_ret.
  destruct (function_present segment b 0 0); cbn [negb]; [|by exists s2].
  apply for_each_ok; [done|]. intros s3 d Hs3 Hd%elem_of_seqZ. apply enumerate_device_ok; (done || lia).
Qed.
End bus_spec.

(** The ports serve the enumeration: [reg] is the configuration space of the machine, the
    word at each offset of each function of each device of each bus. *)
Section legacy_bus.
Context {HW : Type} `{ConfigPortsSpec HW} (reg : CfgIndex → Z).

Definition reg_byte (segment bus device function o : Z) : Z :=
  byte_of (reg (bus, device, function, o - o mod 4)) (o mod 4).

Program Definition legacy_bus : BusSpec (legacy_get_device (HW := HW)) := {|
  bs_inv hw := ∀ k, cp_reg hw k = reg k;
  bs_segment segment := segment = 0;
  bs_byte := reg_byte;
|}.
Next Obligation.
  intros hw segment bus device function Hreg -> Hb Hd Hf.
  set (base := legacy_get_address bus device function).
  set (W := legacy_words bus device function Hb Hd Hf).
  eexists _, hw. split; [done|]. split; [done|]. cbv zeta. intros s o Hs Ho. fold base.
  assert (Hbyte : ∀ j, 0 ≤ j → @config_byte HW _ _ W s j = reg_byte 0 bus device function j)
    by (intros j Hj; unfold config_byte, reg_byte;
        change (@ws_reg HW _ _ W s (j - j mod 4)) with (cp_reg s (bus, device, function, j - j mod 4)); by rewrite Hs).
  assert (Hkeep : ∀ s' v a, legacy_read_u32 base s a = Done (v, s') → ∀ b, cp_reg s' b = reg b).
  { intros s' v a E b. unfold legacy_read_u32, LegacyPCICommand_read in E. inv_outcome. rewrite <- Hs. apply cp_command. }
  split.
  - destruct (@word_read_ok HW _ _ W s o I Ho) as (s' & E & _). exists s'. rewrite <- Hbyte by lia.
    split; [done|]. unfold word_read_u8 in E. inv_outcome. destruct x. inv_outcome. by eapply Hkeep.
  - intros Hev. destruct (@word_read16_ok HW _ _ W s o I Ho Hev) as (s' & E & _). exists s'. rewrite <- !Hbyte by lia.
    split; [done|]. unfold word_read_u16 in E. inv_outcome. destruct x. inv_outcome. by eapply Hkeep.
Qed.

#[local] Existing Instance legacy_bus.

(** What is started for a function. *)
Definition starts (x : Started) : Prop :=
  match x with
  | StartPCnet segment b d f =>
      segment = 0 ∧ (0 ≤ b < 255 ∧ 0 ≤ d < 32 ∧ 0 ≤ f < 8) ∧
      Forall (λ '(d, f), function_present legacy_get_device 0 b d f = true) [(0, 0); (d, 0); (d, f)] ∧
      pcnet_at legacy_get_device 0 b d f = true
  | StartAHCI segment b d f =>
      segment = 0 ∧ (0 ≤ b < 255 ∧ 0 ≤ d < 32 ∧ 0 ≤ f < 8) ∧
      Forall (λ '(d, f), function_present legacy_get_device 0 b d f = true) [(0, 0); (d, 0); (d, f)] ∧
      pcnet_at legacy_get_device 0 b d f = false ∧ ahci_at legacy_get_device 0 b d f = true
  end.

Definition place (x : Started) : Z * Z * Z * Z :=
  match x with StartPCnet s b d f | StartAHCI s b d f => (s, b, d, f) end.

Lemma elem_of_found_if {A B} (c : bool) (g : A → list B) l x :
  x ∈ (if c then concat (g <$> l) else []) ↔ c = true ∧ ∃ y, y ∈ l ∧ x ∈ g y.
Proof using. destruct c; rewrite ?elem_of_concat_fmap; set_solver. Qed.

Lemma function_found_place b d f x : x ∈ function_found legacy_get_device 0 b d f → place x = (0, b, d, f).
Proof.
  unfold function_found. repeat case_match; set_solver.
Qed.

Lemma device_found_place b d x : x ∈ device_found legacy_get_device 0 b d → ∃ f, place x = (0, b, d, f).
Proof. intros (_ & f & _ & Hx%function_found_place)%elem_of_found_if. by exists f. Qed.

Lemma bus_found_place b x : x ∈ bus_found legacy_get_device 0 b → ∃ d f, place x = (0, b, d, f).
Proof. intros (_ & d & _ & [f Hx]%device_found_place)%elem_of_found_if. by exists d, f. Qed.

Lemma NoDup_concat_fmap {A B} (g : A → list B) l :
  NoDup l → (∀ x, x ∈ l → NoDup (g x)) → (∀ x y z, z ∈ g x → z ∈ g y → x = y) → NoDup (concat (g <$> l)).
Proof using.
  intros Hl Hg Hd. induction l as [|x l IH]; [constructor|]. cbn. apply NoDup_cons in Hl as [Hx Hl].
  apply NoDup_app. split_and!; [apply Hg; left| |apply IH; [done|intros; apply Hg; by right]].
  intros z Hz (y & Hy & Hzy)%elem_of_concat_fmap. by rewrite (Hd x y z) in Hx.
Qed.

Lemma found_NoDup b : NoDup (bus_found legacy_get_device 0 b).
Proof.
  unfold bus_found. destruct (function_present legacy_get_device 0 b 0 0); [|constructor].
  apply NoDup_concat_fmap; [apply NoDup_seqZ| |].
  - intros d _. unfold device_found. destruct (function_present legacy_get_device 0 b d 0); [|constructor].
    apply NoDup_concat_fmap; [apply NoDup_seqZ| |].
    + intros f _. unfold function_found. repeat case_match; repeat constructor; set_solver.
    + intros f f' x Hx%function_found_place Hx'%function_found_place. congruence.
  - intros d d' x [f Hx]%device_found_place [f' Hx']%device_found_place. congruence.
Qed.

(** C37: the enumeration through the legacy ports starts a driver exactly for the PCnet
    cards and AHCI controllers of the configuration space that it can reach, once each: on
    buses below 255 whose first device answers, at devices whose first function answers.
    The host bridge decodes the words of the command port by the bit fields of the PCI
    specification. *)
Theorem enumerate_legacy_spec (hw : HW) :
  (∀ k, cp_reg hw k = reg k) →
  ∃ found hw', enumerate_legacy legacy_get_device hw = Done (found, hw') ∧
    (∀ k, cp_reg hw' k = reg k) ∧ NoDup found ∧ ∀ x, x ∈ found ↔ starts x.
Proof.
  intros Hreg. assert (Hinv : @bs_inv HW legacy_get_device legacy_bus hw) by exact Hreg. unfold enumerate_legacy.
  destruct (for_each_ok legacy_get_device (λ s bus, enumerate_bus legacy_get_device s 0 bus)
              (bus_found legacy_get_device 0) (seqZ 0 255) hw Hinv) as (hw' & -> & Hreg').
  { intros s b Hs Hb%elem_of_seqZ. apply enumerate_bus_ok; (done || lia). }
  eexists _, hw'. split; [done|]. split; [done|]. split.
  - apply NoDup_concat_fmap; [apply NoDup_seqZ|intros; apply found_NoDup|].
    intros b b' x (d & f & Hx)%bus_found_place (d' & f' & Hx')%bus_found_place. congruence.
  - intros x. rewrite elem_of_concat_fmap. setoid_rewrite elem_of_seqZ. unfold bus_found, device_found.
    setoid_rewrite elem_of_found_if. setoid_rewrite elem_of_found_if. setoid_rewrite elem_of_seqZ.
    unfold function_found. split.
    + intros (b & Hb & H1 & d & Hd & H2 & f & Hf & Hx).
      destruct (function_present legacy_get_device 0 b d f) eqn:H3; [|set_solver].
      destruct (pcnet_at legacy_get_device 0 b d f) eqn:H4; [|destruct (ahci_at legacy_get_device 0 b d f) eqn:H5; [|set_solver]];
        apply list_elem_of_singleton in Hx as ->; cbn; split_and!; try (done || lia); by repeat constructor.
    + destruct x as [s b d f|s b d f]; intros (-> & (Hb & Hd & Hf) & Hp & Hr);
        apply Forall_cons in Hp as [H1 Hp]; apply Forall_cons in Hp as [H2 Hp]; apply Forall_cons in Hp as [H3 _];
        exists b; (split; [lia|]); (split; [done|]); exists d; (split; [lia|]); (split; [done|]); exists f;
        (split; [lia|]); rewrite H3.
      * rewrite Hr. left.
      * destruct Hr as [-> ->]. left.
Qed.
End legacy_bus.

(** ** A machine

    Registers that keep what is written; an AHCI controller at device 3 of bus 0
    behind a host bridge. *)
Record Host := mkHost { h_command : Z; h_regs : CfgIndex → Z }.

#[export] Instance host_ports : ConfigPorts Host := {|
  write_command hw a := mkHost a (h_regs hw);
  read_data hw :=
    if bit_field (h_command hw) 31 1 =? 1 then h_regs hw (cf_decode (h_command hw)) mod u32_lim else u32_lim - 1;
  write_data hw v :=
    if bit_field (h_command hw) 31 1 =? 1 then mkHost (h_command hw) (<[cf_decode (h_command hw) := v]> (h_regs hw)) else hw;
|}.

#[export, program] Instance host_ports_spec : ConfigPortsSpec Host := {|
  cp_reg hw k := h_regs hw k mod u32_lim;
  cp_keeps _ := True;
|}.
Next Obligation. intros. by apply Z.mod_pos_bound. Qed.
Next Obligation. done. Qed.
Next Obligation. intros hw a He. cbn [read_data write_command host_ports h_command h_regs]. by rewrite (proj2 (Z.eqb_eq _ _) He). Qed.
Next Obligation.
  intros hw a v k He _ Hv. cbn [write_data write_command host_ports h_command h_regs]. rewrite (proj2 (Z.eqb_eq _ _) He).
  cbn [h_regs]. case_decide as E.
  - rewrite E, fn_lookup_insert. by apply Z.mod_small.
  - by rewrite fn_lookup_insert_ne.
Qed.

Definition demo_regs (k : CfgIndex) : Z :=
  match k with
  | (0, 0, 0, 0) => 0x12378086            (* the host bridge of bus 0 *)
  | (0, 3, 0, 0) => 0x29228086            (* device 3 *)
  | (0, 3, 0, 8) => 0x01060102            (* its class, subclass and interface *)
  | _ => 0
  end.

Definition demo_host : Host := mkHost 0 demo_regs.

Lemma enumerate_legacy_spec_witness :
  ∃ found hw', enumerate_legacy legacy_get_device demo_host = Done (found, hw') ∧
    StartAHCI 0 0 3 0 ∈ found ∧ NoDup found.
Proof.
  destruct (enumerate_legacy_spec demo_regs demo_host) as (found & hw' & E & _ & Hnd & Hin).
  - intros k. apply Z.mod_small. unfold demo_regs, u32_lim. repeat case_match; lia.
  - exists found, hw'. split; [exact E|]. split; [|exact Hnd]. apply Hin. cbn [starts].
    split; [reflexivity|]. split; [lia|]. split; [repeat constructor; vm_compute; reflexivity|].
    split; vm_compute; reflexivity.
Defined.

Definition demo_base : Z := legacy_get_address 0 3 0.

#[local] Instance demo_legacy : WordSpec (legacy_read_u32 (HW := Host) demo_base) (legacy_write_u32 demo_base) :=
  legacy_words 0 3 0 ltac:(lia) ltac:(lia) ltac:(lia).

#[local] Instance demo_client :
  WordSpec (client_read_u32 (PCILegacyDevice (HW := Host) demo_base)) (client_write_u32 (PCILegacyDevice demo_base)) :=
  client_words _ _ (PCILegacyDevice demo_base) eq_refl eq_refl.

(** A driver of that device writes the interrupt line, the byte at 0x3C. *)
Lemma word_access_spec_witness :
  ∃ s', write_u8 (client_device (PCILegacyDevice demo_base)) demo_host 0x3C 11 = Done s' ∧
        stored (rd := client_read_u32 (PCILegacyDevice demo_base)) demo_host s' 0x3C 1 11.
Proof.
  destruct (word_access_spec (client_read_u32 (PCILegacyDevice demo_base)) (client_write_u32 (PCILegacyDevice demo_base))
              demo_host 0x3C) as (_ & _ & Hw & _); [exact I|lia|].
  apply (Hw 11); [exact I|lia].
Defined.
