(* ===== verification/Net.v ===== *)
(** * Networking

    [kernel_userspace/src/net.rs] (addresses and messages), [kernel/src/net] (ARP
    over Ethernet, the NETWORKING service), [net/src/main.rs] (the [net] command) and
    [amd_pcnet/src/main.rs] (the driver of the PCnet card: its descriptor rings).
    Frames are lists of bytes; the card's ports are a parameter. *)
From S2P Require Import Prelude.

(** ** Addresses *)
Inductive IPAddr := V4 (a b c d : Z).

#[export] Instance IPAddr_eq_dec : EqDecision IPAddr.
Proof. solve_decision. Defined.

#[export] Instance IPAddr_countable : Countable IPAddr.
Proof.
  apply (inj_countable' (λ '(V4 a b c d), (a, b, c, d)) (λ '(a, b, c, d), V4 a b c d)). by intros [].
Defined.

Record NotSameSubnetError := mkNotSame { ns_a : IPAddr; ns_b : IPAddr; ns_subnet : Z }.

Definition as_u8 (x : Z) : Z := x mod 256.

Definition ipv4_addr_from_net (ip : Z) : IPAddr :=
  V4 (as_u8 ip) (as_u8 (Z.shiftr ip 8)) (as_u8 (Z.shiftr ip 16)) (as_u8 (Z.shiftr ip 24)).

Definition as_net_be (ip : IPAddr) : Z :=
  let '(V4 a b c d) := ip in
  Z.lor (Z.lor (Z.lor a (Z.shiftl b 8)) (Z.shiftl c 16)) (Z.shiftl d 24).

(** The address as a number, the first octet most significant. *)
Definition ip_u32 (ip : IPAddr) : Z :=
  let '(V4 a b c d) := ip in
  Z.lor (Z.lor (Z.lor (Z.shiftl a 24) (Z.shiftl b 16)) (Z.shiftl c 8)) d.

Definition same_subnet (ip1 ip2 : IPAddr) (subnet : Z) : result unit NotSameSubnetError :=
  if Z.land (ip_u32 ip1) subnet =? Z.land (ip_u32 ip2) subnet then Ok tt
  else Err (mkNotSame ip1 ip2 subnet).

(** ** Headers

    [modular_bitfield] lays the fields out from the least significant bit of the
    first byte on; these structures have fields of whole bytes. *)
Record EthernetFrameHeader := mkEth { dst_mac_be : Z; src_mac_be : Z; ether_type_be : Z }.

Definition eth_bytes (h : EthernetFrameHeader) : list Z :=
  le_bytes 6 (dst_mac_be h) ++ le_bytes 6 (src_mac_be h) ++ le_bytes 2 (ether_type_be h).

Definition eth_of (l : list Z) : EthernetFrameHeader := mkEth (field l 0 6) (field l 6 6) (field l 12 2).

Record ARP := mkARP {
  hardware_type : Z; protocol : Z; hardware_addr_size : Z; protocol_addr_size : Z; operation : Z;
  src_mac : Z; src_ip : Z; dst_mac : Z; dst_ip : Z;
}.

Definition ARP_SIZE : nat := 28.

Definition arp_bytes (a : ARP) : list Z :=
  le_bytes 2 (hardware_type a) ++ le_bytes 2 (protocol a) ++ le_bytes 1 (hardware_addr_size a) ++
  le_bytes 1 (protocol_addr_size a) ++ le_bytes 2 (operation a) ++ le_bytes 6 (src_mac a) ++
  le_bytes 4 (src_ip a) ++ le_bytes 6 (dst_mac a) ++ le_bytes 4 (dst_ip a).

Definition arp_of (l : list Z) : ARP :=
  mkARP (field l 0 2) (field l 2 2) (field l 4 1) (field l 5 1) (field l 6 2)
    (field l 8 6) (field l 14 4) (field l 18 6) (field l 24 4).

(** [u16::to_be] on a little-endian machine. *)
Definition to_be16 (x : Z) : Z := (x mod 256) * 256 + x / 256.

Lemma to_be16_range x : 0 ≤ x < 2 ^ 16 → 0 ≤ to_be16 x < 2 ^ 16.
Proof.
  intros Hx. unfold to_be16. pose proof (Z.mod_pos_bound x 256). pose proof (Z.div_mod x 256).
  assert (0 ≤ x / 256 < 256); [|lia]. split; [apply Z.div_pos; lia|apply Z.div_lt_upper_bound; lia].
Qed.

(** ** ARP *)
Definition IP_ADDR : IPAddr := V4 10 0 2 15.
Definition SUBNET : Z := 0xFF0000.

Notation ArpTable := (gmap IPAddr Z) (only parsing).

(** [handle_ethernet_frame]. *)
Definition handle_ethernet_frame (t : ArpTable) (h : EthernetFrameHeader) (data : list Z) : outcome ArpTable :=
  if ether_type_be h =? 1544 then
    _ ← assert_ (bool_decide (ARP_SIZE ≤ length data)%nat);
    let arp := arp_of data in
    let t := if negb (src_mac arp =? 0xFFFFFF) && negb (src_mac arp =? 0)
             then <[ipv4_addr_from_net (src_ip arp) := src_mac arp]> t else t in
    Done (if negb (dst_mac arp =? 0xFFFFFF) && negb (dst_mac arp =? 0)
          then <[ipv4_addr_from_net (dst_ip arp) := dst_mac arp]> t else t)
  else Done t.

(** One round of [monitor_packets]. *)
Definition monitor_packet (t : ArpTable) (buffer : list Z) : outcome ArpTable :=
  _ ← assert_ (bool_decide (14 < length buffer)%nat);
  handle_ethernet_frame t (eth_of buffer) (drop 14 buffer).

(** The packet [send_arp] hands to the driver. *)
Definition arp_request (mac_addr : Z) (ip : IPAddr) : list Z :=
  eth_bytes (mkEth 0xFFFFFFFFFFFF mac_addr (to_be16 0x0806)) ++
  arp_bytes (mkARP (to_be16 1) (to_be16 0x0800) 6 4 (to_be16 1) mac_addr (as_net_be IP_ADDR) 0 (as_net_be ip)).

Definition send_arp (mac_addr : Z) (ip : IPAddr) : result (list Z) NotSameSubnetError :=
  match same_subnet IP_ADDR ip SUBNET with
  | Ok _ => Ok (arp_request mac_addr ip)
  | Err e => Err e
  end.

Inductive ArpResponse := Mac (mac : Z) | Pending (r : result unit NotSameSubnetError).

(** The NETWORKING service on [Networking::ArpRequest(ip)]: the response and the
    packet that is sent, if any. *)
Definition arp_service (t : ArpTable) (mac : Z) (ip : IPAddr) : ArpResponse * option (list Z) :=
  match t !! ip with
  | Some m => (Mac m, None)
  | None =>
      match send_arp mac ip with
      | Ok packet => (Pending (Ok tt), Some packet)
      | Err e => (Pending (Err e), None)
      end
  end.

(** [lookup_ip] of the [net] command. *)
Definition lookup_ip (resp : ArpResponse) : result (option Z) NotSameSubnetError :=
  match resp with
  | Mac mac => Ok (Some mac)
  | Pending (Ok _) => Ok None
  | Pending (Err e) => Err e
  end.

(** ** Correctness *)
Definition ip_ok (ip : IPAddr) : Prop :=
  let '(V4 a b c d) := ip in (0 ≤ a < 256 ∧ 0 ≤ b < 256) ∧ (0 ≤ c < 256 ∧ 0 ≤ d < 256).

Lemma as_net_be_val a b c d :
  ip_ok (V4 a b c d) → as_net_be (V4 a b c d) = a + 256 * (b + 256 * (c + 256 * d)).
Proof.
  intros [[Ha Hb] [Hc Hd]]. unfold as_net_be. rewrite !Z.shiftl_mul_pow2 by lia.
  rewrite (Z.lor_comm a), lor_low by lia.
  rewrite (Z.lor_comm _ (c * 2 ^ 16)), lor_low by lia.
  rewrite (Z.lor_comm _ (d * 2 ^ 24)), lor_low by lia. lia.
Qed.

(** An address survives the trip over the wire. *)
Lemma ip_roundtrip ip : ip_ok ip → ipv4_addr_from_net (as_net_be ip) = ip ∧ 0 ≤ as_net_be ip < 2 ^ 32.
Proof.
  destruct ip as [a b c d]. intros Hok. rewrite as_net_be_val by done. destruct Hok as [[Ha Hb] [Hc Hd]].
  split; [|lia]. unfold ipv4_addr_from_net, as_u8. rewrite !Z.shiftr_div_pow2 by lia.
  change (2 ^ 8) with 256. change (2 ^ 16) with (256 * 256). change (2 ^ 24) with (256 * (256 * 256)).
  rewrite <- !Z.div_div by lia.
  assert (Hdiv : ∀ x y, 0 ≤ x < 256 → (x + 256 * y) / 256 = y) by (intros; rewrite Z.mul_comm, Z.div_add, Z.div_small; lia).
  assert (Hmod : ∀ x y, 0 ≤ x < 256 → (x + 256 * y) mod 256 = x)
    by (intros; rewrite Z.mul_comm, Z.mod_add, Z.mod_small; lia).
  rewrite !Hdiv, !Hmod by lia. by rewrite Z.mod_small.
Qed.

Definition eth_ok (h : EthernetFrameHeader) : Prop :=
  0 ≤ dst_mac_be h < 2 ^ 48 ∧ 0 ≤ src_mac_be h < 2 ^ 48 ∧ 0 ≤ ether_type_be h < 2 ^ 16.

Definition arp_ok (a : ARP) : Prop :=
  (0 ≤ hardware_type a < 2 ^ 16 ∧ 0 ≤ protocol a < 2 ^ 16 ∧ 0 ≤ hardware_addr_size a < 2 ^ 8 ∧
   0 ≤ protocol_addr_size a < 2 ^ 8 ∧ 0 ≤ operation a < 2 ^ 16) ∧
  (0 ≤ src_mac a < 2 ^ 48 ∧ 0 ≤ src_ip a < 2 ^ 32 ∧ 0 ≤ dst_mac a < 2 ^ 48 ∧ 0 ≤ dst_ip a < 2 ^ 32).

(** The headers survive the trip over the wire. *)
Lemma eth_roundtrip h rest : eth_ok h → eth_of (eth_bytes h ++ rest) = h ∧ drop 14 (eth_bytes h ++ rest) = rest.
Proof.
  destruct h as [dm sm et]. intros (Hd & Hs & He). split; [|done]. unfold eth_of, field. f_equal.
  - exact (of_le_le_bytes 6 dm Hd).
  - exact (of_le_le_bytes 6 sm Hs).
  - exact (of_le_le_bytes 2 et He).
Qed.

Lemma arp_roundtrip a rest : arp_ok a → arp_of (arp_bytes a ++ rest) = a.
Proof.
  destruct a as [ht pr hs ps op sm si dm di]. intros ((H1 & H2 & H3 & H4 & H5) & H6 & H7 & H8 & H9).
  unfold arp_of, field. f_equal.
  - exact (of_le_le_bytes 2 ht H1).
  - exact (of_le_le_bytes 2 pr H2).
  - exact (of_le_le_bytes 1 hs H3).
  - exact (of_le_le_bytes 1 ps H4).
  - exact (of_le_le_bytes 2 op H5).
  - exact (of_le_le_bytes 6 sm H6).
  - exact (of_le_le_bytes 4 si H7).
  - exact (of_le_le_bytes 6 dm H8).
  - exact (of_le_le_bytes 4 di H9).
Qed.

(** What the host with address [ip] and card [mac] answers to a request. *)
Definition arp_reply (mac : Z) (ip : IPAddr) (req_mac : Z) (req_ip : IPAddr) : list Z :=
  eth_bytes (mkEth req_mac mac (to_be16 0x0806)) ++
  arp_bytes (mkARP (to_be16 1) (to_be16 0x0800) 6 4 (to_be16 2) mac (as_net_be ip) req_mac (as_net_be req_ip)).

(** A card's address that the table takes. *)
Definition mac_ok (mac : Z) : Prop := 0 < mac < 2 ^ 48 ∧ mac ≠ 0xFFFFFF.

Lemma monitor_arp t h a rest :
  eth_ok h → arp_ok a → ether_type_be h = to_be16 0x0806 → mac_ok (src_mac a) →
  dst_mac a = 0 ∨ mac_ok (dst_mac a) →
  monitor_packet t (eth_bytes h ++ arp_bytes a ++ rest) =
    Done (if decide (dst_mac a = 0) then <[ipv4_addr_from_net (src_ip a) := src_mac a]> t
          else <[ipv4_addr_from_net (dst_ip a) := dst_mac a]> (<[ipv4_addr_from_net (src_ip a) := src_mac a]> t)).
Proof.
  intros Hh Ha Het [Hs Hsf] Hd. unfold monitor_packet.
  destruct (eth_roundtrip h (arp_bytes a ++ rest) Hh) as [-> Edrop]. rewrite Edrop.
  rewrite bool_decide_true by (rewrite length_app; unfold eth_bytes; rewrite !length_app, !length_le_bytes;
    unfold arp_bytes; rewrite !length_app, !length_le_bytes; lia).
  cbn [assert_]. rewrite bind_ret. unfold handle_ethernet_frame. rewrite Het. change (to_be16 0x0806 =? 1544) with true. cbv iota.
  rewrite bool_decide_true by (rewrite length_app; unfold arp_bytes, ARP_SIZE; rewrite !length_app, !length_le_bytes; lia).
  cbn [assert_]. rewrite bind_ret, arp_roundtrip by done.
  rewrite (proj2 (Z.eqb_neq (src_mac a) 0xFFFFFF)), (proj2 (Z.eqb_neq (src_mac a) 0)) by lia. cbn [negb andb].
  destruct Hd as [->|[Hd1 Hd2]]; [done|].
  rewrite (proj2 (Z.eqb_neq (dst_mac a) 0xFFFFFF)), (proj2 (Z.eqb_neq (dst_mac a) 0)) by lia. cbn [negb andb].
  by rewrite decide_False by lia.
Qed.

(** ARP resolves addresses: an unknown address of the subnet makes the service
    broadcast a request that is well formed on the wire, and once the answer of the
    host with that address has come in, the service returns that host's card. *)
Theorem arp_resolves t mac ip host :
  mac_ok mac → mac_ok host → ip_ok ip → ip ≠ IP_ADDR → t !! ip = None →
  same_subnet IP_ADDR ip SUBNET = Ok tt →
  arp_service t mac ip = (Pending (Ok tt), Some (arp_request mac ip)) ∧
  eth_of (arp_request mac ip) = mkEth 0xFFFFFFFFFFFF mac (to_be16 0x0806) ∧
  (let a := arp_of (drop 14 (arp_request mac ip)) in
   src_mac a = mac ∧ ipv4_addr_from_net (src_ip a) = IP_ADDR ∧ ipv4_addr_from_net (dst_ip a) = ip ∧
   operation a = to_be16 1) ∧
  ∃ t', monitor_packet t (arp_reply host ip mac IP_ADDR) = Done t' ∧
    lookup_ip (fst (arp_service t' mac ip)) = Ok (Some host) ∧
    (∀ ip', ip' ≠ ip → ip' ≠ IP_ADDR → t' !! ip' = t !! ip').
Proof.
  intros Hm Hh Hip Hne Hnone Hsub. destruct (ip_roundtrip ip Hip) as [Eip Rip].
  pose proof Hm as [Hm1 _]. pose proof Hh as [Hh1 _].
  assert (Hme : ipv4_addr_from_net (as_net_be IP_ADDR) = IP_ADDR) by done.
  unfold arp_service, send_arp. rewrite Hnone, Hsub. split; [done|].
  assert (Hreq : eth_ok (mkEth 0xFFFFFFFFFFFF mac (to_be16 0x0806))) by (unfold eth_ok; cbn [dst_mac_be src_mac_be ether_type_be]; pose proof (to_be16_range 0x0806); lia).
  assert (Harp : ∀ op m1 i1 m2 i2, 0 ≤ op < 2 ^ 16 → 0 ≤ m1 < 2 ^ 48 → 0 ≤ i1 < 2 ^ 32 → 0 ≤ m2 < 2 ^ 48 → 0 ≤ i2 < 2 ^ 32 →
    arp_ok (mkARP (to_be16 1) (to_be16 0x0800) 6 4 op m1 i1 m2 i2))
    by (intros; pose proof (to_be16_range 1); pose proof (to_be16_range 0x0800); unfold arp_ok; cbn [hardware_type protocol hardware_addr_size protocol_addr_size operation src_mac src_ip dst_mac dst_ip]; lia).
  assert (Hlo : 0 ≤ as_net_be IP_ADDR < 2 ^ 32) by (vm_compute; split; congruence || done).
  unfold arp_request. destruct (eth_roundtrip (mkEth 0xFFFFFFFFFFFF mac (to_be16 0x0806))
    (arp_bytes (mkARP (to_be16 1) (to_be16 0x0800) 6 4 (to_be16 1) mac (as_net_be IP_ADDR) 0 (as_net_be ip))) Hreq) as [-> ->].
  split; [done|]. split.
  { rewrite <- (app_nil_r (arp_bytes _)), arp_roundtrip by (apply Harp; (apply to_be16_range || idtac); lia).
    cbv zeta. cbn [src_mac src_ip dst_ip operation]. by rewrite Hme, Eip. }
  unfold arp_reply. rewrite <- (app_nil_r (arp_bytes _)).
  rewrite monitor_arp; cbn [src_mac dst_mac src_ip dst_ip ether_type_be]; [|unfold eth_ok; cbn [dst_mac_be src_mac_be ether_type_be]; pose proof (to_be16_range 0x0806); lia|apply Harp; (apply to_be16_range || idtac); lia|done|done|by right].
  eexists. split; [done|]. rewrite decide_False, Hme, Eip by lia. split.
  - by rewrite lookup_insert_ne, lookup_insert_eq by congruence.
  - intros ip' H1 H2. by rewrite !lookup_insert_ne by congruence.
Qed.

(** The mask compares the second octet alone, and the broadcast address of a card is
    48 bits long, not 24. *)
Lemma subnet_mask_second_octet : same_subnet IP_ADDR (V4 99 0 7 7) SUBNET = Ok tt.
Proof. reflexivity. Qed.

Lemma broadcast_mac_learnt :
  match monitor_packet ∅ (arp_reply 0xFFFFFFFFFFFF (V4 10 0 2 2) 0x525400123456 IP_ADDR) with
  | Done t => t !! V4 10 0 2 2 = Some 0xFFFFFFFFFFFF
  | _ => False
  end.
Proof. vm_compute. reflexivity. Qed.

Lemma arp_resolves_witness :
  ∃ t', monitor_packet ∅ (arp_reply 0x525500000002 (V4 10 0 2 2) 0x525400123456 IP_ADDR) = Done t' ∧
    lookup_ip (fst (arp_service t' 0x525400123456 (V4 10 0 2 2))) = Ok (Some 0x525500000002).
Proof.
  destruct (arp_resolves ∅ 0x525400123456 (V4 10 0 2 2) 0x525500000002) as (_ & _ & _ & t' & E & Hl & _);
    [unfold mac_ok; lia|unfold mac_ok; lia|unfold ip_ok; lia|discriminate|reflexivity|reflexivity|].
  exists t'. exact (conj E Hl).
Defined.

(** ** The PCnet card *)
Module Pcnet.

Definition BUFFER_ENTRY_SIZE : Z := 2048.
(** [0xF000 | (0xFFF & (1 + !BUFFER_ENTRY_SIZE))]. *)
Definition BUFFER_SIZE_MASK : Z := Z.lor 0xF000 (Z.land 0xFFF (1 + (u32_lim - 1 - BUFFER_ENTRY_SIZE))).
Definition SEND_BUFFER_CNT_LOG : Z := 3.
Definition RECV_BUFFER_CNT_LOG : Z := 3.
Definition SEND_BUFFER_CNT : nat := 8.
Definition RECV_BUFFER_CNT : nat := 8.

Record BufferDescriptor := mkDesc { address : Z; flags : Z; flags_2 : Z; avail : Z }.

Definition OWN : Z := 0x80000000.

(** The card's ports, relative to its base. *)
Class CardIo (HW : Type) := {
  io_read : HW → Z → Z * HW;
  io_write : HW → Z → Z → HW;
}.

Section card.
Context {HW : Type} `{CardIo HW}.

Definition write_rap_32 (io : HW) (val : Z) : HW := io_write io 0x14 val.

Definition read_csr_32 (io : HW) (csr_no : Z) : Z * HW := io_read (write_rap_32 io csr_no) 0x10.

Definition write_csr_32 (io : HW) (csr_no val : Z) : HW := io_write (write_rap_32 io csr_no) 0x10 val.

Definition read_bcr_32 (io : HW) (bcr : Z) : Z * HW := io_read (write_rap_32 io bcr) 0x1C.

Definition write_bcr_32 (io : HW) (bcr val : Z) : HW := io_write (write_rap_32 io bcr) 0x1C val.

(** [reset_device]; the [yield_now] in the middle only lets time pass. *)
Definition reset_device (io : HW) : HW :=
  let '(_, io) := io_read io 0x18 in
  let '(_, io) := io_read io 0x14 in
  let io := io_write io 0x10 0 in
  let '(csr58, io) := read_csr_32 io 58 in
  let io := write_csr_32 io 58 (Z.lor (Z.land csr58 0xFF00) 2) in
  let '(bcr_2, io) := read_bcr_32 io 2 in
  write_bcr_32 io 2 (Z.lor bcr_2 2).

Definition read_mac_addr (io : HW) : Z * HW :=
  let '(mac, io) := io_read io 0 in
  let '(mac2, io) := io_read io 4 in
  (Z.lor (Z.shiftl (Z.land mac2 0xFFFF) 32) mac, io).
End card.

(** The driver: the rings, the positions of the two cyclic iterators, the channels
    that listen, and the memory of the buffers. *)
Record PCNET (HW : Type) := mkPCNET {
  io : HW;
  send_buffer_desc : list BufferDescriptor;
  send_buffer_pos : nat;
  recv_buffer_desc : list BufferDescriptor;
  revc_buffer_pos : nat;
  listeners : list Z;
  memory : Z → Z;
}.
Arguments mkPCNET {HW}.
Arguments io {HW}.
Arguments send_buffer_desc {HW}.
Arguments send_buffer_pos {HW}.
Arguments recv_buffer_desc {HW}.
Arguments revc_buffer_pos {HW}.
Arguments listeners {HW}.
Arguments memory {HW}.

(** [Cycle::next] over [0..n]. *)
Definition cycle_next (n pos : nat) : nat := if decide (S pos < n)%nat then S pos else O.

Definition read_mem (m : Z → Z) (a n : Z) : list Z := (λ i, m (a + i)) <$> seqZ 0 n.

(** [0x8300F000 | ((!len + 1) as u16 as u32)]. *)
Definition send_flags (len : Z) : outcome Z :=
  n ← add_u64 (not_u64 len) 1;
  Done (Z.lor 0x8300F000 (n mod u16_lim)).

Inductive SendError := BufferFull.

Section rings.
Context {HW : Type} `{CardIo HW}.

(** The loop of [send_packet] over the next [k] positions of the ring. *)
Fixpoint send_loop (k : nat) (c : PCNET HW) (data : list Z) : outcome (result unit SendError * PCNET HW) :=
  match k with
  | O => Done (Err BufferFull, c)
  | S k =>
      let buffer := send_buffer_pos c in
      let c := mkPCNET (io c) (send_buffer_desc c) (cycle_next (length (send_buffer_desc c)) buffer)
                 (recv_buffer_desc c) (revc_buffer_pos c) (listeners c) (memory c) in
      d ← index (send_buffer_desc c) buffer;
      if Z.land (flags d) OWN =? 0 then
        _ ← (if Z.of_nat (length data) <=? BUFFER_ENTRY_SIZE then Done tt else Panic PIndex);
        let m := store_bytes (memory c) (address d) data in
        f ← send_flags (Z.of_nat (length data));
        let ds := <[buffer := mkDesc (address d) f 0 0]> (send_buffer_desc c) in
        let '(tmp, hw) := read_csr_32 (io c) 0 in
        let hw := write_csr_32 hw 0 (Z.lor tmp 0x8) in
        Done (Ok tt, mkPCNET hw ds (send_buffer_pos c) (recv_buffer_desc c) (revc_buffer_pos c) (listeners c) m)
      else send_loop k c data
  end.

Definition send_packet (c : PCNET HW) (data : list Z) : outcome (result unit SendError * PCNET HW) :=
  send_loop (length (send_buffer_desc c)) c data.

(** [channel_write_rs] to a listener: [C] is the state of the channels. *)
Context {C : Type} (channel_write : C → Z → list Z → bool * C).

Fixpoint retain_listeners (ch : C) (packet : list Z) (ls : list Z) : list Z * C :=
  match ls with
  | [] => ([], ch)
  | l :: ls =>
      let '(ok, ch) := channel_write ch l packet in
      let '(ls, ch) := retain_listeners ch packet ls in
      (if (ok : bool) then l :: ls else ls, ch)
  end.

Definition has_packet (f : Z) : bool := (Z.land f 0x40000000 =? 0) && (0 <? Z.land f 0x03000000).

Fixpoint receive_loop (k : nat) (c : PCNET HW) (ch : C) : outcome (PCNET HW * C) :=
  match k with
  | O => Done (c, ch)
  | S k =>
      let buffer := revc_buffer_pos c in
      let pos := cycle_next (length (recv_buffer_desc c)) buffer in
      d ← index (recv_buffer_desc c) buffer;
      if Z.land (flags d) OWN =? 0 then
        let '(ls, ch) :=
          if has_packet (flags d)
          then retain_listeners ch (read_mem (memory c) (address d) (Z.land (flags_2 d) 0xFFFF)) (listeners c)
          else (listeners c, ch) in
        let ds := <[buffer := mkDesc (address d) (Z.lor OWN BUFFER_SIZE_MASK) 0 (avail d)]> (recv_buffer_desc c) in
        receive_loop k (mkPCNET (io c) (send_buffer_desc c) (send_buffer_pos c) ds pos ls (memory c)) ch
      else
        receive_loop k (mkPCNET (io c) (send_buffer_desc c) (send_buffer_pos c) (recv_buffer_desc c) pos (listeners c) (memory c)) ch
  end.

Definition receive (c : PCNET HW) (ch : C) : outcome (PCNET HW * C) :=
  receive_loop (length (recv_buffer_desc c)) c ch.

Definition with_io (c : PCNET HW) (hw : HW) : PCNET HW :=
  mkPCNET hw (send_buffer_desc c) (send_buffer_pos c) (recv_buffer_desc c) (revc_buffer_pos c) (listeners c) (memory c).

(** [interrupt_handler]: both branches on the "data received" bit check the ring;
    the rest of the status is printed. *)
Definition interrupt_handler (c : PCNET HW) (ch : C) : outcome (PCNET HW * C) :=
  let '(tmp, hw) := read_csr_32 (io c) 0 in
  let hw := write_csr_32 hw 0 (Z.land tmp (u32_lim - 1 - 0x40)) in
  '(c, ch) ← receive (with_io c hw) ch;
  Done (with_io c (write_csr_32 (io c) 0 0x40), ch).
End rings.

(** *** Bringing the card up *)
Record InitBlock := mkInit {
  mode : Z; num_send_buffers : Z; num_recv_buffers : Z; physical_address : Z; logical_address : Z;
  recv_buffer_desc_addr : Z; send_buffer_desc_addr : Z;
}.

(** 100 << 24 | 1 << 16 | 168 << 8 | 192. *)
Definition PCNET_IP_ADDR : Z := 0x6401A8C0.

Section new.
Context {HW : Type} `{CardIo HW}.
(** [mmap_page32], the system call: [U] is the state of the address space. *)
Context {U : Type} (mmap_page32 : U → outcome (Z * U)).

(** A page gives the buffers of two descriptors; their other fields are what the
    descriptor memory [ds] holds. *)
Fixpoint init_ring (u : U) (own : Z) (ds : list BufferDescriptor) : outcome (list BufferDescriptor * U) :=
  match ds with
  | d0 :: d1 :: ds =>
      '(buffer, u) ← mmap_page32 u;
      second ← add_u32 buffer 2048;
      '(ds, u) ← init_ring u own ds;
      let f := Z.lor BUFFER_SIZE_MASK own in
      Done (mkDesc buffer f (flags_2 d0) (avail d0) :: mkDesc second f (flags_2 d1) (avail d1) :: ds, u)
  | [d0] => Panic PIndex
  | [] => Done ([], u)
  end.

(** Wait for IDON. *)
Fixpoint wait_init (fuel : nat) (hw : HW) : outcome HW :=
  let '(csr0, hw) := read_csr_32 hw 0 in
  if Z.land csr0 (Z.shiftl 1 7) =? 0 then
    match fuel with
    | O => OutOfFuel
    | S fuel => let '(_, hw) := read_csr_32 hw 0 in wait_init fuel hw
    end
  else Done hw.

Definition assert_csr0 (hw : HW) (v : Z) : outcome HW :=
  let '(csr0, hw) := read_csr_32 hw 0 in _ ← assert_ (csr0 =? v); Done hw.

(** [PCNET::new]: [vendor], [device] and [port_base] are those of the PCI header,
    [send_mem] and [recv_mem] what the memory of the descriptors holds. *)
Definition PCNET_new {C} (channel_write : C → Z → list Z → bool * C) (fuel : nat) (vendor device : Z) (port_base : option Z)
    (u : U) (hw : HW) (ch : C) (memory : Z → Z) (send_mem recv_mem : list BufferDescriptor)
  : outcome (option (InitBlock * PCNET HW) * U * C) :=
  if negb ((vendor =? 0x1022) && (device =? 0x2000)) then Done (None, u, ch)
  else
    port ← unwrap port_base;
    _ ← (if port <? u16_lim then Done tt else Panic PUnwrap);
    let hw := reset_device hw in
    let '(mac, hw) := read_mac_addr hw in
    '(buffer, u) ← mmap_page32 u;
    let send_addr := buffer + 28 in
    let recv_addr := send_addr + 16 * Z.of_nat SEND_BUFFER_CNT in
    let init := mkInit 0 SEND_BUFFER_CNT_LOG RECV_BUFFER_CNT_LOG mac PCNET_IP_ADDR recv_addr send_addr in
    '(send_ring, u) ← init_ring u 0 send_mem;
    '(recv_ring, u) ← init_ring u OWN recv_mem;
    let hw := write_csr_32 hw 1 buffer in
    let hw := write_csr_32 hw 2 (Z.shiftr buffer 16) in
    let hw := write_csr_32 hw 0 1 in
    hw ← wait_init fuel hw;
    hw ← assert_csr0 hw 0x181;
    let hw := write_csr_32 hw 0 (Z.lor 2 0x40) in
    hw ← assert_csr0 hw 0x1F3;
    '(c, ch) ← interrupt_handler channel_write (mkPCNET hw send_ring 0 recv_ring 0 [] memory) ch;
    Done (Some (init, c), u, ch).
End new.

(** ** The ring order *)
Fixpoint positions (n pos k : nat) : list nat :=
  match k with O => [] | S k => pos :: positions n (cycle_next n pos) k end.

Lemma cycle_next_mod n pos : (pos < n)%nat → cycle_next n pos = ((pos + 1) mod n)%nat.
Proof.
  intros Hp. unfold cycle_next. case_decide.
  - by rewrite Nat.mod_small by lia; lia.
  - replace (pos + 1)%nat with n by lia. by rewrite Nat.Div0.mod_same.
Qed.

Lemma positions_eq n k : ∀ pos, (pos < n)%nat → positions n pos k = (λ i, (pos + i) mod n)%nat <$> seq 0 k.
Proof.
  induction k as [|k IH]; intros pos Hp; [done|]. cbn [positions seq].
  rewrite fmap_cons, Nat.add_0_r, Nat.mod_small by done. f_equal.
  rewrite cycle_next_mod, IH by (done || apply Nat.mod_upper_bound; lia).
  rewrite <- fmap_S_seq, <- list_fmap_compose. apply list_fmap_ext. intros i x _. cbn.
  rewrite Nat.Div0.add_mod_idemp_l. f_equal. lia.
Qed.

Lemma positions_NoDup n pos k : (pos < n)%nat → (k ≤ n)%nat → NoDup (positions n pos k).
Proof.
  intros Hp Hk. rewrite positions_eq by done. apply NoDup_fmap_2_strong; [|apply NoDup_seq].
  intros i j Hi%elem_of_seq Hj%elem_of_seq E.
  pose proof (Nat.div_mod_eq (pos + i) n). pose proof (Nat.div_mod_eq (pos + j) n). rewrite E in *.
  assert ((pos + i) / n = (pos + j) / n)%nat; [|nia].
  assert (Hq : ∀ x, (x < n)%nat → (pos + x = n * ((pos + x) / n) + (pos + x) mod n)%nat) by (intros; apply Nat.div_mod_eq).
  pose proof (Nat.mod_upper_bound (pos + j) n ltac:(lia)). nia.
Qed.

Lemma elem_of_positions n pos p : (pos < n)%nat → p ∈ positions n pos n ↔ (p < n)%nat.
Proof.
  intros Hp. rewrite positions_eq, list_elem_of_fmap by done. split.
  - intros (i & -> & _). apply Nat.mod_upper_bound. lia.
  - intros Hlt. destruct (decide (pos ≤ p)%nat).
    + exists (p - pos)%nat. rewrite elem_of_seq. replace (pos + (p - pos))%nat with p by lia.
      rewrite Nat.mod_small by done. lia.
    + exists (n + p - pos)%nat. rewrite elem_of_seq. replace (pos + (n + p - pos))%nat with (p + 1 * n)%nat by lia.
      rewrite Nat.Div0.mod_add, Nat.mod_small by done. lia.
Qed.

(** After a full turn the iterator is where it was. *)
Fixpoint turn (n pos k : nat) : nat :=
  match k with O => pos | S k => turn n (cycle_next n pos) k end.

Lemma turn_mod n k : ∀ pos, (pos < n)%nat → turn n pos k = ((pos + k) mod n)%nat.
Proof.
  induction k as [|k IH]; intros pos Hp; cbn [turn]; [by rewrite Nat.add_0_r, Nat.mod_small|].
  rewrite cycle_next_mod, IH, Nat.Div0.add_mod_idemp_l by (done || apply Nat.mod_upper_bound; lia). f_equal. lia.
Qed.

Lemma turn_full n pos : (pos < n)%nat → turn n pos n = pos.
Proof.
  intros Hp. rewrite turn_mod by done. replace (pos + n)%nat with (pos + 1 * n)%nat by lia.
  rewrite Nat.Div0.mod_add. by apply Nat.mod_small.
Qed.

Lemma cycle_next_lt n pos : (pos < n)%nat → (cycle_next n pos < n)%nat.
Proof. intros. unfold cycle_next. case_decide; lia. Qed.

(** ** Sending *)
Definition owned (d : BufferDescriptor) : bool := negb (Z.land (flags d) OWN =? 0).

(** Length [len] in the descriptor: the byte count is stored negated. *)
Definition sent_flags (len : Z) : Z := 0x83000000 + (u16_lim - len).

Definition send_flags_check (len : Z) : bool :=
  match send_flags len with Done f => f =? sent_flags len | _ => false end.

Lemma send_flags_ok len : 1 ≤ len ≤ BUFFER_ENTRY_SIZE → send_flags len = Done (sent_flags len).
Proof.
  intros Hl. assert (Hall : forallb send_flags_check (seqZ 1 2048) = true) by (vm_compute; reflexivity).
  rewrite forallb_forall in Hall. unfold BUFFER_ENTRY_SIZE in Hl.
  specialize (Hall len ltac:(apply list_elem_of_In, elem_of_seqZ; lia)). unfold send_flags_check in Hall.
  destruct (send_flags len) as [f| |]; try done. by apply Z.eqb_eq in Hall as ->.
Qed.

Lemma read_copied m a bs : read_mem (store_bytes m a bs) a (Z.of_nat (length bs)) = bs.
Proof.
  apply list_eq_same_length with (n := length bs); [done|unfold read_mem; by rewrite length_fmap, length_seqZ, Nat2Z.id|].
  intros i x y Hi Hx Hy. unfold read_mem in Hx. rewrite list_lookup_fmap, lookup_seqZ_lt in Hx by lia.
  cbn in Hx. injection Hx as <-. rewrite store_bytes_lookup, decide_True by lia.
  replace (Z.to_nat (a + (0 + Z.of_nat i) - a)) with i by lia. by apply list_lookup_total_correct.
Qed.

Section send.
Context {HW : Type} `{CardIo HW}.
Implicit Types c : PCNET HW.

Definition with_send (c : PCNET HW) hw ds pos m : PCNET HW :=
  mkPCNET hw ds pos (recv_buffer_desc c) (revc_buffer_pos c) (listeners c) m.

(** The card is told to look at the ring. *)
Definition transmit_demand (hw : HW) : HW :=
  let '(tmp, hw) := read_csr_32 hw 0 in write_csr_32 hw 0 (Z.lor tmp 0x8).

Lemma send_loop_ok data k : ∀ c,
  let n := length (send_buffer_desc c) in
  (send_buffer_pos c < n)%nat → 1 ≤ Z.of_nat (length data) ≤ BUFFER_ENTRY_SIZE →
  (∃ l1 p l2 d, positions n (send_buffer_pos c) k = l1 ++ p :: l2 ∧
     (∀ q, q ∈ l1 → ∃ e, send_buffer_desc c !! q = Some e ∧ owned e = true) ∧
     send_buffer_desc c !! p = Some d ∧ owned d = false ∧
     send_loop k c data = Done (Ok tt,
       with_send c (transmit_demand (io c))
         (<[p := mkDesc (address d) (sent_flags (Z.of_nat (length data))) 0 0]> (send_buffer_desc c))
         (cycle_next n p) (store_bytes (memory c) (address d) data))) ∨
  ((∀ q, q ∈ positions n (send_buffer_pos c) k → ∃ e, send_buffer_desc c !! q = Some e ∧ owned e = true) ∧
   send_loop k c data = Done (Err BufferFull,
     with_send c (io c) (send_buffer_desc c) (turn n (send_buffer_pos c) k) (memory c))).
Proof.
  induction k as [|k IH]; intros c n Hp Hl.
  { right. split; [set_solver|]. by destruct c. }
  destruct (lookup_lt_is_Some_2 _ _ Hp) as [d Hd]. cbn [send_loop positions]. cbn [send_buffer_desc].
  rewrite (proj2 (index_Done _ _ _) Hd), bind_ret. fold (owned d) in *.
  destruct (Z.land (flags d) OWN =? 0) eqn:Eo.
  - left. exists [], (send_buffer_pos c), (positions n (cycle_next n (send_buffer_pos c)) k), d.
    split; [done|]. split; [set_solver|]. split; [done|]. split; [unfold owned; by rewrite Eo|].
    rewrite (proj2 (Z.leb_le _ _)) by lia. rewrite bind_ret, send_flags_ok, bind_ret by done.
    unfold transmit_demand. cbn [memory io send_buffer_pos recv_buffer_desc revc_buffer_pos listeners].
    by destruct (read_csr_32 (io c) 0).
  - assert (Hod : owned d = true) by (unfold owned; by rewrite Eo).
    set (c' := mkPCNET _ _ _ _ _ _ _).
    destruct (IH c') as [(l1 & p & l2 & e & Hpos & Hown & He & Hoe & E)|[Hall E]]; [by apply cycle_next_lt|done|left|right].
    + exists (send_buffer_pos c :: l1), p, l2, e. cbn [send_buffer_desc send_buffer_pos c'] in *. fold n in Hpos.
      rewrite Hpos, E. split_and!; try done. intros q [->|Hq]%elem_of_cons; eauto.
    + cbn [send_buffer_desc send_buffer_pos c'] in *. fold n in Hall, E. rewrite E.
      split; [|done]. intros q [->|Hq]%elem_of_cons; eauto.
Qed.

(** A packet of up to 2048 bytes goes into the first descriptor of the ring, from
    the driver's position on, that the card does not own: its bytes are in that
    buffer, the descriptor says so and passes to the card, nothing else changes and
    the position moves past it; when the card owns all of them nothing changes at
    all. *)
Theorem send_packet_spec c data :
  let n := length (send_buffer_desc c) in
  (send_buffer_pos c < n)%nat → 1 ≤ Z.of_nat (length data) ≤ BUFFER_ENTRY_SIZE →
  (∃ l1 p l2 d m, positions n (send_buffer_pos c) n = l1 ++ p :: l2 ∧
     (∀ q, q ∈ l1 → ∃ e, send_buffer_desc c !! q = Some e ∧ owned e = true) ∧
     send_buffer_desc c !! p = Some d ∧ owned d = false ∧
     send_packet c data = Done (Ok tt,
       with_send c (transmit_demand (io c))
         (<[p := mkDesc (address d) (sent_flags (Z.of_nat (length data))) 0 0]> (send_buffer_desc c))
         (cycle_next n p) m) ∧
     read_mem m (address d) (Z.of_nat (length data)) = data ∧
     ∀ x, ¬ (address d ≤ x < address d + Z.of_nat (length data)) → m x = memory c x) ∨
  (Forall (λ d, owned d = true) (send_buffer_desc c) ∧ send_packet c data = Done (Err BufferFull, c)).
Proof.
  intros n Hp Hl. unfold send_packet. fold n.
  destruct (send_loop_ok data n c Hp Hl) as [(l1 & p & l2 & d & Hpos & Hown & Hd & Hod & E)|[Hall E]].
  - fold n in Hpos, E. left. eexists l1, p, l2, d, _. split; [done|]. split; [done|]. split; [done|]. split; [done|]. split; [exact E|].
    split; [apply read_copied|]. intros x Hx. by rewrite store_bytes_lookup, decide_False.
  - fold n in Hall, E. right. split.
    + apply Forall_lookup. intros q e He. destruct (Hall q) as (e' & He' & ?); [|congruence].
      apply elem_of_positions; [done|]. by eapply lookup_lt_Some.
    + rewrite E. rewrite turn_full by done. by destruct c.
Qed.

(** ** Receiving *)
Context {C : Type} (channel_write : C → Z → list Z → bool * C).

(** The reference: the packets in the ring are sent to the listeners one after the
    other, in the order of the ring. *)
Definition packet_of (m : Z → Z) (d : BufferDescriptor) : option (list Z) :=
  if owned d then None
  else if has_packet (flags d) then Some (read_mem m (address d) (Z.land (flags_2 d) 0xFFFF)) else None.

Definition deliver (st : list Z * C) (o : option (list Z)) : list Z * C :=
  match o with Some packet => retain_listeners channel_write (snd st) packet (fst st) | None => st end.

Definition refill (d : BufferDescriptor) : BufferDescriptor :=
  if owned d then d else mkDesc (address d) (Z.lor OWN BUFFER_SIZE_MASK) 0 (avail d).

Definition with_recv (c : PCNET HW) ds pos ls : PCNET HW :=
  mkPCNET (io c) (send_buffer_desc c) (send_buffer_pos c) ds pos ls (memory c).

Lemma receive_loop_ok k : ∀ c ch,
  let n := length (recv_buffer_desc c) in
  let P := positions n (revc_buffer_pos c) k in
  (revc_buffer_pos c < n)%nat → (k ≤ n)%nat →
  let r := foldl (λ st p, deliver st (recv_buffer_desc c !! p ≫= packet_of (memory c))) (listeners c, ch) P in
  receive_loop channel_write k c ch =
    Done (with_recv c (imap (λ p d, if decide (p ∈ P) then refill d else d) (recv_buffer_desc c))
            (turn n (revc_buffer_pos c) k) (fst r), snd r).
Proof.
  induction k as [|k IH]; intros c ch n P Hp Hk.
  { cbn. f_equal. f_equal. destruct c as [? ? ? ds ? ? ?]. unfold with_recv. cbn. f_equal.
    symmetry. rewrite <- (list_fmap_id ds) at 2. rewrite <- imap_const. apply imap_ext. intros i d _.
    by rewrite decide_False by set_solver. }
  destruct (lookup_lt_is_Some_2 _ _ Hp) as [d Hd].
  pose proof (positions_NoDup n (revc_buffer_pos c) (S k) Hp Hk) as Hnd. cbn [positions] in Hnd.
  apply NoDup_cons in Hnd as [Hnin _].
  cbn [receive_loop]. rewrite (proj2 (index_Done _ _ _) Hd), bind_ret. fold n.
  assert (Hgen : ∀ ds ls ch', ds = <[revc_buffer_pos c := refill d]> (recv_buffer_desc c) →
    (ls, ch') = deliver (listeners c, ch) (packet_of (memory c) d) →
    receive_loop channel_write k (with_recv c ds (cycle_next n (revc_buffer_pos c)) ls) ch' =
    Done (with_recv c (imap (λ p d, if decide (p ∈ P) then refill d else d) (recv_buffer_desc c))
            (turn n (revc_buffer_pos c) (S k))
            (fst (foldl (λ st p, deliver st (recv_buffer_desc c !! p ≫= packet_of (memory c))) (listeners c, ch) P)),
          snd (foldl (λ st p, deliver st (recv_buffer_desc c !! p ≫= packet_of (memory c))) (listeners c, ch) P))).
  { intros ds ls ch' Eds Els. rewrite IH; cbn [with_recv recv_buffer_desc revc_buffer_pos listeners memory];
      rewrite ?Eds, ?length_insert; fold n; [|by apply cycle_next_lt|lia].
    assert (Efold : ∀ st P', revc_buffer_pos c ∉ P' →
      foldl (λ st p, deliver st (<[revc_buffer_pos c := refill d]> (recv_buffer_desc c) !! p ≫= packet_of (memory c))) st P' =
      foldl (λ st p, deliver st (recv_buffer_desc c !! p ≫= packet_of (memory c))) st P').
    { intros st P'. revert st. induction P' as [|q P' IHP]; intros st Hq; [done|]. cbn.
      rewrite list_lookup_insert_ne by set_solver. apply IHP. set_solver. }
    rewrite Efold by done. unfold P. cbn [positions foldl]. rewrite Hd. cbn [mbind option_bind]. rewrite <- Els.
    f_equal. f_equal. unfold with_recv. cbn. f_equal. apply list_eq. intros q. rewrite !list_lookup_imap.
    destruct (decide (q = revc_buffer_pos c)) as [->|Hq].
    - rewrite list_lookup_insert_eq, Hd by done. cbn. rewrite decide_False, decide_True by (done || left). done.
    - rewrite list_lookup_insert_ne by done. destruct (recv_buffer_desc c !! q); [|done]. cbn. f_equal.
      apply decide_ext. rewrite elem_of_cons. naive_solver. }
  unfold packet_of, refill, owned in Hgen. destruct (Z.land (flags d) OWN =? 0) eqn:Eo; cbn [negb] in Hgen.
  - destruct (has_packet (flags d)) eqn:Ehp.
    + destruct (retain_listeners _ _ _ _) as [ls ch'] eqn:Er. apply Hgen; [done|]. by rewrite <- Er.
    + by apply Hgen.
  - apply Hgen; [|done]. by rewrite list_insert_id.
Qed.

(** Checking the receive ring equals sending the packets of the descriptors the
    card has filled, in ring order from the driver's position, to the listeners, and
    forgetting a listener whose channel is gone; afterwards the card owns every
    descriptor and the position has not moved. *)
Theorem receive_spec c ch :
  let ds := recv_buffer_desc c in
  let P := positions (length ds) (revc_buffer_pos c) (length ds) in
  (revc_buffer_pos c < length ds)%nat →
  let r := foldl (λ st p, deliver st (ds !! p ≫= packet_of (memory c))) (listeners c, ch) P in
  receive channel_write c ch =
    Done (with_recv c (refill <$> ds) (revc_buffer_pos c) (fst r), snd r) ∧
  Forall (λ d, owned d = true) (refill <$> ds).
Proof.
  intros ds P Hp. cbv zeta. unfold receive. rewrite receive_loop_ok by (done || fold ds; lia). fold ds. fold P.
  rewrite turn_full by done. split.
  - f_equal. f_equal. unfold with_recv. f_equal. apply list_eq. intros q. rewrite list_lookup_imap, list_lookup_fmap.
    destruct (ds !! q) eqn:Eq; [|done]. cbn. rewrite decide_True; [done|].
    apply elem_of_positions; [done|]. by eapply lookup_lt_Some.
  - apply Forall_fmap, Forall_true. intros d. unfold compose, refill. destruct (owned d) eqn:Eo; [done|]. reflexivity.
Qed.
End send.

(** A card whose ports do nothing, with one free and one filled descriptor. *)
#[local] Instance demo_io : CardIo unit := {| io_read _ _ := (0, tt); io_write _ _ _ := tt |}.

Definition demo_card : PCNET unit :=
  mkPCNET tt [mkDesc 0x1000 (Z.lor OWN 0xF800) 0 0; mkDesc 0x1800 0xF800 0 0] 0
    [mkDesc 0x2000 0x03000000 4 0; mkDesc 0x2800 (Z.lor OWN 0xF800) 0 0] 0 [7] (λ _, 1).

Lemma send_packet_spec_witness :
  ∃ c' m, send_packet demo_card [1; 2; 3] = Done (Ok tt, c') ∧ memory c' = m ∧ read_mem m 0x1800 3 = [1; 2; 3].
Proof.
  destruct (send_packet_spec demo_card [1; 2; 3]) as [(l1 & p & l2 & d & m & Hpos & Hown & Hd & Hod & E & Hm & _)|[Hall _]];
    [cbn; lia|unfold BUFFER_ENTRY_SIZE; cbn; lia| |].
  - destruct p as [|[|p]]; cbn in Hd; [|injection Hd as <-|discriminate].
    + injection Hd as <-. vm_compute in Hod. discriminate.
    + eexists _, m. split; [exact E|]. split; [reflexivity|exact Hm].
  - apply Forall_cons in Hall as [_ Hall]. apply Forall_cons in Hall as [Hall _]. vm_compute in Hall. discriminate.
Defined.

(** The listener's channel records the packets. *)
Definition demo_write (ch : list (list Z)) (l : Z) (packet : list Z) : bool * list (list Z) := (true, ch ++ [packet]).

Lemma receive_spec_witness :
  ∃ c', receive demo_write demo_card [] = Done (c', [[1; 1; 1; 1]]) ∧ Forall (λ d, owned d = true) (recv_buffer_desc c').
Proof.
  destruct (receive_spec demo_write demo_card []) as [E Hf]; [cbn; lia|].
  eexists. split; [exact E|exact Hf].
Defined.
End Pcnet.
