(* ===== verification/Loader.v ===== *)
(** * Programs: ELF files and new processes

    [kernel_userspace/src/elf.rs] (the ELF structures and their validation),
    [kernel/src/elf.rs] (loading a file into a new process) and [Process::new] of
    [kernel/src/scheduling/process.rs].  The file is the memory from [data.as_ptr()]
    on, a total function: the loader never looks at the length of the slice.

    The loader and the new process map the same pages of a segment; the copy stores each
    byte once, at an address of the loader, and [alias] says at which other addresses
    that byte is seen.  [elf_header_ok] states what the ELF specification asks of the
    first bytes of the file. *)
From S2P Require Import Prelude Page PhysMem AllocIface PageAlloc PageTable PageMapper Sched Ipc Syscall.

(** ** The file format *)
Record Elf64Ehdr := mkEhdr {
  e_ident : list Z;
  e_type : Z; e_machine : Z; e_version : Z; e_entry : Z; e_phoff : Z; e_shoff : Z; e_flags : Z;
  e_ehsize : Z; e_phentsize : Z; e_phnum : Z; e_shentsize : Z; e_shnum : Z; e_shstrndx : Z;
}.

Record Elf64Phdr := mkPhdr {
  p_type : Z; p_flags : Z; p_offset : Z; p_vaddr : Z; p_paddr : Z; p_filesz : Z; p_memsz : Z; p_align : Z;
}.

Definition ELFCLASS64 : Z := 2.
Definition ELFDATA2LSB : Z := 1.
Definition ET_EXEC : Z := 2.
Definition EM_X86_64 : Z := 62.
Definition PT_LOAD : Z := 1.
Definition ELF_HEADER_SIG : list Z := [0x7F; 0x45; 0x4C; 0x46; ELFCLASS64; ELFDATA2LSB].

(** The bytes from [data.as_ptr()] on. *)
Definition Image : Type := Z → Z.

Definition bytes_at (data : Image) (o n : Z) : list Z := (λ i, data (o + i)) <$> seqZ 0 n.
Definition num_at (data : Image) (o n : Z) : Z := of_le_bytes (bytes_at data o n).

(** The pointer casts to the packed structures. *)
Definition ehdr_at (data : Image) (o : Z) : Elf64Ehdr :=
  let f i n := num_at data (o + i) n in
  mkEhdr (bytes_at data o 16) (f 16 2) (f 18 2) (f 20 4) (f 24 8) (f 32 8) (f 40 8) (f 48 4)
    (f 52 2) (f 54 2) (f 56 2) (f 58 2) (f 60 2) (f 62 2).

Definition phdr_at (data : Image) (o : Z) : Elf64Phdr :=
  let f i n := num_at data (o + i) n in
  mkPhdr (f 0 4) (f 4 4) (f 8 8) (f 16 8) (f 24 8) (f 32 8) (f 40 8) (f 48 8).

Inductive LoadElfError :=
  | ElfHeaderSigInvalid (sig : list Z)
  | EType (t : Z)
  | EMachine (m : Z)
  | ElfVersion (v : Z)
  | InternalError.

Definition validate_elf_header (h : Elf64Ehdr) : result unit LoadElfError :=
  if negb (bool_decide (take 6 (e_ident h) = ELF_HEADER_SIG)) then Err (ElfHeaderSigInvalid (take 6 (e_ident h)))
  else if negb (e_type h =? ET_EXEC) then Err (EType (e_type h))
  else if negb (e_machine h =? EM_X86_64) then Err (EMachine (e_machine h))
  else if negb (e_version h =? 1) then Err (ElfVersion (e_version h))
  else Ok tt.

(** The offsets of the program headers the loader visits:
    [(e_phoff..(e_phnum * e_phentsize)).step_by(e_phentsize)], the product in [u16]. *)
Definition header_offsets (h : Elf64Ehdr) : outcome (list Z) :=
  end_ ← mul_u16 (e_phnum h) (e_phentsize h);
  _ ← assert_ (negb (e_phentsize h =? 0));
  Done ((λ i, e_phoff h + Z.of_nat i * e_phentsize h) <$>
          seq 0 (Z.to_nat ((end_ - e_phoff h + e_phentsize h - 1) / e_phentsize h))).

(** [ElfSegmentFlags::from_bits_truncate(flags).to_mapping_flags()]. *)
Definition PF_W : Z := 0x2.
Definition to_mapping_flags (flags : Z) : MemoryMappingFlags :=
  mkFlags (Z.land (Z.land flags 7) PF_W =? PF_W) true.

(** ** [Process::new] *)
Section loader.
Context (off : Z).
#[local] Instance loader_allocator : PageAllocator PageFrameAllocator := pfa_allocator off.

Definition arc_clone (st : ArcStore) (id : nat) : outcome ArcStore :=
  match arcs st !! id with
  | Some c => Done (mkStore (<[id := mkArc (S (strong c)) (value c)]> (arcs st)) (next_arc st))
  | None => Panic PUnreachable
  end.

Definition clone_mapping (id : nat) : sys unit := on_vm (λ '(s, st), st ← arc_clone st id; Done (tt, (s, st))).

(** [insert_mapping_at_set(base, mapping.clone(), WRITEABLE).unwrap()]. *)
Definition map_device (v : vm_world (A := PageFrameAllocator)) (pm : PageMapperManager) (base : Z) (id : nat)
  : outcome (PageMapperManager * vm_world (A := PageFrameAllocator)) :=
  let '(s, st) := v in
  st ← arc_clone st id;
  '(o, (pm, v)) ← insert_mapping_at_set off (s, st) pm base id flags_writeable;
  _ ← unwrap o;
  Done (pm, v).

(** [apic] and [hpet] are the shared mappings [APIC_LOCATION] and, once the timer is
    initialised, [HPET_LOCATION].  The caller has the one [Arc] of the new process. *)
Definition process_new (g : GlobalMaps) (apic : nat) (hpet : option (Z * nat)) (kernel : bool) (args : list Z) : sys nat :=
  pm ← on_vm (λ '(s, st), '(pm, s) ← PageMapperManager_new off g s; Done (pm, (s, st)));
  pm ← on_vm (λ v, map_device v pm 0xfee00000 apic);
  pm ← (match hpet with
        | Some (base, id) => on_vm (λ v, map_device v pm base id)
        | None => mret pm
        end);
  p ← on_k (λ k, let p := k_next k in
                 let k := clone_value k (VProcess p) in
                 Done (p, upd_next (set_proc k p (mkProc ∅ 0 args (mkRefs ∅ 1) NotExitedYet KObjectSignal_new)) (S p)));
  _ ← set_memory p (mkPMem_ pm [] kernel);
  mret p.

(** ** Loading

    [align_down] and [align_up] are those of the [x86_64] crate. *)
Context (align_down align_up : Z → Z → outcome Z).

(** A page fault on each page of a copy into the loader's own address space. *)
Fixpoint touch_pages (p : nat) (pages : list Z) : sys unit :=
  match pages with
  | [] => mret tt
  | a :: pages =>
      r ← on_mapper p (λ v pm, '(r, v) ← page_fault_handler off v pm a; Done (r, (pm, v)));
      match r with
      | Some _ => touch_pages p pages
      | None => pure (Panic PUnreachable)
      end
  end.

(** The pages of [n] bytes at [a]. *)
Definition pages_of_range (a n : Z) : list Z :=
  if n <=? 0 then [] else
  (λ i, (a / 0x1000 + i) * 0x1000) <$> seqZ 0 ((a + n - 1) / 0x1000 - a / 0x1000 + 1).

(** Fresh pages read as zeros. *)
Definition zero_range (u : UserMem) (a n : Z) : UserMem :=
  mkUser (λ x, if (a <=? x) && (x <? a + n) then 0 else u_word u x)
         (λ x, if (a <=? x) && (x <? a + n) then 0 else u_byte u x).

(** Memory that is mapped more than once: which byte of which mapping process [q] has at
    address [x]. *)
Definition alias (w : World) (q : nat) (x : Z) : option (nat * Z) :=
  m ← w_mem w !! q;
  r ← find (λ r, (r_start r <=? x) && (x <? r_end r)) (mappings (pm_mapper m));
  Some (r_arc r, x - r_start r).

(** A byte that process [q] stores at [x] is seen by every process, at every address that
    has the same byte of the same mapping. *)
Definition store_byte (w : World) (q : nat) (x b : Z) : World :=
  match alias w q x with
  | None => w
  | Some k =>
      mkWorld (w_k w) (w_vm w) (w_mem w)
        (λ q', mkUser (u_word (w_user w q'))
                 (λ x', if decide (alias w q' x' = Some k) then b else u_byte (w_user w q') x'))
        (w_now w)
  end.

Fixpoint copy_bytes (w : World) (q : nat) (dst : Z) (bytes : list Z) : World :=
  match bytes with
  | [] => w
  | b :: bytes => copy_bytes (store_byte w q dst b) q (dst + 1) bytes
  end.

(** [copy_nonoverlapping], run by process [q]. *)
Definition copy_nonoverlapping (q : nat) (dst : Z) (bytes : list Z) : sys unit :=
  λ w, Done (Ok tt, copy_bytes w q dst bytes).

(** One [PT_LOAD] segment: mapped into the new process [p] and, for the copy, into
    the loader's process [this], each of which then sees the fresh pages there. *)
Definition load_segment (this p : nat) (data : Image) (h : Elf64Phdr) : sys (result unit LoadElfError) :=
  vstart ← pure (align_down (p_vaddr h) 0x1000);
  vlast ← pure (add_u64 (p_vaddr h) (p_memsz h));
  vend ← pure (align_up vlast 0x1000);
  size ← pure (sub_u64 vend vstart);
  mem ← on_vm (λ v, new_lazy v size);
  _ ← clone_mapping mem;
  o ← on_mapper p (λ v pm, insert_mapping_at v pm vstart mem (to_mapping_flags (p_flags h)));
  match o with
  | None =>
      _ ← on_vm (λ v, v ← arc_drop v mem; Done (tt, v));
      mret (Err InternalError)
  | Some _ =>
      base ← on_mapper this (λ v pm, insert_mapping v pm mem flags_all);
      _ ← on_user p (λ u, zero_range u vstart size);
      _ ← on_user this (λ u, zero_range u base size);
      dst ← pure (add_u64 base (Z.land (p_vaddr h) 0xFFF));
      _ ← touch_pages this (pages_of_range dst (p_filesz h));
      let bytes := bytes_at data (p_offset h) (p_filesz h) in
      _ ← copy_nonoverlapping this dst bytes;
      end_ ← pure (add_u64 base size);
      r ← on_mapper this (λ v pm, free_mapping off v pm base end_);
      _ ← pure (match r with Ok _ => Done tt | Err _ => Panic PUnwrap end);
      mret (Ok tt)
  end.

Fixpoint load_segments (this p : nat) (data : Image) (offsets : list Z) : sys (result unit LoadElfError) :=
  match offsets with
  | [] => mret (Ok tt)
  | o :: offsets =>
      let h := phdr_at data o in
      if p_type h =? PT_LOAD then
        r ← load_segment this p data h;
        match r with
        | Ok _ => load_segments this p data offsets
        | Err e => mret (Err e)
        end
      else load_segments this p data offsets
  end.

(** The initial references: the loader must hold them. *)
Fixpoint give_references (this p : nat) (ids : list Z) : sys unit :=
  match ids with
  | [] => mret tt
  | id :: ids =>
      _ ← on_k_ (λ k, o ← get_value k this id; v ← unwrap o;
                      '(_, k) ← add_value (clone_value k v) p v; Done k);
      give_references this p ids
  end.

(** [load_elf], called by thread [t]; [start] is the address of [start_new_task]. *)
Definition load_elf (g : GlobalMaps) (apic : nat) (hpet : option (Z * nat)) (start : Z) (t : nat)
    (data : Image) (args references : list Z) (kernel : bool) : sys (result nat LoadElfError) :=
  let h := ehdr_at data 0 in
  match validate_elf_header h with
  | Err e => mret (Err e)
  | Ok _ =>
      p ← process_new g apic hpet kernel args;
      this ← current_process t;
      _ ← give_references this p references;
      offsets ← pure (header_offsets h);
      r ← load_segments this p data offsets;
      match r with
      | Err e => _ ← on_k_ (λ k, drop_kernel_value k (VProcess p)); mret (Err e)
      | Ok _ =>
          th ← new_thread off start p;
          _ ← on_k_ (λ k, Done (upd_registered k ({[p]} ∪ PROCESSES k)));
          th ← pure (unwrap th);
          _ ← on_k_ (λ k, s ← queue_thread (k_sd k) th; Done (upd_sd k s));
          mret (Ok p)
      end
  end.
End loader.

(** ** The program headers *)

(** The loader visits the program headers that start below
    [e_phnum * e_phentsize], an offset that leaves out where the table starts: in a
    file laid out as linkers do it, with the table behind the 64-byte header, the
    last of the 56-byte program headers is never looked at. *)
Theorem load_elf_skips_last_header h :
  e_phoff h = 64 → e_phentsize h = 56 → 1 ≤ e_phnum h ≤ 1170 →
  header_offsets h = Done ((λ i, 64 + Z.of_nat i * 56) <$> seq 0 (Z.to_nat (e_phnum h - 1))).
Proof.
  intros Hoff Hsz Hn. unfold header_offsets. rewrite Hoff, Hsz. unfold mul_u16.
  rewrite chk_ok, bind_ret by (unfold u16_lim; lia). cbn [Z.eqb negb assert_]. rewrite bind_ret.
  do 4 f_equal. symmetry. apply (Z.div_unique _ _ _ 47); lia.
Qed.

Lemma load_elf_skips_last_header_witness :
  header_offsets (mkEhdr [] 2 62 1 0x401000 64 0 0 64 56 3 0 0 0) = Done [64; 120].
Proof. apply (load_elf_skips_last_header (mkEhdr [] 2 62 1 0x401000 64 0 0 64 56 3 0 0 0)); cbn; lia. Defined.

(** ** The structures in the file *)
Definition image_of (l : list Z) : Image := λ o, l !!! Z.to_nat o.

Definition ehdr_bytes (h : Elf64Ehdr) : list Z :=
  e_ident h ++ le_bytes 2 (e_type h) ++ le_bytes 2 (e_machine h) ++ le_bytes 4 (e_version h) ++
  le_bytes 8 (e_entry h) ++ le_bytes 8 (e_phoff h) ++ le_bytes 8 (e_shoff h) ++ le_bytes 4 (e_flags h) ++
  le_bytes 2 (e_ehsize h) ++ le_bytes 2 (e_phentsize h) ++ le_bytes 2 (e_phnum h) ++
  le_bytes 2 (e_shentsize h) ++ le_bytes 2 (e_shnum h) ++ le_bytes 2 (e_shstrndx h).

Definition phdr_bytes (h : Elf64Phdr) : list Z :=
  le_bytes 4 (p_type h) ++ le_bytes 4 (p_flags h) ++ le_bytes 8 (p_offset h) ++ le_bytes 8 (p_vaddr h) ++
  le_bytes 8 (p_paddr h) ++ le_bytes 8 (p_filesz h) ++ le_bytes 8 (p_memsz h) ++ le_bytes 8 (p_align h).

Definition fits (n v : Z) : Prop := 0 ≤ v < 2 ^ (8 * n).

Definition ehdr_ok (h : Elf64Ehdr) : Prop :=
  length (e_ident h) = 16%nat ∧
  (fits 2 (e_type h) ∧ fits 2 (e_machine h) ∧ fits 4 (e_version h) ∧ fits 8 (e_entry h) ∧ fits 8 (e_phoff h)) ∧
  (fits 8 (e_shoff h) ∧ fits 4 (e_flags h) ∧ fits 2 (e_ehsize h) ∧ fits 2 (e_phentsize h) ∧ fits 2 (e_phnum h)) ∧
  (fits 2 (e_shentsize h) ∧ fits 2 (e_shnum h) ∧ fits 2 (e_shstrndx h)).

Definition phdr_ok (h : Elf64Phdr) : Prop :=
  (fits 4 (p_type h) ∧ fits 4 (p_flags h) ∧ fits 8 (p_offset h) ∧ fits 8 (p_vaddr h)) ∧
  (fits 8 (p_paddr h) ∧ fits 8 (p_filesz h) ∧ fits 8 (p_memsz h) ∧ fits 8 (p_align h)).

Lemma bytes_at_image l o n :
  (o + n ≤ length l)%nat → bytes_at (image_of l) (Z.of_nat o) (Z.of_nat n) = take n (drop o l).
Proof.
  intros Hn. apply list_eq. intros i. unfold bytes_at. rewrite list_lookup_fmap.
  destruct (decide (i < n)%nat).
  - rewrite lookup_seqZ_lt, lookup_take_lt, lookup_drop by lia. cbn. unfold image_of.
    replace (Z.to_nat (Z.of_nat o + (0 + Z.of_nat i))) with (o + i)%nat by lia.
    destruct (lookup_lt_is_Some_2 l (o + i)) as [x Hx]; [lia|]. by rewrite Hx, (list_lookup_total_correct _ _ _ Hx).
  - rewrite lookup_seqZ_ge, lookup_take_ge by lia. done.
Qed.

(** A field of a structure that stands behind [pre]. *)
Lemma num_at_field pre l i n :
  (i + n ≤ length l)%nat →
  num_at (image_of (pre ++ l)) (Z.of_nat (length pre) + Z.of_nat i) (Z.of_nat n) = field l i n.
Proof.
  intros Hn. unfold num_at. rewrite <- Nat2Z.inj_add, bytes_at_image by (rewrite length_app; lia).
  unfold field. rewrite drop_app_add. done.
Qed.

(** The structures of an ELF file are read back as they were written: a program
    header anywhere in the file, and the file header at its start. *)
Theorem elf_headers_roundtrip eh ph pre rest :
  ehdr_ok eh → phdr_ok ph →
  ehdr_at (image_of (ehdr_bytes eh ++ rest)) 0 = eh ∧
  phdr_at (image_of (pre ++ phdr_bytes ph ++ rest)) (Z.of_nat (length pre)) = ph.
Proof.
  destruct eh as [id ty ma ve en po so fl es pe pn se sn sx], ph as [pt pf poff va pa fs ms al].
  intros (Hid & (H1 & H2 & H3 & H4 & H5) & (H6 & H7 & H8 & H9 & H10) & H11 & H12 & H13)
         ((P1 & P2 & P3 & P4) & P5 & P6 & P7 & P8). cbn [e_ident] in Hid.
  split.
  - unfold ehdr_bytes. rewrite <- (assoc_L (++)). cbn [e_ident]. unfold ehdr_at.
    assert (Hf : ∀ l i n, (i + n ≤ length l)%nat →
      num_at (image_of (id ++ l)) (0 + (16 + Z.of_nat i)) (Z.of_nat n) = field l i n).
    { intros l i n Hn. rewrite <- num_at_field with (pre := id) by done. rewrite Hid. f_equal. }
    assert (Hl : ∀ l : list Z, bytes_at (image_of (id ++ l)) 0 16 = id).
    { intros l. rewrite (bytes_at_image _ 0 16) by (rewrite length_app; lia). rewrite drop_0. by rewrite take_app_length'. }
    rewrite Hl. f_equal.
    + rewrite (Hf _ 0%nat 2%nat) by (cbn; lia). exact (of_le_le_bytes 2 ty H1).
    + rewrite (Hf _ 2%nat 2%nat) by (cbn; lia). exact (of_le_le_bytes 2 ma H2).
    + rewrite (Hf _ 4%nat 4%nat) by (cbn; lia). exact (of_le_le_bytes 4 ve H3).
    + rewrite (Hf _ 8%nat 8%nat) by (cbn; lia). exact (of_le_le_bytes 8 en H4).
    + rewrite (Hf _ 16%nat 8%nat) by (cbn; lia). exact (of_le_le_bytes 8 po H5).
    + rewrite (Hf _ 24%nat 8%nat) by (cbn; lia). exact (of_le_le_bytes 8 so H6).
    + rewrite (Hf _ 32%nat 4%nat) by (cbn; lia). exact (of_le_le_bytes 4 fl H7).
    + rewrite (Hf _ 36%nat 2%nat) by (cbn; lia). exact (of_le_le_bytes 2 es H8).
    + rewrite (Hf _ 38%nat 2%nat) by (cbn; lia). exact (of_le_le_bytes 2 pe H9).
    + rewrite (Hf _ 40%nat 2%nat) by (cbn; lia). exact (of_le_le_bytes 2 pn H10).
    + rewrite (Hf _ 42%nat 2%nat) by (cbn; lia). exact (of_le_le_bytes 2 se H11).
    + rewrite (Hf _ 44%nat 2%nat) by (cbn; lia). exact (of_le_le_bytes 2 sn H12).
    + rewrite (Hf _ 46%nat 2%nat) by (cbn; lia). exact (of_le_le_bytes 2 sx H13).
  - unfold phdr_at. f_equal.
    + rewrite (num_at_field pre _ 0 4) by (cbn; lia). exact (of_le_le_bytes 4 pt P1).
    + rewrite (num_at_field pre _ 4 4) by (cbn; lia). exact (of_le_le_bytes 4 pf P2).
    + rewrite (num_at_field pre _ 8 8) by (cbn; lia). exact (of_le_le_bytes 8 poff P3).
    + rewrite (num_at_field pre _ 16 8) by (cbn; lia). exact (of_le_le_bytes 8 va P4).
    + rewrite (num_at_field pre _ 24 8) by (cbn; lia). exact (of_le_le_bytes 8 pa P5).
    + rewrite (num_at_field pre _ 32 8) by (cbn; lia). exact (of_le_le_bytes 8 fs P6).
    + rewrite (num_at_field pre _ 40 8) by (cbn; lia). exact (of_le_le_bytes 8 ms P7).
    + rewrite (num_at_field pre _ 48 8) by (cbn; lia). exact (of_le_le_bytes 8 al P8).
Qed.

(** A program header of a small executable: 4 bytes of the file at [0x401010]. *)
Definition demo_ph : Elf64Phdr := mkPhdr PT_LOAD 5 0 0x401010 0 4 0x20 0x1000.

Lemma elf_headers_roundtrip_witness :
  let eh := mkEhdr (ELF_HEADER_SIG ++ replicate 10 0) 2 62 1 0x401010 64 0 0 64 56 2 0 0 0 in
  ehdr_at (image_of (ehdr_bytes eh ++ [7])) 0 = eh ∧
  phdr_at (image_of (ehdr_bytes eh ++ phdr_bytes demo_ph ++ [7])) 64 = demo_ph.
Proof.
  apply (elf_headers_roundtrip (mkEhdr (ELF_HEADER_SIG ++ replicate 10 0) 2 62 1 0x401010 64 0 0 64 56 2 0 0 0) demo_ph
           (ehdr_bytes (mkEhdr (ELF_HEADER_SIG ++ replicate 10 0) 2 62 1 0x401010 64 0 0 64 56 2 0 0 0)) [7]).
  - by repeat split.
  - by repeat split.
Defined.

Lemma sys_bind_Ok {A B} (m : sys A) (f : A → sys B) w b w' :
  (m ≫= f) w = Done (Ok b, w') → ∃ a w1, m w = Done (Ok a, w1) ∧ f a w1 = Done (Ok b, w').
Proof. unfold mbind, sys_bind. destruct (m w) as [[[a|e] w1]| |]; try done. eauto. Qed.

(** ** What is rejected

    What the ELF specification asks of the bytes of the file: the magic number, 64 bits and
    little endian at offset 0, an executable at 16, x86-64 at 18, version 1 at 20. *)
Definition elf_header_ok (data : Image) : Prop :=
  bytes_at data 0 6 = [0x7F; 0x45; 0x4C; 0x46; 2; 1] ∧ bytes_at data 16 2 = [2; 0] ∧
  bytes_at data 18 2 = [62; 0] ∧ bytes_at data 20 4 = [1; 0; 0; 0].

(** An error names the first of these that is wrong, with what the file has there. *)
Definition names_fault (data : Image) (e : LoadElfError) : Prop :=
  let magic := bytes_at data 0 6 in
  match e with
  | ElfHeaderSigInvalid sig => sig = magic ∧ magic ≠ [0x7F; 0x45; 0x4C; 0x46; 2; 1]
  | EType t => magic = [0x7F; 0x45; 0x4C; 0x46; 2; 1] ∧ bytes_at data 16 2 = le_bytes 2 t ∧ bytes_at data 16 2 ≠ [2; 0]
  | EMachine m =>
      magic = [0x7F; 0x45; 0x4C; 0x46; 2; 1] ∧ bytes_at data 16 2 = [2; 0] ∧
      bytes_at data 18 2 = le_bytes 2 m ∧ bytes_at data 18 2 ≠ [62; 0]
  | ElfVersion v =>
      magic = [0x7F; 0x45; 0x4C; 0x46; 2; 1] ∧ bytes_at data 16 2 = [2; 0] ∧ bytes_at data 18 2 = [62; 0] ∧
      bytes_at data 20 4 = le_bytes 4 v ∧ bytes_at data 20 4 ≠ [1; 0; 0; 0]
  | InternalError => False
  end.

Section rejects.
Context (data : Image) (Hdata : ∀ i, 0 ≤ data i < 256).

Lemma bytes_at_num o n : le_bytes (Z.to_nat n) (num_at data o n) = bytes_at data o n.
Proof using Hdata.
  assert (Hl : length (bytes_at data o n) = Z.to_nat n) by (unfold bytes_at; by rewrite length_fmap, length_seqZ).
  unfold num_at. rewrite <- Hl. apply le_bytes_of_le. unfold bytes_at. apply Forall_fmap, Forall_true. intros i. apply Hdata.
Qed.

(** A number in the file has a value just if its bytes are those of the value. *)
Lemma num_at_iff o n v : 0 ≤ v < 2 ^ (8 * Z.of_nat (Z.to_nat n)) → num_at data o n = v ↔ bytes_at data o n = le_bytes (Z.to_nat n) v.
Proof using Hdata.
  intros Hv. split.
  - intros <-. symmetry. apply bytes_at_num.
  - intros E. unfold num_at. rewrite E. by apply of_le_le_bytes.
Qed.

Lemma ident_sig o : take 6 (bytes_at data o 16) = bytes_at data o 6.
Proof using. reflexivity. Qed.

Lemma validate_faithful :
  match validate_elf_header (ehdr_at data 0) with
  | Ok _ => elf_header_ok data
  | Err e => names_fault data e
  end.
Proof using Hdata.
  unfold validate_elf_header, elf_header_ok. cbn [ehdr_at e_ident e_type e_machine e_version]. rewrite ident_sig.
  change (0 + 16) with 16. change (0 + 18) with 18. change (0 + 20) with 20.
  pose proof (num_at_iff 16 2 2 ltac:(split; vm_compute; congruence)) as Ht. pose proof (num_at_iff 18 2 62 ltac:(split; vm_compute; congruence)) as Hm.
  pose proof (num_at_iff 20 4 1 ltac:(split; vm_compute; congruence)) as Hv. cbn [le_bytes] in Ht, Hm, Hv.
  unfold ELF_HEADER_SIG, ELFCLASS64, ELFDATA2LSB, ET_EXEC, EM_X86_64.
  case_bool_decide as Es; cbn [negb]; [|done].
  destruct (Z.eqb_spec (num_at data 16 2) 2) as [E1|E1]; cbn [negb].
  2:{ split_and!; [done|by rewrite <- (bytes_at_num 16 2)|by intros E%Ht]. }
  destruct (Z.eqb_spec (num_at data 18 2) 62) as [E2|E2]; cbn [negb].
  2:{ split_and!; [done|by apply Ht|by rewrite <- (bytes_at_num 18 2)|by intros E%Hm]. }
  destruct (Z.eqb_spec (num_at data 20 4) 1) as [E3|E3]; cbn [negb].
  2:{ split_and!; [done|by apply Ht|by apply Hm|by rewrite <- (bytes_at_num 20 4)|by intros E%Hv]. }
  split_and!; [done|by apply Ht|by apply Hm|by apply Hv].
Qed.
End rejects.

(** The segments of a file can only fail to be mapped. *)
Lemma load_segments_errors off down up this p data offsets : ∀ w e w',
  load_segments off down up this p data offsets w = Done (Ok (Err e), w') → e = InternalError.
Proof.
  induction offsets as [|o l IH]; intros w e w'; cbn [load_segments]; [done|].
  destruct (_ =? PT_LOAD); [|apply IH]. intros ([[]|e'] & w1 & E1 & E)%sys_bind_Ok; [by apply IH in E|].
  injection E as <- <-. unfold load_segment in E1.
  do 6 apply sys_bind_Ok in E1 as (? & ? & _ & E1). apply sys_bind_Ok in E1 as (o' & ? & _ & E1). destruct o'.
  - do 9 apply sys_bind_Ok in E1 as (? & ? & _ & E1). injection E1. done.
  - apply sys_bind_Ok in E1 as (? & ? & _ & E1). by injection E1.
Qed.

(** C38: a file is rejected for its header just when its bytes are not those the ELF
    specification asks of an x86-64 executable.  It is rejected before a process exists,
    nothing in the system having changed, with the error that names the first wrong field
    and what the file has there; a file with a right header fails, if it does, with
    [InternalError]. *)
Theorem load_elf_rejects off down up g apic hpet start t data args refs kernel w :
  (∀ i, 0 ≤ data i < 256) →
  (¬ elf_header_ok data → ∃ e, names_fault data e ∧
     load_elf off down up g apic hpet start t data args refs kernel w = Done (Ok (Err e), w)) ∧
  (elf_header_ok data → ∀ e w',
     load_elf off down up g apic hpet start t data args refs kernel w = Done (Ok (Err e), w') → e = InternalError).
Proof.
  intros Hdata. pose proof (validate_faithful data Hdata) as Hv. unfold load_elf.
  destruct (validate_elf_header (ehdr_at data 0)) as [[]|e]; (split; [intros Hno|intros Hok]).
  - done.
  - intros e w' E. do 4 apply sys_bind_Ok in E as (? & ? & _ & E). apply sys_bind_Ok in E as (r & w2 & Er & E).
    destruct r as [[]|e'].
    + do 4 apply sys_bind_Ok in E as (? & ? & _ & E). injection E. done.
    + apply sys_bind_Ok in E as (? & ? & _ & E). injection E as <- <-. by eapply load_segments_errors.
  - by exists e.
  - exfalso. destruct Hok as (H1 & H2 & H3 & H4). destruct e; cbn in Hv; tauto.
Qed.

Lemma load_elf_rejects_witness :
  load_elf PhysMapOffset (λ a _, Done a) (λ a _, Done a) demo_globals 0 None 0 0 (λ i, if i =? 0 then 0x7F else 0x45) [] [] false demo_sys =
  Done (Ok (Err (ElfHeaderSigInvalid [0x7F; 0x45; 0x45; 0x45; 0x45; 0x45])), demo_sys).
Proof.
  destruct (load_elf_rejects PhysMapOffset (λ a _, Done a) (λ a _, Done a) demo_globals 0 None 0 0
    (λ i, if i =? 0 then 0x7F else 0x45) [] [] false demo_sys) as [[e [Hn ->]] _].
  - intros i. destruct (i =? 0); lia.
  - intros [H _]. discriminate H.
  - destruct e; try (destruct Hn as [H _]; discriminate H); [|done]. destruct Hn as [-> _]. reflexivity.
Defined.

(** ** What a segment leaves in the new process *)

(** Results of a step that neither writes user memory nor touches the mappings of
    process [p]. *)
Definition apart {A} (p : nat) (m : sys A) : Prop :=
  ∀ w r w', m w = Done (r, w') → w_user w' = w_user w ∧ w_mem w' !! p = w_mem w !! p.

Lemma apart_ret {A} p (a : A) : apart p (mret a : sys A).
Proof. intros w r w' [= _ <-]. done. Qed.

Lemma apart_bind {A B} p (m : sys A) (f : A → sys B) : apart p m → (∀ a, apart p (f a)) → apart p (m ≫= f).
Proof.
  intros Hm Hf w r w' E. unfold mbind, sys_bind in E. destruct (m w) as [[[a|e] w1]| |] eqn:E1; try done.
  - destruct (Hm _ _ _ E1), (Hf _ _ _ _ E). split; congruence.
  - injection E as _ <-. eauto.
Qed.

Lemma apart_pure {A} p (o : outcome A) : apart p (pure o).
Proof. intros w r w' E. unfold pure in E. inv_outcome. done. Qed.

Lemma apart_gets {A} p (f : World → A) : apart p (gets f).
Proof. intros w r w' [= _ <-]. done. Qed.

Lemma apart_on_vm {A} p (f : vm_world → outcome (A * vm_world)) : apart p (on_vm f).
Proof. intros w r w' E. unfold on_vm in E. inv_outcome. destruct x. inv_outcome. done. Qed.

Lemma apart_on_mapper {A} p q (f : vm_world → PageMapperManager → outcome (A * (PageMapperManager * vm_world))) :
  q ≠ p → apart p (on_mapper q f).
Proof.
  intros Hq. unfold on_mapper, get_memory. repeat (apply apart_bind; intros); try apply apart_gets; try apply apart_pure;
    try apply apart_on_vm. destruct a0. apply apart_bind; [|intros; apply apart_ret].
  intros w r w' [= _ <-]. cbn. split; [done|]. by rewrite lookup_insert_ne.
Qed.

Create HintDb apart.
#[export] Hint Resolve apart_ret apart_bind apart_pure apart_gets apart_on_vm apart_on_mapper : apart.

(** The next step of a run. *)
Ltac sys_step E a w E1 := apply sys_bind_Ok in E as (a & w & E1 & E).
Tactic Notation "sys_step" ident(E) "as" ident(a) ident(w) ident(E1) := sys_step E a w E1.

Section segment.
Context (off : Z) (align_down align_up : Z → Z → outcome Z).
#[local] Instance segment_allocator : PageAllocator PageFrameAllocator := pfa_allocator off.

Lemma apart_touch p q pages : q ≠ p → apart p (touch_pages off q pages).
Proof.
  intros Hq. induction pages as [|a pages IH]; cbn [touch_pages]; [apply apart_ret|].
  apply apart_bind; [by apply apart_on_mapper|]. intros [?|]; [done|apply apart_pure].
Qed.

Lemma pure_Ok {A} (o : outcome A) a w w' : pure o w = Done (Ok a, w') → o = Done a ∧ w' = w.
Proof using. unfold pure. intros E. by inv_outcome. Qed.

Lemma on_vm_Ok {A} (f : vm_world → outcome (A * vm_world)) a w w' :
  on_vm f w = Done (Ok a, w') → ∃ v, f (w_vm w) = Done (a, v) ∧ w' = upd_vm w v.
Proof using. unfold on_vm. intros E. inv_outcome. destruct x as [? v]. inv_outcome. eauto. Qed.

Lemma on_mapper_run {A} p (f : vm_world → PageMapperManager → outcome (A * (PageMapperManager * vm_world))) a w w' :
  on_mapper p f w = Done (Ok a, w') →
  ∃ m pm v, w_mem w !! p = Some m ∧ f (w_vm w) (pm_mapper m) = Done (a, (pm, v)) ∧
    w' = upd_mem (upd_vm w v) (<[p := mkPMem_ pm (owned32_pages m) (pm_kernel m)]> (w_mem w)).
Proof using.
  unfold on_mapper, get_memory. intros E.
  apply sys_bind_Ok in E as (m & w1 & E1 & E). apply sys_bind_Ok in E1 as (o & w2 & [= <- <-] & E1).
  apply pure_Ok in E1 as [E1 ->]. destruct (w_mem w !! p) as [m'|] eqn:Em; [|done]. injection E1 as <-.
  apply sys_bind_Ok in E as ([b pm] & w1 & E1 & E). apply on_vm_Ok in E1 as (v & E1 & ->). inv_outcome.
  destruct x as [b' [pm' v']]. inv_outcome. apply sys_bind_Ok in E as (u & w1 & [= <- <-] & [= <- <-]).
  by exists m', pm, v.
Qed.

Lemma on_mapper_Ok {A} p (f : vm_world → PageMapperManager → outcome (A * (PageMapperManager * vm_world))) a w w' :
  on_mapper p f w = Done (Ok a, w') →
  ∃ m pm v, w_mem w !! p = Some m ∧ f (w_vm w) (pm_mapper m) = Done (a, (pm, v)) ∧
    w_mem w' !! p = Some (mkPMem_ pm (owned32_pages m) (pm_kernel m)) ∧ w_user w' = w_user w.
Proof using. intros (m & pm & v & Hm & E & ->)%on_mapper_run. exists m, pm, v. cbn. by rewrite lookup_insert_eq. Qed.

(** The mapping that [new_lazy] made, after [clone]. *)
Lemma lazy_cloned (v v1 v2 : vm_world (A := PageFrameAllocator)) sz id u :
  new_lazy v sz = Done (id, v1) →
  (λ '(s, st), st ← arc_clone st id; Done (tt, (s, st))) v1 = Done (u, v2) →
  id = next_arc (snd v) ∧ ∃ mp, get_mapping (snd v2) id = Done mp ∧ PageMapper.size mp = sz.
Proof using.
  destruct v as [s st], v1 as [s1 st1]. unfold new_lazy, arc_new. intros E1 E2. inv_outcome.
  unfold arc_clone in *. cbn in *. rewrite lookup_insert_eq in *. inv_outcome.
  unfold get_mapping. cbn. rewrite lookup_insert_eq. eauto.
Qed.

(** The range a successful [insert_mapping_at] inserted. *)
Lemma inserted_at (v v' : vm_world (A := PageFrameAllocator)) pm base id flags pm' mp :
  insert_mapping_at v pm base id flags = Done (Some tt, (pm', v')) →
  get_mapping (snd v) id = Done mp → ordered (mappings pm) → 0 ≤ base → 0 < PageMapper.size mp →
  ∃ i, (i ≤ length (mappings pm))%nat ∧
    mappings pm' = take i (mappings pm) ++ mkEntry base (base + PageMapper.size mp) id flags :: drop i (mappings pm) ∧
    ordered (mappings pm') ∧ v' = v.
Proof using.
  unfold insert_mapping_at. intros E Emp Ho Hb Hs. apply bind_Done in E as (? & _ & E). rewrite Emp, bind_ret in E.
  apply bind_Done in E as (e & [-> _]%chk_Done & E).
  destruct (existsb _ _) eqn:Ex; [by apply bind_Done in E as (? & _ & [=])|].
  destruct (insert_index_ok (mappings pm) base (base + PageMapper.size mp) id flags) as (i & Ei & Hi & Hord); [done|lia|done|].
  rewrite Ei, bind_ret, vec_insert_ok, bind_ret in E by done. injection E as <- <-. by exists i.
Qed.

Lemma find_gap_Done l sz : ∀ i, find_gap l sz = Done (Some i) → gap l sz i.
Proof using.
  induction l as [|x l IH]; [done|]. destruct l as [|y l]; [done|]. intros i E. cbn [find_gap] in E.
  apply bind_Done in E as (a & [-> _]%chk_Done & E). apply bind_Done in E as (b & [-> _]%chk_Done & E).
  destruct (Z.leb_spec (r_end x + 0x1000 + sz) (r_start y)).
  - injection E as <-. by exists x, y.
  - apply bind_Done in E as ([j|] & Ej & [= <-]). apply gap_S. by apply IH.
Qed.

(** The range a successful [insert_mapping] inserted, in a gap of the loader's space. *)
Lemma inserted_gap (v v' : vm_world (A := PageFrameAllocator)) pm base id flags pm' mp :
  insert_mapping v pm id flags = Done (base, (pm', v')) →
  get_mapping (snd v) id = Done mp → ordered (mappings pm) → 0 < PageMapper.size mp →
  ∃ i, (i ≤ length (mappings pm))%nat ∧
    mappings pm' = take i (mappings pm) ++ mkEntry base (base + PageMapper.size mp) id flags :: drop i (mappings pm) ∧
    ordered (mappings pm') ∧ v' = v.
Proof using.
  unfold insert_mapping. intros E Emp Ho Hs. rewrite Emp, bind_ret in E.
  apply bind_Done in E as (o & Eg & E). apply bind_Done in E as (i & ->%unwrap_Done & E).
  destruct (find_gap_Done _ _ _ Eg) as (x & y & Hx & Hy & Hgap).
  rewrite (proj2 (index_Done _ _ _) Hx), bind_ret in E.
  apply bind_Done in E as (b & [-> _]%chk_Done & E). apply bind_Done in E as (e & [-> _]%chk_Done & E).
  pose proof (lookup_lt_Some _ _ _ Hx). rewrite Nat.add_1_r, vec_insert_ok, bind_ret in E by lia. injection E as <- <- <-.
  exists (S i). split; [lia|]. split; [done|]. split; [|done]. pose proof (ordered_entry _ _ _ Ho Hx).
  apply ordered_insert; [done|unfold entry_ok; cbn; lia| |]; intros j z Hj Hz; cbn [r_start r_end].
  - destruct (decide (j = i)) as [->|]; [simplify_eq; lia|].
    assert (r_end z ≤ r_start x) by (apply (ordered_lookup _ j i z x Ho); [lia|done..]). lia.
  - destruct (decide (j = S i)) as [->|]; [simplify_eq; lia|].
    assert (r_end y ≤ r_start z) by (apply (ordered_lookup _ (S i) j y z Ho); [lia|done..]).
    pose proof (ordered_entry _ _ _ Ho Hy). lia.
Qed.

(** The one range of an ordered vector that covers an address. *)
Lemma find_covering l r x :
  ordered l → r ∈ l → r_start r ≤ x < r_end r → find (λ r, (r_start r <=? x) && (x <? r_end r)) l = Some r.
Proof using.
  intros Ho [i Hi]%list_elem_of_lookup Hx. destruct (find _ l) as [r'|] eqn:E.
  - apply find_some in E as [Hin Hb]. apply list_elem_of_In, list_elem_of_lookup in Hin as [j Hj].
    destruct (decide (i = j)) as [->|]; [congruence|]. exfalso.
    apply andb_true_iff in Hb as [?%Z.leb_le ?%Z.ltb_lt].
    destruct (Nat.lt_total i j) as [Hij|[Hij|Hij]]; [|done|].
    + pose proof (ordered_lookup l i j r r' Ho Hij Hi Hj). lia.
    + pose proof (ordered_lookup l j i r' r Ho Hij Hj Hi). lia.
  - eapply find_none in E; [|apply list_elem_of_In; by eapply list_elem_of_lookup_2].
    apply andb_false_iff in E as [?%Z.leb_gt|?%Z.ltb_ge]; lia.
Qed.

Lemma alias_at w q m r x :
  w_mem w !! q = Some m → ordered (mappings (pm_mapper m)) → r ∈ mappings (pm_mapper m) →
  r_start r ≤ x < r_end r → alias w q x = Some (r_arc r, x - r_start r).
Proof using. intros Hm Ho Hr Hx. unfold alias. rewrite Hm. cbn. by rewrite (find_covering _ r). Qed.

Lemma alias_in w q x id o :
  alias w q x = Some (id, o) → ∃ m r, w_mem w !! q = Some m ∧ r ∈ mappings (pm_mapper m) ∧
    r_arc r = id ∧ r_start r ≤ x < r_end r ∧ o = x - r_start r.
Proof using.
  unfold alias. destruct (w_mem w !! q) as [m|]; [|done]. cbn. destruct (find _ _) as [r|] eqn:E; [|done]. cbn.
  intros [= <- <-]. apply find_some in E as [Hin [?%Z.leb_le ?%Z.ltb_lt]%andb_true_iff].
  exists m, r. by rewrite list_elem_of_In.
Qed.

Lemma store_byte_mem w q x b : w_mem (store_byte w q x b) = w_mem w.
Proof using. unfold store_byte. by destruct (alias w q x). Qed.
Lemma alias_mem w w' q x : w_mem w' = w_mem w → alias w' q x = alias w q x.
Proof using. unfold alias. by intros ->. Qed.

Lemma copy_bytes_mem bs : ∀ w q x, w_mem (copy_bytes w q x bs) = w_mem w.
Proof using. induction bs as [|b bs IH]; intros w q x; [done|]. cbn. by rewrite IH, store_byte_mem. Qed.
Lemma copy_bytes_word bs : ∀ w q x q' x', u_word (w_user (copy_bytes w q x bs) q') x' = u_word (w_user w q') x'.
Proof using.
  induction bs as [|b bs IH]; intros w q x q' x'; [done|]. cbn. rewrite IH. unfold store_byte. by destruct (alias w q x).
Qed.

(** A copy into the bytes from [o] on of mapping [id], seen through any address. *)
Lemma copy_bytes_view id bs : ∀ w q x o q' x',
  (∀ i, 0 ≤ i < Z.of_nat (length bs) → alias w q (x + i) = Some (id, o + i)) →
  u_byte (w_user (copy_bytes w q x bs) q') x' =
    match alias w q' x' with
    | Some (id', o') =>
        if decide (id' = id ∧ o ≤ o' < o + Z.of_nat (length bs)) then bs !!! Z.to_nat (o' - o) else u_byte (w_user w q') x'
    | None => u_byte (w_user w q') x'
    end.
Proof using.
  induction bs as [|b bs IH]; intros w q x o q' x' Ha; cbn [copy_bytes].
  { destruct (alias w q' x') as [[id' o']|]; [|done]. rewrite decide_False; [done|cbn; lia]. }
  rewrite length_cons in *. rewrite (IH _ _ _ (o + 1)).
  2:{ intros i Hi. rewrite (alias_mem w) by apply store_byte_mem. replace (x + 1 + i) with (x + (1 + i)) by lia.
      rewrite Ha by lia. do 2 f_equal. lia. }
  rewrite (alias_mem w) by apply store_byte_mem. specialize (Ha 0 ltac:(lia)). rewrite !Z.add_0_r in Ha.
  unfold store_byte. rewrite Ha. cbn [w_user u_byte]. destruct (alias w q' x') as [[id' o']|]; [|by rewrite decide_False].
  destruct (decide (id' = id)) as [->|Hid]; [|rewrite !decide_False by (intros ?; destruct_and?; simplify_eq); done].
  destruct (decide (o' = o)) as [->|Ho].
  - rewrite (decide_False (P := _ ∧ _)) by lia. rewrite decide_True by done. rewrite decide_True by lia.
    by replace (Z.to_nat (o - o)) with O by lia.
  - destruct (decide (o + 1 ≤ o' < o + 1 + Z.of_nat (length bs))).
    + rewrite !decide_True by lia. by replace (Z.to_nat (o' - o)) with (S (Z.to_nat (o' - (o + 1)))) by lia.
    + rewrite !decide_False by (intros ?; destruct_and?; simplify_eq; lia). done.
Qed.

(** A successful [free_mapping] of a range takes exactly its entry out. *)
Lemma freed (v v' : vm_world (A := PageFrameAllocator)) pm r pm' l i :
  free_mapping off v pm (r_start r) (r_end r) = Done (Ok tt, (pm', v')) →
  mappings pm = take i l ++ r :: drop i l → (i ≤ length l)%nat → ordered (mappings pm) →
  mappings pm' = l ∧ page_mapper pm' = page_mapper pm.
Proof using.
  intros E Hl Hi Ho. unfold free_mapping in E.
  assert (Hr : mappings pm !! i = Some r).
  { rewrite Hl, lookup_app_r by (rewrite length_take; lia). rewrite length_take, Nat.min_l by lia. by rewrite Nat.sub_diag. }
  pose proof (ordered_entry _ _ _ Ho Hr) as Hre.
  destruct (binary_search_ok _ _ (range_cmp_sorted _ (r_start r) (r_end r) Ho ltac:(lia))) as ([j|j] & Ej & Hj); rewrite Ej in E;
    cbn [mbind outcome_bind] in E; [|done].
  destruct Hj as (r' & Hr' & Heq). pose proof (ordered_entry _ _ _ Ho Hr') as Hre'.
  apply range_cmp_Eq in Heq as [E1 E2]; [|lia..].
  assert (j = i) as ->.
  { destruct (Nat.lt_total i j) as [Hij|[Hij|Hij]]; [|done|].
    - pose proof (ordered_lookup _ i j r r' Ho Hij Hr Hr'). lia.
    - pose proof (ordered_lookup _ j i r' r Ho Hij Hr' Hr). lia. }
  rewrite (proj2 (index_Done _ _ _) Hr') in E. cbn [mbind outcome_bind] in E.
  apply bind_Done in E as ([? ?] & _ & E). apply bind_Done in E as (? & _ & E). injection E as _ <- _.
  split; [|done]. cbn [mappings]. rewrite Hl. clear -Hi. revert i Hi.
  induction l as [|x l IH]; intros [|i] Hi; cbn in *; [done|lia|done|]. f_equal. apply IH. lia.
Qed.

(** The vectors of all processes are ordered and name mappings that have been made. *)
Definition spaces_ok (w : World) : Prop :=
  ∀ q m, w_mem w !! q = Some m → ordered (mappings (pm_mapper m)) ∧
    ∀ r, r ∈ mappings (pm_mapper m) → (r_arc r < next_arc (snd (w_vm w)))%nat.

(** Two processes map [id], at [rp] and [rt]; nobody else does. *)
Section twice.
Context (w : World) (p this id : nat) (mp mt : ProcessMemory) (rp rt : MapEntry).
Context (Hp : w_mem w !! p = Some mp) (Ht : w_mem w !! this = Some mt).
Context (Hop : ordered (mappings (pm_mapper mp))) (Hot : ordered (mappings (pm_mapper mt))).
Context (Hrp : rp ∈ mappings (pm_mapper mp)) (Hrt : rt ∈ mappings (pm_mapper mt)).
Context (Hidp : r_arc rp = id) (Hidt : r_arc rt = id) (Hsize : r_end rp - r_start rp = r_end rt - r_start rt).
Context (Hnew : ∀ q m r, w_mem w !! q = Some m → r ∈ mappings (pm_mapper m) → r_arc r = id →
  (q = p ∧ r = rp) ∨ (q = this ∧ r = rt)).
Context (Hne : this ≠ p).
Context (d : Z) (bs : list Z) (Hd : 0 ≤ d) (Hlen : d + Z.of_nat (length bs) ≤ r_end rt - r_start rt).

Lemma twice_alias i : 0 ≤ i < Z.of_nat (length bs) → alias w this (r_start rt + d + i) = Some (id, d + i).
Proof using All. intros Hi. rewrite (alias_at w this mt rt) by (done || lia). rewrite Hidt. do 2 f_equal. lia. Qed.

(** What is copied through [rt] is seen through [rp], at the same distance. *)
Lemma twice_seen a :
  u_byte (w_user (copy_bytes w this (r_start rt + d) bs) p) a =
    if decide (r_start rp + d ≤ a < r_start rp + d + Z.of_nat (length bs))
    then bs !!! Z.to_nat (a - (r_start rp + d)) else u_byte (w_user w p) a.
Proof using All.
  rewrite (copy_bytes_view id _ _ _ _ d) by apply twice_alias.
  destruct (decide (r_start rp ≤ a < r_end rp)) as [Ha|Ha].
  - rewrite (alias_at w p mp rp), Hidp by done.
    destruct (decide (r_start rp + d ≤ a < r_start rp + d + Z.of_nat (length bs))); [|by rewrite decide_False by lia].
    rewrite decide_True by lia. f_equal. lia.
  - rewrite (decide_False (P := _ ≤ a < _)) by lia. destruct (alias w p a) as [[id' o']|] eqn:E; [|done].
    rewrite decide_False; [done|]. intros [-> _]. apply alias_in in E as (m & r & Hm & Hr & Hid & Hx & _).
    destruct (Hnew _ _ _ Hm Hr Hid) as [[_ ->]|[-> _]]; [lia|done].
Qed.

Lemma twice_others q a :
  q ≠ p → q ≠ this → u_byte (w_user (copy_bytes w this (r_start rt + d) bs) q) a = u_byte (w_user w q) a.
Proof using All.
  intros Hqp Hqt. rewrite (copy_bytes_view id _ _ _ _ d) by apply twice_alias.
  destruct (alias w q a) as [[id' o']|] eqn:E; [|done]. rewrite decide_False; [done|].
  intros [-> _]. apply alias_in in E as (m & r & Hm & Hr & Hid & _). by destruct (Hnew _ _ _ Hm Hr Hid) as [[-> _]|[-> _]].
Qed.
End twice.

Lemma touch_mem q pages : ∀ w u w',
  touch_pages off q pages w = Done (Ok u, w') → w_mem w' = w_mem w ∧ w_user w' = w_user w.
Proof using.
  induction pages as [|a pages IH]; cbn [touch_pages]; intros w u w' E; [by injection E as _ <-|].
  sys_step E as r w1 E1. apply on_mapper_run in E1 as (m & pm & v & Hm & Ef & ->). apply bind_Done in Ef as ([? ?] & _ & [= _ <- _]).
  destruct r; [|by apply pure_Ok in E as [? _]]. apply IH in E as [-> ->]. cbn. split; [|done].
  apply insert_id. by destruct m.
Qed.

(** What the crate promises for a power of two. *)
Hypothesis Hdown : ∀ a, 0 ≤ a < u64_lim → align_down a 0x1000 = Done (a - a mod 0x1000).
Hypothesis Hup : ∀ a v, align_up a 0x1000 = Done v → a ≤ v ∧ v mod 0x1000 = 0.

(** The run of [load_segment]: the mapping [id] is fresh, it is put at [rp] into the new
    process and at [rt] into the loader's, the copy goes through [rt], and [rt] is gone. *)
Lemma load_segment_run this p data h w w' :
  this ≠ p → spaces_ok w → 0 ≤ p_vaddr h < u64_lim → 0 < p_memsz h →
  load_segment off align_down align_up this p data h w = Done (Ok (Ok tt), w') →
  let vstart := p_vaddr h - p_vaddr h mod 0x1000 in
  ∃ vend m0 mp i t0 mt base j w1, let id := next_arc (snd (w_vm w)) in
    let rp := mkEntry vstart vend id (to_mapping_flags (p_flags h)) in
    let rt := mkEntry base (base + (vend - vstart)) id flags_all in
    align_up (p_vaddr h + p_memsz h) 0x1000 = Done vend ∧ p_vaddr h + p_memsz h ≤ vend ∧
    w_mem w !! p = Some m0 ∧ w_mem w !! this = Some t0 ∧
    mappings (pm_mapper mp) = take i (mappings (pm_mapper m0)) ++ rp :: drop i (mappings (pm_mapper m0)) ∧
    mappings (pm_mapper mt) = take j (mappings (pm_mapper t0)) ++ rt :: drop j (mappings (pm_mapper t0)) ∧
    ordered (mappings (pm_mapper mp)) ∧ ordered (mappings (pm_mapper mt)) ∧
    w_mem w1 = <[this := mt]> (<[p := mp]> (w_mem w)) ∧
    w_user w1 = <[this := zero_range (w_user w this) base (vend - vstart)]>
                  (<[p := zero_range (w_user w p) vstart (vend - vstart)]> (w_user w)) ∧
    (let w2 := copy_bytes w1 this (base + p_vaddr h mod 0x1000) (bytes_at data (p_offset h) (p_filesz h)) in
     w_user w' = w_user w2 ∧ w_mem w' !! p = Some mp ∧ pm_mapper <$> w_mem w' !! this = Some (pm_mapper t0)).
Proof using Hdown Hup.
  intros Htp Hok Hv Hsz E vstart. unfold load_segment in E.
  sys_step E as vs w1 E1. apply pure_Ok in E1 as [E1 ->]. rewrite Hdown in E1 by done. injection E1 as <-. fold vstart in E.
  sys_step E as vl w1 E1. apply pure_Ok in E1 as [[-> Hvl]%chk_Done ->].
  sys_step E as vend w1 E1. apply pure_Ok in E1 as [Eup ->]. destruct (Hup _ _ Eup) as [Hle _].
  sys_step E as size w1 E1. apply pure_Ok in E1 as [[-> Hs]%chk_Done ->].
  sys_step E as mem w1 E1. apply on_vm_Ok in E1 as (v1 & Enew & ->).
  sys_step E as u w2 E2. unfold clone_mapping in E2. apply on_vm_Ok in E2 as (v2 & Ecl & ->).
  destruct (lazy_cloned _ _ _ _ _ _ Enew Ecl) as (Hid & mp0 & Emp & Hsize). cbn [w_vm upd_vm] in *.
  assert (0 ≤ vstart < p_vaddr h + 1) by (unfold vstart; pose proof (Z.mod_pos_bound (p_vaddr h) 0x1000); pose proof (Z.mod_le (p_vaddr h) 0x1000); lia).
  sys_step E as o w3 E3. apply on_mapper_run in E3 as (m0 & pm' & v3 & Hm & Eins & ->). cbn [w_vm upd_vm w_mem upd_mem] in *.
  destruct o as [[]|]; [|apply sys_bind_Ok in E as (? & ? & _ & [=])].
  destruct (inserted_at _ _ _ _ _ _ _ _ Eins Emp) as (i & Hi & Hli & Hoi & ->); [by apply (Hok p)|lia|lia|].
  sys_step E as base w4 E4. apply on_mapper_run in E4 as (t0 & pt & v4 & Ht & Egap & ->). cbn [w_vm upd_vm w_mem upd_mem] in *.
  rewrite lookup_insert_ne in Ht by done.
  destruct (inserted_gap _ _ _ _ _ _ _ _ Egap Emp) as (j & Hj & Hlj & Hoj & ->); [by apply (Hok this)|lia|].
  sys_step E as u1 w5 E5. injection E5 as <- <-. sys_step E as u2 w6 E6. injection E6 as <- <-.
  sys_step E as dst w7 E7. apply pure_Ok in E7 as [[-> _]%chk_Done ->].
  sys_step E as u3 w8 E8. apply touch_mem in E8 as [Hm8 Hu8].
  sys_step E as u4 w9 E9. injection E9 as <- <-.
  sys_step E as end_ w11 E11. apply pure_Ok in E11 as [[-> _]%chk_Done ->].
  sys_step E as fr w12 E12. apply on_mapper_run in E12 as (mt & pf & v5 & Hmt & Efr & ->).
  sys_step E as u6 w13 E13. apply pure_Ok in E13 as [E13 ->]. destruct fr as [[]|]; [|done]. injection E as <-.
  cbn [w_user w_mem upd_user upd_mem upd_vm] in *. rewrite copy_bytes_mem, Hm8 in *. rewrite lookup_insert_eq in Hmt. injection Hmt as <-.
  rewrite Hsize in Hli, Hlj. cbn [pm_mapper] in *. subst mem.
  destruct (freed _ _ _ (mkEntry base (base + (vend - vstart)) (next_arc (snd (w_vm w))) flags_all) _ _ _ Efr Hlj Hj Hoj) as [Hf1 Hf2].
  assert (Hpt : page_mapper pt = page_mapper (pm_mapper t0)).
  { unfold insert_mapping in Egap. inv_outcome. done. }
  exists vend, m0, (mkPMem_ pm' (owned32_pages m0) (pm_kernel m0)), i, t0,
    (mkPMem_ pt (owned32_pages t0) (pm_kernel t0)), base, j, w8. cbn [pm_mapper].
  change 0xFFF with (2 ^ 12 - 1) in *. rewrite Z.sub_1_r, <- Z.ones_equiv, Z.land_ones by lia. change (2 ^ 12) with 0x1000.
  replace (vstart + (vend - vstart)) with vend in Hli by lia.
  split_and!; try done.
  - rewrite Hu8. rewrite fn_lookup_insert_ne by done. done.
  - rewrite lookup_insert_ne, lookup_insert_ne, lookup_insert_eq by done. done.
  - rewrite lookup_insert_eq. cbn. f_equal. destruct pf, (pm_mapper t0) eqn:?; cbn in *; congruence.
Qed.

End segment.

(** *** A segment of a small executable *)
Definition demo_down (a n : Z) : outcome Z := Done (a - a mod n).
Definition demo_up (a n : Z) : outcome Z := Done ((a + n - 1) / n * n).

Lemma demo_up_ok a v : demo_up a 0x1000 = Done v → a ≤ v ∧ v mod 0x1000 = 0.
Proof. intros [= <-]. split; [|apply Z.mod_mul; lia]. pose proof (Z.mul_succ_div_gt (a + 0x1000 - 1) 0x1000). lia. Qed.

Definition demo_load : World :=
  mkWorld (w_k demo_sys) (demo_mapped_world, demo_store)
    {[ 9%nat := mkPMem_ demo_pmm [] false; 10%nat := mkPMem_ (mkPMM 0x6000 []) [] false ]} (w_user demo_sys) 0.

Definition demo_loaded : World :=
  match load_segment PhysMapOffset demo_down demo_up 9 10 (λ i, i + 65) demo_ph demo_load with
  | Done (_, w) => w
  | _ => demo_load
  end.

Lemma demo_load_ok :
  load_segment PhysMapOffset demo_down demo_up 9 10 (λ i, i + 65) demo_ph demo_load = Done (Ok (Ok tt), demo_loaded).
Proof.
  assert (H : match load_segment PhysMapOffset demo_down demo_up 9 10 (λ i, i + 65) demo_ph demo_load with
              | Done (Ok (Ok tt), _) => true | _ => false end = true) by (vm_compute; reflexivity).
  unfold demo_loaded. destruct (load_segment _ _ _ _ _ _ _ _) as [[[[[]|]|] w]| |]; done.
Qed.

Lemma demo_load_spaces : spaces_ok demo_load.
Proof.
  intros q m Hq. cbn [demo_load w_mem] in Hq. apply lookup_insert_Some in Hq as [[<- <-]|[_ Hq]].
  - split; [exact demo_ordered|]. intros r Hr. cbn in Hr.
    repeat (apply elem_of_cons in Hr as [->|Hr]; [cbn; lia|]). by apply elem_of_nil in Hr.
  - apply lookup_singleton_Some in Hq as [<- <-]. split; [split; constructor|]. intros r Hr. by apply elem_of_nil in Hr.
Qed.

