(* ===== verification/Boot.v ===== *)
(** * The boot loader

    [bootloader/src/paging/] (the page tables the boot loader adds to the firmware's)
    and [bootloader/src/kernel.rs] (loading the kernel's ELF image).  The firmware's
    boot services are a parameter: [allocate_pages] hands out page-aligned frames that
    nobody uses.  The tables are those of [PhysMem], and the reference is the walk of
    the MMU ([PageTable.translate]); the bytes of physical memory are a map of their own,
    written through that walk. *)
From S2P Require Import Prelude Page PhysMem AllocIface PageAlloc PageTable Loader.

(** ** Boot services *)
Class BootServices (U : Type) := {
  (** [allocate_pages(AnyPages, LOADER_DATA, n)] *)
  bs_allocate_pages : U → Z → option (Z * U);
  (** [free_pages], which the loader does not call *)
  bs_free_pages : U → Z → Z → U;
}.

(** What the UEFI specification promises: the pages are free and consecutive. *)
Class BootServicesSpec (U : Type) `{BootServices U} := {
  bs_free : U → list Z → Prop;
  bs_free_frames u F : bs_free u F → NoDup F ∧ Forall frame_ok F;
  bs_allocate_spec u F n p u' :
    bs_free u F → 0 < n → bs_allocate_pages u n = Some (p, u') →
    ∃ F', F ≡ₚ range_frames p n ++ F' ∧ bs_free u' F';
  bs_allocate_one u F : bs_free u F → bs_allocate_pages u 1 = None → F = [];
  bs_free_spec u F f : bs_free u F → frame_ok f → f ∉ F → bs_free (bs_free_pages u f 1) (f :: F);
}.

(** [page_map_index.rs]. *)
Record PageMapIndexer := mkIndexer { pdp_i : Z; pd_i : Z; pt_i : Z; p_i : Z }.

Definition PageMapIndexer_new (virtual_address : Z) : PageMapIndexer :=
  let a := Z.shiftr virtual_address 12 in
  let p_i := Z.land a 0x1ff in
  let a := Z.shiftr a 9 in
  let pt_i := Z.land a 0x1ff in
  let a := Z.shiftr a 9 in
  let pd_i := Z.land a 0x1ff in
  let a := Z.shiftr a 9 in
  let pdp_i := Z.land a 0x1ff in
  mkIndexer pdp_i pd_i pt_i p_i.

(** The setters of the boot loader's [PageDirectoryEntry], which has the layout of the
    kernel's. *)
Definition set_present (e : PageDirectoryEntry) (b : bool) : PageDirectoryEntry :=
  pde_set_flags e b (larger_pages e) (read_write e) (user_super e).
Definition set_read_write (e : PageDirectoryEntry) (b : bool) : PageDirectoryEntry :=
  pde_set_flags e (present e) (larger_pages e) b (user_super e).

(** [PageTable::has_entries]. *)
Definition has_entries (m : PMem) (t : Z) : bool := forallb (λ i, negb (present (table m t i))) entry_ids.

Section boot.
Context {U : Type} `{BootServices U}.

(** [write_bytes(new_page, 0, 0x1000)] and the page. *)
Definition new_table (u : U) (m : PMem) : outcome (Z * (U * PMem)) :=
  '(new_page, u) ← unwrap (bs_allocate_pages u 1);
  Done (new_page, (u, zero_bytes m new_page 0x1000)).

(** [get_table]: the table an entry leads to. *)
Definition get_table (m : PMem) (t : Z) (i : nat) : option Z :=
  if present (table m t i) then Some (pde_get_address (table m t i)) else None.

(** [get_or_create_table] on entry [i] of table [t]. *)
Definition get_or_create_table (s : U * PMem) (t : Z) (i : nat) : outcome (option Z * (U * PMem)) :=
  let '(u, m) := s in
  if present (table m t i) then Done (Some (pde_get_address (table m t i)), s)
  else
    '(new_page, (u, m)) ← new_table u m;
    e ← pde_set_address (table m t i) new_page;
    Done (Some new_page, (u, set_entry m t i (set_read_write (set_present e true) true))).

Definition and_then {B} (o : option Z) (s : U * PMem) (f : Z → U * PMem → outcome (option B * (U * PMem)))
  : outcome (option B * (U * PMem)) :=
  match o with Some t => f t s | None => Done (None, s) end.

(** [PageTableManager::map_memory]; [None] is its error. *)
Definition map_memory (s : U * PMem) (page_lvl4_addr virtual_memory physical_memory : Z) (write : bool)
  : outcome (option Flusher * (U * PMem)) :=
  let indexer := PageMapIndexer_new virtual_memory in
  '(pdp, s) ← get_or_create_table s page_lvl4_addr (Z.to_nat (pdp_i indexer));
  '(pd, s) ← and_then pdp s (λ pdp s, get_or_create_table s pdp (Z.to_nat (pd_i indexer)));
  '(pt, s) ← and_then pd s (λ pd s, get_or_create_table s pd (Z.to_nat (pt_i indexer)));
  and_then pt s (λ pt '(u, m),
    let i := Z.to_nat (p_i indexer) in
    e ← pde_set_address (set_present (table m pt i) true) physical_memory;
    Done (Some (mkFlusher virtual_memory), (u, set_entry m pt i (set_read_write e write)))).

(** [PageTableManager::get_phys_addr]: the entry's address, whether or not the entry of
    the last table is present. *)
Definition get_phys_addr (m : PMem) (page_lvl4_addr virtual_memory : Z) : option Z :=
  let indexer := PageMapIndexer_new virtual_memory in
  pdp ← get_table m page_lvl4_addr (Z.to_nat (pdp_i indexer));
  pd ← get_table m pdp (Z.to_nat (pd_i indexer));
  pt ← get_table m pd (Z.to_nat (pt_i indexer));
  Some (pde_get_address (table m pt (Z.to_nat (p_i indexer)))).

(** [clone_pml4]: a zeroed page and the first entry of the old table. *)
Definition clone_pml4 (s : U * PMem) (addr : Z) : outcome (Z * (U * PMem)) :=
  '(new_page, (u, m)) ← new_table (fst s) (snd s);
  Done (new_page, (u, set_entry m new_page 0 (table m addr 0))).

(** ** Loading the kernel *)

(** The machine the boot loader writes through: the tables and the bytes. *)
Record Machine := mkBoot { bw : U * PMem; bytes : Z → Z }.

Record KernelInfo := mkInfo { kernel_start : Z; kernel_pages : Z }.

(** Where a virtual address lies in physical memory. *)
Definition phys_of (m : PMem) (root v : Z) : option Z :=
  match translate 3 m root v with
  | Some (d, e) => Some (pde_get_address e + v mod 2 ^ (12 + 9 * Z.of_nat d))
  | None => None
  end.

(** Where a write to it goes: to a page that every level lets be written. *)
Definition write_of (m : PMem) (root v : Z) : option Z :=
  match translate 3 m root v with
  | Some (d, e) => if read_write e then Some (pde_get_address e + v mod 2 ^ (12 + 9 * Z.of_nat d)) else None
  | None => None
  end.

(** Writing bytes through the page tables; an address that is not mapped or is read-only is a
    page fault, on which the loader does not go on. *)
Fixpoint vstore (m : PMem) (root : Z) (b : Z → Z) (v : Z) (l : list Z) : option (Z → Z) :=
  match l with
  | [] => Some b
  | x :: l => a ← write_of m root v; vstore m root (<[a := x]> b) (v + 1) l
  end.

(** [base] and [size] of the image: over the headers, of whatever type. *)
Fixpoint image_bounds (hs : list Elf64Phdr) (base size : Z) : outcome (Z * Z) :=
  match hs with
  | [] => Done (base, size)
  | h :: hs =>
      end_ ← add_u64 (p_vaddr h) (p_memsz h);
      image_bounds hs (Z.min base (p_vaddr h)) (Z.max size end_)
  end.

Fixpoint map_pages (s : U * PMem) (root mem_start page : Z) (n : nat) (p : Z) : outcome (U * PMem) :=
  match n with
  | O => Done s
  | S n =>
      v ← add_u64 mem_start (0x1000 * p);
      f ← add_u64 page (0x1000 * p);
      '(r, s) ← map_memory s root v f true;
      _ ← unwrap r;
      map_pages s root mem_start page n (p + 1)
  end.

Fixpoint copy_segments (m : PMem) (root : Z) (b : Z → Z) (data : Image) (hs : list Elf64Phdr) : option (Z → Z) :=
  match hs with
  | [] => Some b
  | h :: hs =>
      b ← (if p_type h =? PT_LOAD then vstore m root b (p_vaddr h) (bytes_at data (p_offset h) (p_filesz h))
           else Some b);
      copy_segments m root b data hs
  end.

Definition header_valid (h : Elf64Ehdr) : bool :=
  bool_decide (take 6 (e_ident h) = ELF_HEADER_SIG) && (e_type h =? ET_EXEC) &&
  (e_machine h =? EM_X86_64) && (e_version h =? 1).

(** [load_kernel]; [root] is the active table of the firmware. *)
Definition load_kernel (w : Machine) (root : Z) (data : Image) : outcome (Z * KernelInfo * Machine) :=
  let elf_header := ehdr_at data 0 in
  _ ← (if header_valid elf_header then Done tt else Panic PUnreachable);
  offsets ← header_offsets elf_header;
  let headers := phdr_at data <$> offsets in
  '(base, size) ← image_bounds headers (u64_lim - 1) 0;
  let mem_start := base / 0x1000 * 0x1000 in
  size ← sub_u64 size base;
  let pages := size / 4096 + 1 in
  '(page, u) ← unwrap (bs_allocate_pages (fst (bw w)) pages);
  s ← map_pages (u, snd (bw w)) root mem_start page (Z.to_nat pages) 0;
  b ← unwrap (vstore (snd s) root (bytes w) mem_start (replicate (Z.to_nat size) 0));
  b ← unwrap (copy_segments (snd s) root b data headers);
  Done (e_entry elf_header, mkInfo page pages, mkBoot s b).
End boot.

(** ** The boot services as an allocator of page tables *)
#[export] Instance boot_allocator {U} `{BootServices U} : PageAllocator U := {
  pa_allocate_page s :=
    match bs_allocate_pages (fst s) 1 with
    | Some (p, u) => Done (Some (mkPage p), (u, zero_bytes (snd s) p 0x1000))
    | None => Done (None, s)
    end;
  pa_allocate_pages s n :=
    match bs_allocate_pages (fst s) n with
    | Some (p, u) => Done (Some (mkPage p), (u, zero_bytes (snd s) p (n * 0x1000)))
    | None => Done (None, s)
    end;
  pa_free_page s p := Done (bs_free_pages (fst s) (get_address p) 1, snd s);
  pa_free_pages s p n := Done (bs_free_pages (fst s) (get_address p) n, snd s);
}.

Lemma zero_bytes_table m b f : f mod 0x1000 = 0 → b mod 0x1000 = 0 → f ≠ b → table (zero_bytes m b 0x1000) f = table m f.
Proof.
  intros Hf Hb Hne. cbn. rewrite (proj2 (in_bytes_false _ _ _)); [done|]. intros Hin.
  apply Z.mod_divide in Hf as [x ->]; [|done]. apply Z.mod_divide in Hb as [y ->]; [|done]. lia.
Qed.

#[export] Instance boot_allocator_spec {U} `{BootServicesSpec U} : PageAllocatorSpec U.
Proof.
  refine {| pa_owns := λ s F, bs_free (fst s) F |}.
  - intros s F. apply bs_free_frames.
  - intros a m m' F Ho _ _. exact Ho.
  - intros [u m] F Ho. cbn in *. destruct (bs_allocate_pages u 1) as [[p u']|] eqn:E.
    + left. destruct (bs_allocate_spec u F 1 p u' Ho ltac:(lia) E) as (F' & HF & Ho').
      rewrite range_frames_one in HF. destruct (bs_free_frames u F Ho) as [_ Hok].
      assert (frame_ok p) as (_ & Hp & _) by (eapply Forall_forall; [exact Hok|rewrite HF; left]).
      exists p, (u', zero_bytes m p 0x1000), F'. split_and!; [done|done|done| |].
      * intros i. cbn. by rewrite (proj2 (in_bytes_true _ _ _)) by lia.
      * intros f Hf Hne. by apply zero_bytes_table.
    + right. split; [done|]. by eapply bs_allocate_one.
  - intros [u m] F f Ho Hf Hn. cbn in *. eexists. split; [done|]. split; [by apply bs_free_spec|done].
Defined.

(** ** The indices *)
Lemma indexer_spec v :
  Z.to_nat (pdp_i (PageMapIndexer_new v)) = calculate_index 4 v ∧
  Z.to_nat (pd_i (PageMapIndexer_new v)) = calculate_index 3 v ∧
  Z.to_nat (pt_i (PageMapIndexer_new v)) = calculate_index 2 v ∧
  Z.to_nat (p_i (PageMapIndexer_new v)) = calculate_index 1 v.
Proof.
  unfold PageMapIndexer_new, calculate_index, INDEXER. cbn [pdp_i pd_i pt_i p_i].
  rewrite !Z.shiftr_shiftr by lia. done.
Qed.

(** ** Mapping *)

(** No large page, no stale size bit and no write protection in the upper levels of a tree. *)
Fixpoint small_tree (d : nat) (m : PMem) (t : Z) : Prop :=
  match d with
  | O => True
  | S d => ∀ i, (i < 512)%nat → larger_pages (table m t i) = false ∧
             (present (table m t i) = true →
                read_write (table m t i) = true ∧ small_tree d m (pde_get_address (table m t i)))
  end.

Lemma small_tree_ext d : ∀ m m' t,
  (∀ f, f ∈ tables d m t → table m' f = table m f) → small_tree d m t → small_tree d m' t.
Proof.
  induction d as [|d IH]; intros m m' t Hf Hs; [done|]. intros i Hi. rewrite (Hf t) by apply tables_head.
  destruct (Hs i Hi) as [Hl Hp]. split; [done|]. intros Hpr. split; [by apply Hp|]. apply (IH m); [|by apply Hp].
  intros f Hin. apply Hf. eapply (subtree_in_tables d m t i); [done|]. by rewrite subtree_present.
Qed.

(** The part of a table the loader goes through. *)
Definition small_entry (d : nat) (m : PMem) (t : Z) (i : nat) : Prop :=
  larger_pages (table m t i) = false ∧
  (present (table m t i) = true →
     read_write (table m t i) = true ∧ small_tree d m (pde_get_address (table m t i))).

Section mapping.
Context {U : Type} `{BootServicesSpec U}.

(** [map_memory] on a table [n] levels above the pages. *)
Fixpoint boot_map (n : nat) (s : U * PMem) (t v p : Z) (write : bool) : outcome (option Flusher * (U * PMem)) :=
  match n with
  | O => let '(u, m) := s in
         let i := calculate_index 1 v in
         e ← pde_set_address (set_present (table m t i) true) p;
         Done (Some (mkFlusher v), (u, set_entry m t i (set_read_write e write)))
  | S n => '(o, s) ← get_or_create_table s t (calculate_index (S (S n)) v);
           and_then o s (λ t s, boot_map n s t v p write)
  end.

Lemma get_or_create_some (s : U * PMem) t i o s' : get_or_create_table s t i = Done (o, s') → is_Some o.
Proof.
  destruct s as [u m]. unfold get_or_create_table. case_match; [naive_solver|]. intros Hg. inv_outcome.
  destruct x as [np [u1 m1]]. inv_outcome. by eexists.
Qed.

Lemma map_memory_boot_map (s : U * PMem) root v p w : map_memory s root v p w = boot_map 3 s root v p w.
Proof.
  unfold map_memory. destruct (indexer_spec v) as (-> & -> & -> & ->). cbn [boot_map].
  destruct (get_or_create_table s root (calculate_index 4 v)) as [[o1 s1]| |] eqn:E1; [|done..].
  destruct (get_or_create_some _ _ _ _ _ E1) as [t1 ->]. cbn [mbind outcome_bind and_then].
  destruct (get_or_create_table s1 t1 (calculate_index 3 v)) as [[o2 s2]| |] eqn:E2; [|done..].
  destruct (get_or_create_some _ _ _ _ _ E2) as [t2 ->]. cbn [mbind outcome_bind and_then].
  destruct (get_or_create_table s2 t2 (calculate_index 2 v)) as [[o3 s3]| |] eqn:E3; [|done..].
  destruct (get_or_create_some _ _ _ _ _ E3) as [t3 ->]. cbn [mbind outcome_bind and_then]. by destruct s3.
Qed.

(** The entry the loader leaves for a page. *)
Definition boot_entry (p : Z) (write : bool) (e : PageDirectoryEntry) : Prop :=
  present e = true ∧ read_write e = write ∧ pde_get_address e = p.

Lemma get_or_create_ok n (s : U * PMem) F t v :
  let i := calculate_index (S (S n)) v in
  pa_owns s F → frames_wf F (tables (S n) (snd s) t) → small_entry n (snd s) t i → F ≠ [] →
  ∃ next s' F', get_or_create_table s t i = Done (Some next, s') ∧
    conserves (S n) t F s F' s' ∧ (length F ≤ S (length F'))%nat ∧
    present (table (snd s') t i) = true ∧ larger_pages (table (snd s') t i) = false ∧
    pde_get_address (table (snd s') t i) = next ∧ read_write (table (snd s') t i) = true ∧ small_tree n (snd s') next ∧
    (∀ j, j ≠ i → table (snd s') t j = table (snd s) t j) ∧
    (∀ f, frame_ok f → f ≠ t → f ∉ F → table (snd s') f = table (snd s) f) ∧
    (∀ v', translate (S n) (snd s') t v' = translate (S n) (snd s) t v').
Proof.
  intros i Ho Hwf [Hl Hsm] HF. destruct s as [u m]. cbn [snd] in *. unfold get_or_create_table.
  destruct (present (table m t i)) eqn:Ep.
  { eexists _, (u, m), F. cbn [snd]. split_and!; try done; [lia|by apply Hsm..]. }
  unfold new_table.
  destruct (bs_allocate_pages u 1) as [[b u1]|] eqn:Ea; [|by apply (bs_allocate_one u F Ho) in Ea].
  cbn [unwrap mbind outcome_bind].
  destruct (bs_allocate_spec u F 1 b u1 Ho ltac:(lia) Ea) as (F1 & HFp & Ho1). rewrite range_frames_one in HFp. cbn [app] in HFp.
  assert (Hokb : frame_ok b) by (apply (frames_wf_table F _ b Hwf), elem_of_app; left; rewrite HFp; left).
  assert (Hokt : frame_ok t) by (apply (frames_wf_table F _ t Hwf), elem_of_app; right; apply tables_head).
  assert (Htb : t ≠ b).
  { intros ->. destruct Hwf as [(_ & Hd & _)%NoDup_app _]. apply (Hd b); [rewrite HFp; left|apply tables_head]. }
  destruct Hokb as (Hb0 & Hbm & HbT). destruct Hokt as (_ & Htm & _).
  set (m1 := zero_bytes m b 0x1000).
  assert (Ht1 : table m1 t = table m t) by by apply zero_bytes_table.
  destruct (pde_set_address_ok (table m1 t i) b) as (e0 & E0 & Hx1 & Hx2 & Hx3 & Hx4); [unfold PHYS_TOP in *; lia|].
  rewrite E0. cbn [mbind outcome_bind]. set (e := set_read_write (set_present e0 true) true).
  assert (Ee : pde_get_address e = b) by (change (pde_get_address e0 = b); by eapply pde_set_get_address).
  assert (El : larger_pages e = false) by (change (larger_pages e0 = false); rewrite Hx2, Ht1; done).
  destruct (link_fresh_ok n 0 (u, m) F t v b u1 m1 F1 e) as (Hcons & HF1 & He & _ & _ & Htr & _);
    rewrite ?Nat.add_0_r; try done.
  { intros j. unfold m1. cbn. by rewrite (proj2 (in_bytes_true _ _ _)) by lia. }
  { intros f Hf Hne. by apply zero_bytes_table. }
  rewrite ?Nat.add_0_r in *. cbv zeta in He. cbn [snd] in He. fold i in He.
  exists b, (u1, set_entry m1 t i e), F1. cbn [snd]. rewrite He. split_and!; try done.
  - destruct n; [done|]. intros j Hj. rewrite table_set_entry_frame by done.
    unfold m1. cbn. rewrite (proj2 (in_bytes_true _ _ _)) by lia. done.
  - intros j Hj. rewrite table_set_entry_ne by done. by rewrite Ht1.
  - intros f (_ & Hf & _) Hft HfF. rewrite table_set_entry_frame by done. apply zero_bytes_table; [done|done|].
    intros ->. apply HfF. rewrite HFp. left.
Qed.

(** Filling the slot of the last table. *)
Lemma boot_leaf_ok (s : U * PMem) F t v p w :
  pa_owns s F → frames_wf F (tables 0 (snd s) t) → phys_page_ok Size4KB p →
  ∃ s' e, boot_map 0 s t v p w = Done (Some (mkFlusher v), s') ∧ conserves 0 t F s F s' ∧
    translate 0 (snd s') t v = Some (O, e) ∧ boot_entry p w e ∧
    (∀ v', ¬ same_path 0 0 v v' → translate 0 (snd s') t v' = translate 0 (snd s) t v').
Proof.
  destruct s as [u m]. intros Ho Hwf [Hp Hpm]. cbn [boot_map snd PAGE_SIZE] in *. set (i := calculate_index 1 v).
  destruct (pde_set_address_ok (set_present (table m t i) true) p) as (e0 & E0 & Hx1 & _); [lia|].
  rewrite E0. cbn [mbind outcome_bind]. set (e := set_read_write e0 w).
  exists (u, set_entry m t i e), e. cbn [snd]. assert (Hi : (i < 512)%nat) by apply calculate_index_lt.
  assert (Hpr : present e = true) by (change (present e0 = true); by rewrite Hx1).
  split_and!; try done.
  - by apply conserves_set_leaf.
  - cbn [translate]. fold i. by rewrite table_set_entry_eq, Hpr.
  - split_and!; [done|done|]. change (pde_get_address e0 = p). by eapply pde_set_get_address.
  - intros v' Hv'. cbn [translate]. rewrite table_set_entry, decide_False; [done|]. intros [_ E]. apply Hv'. by split.
Qed.

(** What mapping on a tree of [n] levels above the pages does. *)
Definition boot_maps (n : nat) (s : U * PMem) (F : list Z) (t v p : Z) (w : bool) (s' : U * PMem) (F' : list Z) : Prop :=
  boot_map n s t v p w = Done (Some (mkFlusher v), s') ∧
  conserves n t F s F' s' ∧ (length F ≤ length F' + n)%nat ∧
  (∃ e, translate n (snd s') t v = Some (O, e) ∧ boot_entry p w e) ∧
  (∀ v', ¬ same_path n 0 v v' → translate n (snd s') t v' = translate n (snd s) t v').

(** One level down: only the entry of the address has to be small. *)
Lemma boot_down n (s : U * PMem) F t v p w :
  (∀ s F t, pa_owns s F → frames_wf F (tables n (snd s) t) → small_tree n (snd s) t → (n ≤ length F)%nat →
     ∃ s' F', boot_maps n s F t v p w s' F' ∧ small_tree n (snd s') t) →
  let i := calculate_index (S (S n)) v in
  pa_owns s F → frames_wf F (tables (S n) (snd s) t) → small_entry n (snd s) t i → (S n ≤ length F)%nat →
  ∃ s' F', boot_maps (S n) s F t v p w s' F' ∧ small_entry n (snd s') t i ∧
    (∀ j, j ≠ i → table (snd s') t j = table (snd s) t j) ∧
    (∀ f, f ∈ siblings n (snd s) t i → table (snd s') f = table (snd s) f).
Proof.
  intros IH i Ho Hwf Hsm HF.
  destruct (get_or_create_ok n s F t v Ho Hwf Hsm) as (next & s1 & F1 & Eg & Hcons & HF1 & Ep & El & Ea & Erw & Hs1 & Hj1 & Hf1 & Htr1);
    [by intros ->; cbn in HF; lia|]. fold i in Eg, Ep, El, Ea, Erw, Hj1.
  assert (Hi : (i < 512)%nat) by apply calculate_index_lt.
  pose proof (conserves_wf _ _ _ _ _ _ Hcons Hwf) as Hwf1.
  pose proof (frames_wf_enter _ _ _ i _ Hi Hwf1) as (Hsub & _).
  rewrite (subtree_present _ _ _ _ Ep El), Ea in Hsub.
  destruct (IH s1 F1 next) as (s2 & F2 & (E2 & Hcons2 & HF2 & (e & Htr2 & He) & Hoth2) & Hs2); [apply Hcons|done|done|lia|].
  rewrite <- Ea in Hcons2, Htr2, Hoth2.
  destruct (conserves_enter _ _ i _ _ _ _ Hi Hwf1 Ep El Hcons2) as (Htab & Hcons3 & Hoth3 & _).
  exists s2, F2. split; [|split; [|split]].
  - split_and!.
    + cbn [boot_map]. fold i. rewrite Eg. cbn [mbind outcome_bind and_then]. exact E2.
    + by eapply conserves_trans.
    + lia.
    + exists (narrow (table (snd s1) t i) e). split.
      * rewrite translate_enter by (fold i; by rewrite Htab). fold i. by rewrite Htab, Htr2.
      * destruct He as (? & ? & ?). split_and!; [done| |done]. cbn. by rewrite Erw.
    + intros v' Hv'. rewrite <- Htr1.
      destruct (decide (calculate_index (S (S n)) v' = i)) as [E|E]; [|by apply Hoth3].
      assert (Hen : ∀ m, table m t = table (snd s1) t →
        translate (S n) m t v' = through (table (snd s1) t i) <$> translate n m (pde_get_address (table (snd s1) t i)) v').
      { intros m Hm. rewrite translate_enter; rewrite E, Hm; done. }
      rewrite (Hen _ Htab), (Hen _ eq_refl). f_equal. apply Hoth2. contradict Hv'. cbn [same_path]. rewrite !Nat.add_0_r. done.
  - unfold small_entry. rewrite Htab, Ea. done.
  - intros j Hj. rewrite Htab. by apply Hj1.
  - intros f Hf. destruct (frames_wf_enter _ _ _ i _ Hi Hwf) as (_ & _ & _ & Hts & Hsib). destruct (Hsib f Hf) as [Hok Hnin].
    assert (f ≠ t) by (intros ->; done).
    assert (Hs : siblings n (snd s1) t i = siblings n (snd s) t i).
    { apply siblings_ext; [done|]. intros g Hg. destruct (Hsib g Hg) as [? ?]. apply Hf1; [done|intros ->; done|set_solver]. }
    destruct (frames_wf_enter _ _ _ i _ Hi Hwf1) as (_ & _ & _ & _ & Hsib1).
    destruct (Hsib1 f) as [_ Hnin1]; [by rewrite Hs|]. rewrite (subtree_present _ _ _ _ Ep El) in Hnin1.
    destruct Hcons2 as (_ & _ & Hout). rewrite Hout by done. apply Hf1; [done|done|set_solver].
Qed.

Lemma boot_map_ok n v p w : phys_page_ok Size4KB p → ∀ (s : U * PMem) F t,
  pa_owns s F → frames_wf F (tables n (snd s) t) → small_tree n (snd s) t → (n ≤ length F)%nat →
  ∃ s' F', boot_maps n s F t v p w s' F' ∧ small_tree n (snd s') t.
Proof.
  intros Hp. induction n as [|n IH]; intros s F t Ho Hwf Hsm HF.
  { destruct (boot_leaf_ok s F t v p w Ho Hwf Hp) as (s' & e & E & Hc & Ht & He & Hoth).
    exists s', F. split; [|done]. split_and!; try done; [lia|by exists e]. }
  set (i := calculate_index (S (S n)) v). assert (Hi : (i < 512)%nat) by apply calculate_index_lt.
  destruct (boot_down n s F t v p w IH Ho Hwf (Hsm i Hi) HF) as (s' & F' & Hm & Hsm' & Hj & Hsib).
  exists s', F'. split; [done|]. intros j Hlt. destruct (decide (j = i)) as [->|Hne]; [exact Hsm'|].
  rewrite Hj by done. destruct (Hsm j Hlt) as [Hl Hs]. split; [done|]. intros Hpr. split; [by apply Hs|].
  apply (small_tree_ext n (snd s)); [|by apply Hs]. intros f Hf. apply Hsib.
  unfold siblings. apply elem_of_app. fold i.
  assert (Hin : f ∈ subtree n (snd s) t j) by by rewrite subtree_present.
  destruct (decide (j < i)%nat); [left|right]; apply elem_of_concat_fmap; exists j; (split; [apply elem_of_seq; lia|done]).
Qed.

(** [map_memory] of the boot loader, on tables in which no large page and no write protection
    is in the way, makes the walk of the page end at the physical page with the permission asked for,
    replacing a mapping that was there, leaves the walk of every other page alone, takes
    the tables it needs from the free pages and loses none. *)
Theorem map_memory_spec (s : U * PMem) F root v p w :
  pa_owns s F → frames_wf F (tables 3 (snd s) root) → virt_ok v → phys_page_ok Size4KB p →
  small_entry 2 (snd s) root (calculate_index 4 v) → (3 ≤ length F)%nat →
  ∃ s' F' e, map_memory s root v p w = Done (Some (mkFlusher v), s') ∧
    conserves 3 root F s F' s' ∧ (length F ≤ length F' + 3)%nat ∧
    translate 3 (snd s') root v = Some (O, e) ∧ boot_entry p w e ∧
    small_entry 2 (snd s') root (calculate_index 4 v) ∧
    (∀ v', virt_ok v' → v' / 0x1000 ≠ v / 0x1000 → translate 3 (snd s') root v' = translate 3 (snd s) root v').
Proof.
  intros Ho Hwf Hv Hp Hsm HF. rewrite map_memory_boot_map.
  destruct (boot_down 2 s F root v p w (boot_map_ok 2 v p w Hp) Ho Hwf Hsm HF)
    as (s' & F' & (E & Hc & HF' & (e & Ht & He) & Hoth) & Hsm' & _).
  exists s', F', e. split_and!; try done. intros v' Hv' Hne. apply Hoth. contradict Hne. symmetry.
  by apply (same_path_page Size4KB).
Qed.

(** ** The kernel's pages *)
Lemma index_same_page L v v' : (1 ≤ L)%nat → v / 0x1000 = v' / 0x1000 → calculate_index L v = calculate_index L v'.
Proof.
  intros HL Hv. unfold calculate_index, INDEXER. do 2 f_equal.
  rewrite !Z.shiftr_div_pow2 by lia. replace (Z.of_nat L * 9 + 3) with (12 + 9 * (Z.of_nat L - 1)) by lia.
  rewrite Z.pow_add_r, <- !Z.div_div by lia. change (2 ^ 12) with 0x1000. by rewrite Hv.
Qed.

Lemma translate_same_page d m : ∀ t v v', v / 0x1000 = v' / 0x1000 → translate d m t v = translate d m t v'.
Proof.
  induction d as [|d IH]; intros t v v' Hv; cbn [translate]; rewrite (index_same_page _ v v') by (lia || done); [done|].
  destruct (present _); [|done]. destruct (larger_pages _); [done|]. f_equal. by apply IH.
Qed.

(** What the page of [mem_start + 0x1000 * j] maps to, for the pages from [p] on. *)
Definition pages_mapped (m : PMem) (root mem_start page p n : Z) : Prop :=
  ∀ j, p <= j < p + n → ∃ e, translate 3 m root (mem_start + 0x1000 * j) = Some (O, e) ∧ boot_entry (page + 0x1000 * j) true e.

(** The kernel's virtual pages: canonical, below one entry of the root. *)
Definition one_slot (mem_start p n : Z) (i : nat) : Prop :=
  ∀ j, p <= j < p + n → virt_ok (mem_start + 0x1000 * j) ∧ calculate_index 4 (mem_start + 0x1000 * j) = i.

Lemma page_number a j : a mod 0x1000 = 0 → (a + 0x1000 * j) / 0x1000 = a / 0x1000 + j.
Proof. intros Ha. rewrite Z.mul_comm, Z.div_add by lia. done. Qed.

Lemma boot_map_pages_ok root mem_start page i n : ∀ (s : U * PMem) F p,
  mem_start mod 0x1000 = 0 → page mod 0x1000 = 0 → 0 < page → page + 0x1000 * (p + Z.of_nat n) <= 2 ^ 47 → 0 <= mem_start → 0 <= p →
  one_slot mem_start p (Z.of_nat n) i →
  pa_owns s F → frames_wf F (tables 3 (snd s) root) → small_entry 2 (snd s) root i → (3 * n ≤ length F)%nat →
  ∃ s' F', map_pages s root mem_start page n p = Done s' ∧ conserves 3 root F s F' s' ∧
    pages_mapped (snd s') root mem_start page p (Z.of_nat n) ∧
    (∀ v, virt_ok v → ¬ (mem_start / 0x1000 + p <= v / 0x1000 < mem_start / 0x1000 + p + Z.of_nat n) →
       translate 3 (snd s') root v = translate 3 (snd s) root v).
Proof.
  induction n as [|n IH]; intros s F p Hms Hpg Hp0 Hp1 Hm0 Hp Hslot Ho Hwf Hsm HF.
  { exists s, F. split_and!; try done. intros j Hj. lia. }
  destruct (Hslot p) as [Hv Hi]; [lia|]. cbn [map_pages]. destruct Hv as [Hv64 Hcan].
  unfold add_u64. rewrite (chk_ok u64_lim (mem_start + _)) by lia. cbn [mbind outcome_bind].
  rewrite (chk_ok u64_lim (page + _)) by (unfold u64_lim; lia). cbn [mbind outcome_bind].
  destruct (map_memory_spec s F root (mem_start + 0x1000 * p) (page + 0x1000 * p) true)
    as (s1 & F1 & e & -> & Hc1 & HF1 & Ht1 & He & Hsm1 & Hoth1); try done.
  { split; [lia|]. cbn [PAGE_SIZE]. rewrite Z.mul_comm, Z.mod_add by lia. done. }
  { by rewrite Hi. }
  { lia. }
  cbn [mbind outcome_bind unwrap]. rewrite Hi in Hsm1.
  destruct (IH s1 F1 (p + 1)) as (s2 & F2 & -> & Hc2 & Hpm & Hoth2); try done; try lia.
  { intros j Hj. apply Hslot. lia. }
  { by apply Hc1. }
  { by eapply conserves_wf. }
  exists s2, F2. split_and!; [done|by eapply conserves_trans| |].
  - intros j Hj. destruct (decide (j = p)) as [->|Hne]; [|apply Hpm; lia].
    exists e. split; [|done]. rewrite Hoth2; [done|done|]. rewrite page_number by done. lia.
  - intros v Hv Hout. rewrite Hoth2, Hoth1; [done|done| |done|lia]. rewrite page_number by done. lia.
Qed.
End mapping.

(** ** Writing through the tables *)

(** Virtual addresses from [lo] to [hi] lie in a row of physical memory that can be written. *)
Definition linear (m : PMem) (root lo hi delta : Z) : Prop :=
  ∀ v, lo <= v < hi → phys_of m root v = Some (v + delta) ∧ write_of m root v = Some (v + delta).

Lemma pages_linear m root mem_start page n :
  mem_start mod 0x1000 = 0 → pages_mapped m root mem_start page 0 n →
  linear m root mem_start (mem_start + 0x1000 * n) (page - mem_start).
Proof.
  intros Hms Hm v Hv. set (j := (v - mem_start) / 0x1000).
  pose proof (Z.div_mod (v - mem_start) 0x1000 ltac:(lia)) as Hdm. fold j in Hdm.
  pose proof (Z.mod_pos_bound (v - mem_start) 0x1000 ltac:(lia)) as Hb.
  destruct (Hm j) as (e & Ht & _ & Hrw & He); [split; [apply Z.div_pos; lia|apply Z.div_lt_upper_bound; lia]|].
  unfold phys_of, write_of. rewrite (translate_same_page 3 m root v (mem_start + 0x1000 * j)), Ht, He, Hrw.
  - assert (E : page + 0x1000 * j + v mod 2 ^ (12 + 9 * Z.of_nat 0) = v + (page - mem_start)); [|by rewrite E]. change (2 ^ (12 + 9 * Z.of_nat 0)) with 0x1000.
    replace (v mod 0x1000) with ((v - mem_start) mod 0x1000); [lia|].
    rewrite <- Zminus_mod_idemp_r, Hms, Z.sub_0_r. done.
  - rewrite page_number by done. replace v with (v - mem_start + mem_start / 0x1000 * 0x1000) at 1
      by (pose proof (Z.div_mod mem_start 0x1000 ltac:(lia)); lia).
    rewrite Z.div_add by lia. subst j. lia.
Qed.

Lemma vstore_linear m root lo hi delta l : ∀ b v,
  linear m root lo hi delta → lo <= v → v + Z.of_nat (length l) <= hi →
  vstore m root b v l = Some (store_bytes b (v + delta) l).
Proof.
  induction l as [|x l IH]; intros b v Hl Hlo Hhi; [done|]. cbn [vstore store_bytes length] in *.
  rewrite (proj2 (Hl v ltac:(lia))). cbn. rewrite IH by (done || lia). by replace (v + 1 + delta) with (v + delta + 1) by lia.
Qed.

(** The byte of the image at a virtual address: that of the last segment over it. *)
Definition segment_byte (data : Image) (h : Elf64Phdr) (v old : Z) : Z :=
  if (p_type h =? PT_LOAD) && (p_vaddr h <=? v) && (v <? p_vaddr h + p_filesz h)
  then data (p_offset h + (v - p_vaddr h)) else old.
Definition image_byte (data : Image) (hs : list Elf64Phdr) (v old : Z) : Z :=
  fold_left (λ old h, segment_byte data h v old) hs old.

(** A segment that lies in the image. *)
Definition segment_in (base end_ : Z) (h : Elf64Phdr) : Prop :=
  p_type h = PT_LOAD → 0 <= p_filesz h ∧ base <= p_vaddr h ∧ p_vaddr h + p_filesz h <= end_.

Lemma length_bytes_at data o n : 0 <= n → Z.of_nat (length (bytes_at data o n)) = n.
Proof. intros Hn. unfold bytes_at. rewrite length_fmap, length_seqZ. lia. Qed.

Lemma bytes_at_lookup data o n i : 0 <= i < n → bytes_at data o n !!! Z.to_nat i = data (o + i).
Proof.
  intros Hi. apply list_lookup_total_correct. unfold bytes_at. rewrite list_lookup_fmap, lookup_seqZ_lt by lia.
  cbn. do 2 f_equal. lia.
Qed.

Lemma copy_segments_linear m root lo hi delta data hs : ∀ b,
  linear m root lo hi delta → Forall (segment_in lo hi) hs →
  ∃ b', copy_segments m root b data hs = Some b' ∧
    (∀ v, lo <= v < hi → b' (v + delta) = image_byte data hs v (b (v + delta))) ∧
    (∀ a, ¬ (lo + delta <= a < hi + delta) → b' a = b a).
Proof.
  induction hs as [|h hs IH]; intros b Hl Hs; [by exists b|]. apply Forall_cons in Hs as [Hh Hs]. cbn [copy_segments].
  assert (Hstep : ∃ b1, (if p_type h =? PT_LOAD then vstore m root b (p_vaddr h) (bytes_at data (p_offset h) (p_filesz h)) else Some b) = Some b1 ∧
    (∀ v, lo <= v < hi → b1 (v + delta) = segment_byte data h v (b (v + delta))) ∧
    (∀ a, ¬ (lo + delta <= a < hi + delta) → b1 a = b a)).
  { unfold segment_byte. destruct (Z.eqb_spec (p_type h) PT_LOAD) as [E|E]; [|by exists b].
    destruct (Hh E) as (H0 & H1 & H2). rewrite (vstore_linear _ _ lo hi delta) by (try done; rewrite length_bytes_at by done; lia).
    eexists. split; [done|]. split; intros v Hv; rewrite store_bytes_lookup, length_bytes_at by done.
    - cbn [andb]. bool_cases; cbn [andb].
      + rewrite decide_True by lia. replace (v + delta - (p_vaddr h + delta)) with (v - p_vaddr h) by lia. by rewrite bytes_at_lookup by lia.
      + by rewrite decide_False by lia.
      + by rewrite decide_False by lia.
      + by rewrite decide_False by lia.
    - by rewrite decide_False by lia. }
  destruct Hstep as (b1 & -> & Hb1 & Ho1). cbn. destruct (IH b1 Hl Hs) as (b' & -> & Hb' & Ho').
  exists b'. split_and!; [done| |].
  - intros v Hv. unfold image_byte. cbn [fold_left]. rewrite Hb', Hb1 by done. done.
  - intros a Ha. by rewrite Ho', Ho1.
Qed.

Lemma image_bounds_in hs : ∀ b z b' z',
  image_bounds hs b z = Done (b', z') →
  b' <= b ∧ z <= z' ∧ Forall (λ h, b' <= p_vaddr h ∧ p_vaddr h + p_memsz h <= z') hs.
Proof.
  induction hs as [|h hs IH]; intros b z b' z' Hb; cbn [image_bounds] in Hb; unfold add_u64 in Hb; inv_outcome.
  { split_and!; [lia|lia|constructor]. }
  match goal with H : image_bounds hs _ _ = _ |- _ => destruct (IH _ _ _ _ H) as (Hb1 & Hb2 & Hb3) end.
  split_and!; [lia|lia|]. constructor; [lia|done].
Qed.

(** ** The loaded kernel *)
Section loaded.
Context {U : Type} `{BootServicesSpec U}.

(** A segment is no longer in the file than in memory. *)
Definition segment_ok (h : Elf64Phdr) : Prop := 0 <= p_filesz h <= p_memsz h.

Lemma frames_wf_allocated (F F' T : list Z) p n :
  F ≡ₚ range_frames p n ++ F' → frames_wf F T → frames_wf F' T.
Proof.
  intros HF [Hn Ho]. rewrite HF, <- app_assoc in Hn, Ho. apply NoDup_app in Hn as (_ & _ & Hn).
  apply Forall_app in Ho as [_ Ho]. by split.
Qed.

(** The pages of an allocation are in range. *)
Lemma allocated_range (F F' : list Z) p n :
  0 < n → F ≡ₚ range_frames p n ++ F' → Forall frame_ok F →
  0 < p ∧ p mod 0x1000 = 0 ∧ p + 0x1000 * n <= PHYS_TOP.
Proof.
  intros Hn HF Ho. rewrite HF in Ho. apply Forall_app in Ho as [Ho _]. rewrite Forall_forall in Ho.
  destruct (Ho p) as (H1 & H2 & _); [by apply range_frames_head|].
  destruct (Ho (p + (n - 1) * 0x1000)) as (_ & _ & H3); [apply elem_of_range_frames; exists (n - 1); lia|]. split_and!; [done|done|lia].
Qed.

End loaded.

(** ** What the header loop does with common files *)

(** The loop ends at [e_phnum * e_phentsize] instead of that much behind [e_phoff]: with
    the headers behind the file header, the last one is not visited.  A stack header with
    address zero, which linkers put last, would otherwise be the base of the image:
    [image_bounds] does not look at the type. *)
Lemma stack_header_is_base hs base end_ h :
  h ∈ hs → p_vaddr h = 0 → image_bounds hs (u64_lim - 1) 0 = Done (base, end_) → base <= 0.
Proof.
  intros Hh Hv Hb. destruct (image_bounds_in _ _ _ _ _ Hb) as (_ & _ & Hin). rewrite Forall_forall in Hin.
  destruct (Hin h Hh). lia.
Qed.

(** With a base inside of a page the count of pages can be one too small. *)
Lemma unaligned_base_short :
  let base := 0x1FFF in let end_ := 0x3001 in
  base / 0x1000 * 0x1000 + 0x1000 * ((end_ - base) / 4096 + 1) < end_.
Proof. by vm_compute. Qed.

(** [has_entries] says of a table that it has none. *)
Lemma has_entries_inverted m t : has_entries m t = all_entries_empty m t.
Proof. reflexivity. Qed.

(** ** A firmware with a list of free pages *)
Definition Firmware : Type := list Z.

#[export] Instance firmware : BootServices Firmware := {
  bs_allocate_pages u n :=
    match u with
    | p :: _ => if decide (take (Z.to_nat n) u = range_frames p n) then Some (p, drop (Z.to_nat n) u) else None
    | [] => None
    end;
  bs_free_pages u f _ := f :: u;
}.

#[export] Instance firmware_spec : BootServicesSpec Firmware.
Proof.
  refine {| bs_free := λ u F, u = F ∧ NoDup u ∧ Forall frame_ok u |}.
  - naive_solver.
  - intros u F n p u' (-> & Hn & Ho) Hpos Ha. destruct F as [|x F]; [done|]. cbn -[take drop] in Ha.
    case_decide as E; simplify_eq. exists (drop (Z.to_nat n) (p :: F)). rewrite <- E. rewrite take_drop.
    split_and!; [done|done| |].
    + rewrite <- (take_drop (Z.to_nat n) (p :: F)) in Hn. by apply NoDup_app in Hn as (_ & _ & Hn).
    + by apply Forall_drop.
  - intros u F (-> & _). destruct F as [|x F]; [done|]. cbn. rewrite range_frames_one, decide_True by (by destruct F). done.
  - intros u F f (-> & Hn & Ho) Hf Hx. split_and!; [done|by constructor|by constructor].
Defined.

Definition demo_kernel_hdr : Elf64Ehdr := mkEhdr (ELF_HEADER_SIG ++ replicate 10 0) 2 62 1 0xffffff8000000000 64 0 0 64 56 2 0 0 0.
Definition demo_kernel_ph : Elf64Phdr := mkPhdr PT_LOAD 5 120 0xffffff8000000000 0 3 5 0x1000.
Definition demo_kernel : Image := image_of (ehdr_bytes demo_kernel_hdr ++ phdr_bytes demo_kernel_ph ++ [0x90; 0x91; 0x92]).
Definition demo_boot : Machine (U := Firmware) := mkBoot (range_frames 0x10000 4, demo_mem) (λ _, 0xAA).

Lemma demo_firmware_free : bs_free (range_frames 0x10000 4 : Firmware) (range_frames 0x10000 4).
Proof. split_and!; [done|apply range_frames_NoDup|]. by destruct demo_root_wf as [_ [Ho _]%Forall_app]. Qed.

Lemma demo_boot_wf : frames_wf (range_frames 0x10000 4) (tables 3 demo_mem 0x5000).
Proof. exact demo_root_wf. Qed.

Lemma map_memory_spec_witness :
  ∃ s' e, map_memory (U := Firmware) (range_frames 0x10000 4, demo_mem) 0x5000 0xffffff8000000000 0x7000 true = Done (Some (mkFlusher 0xffffff8000000000), s') ∧
    translate 3 (snd s') 0x5000 0xffffff8000000000 = Some (O, e) ∧ boot_entry 0x7000 true e.
Proof.
  destruct (map_memory_spec (U := Firmware) (range_frames 0x10000 4, demo_mem) (range_frames 0x10000 4) 0x5000 0xffffff8000000000 0x7000 true)
    as (s' & F' & e & H1 & _ & _ & H2 & H3 & _).
  - exact demo_firmware_free.
  - exact demo_boot_wf.
  - split; [unfold u64_lim; lia|right; unfold u64_lim; lia].
  - split; [lia|reflexivity].
  - by split.
  - vm_compute. repeat constructor.
  - exists s', e. done.
Defined.

