(* ===== verification/Apic.v ===== *)
(** * Interrupt controllers and timers

    [kernel/src/ioapic.rs] (the ACPI table of controllers and the redirection of
    interrupt lines), [kernel/src/lapic.rs], [kernel/src/interrupts/pic.rs],
    [kernel/src/time/hpet.rs] and the vectors of [kernel/src/interrupts/mod.rs] and
    [exceptions.rs].  A controller is the registers it is reached by, with the behaviour
    its data sheet gives; the table is the bytes from its start on. *)
From S2P Require Import Prelude.

(** ** The MADT *)
Record IOApic := mkIOApic { apic_id : Z; rsv : Z; apic_addr : Z; interrupt_base : Z }.
Record ApicInterruptOveride := mkOverride { bus_source : Z; irq_source : Z; interrupt_num : Z; ov_flags : Z }.

Definition byte (d : list Z) (i : nat) : Z := field d i 1.

(** [size_of::<Madt>()]: the header of 36 bytes and two words. *)
Definition MADT_SIZE : nat := 44.
Definition madt_length (d : list Z) : Z := field d 4 4.
Definition local_apic_address (d : list Z) : Z := field d 36 4.

(** The casts of a pointer to the packed structures. *)
Definition IOApic_at (d : list Z) (p : nat) : IOApic :=
  mkIOApic (byte d p) (byte d (p + 1)) (field d (p + 2) 4) (field d (p + 6) 4).
Definition Override_at (d : list Z) (p : nat) : ApicInterruptOveride :=
  mkOverride (byte d p) (byte d (p + 1)) (field d (p + 2) 4) (field d (p + 6) 2).

(** The loop over the entries; [step] is what the [match] does with one. *)
Fixpoint madt_walk {S} (fuel : nat) (d : list Z) (step : Z → nat → S → S) (p : nat) (length_left : Z) (s : S) : outcome S :=
  match fuel with
  | O => OutOfFuel
  | Datatypes.S fuel =>
      if 0 <? length_left then
        let entry := byte d p in
        let len := byte d (p + 1) in
        let s := step entry p s in
        length_left ← sub_u32 length_left len;
        madt_walk fuel d step (p + Z.to_nat len) length_left s
      else Done s
  end.

Definition push_lapic (d : list Z) (p : nat) (ids : list Z) : list Z :=
  let ptr3 := byte d (p + 3) in
  let ptr4 := byte d (p + 4) in
  if (0 <? Z.land ptr4 1) && (ptr3 <=? 8) then ids ++ [ptr3] else ids.

(** [Madt::get_lapid_ids]. *)
Definition get_lapid_ids (fuel : nat) (d : list Z) : outcome (list Z) :=
  length_left ← sub_u32 (madt_length d) (Z.of_nat MADT_SIZE);
  madt_walk fuel d (λ entry p ids, if entry =? 0 then push_lapic d p ids else ids) MADT_SIZE length_left [].

(** What [find_ioapic] collects. *)
Record Madt := mkMadt {
  lapic_addr : Z;
  lapic_ids : list Z;
  io_apics : list IOApic;
  apic_overide : list ApicInterruptOveride;
}.

Definition madt_step (d : list Z) (entry : Z) (p : nat) (s : Madt) : Madt :=
  match entry with
  | 0 => mkMadt (lapic_addr s) (push_lapic d p (lapic_ids s)) (io_apics s) (apic_overide s)
  | 1 => mkMadt (lapic_addr s) (lapic_ids s) (io_apics s ++ [IOApic_at d (p + 2)]) (apic_overide s)
  | 2 => mkMadt (lapic_addr s) (lapic_ids s) (io_apics s) (apic_overide s ++ [Override_at d (p + 2)])
  | 5 => mkMadt (field d (p + 4) 8) (lapic_ids s) (io_apics s) (apic_overide s)
  | _ => s
  end.

Definition find_ioapic (fuel : nat) (d : list Z) : outcome Madt :=
  length_left ← sub_u32 (madt_length d) (Z.of_nat MADT_SIZE);
  madt_walk fuel d (madt_step d) MADT_SIZE length_left (mkMadt (local_apic_address d) [] [] []).

(** ** The I/O APIC

    Two words of memory: the selected register and its window. *)
Record ioapic := mkIoapic { io_sel : Z; io_reg : Z → Z }.

Definition add_u8 (a b : Z) : outcome Z := chk u8_lim (a + b).
Definition mul_u8 (a b : Z) : outcome Z := chk u8_lim (a * b).

Definition write_ioapic_register (a : ioapic) (offset val : Z) : ioapic :=
  mkIoapic offset (<[offset := val]> (io_reg a)).
Definition read_ioapic_register (a : ioapic) (offset : Z) : Z * ioapic :=
  (io_reg a offset, mkIoapic offset (io_reg a)).

(** [low.set_bit(16, b)]. *)
Definition set_bit (w n : Z) (b : bool) : Z := if b then Z.setbit w n else Z.clearbit w n.

Definition set_redirect_entry (a : ioapic) (processor irq vector : Z) (enable : bool) : outcome ioapic :=
  i ← mul_u8 2 irq;
  lo ← add_u8 0x10 i;
  let '(low, a) := read_ioapic_register a lo in
  hi ← add_u8 0x11 i;
  let '(high, a) := read_ioapic_register a hi in
  let high := Z.ldiff high 0xff000000 in
  let high := Z.lor high (Z.shiftl processor 24 mod 2 ^ 32) in
  let a := write_ioapic_register a hi high in
  let low := set_bit low 16 (negb enable) in
  let low := Z.clearbit low 11 in
  let low := Z.ldiff low 0x700 in
  let low := Z.ldiff low 0xFF in
  let low := Z.lor low vector in
  Done (write_ioapic_register a lo low).

(** The part of [mask_entry] between mapping and unmapping the registers. *)
Definition mask_entry (a : ioapic) (irq : Z) (enable : bool) : outcome ioapic :=
  i ← mul_u8 2 irq;
  lo ← add_u8 0x10 i;
  let '(low, a) := read_ioapic_register a lo in
  Done (write_ioapic_register a lo (set_bit low 16 (negb enable))).

(** ** Vectors *)
Inductive handler :=
  | HException (name : nat) | HBreakpoint | HDoubleFault | HInvalidTss | HGeneralProtection | HPageFault
  | HPicSpurious | HSyscall | HTick | HIpi | HSpurious
  | HSource (int : nat).   (* the handlers of [INTERRUPT_SOURCES] *)

Definition INT_KB : nat := 0.
Definition INT_MOUSE : nat := 1.
Definition INT_PCI : nat := 2.
Definition INT_COM1 : nat := 3.

Definition IRQ_OFFSET : Z := 49.
Definition LAPIC_INT : Z := 60.
Definition SYSCALL_NUMBER : Z := 0x80.

Definition idt : Type := Z → option handler.

(** [set_exceptions_idt]: the vectors of the architecture. *)
Definition set_exceptions_idt (i : idt) : idt :=
  let set v h i := <[v := Some h]> i in
  set 14 HPageFault (set 13 HGeneralProtection (set 10 HInvalidTss (set 8 HDoubleFault
  (set 7 (HException 7) (set 6 (HException 6) (set 5 (HException 5) (set 4 (HException 4)
  (set 3 HBreakpoint (set 2 (HException 2) (set 1 (HException 1) (set 0 (HException 0) i))))))))))).

(** [pic::set_spurious_interrupts]. *)
Definition set_spurious_interrupts (i : idt) : idt :=
  foldr (λ v i, <[v := Some HPicSpurious]> i) i (seqZ 32 16).

(** The initial value of [IDT]. *)
Definition IDT_new : idt :=
  <[SYSCALL_NUMBER := Some HSyscall]> (set_spurious_interrupts (set_exceptions_idt (λ _, None))).

Definition set_irq_handler (i : idt) (irq : Z) (func : handler) : outcome idt :=
  _ ← assert_ ((IRQ_OFFSET <=? irq) && (irq <=? 255));
  Done (<[irq := Some func]> i).

(** [init_idt], but for loading the table and disabling the PIC. *)
Definition init_idt (i : idt) : outcome idt :=
  let i := <[LAPIC_INT := Some HTick]> i in
  i ← set_irq_handler i 100 HIpi;
  set_irq_handler i 0xFF HSpurious.

(** [enable_apic] on the first controller of the table. *)
Definition enable_apic (i : idt) (a : ioapic) : outcome (idt * ioapic) :=
  i ← set_irq_handler i 50 (HSource INT_KB);
  a ← set_redirect_entry a 0 1 50 true;
  i ← set_irq_handler i 51 (HSource INT_MOUSE);
  a ← set_redirect_entry a 0 12 51 true;
  i ← set_irq_handler i 52 (HSource INT_PCI);
  a ← set_redirect_entry a 0 10 52 true;
  a ← set_redirect_entry a 0 11 52 true;
  i ← set_irq_handler i 53 (HSource INT_COM1);
  a ← set_redirect_entry a 0 4 53 true;
  Done (i, a).

(** What the controller does with a line: the core and the vector, or nothing. *)
Definition deliver (a : ioapic) (irq : Z) : option (Z * Z) :=
  let low := io_reg a (0x10 + 2 * irq) in
  let high := io_reg a (0x11 + 2 * irq) in
  if Z.testbit low 16 then None else Some (Z.shiftr high 24 mod 2 ^ 8, low mod 2 ^ 8).

(** ** The local APIC *)
Inductive lapic_op := WriteLapic (offset val : Z) | ReadLapic (offset : Z) | SpinMs (ms : Z).

(** [enable_localapic]; [count] is what register [0x390] reads. *)
Definition enable_localapic (count : Z) : outcome (Z * list lapic_op) :=
  ticks_per_ms ← sub_u32 0xFFFFFFFF count;
  Done (ticks_per_ms,
    [WriteLapic 0xF0 (Z.lor (Z.shiftl 1 8) 0xFF); WriteLapic 0x3E0 0x3; WriteLapic 0x380 0xFFFFFFFF;
     SpinMs 1; ReadLapic 0x390; WriteLapic 0x320 (Z.lor 60 0x20000); WriteLapic 0x3E0 0x3;
     WriteLapic 0x380 ticks_per_ms]).

(** [send_ipi_to], behind the wait for the one before. *)
Definition send_ipi_to (apic_id vector : Z) : list lapic_op :=
  [WriteLapic 0x310 (Z.shiftl apic_id 24 mod 2 ^ 32); WriteLapic 0x300 (Z.lor vector (Z.shiftl 1 14))].

(** ** The PIC *)

(** One of the two controllers: the step of its initialisation it waits for, the vector
    of its first line and the mask of the lines. *)
Record pic := mkPic { icw : nat; offset : Z; imr : Z }.

Inductive pic_port := Command | Data.

(** A command with bit 4 starts the initialisation; the data port then takes the offset,
    the wiring and the mode, and otherwise the mask. *)
Definition pic_write (c : pic) (p : pic_port) (v : Z) : pic :=
  match p with
  | Command => if Z.testbit v 4 then mkPic 2 (offset c) 0 else c
  | Data =>
      match icw c with
      | 2%nat => mkPic 3 (Z.land v 0xF8) (imr c)
      | 3%nat => mkPic 4 (offset c) (imr c)
      | 4%nat => mkPic 0 (offset c) (imr c)
      | _ => mkPic (icw c) (offset c) v
      end
  end.

Inductive which_pic := Master | Slave.

(** [disable_pic], without the writes to the delay port. *)
Definition disable_pic : list (which_pic * pic_port * Z) :=
  [(Master, Command, 0x11); (Slave, Command, 0x11); (Master, Data, 32); (Slave, Data, 40);
   (Master, Data, 4); (Slave, Data, 2); (Master, Data, 1); (Slave, Data, 1);
   (Master, Data, 0xFF); (Slave, Data, 0xFF)].

Definition pics_write (s : pic * pic) (w : which_pic * pic_port * Z) : pic * pic :=
  let '(c, p, v) := w in
  match c with Master => (pic_write (fst s) p v, snd s) | Slave => (fst s, pic_write (snd s) p v) end.

(** ** The HPET *)
Definition FEMPTOSECOND : Z := 10 ^ 15.
Definition MILLISECOND : Z := 10 ^ 3.

(** [CapabilitiesIDRegister]. *)
Record CapabilitiesIDRegister := mkCaps {
  rev_id : Z; timer_cnt : Z; can_64_bit : bool; legacy_replacement_cap : bool; vendor_id : Z;
  counter_tick_period : Z;
}.
Definition caps_of_word (w : Z) : CapabilitiesIDRegister :=
  mkCaps (w mod 2 ^ 8) (Z.shiftr w 8 mod 2 ^ 5) (Z.testbit w 13) (Z.testbit w 15)
    (Z.shiftr w 16 mod 2 ^ 16) (Z.shiftr w 32 mod 2 ^ 32).

(** [HPET::get_uptime] from the main counter. *)
Definition get_uptime (c : CapabilitiesIDRegister) (counter : Z) : outcome Z :=
  d ← div_ (FEMPTOSECOND / MILLISECOND) (counter_tick_period c);
  div_ counter d.

(** [HPET::spin_ms], with the counter's values at the reads of the loop. *)
Fixpoint spin_until (c : CapabilitiesIDRegister) (end_ : Z) (counters : list Z) : outcome (list Z) :=
  match counters with
  | [] => OutOfFuel
  | t :: counters =>
      u ← get_uptime c t;
      if u <? end_ then spin_until c end_ counters else Done counters
  end.
Definition spin_ms (c : CapabilitiesIDRegister) (ms : Z) (counters : list Z) : outcome (list Z) :=
  match counters with
  | [] => OutOfFuel
  | t :: counters => u ← get_uptime c t; end_ ← add_u64 u ms; spin_until c end_ counters
  end.

(** ** Reading the table *)

(** The entries of the ACPI specification that the code knows, and the others. *)
Inductive madt_entry :=
  | LocalApic (processor id flags : Z)
  | IoApicEntry (a : IOApic)
  | OverrideEntry (o : ApicInterruptOveride)
  | LapicAddress (a : Z)
  | OtherEntry (type : Z) (body : list Z).

Definition enc_type (e : madt_entry) : Z :=
  match e with LocalApic _ _ _ => 0 | IoApicEntry _ => 1 | OverrideEntry _ => 2 | LapicAddress _ => 5 | OtherEntry t _ => t end.

Definition enc_body (e : madt_entry) : list Z :=
  match e with
  | LocalApic p id fl => [p; id] ++ le_bytes 4 fl ++ []
  | IoApicEntry a => [apic_id a; rsv a] ++ le_bytes 4 (apic_addr a) ++ le_bytes 4 (interrupt_base a) ++ []
  | OverrideEntry o => [bus_source o; irq_source o] ++ le_bytes 4 (interrupt_num o) ++ le_bytes 2 (ov_flags o) ++ []
  | LapicAddress a => [0; 0] ++ le_bytes 8 a ++ []
  | OtherEntry _ b => b
  end.

Definition enc (e : madt_entry) : list Z := [enc_type e; Z.of_nat (length (enc_body e)) + 2] ++ enc_body e.

Definition entry_ok (e : madt_entry) : Prop :=
  match e with
  | LocalApic p id fl => 0 <= fl < 2 ^ 32
  | IoApicEntry a => 0 <= apic_addr a < 2 ^ 32 ∧ 0 <= interrupt_base a < 2 ^ 32
  | OverrideEntry o => 0 <= interrupt_num o < 2 ^ 32 ∧ 0 <= ov_flags o < 2 ^ 16
  | LapicAddress a => 0 <= a < 2 ^ 64
  | OtherEntry t b => t ∉ [0; 1; 2; 5] ∧ (length b + 2 < 256)%nat
  end.

(** What an entry adds. *)
Definition add_entry (s : Madt) (e : madt_entry) : Madt :=
  match e with
  | LocalApic _ id fl =>
      mkMadt (lapic_addr s) (if Z.testbit fl 0 && (id <=? 8) then lapic_ids s ++ [id] else lapic_ids s) (io_apics s) (apic_overide s)
  | IoApicEntry a => mkMadt (lapic_addr s) (lapic_ids s) (io_apics s ++ [a]) (apic_overide s)
  | OverrideEntry o => mkMadt (lapic_addr s) (lapic_ids s) (io_apics s) (apic_overide s ++ [o])
  | LapicAddress a => mkMadt a (lapic_ids s) (io_apics s) (apic_overide s)
  | OtherEntry _ _ => s
  end.

Lemma field_behind pre l i n : field (pre ++ l) (length pre + i) n = field l i n.
Proof. unfold field. by rewrite drop_app_add. Qed.

Lemma byte_behind pre l i : byte (pre ++ l) (length pre + i) = byte l i.
Proof. apply field_behind. Qed.

Lemma byte_0 b l : byte (b :: l) 0 = b.
Proof. unfold byte, field. rewrite drop_0. cbn [take of_le_bytes]. rewrite firstn_O. cbn [of_le_bytes]. lia. Qed.

Lemma byte_S b l i : byte (b :: l) (S i) = byte l i.
Proof. reflexivity. Qed.

Lemma enc_positive e : entry_ok e → 2 <= Z.of_nat (length (enc_body e)) + 2 < 256.
Proof.
  destruct e; cbn [enc_body entry_ok]; intros He; rewrite ?length_app, ?length_le_bytes; cbn [length]; try lia.
Qed.

Lemma length_enc e : length (enc e) = (length (enc_body e) + 2)%nat.
Proof. unfold enc. rewrite length_app. cbn [length]. lia. Qed.

Lemma low_byte_bit fl : 0 <= fl → (0 <? Z.land (fl mod 256) 1) = Z.testbit fl 0.
Proof.
  intros Hf. change 1 with (Z.ones 1). rewrite Z.land_ones by lia. change 256 with (2 ^ 1 * 128). change (2 ^ 1) with 2.
  rewrite Z.rem_mul_r by lia.
  replace (fl mod 2 + 2 * ((fl / 2) mod 128)) with (fl mod 2 + (fl / 2) mod 128 * 2) by lia.
  rewrite Z.mod_add, Z.mod_mod by lia. rewrite Zmod_odd, Z.bit0_odd. by destruct (Z.odd fl).
Qed.

(** One entry is read as it was written. *)
Lemma madt_step_enc pre e rest s :
  entry_ok e → madt_step (pre ++ enc e ++ rest) (enc_type e) (length pre) s = add_entry s e.
Proof.
  intros He. destruct e as [p id fl|[i r a b]|[b i n f]|a|t b]; cbn [enc_type add_entry].
  - cbn [madt_step]. unfold push_lapic. rewrite !byte_behind. unfold enc. cbn [enc_type enc_body app le_bytes].
    do 4 rewrite ?byte_S. rewrite !byte_0. rewrite low_byte_bit by (cbn in He; lia). done.
  - cbn [madt_step]. do 3 f_equal. unfold IOApic_at. destruct He as [Ha Hb]. cbn [apic_addr interrupt_base] in Ha, Hb.
    unfold enc. cbn [enc_type enc_body apic_id rsv apic_addr interrupt_base].
    rewrite <- !Nat.add_assoc, !byte_behind, !field_behind. f_equal.
    + cbn [app Nat.add]. rewrite !byte_S. apply byte_0.
    + cbn [app Nat.add]. rewrite !byte_S. apply byte_0.
    + apply (field_app [1; _; i; r] _ a 4 4); [done|exact Ha].
    + rewrite <- !app_assoc. cbn [app].
      apply (field_app ([1; Z.of_nat 12; i; r] ++ le_bytes 4 a) _ b 8 4); [done|exact Hb].
  - cbn [madt_step]. do 3 f_equal. unfold Override_at. destruct He as [Ha Hb]. cbn [interrupt_num ov_flags] in Ha, Hb.
    unfold enc. cbn [enc_type enc_body bus_source irq_source interrupt_num ov_flags].
    rewrite <- !Nat.add_assoc, !byte_behind, !field_behind. f_equal.
    + cbn [app Nat.add]. rewrite !byte_S. apply byte_0.
    + cbn [app Nat.add]. rewrite !byte_S. apply byte_0.
    + apply (field_app [2; _; b; i] _ n 4 4); [done|exact Ha].
    + rewrite <- !app_assoc. cbn [app].
      apply (field_app ([2; Z.of_nat 10; b; i] ++ le_bytes 4 n) _ f 8 2); [done|exact Hb].
  - cbn [madt_step]. f_equal. unfold enc. cbn [enc_type enc_body]. rewrite field_behind.
    apply (field_app [5; _; 0; 0] _ a 4 8); [done|exact He].
  - destruct He as [Ht _]. unfold madt_step. repeat (case_match; try done); exfalso; apply Ht; repeat constructor.
Qed.

Lemma madt_walk_enc {S} (step : Z → nat → S → S) (add : S → madt_entry → S) d es : ∀ pre rest fuel s,
  d = pre ++ concat (enc <$> es) ++ rest → Forall entry_ok es → (length es < fuel)%nat →
  Z.of_nat (length (concat (enc <$> es))) < 2 ^ 32 →
  (∀ pre e rest s, d = pre ++ enc e ++ rest → entry_ok e → step (enc_type e) (length pre) s = add s e) →
  madt_walk fuel d step (length pre) (Z.of_nat (length (concat (enc <$> es)))) s = Done (fold_left add es s).
Proof.
  induction es as [|e es IH]; intros pre rest fuel s Hd Hok Hfuel Hlen Hstep; (destruct fuel as [|fuel]; [cbn in Hfuel; lia|]).
  { done. }
  apply Forall_cons in Hok as [He Hok]. cbn [fmap list_fmap concat] in *. rewrite <- app_assoc in Hd.
  pose proof (enc_positive e He) as Hpos. rewrite length_app, length_enc in Hlen. cbn [madt_walk].
  rewrite length_app, length_enc. destruct (Z.ltb_spec 0 (Z.of_nat (length (enc_body e) + 2 + length (concat (enc <$> es))))) as [_|Hx]; [|lia].
  assert (Hty : byte d (length pre) = enc_type e).
  { rewrite Hd. rewrite <- (Nat.add_0_r (length pre)), byte_behind. unfold enc. apply byte_0. }
  assert (Hl : byte d (length pre + 1) = Z.of_nat (length (enc_body e)) + 2).
  { rewrite Hd, byte_behind. unfold enc. cbn [app]. rewrite byte_S. apply byte_0. }
  rewrite Hty, Hl, (Hstep pre e _ s Hd He). unfold sub_u32. rewrite chk_ok by (unfold u32_lim; lia). cbn [mbind outcome_bind fold_left].
  replace (length pre + Z.to_nat (Z.of_nat (length (enc_body e)) + 2))%nat with (length (pre ++ enc e)) by (rewrite length_app, length_enc; lia).
  replace (Z.of_nat (length (enc_body e) + 2 + length (concat (enc <$> es))) - (Z.of_nat (length (enc_body e)) + 2))
    with (Z.of_nat (length (concat (enc <$> es)))) by lia.
  apply (IH _ rest); [by rewrite <- app_assoc|done|cbn in Hfuel; lia|lia|done].
Qed.

(** A well-formed table: 44 bytes, in which the length is right, and the entries. *)
Definition madt_of (hdr : list Z) (es : list madt_entry) : list Z := hdr ++ concat (enc <$> es).
Definition madt_ok (hdr : list Z) (es : list madt_entry) : Prop :=
  length hdr = MADT_SIZE ∧ Forall entry_ok es ∧
  field hdr 4 4 = Z.of_nat (length (madt_of hdr es)) ∧ Z.of_nat (length (madt_of hdr es)) < 2 ^ 32.

Lemma field_front l l' i n : (i + n ≤ length l)%nat → field (l ++ l') i n = field l i n.
Proof. intros Hl. unfold field. rewrite drop_app_le, take_app_le; [done|rewrite length_drop; lia|lia]. Qed.

(** From a well-formed table of interrupt controllers the kernel reads exactly what it
    lists: every I/O controller and override in order, the address of the local
    controllers with its 64-bit override, and the enabled processors with an id of at
    most eight; entries of other types are skipped.  As many rounds as there are entries
    are enough. *)
Theorem madt_roundtrip hdr es fuel :
  madt_ok hdr es → (length es < fuel)%nat →
  find_ioapic fuel (madt_of hdr es) = Done (fold_left add_entry es (mkMadt (field hdr 36 4) [] [] [])) ∧
  get_lapid_ids fuel (madt_of hdr es) = Done (lapic_ids (fold_left add_entry es (mkMadt 0 [] [] []))).
Proof.
  intros (Hh & Hes & Hlen & Hlim) Hfuel. unfold find_ioapic, get_lapid_ids, madt_length, local_apic_address.
  assert (E1 : field (madt_of hdr es) 4 4 = Z.of_nat (length (madt_of hdr es))) by (unfold madt_of at 1; rewrite field_front by (rewrite Hh; unfold MADT_SIZE; lia); done).
  assert (E2 : field (madt_of hdr es) 36 4 = field hdr 36 4) by (unfold madt_of; apply field_front; rewrite Hh; unfold MADT_SIZE; lia).
  assert (E3 : Z.of_nat (length (madt_of hdr es)) - Z.of_nat MADT_SIZE = Z.of_nat (length (concat (enc <$> es)))) by (unfold madt_of; rewrite length_app, Hh; lia).
  assert (Hd : madt_of hdr es = hdr ++ concat (enc <$> es) ++ []) by (unfold madt_of; by rewrite app_nil_r).
  rewrite E1, E2. unfold sub_u32. rewrite E3, chk_ok by (unfold u32_lim; lia). cbn [mbind outcome_bind]. rewrite <- Hh. split.
  - apply (madt_walk_enc _ add_entry _ es hdr []); [done|done|done|lia|]. intros pre e rest s -> He. by apply madt_step_enc.
  - rewrite (madt_walk_enc _ (λ ids e, lapic_ids (add_entry (mkMadt 0 ids [] []) e)) _ es hdr []); [|done|done|done|lia|].
    + f_equal. assert (Hg : ∀ s a i o, fold_left (λ ids e, lapic_ids (add_entry (mkMadt 0 ids [] []) e)) es s = lapic_ids (fold_left add_entry es (mkMadt a s i o))).
      { clear. induction es as [|e es IH]; intros s a i o; [done|]. cbn [fold_left]. destruct e; cbn [add_entry lapic_addr lapic_ids io_apics apic_overide]; apply IH. }
      apply Hg.
    + intros pre e rest ids Hde He. pose proof (madt_step_enc pre e rest (mkMadt 0 ids [] []) He) as Hs. rewrite <- Hde in Hs.
      rewrite <- Hs. unfold madt_step. destruct e as [| | | |t b]; try done. cbn [enc_type].
      destruct He as [Ht _]. destruct (Z.eqb_spec t 0) as [->|]; [exfalso; apply Ht; constructor|]. by repeat case_match.
Qed.

Definition madt_header (len addr : Z) : list Z :=
  [0x41; 0x50; 0x49; 0x43] ++ le_bytes 4 len ++ replicate 28 0 ++ le_bytes 4 addr ++ le_bytes 4 1.

Lemma madt_roundtrip_witness :
  let es := [LocalApic 0 0 1; LocalApic 1 1 1; LocalApic 2 2 0; LocalApic 3 9 1;
             IoApicEntry (mkIOApic 2 0 0xFEC00000 0); OverrideEntry (mkOverride 0 0 2 0);
             LapicAddress 0xFEE00000; OtherEntry 4 [255; 5; 0; 1]] in
  let hdr := madt_header 116 0xFEE00000 in
  find_ioapic 9 (madt_of hdr es) =
    Done (mkMadt 0xFEE00000 [0; 1] [mkIOApic 2 0 0xFEC00000 0] [mkOverride 0 0 2 0]) ∧
  get_lapid_ids 9 (madt_of hdr es) = Done [0; 1].
Proof.
  apply (madt_roundtrip (madt_header 116 0xFEE00000)
    [LocalApic 0 0 1; LocalApic 1 1 1; LocalApic 2 2 0; LocalApic 3 9 1;
     IoApicEntry (mkIOApic 2 0 0xFEC00000 0); OverrideEntry (mkOverride 0 0 2 0);
     LapicAddress 0xFEE00000; OtherEntry 4 [255; 5; 0; 1]] 9).
  - split; [done|]. split; [|by vm_compute]. rewrite !Forall_cons, Forall_nil. cbn [entry_ok apic_addr interrupt_base interrupt_num ov_flags length].
    repeat split; try lia. rewrite !elem_of_cons, elem_of_nil. lia.
  - cbn. lia.
Defined.

(** An entry of length zero: the loop stays where it is. *)
Lemma zero_length_entry {S} (step : Z → nat → S → S) d p : byte d (p + 1) = 0 →
  ∀ fuel left s, 0 < left < 2 ^ 32 → madt_walk fuel d step p left s = OutOfFuel.
Proof.
  intros Hz fuel. induction fuel as [|fuel IH]; intros left s Hl; [done|]. cbn [madt_walk].
  destruct (Z.ltb_spec 0 left); [|lia]. rewrite Hz. unfold sub_u32. rewrite (chk_ok u32_lim (left - _)) by (unfold u32_lim; lia).
  cbn [mbind outcome_bind]. rewrite Nat.add_0_r, Z.sub_0_r. by apply IH.
Qed.

(** ** Interrupt lines *)

(** The bits an entry keeps: all but the vector, the delivery and destination mode and
    the mask. *)
Definition kept_bit (n : Z) : bool := (11 <? n) && negb (n =? 16).

Lemma redirect_low_bits low vector enable n : 0 <= vector < 2 ^ 8 → 0 <= n →
  Z.testbit (Z.lor (Z.ldiff (Z.ldiff (Z.clearbit (set_bit low 16 (negb enable)) 11) 0x700) 0xFF) vector) n =
  if kept_bit n then Z.testbit low n
  else if n =? 16 then negb enable else (n <? 8) && Z.testbit vector n.
Proof.
  intros Hv Hn. rewrite Z.lor_spec, !Z.ldiff_spec, Z.clearbit_eqb by lia.
  change 0x700 with (Z.shiftl (Z.ones 3) 8). change 0xFF with (Z.ones 8).
  rewrite Z.shiftl_spec, !Z.testbit_ones by lia.
  assert (Hhi : 8 <= n → Z.testbit vector n = false) by (intros; apply (Z.bits_above_log2); [lia|]; destruct (decide (vector = 0)) as [->|]; [cbn; lia|]; apply (Z.lt_le_trans _ 8); [apply Z.log2_lt_pow2; lia|lia]).
  assert (Hset : Z.testbit (set_bit low 16 (negb enable)) n = if n =? 16 then negb enable else Z.testbit low n).
  { unfold set_bit. destruct enable; cbn [negb]; [rewrite Z.clearbit_eqb by lia|rewrite Z.setbit_eqb by lia]; rewrite (Z.eqb_sym 16 n);
      destruct (n =? 16); by rewrite ?andb_true_r, ?andb_false_r. }
  rewrite Hset. unfold kept_bit. destruct (Z.ltb_spec n 8).
  - replace (n =? 16) with false by lia. replace (11 <? n) with false by lia. replace (11 =? n) with false by lia.
    replace (0 <=? n) with true by lia. cbn [negb andb]. by rewrite andb_false_r.
  - rewrite Hhi by done. rewrite (andb_false_r (0 <=? n)). cbn [negb andb]. rewrite orb_false_r, andb_true_r.
    destruct (Z.ltb_spec 11 n).
    + replace (n - 8 <? 3) with false by lia. replace (11 =? n) with false by lia. rewrite andb_false_r. cbn [negb andb].
      rewrite !andb_true_r. by destruct (n =? 16).
    + replace (n =? 16) with false by lia. cbn [andb]. destruct (Z.eqb_spec 11 n); [by rewrite andb_false_r|].
      replace (0 <=? n - 8) with true by lia. replace (n - 8 <? 3) with true by lia. cbn [negb andb]. by rewrite andb_false_r.
Qed.

Lemma redirect_high high p : 0 <= p < 2 ^ 8 →
  Z.shiftr (Z.lor (Z.ldiff high 0xff000000) (Z.shiftl p 24 mod 2 ^ 32)) 24 mod 2 ^ 8 = p.
Proof.
  intros Hp. apply Z.bits_inj'. intros n Hn. rewrite <- Z.land_ones, Z.land_spec, Z.testbit_ones by lia.
  rewrite Z.shiftr_spec, Z.lor_spec, Z.ldiff_spec by lia.
  change 0xff000000 with (Z.shiftl (Z.ones 8) 24). rewrite <- Z.land_ones, Z.land_spec, !Z.shiftl_spec, !Z.testbit_ones by lia.
  rewrite Z.add_simpl_r. destruct (Z.ltb_spec n 8).
  - replace ((0 <=? n) && true) with true by lia. replace ((0 <=? n + 24) && (n + 24 <? 32)) with true by lia.
    cbn. by rewrite andb_false_r, !andb_true_r.
  - rewrite !andb_false_r. symmetry. apply Z.bits_above_log2; [lia|].
    destruct (decide (p = 0)) as [->|]; [cbn; lia|]. apply (Z.lt_le_trans _ 8); [apply Z.log2_lt_pow2; lia|lia].
Qed.

(** One entry: the line goes to the processor and the vector asked for, or is masked, its
    other bits stay, and no other register changes. *)
Lemma set_redirect_entry_spec a processor irq vector enable :
  0 <= irq < 120 → 0 <= processor < 2 ^ 8 → 0 <= vector < 2 ^ 8 →
  ∃ a', set_redirect_entry a processor irq vector enable = Done a' ∧
    deliver a' irq = (if enable then Some (processor, vector) else None) ∧
    (∀ n, 0 <= n → kept_bit n = true → Z.testbit (io_reg a' (0x10 + 2 * irq)) n = Z.testbit (io_reg a (0x10 + 2 * irq)) n) ∧
    (∀ r, r ≠ 0x10 + 2 * irq → r ≠ 0x11 + 2 * irq → io_reg a' r = io_reg a r).
Proof.
  intros Hi Hp Hv. unfold set_redirect_entry, mul_u8, add_u8. rewrite (chk_ok u8_lim (2 * irq)) by (unfold u8_lim; lia). cbn [mbind outcome_bind].
  rewrite (chk_ok u8_lim (0x10 + _)) by (unfold u8_lim; lia). cbn [mbind outcome_bind read_ioapic_register].
  rewrite (chk_ok u8_lim (0x11 + _)) by (unfold u8_lim; lia). cbn [mbind outcome_bind].
  eexists. split; [reflexivity|]. unfold write_ioapic_register, deliver. cbn [io_reg io_sel]. split_and!.
  - rewrite fn_lookup_insert, fn_lookup_insert_ne, fn_lookup_insert by lia.
    rewrite redirect_low_bits by lia. cbn [kept_bit Z.eqb]. change (if kept_bit 16 then _ else _) with (negb enable).
    destruct enable; cbn [negb]; [|done]. rewrite redirect_high by done. do 2 f_equal. apply Z.bits_inj'. intros n Hn.
    rewrite <- Z.land_ones, Z.land_spec, Z.testbit_ones by lia. destruct (Z.ltb_spec n 8).
    + rewrite (redirect_low_bits _ _ true) by lia. unfold kept_bit. replace (11 <? n) with false by lia. replace (n =? 16) with false by lia.
      replace (n <? 8) with true by lia. replace (0 <=? n) with true by lia. by rewrite andb_true_r.
    + rewrite !andb_false_r. symmetry. apply Z.bits_above_log2; [lia|].
      destruct (decide (vector = 0)) as [->|]; [cbn; lia|]. apply (Z.lt_le_trans _ 8); [apply Z.log2_lt_pow2; lia|lia].
  - intros n Hn Hk. rewrite fn_lookup_insert, redirect_low_bits by lia. by rewrite Hk.
  - intros r Hr Hr'. by rewrite !fn_lookup_insert_ne by lia.
Qed.

(** An entry of one line leaves the delivery of the others. *)
Lemma deliver_frame a a' irq irq' : irq' ≠ irq →
  (∀ r, r ≠ 0x10 + 2 * irq → r ≠ 0x11 + 2 * irq → io_reg a' r = io_reg a r) → deliver a' irq' = deliver a irq'.
Proof. intros Hne Hr. unfold deliver. by rewrite !Hr by lia. Qed.

(** The lines the kernel uses and the sources they trigger. *)
Definition routes : list (Z * nat) := [(1, INT_KB); (12, INT_MOUSE); (10, INT_PCI); (11, INT_PCI); (4, INT_COM1)].

(** A line's interrupt at the processor: the handler of the vector it is sent with. *)
Definition irq_handler (i : idt) (a : ioapic) (irq : Z) : option (Z * handler) :=
  '(p, v) ← deliver a irq; h ← i v; Some (p, h).

Definition set_redirects (a : ioapic) (es : list (Z * Z)) : outcome ioapic :=
  foldl (λ r e, r ≫= λ a, set_redirect_entry a 0 (fst e) (snd e) true) (Done a) es.

Lemma set_redirects_spec es : ∀ a, Forall (λ e, 0 <= fst e < 120 ∧ 0 <= snd e < 2 ^ 8) es → NoDup (fst <$> es) →
  ∃ a', set_redirects a es = Done a' ∧ (∀ irq v, (irq, v) ∈ es → deliver a' irq = Some (0, v)) ∧
    (∀ irq, irq ∉ fst <$> es → deliver a' irq = deliver a irq).
Proof.
  induction es as [|[irq v] es IH] using rev_ind; intros a Hes Hnd.
  { exists a. split_and!; [done| |done]. intros irq v Hin. by apply elem_of_nil in Hin. }
  apply Forall_app in Hes as [Hes He]. apply Forall_singleton in He as [Hirq Hv]. rewrite fmap_app in Hnd. apply NoDup_app in Hnd as (Hnd & Hdisj & _).
  destruct (IH a Hes Hnd) as (a1 & E1 & Hin1 & Hout1).
  destruct (set_redirect_entry_spec a1 0 irq v true Hirq ltac:(lia) Hv) as (a2 & E2 & Hd & _ & Hfr).
  exists a2. unfold set_redirects in *. rewrite foldl_app, E1. cbn [foldl mbind outcome_bind fst snd]. split; [done|].
  split.
  - intros q w Hq. apply elem_of_app in Hq as [Hq|Hq].
    + rewrite (deliver_frame a1 a2 irq); [by apply Hin1| |done]. intros ->. apply (Hdisj irq); [|set_solver]. apply list_elem_of_fmap. by exists (irq, w).
    + apply list_elem_of_singleton in Hq. by simplify_eq.
  - intros q Hq. rewrite fmap_app, elem_of_app in Hq. rewrite (deliver_frame a1 a2 irq); [apply Hout1; set_solver| |done]. set_solver.
Qed.

Definition irq_vectors : list (Z * Z) := [(1, 50); (12, 51); (10, 52); (11, 52); (4, 53)].

Lemma enable_apic_unfold i a :
  enable_apic i a = (a' ← set_redirects a irq_vectors;
    Done (<[53 := Some (HSource INT_COM1)]> (<[52 := Some (HSource INT_PCI)]> (<[51 := Some (HSource INT_MOUSE)]> (<[50 := Some (HSource INT_KB)]> i))), a')).
Proof.
  unfold enable_apic, set_redirects, irq_vectors, set_irq_handler. cbn [foldl fst snd mbind outcome_bind].
  change (assert_ ((IRQ_OFFSET <=? 50) && (50 <=? 255))) with (@Done unit tt).
  change (assert_ ((IRQ_OFFSET <=? 51) && (51 <=? 255))) with (@Done unit tt).
  change (assert_ ((IRQ_OFFSET <=? 52) && (52 <=? 255))) with (@Done unit tt).
  change (assert_ ((IRQ_OFFSET <=? 53) && (53 <=? 255))) with (@Done unit tt). cbn [mbind outcome_bind].
  destruct (set_redirect_entry a 0 1 50 true) as [a1| |]; [|done..]. cbn [mbind outcome_bind].
  destruct (set_redirect_entry a1 0 12 51 true) as [a2| |]; [|done..]. cbn [mbind outcome_bind].
  destruct (set_redirect_entry a2 0 10 52 true) as [a3| |]; [|done..]. cbn [mbind outcome_bind].
  destruct (set_redirect_entry a3 0 11 52 true) as [a4| |]; [|done..]. done.
Qed.

Lemma idt_set (i : idt) v h : (<[v := h]> i : idt) v = h.
Proof. apply fn_lookup_insert. Qed.
Lemma idt_other (i : idt) v w h : w ≠ v → (<[w := h]> i : idt) v = i v.
Proof. apply fn_lookup_insert_ne. Qed.

Lemma spurious_set (i : idt) l v : v ∈ l → (foldr (λ v i, <[v := Some HPicSpurious]> i) i l : idt) v = Some HPicSpurious.
Proof.
  induction l as [|w l IH]; intros Hin; [by apply elem_of_nil in Hin|]. cbn [foldr].
  destruct (decide (v = w)) as [->|Hne]; [apply idt_set|]. rewrite idt_other by done. apply IH. set_solver.
Qed.

(** Once the tables are set up, the keyboard, mouse, PCI and serial lines reach the
    first processor in the handler of their own source, whatever the controller's
    registers were; every other line is left as it was; and the vectors of the
    exceptions, of the old controller's spurious interrupts, of system calls and of the
    timer keep their handlers. *)
Theorem irq_routing a :
  ∃ i i' a', init_idt IDT_new = Done i ∧ enable_apic i a = Done (i', a') ∧
    (∀ irq int, (irq, int) ∈ routes → irq_handler i' a' irq = Some (0, HSource int)) ∧
    (∀ irq, irq ∉ fst <$> routes → deliver a' irq = deliver a irq) ∧
    (∀ v, 0 <= v < 48 → i' v = set_spurious_interrupts (set_exceptions_idt (λ _, None)) v) ∧
    (∀ v, 32 <= v < 48 → i' v = Some HPicSpurious) ∧
    i' SYSCALL_NUMBER = Some HSyscall ∧ i' LAPIC_INT = Some HTick ∧ i' 14 = Some HPageFault.
Proof.
  destruct (set_redirects_spec irq_vectors a) as (a' & Ea & Hin & Hout).
  { repeat constructor; cbn; lia. } { apply (bool_decide_unpack _). by vm_compute. }
  exists (<[0xFF := Some HSpurious]> (<[100 := Some HIpi]> (<[LAPIC_INT := Some HTick]> IDT_new))). eexists _, a'.
  split; [reflexivity|]. rewrite enable_apic_unfold, Ea. split; [reflexivity|].
  split_and!; try done.
  - intros irq int Hr. unfold routes in Hr. rewrite !elem_of_cons, elem_of_nil in Hr. unfold irq_handler.
    destruct_or!; simplify_eq; (erewrite Hin by (unfold irq_vectors; rewrite !elem_of_cons; naive_solver)); reflexivity.
  - intros v Hv. rewrite !idt_other by (unfold LAPIC_INT; lia). unfold IDT_new, SYSCALL_NUMBER. by rewrite idt_other by lia.
  - intros v Hv. rewrite !idt_other by (unfold LAPIC_INT; lia). unfold IDT_new, SYSCALL_NUMBER. rewrite idt_other by lia.
    apply spurious_set. apply elem_of_seqZ. lia.
Qed.

(** ** The old controller and the clock *)

(** Whatever state the two controllers are in, they end initialised with their vectors
    behind the exceptions and every line masked. *)
Lemma disable_pic_masks m s :
  foldl pics_write (m, s) disable_pic = (mkPic 0 32 0xFF, mkPic 0 40 0xFF).
Proof. destruct m as [[|[|[|[|[]]]]] om im], s as [[|[|[|[|[]]]]] os is_]; reflexivity. Qed.

(** The uptime is never behind the real one, and ahead of it by at most the share the
    rounded division loses: [period] out of [10 ^ 12]. *)
Lemma uptime_bounds c t : 0 < counter_tick_period c <= 10 ^ 12 → 0 <= t →
  ∃ u, get_uptime c t = Done u ∧ t * counter_tick_period c / 10 ^ 12 <= u ∧
    (10 ^ 12 - counter_tick_period c) * u <= t * counter_tick_period c.
Proof.
  set (p := counter_tick_period c). intros Hp Ht. unfold get_uptime, div_, FEMPTOSECOND, MILLISECOND. fold p.
  change (10 ^ 15 / 10 ^ 3) with (10 ^ 12). destruct (Z.eqb_spec p 0) as [|_]; [lia|]. cbn [mbind outcome_bind].
  set (q := 10 ^ 12 / p). assert (Hq : 1 <= q) by (apply Z.div_le_lower_bound; lia).
  assert (Hqp : p * q <= 10 ^ 12) by (apply Z.mul_div_le; lia).
  assert (Hqr : 10 ^ 12 - p < p * q) by (pose proof (Z.mul_succ_div_gt (10 ^ 12) p ltac:(lia)); unfold q; lia).
  destruct (Z.eqb_spec q 0) as [|_]; [lia|]. exists (t / q). split; [done|].
  pose proof (Z.mul_div_le t q ltac:(lia)) as Hu. assert (0 <= t / q) by (apply Z.div_pos; lia). split.
  - apply Z.div_le_lower_bound; [lia|]. set (x := t * p / 10 ^ 12).
    assert (0 <= x) by (apply Z.div_pos; nia). assert (10 ^ 12 * x <= t * p) by (apply Z.mul_div_le; lia).
    apply (Z.mul_le_mono_pos_r _ _ p); [lia|]. nia.
  - nia.
Qed.

(** [spin_ms] returns at the first read that is late enough, so a counter that runs ends it. *)
Lemma spin_until_returns c end_ : ∀ ts t rest, 0 < counter_tick_period c <= 10 ^ 12 → Forall (λ t, 0 <= t) (ts ++ [t]) →
  end_ <= t * counter_tick_period c / 10 ^ 12 → ∃ r, spin_until c end_ (ts ++ t :: rest) = Done r ∧ suffix rest r.
Proof.
  induction ts as [|t' ts IH]; intros t rest Hp Hts He; cbn [app spin_until].
  - apply Forall_cons in Hts as [Ht _]. destruct (uptime_bounds c t Hp Ht) as (u & -> & Hu & _). cbn [mbind outcome_bind].
    destruct (Z.ltb_spec u end_); [lia|]. by exists rest.
  - cbn [app] in Hts. apply Forall_cons in Hts as [Ht' Hts]. destruct (uptime_bounds c t' Hp Ht') as (u & -> & _ & _). cbn [mbind outcome_bind].
    destruct (u <? end_); [by apply IH|]. eexists. split; [done|]. exists (ts ++ [t]). by rewrite <- app_assoc.
Qed.
