(* ===== verification/Traps.v ===== *)
(** * Interrupts and exceptions

    The handlers behind the vectors of [Apic]: [interrupts/exceptions.rs], the
    handlers of [interrupts/mod.rs] with [INTERRUPT_SOURCES] and the [INTERRUPTS] service
    that fills it, [tick_handler] of [lapic.rs], and the ACPI handler of [acpi.rs].  A
    handler works on the [World] of the system calls and on the storage of the core that
    took the interrupt; it returns to the interrupted code or enters the scheduler. *)
From S2P Require Import Prelude Page PhysMem AllocIface PageAlloc PageTable PageMapper.
From S2P Require Import Lock Apic.
From S2P Require Import Sched Ipc Syscall Loader.

Inductive trap_out := TReturn | TSched.

(** [INTERRUPT_SOURCES]: the handles of each of the four sources. *)
Definition Sources : Type := list (list nat).
Definition INTERRUPT_SOURCES : Sources := [[]; []; []; []].

(** [PageFaultErrorCode::PROTECTION_VIOLATION]. *)
Definition PROTECTION_VIOLATION : Z := 0x1.

(** [kill_bad_task], called outside of a system call too. *)
Definition kill_current (c : CPULocalStorage) (w : World) (t : nat) : outcome (trap_out * World) :=
  _ ← get_current_task c;
  if current_context c =? 0 then Panic PUnreachable
  else Done (TSched, kill_bad_task w t).

(** The registers of the local controller a handler writes: only the end of interrupt. *)
Definition EOI : Z := 0xb0.

Section handlers.
Context (off : Z).
#[local] Instance trap_allocator : PageAllocator PageFrameAllocator := pfa_allocator off.

Definition page_fault_handler (c : CPULocalStorage) (w : World) (t : nat) (error_code addr : Z) : outcome (trap_out * World) :=
  if current_context c =? 0 then Panic PUnreachable
  else if 0 <? hold_interrupts_depth c then Panic PUnreachable
  else if intersects error_code PROTECTION_VIOLATION then kill_current c w t
  else
    _ ← get_current_task c;
    let process := t_process (threads (k_sd (w_k w)) t) in
    m ← unwrap (w_mem w !! process);
    '(o, v) ← PageMapper.page_fault_handler off (w_vm w) (pm_mapper m) addr;
    let w := upd_vm w v in
    match o with
    | None => kill_current c w t
    | Some _ => Done (TReturn, w)
    end.

(** [lapic::tick_handler]. *)
Definition tick_handler (c : CPULocalStorage) (w : World) : outcome (trap_out * World) :=
  k ← check_sleep (w_k w) (w_now w);
  let w := upd_k w k in
  if 0 <? current_context c then _ ← get_current_task c; Done (TSched, w)
  else Done (TReturn, w).

(** A system call by [int 0x80]; the stub around it is [Switch.wrapped_syscall_handler]. *)
Definition int80 (start : Z) (w : World) (t : nat) (args : list Z) : outcome (trap_out * World) :=
  '(o, w) ← syscall_handler off start w t (args !!! 0%nat) (args !!! 1%nat) (args !!! 2%nat) (args !!! 3%nat) (args !!! 4%nat);
  Done (match o with SRet _ => TReturn | _ => TSched end, w).

(** What the processor hands to a handler: the error code and the address of a page
    fault, and the registers of a system call. *)
Record trap_info := mkTrap { error_code : Z; cr2 : Z; call_regs : list Z }.

(** The code of a handler; with it the registers of the local controller it writes. *)
Definition handle (start : Z) (h : handler) (c : CPULocalStorage) (srcs : Sources) (w : World) (t : nat) (i : trap_info)
    : outcome (trap_out * list Z * World) :=
  match h with
  | HException _ | HGeneralProtection => '(o, w) ← kill_current c w t; Done (o, [], w)
  | HBreakpoint | HPicSpurious => Done (TReturn, [], w)
  | HDoubleFault | HInvalidTss => Panic PUnreachable
  | HPageFault => '(o, w) ← page_fault_handler c w t (error_code i) (cr2 i); Done (o, [], w)
  | HTick => '(o, w) ← tick_handler c w; Done (o, [EOI], w)
  | HIpi | HSpurious => Done (TReturn, [EOI], w)
  | HSource int =>
      sources ← index srcs int;
      k ← int_interrupt_handler (w_k w) (w_now w) sources;
      Done (TReturn, [EOI], upd_k w k)
  | HSyscall => '(o, w) ← int80 start w t (call_regs i); Done (o, [], w)
  end.

(** ** The [INTERRUPTS] service

    A request of a customer: the thread of the kernel process [p] makes a handle, puts it
    into its table and into the source; the reply carries the reference. *)
Definition register_source (p : nat) (srcs : Sources) (w : World) (req : Z) : outcome (option (Z * nat) * Sources * World) :=
  if 3 <? req then Done (None, srcs, w)
  else
    let '(h, k) := new_interrupt (w_k w) in
    '(id, k) ← add_value k p (VInterrupt h);
    l ← index srcs (Z.to_nat req);
    Done (Some (id, h), <[Z.to_nat req := l ++ [h]]> srcs, upd_k w k).

(** ** ACPI tables

    [FioxaAcpiHandler]: the region's address, size and length as [PhysicalMapping] keeps
    them. *)
Record PhysicalMapping := mkPhysMap { physical_start : Z; virtual_start : Z; region_length : Z; mapped_length : Z }.

Definition map_physical_region (t : nat) (physical_address size : Z) : sys PhysicalMapping :=
  p ← current_process t;
  let base := Z.land physical_address (not_u64 0xFFF) in
  e ← pure (add_u64 physical_address size);
  end_ ← pure (page_align_up e);
  mapped_size ← pure (sub_u64 end_ base);
  id ← on_vm (λ v, new_mmap v base mapped_size);
  vaddr_base ← on_mapper p (λ v pm, insert_mapping_set off v pm id flags_writeable);
  a ← pure (add_u64 vaddr_base (Z.land physical_address 0xFFF));
  _ ← pure (assert_ (negb (a =? 0)));
  mret (mkPhysMap physical_address a size mapped_size).

Definition unmap_physical_region (t : nat) (region : PhysicalMapping) : sys unit :=
  p ← current_process t;
  let base := Z.land (virtual_start region) (not_u64 0xFFF) in
  e ← pure (add_u64 base (mapped_length region));
  r ← on_mapper p (λ v pm, free_mapping off v pm base e);
  pure (match r with Ok _ => Done tt | Err _ => Panic PUnwrap end).
End handlers.

(** ** Page faults *)
Lemma killed_only w t : only_killed w (kill_bad_task w t) t.
Proof.
  unfold only_killed, kill_bad_task, set_killed, set_in_syscall. splits; try done.
  - intros t' Ht. cbn [w_k upd_k k_sd upd_sd]. rewrite !threads_set_thread, !decide_False by done. done.
  - cbn [w_k upd_k k_sd upd_sd]. rewrite !threads_set_thread, !decide_True by done. cbn. done.
Qed.

(** A core that runs a thread outside of the scheduler. *)
Definition in_thread (c : CPULocalStorage) : Prop := current_task_ptr c ≠ 0 ∧ 0 < current_context c.

Lemma kill_current_ok c w t : in_thread c → kill_current c w t = Done (TSched, kill_bad_task w t).
Proof.
  intros [Hp Hc]. unfold kill_current, get_current_task. rewrite (proj2 (Z.eqb_neq _ _) Hp). cbn [negb assert_ mbind outcome_bind].
  by rewrite (proj2 (Z.eqb_neq _ _)) by lia.
Qed.

Section page_faults.
Context (off : Z) (Hoff : offset_ok off).
#[local] Instance fault_allocator : PageAllocator PageFrameAllocator := pfa_allocator off.
#[local] Instance fault_allocator_spec : PageAllocatorSpec PageFrameAllocator := pfa_allocator_spec off Hoff.


(** A fault in the scheduler, or while interrupts are held, stops the kernel. *)
Lemma page_fault_panics c w t error addr :
  current_context c = 0 ∨ 0 < hold_interrupts_depth c → page_fault_handler off c w t error addr = Panic PUnreachable.
Proof.
  intros H. unfold page_fault_handler. destruct (Z.eqb_spec (current_context c) 0); [done|].
  destruct (Z.ltb_spec 0 (hold_interrupts_depth c)); [done|]. lia.
Qed.
End page_faults.

(** ** Interrupt lines *)

(** What a trigger makes of a handle and what it sends to port [p]. *)
Definition triggered (x : KInterruptHandle) : KInterruptHandle :=
  if pending x || waiting_ack x then mkInt (waiting_ack x) true (waiter x)
  else match waiter x with
       | WaitPort _ _ => x
       | _ => mkInt (waiting_ack x) true WaitNone
       end.

Definition delivered (now : Z) (p : nat) (x : KInterruptHandle) : list PortNotification :=
  if pending x || waiting_ack x then []
  else match waiter x with
       | WaitPort q ky => if decide (q = p) then [mkNotif ky (Interrupt now)] else []
       | _ => []
       end.

(** The port a handle is bound to exists. *)
Definition source_ok (k : Kernel) (x : KInterruptHandle) : Prop :=
  match waiter x with WaitPort p _ => is_Some (k_ports k !! p) | _ => True end.

(** The thread it wakes is not asleep. *)
Definition woken (k : Kernel) (x : KInterruptHandle) : Prop :=
  pending x = false → waiting_ack x = false → ∀ t, waiter x = WaitThread t → state (sched (threads (k_sd k) t)) ≠ Sleeping.

Lemma int_trigger_ok k now i x :
  sched_ok k → k_ints k !! i = Some x → source_ok k x →
  ∃ k', int_trigger k now i = Done k' ∧ sched_ok k' ∧ same_dom k k' ∧ k_ints k' = <[i := triggered x]> (k_ints k) ∧
    (∀ p, port_queue k' p = port_queue k p ++ delivered now p x) ∧ woken k' x ∧
    (∀ t, state (sched (threads (k_sd k) t)) ≠ Sleeping → state (sched (threads (k_sd k') t)) ≠ Sleeping).
Proof.
  intros Hs Hi Hok. unfold int_trigger, deref_arc, triggered, delivered, woken. rewrite Hi. cbn [mbind outcome_bind].
  destruct (pending x || waiting_ack x) eqn:Eb.
  { eexists. splits; try done; [by intros q Hq|intros p; by rewrite app_nil_r|]. intros E1 E2. by rewrite E1, E2 in Eb. }
  unfold source_ok in Hok. destruct (waiter x) as [|t|q ky] eqn:Ew.
  - eexists. splits; try done; [by intros q Hq|intros p; by rewrite app_nil_r].
  - destruct (kwake_ok k t Hs) as (k1 & -> & Hs1 & Hso & Hp & Ht & Hoth). cbn [mbind outcome_bind].
    eexists. splits; [done|done| | | | |].
    + intros p. cbn. by rewrite Hp.
    + cbn. by destruct Hso as (_ & -> & _).
    + intros p. rewrite app_nil_r. unfold port_queue. cbn. by rewrite Hp.
    + by intros _ _ t' [= <-].
    + done.
  - destruct (port_notify_ok k q (mkNotif ky (Interrupt now)) Hs Hok) as (k1 & -> & Hs1 & Hso & Hd & Hq & _ & Hoth).
    eexists. splits; try done.
    + destruct Hso as (_ & -> & _). by rewrite insert_id.
    + intros p. rewrite Hq. case_decide; [done|by rewrite app_nil_r].
Qed.

(** All handles of a source, each in turn. *)
Lemma int_interrupt_handler_ok now l : ∀ k,
  sched_ok k → NoDup l → (∀ i, i ∈ l → ∃ x, k_ints k !! i = Some x ∧ source_ok k x) →
  ∃ k', int_interrupt_handler k now l = Done k' ∧ sched_ok k' ∧
    (∀ p, port_queue k' p = port_queue k p ++ concat ((λ i, from_option (delivered now p) [] (k_ints k !! i)) <$> l)) ∧
    (∀ i, k_ints k' !! i = if decide (i ∈ l) then triggered <$> k_ints k !! i else k_ints k !! i) ∧
    (∀ i x, i ∈ l → k_ints k !! i = Some x → woken k' x) ∧
    (∀ t, state (sched (threads (k_sd k) t)) ≠ Sleeping → state (sched (threads (k_sd k') t)) ≠ Sleeping).
Proof.
  induction l as [|i l IH]; intros k Hs Hnd Hall; cbn [int_interrupt_handler].
  { exists k. splits; try done. - intros p; cbn; by rewrite app_nil_r. - intros i x Hi. by apply elem_of_nil in Hi. }
  apply NoDup_cons in Hnd as [Hi Hnd]. destruct (Hall i) as (x & Hx & Hok); [left|].
  destruct (int_trigger_ok k now i x Hs Hx Hok) as (k1 & -> & Hs1 & Hd & Hints & Hq & Hw & Hoth). cbn [mbind outcome_bind].
  assert (Hsame : ∀ j, j ≠ i → k_ints k1 !! j = k_ints k !! j) by (intros j Hj; rewrite Hints; by apply lookup_insert_ne).
  destruct (IH k1 Hs1 Hnd) as (k2 & -> & Hs2 & Hq2 & Hi2 & Hw2 & Hoth2).
  { intros j Hj. destruct (Hall j) as (y & Hy & Hoky); [by right|]. exists y. rewrite Hsame by set_solver. split; [done|].
    unfold source_ok in *. destruct (waiter y); [done|done|by apply Hd]. }
  exists k2. splits; try done.
  - intros p. rewrite Hq2, Hq. cbn [fmap list_fmap concat]. rewrite Hx. cbn [from_option default]. rewrite <- app_assoc. do 2 f_equal. f_equal.
    apply list_fmap_ext. intros n j Hj. apply list_elem_of_lookup_2 in Hj. rewrite Hsame; [done|set_solver].
  - intros j. rewrite Hi2. destruct (decide (j = i)) as [->|Hne].
    + rewrite decide_False by done. rewrite decide_True by left. rewrite Hints, lookup_insert_eq, Hx. done.
    + rewrite Hsame by done. destruct (decide (j ∈ l)); [rewrite decide_True by (by right)|rewrite decide_False by set_solver]; done.
  - intros j y Hj Hy. apply elem_of_cons in Hj as [->|Hj].
    + rewrite Hx in Hy. injection Hy as <-. intros E1 E2 t Ht. apply Hoth2. by apply Hw.
    + apply (Hw2 j); [done|]. rewrite Hsame; [done|set_solver].
  - auto.
Qed.

(** An interrupt line is raised: the controller picks the vector, the table the handler. *)
Definition raise_irq (off start : Z) (i : idt) (a : ioapic) (irq : Z) (c : CPULocalStorage) (srcs : Sources) (w : World)
    (t : nat) (info : trap_info) : option (outcome (trap_out * list Z * World)) :=
  '(_, h) ← irq_handler i a irq; Some (handle off start h c srcs w t info).

(** C28: once the interrupt tables are set up, raising the line of the keyboard, the mouse,
    PCI or the serial port reaches every handle registered for that source, in the order
    of registration, and is acknowledged once.  A handle that is ready and bound to a
    port puts one notification with its key and the time into the port, a handle with a
    waiting thread wakes it, and in every other case the interrupt is kept pending; no
    handle of another source changes. *)
Theorem irq_reaches_sources off start ioapic0 i0 i a irq int c srcs w t info l :
  init_idt IDT_new = Done i0 → enable_apic i0 ioapic0 = Done (i, a) → (irq, int) ∈ routes →
  srcs !! int = Some l → sched_ok (w_k w) → NoDup l →
  (∀ h, h ∈ l → ∃ x, k_ints (w_k w) !! h = Some x ∧ source_ok (w_k w) x) →
  ∃ k', raise_irq off start i a irq c srcs w t info = Some (Done (TReturn, [EOI], upd_k w k')) ∧ sched_ok k' ∧
    (∀ p, port_queue k' p = port_queue (w_k w) p ++ concat ((λ h, from_option (delivered (w_now w) p) [] (k_ints (w_k w) !! h)) <$> l)) ∧
    (∀ h, k_ints k' !! h = if decide (h ∈ l) then triggered <$> k_ints (w_k w) !! h else k_ints (w_k w) !! h) ∧
    (∀ h x, h ∈ l → k_ints (w_k w) !! h = Some x → woken k' x).
Proof.
  intros Ei Ea Hr Hl Hs Hnd Hall. destruct (irq_routing ioapic0) as (i1 & i2 & a2 & E1 & E2 & Hroute & _).
  rewrite E1 in Ei. injection Ei as ->. rewrite E2 in Ea. injection Ea as -> ->.
  unfold raise_irq. rewrite (Hroute irq int Hr). cbn [mbind option_bind handle].
  rewrite (proj2 (index_Done _ _ _) Hl). cbn [mbind outcome_bind].
  destruct (int_interrupt_handler_ok (w_now w) l (w_k w) Hs Hnd Hall) as (k' & -> & Hs' & Hq & Hi & Hw & _).
  cbn [mbind outcome_bind]. exists k'. by splits.
Qed.

(** A request of the service puts a new, idle handle behind the others of its source. *)
Lemma register_source_ok p srcs w req x l :
  0 ≤ req ≤ 3 → srcs !! Z.to_nat req = Some l → k_procs (w_k w) !! p = Some x → refs_ok (p_refs x) →
  next_id (p_refs x) < u64_lim - 1 →
  ∃ k' id, register_source p srcs w req = Done (Some (id, k_next (w_k w)), <[Z.to_nat req := l ++ [k_next (w_k w)]]> srcs, upd_k w k') ∧
    k_ints k' !! k_next (w_k w) = Some KInterruptHandle_new ∧ get_value k' p id = Done (Some (VInterrupt (k_next (w_k w)))).
Proof.
  intros Hreq Hl Hx Hok Hlim. unfold register_source. destruct (Z.ltb_spec 3 req); [lia|]. cbn [new_interrupt].
  set (k1 := upd_next _ _).
  destruct (add_value_spec k1 p x (VInterrupt (k_next (w_k w)))) as (id & k2 & E & _ & _ & Hg & _); [done..|].
  assert (Hints : k_ints k2 = k_ints k1) by (unfold add_value in E; inv_outcome; by case_match; inv_outcome).
  rewrite E. cbn [mbind outcome_bind]. rewrite (proj2 (index_Done _ _ _) Hl). cbn [mbind outcome_bind].
  exists k2, id. splits; [done| |done]. rewrite Hints. cbn. by rewrite lookup_insert_eq.
Qed.

(** ** ACPI regions *)

Lemma page_mask a : 0 ≤ a < u64_lim → Z.land a (not_u64 0xFFF) = a - a mod 0x1000.
Proof. intros Ha. change 0xFFF with (2 ^ 12 - 1). change 0x1000 with (2 ^ 12). by apply land_not_ones; [lia|]. Qed.

(** What [new_mmap] made and [insert_mapping_set] put into the address space. *)
Lemma mmap_inserted off (v v1 v2 : vm_world (A := PageFrameAllocator)) b sz id pm flags vb pm' :
  new_mmap v b sz = Done (id, v1) →
  @insert_mapping_set _ (pfa_allocator off) off v1 pm id flags = Done (vb, (pm', v2)) →
  mkEntry vb (vb + sz) id flags ∈ mappings pm' ∧ ∃ c, arcs (snd v2) !! id = Some c ∧ mapping (value c) = MMAP b.
Proof.
  destruct v as [s st]. unfold new_mmap, arc_new. intros Enew Eins. inv_outcome.
  unfold insert_mapping_set, get_mapping in Eins. cbn [fst snd arcs] in Eins. rewrite lookup_insert_eq in Eins. inv_outcome.
  repeat match goal with H : add_u64 _ _ = Done _ |- _ => apply chk_Done in H as [-> _] end.
  match goal with H : vec_insert _ _ _ = Done _ |- _ => unfold vec_insert in H; case_match; [|done]; injection H as <- end.
  cbn [mappings]. split; [apply elem_of_app; right; left|]. eexists. cbn. by rewrite lookup_insert_eq.
Qed.

(** A region of physical memory that was mapped for a table is whole pages, its bytes are
    at the address handed out, and the range that is unmapped later is the mapping's. *)
Lemma map_physical_region_spec off t pa size w region w' :
  0 ≤ pa → 0 ≤ size → map_physical_region off t pa size w = Done (Ok region, w') →
  ∃ m r, w_mem w' !! t_process (threads (k_sd (w_k w)) t) = Some m ∧ r ∈ mappings (pm_mapper m) ∧
    (∃ c, arcs (snd (w_vm w')) !! r_arc r = Some c ∧ mapping (value c) = MMAP (pa - pa mod 0x1000)) ∧
    virtual_start region - r_start r = pa - (pa - pa mod 0x1000) ∧ virtual_start region + size ≤ r_end r ∧
    r_end r - r_start r = mapped_length region ∧ mapped_length region mod 0x1000 = 0 ∧
    (r_start r mod 0x1000 = 0 → Z.land (virtual_start region) (not_u64 0xFFF) = r_start r).
Proof.
  intros Hpa Hsz E. unfold map_physical_region in E.
  sys_step E as p w1 E1. injection E1 as <- <-.
  sys_step E as e w1 E1. apply pure_Ok in E1 as [[-> He]%chk_Done ->].
  sys_step E as e w1 E1. apply pure_Ok in E1 as [E1 ->]. unfold page_align_up in E1. inv_outcome. apply chk_Done in H as [-> He'].
  sys_step E as ms w1 E1. apply pure_Ok in E1 as [[-> Hms]%chk_Done ->].
  sys_step E as id w1 E1. apply on_vm_Ok in E1 as (v1 & Enew & ->).
  sys_step E as vb w1 E1. apply on_mapper_run in E1 as (m & pm & v & Hm & Eins & ->).
  sys_step E as a w1 E1. apply pure_Ok in E1 as [[-> Ha]%chk_Done ->].
  sys_step E as u w1 E1. apply pure_Ok in E1 as [_ ->]. injection E as <- <-. cbn [virtual_start mapped_length].
  rewrite !page_mask in Enew by lia. destruct (mmap_inserted _ _ _ _ _ _ _ _ _ _ _ Enew Eins) as [Hin Hc].
  rewrite !page_mask by lia. change (Z.land pa 0xFFF) with (Z.land pa (2 ^ 12 - 1)) in *. rewrite land_ones_mod in * by lia. change (2 ^ 12) with 0x1000 in *.
  pose proof (Z.mod_pos_bound pa 0x1000 ltac:(lia)). pose proof (Z.mod_pos_bound (pa + size + 4095) 0x1000 ltac:(lia)).
  eexists _, _. cbn [w_mem upd_mem w_vm upd_vm]. rewrite lookup_insert_eq. split; [done|]. split; [exact Hin|].
  cbn [r_start r_end r_arc]. splits; [done|lia|lia|lia| |].
  - pose proof (Z.div_mod pa 0x1000 ltac:(lia)). pose proof (Z.div_mod (pa + size + 4095) 0x1000 ltac:(lia)).
    apply Z.mod_divide; [lia|]. exists ((pa + size + 4095) / 0x1000 - pa / 0x1000). lia.
  - intros Hal. rewrite Z.add_mod, Hal, Z.add_0_l, !Z.mod_mod by lia. lia.
Qed.

(** ** Running it *)
Definition demo_core : CPULocalStorage := mkLS 0 0x9000 2 0 0x7700 0x8000 0 0 0 false 0.


(** The keyboard driver registers a handle through the service (process 10), binds it to
    port 5 with key 42, and a key is pressed. *)
Definition demo_registered : Sources * World :=
  match register_source 10 INTERRUPT_SOURCES demo_sys 0 with
  | Done (Some (_, h), srcs, w) =>
      match int_set_port (w_k w) 0 h 5 42 with Done k => (srcs, upd_k w k) | _ => (srcs, w) end
  | _ => ([], demo_sys)
  end.

Lemma demo_registered_spec :
  fst demo_registered = [[k_next demo_kernel]; []; []; []] ∧
  k_ints (w_k (snd demo_registered)) !! k_next demo_kernel = Some (mkInt false false (WaitPort 5 42)) ∧
  k_ports (w_k (snd demo_registered)) !! 5%nat = Some KPort_new ∧ w_now (snd demo_registered) = 0 ∧
  k_sd (w_k (snd demo_registered)) = demo_threads.
Proof. by vm_compute. Qed.

Lemma irq_reaches_sources_witness :
  ∃ i0 i a k', init_idt IDT_new = Done i0 ∧ enable_apic i0 (mkIoapic 0 (λ _, 0x10000)) = Done (i, a) ∧
    raise_irq PhysMapOffset 0 i a 1 demo_core (fst demo_registered) (snd demo_registered) 3 (mkTrap 0 0 []) =
      Some (Done (TReturn, [EOI], upd_k (snd demo_registered) k')) ∧
    port_queue k' 5 = [mkNotif 42 (Interrupt 0)].
Proof.
  destruct (irq_routing (mkIoapic 0 (λ _, 0x10000))) as (i0 & i & a & E0 & E1 & _).
  destruct demo_registered_spec as (Es & Ei & Ep & En & Esd).
  destruct (irq_reaches_sources PhysMapOffset 0 (mkIoapic 0 (λ _, 0x10000)) i0 i a 1 INT_KB demo_core (fst demo_registered)
    (snd demo_registered) 3 (mkTrap 0 0 []) [k_next demo_kernel]) as (k' & E & _ & Hq & _).
  - exact E0.
  - exact E1.
  - left.
  - by rewrite Es.
  - destruct demo_threads_ok as [l Hl]. exists l. rewrite Esd. exact Hl.
  - apply NoDup_singleton.
  - intros h ->%list_elem_of_singleton. eexists. split; [exact Ei|]. unfold source_ok. cbn. rewrite Ep. by eexists.
  - exists i0, i, a, k'. split; [exact E0|]. split; [exact E1|]. split; [exact E|]. rewrite Hq. cbn [fmap list_fmap concat].
    rewrite Ei, En. unfold port_queue. rewrite Ep. done.
Defined.
