(* ===== verification/Cores.v ===== *)
(** * Starting the other cores

    [kernel/src/cpu_localstorage.rs] ([init_core], [new_cpu]: the storage, descriptor
    tables and stacks of a core), [kernel/src/gdt.rs] ([create_gdt_for_core]) and
    [kernel/src/boot_aps.rs] with its [ap_trampoline.asm]: the boot processor gives every
    other core its storage, starts it and waits until all have come.

    A core's storage and tables are seen by their address in the per-CPU map, whose pages
    are frames of the allocator ([KernelHeap.kmap] at the slot of [PerCpuMem]). *)
From S2P Require Import Prelude Page PhysMem AllocIface PageAlloc PageTable PageMapper Lock Switch Slab KernelHeap Apic.

Definition CPU_STACK_SIZE_PAGES : Z := 10.
Definition TSS_STACK_SIZE : Z := 0x1000 * 5.
Definition DOUBLE_FAULT_IST_INDEX : nat := 0.
Definition PAGE_FAULT_IST_INDEX : nat := 1.

Record TaskStateSegment := mkTss { privilege_stack_table : list Z; interrupt_stack_table : list Z }.
Definition TaskStateSegment_new : TaskStateSegment := mkTss (replicate 3 0) (replicate 7 0).

Record CPULocalGDT := mkGdt { gdt : list descriptor; tss : TaskStateSegment }.

(** What the cores see at the addresses of the per-CPU map. *)
Record Cpus := mkCpus { storage : Z → CPULocalStorage; gdts : Z → CPULocalGDT }.

Definition set_storage (c : Cpus) (a : Z) (ls : CPULocalStorage) : Cpus := mkCpus (<[a := ls]> (storage c)) (gdts c).

(** [CPULocalGDT] is not [repr(C)]: its size and where [tss_stack] lies in it are the
    compiler's choice. *)
Section cores.
Context {A : Type} `{PageAllocator A} (off gdt_size stacks_at : Z).

(** [create_gdt_for_core] at [g]; [tss_stack[i]] ends [TSS_STACK_SIZE] above its start. *)
Definition stack_end (g i : Z) : Z := g + stacks_at + i * TSS_STACK_SIZE + TSS_STACK_SIZE.

Definition gdt_for_core (g : Z) : CPULocalGDT :=
  let tss := TaskStateSegment_new in
  let tss := mkTss (<[0%nat := stack_end g 0]> (privilege_stack_table tss)) (interrupt_stack_table tss) in
  let tss := mkTss (privilege_stack_table tss) (<[DOUBLE_FAULT_IST_INDEX := stack_end g 1]> (interrupt_stack_table tss)) in
  let tss := mkTss (privilege_stack_table tss) (<[PAGE_FAULT_IST_INDEX := stack_end g 2]> (interrupt_stack_table tss)) in
  mkGdt Switch.create_gdt_for_core tss.

(** [MemoryLoc::PerCpuMem as u64 + 0x100_0000 * core_id as u64]. *)
Definition core_base (core_id : Z) : outcome Z := o ← mul_u64 0x1000000 core_id; add_u64 PerCpuMem o.

(** [size_of::<CPULocalStorage>()]. *)
Definition cpu_lsize : Z := foldr Z.add 0 (snd <$> ls_layout).

(** [init_core]; [t] is the root of [PER_CPU_MAP].  Its loop takes a frame for each page and
    maps it, as the heap's does. *)
Definition init_core (t : Z) (s : A * PMem) (c : Cpus) (core_id : Z) : outcome (Z * Cpus * (A * PMem)) :=
  vaddr_base ← core_base core_id;
  _ ← assert_ (cpu_lsize <=? 0x1000);
  n ← add_u64 gdt_size 0x1000;
  _ ← assert_ (n <=? 0x100000);
  top ← add_u64 vaddr_base gdt_size;
  top ← add_u64 top 0xfff;
  s ← heap_map_pages off t s (step_range vaddr_base top);
  g ← add_u64 vaddr_base 0x1000;
  let ls := storage c vaddr_base in
  let ls := mkLS core_id (stack_top ls) 0 (scratch_stack_top ls) 0 0 (sched_task_sp ls) (sched_task_ip ls) 1 false g in
  let c := set_storage c vaddr_base ls in
  Done (vaddr_base, mkCpus (storage c) (<[g := gdt_for_core g]> (gdts c)), s).

(** A stack of [CPU_STACK_SIZE_PAGES] pages, seen through the offset map: its top. *)
Definition new_stack (s : A * PMem) : outcome (Z * (A * PMem)) :=
  '(o, s) ← pa_allocate_pages s CPU_STACK_SIZE_PAGES;
  p ← unwrap o;
  v ← virt_addr_for_phys off (get_address p);
  top ← add_u64 v (CPU_STACK_SIZE_PAGES * 0x1000);
  Done (top, s).

Definition with_stack (ls : CPULocalStorage) (top : Z) : CPULocalStorage :=
  mkLS (core_id ls) top (current_context ls) (scratch_stack_top ls) (current_task_ptr ls) (current_task_kernel_stack_top ls)
    (sched_task_sp ls) (sched_task_ip ls) (hold_interrupts_depth ls) (hold_interrupts_initial ls) (gdt_pointer ls).
Definition with_scratch (ls : CPULocalStorage) (top : Z) : CPULocalStorage :=
  mkLS (core_id ls) (stack_top ls) (current_context ls) top (current_task_ptr ls) (current_task_kernel_stack_top ls)
    (sched_task_sp ls) (sched_task_ip ls) (hold_interrupts_depth ls) (hold_interrupts_initial ls) (gdt_pointer ls).

Definition new_cpu (t : Z) (s : A * PMem) (c : Cpus) (core_id : Z) : outcome (Z * Cpus * (A * PMem)) :=
  '(vaddr, c, s) ← init_core t s c core_id;
  '(top, s) ← new_stack s;
  let c := set_storage c vaddr (with_stack (storage c vaddr) top) in
  '(top, s) ← new_stack s;
  let c := set_storage c vaddr (with_scratch (storage c vaddr) top) in
  Done (vaddr, c, s).

(** [init_bsp_localstorage]: the registers it writes ([GS] base and its kernel copy). *)
Definition init_bsp_localstorage (t : Z) (s : A * PMem) (c : Cpus) : outcome (list (Z * Z) * Cpus * (A * PMem)) :=
  '(gs_base, c, s) ← new_cpu t s c 0;
  _ ← add_u64 gs_base 0x1000;
  let gs_upper := Z.shiftr gs_base 32 in
  let gs_lower := gs_base mod 2 ^ 32 in
  Done ([(0xC0000101, gs_upper * 2 ^ 32 + gs_lower); (0xC0000102, gs_upper * 2 ^ 32 + gs_lower)], c, s).

(** ** The boot processor *)

(** The interrupts that start a core, and the times between them; [WaitIpi] polls register
    [0x300] until the interrupt is delivered. *)
Inductive ipi_op := Lapic (o : lapic_op) | WaitIpi.

Definition start_ipi (id : Z) : list ipi_op :=
  [Lapic (WriteLapic 0x310 (Z.shiftl id 24 mod 2 ^ 32)); Lapic (WriteLapic 0x300 (Z.lor 0x4600 8)); Lapic (SpinMs 1); WaitIpi].

Definition boot_core (id : Z) : list ipi_op :=
  [Lapic (WriteLapic 0x310 (Z.shiftl id 24 mod 2 ^ 32)); Lapic (WriteLapic 0x300 0x4500); WaitIpi; Lapic (SpinMs 10)] ++
  concat ((λ _, start_ipi id) <$> seq 0 1) ++ [Lapic (SpinMs 10)].

(** The words behind the trampoline: the page table, the entry point and the storage of
    each core. *)
Record Trampoline := mkTramp { tr_pml4 : Z; tr_startup : Z; core_local : gmap Z Z }.

(** The loop over the cores. *)
Fixpoint boot_cores (t bsp_addr : Z) (ids : list Z) (tr : Trampoline) (s : A * PMem) (c : Cpus)
  : outcome (list ipi_op * Trampoline * Cpus * (A * PMem)) :=
  match ids with
  | [] => Done ([], tr, c, s)
  | id :: ids =>
      if id =? bsp_addr then boot_cores t bsp_addr ids tr s c
      else
        '(local_storage, c, s) ← new_cpu t s c id;
        let tr := mkTramp (tr_pml4 tr) (tr_startup tr) (<[id := local_storage]> (core_local tr)) in
        '(ops, tr, c, s) ← boot_cores t bsp_addr ids tr s c;
        Done (boot_core id ++ ops, tr, c, s)
  end.

Inductive boot_result :=
  | SingleCore                        (* 0x8000 is not ours *)
  | MapTooHigh                        (* the kernel's map is above 4 GiB *)
  | Booting (ops : list ipi_op) (tr : Trampoline) (c : Cpus).

(** [boot_aps] up to the store to [bspdone]: [pm] is the memory of the current process,
    [kernel_lvl4] the root of the kernel's own map. *)
Definition boot_aps (captured_0x8000 : bool) (bsp_addr t kernel_lvl4 ap_startup_f : Z) (lapic_ids : list Z)
    (w : vm_world) (pm : PageMapperManager) (c : Cpus) : outcome (boot_result * (PageMapperManager * vm_world)) :=
  if negb captured_0x8000 then Done (SingleCore, (pm, w))
  else
    '(id, w) ← new_mmap w 0x8000 0x1000;
    '(_, (pm, w)) ← insert_mapping_at_set off w pm 0x8000 id flags_writeable;
    page ← Page_new Size4KB 0x8000;
    '(r, s) ← identity_map off Size4KB 3 (fst w) kernel_lvl4 page flags_writeable;
    match r with
    | Err _ => Panic PUnwrap
    | Ok _ =>
        if u32_lim <=? kernel_lvl4 then Done (MapTooHigh, (pm, (s, snd w)))
        else
          '(ops, tr, c, s) ← boot_cores t bsp_addr lapic_ids (mkTramp kernel_lvl4 ap_startup_f ∅) s c;
          Done (Booting ops tr c, (pm, (s, snd w)))
    end.

(** ** The started core

    The trampoline on the core with APIC number [id], from [LONG_MODE] to the jump: its GS
    base, its stack pointer ([gs:1]) and the address it jumps to; then [ap_startup_f]: the
    descriptor tables it loads. *)
Record ApStart := mkAp { ap_gs : Z; ap_rsp : Z; ap_entry : Z; ap_core_id : Z }.

Definition ap_trampoline (tr : Trampoline) (c : Cpus) (id : Z) : option ApStart :=
  gs_base ← core_local tr !! id;
  Some (mkAp gs_base (stack_top (storage c gs_base)) (tr_startup tr) id).

Definition ap_startup_f (c : Cpus) (core_id : Z) : outcome CPULocalGDT :=
  vaddr_base ← core_base core_id;
  g ← add_u64 vaddr_base 0x1000;
  Done (gdts c g).
End cores.

(** ** The storage of a core *)
Definition core_addr (id : Z) : Z := PerCpuMem + 0x1000000 * id.

Lemma core_base_ok id : 0 ≤ id < 256 → core_base id = Done (core_addr id).
Proof.
  intros Hid. unfold core_base, mul_u64, add_u64, core_addr, PerCpuMem. rewrite (chk_ok u64_lim) by (unfold u64_lim; lia). rewrite bind_ret.
  rewrite (chk_ok u64_lim) by (unfold u64_lim; lia). done.
Qed.

Lemma percpu_slot : slot_ok PerCpuMem.
Proof. split; [reflexivity|]. unfold u64_lim, PerCpuMem. lia. Qed.

(** The pages [init_core] maps. *)
Definition core_pages (gdt_size id : Z) : list Z := step_range (core_addr id) (core_addr id + gdt_size + 0xfff).

Definition gdt_size_ok (gdt_size : Z) : Prop := 0 < gdt_size ≤ 0xFF000 ∧ gdt_size mod 0x1000 ≠ 1.

Lemma core_addr_mod id : core_addr id mod 0x1000 = 0.
Proof. unfold core_addr. replace (0x1000000 * id) with (0x1000 * id * 0x1000) by lia. by rewrite Z.mod_add. Qed.

Lemma core_pages_in gdt_size id v : 0 ≤ id < 256 → gdt_size_ok gdt_size → v ∈ core_pages gdt_size id →
  in_slot PerCpuMem v ∧ core_addr id ≤ v < core_addr id + 0x1000000.
Proof.
  intros Hid [Hg _] Hv. apply step_range_aligned in Hv as [Hr Hm]; [|apply core_addr_mod].
  unfold in_slot, core_addr in *. change (2 ^ 39) with 549755813888. lia.
Qed.

(** The pages cover the storage and the tables behind it: the last page would be missing
    only if the tables ended one byte into it. *)
Lemma core_pages_cover gdt_size id a : gdt_size_ok gdt_size → core_addr id ≤ a < core_addr id + 0x1000 + gdt_size →
  ∃ v, v ∈ core_pages gdt_size id ∧ v ≤ a < v + 0x1000.
Proof.
  intros [Hg Hm] Ha. unfold core_pages, step_range. set (b := core_addr id) in *. clearbody b.
  exists (b + (a - b) / 0x1000 * 0x1000). assert (Hq : 0 ≤ (a - b) / 0x1000) by (apply Z.div_pos; lia). split.
  - apply list_elem_of_fmap. exists (Z.to_nat ((a - b) / 0x1000)). split; [rewrite Z2Nat.id by done; lia|].
    apply elem_of_seq. split; [lia|]. cbn [Nat.add]. apply Z2Nat.inj_lt; [done|apply Z.div_pos; lia|].
    Z.div_mod_to_equations. lia.
  - Z.div_mod_to_equations. lia.
Qed.

Lemma core_pages_NoDup gdt_size id : NoDup (core_pages gdt_size id).
Proof. unfold core_pages, step_range. apply NoDup_fmap_2; [intros i j; lia|apply NoDup_seq]. Qed.

Section correct.
Context (off gdt_size stacks_at : Z) (Hoff : offset_ok off) (Htop : PHYS_TOP + off < u64_lim) (Hg : gdt_size_ok gdt_size).
#[local] Instance cores_allocator : PageAllocator PageFrameAllocator := pfa_allocator off.
#[local] Instance cores_allocator_spec : PageAllocatorSpec PageFrameAllocator := pfa_allocator_spec off Hoff.

Notation kmap := (kmap PerCpuMem).

(** What [init_core] leaves of the core [id]. *)
Definition fresh_storage (ls : CPULocalStorage) (id : Z) : CPULocalStorage :=
  mkLS id (stack_top ls) 0 (scratch_stack_top ls) 0 0 (sched_task_sp ls) (sched_task_ip ls) 1 false (core_addr id + 0x1000).

Definition fresh_core (c : Cpus) (id : Z) : Cpus :=
  mkCpus (<[core_addr id := fresh_storage (storage c (core_addr id)) id]> (storage c))
    (<[core_addr id + 0x1000 := gdt_for_core stacks_at (core_addr id + 0x1000)]> (gdts c)).

Lemma init_core_ok t s F X pm c id :
  0 ≤ id < 256 → kmap t s F X pm → (∀ v, v ∈ core_pages gdt_size id → v ∉ pm.*1) →
  (3 * length (core_pages gdt_size id) ≤ length F)%nat →
  ∃ s' F' pm', init_core off gdt_size stacks_at t s c id = Done (core_addr id, fresh_core c id, s') ∧ kmap t s' F' X pm' ∧
    pm'.*1 ≡ₚ core_pages gdt_size id ++ pm.*1 ∧ (length F ≤ length F' + 3 * length (core_pages gdt_size id))%nat.
Proof using Hg Hoff.
  intros Hid Hk Hnew HF. unfold init_core. rewrite core_base_ok, bind_ret by done.
  change (cpu_lsize <=? 0x1000) with true. cbn [assert_]. rewrite bind_ret.
  destruct Hg as [Hgs _]. pose proof Hid. unfold add_u64. rewrite (chk_ok u64_lim (gdt_size + _)), bind_ret by (unfold u64_lim; lia).
  rewrite (proj2 (Z.leb_le (gdt_size + 0x1000) 0x100000)) by lia. cbn [assert_]. rewrite bind_ret.
  assert (Hc : core_addr id + 0x1000000 < u64_lim) by (unfold core_addr, PerCpuMem, u64_lim; lia).
  assert (Hc0 : 0 ≤ core_addr id) by (unfold core_addr, PerCpuMem; lia).
  rewrite (chk_ok u64_lim (core_addr id + gdt_size)), bind_ret by lia.
  rewrite (chk_ok u64_lim (core_addr id + gdt_size + 0xfff)), bind_ret by lia.
  destruct (heap_map_pages_ok PerCpuMem percpu_slot off Hoff t (core_pages gdt_size id) s F X pm Hk) as (s' & F' & pm' & E & Hk' & Hp & HF').
  - apply NoDup_app. split_and!; [apply core_pages_NoDup|done|apply Hk].
  - apply Forall_forall. intros v Hv. by eapply core_pages_in.
  - done.
  - change (heap_map_pages off t s (step_range _ _)) with (heap_map_pages off t s (core_pages gdt_size id)). rewrite E, bind_ret.
    rewrite (chk_ok u64_lim (core_addr id + 0x1000)), bind_ret by lia. cbv zeta. by exists s', F', pm'.
Qed.

(** A stack takes ten frames out of the pool, or the pool has no block of sixteen. *)
Lemma new_stack_ok t s F X pm : kmap t s F X pm →
  (∃ b s' F', new_stack off s = Done (b + off + 0xA000, s') ∧ kmap t s' F' (range_frames b 10 ++ X) pm ∧ length F = (10 + length F')%nat) ∨
  (no_block s 4 ∧ new_stack off s = Panic PUnwrap).
Proof using Hoff Htop.
  intros Hk. pose proof (kmap_wf _ _ _ _ _ _ Hk) as Hwf. destruct Hk as [Ho Hfr Hnd Hh Hm Hr Hop]. unfold new_stack.
  destruct (allocate_pages_ok off Hoff s F CPU_STACK_SIZE_PAGES Ho) as [(b & s1 & F1 & E & Ho1 & HF & _ & Hout)|[E Hno]]; [done| |right].
  2: { split; [done|]. change (pa_allocate_pages s CPU_STACK_SIZE_PAGES) with (allocate_pages off s CPU_STACK_SIZE_PAGES). by rewrite E. }
  left. change (pa_allocate_pages s CPU_STACK_SIZE_PAGES) with (allocate_pages off s CPU_STACK_SIZE_PAGES). rewrite E, bind_ret.
  cbn [unwrap]. rewrite bind_ret. change CPU_STACK_SIZE_PAGES with 10 in *.
  assert (Hb : ∀ f, f ∈ range_frames b 10 → frame_ok f).
  { intros f Hf. apply (frames_wf_table _ _ f Hwf), elem_of_app. left. rewrite HF. apply elem_of_app. by left. }
  assert (Hin : ∀ i, 0 ≤ i < 10 → frame_ok (b + i * 0x1000)) by (intros i Hi; apply Hb, elem_of_range_frames; eauto).
  pose proof (Hin 0 ltac:(lia)) as (? & ? & ?). pose proof (Hin 9 ltac:(lia)) as (? & ? & ?).
  rewrite Z.mul_0_l, Z.add_0_r in *. destruct Hoff as [? ?]. unfold virt_addr_for_phys. cbn [get_address].
  rewrite (proj2 (Z.ltb_lt (b + off) u64_lim)) by (unfold PHYS_TOP in *; lia). rewrite bind_ret. unfold add_u64.
  rewrite (chk_ok u64_lim) by lia. rewrite bind_ret.
  exists b, s1, F1. split; [done|]. split; [|rewrite HF, length_app; unfold range_frames; by rewrite length_fmap, length_seq].
  assert (Hext : ∀ f, f ∈ tables 2 (snd s) t → table (snd s1) f = table (snd s) f).
  { intros f Hf. apply Hout; [apply (frames_wf_table _ _ f Hwf), elem_of_app; by right|]. intros Hf'. destruct Hwf as [Hnd' _].
    apply NoDup_app in Hnd' as (_ & Hd & _). apply (Hd f); [|done]. rewrite HF. apply elem_of_app. by left. }
  assert (Htr : ∀ v, translate 2 (snd s1) t v = translate 2 (snd s) t v) by (intros v; by apply translate_ext).
  split; [done| |done|done| | |intros v; by apply (along_ext _ 2 (snd s)), Hop].
  - rewrite (tables_ext 2 (snd s) (snd s1) t Hext). eapply frames_wf_perm; [|exact Hfr].
    apply Permutation_app_tail. rewrite HF. solve_Permutation.
  - intros v f Hvf. destruct (Hm v f Hvf) as (e & ? & ?). exists e. by rewrite Htr.
  - intros v ? ?. rewrite Htr. by apply Hr.
Qed.

(** The core [id] with the bases [b1] and [b2] of its two stacks. *)
Record own_storage (c : Cpus) (id b1 b2 : Z) : Prop := {
  os_id : core_id (storage c (core_addr id)) = id;
  os_stack : stack_top (storage c (core_addr id)) = b1 + off + 0xA000;
  os_scratch : scratch_stack_top (storage c (core_addr id)) = b2 + off + 0xA000;
  os_held : hold_interrupts_depth (storage c (core_addr id)) = 1;
  os_task : current_task_ptr (storage c (core_addr id)) = 0;
  os_gdt : gdt_pointer (storage c (core_addr id)) = core_addr id + 0x1000;
  os_tables : gdts c (core_addr id + 0x1000) = gdt_for_core stacks_at (core_addr id + 0x1000);
}.

(** The cores other than [id] see no change. *)
Definition others_same (c c' : Cpus) (id : Z) : Prop :=
  ∀ j, j ≠ id → storage c' (core_addr j) = storage c (core_addr j) ∧ gdts c' (core_addr j + 0x1000) = gdts c (core_addr j + 0x1000).

Lemma core_addr_inj i j : core_addr i = core_addr j → i = j.
Proof using. unfold core_addr. lia. Qed.

Definition core_need : nat := (3 * length (core_pages gdt_size 0) + 20)%nat.

Lemma core_pages_length id : length (core_pages gdt_size id) = length (core_pages gdt_size 0).
Proof using. unfold core_pages, step_range. rewrite !length_fmap, !length_seq. do 2 f_equal. lia. Qed.

Definition stack_frames (b1 b2 : Z) : list Z := range_frames b1 10 ++ range_frames b2 10.

Lemma new_cpu_ok t s F X pm c id :
  0 ≤ id < 256 → kmap t s F X pm → (∀ v, v ∈ core_pages gdt_size id → v ∉ pm.*1) → (core_need ≤ length F)%nat →
  (∃ c' s' F' pm' b1 b2, new_cpu off gdt_size stacks_at t s c id = Done (core_addr id, c', s') ∧
    kmap t s' F' (stack_frames b1 b2 ++ X) pm' ∧ pm'.*1 ≡ₚ core_pages gdt_size id ++ pm.*1 ∧
    own_storage c' id b1 b2 ∧ others_same c c' id ∧ (length F ≤ length F' + core_need)%nat) ∨
  (∃ s1, no_block s1 4 ∧ new_cpu off gdt_size stacks_at t s c id = Panic PUnwrap).
Proof using Hg Hoff Htop.
  intros Hid Hk Hnew HF. unfold core_need in *. rewrite <- (core_pages_length id) in *.
  destruct (init_core_ok t s F X pm c id Hid Hk Hnew) as (s1 & F1 & pm1 & E1 & Hk1 & Hp1 & HF1); [lia|].
  unfold new_cpu. rewrite E1, bind_ret.
  destruct (new_stack_ok t s1 F1 X pm1 Hk1) as [(b1 & s2 & F2 & -> & Hk2 & HF2)|[Hno ->]]; [|right; by exists s1].
  rewrite bind_ret. cbv zeta.
  destruct (new_stack_ok t s2 F2 _ pm1 Hk2) as [(b2 & s3 & F3 & -> & Hk3 & HF3)|[Hno ->]]; [|right; by exists s2].
  rewrite bind_ret. left. eexists _, s3, F3, pm1, b1, b2. split; [done|]. split_and!; [|done| | |lia].
  - destruct Hk3 as [Ho Hfr ? ? ? ? ?]. split; [done| |done..]. eapply frames_wf_perm; [|exact Hfr]. unfold stack_frames. apply Permutation_app_tail. solve_Permutation.
  - unfold set_storage. split; cbn [storage gdts fresh_core]; rewrite ?fn_lookup_insert; done.
  - intros j Hj. unfold set_storage. cbn [storage gdts fresh_core].
    assert (core_addr id ≠ core_addr j) by (intros ?%core_addr_inj; congruence).
    rewrite !fn_lookup_insert_ne by lia. done.
Qed.

(** The stacks of the cores [st], with the bases of each. *)
Definition all_stacks (st : list (Z * (Z * Z))) : list Z := concat ((λ x, stack_frames x.2.1 x.2.2) <$> st).

(** Everything a core needs to start. *)
Record ready (tr : Trampoline) (c : Cpus) (pm : list (Z * Z)) (id b1 b2 : Z) : Prop := {
  rd_start : ap_trampoline tr c id = Some (mkAp (core_addr id) (b1 + off + 0xA000) (tr_startup tr) id);
  rd_storage : own_storage c id b1 b2;
  rd_memory : ∀ a, core_addr id ≤ a < core_addr id + 0x1000 + gdt_size → ∃ v f, (v, f) ∈ pm ∧ v ≤ a < v + 0x1000;
  rd_tables : ap_startup_f c id = Done (gdt_for_core stacks_at (core_addr id + 0x1000));
}.

Lemma ready_intro tr c pm id b1 b2 :
  0 ≤ id < 256 → core_local tr !! id = Some (core_addr id) → own_storage c id b1 b2 →
  (∀ v, v ∈ core_pages gdt_size id → v ∈ pm.*1) → ready tr c pm id b1 b2.
Proof using Hg.
  intros Hid Hl Ho Hpm. split; [|done| |].
  - unfold ap_trampoline. rewrite Hl. cbn. by rewrite (os_stack _ _ _ _ Ho).
  - intros a Ha. destruct (core_pages_cover gdt_size id a Hg Ha) as (v & Hv & Hr). apply Hpm, list_elem_of_fmap in Hv as ([v' f] & -> & Hin). by exists v', f.
  - unfold ap_startup_f. rewrite core_base_ok, bind_ret by done. unfold add_u64.
    rewrite (chk_ok u64_lim) by (unfold core_addr, PerCpuMem, u64_lim; lia). rewrite bind_ret. by rewrite (os_tables _ _ _ _ Ho).
Qed.

Definition others (bsp : Z) (ids : list Z) : list Z := filter (λ i, i ≠ bsp) ids.

Lemma boot_cores_ok t bsp ids : ∀ tr s F X pm c,
  NoDup ids → Forall (λ i, 0 ≤ i < 256) ids → kmap t s F X pm →
  (∀ i v, i ∈ others bsp ids → v ∈ core_pages gdt_size i → v ∉ pm.*1) → (length ids * core_need ≤ length F)%nat →
  (∃ tr' c' s' F' pm' st, boot_cores off gdt_size stacks_at t bsp ids tr s c =
      Done (concat (boot_core <$> others bsp ids), tr', c', s') ∧ st.*1 = others bsp ids ∧
    kmap t s' F' (all_stacks st ++ X) pm' ∧ tr_startup tr' = tr_startup tr ∧
    (∀ v, v ∈ pm.*1 → v ∈ pm'.*1) ∧
    (∀ i, i ∉ others bsp ids → core_local tr' !! i = core_local tr !! i ∧ storage c' (core_addr i) = storage c (core_addr i) ∧
       gdts c' (core_addr i + 0x1000) = gdts c (core_addr i + 0x1000)) ∧
    ∀ i b1 b2, (i, (b1, b2)) ∈ st → ready tr' c' pm' i b1 b2) ∨
  (∃ s1, no_block s1 4 ∧ boot_cores off gdt_size stacks_at t bsp ids tr s c = Panic PUnwrap).
Proof using Hg Hoff Htop.
  induction ids as [|id ids IH]; intros tr s F X pm c Hnd Hids Hk Hnew HF; cbn [boot_cores].
  { left. exists tr, c, s, F, pm, []. split_and!; try done. intros i b1 b2 Hin. by apply elem_of_nil in Hin. }
  apply NoDup_cons in Hnd as [Hni Hnd]. apply Forall_cons in Hids as [Hid Hids]. cbn [length] in HF.
  unfold others in *. destruct (Z.eqb_spec id bsp) as [->|Hne].
  { rewrite !filter_cons_False by tauto. apply (IH tr s F X pm c Hnd Hids Hk); [|lia]. intros i v Hi. apply Hnew. rewrite filter_cons_False by tauto. done. }
  rewrite !filter_cons_True by done. rewrite filter_cons_True in Hnew by done.
  destruct (new_cpu_ok t s F X pm c id Hid Hk) as [(c1 & s1 & F1 & pm1 & b1 & b2 & -> & Hk1 & Hp1 & Hown & Hoth & HF1)|(s1 & Hno & ->)];
    [intros v; apply Hnew; left|lia| |right; by exists s1].
  rewrite bind_ret. cbv zeta. set (tr1 := mkTramp _ _ _).
  destruct (IH tr1 s1 F1 _ pm1 c1 Hnd Hids Hk1) as [(tr2 & c2 & s2 & F2 & pm2 & st & -> & Hst & Hk2 & Htr & Hpm & Hsame & Hrd)|(s2 & Hno & ->)];
    [|lia| |right; by exists s2].
  { intros i v Hi Hv. rewrite Hp1. intros [Hv'|Hv']%elem_of_app; [|by apply (Hnew i v); [right|..]].
    apply list_elem_of_filter in Hi as [_ Hi]. assert (Hii : 0 ≤ i < 256) by (rewrite Forall_forall in Hids; by apply Hids).
    pose proof (core_pages_in gdt_size i v Hii Hg Hv) as [_ ?]. pose proof (core_pages_in gdt_size id v Hid Hg Hv') as [_ ?].
    unfold core_addr in *. assert (i = id) by lia. congruence. }
  rewrite bind_ret. left. exists tr2, c2, s2, F2, pm2, ((id, (b1, b2)) :: st). split; [done|].
  assert (Hnid : id ∉ filter (λ i, i ≠ bsp) ids) by (intros [_ ?]%list_elem_of_filter; done).
  split_and!.
  - by rewrite fmap_cons, Hst.
  - unfold all_stacks. cbn [fmap list_fmap concat fst snd]. destruct Hk2 as [Ho Hfr ? ? ? ? ?]. split; [done| |done..].
    eapply frames_wf_perm; [|exact Hfr]. apply Permutation_app_tail. rewrite <- !(assoc_L (++)). solve_Permutation.
  - by rewrite Htr.
  - intros v Hv. apply Hpm. rewrite Hp1. apply elem_of_app. by right.
  - intros i [Hi1 Hi2]%not_elem_of_cons. destruct (Hsame i Hi2) as (-> & -> & ->). destruct (Hoth i Hi1) as [-> ->]. split; [|done].
    cbn [core_local tr1]. by rewrite lookup_insert_ne.
  - intros i b1' b2' [[= -> -> ->]|Hin]%elem_of_cons; [|by apply Hrd]. destruct (Hsame id Hnid) as (El & Es & Eg).
    apply ready_intro; [done| | |].
    + rewrite El. cbn [core_local tr1]. apply lookup_insert_eq.
    + destruct Hown. split; by rewrite ?Es, ?Eg.
    + intros v Hv. apply Hpm. rewrite Hp1. apply elem_of_app. by left.
Qed.

(** Mapping a page a second time fails, and [unwrap] panics. *)
Lemma heap_map_page_twice t s F X pm v f : kmap t s F X pm → v ∈ pm.*1 → heap_map_page off t s v f = Panic PUnwrap.
Proof using Hoff.
  intros Hk ([v' g] & -> & Hin)%list_elem_of_fmap. pose proof (kmap_wf _ _ _ _ _ _ Hk) as Hwf. destruct Hk as [_ _ _ Hh Hm _ _].
  destruct (Hm v' g Hin) as (e & Ht & _). destruct (translate_leaf 2 0 _ _ _ _ Ht) as (Hc & e0 & Hle & Hpr & _).
  assert (Hv : in_slot PerCpuMem v') by (rewrite Forall_forall in Hh; apply Hh, list_elem_of_fmap; by exists (v', g)).
  unfold heap_map_page. cbn [fst]. rewrite (heap_page_new PerCpuMem percpu_slot v' Hv), bind_ret. destruct f as [f].
  by rewrite (Mapper_map_mapped off Hoff Size4KB 2 s t v' f flags_writeable e0 (frames_wf_tables _ _ Hwf) Hc Hle Hpr).
Qed.

(** A second core with the same number makes [init_core] panic: the boot processor takes
    the number 0 whatever its APIC number is. *)
Theorem init_core_twice t s F X pm c id :
  0 ≤ id < 256 → kmap t s F X pm → core_addr id ∈ pm.*1 → (0 < length F)%nat →
  init_core off gdt_size stacks_at t s c id = Panic PUnwrap.
Proof using Hg Hoff.
  intros Hid Hk Hin HF. unfold init_core. rewrite core_base_ok, bind_ret by done.
  change (cpu_lsize <=? 0x1000) with true. cbn [assert_]. rewrite bind_ret.
  destruct Hg as [Hgs _]. unfold add_u64. rewrite (chk_ok u64_lim (gdt_size + _)), bind_ret by (unfold u64_lim; lia).
  rewrite (proj2 (Z.leb_le (gdt_size + 0x1000) 0x100000)) by lia. cbn [assert_]. rewrite bind_ret.
  assert (Hc : core_addr id + 0x1000000 < u64_lim) by (unfold core_addr, PerCpuMem, u64_lim; lia).
  assert (Hc0 : 0 ≤ core_addr id) by (unfold core_addr, PerCpuMem; lia).
  rewrite (chk_ok u64_lim (core_addr id + gdt_size)), bind_ret by lia.
  rewrite (chk_ok u64_lim (core_addr id + gdt_size + 0xfff)), bind_ret by lia.
  unfold step_range. destruct (Z.to_nat _) as [|n] eqn:En; [Z.div_mod_to_equations; lia|]. cbn [seq fmap list_fmap heap_map_pages].
  destruct (take_frame_ok PerCpuMem t s F X pm Hk HF) as (f & s1 & F1 & -> & Hk1 & _). rewrite bind_ret, Z.mul_0_l, Z.add_0_r.
  by rewrite (heap_map_page_twice _ _ _ _ _ _ _ Hk1 Hin).
Qed.

End correct.

(** ** Waiting for the cores

    The handshake of [boot_aps] and the trampoline: the boot processor sends the start
    sequence to the cores one by one, then stores 1 to [bspdone] and spins until [aprunning]
    is the number of cores; a started core waits for [bspdone] and then increments the low
    word of [aprunning], which started at 1. *)
Module Handshake.

Record state := mkState {
  to_start : list Z;    (* the cores not yet sent the sequence *)
  sent : list Z;        (* sent it, on their way to the loop *)
  waiting : list Z;     (* at the loop of the trampoline *)
  running : list Z;     (* past it *)
  bspdone : bool;
  aprunning : Z;
  gone_on : bool;       (* the boot processor has left its loop *)
}.

Definition init (bsp : Z) (ids : list Z) : state := mkState (others bsp ids) [] [] [] false 1 false.

(** [lock inc word]. *)
Definition inc_word (n : Z) : Z := n - n mod 2 ^ 16 + (n + 1) mod 2 ^ 16.

Inductive step (n_cores : Z) : state → state → Prop :=
  | st_send id ids st w r n :
      step n_cores (mkState (id :: ids) st w r false n false) (mkState ids (st ++ [id]) w r false n false)
  | st_started ts st1 id st2 w r d n g :
      step n_cores (mkState ts (st1 ++ id :: st2) w r d n g) (mkState ts (st1 ++ st2) (w ++ [id]) r d n g)
  | st_done st w r n :
      step n_cores (mkState [] st w r false n false) (mkState [] st w r true n false)
  | st_go ts st w1 id w2 r n g :
      step n_cores (mkState ts st (w1 ++ id :: w2) r true n g) (mkState ts st (w1 ++ w2) (r ++ [id]) true (inc_word n) g)
  | st_leave st w r :
      step n_cores (mkState [] st w r true n_cores false) (mkState [] st w r true n_cores true).

Record inv (bsp : Z) (ids : list Z) (y : state) : Prop := {
  i_cores : to_start y ++ sent y ++ waiting y ++ running y ≡ₚ others bsp ids;
  i_count : aprunning y = 1 + Z.of_nat (length (running y));
  i_barrier : bspdone y = false → running y = [];
  i_sent : bspdone y = true → to_start y = [];
  i_gone : gone_on y = true → bspdone y = true ∧ running y ≡ₚ others bsp ids;
}.

Lemma others_length bsp ids : NoDup ids → bsp ∈ ids → S (length (others bsp ids)) = length ids.
Proof.
  intros Hnd Hin. apply elem_of_Permutation in Hin as [l Hl]. rewrite Hl in Hnd. apply NoDup_cons in Hnd as [Hn _].
  unfold others. rewrite Hl, filter_cons_False by tauto. cbn. f_equal. f_equal.
  clear Hl. induction l as [|x l IH]; [done|]. apply not_elem_of_cons in Hn as [? ?]. rewrite filter_cons_True by done. f_equal. by apply IH.
Qed.

Lemma inc_word_small n : 0 ≤ n < 2 ^ 16 - 1 → inc_word n = n + 1.
Proof. intros ?. unfold inc_word. rewrite !Z.mod_small by lia. lia. Qed.

(** How much is left to do. *)
Definition todo (y : state) : nat :=
  (3 * length (to_start y) + 2 * length (sent y) + length (waiting y) + (if bspdone y then 0 else 1) + (if gone_on y then 0 else 1))%nat.

Lemma step_todo n y y' : step n y y' → (todo y' < todo y)%nat.
Proof. destruct 1; unfold todo; cbn; rewrite ?length_app; cbn; lia. Qed.

Section handshake.
Context (bsp : Z) (ids : list Z) (Hnd : NoDup ids) (Hbsp : bsp ∈ ids) (Hn : Z.of_nat (length ids) < 2 ^ 16).

Lemma hs_init_inv : inv bsp ids (init bsp ids).
Proof using. split; cbn; try done. by rewrite app_nil_r. Qed.

(** Full: all cores run. *)
Lemma all_running y : inv bsp ids y → aprunning y = Z.of_nat (length ids) → to_start y = [] ∧ sent y = [] ∧ waiting y = [].
Proof using Hbsp Hnd.
  intros [Hc Hr _ _ _] E. rewrite Hr in E. apply Permutation_length in Hc. rewrite !length_app in Hc.
  pose proof (others_length bsp ids Hnd Hbsp). split_and!; apply length_zero_iff_nil; lia.
Qed.

Lemma hs_step_inv y y' : step (Z.of_nat (length ids)) y y' → inv bsp ids y → inv bsp ids y'.
Proof using Hbsp Hn Hnd.
  intros Hs Hi. pose proof (all_running y Hi) as Hall. destruct Hi as [Hc Hr Hb Hst Hg]. pose proof (Permutation_length Hc) as Hlen.
  pose proof (others_length bsp ids Hnd Hbsp).
  destruct Hs as [id ts st w r n|ts st1 id st2 w r d n g|st w r n|ts st w1 id w2 r n g|st w r];
    cbn [to_start sent waiting running bspdone aprunning gone_on] in *; split; cbn [to_start sent waiting running bspdone aprunning gone_on]; try done.
  - rewrite <- Hc. solve_Permutation.
  - rewrite <- Hc. solve_Permutation.
  - rewrite <- Hc. solve_Permutation.
  - rewrite !length_app in *. cbn in *. rewrite inc_word_small by lia. lia.
  - intros ->. destruct (Hg eq_refl) as [_ Hp]. apply Permutation_length in Hp. rewrite !length_app in Hlen. cbn in Hlen. lia.
  - intros _. split; [done|]. destruct (Hall eq_refl) as (_ & -> & ->). by rewrite <- Hc.
Qed.

(** Until the boot processor has gone on, something can happen. *)
Lemma can_step y : inv bsp ids y → gone_on y = false → ∃ y', step (Z.of_nat (length ids)) y y'.
Proof using Hbsp Hnd.
  intros [Hc Hr Hb Hst _] Hg. pose proof (others_length bsp ids Hnd Hbsp). destruct y as [ts st w r d n g]. cbn in *. subst g.
  destruct d.
  - rewrite (Hst eq_refl) in *. destruct st as [|id st]; [|eexists; apply (st_started _ [] [])].
    destruct w as [|id w]; [|eexists; apply (st_go _ [] [] [])]. apply Permutation_length in Hc. cbn in Hc.
    replace n with (Z.of_nat (length ids)) by lia. eexists. apply st_leave.
  - destruct ts as [|id ts]; eexists; [apply st_done|apply st_send].
Qed.

(** C22: the start of the cores ends, and ends well: in whatever order the cores come up,
    none is past the loop of the trampoline before the boot processor has started all of
    them; the boot processor goes on only when every core runs; and it does go on, since
    every step brings the end nearer and as long as it waits there is a step to take. *)
Theorem boot_handshake y :
  rtc (step (Z.of_nat (length ids))) (init bsp ids) y →
  (running y ≠ [] → to_start y = [] ∧ bspdone y = true) ∧
  (gone_on y = true → running y ≡ₚ others bsp ids) ∧
  (∀ y', step (Z.of_nat (length ids)) y y' → (todo y' < todo y)%nat) ∧
  (gone_on y = false → ∃ y', step (Z.of_nat (length ids)) y y').
Proof using Hbsp Hn Hnd.
  intros Hr. assert (Hi : inv bsp ids y).
  { assert (H0 : inv bsp ids (init bsp ids)) by apply hs_init_inv. revert Hr H0. generalize (init bsp ids). intros x Hr.
    induction Hr as [|x x' z Hx _ IH]; [done|]. intros H0. by apply IH, (hs_step_inv x x'). }
  split_and!; [|by intros [_ ?]%(i_gone _ _ _ Hi)|apply step_todo|by apply can_step].
  intros Hne. destruct (bspdone y) eqn:Ed; [by split; [apply (i_sent _ _ _ Hi)|]|]. by apply (i_barrier _ _ _ Hi) in Ed.
Qed.
End handshake.
End Handshake.

(** ** A machine of three cores

    The boot processor is number 0; a block of 128 frames is free, and the tables of a core
    take a little more than a page. *)
Definition cores_world : alloc_world :=
  (mkPFA (<[7%nat := Some 0x100000]> (replicate 19 None)) None true 128, demo_mem).

Lemma cores_owns : owns cores_world (range_frames 0x100000 128).
Proof.
  exists (<[7%nat := [0x100000]]> (replicate 19 [])). split; [|vm_compute; reflexivity].
  split_and!; [cbn; repeat constructor|done| |].
  - apply (range_frames_NoDup 0x100000 128).
  - apply (range_frames_ok 0x100000 128); done.
Qed.

Section demo.
#[local] Instance demo_cores_allocator : PageAllocator PageFrameAllocator := pfa_allocator PhysMapOffset.
#[local] Instance demo_cores_spec : PageAllocatorSpec PageFrameAllocator := pfa_allocator_spec PhysMapOffset phys_map_offset_ok.

Lemma cores_kmap : kmap PerCpuMem 0x5000 cores_world (range_frames 0x100000 128) [] [].
Proof.
  split; [exact cores_owns| |constructor|constructor|set_solver| |intros v; by apply along_empty].
  - cbn [cores_world snd]. rewrite demo_tables. split.
    + apply NoDup_app. split_and!; [apply range_frames_NoDup| |by apply NoDup_singleton].
      intros f (i & ? & ->)%elem_of_range_frames ?%list_elem_of_singleton. lia.
    + apply Forall_app. split; [by apply range_frames_ok|by apply Forall_singleton].
  - intros v _ _. apply empty_table. done.
Qed.

Definition demo_cpus : Cpus := mkCpus (λ _, mkLS 0 0 0 0 0 0 0 0 0 false 0) (λ _, mkGdt [] TaskStateSegment_new).
Definition demo_tramp : Trampoline := mkTramp 0x7000 0x1234 ∅.

Lemma demo_boots : match boot_cores PhysMapOffset 0x1100 0x100 0x5000 0 [0; 1; 2] demo_tramp cores_world demo_cpus with Done _ => true | _ => false end = true.
Proof. by vm_compute. Qed.

Lemma demo_gdt_ok : gdt_size_ok 0x1100.
Proof. split; [lia|discriminate]. Qed.
Lemma demo_top : PHYS_TOP + PhysMapOffset < u64_lim.
Proof. reflexivity. Qed.

End demo.

(** Two cores besides the boot processor; the second is at the loop first. *)
Lemma boot_handshake_witness :
  ∃ y, rtc (Handshake.step 3) (Handshake.init 0 [0; 1; 2]) y ∧ Handshake.gone_on y = true ∧ Handshake.running y ≡ₚ [1; 2].
Proof.
  set (y := Handshake.mkState [] [] [] [2; 1] true 3 true).
  assert (Hr : rtc (Handshake.step (Z.of_nat (length [0; 1; 2]))) (Handshake.init 0 [0; 1; 2]) y).
  { eapply rtc_l; [apply (Handshake.st_send _ 1 [2] [] [] [] 1)|]. eapply rtc_l; [apply (Handshake.st_send _ 2 [] [1] [] [] 1)|].
    eapply rtc_l; [apply (Handshake.st_started _ [] [1] 2 [] [] [] false 1 false)|].
    eapply rtc_l; [apply (Handshake.st_done _ [1] [2] [] 1)|].
    eapply rtc_l; [apply (Handshake.st_go _ [] [1] [] 2 [] [] 1 false)|].
    eapply rtc_l; [apply (Handshake.st_started _ [] [] 1 [] [] [2] true 2 false)|].
    eapply rtc_l; [apply (Handshake.st_go _ [] [] [] 1 [] [2] 2 false)|].
    eapply rtc_l; [apply (Handshake.st_leave _ [] [] [2; 1])|]. apply rtc_refl. }
  exists y. split; [exact Hr|]. split; [reflexivity|].
  destruct (Handshake.boot_handshake 0 [0; 1; 2]) with (y := y) as (_ & H & _).
  - apply (bool_decide_unpack _). by vm_compute.
  - left.
  - reflexivity.
  - exact Hr.
  - exact (H eq_refl).
Defined.
