(* ===== verification/Terminal.v ===== *)
(** * The text screen

    [kernel/src/terminal.rs] (the grid of cells and what is written to it),
    [kernel/src/screen/gop.rs] (drawing cells and the pointer into the frame
    buffer), [screen/psf1.rs] (the font), [screen/mouse.rs] (moving the pointer) and
    the screen's part of [kernel/src/logging.rs].

    A [char] is its code point.  The frame buffer is the word at each byte offset a
    [u32] is written to.  The tasks that loop over these operations are in the order
    they take the lock of the writer; every operation below is one such section. *)
From S2P Require Import Prelude Ps2.

(** [for a in l { s = f(s, a) }] *)
Fixpoint for_in {S A} (f : S → A → outcome S) (l : list A) (s : S) : outcome S :=
  match l with [] => Done s | a :: l => s ← f s a; for_in f l s end.

Lemma for_in_app {S A} (f : S → A → outcome S) l1 : ∀ l2 s, for_in f (l1 ++ l2) s = (s ← for_in f l1 s; for_in f l2 s).
Proof. induction l1 as [|a l1 IH]; intros l2 s; cbn [for_in app]; [done|]. destruct (f s a); cbn; [apply IH|done..]. Qed.

(** [iter().enumerate()] *)
Definition enumerate {A} (l : list A) : list (Z * A) := imap (λ i a, (Z.of_nat i, a)) l.

(** ** Cells *)
Record Cell := mkCell { chr : Z; fg : Z; bg : Z }.
Record Line := mkLine { cells : list Cell }.
Record BoundingBox := mkBox { min_x : Z; max_x : Z; min_y : Z; max_y : Z }.
Definition from_max (max_x max_y : Z) : BoundingBox := mkBox 0 max_x 0 max_y.

#[export] Instance Cell_inhabited : Inhabited Cell := populate (mkCell 0 0 0).
#[export] Instance Line_inhabited : Inhabited Line := populate (mkLine []).

Record TTY := mkTTY {
  buffer : list Line;
  fg_color : Z;
  bg_color : Z;
  dims_x : Z;
  dims_y : Z;
  pos_x : Z;
  pos_y : Z;
  dirty_box : option BoundingBox;
}.

Definition upd_buffer (t : TTY) b : TTY := mkTTY b (fg_color t) (bg_color t) (dims_x t) (dims_y t) (pos_x t) (pos_y t) (dirty_box t).
Definition upd_pos (t : TTY) x y : TTY := mkTTY (buffer t) (fg_color t) (bg_color t) (dims_x t) (dims_y t) x y (dirty_box t).
Definition upd_dirty (t : TTY) d : TTY := mkTTY (buffer t) (fg_color t) (bg_color t) (dims_x t) (dims_y t) (pos_x t) (pos_y t) d.
Definition upd_bg (t : TTY) c : TTY := mkTTY (buffer t) (fg_color t) c (dims_x t) (dims_y t) (pos_x t) (pos_y t) (dirty_box t).

Definition TTY_new (dims_x dims_y : Z) : TTY :=
  mkTTY (replicate (Z.to_nat dims_y) (mkLine (replicate (Z.to_nat dims_x) (mkCell 32 0xFFFFFF 0))))
    0xFFFFFF 0 dims_x dims_y 0 0 (Some (from_max dims_x dims_y)).

Definition set_fg_colour (t : TTY) (colour : Z) : Z * TTY :=
  (fg_color t, mkTTY (buffer t) colour (bg_color t) (dims_x t) (dims_y t) (pos_x t) (pos_y t) (dirty_box t)).

Definition set_complete_dirty (t : TTY) : TTY := upd_dirty t (Some (from_max (dims_x t) (dims_y t))).

Definition set_cell_dirty (t : TTY) (x y : Z) : outcome TTY :=
  x1 ← add_u64 x 1;
  y1 ← add_u64 y 1;
  Done (upd_dirty t (Some (match dirty_box t with
    | None => mkBox x x1 y y1
    | Some b => mkBox (Z.min (min_x b) x) (Z.max (max_x b) x1) (Z.min (min_y b) y) (Z.max (max_y b) y1)
    end))).

(** [VecDeque::rotate_left(1)] *)
Definition rotate_left1 {A} (l : list A) : outcome (list A) :=
  match l with [] => Panic PAssert | a :: l => Done (l ++ [a]) end.

Definition blank (c : Cell) : Cell := mkCell 32 (fg c) (bg c).

Definition newline (t : TTY) : outcome TTY :=
  let t := upd_pos t 0 (pos_y t) in
  y1 ← add_u64 (pos_y t) 1;
  if y1 =? dims_y t then
    b ← rotate_left1 (buffer t);
    last ← sub_u64 (dims_y t) 1;
    l ← index b (Z.to_nat last);
    b ← index_set b (Z.to_nat last) (mkLine (blank <$> cells l));
    Done (set_complete_dirty (upd_buffer t b))
  else Done (upd_pos t (pos_x t) y1).

Definition advance_char (t : TTY) : outcome TTY :=
  x1 ← add_u64 (pos_x t) 1;
  if x1 =? dims_x t then newline t else Done (upd_pos t x1 (pos_y t)).

(** [self.buffer[y].cells[x]], changed in place. *)
Definition on_cell (t : TTY) (x y : Z) (f : Cell → Cell) : outcome TTY :=
  l ← index (buffer t) (Z.to_nat y);
  c ← index (cells l) (Z.to_nat x);
  Done (upd_buffer t (<[Z.to_nat y := mkLine (<[Z.to_nat x := f c]> (cells l))]> (buffer t))).

(** The new line feed and the backspace. *)
Definition LF : Z := 10.
Definition BS : Z := 8.

Definition write_char (t : TTY) (c : Z) : outcome TTY :=
  if c =? LF then newline t
  else if c =? BS then
    t ← (if (pos_x t =? 0) && (pos_y t =? 0) then Done t
         else if pos_x t =? 0 then
           y ← sub_u64 (pos_y t) 1;
           x ← sub_u64 (dims_y t) 1;
           Done (upd_pos t x y)
         else
           x ← sub_u64 (pos_x t) 1;
           Done (upd_pos t x (pos_y t)));
    t ← on_cell t (pos_x t) (pos_y t) blank;
    set_cell_dirty t (pos_x t) (pos_y t)
  else
    t ← on_cell t (pos_x t) (pos_y t) (λ _, mkCell c (fg_color t) (bg_color t));
    t ← set_cell_dirty t (pos_x t) (pos_y t);
    advance_char t.

Definition tty_clear (t : TTY) : TTY :=
  set_complete_dirty
    (upd_buffer t ((λ l, mkLine ((λ c, mkCell 32 (fg c) (bg_color t)) <$> cells l)) <$> buffer t)).

(** ** The font *)
Definition PSF1_MAGIC : list Z := [0x36; 0x04].
Definition PSF1_HEADER_SIZE : Z := 4.

Record PSF1FontHeader := mkFontHeader { magic : list Z; mode_512 : Z; charsize : Z }.
Record PSF1Font := mkFont { psf1_header : PSF1FontHeader; glyph_buffer : list Z; unicode_buffer : list Z }.

(** [file] has the four bytes of the header. *)
Definition load_psf1_font (file : list Z) : outcome (result PSF1Font (list Z)) :=
  let h := mkFontHeader (take 2 file) (file !!! 2%nat) (file !!! 3%nat) in
  if negb (bool_decide (magic h = PSF1_MAGIC)) then Done (Err (magic h))
  else
    size ← mul_u64 (charsize h) 256;
    size ← (if mode_512 h =? 1 then mul_u64 size 2 else Done size);
    n ← sub_u64 (Z.of_nat (length file)) PSF1_HEADER_SIZE;
    n ← sub_u64 n size;
    Done (Ok (mkFont h (take (Z.to_nat size) (drop 4 file)) (take (Z.to_nat n) (drop (Z.to_nat (4 + size)) file)))).

(** [char::from_u32] of a 16-bit number. *)
Definition char_from_u16 (u : Z) : option Z := if (0xD800 <=? u) && (u <=? 0xDFFF) then None else Some u.

(** The table of [Writer::new]: which glyph shows a character. *)
Fixpoint read_table (bytes : list Z) (ix : Z) (m : gmap Z Z) : outcome (gmap Z Z) :=
  match bytes with
  | [] => Done m
  | [_] => Panic PIndex
  | lo :: hi :: bytes =>
      let u := Z.lor lo (Z.shiftl hi 8) in
      if u =? 0xFFFF then ix ← add_u64 ix 1; read_table bytes ix m
      else c ← unwrap (char_from_u16 u); read_table bytes ix (<[c := ix]> m)
  end.

(** ** The frame buffer *)
Definition CHAR_HEIGHT : Z := 16.
Definition CHAR_WIDTH : Z := 8.

Record Pos := mkPos { px : Z; py : Z }.
Record GopInfo := mkGop { frame : Z → Z; horizonal : Z; vertical : Z; stride : Z }.
Record Screen := mkScreen { gop : GopInfo; font : PSF1Font; unicode_table : gmap Z Z }.

Definition write_volatile (s : Screen) (loc colour : Z) : Screen :=
  mkScreen (mkGop (<[loc := colour]> (frame (gop s))) (horizonal (gop s)) (vertical (gop s)) (stride (gop s)))
    (font s) (unicode_table s).

(** [(x + (y * stride)) * 4] *)
Definition pixel_loc (g : GopInfo) (x y : Z) : outcome Z :=
  o ← mul_u64 y (stride g);
  o ← add_u64 x o;
  mul_u64 o 4.

Definition update_cell (s : Screen) (c : Cell) (x y : Z) : outcome Screen :=
  let addr := default 0 (unicode_table s !! chr c) in
  addr ← mul_u64 addr 16;
  xoff ← mul_u64 x CHAR_WIDTH;
  yoff ← mul_u64 y CHAR_HEIGHT;
  _ ← add_u64 yoff 16;
  _ ← add_u64 xoff 8;
  for_in (λ s i,
      glyph ← index (glyph_buffer (font s)) (Z.to_nat (addr + i));
      for_in (λ s j,
          let colour := if 0 <? Z.land glyph (Z.shiftr 0x80 j) then fg c else bg c in
          loc ← pixel_loc (gop s) (xoff + j) (yoff + i);
          Done (write_volatile s loc colour)) (seqZ 0 8) s) (seqZ 0 16) s.

Definition MOUSE_POINTER : list Z :=
  [0xFFC0; 0xFF80; 0xFF00; 0xFE00; 0xFC00; 0xF800; 0xF000; 0xE000; 0xC000; 0x8000; 0; 0; 0; 0; 0; 0].

(** Where [draw_cursor] puts the pointer. *)
Definition clamp_pos (g : GopInfo) (p : Pos) : outcome Pos :=
  h ← sub_u64 (horizonal g) 16;
  v ← sub_u64 (vertical g) 16;
  Done (mkPos (if h <? px p then h else px p) (if v <? py p then v else py p)).

Definition draw_cursor (s : Screen) (p : Pos) (colour : Z) (cursor : list Z) : outcome Screen :=
  p ← clamp_pos (gop s) p;
  for_in (λ s y,
      line ← index cursor (Z.to_nat y);
      for_in (λ s x,
          if 0 <? Z.land line (Z.shiftr 0x2000 x) then
            x ← add_u64 x (px p);
            y ← add_u64 y (py p);
            loc ← pixel_loc (gop s) x y;
            Done (write_volatile s loc colour)
          else Done s) (seqZ 0 16) s) (seqZ 0 16) s.

(** ** The writer *)
Record Writer := mkWriter { screen : Screen; tty : TTY; mouse_pos : Pos; mouse_colour : Z }.

Definition upd_screen (w : Writer) s : Writer := mkWriter s (tty w) (mouse_pos w) (mouse_colour w).
Definition upd_tty (w : Writer) t : Writer := mkWriter (screen w) t (mouse_pos w) (mouse_colour w).

Definition Writer_new (g : GopInfo) (f : PSF1Font) : outcome Writer :=
  table ← read_table (unicode_buffer f) 0 ∅;
  Done (mkWriter (mkScreen g f table) (TTY_new (horizonal g / CHAR_WIDTH) (vertical g / CHAR_HEIGHT))
          (mkPos 0 0) 0xFFFFFF).

Definition write_str (w : Writer) (s : list Z) : outcome Writer :=
  t ← for_in write_char s (tty w); Done (upd_tty w t).

Definition clear (w : Writer) : Writer := upd_tty w (tty_clear (tty w)).

Definition reset_screen (w : Writer) (color : Z) : Writer :=
  let w := upd_tty w (upd_bg (tty w) color) in
  let w := clear w in
  upd_tty w (upd_pos (tty w) 0 0).

(** The cells of a line, in the columns the loop visits. *)
Definition draw_line (y : Z) (l : list (Z * Cell)) (s : Screen) : outcome Screen :=
  for_in (λ s '(x, c), update_cell s c x y) l s.

Definition update_cursor (w : Writer) (pos : Pos) (colour : Z) : outcome Writer :=
  let p := mouse_pos w in
  let mx := Z.to_nat (Z.max 0 (px p / CHAR_WIDTH - 1)) in
  let my := Z.to_nat (Z.max 0 (py p / CHAR_HEIGHT - 1)) in
  s ← for_in (λ s '(y, l), draw_line y (take 3 (drop mx (enumerate (cells l)))) s)
        (take 3 (drop my (enumerate (buffer (tty w))))) (screen w);
  s ← draw_cursor s pos colour MOUSE_POINTER;
  Done (mkWriter s (tty w) pos colour).

Definition redraw_if_needed (w : Writer) : outcome Writer :=
  match dirty_box (tty w) with
  | None => Done w
  | Some b =>
      let w := upd_tty w (upd_dirty (tty w) None) in
      cursor_cell ← add_u64 (py (mouse_pos w) / CHAR_HEIGHT) 1;
      s ← for_in (λ s '(y, l),
             s ← draw_line y (drop (Z.to_nat (min_x b)) (take (Z.to_nat (max_x b)) (enumerate (cells l)))) s;
             if y =? cursor_cell then draw_cursor s (mouse_pos w) (mouse_colour w) MOUSE_POINTER else Done s)
           (drop (Z.to_nat (min_y b)) (take (Z.to_nat (max_y b)) (enumerate (buffer (tty w))))) (screen w);
      s ← draw_cursor s (mouse_pos w) (mouse_colour w) MOUSE_POINTER;
      Done (upd_screen w s)
  end.

(** ** Moving the pointer *)

(** [usize::saturating_add_signed] *)
Definition saturating_add_signed (a d : Z) : Z := Z.min (u64_lim - 1) (Z.max 0 (a + d)).

(** The position is that of the cursor task, the writer the shared one. *)
Definition print_cursor (pos : Pos) (m : MousePacket) (w : Writer) : outcome (Pos * Writer) :=
  let colour := 0x505050 in
  let colour := if left m then Z.lor colour 0xFF0000 else colour in
  let colour := if right m then Z.lor colour 0x00FF00 else colour in
  let colour := if middle m then Z.lor colour 0x0000FF else colour in
  let x := saturating_add_signed (px pos) (x_mov m) in
  let y := saturating_add_signed (py pos) (y_mov m) in
  h ← sub_u64 (horizonal (gop (screen w))) 8;
  v ← sub_u64 (vertical (gop (screen w))) 16;
  let pos := mkPos (if h <? x then h else x) (if v <? y then v else y) in
  w ← update_cursor w pos colour;
  Done (pos, w).

(** ** Log lines *)
Inductive Level := LError | LWarn | LInfo | LDebug | LTrace.

Definition get_color_for_level (l : Level) : Z :=
  match l with
  | LError => 0xFF5555 | LWarn => 0xFFFF55 | LInfo => 0x55FF55 | LDebug => 0x5555FF | LTrace => 0x55FFFF
  end.

(** The level, its name padded to five characters, then target and text. *)
Definition level_text (l : Level) : list Z :=
  match l with
  | LError => [69; 82; 82; 79; 82]
  | LWarn => [87; 65; 82; 78; 32]
  | LInfo => [73; 78; 70; 79; 32]
  | LDebug => [68; 69; 66; 85; 71]
  | LTrace => [84; 82; 65; 67; 69]
  end.

Definition log_screen (w : Writer) (level : Level) (target args : list Z) : outcome Writer :=
  let '(color, t) := set_fg_colour (tty w) (get_color_for_level level) in
  w ← write_str (upd_tty w t) (level_text level ++ [32]);
  let w := upd_tty w (snd (set_fg_colour (tty w) 0xFFFFFF)) in
  w ← write_str w (target ++ [32; 62; 32] ++ args ++ [LF]);
  Done (upd_tty w (snd (set_fg_colour (tty w) color))).

(** ** The grid stays well formed and every change is marked *)
Definition tty_ok (t : TTY) : Prop :=
  Z.of_nat (length (buffer t)) = dims_y t ∧
  Forall (λ l, Z.of_nat (length (cells l)) = dims_x t) (buffer t) ∧
  0 ≤ pos_x t < dims_x t ∧ 0 ≤ pos_y t < dims_y t ∧ dims_x t < u32_lim ∧ dims_y t < u32_lim.

Definition cell_at (t : TTY) (x y : Z) : Cell := cells (buffer t !!! Z.to_nat y) !!! Z.to_nat x.

Definition in_box (d : option BoundingBox) (x y : Z) : Prop :=
  match d with Some b => min_x b ≤ x < max_x b ∧ min_y b ≤ y < max_y b | None => False end.

(** From [t] to [t'] the grid has kept its size, and a cell that is not marked dirty
    was not dirty before and has not changed. *)
Definition marked (t t' : TTY) : Prop :=
  dims_x t' = dims_x t ∧ dims_y t' = dims_y t ∧
  ∀ x y, 0 ≤ x < dims_x t → 0 ≤ y < dims_y t → ¬ in_box (dirty_box t') x y →
    ¬ in_box (dirty_box t) x y ∧ cell_at t' x y = cell_at t x y.

#[export] Instance marked_preorder : PreOrder marked.
Proof.
  split; [by split|]. intros t1 t2 t3 (Hx & Hy & H) (Hx' & Hy' & H'). split_and!; [congruence..|].
  intros x y Hxr Hyr Hb. destruct (H' x y) as [Hb2 E2]; [congruence..|]. destruct (H x y) as [Hb1 E1]; [done..|].
  split; [done|congruence].
Qed.

(** What an operation of the grid does when it keeps all that. *)
Definition step_ok (t : TTY) (m : outcome TTY) : Prop := ∃ t', m = Done t' ∧ tty_ok t' ∧ marked t t'.

Lemma step_ok_bind t m f : step_ok t m → (∀ t', tty_ok t' → marked t t' → step_ok t' (f t')) → step_ok t (m ≫= f).
Proof.
  intros (t1 & -> & Hok & Hm) Hf. destruct (Hf t1 Hok Hm) as (t2 & E & Hok2 & Hm2).
  exists t2. rewrite bind_ret, E. split_and!; [done..|by etrans].
Qed.

Lemma line_length t y :
  tty_ok t → 0 ≤ y < dims_y t →
  ∃ l, buffer t !! Z.to_nat y = Some l ∧ Z.of_nat (length (cells l)) = dims_x t.
Proof.
  intros (Hlen & Hl & _) Hy. destruct (lookup_lt_is_Some_2 (buffer t) (Z.to_nat y)) as [l El]; [lia|].
  exists l. split; [done|]. by apply (Forall_lookup_1 _ _ _ _ Hl El).
Qed.

Lemma set_cell_dirty_ok t x y :
  0 ≤ x < u32_lim → 0 ≤ y < u32_lim →
  ∃ d, set_cell_dirty t x y = Done (upd_dirty t (Some d)) ∧ in_box (Some d) x y ∧
    ∀ x' y', in_box (dirty_box t) x' y' → in_box (Some d) x' y'.
Proof.
  intros Hx Hy. unfold set_cell_dirty. arith_ok. eexists. split; [done|].
  destruct (dirty_box t) as [b|]; cbn; split; try lia; done.
Qed.

(** Change a cell and mark it. *)
Lemma on_cell_dirty_ok t x y f (k : TTY → outcome TTY) :
  tty_ok t → 0 ≤ x < dims_x t → 0 ≤ y < dims_y t →
  (∀ t', tty_ok t' → marked t t' → pos_x t' = pos_x t → pos_y t' = pos_y t → step_ok t' (k t')) →
  step_ok t (t' ← on_cell t x y f; t' ← set_cell_dirty t' x y; k t').
Proof.
  intros Hok Hx Hy Hk. destruct (line_length t y Hok Hy) as (l & El & Hl).
  destruct Hok as (Hlen & Hls & Hpx & Hpy & Hdx & Hdy).
  unfold on_cell. rewrite (proj2 (index_Done _ _ _) El), bind_ret.
  destruct (lookup_lt_is_Some_2 (cells l) (Z.to_nat x)) as [c Ec]; [lia|].
  rewrite (proj2 (index_Done _ _ _) Ec), !bind_ret. set (t1 := upd_buffer t _).
  destruct (set_cell_dirty_ok t1 x y) as (d & -> & Hd & Hd'); [lia..|]. rewrite bind_ret.
  assert (Hok2 : tty_ok (upd_dirty t1 (Some d))).
  { unfold t1. split_and!; cbn; try lia; [by rewrite length_insert|]. apply Forall_insert; [done|]. cbn. by rewrite length_insert. }
  assert (Hm : marked t (upd_dirty t1 (Some d))).
  { split_and!; [done..|]. intros x' y' Hx' Hy' Hb. split; [intros Hb'; apply Hb, Hd', Hb'|].
    unfold cell_at. cbn. destruct (decide (y' = y)) as [->|Hne].
    - rewrite list_lookup_total_insert_eq by lia. cbn. rewrite list_lookup_total_insert_ne.
      + by rewrite (list_lookup_total_correct _ _ _ El).
      + intros E. apply Hb. replace x' with x by lia. done.
    - by rewrite list_lookup_total_insert_ne by lia. }
  destruct (Hk _ Hok2 Hm) as (t2 & -> & ? & ?); [done..|]. exists t2. split_and!; [done..|by etrans].
Qed.

Lemma newline_ok t : tty_ok t → step_ok t (newline t).
Proof.
  intros (Hlen & Hls & Hpx & Hpy & Hdx & Hdy). unfold newline. cbn. arith_keep.
  destruct (Z.eqb_spec (pos_y t + 1) (dims_y t)) as [E|E].
  - unfold rotate_left1. destruct (buffer t) as [|l0 b] eqn:Eb; cbn in Hlen; [lia|]. rewrite bind_ret. arith_keep.
    assert (El : (b ++ [l0]) !! Z.to_nat (dims_y t - 1) = Some l0).
    { rewrite lookup_app_r by lia. replace (_ - _)%nat with 0%nat by lia. done. }
    rewrite bind_ret, (proj2 (index_Done _ _ _) El), bind_ret, index_set_ok by (rewrite length_app; cbn; lia).
    rewrite bind_ret. eexists. split; [done|]. apply Forall_cons in Hls as [Hl0 Hb].
    split; [split_and!; cbn; try done; try lia|split_and!; [done..|]].
    + rewrite length_insert, length_app. cbn. lia.
    + apply Forall_insert; [by apply Forall_app; split; [|constructor]|]. cbn. by rewrite length_fmap.
    + intros x y Hx Hy Hb'. destruct Hb'. cbn. lia.
  - eexists. split; [done|]. split; [split_and!; cbn; done || lia|by split_and!].
Qed.

Lemma step_ok_pos t x y : tty_ok t → 0 ≤ x < dims_x t → 0 ≤ y < dims_y t → step_ok t (Done (upd_pos t x y)).
Proof. intros (? & ? & _ & _ & ? & ?) ? ?. eexists. split; [done|]. split; [split_and!; cbn; done || lia|by split_and!]. Qed.

Lemma advance_char_ok t : tty_ok t → step_ok t (advance_char t).
Proof.
  intros Hok. pose proof Hok as (_ & _ & ? & ? & ? & ?). unfold advance_char. arith_keep.
  destruct (Z.eqb_spec (pos_x t + 1) (dims_x t)); [by apply newline_ok|]. apply step_ok_pos; [done|lia..].
Qed.

Lemma write_char_ok t c : tty_ok t → dims_y t ≤ dims_x t → step_ok t (write_char t c).
Proof.
  intros Hok Hd. pose proof Hok as (_ & _ & ? & ? & ? & ?). unfold write_char.
  destruct (c =? LF); [by apply newline_ok|]. destruct (c =? BS).
  - apply step_ok_bind.
    + destruct (Z.eqb_spec (pos_x t) 0), (Z.eqb_spec (pos_y t) 0); cbn [andb].
      * exists t. by split_and!.
      * arith_keep. apply step_ok_pos; [done|lia..].
      * arith_keep. apply step_ok_pos; [done|lia..].
      * arith_keep. apply step_ok_pos; [done|lia..].
    + intros t' Hok' (E1 & E2 & _). pose proof Hok' as (_ & _ & ? & ? & ? & ?).
      pose proof (on_cell_dirty_ok t' (pos_x t') (pos_y t') blank Done Hok') as Hc.
      destruct Hc as (t2 & E & ? & ?); [lia..|intros t2 ? _ _ _; by exists t2; split_and!|].
      exists t2. split; [|done]. rewrite <- E.
      destruct (on_cell t' (pos_x t') (pos_y t') blank) as [t3| |] eqn:E3; [|done..].
      unfold on_cell in E3. inv_outcome. cbn. by destruct (set_cell_dirty _ _ _).
  - set (g := λ _ : Cell, mkCell c (fg_color t) (bg_color t)).
    pose proof (on_cell_dirty_ok t (pos_x t) (pos_y t) g advance_char Hok) as Hc.
    destruct Hc as (t2 & E & ? & ?); [lia..|intros; by apply advance_char_ok|].
    exists t2. split; [|done]. rewrite <- E.
    destruct (on_cell t (pos_x t) (pos_y t) g) as [t3| |] eqn:E3; [|done..].
    unfold on_cell in E3. inv_outcome. done.
Qed.

Lemma write_chars_ok s : ∀ t, tty_ok t → dims_y t ≤ dims_x t → step_ok t (for_in write_char s t).
Proof.
  induction s as [|c s IH]; intros t Hok Hd; cbn [for_in]; [by exists t; split_and!|].
  apply step_ok_bind; [by apply write_char_ok|]. intros t' Hok' (E1 & E2 & _). apply IH; [done|]. by rewrite E1, E2.
Qed.

Lemma TTY_new_ok dx dy : 0 < dx < u32_lim → 0 < dy < u32_lim → tty_ok (TTY_new dx dy).
Proof.
  intros ? ?. split_and!; cbn; try lia; [by rewrite length_replicate; lia|]. apply Forall_replicate. cbn.
  rewrite length_replicate. lia.
Qed.

Lemma tty_clear_ok t : tty_ok t → tty_ok (tty_clear t) ∧ marked t (tty_clear t).
Proof.
  intros (? & Hl & ? & ? & ? & ?). split; [split_and!; cbn; try lia; [by rewrite length_fmap|]|split_and!; [done..|]].
  - apply Forall_fmap. eapply Forall_impl; [done|]. intros l Hll. cbn. by rewrite length_fmap.
  - intros x y Hx Hy Hb. destruct Hb. cbn. lia.
Qed.

(** ** Painting *)
Definition gop_ok (g : GopInfo) : Prop :=
  16 ≤ horizonal g ≤ stride g ∧ 16 ≤ vertical g ∧ stride g < 2 ^ 28 ∧ vertical g < 2 ^ 28.

(** Every character has its sixteen rows in the font, the first glyph too. *)
Definition glyphs_ok (s : Screen) : Prop :=
  16 ≤ Z.of_nat (length (glyph_buffer (font s))) < 2 ^ 32 ∧
  ∀ c i, unicode_table s !! c = Some i → 0 ≤ i ∧ (i + 1) * 16 ≤ Z.of_nat (length (glyph_buffer (font s))).

Definition pix (g : GopInfo) (x y : Z) : Z := (x + y * stride g) * 4.

Lemma pixel_loc_ok g x y :
  gop_ok g → 0 ≤ x < stride g → 0 ≤ y < vertical g → pixel_loc g x y = Done (pix g x y).
Proof. intros (? & ? & ? & ?) ? ?. unfold pixel_loc. assert (0 ≤ y * stride g < 2 ^ 56) by nia. by arith_ok. Qed.

Lemma pix_inj g x y x' y' :
  0 ≤ x < stride g → 0 ≤ x' < stride g → pix g x y = pix g x' y' → x = x' ∧ y = y'.
Proof. unfold pix. intros ? ? ?. assert (y = y') by nia. split; [nia|done]. Qed.

(** The colour of a pixel of a cell. *)
Definition cell_pixel (s : Screen) (c : Cell) (dx dy : Z) : Z :=
  let glyph := glyph_buffer (font s) !!! Z.to_nat (default 0 (unicode_table s !! chr c) * 16 + dy) in
  if 0 <? Z.land glyph (Z.shiftr 0x80 dx) then fg c else bg c.

Definition with_frame (s : Screen) (fr : Z → Z) : Screen :=
  mkScreen (mkGop fr (horizonal (gop s)) (vertical (gop s)) (stride (gop s))) (font s) (unicode_table s).

Lemma with_frame_frame s : with_frame s (frame (gop s)) = s.
Proof. by destruct s as [[]]. Qed.

Section paint.
Context (s : Screen).
Context (Hg : gop_ok (gop s)).

(** Of the pixels that are not hidden by [C], those of [S] have got the colour [want]
    and the others have kept theirs. *)
Definition paints (C S : Z → Z → bool) (want : Z → Z → Z) (fr fr' : Z → Z) : Prop :=
  ∀ X Y, 0 ≤ X < stride (gop s) → 0 ≤ Y < vertical (gop s) → C X Y = false →
    fr' (pix (gop s) X Y) = if S X Y then want X Y else fr (pix (gop s) X Y).

(** An operation on the screen that paints, whatever is on it. *)
Definition painter (C S : Z → Z → bool) (want : Z → Z → Z) (f : Screen → outcome Screen) : Prop :=
  ∀ fr, ∃ fr', f (with_frame s fr) = Done (with_frame s fr') ∧ paints C S want fr fr'.

Lemma painter_ret C want : painter C (λ _ _, false) want Done.
Proof using. intros fr. exists fr. split; [done|]. by intros ? ? ? ?. Qed.

Lemma painter_bind C S1 S2 want f g :
  painter C S1 want f → painter C S2 want g → painter C (λ X Y, S2 X Y || S1 X Y) want (λ s, s ← f s; g s).
Proof using.
  intros Hf Hg' fr. destruct (Hf fr) as (fr1 & E1 & H1). destruct (Hg' fr1) as (fr2 & E2 & H2).
  exists fr2. rewrite E1, bind_ret, E2. split; [done|]. intros X Y ? ? ?. rewrite H2, H1 by done.
  by destruct (S2 X Y).
Qed.

Lemma painter_weaken C C' S S' want want' f :
  (∀ X Y, 0 ≤ X < stride (gop s) → 0 ≤ Y < vertical (gop s) → C' X Y = false →
     C X Y = false ∧ S X Y = S' X Y ∧ (S X Y = true → want X Y = want' X Y)) →
  painter C S want f → painter C' S' want' f.
Proof using.
  intros H Hf fr. destruct (Hf fr) as (fr' & E & Hp). exists fr'. split; [done|].
  intros X Y ? ? HC. destruct (H X Y) as (? & <- & Hw); [done..|]. rewrite Hp by done.
  destruct (S X Y); [by apply Hw|done].
Qed.

Lemma painter_for {A} C (S : A → Z → Z → bool) want (f : Screen → A → outcome Screen) l :
  (∀ a, a ∈ l → painter C (S a) want (λ s, f s a)) →
  painter C (λ X Y, existsb (λ a, S a X Y) l) want (for_in f l).
Proof using.
  induction l as [|a l IH]; intros H; cbn [for_in existsb]; [apply painter_ret|].
  apply painter_weaken with C (λ X Y, existsb (λ a, S a X Y) l || S a X Y) want.
  - intros X Y _ _ HC. split_and!; [done| |done]. apply orb_comm.
  - apply (painter_bind C (S a) _ want (λ s, f s a) (for_in f l)); [apply H; left|].
    apply IH. intros b Hb. apply H. by right.
Qed.

Lemma painter_pixel C x y colour :
  0 ≤ x < stride (gop s) → 0 ≤ y < vertical (gop s) →
  painter C (λ X Y, (X =? x) && (Y =? y)) (λ _ _, colour)
    (λ s, loc ← pixel_loc (gop s) x y; Done (write_volatile s loc colour)).
Proof using Hg.
  intros Hx Hy fr. exists (<[pix (gop s) x y := colour]> fr). split.
  - rewrite pixel_loc_ok by done. done.
  - intros X Y HX HY _. destruct (Z.eqb_spec X x) as [->|]; [destruct (Z.eqb_spec Y y) as [->|]|].
    + by rewrite fn_lookup_insert.
    + rewrite fn_lookup_insert_ne; [done|]. intros E. apply pix_inj in E as [_ E]; done.
    + rewrite fn_lookup_insert_ne; [done|]. intros E. apply pix_inj in E as [E _]; done.
Qed.

(** Pixels row by row and, in a row, column by column. *)
Lemma existsb_rows (A B : Z → bool) (l1 l2 : list Z) :
  existsb (λ i, existsb (λ j, A j && B i) l2) l1 = existsb A l2 && existsb B l1.
Proof using.
  induction l1 as [|i l1 IH]; cbn; [by rewrite andb_false_r|]. rewrite IH.
  assert (E : existsb (λ j, A j && B i) l2 = existsb A l2 && B i).
  { clear. induction l2 as [|j l2 IH]; cbn; [done|]. rewrite IH. by destruct (A j), (existsb A l2), (B i). }
  rewrite E. by destruct (existsb A l2), (B i), (existsb B l1).
Qed.

Lemma existsb_block X x k (n : Z) :
  0 < n → k = x * n → existsb (λ j, X =? k + j) (seqZ 0 n) = (X / n =? x).
Proof using.
  intros Hn ->. apply eq_true_iff_eq. rewrite existsb_exists, Z.eqb_eq. split.
  - intros (j & Hj & ->%Z.eqb_eq). apply list_elem_of_In, elem_of_seqZ in Hj.
    rewrite Z.div_add_l by lia. rewrite Z.div_small by lia. lia.
  - intros <-. exists (X mod n). split; [apply list_elem_of_In, elem_of_seqZ; pose proof (Z.mod_pos_bound X n); lia|].
    apply Z.eqb_eq. pose proof (Z.div_mod X n). lia.
Qed.

Context (Hf : glyphs_ok s).

Lemma update_cell_paints C c x y :
  0 ≤ x < horizonal (gop s) / 8 → 0 ≤ y < vertical (gop s) / 16 →
  painter C (λ X Y, (X / 8 =? x) && (Y / 16 =? y)) (λ X Y, cell_pixel s c (X mod 8) (Y mod 16))
    (λ s, update_cell s c x y).
Proof using Hg Hf.
  intros Hx Hy. destruct Hg as (Hh & Hv & Hst & Hvt), Hf as [Hlen Htab].
  assert (8 * x + 8 ≤ horizonal (gop s)) by (pose proof (Z.mul_div_le (horizonal (gop s)) 8); lia).
  assert (16 * y + 16 ≤ vertical (gop s)) by (pose proof (Z.mul_div_le (vertical (gop s)) 16); lia).
  set (ix := default 0 (unicode_table s !! chr c)).
  assert (Hix : 0 ≤ ix ∧ (ix + 1) * 16 ≤ Z.of_nat (length (glyph_buffer (font s)))).
  { unfold ix. destruct (unicode_table s !! chr c) eqn:E; cbn; [by eapply Htab|lia]. }
  set (want := λ X Y, cell_pixel s c (X mod 8) (Y mod 16)).
  assert (Hloop : painter C (λ X Y, existsb (λ i, existsb (λ j, (X =? x * 8 + j) && (Y =? y * 16 + i)) (seqZ 0 8)) (seqZ 0 16)) want
    (for_in (λ s i,
      glyph ← index (glyph_buffer (font s)) (Z.to_nat (ix * 16 + i));
      for_in (λ s j,
          let colour := if 0 <? Z.land glyph (Z.shiftr 0x80 j) then fg c else bg c in
          loc ← pixel_loc (gop s) (x * 8 + j) (y * 16 + i);
          Done (write_volatile s loc colour)) (seqZ 0 8) s) (seqZ 0 16))).
  { apply painter_for. intros i [? ?]%elem_of_seqZ.
    destruct (lookup_lt_is_Some_2 (glyph_buffer (font s)) (Z.to_nat (ix * 16 + i))) as [gl Egl]; [lia|].
    assert (Hrow : painter C (λ X Y, existsb (λ j, (X =? x * 8 + j) && (Y =? y * 16 + i)) (seqZ 0 8)) want
      (for_in (λ s j, loc ← pixel_loc (gop s) (x * 8 + j) (y * 16 + i);
        Done (write_volatile s loc (if 0 <? Z.land gl (Z.shiftr 0x80 j) then fg c else bg c))) (seqZ 0 8))).
    { apply painter_for. intros j [? ?]%elem_of_seqZ.
      eapply painter_weaken; [|apply (painter_pixel C); lia]. intros X Y _ _ HC. split_and!; [done..|].
      intros [->%Z.eqb_eq ->%Z.eqb_eq]%andb_true_iff. unfold want, cell_pixel. fold ix.
      replace ((x * 8 + j) mod 8) with j by (apply (Z.mod_unique _ _ x); lia).
      replace ((y * 16 + i) mod 16) with i by (apply (Z.mod_unique _ _ y); lia).
      by rewrite (list_lookup_total_correct _ _ _ Egl). }
    intros fr. destruct (Hrow fr) as (fr' & E & Hp). exists fr'. split; [|done].
    cbn [font with_frame]. rewrite (proj2 (index_Done _ _ _) Egl), bind_ret. exact E. }
  intros fr. destruct (Hloop fr) as (fr' & E & Hp). exists fr'. split.
  - unfold update_cell, CHAR_WIDTH, CHAR_HEIGHT. cbn [unicode_table with_frame]. fold ix. arith_keep. exact E.
  - intros X Y HX HY HC. rewrite Hp by done. rewrite (existsb_rows (λ j, X =? x * 8 + j) (λ i, Y =? y * 16 + i)).
    by rewrite (existsb_block X x), (existsb_block Y y) by lia.
Qed.

(** The pointer. *)
Definition pointer_pos (p : Pos) : Pos :=
  mkPos (Z.min (horizonal (gop s) - 16) (px p)) (Z.min (vertical (gop s) - 16) (py p)).

Definition under_pointer (p : Pos) (X Y : Z) : bool :=
  let x := X - px (pointer_pos p) in
  let y := Y - py (pointer_pos p) in
  (0 <=? x) && (x <? 16) && ((0 <=? y) && (y <? 16)) &&
  (0 <? Z.land (MOUSE_POINTER !!! Z.to_nat y) (Z.shiftr 0x2000 x)).

Lemma draw_cursor_paints p colour :
  0 ≤ px p → 0 ≤ py p →
  painter (under_pointer p) (λ _ _, false) (λ _ _, colour) (λ s, draw_cursor s p colour MOUSE_POINTER).
Proof using Hg.
  intros Hpx Hpy. pose proof Hg as (? & ? & ? & ?).
  assert (Hp : clamp_pos (gop s) p = Done (pointer_pos p)).
  { unfold clamp_pos, pointer_pos. arith_keep. f_equal. f_equal; bool_cases; lia. }
  assert (Hp0 : 0 ≤ px (pointer_pos p) ≤ horizonal (gop s) - 16 ∧ 0 ≤ py (pointer_pos p) ≤ vertical (gop s) - 16)
    by (cbn; lia).
  set (q := pointer_pos p) in *.
  assert (Hloop : painter (under_pointer p) (λ X Y, existsb (λ _, existsb (λ _, false) (seqZ 0 16)) (seqZ 0 16)) (λ _ _, colour)
    (for_in (λ s y,
      line ← index MOUSE_POINTER (Z.to_nat y);
      for_in (λ s x,
          if 0 <? Z.land line (Z.shiftr 0x2000 x) then
            x ← add_u64 x (px q);
            y ← add_u64 y (py q);
            loc ← pixel_loc (gop s) x y;
            Done (write_volatile s loc colour)
          else Done s) (seqZ 0 16) s) (seqZ 0 16))).
  { apply (painter_for _ (λ _ X Y, existsb (λ _, false) (seqZ 0 16))). intros y [? ?]%elem_of_seqZ.
    destruct (lookup_lt_is_Some_2 MOUSE_POINTER (Z.to_nat y)) as [line Eline]; [cbn; lia|].
    rewrite (proj2 (index_Done _ _ _) Eline).
    cbn [mbind outcome_bind]. apply (painter_for _ (λ _ X Y, false)). intros x [? ?]%elem_of_seqZ.
    destruct (0 <? Z.land line (Z.shiftr 0x2000 x)) eqn:Ebit; [|apply painter_ret].
    arith_ok. eapply painter_weaken; [|apply (painter_pixel (under_pointer p)); lia].
    intros X Y _ _ HC. split_and!; [done| |done].
    apply not_true_iff_false. intros [->%Z.eqb_eq ->%Z.eqb_eq]%andb_true_iff.
    unfold under_pointer in HC. fold q in HC.
    replace (x + px q - px q) with x in HC by lia. replace (y + py q - py q) with y in HC by lia.
    rewrite (list_lookup_total_correct _ _ _ Eline), Ebit in HC.
    rewrite (proj2 (Z.leb_le 0 x)), (proj2 (Z.ltb_lt x 16)), (proj2 (Z.leb_le 0 y)), (proj2 (Z.ltb_lt y 16)) in HC by lia.
    done. }
  eapply painter_weaken; [|intros fr; destruct (Hloop fr) as (fr' & E & Hpp); exists fr'; split; [|exact Hpp]].
  - intros X Y _ _ HC. split_and!; [done|by vm_compute|done].
  - unfold draw_cursor. replace (clamp_pos _ p) with (Done q) by (rewrite <- Hp; done). rewrite bind_ret. exact E.
Qed.
End paint.

(** ** The screen shows the grid *)

(** The colour the grid asks for at a pixel. *)
Definition grid_pixel (w : Writer) (X Y : Z) : Z :=
  cell_pixel (screen w) (cell_at (tty w) (X / 8) (Y / 16)) (X mod 8) (Y mod 16).

(** Outside the dirty box every pixel that the pointer does not hide is right. *)
Definition displayed (w : Writer) : Prop :=
  ∀ X Y, 0 ≤ X < 8 * dims_x (tty w) → 0 ≤ Y < 16 * dims_y (tty w) →
    ¬ in_box (dirty_box (tty w)) (X / 8) (Y / 16) → under_pointer (screen w) (mouse_pos w) X Y = false →
    frame (gop (screen w)) (pix (gop (screen w)) X Y) = grid_pixel w X Y.

Definition mouse_ok (g : GopInfo) (p : Pos) : Prop :=
  0 ≤ px p ≤ horizonal g - 8 ∧ 0 ≤ py p ≤ vertical g - 16.

Record writer_ok (w : Writer) : Prop := {
  wo_gop : gop_ok (gop (screen w));
  wo_glyphs : glyphs_ok (screen w);
  wo_dims : dims_x (tty w) = horizonal (gop (screen w)) / 8 ∧ dims_y (tty w) = vertical (gop (screen w)) / 16;
  wo_wide : dims_y (tty w) ≤ dims_x (tty w);
  wo_tty : tty_ok (tty w);
  wo_mouse : mouse_ok (gop (screen w)) (mouse_pos w);
  wo_shown : displayed w;
}.

(** Changing the grid. *)
Lemma writer_ok_tty w t : writer_ok w → tty_ok t → marked (tty w) t → writer_ok (upd_tty w t).
Proof.
  intros [] Ht (Ex & Ey & Hm). split; cbn; try done; [by rewrite Ex, Ey..|].
  intros X Y. cbn. rewrite Ex, Ey. intros HX HY Hb Hp. destruct (Hm (X / 8) (Y / 16)) as [Hb' Ec]; [| |done|].
  - split; [apply Z.div_pos; lia|apply Z.div_lt_upper_bound; lia].
  - split; [apply Z.div_pos; lia|apply Z.div_lt_upper_bound; lia].
  - unfold grid_pixel. cbn. rewrite Ec. by apply wo_shown0.
Qed.

(** The elements of the loops over the grid. *)
Lemma elem_of_enumerate {A} (l : list A) i a : (i, a) ∈ enumerate l ↔ 0 ≤ i ∧ l !! Z.to_nat i = Some a.
Proof.
  unfold enumerate. rewrite list_elem_of_lookup. split.
  - intros (n & Hn). rewrite list_lookup_imap in Hn. destruct (l !! n) eqn:E; [|done].
    injection Hn as <- <-. rewrite Nat2Z.id. split; [lia|done].
  - intros (Hi & E). exists (Z.to_nat i). rewrite list_lookup_imap, E. cbn. by rewrite Z2Nat.id.
Qed.

Lemma enumerate_drop_take {A} (l : list A) i a m n :
  0 ≤ i → l !! Z.to_nat i = Some a → m ≤ i < n → (i, a) ∈ drop (Z.to_nat m) (take (Z.to_nat n) (enumerate l)).
Proof.
  intros Hi E Hr. apply list_elem_of_lookup. exists (Z.to_nat i - Z.to_nat m)%nat.
  rewrite lookup_drop. replace (Z.to_nat m + _)%nat with (Z.to_nat i) by lia.
  rewrite lookup_take_lt by lia. unfold enumerate. rewrite list_lookup_imap, E. cbn. by rewrite Z2Nat.id.
Qed.

Lemma enumerate_take_drop {A} (l : list A) i a m k :
  l !! Z.to_nat i = Some a → 0 ≤ m ≤ i → i < m + Z.of_nat k → (i, a) ∈ take k (drop (Z.to_nat m) (enumerate l)).
Proof.
  intros E Hr Hk. apply list_elem_of_lookup. exists (Z.to_nat i - Z.to_nat m)%nat.
  rewrite lookup_take_lt, lookup_drop by lia. replace (Z.to_nat m + _)%nat with (Z.to_nat i) by lia.
  unfold enumerate. rewrite list_lookup_imap, E. cbn. rewrite Z2Nat.id by lia. done.
Qed.

Lemma elem_of_sublist_drop_take {A} (l : list A) a m n : a ∈ drop m (take n l) → a ∈ l.
Proof. intros H. apply (elem_of_submseteq (drop m (take n l))); [done|]. apply sublist_submseteq.
  etrans; [apply sublist_drop|apply sublist_take]. Qed.

Lemma elem_of_sublist_take_drop {A} (l : list A) a m n : a ∈ take n (drop m l) → a ∈ l.
Proof. intros H. apply (elem_of_submseteq (take n (drop m l))); [done|]. apply sublist_submseteq.
  etrans; [apply sublist_take|apply sublist_drop]. Qed.

(** Which pixels lie in the given cells. *)
Definition in_cells (y : Z) (l : list (Z * Cell)) (X Y : Z) : bool :=
  existsb (λ '(x, _), (X / 8 =? x) && (Y / 16 =? y)) l.

Section draw.
Context (w : Writer) (Hok : writer_ok w) (C : Z → Z → bool).

Lemma draw_line_paints y ln l :
  buffer (tty w) !! Z.to_nat y = Some ln → 0 ≤ y → (∀ i, i ∈ l → i ∈ enumerate (cells ln)) →
  painter (screen w) C (in_cells y l) (grid_pixel w) (draw_line y l).
Proof using Hok.
  intros El Hy Hin. destruct Hok as [Hg Hf [Edx Edy] _ (Hlen & Hls & _) _ _].
  eapply painter_weaken; [|apply (painter_for _ C (λ '(x, _) X Y, (X / 8 =? x) && (Y / 16 =? y)) (grid_pixel w))].
  - intros X Y _ _ HC. split_and!; [done| |done]. unfold in_cells. induction l as [|[x c] l IH]; [done|]. cbn. f_equal.
    apply IH. intros i Hi. apply Hin. by right.
  - intros [x c] Hx. apply Hin, elem_of_enumerate in Hx as [Hx Ec].
    pose proof (lookup_lt_Some _ _ _ El). pose proof (lookup_lt_Some _ _ _ Ec).
    assert (Z.of_nat (length (cells ln)) = dims_x (tty w)) by by apply (Forall_lookup_1 _ _ _ _ Hls El).
    eapply painter_weaken; [|apply (update_cell_paints _ Hg Hf C c x y); lia].
    intros X Y _ _ HC. split_and!; [done..|]. intros [EX%Z.eqb_eq EY%Z.eqb_eq]%andb_true_iff.
    unfold grid_pixel, cell_at. rewrite EX, EY, (list_lookup_total_correct _ _ _ El), (list_lookup_total_correct _ _ _ Ec).
    done.
Qed.
End draw.

(** The pointer's shape is eight columns wide and ten rows high. *)
Lemma under_pointer_extent s p X Y :
  under_pointer s p X Y = true →
  px (pointer_pos s p) ≤ X < px (pointer_pos s p) + 8 ∧ py (pointer_pos s p) ≤ Y < py (pointer_pos s p) + 10.
Proof.
  unfold under_pointer. intros [[[?%Z.leb_le ?%Z.ltb_lt]%andb_true_iff [?%Z.leb_le ?%Z.ltb_lt]%andb_true_iff]%andb_true_iff Hb]%andb_true_iff.
  set (x := X - px _) in *. set (y := Y - py _) in *.
  assert (Hall : forallb (λ y, forallb (λ x, implb (0 <? Z.land (MOUSE_POINTER !!! Z.to_nat y) (Z.shiftr 0x2000 x))
                    ((x <? 8) && (y <? 10))) (seqZ 0 16)) (seqZ 0 16) = true) by (vm_compute; reflexivity).
  rewrite forallb_forall in Hall. specialize (Hall y). rewrite forallb_forall in Hall.
  assert (Hin : ∀ i, 0 ≤ i < 16 → List.In i (seqZ 0 16)) by (intros; apply list_elem_of_In, elem_of_seqZ; lia).
  specialize (Hall (Hin y ltac:(lia)) x (Hin x ltac:(lia))). rewrite Hb in Hall. cbn in Hall.
  apply andb_true_iff in Hall as [?%Z.ltb_lt ?%Z.ltb_lt]. lia.
Qed.

(** The cells the cursor task redraws are those the pointer may have hidden. *)
Lemma pointer_in_box s p X Y :
  gop_ok (gop s) → mouse_ok (gop s) p → under_pointer s p X Y = true →
  Z.max 0 (px p / 8 - 1) ≤ X / 8 < Z.max 0 (px p / 8 - 1) + 3 ∧
  Z.max 0 (py p / 16 - 1) ≤ Y / 16 < Z.max 0 (py p / 16 - 1) + 3.
Proof.
  intros (? & ? & _) [? ?] [HX HY]%under_pointer_extent. cbn in HX, HY.
  pose proof (Z.div_mod X 8). pose proof (Z.mod_pos_bound X 8). pose proof (Z.div_mod Y 16). pose proof (Z.mod_pos_bound Y 16).
  pose proof (Z.div_mod (px p) 8). pose proof (Z.mod_pos_bound (px p) 8).
  pose proof (Z.div_mod (py p) 16). pose proof (Z.mod_pos_bound (py p) 16). lia.
Qed.

(** What painting cells of the grid leaves of [displayed]: a pixel is right when it
    has been painted or was right before. *)
Lemma painted_right w (S : Z → Z → bool) (C : Z → Z → bool) fr X Y :
  writer_ok w → paints (screen w) C S (grid_pixel w) (frame (gop (screen w))) fr →
  0 ≤ X < 8 * dims_x (tty w) → 0 ≤ Y < 16 * dims_y (tty w) → C X Y = false →
  S X Y = true ∨ (¬ in_box (dirty_box (tty w)) (X / 8) (Y / 16) ∧ under_pointer (screen w) (mouse_pos w) X Y = false) →
  fr (pix (gop (screen w)) X Y) = grid_pixel w X Y.
Proof.
  intros [Hg _ [Ex Ey] _ _ _ Hs] Hp HX HY HC Hor. destruct Hg as (? & ? & ? & ?).
  rewrite Hp; [|pose proof (Z.mul_div_le (horizonal (gop (screen w))) 8); lia
               |pose proof (Z.mul_div_le (vertical (gop (screen w))) 16); lia|done].
  destruct Hor as [-> | [Hb Hc]]; [done|]. destruct (S X Y); [done|]. by apply Hs.
Qed.

Lemma cell_exists w X Y :
  writer_ok w → 0 ≤ X < 8 * dims_x (tty w) → 0 ≤ Y < 16 * dims_y (tty w) →
  0 ≤ X / 8 ∧ 0 ≤ Y / 16 ∧
  ∃ l c, buffer (tty w) !! Z.to_nat (Y / 16) = Some l ∧ cells l !! Z.to_nat (X / 8) = Some c.
Proof.
  intros [_ _ _ _ Ht _ _] HX HY.
  assert (0 ≤ X / 8 < dims_x (tty w)) by (split; [apply Z.div_pos; lia|apply Z.div_lt_upper_bound; lia]).
  assert (0 ≤ Y / 16 < dims_y (tty w)) by (split; [apply Z.div_pos; lia|apply Z.div_lt_upper_bound; lia]).
  destruct (line_length (tty w) (Y / 16) Ht) as (l & El & Hl); [done|].
  destruct (lookup_lt_is_Some_2 (cells l) (Z.to_nat (X / 8))) as [c Ec]; [lia|]. split_and!; [lia..|eauto].
Qed.

Lemma in_cells_true (ls : list (Z * Line)) (f : list Cell → list (Z * Cell)) X Y l c :
  (Y / 16, l) ∈ ls → (X / 8, c) ∈ f (cells l) → existsb (λ '(y, l), in_cells y (f (cells l)) X Y) ls = true.
Proof.
  intros Hl Hc. apply existsb_exists. exists (Y / 16, l). split; [by apply list_elem_of_In|].
  apply existsb_exists. exists (X / 8, c). split; [by apply list_elem_of_In|]. by rewrite !Z.eqb_refl.
Qed.

Lemma update_cursor_ok w pos colour :
  writer_ok w → mouse_ok (gop (screen w)) pos →
  ∃ w', update_cursor w pos colour = Done w' ∧ writer_ok w' ∧ tty w' = tty w ∧ mouse_pos w' = pos ∧
    ∃ fr, screen w' = with_frame (screen w) fr.
Proof.
  intros Hok Hpos. pose proof Hok as [Hg Hf Hd Hw Ht Hm Hs].
  set (mx := Z.max 0 (px (mouse_pos w) / 8 - 1)). set (my := Z.max 0 (py (mouse_pos w) / 16 - 1)).
  set (cols := λ cs : list Cell, take 3 (drop (Z.to_nat mx) (enumerate cs))).
  set (rows := take 3 (drop (Z.to_nat my) (enumerate (buffer (tty w))))).
  assert (Hloop : painter (screen w) (λ _ _, false) (λ X Y, existsb (λ '(y, l), in_cells y (cols (cells l)) X Y) rows)
    (grid_pixel w) (for_in (λ s '(y, l), draw_line y (cols (cells l)) s) rows)).
  { eapply painter_weaken; [|apply (painter_for _ (λ _ _, false) (λ '(y, l), in_cells y (cols (cells l))) (grid_pixel w))].
    - intros X Y _ _ _. split_and!; [done| |done]. clearbody rows. induction rows as [|[y l] ls IH]; [done|]. cbn. by rewrite IH.
    - intros [y l] Hin. apply elem_of_sublist_take_drop, elem_of_enumerate in Hin as [Hy El].
      apply (draw_line_paints w Hok _ y l); [done..|]. intros i Hi. by apply elem_of_sublist_take_drop in Hi. }
  destruct (Hloop (frame (gop (screen w)))) as (fr & E & Hp).
  destruct (draw_cursor_paints (screen w) Hg pos colour) with (fr := fr) as (fr' & E' & Hp'); [apply Hpos..|].
  rewrite with_frame_frame in E. exists (mkWriter (with_frame (screen w) fr') (tty w) pos colour).
  split.
  { change (update_cursor w pos colour) with
      (s ← for_in (λ s '(y, l), draw_line y (cols (cells l)) s) rows (screen w);
       s ← draw_cursor s pos colour MOUSE_POINTER; Done (mkWriter s (tty w) pos colour)).
    by rewrite E, bind_ret, E'. }
  split; [|split_and!; [done..|by exists fr']].
  split; try done. intros X Y HX HY Hb Hc. cbn [tty] in HX, HY. change (fr' (pix (gop (screen w)) X Y) = grid_pixel w X Y).
  destruct (cell_exists w X Y Hok HX HY) as (? & ? & l & c & El & Ec).
  rewrite Hp'; [|destruct Hg as (? & ? & _), Hd as [Ex Ey]; pose proof (Z.mul_div_le (horizonal (gop (screen w))) 8);
                  pose proof (Z.mul_div_le (vertical (gop (screen w))) 16); lia..|exact Hc].
  eapply painted_right; [done|exact Hp|done..|].
  destruct (under_pointer (screen w) (mouse_pos w) X Y) eqn:Eu; [left|by right].
  apply pointer_in_box in Eu as [Hx Hy]; [|done..].
  eapply in_cells_true; [apply enumerate_take_drop; [done|unfold my; lia..]|apply enumerate_take_drop; [done|unfold mx; lia..]].
Qed.

Lemma redraw_ok w :
  writer_ok w →
  ∃ w', redraw_if_needed w = Done w' ∧ writer_ok w' ∧ tty w' = upd_dirty (tty w) None ∧ mouse_pos w' = mouse_pos w ∧
    ∃ fr, screen w' = with_frame (screen w) fr.
Proof.
  intros Hok. pose proof Hok as [Hg Hf Hd Hw Ht Hm Hs]. unfold redraw_if_needed.
  destruct (dirty_box (tty w)) as [b|] eqn:Eb.
  2:{ exists w. assert (Et : upd_dirty (tty w) None = tty w) by (rewrite <- Eb; by destruct (tty w)).
      split_and!; [done..|]. exists (frame (gop (screen w))). by rewrite with_frame_frame. }
  set (C := under_pointer (screen w) (mouse_pos w)).
  set (cols := λ cs : list Cell, drop (Z.to_nat (min_x b)) (take (Z.to_nat (max_x b)) (enumerate cs))).
  set (rows := drop (Z.to_nat (min_y b)) (take (Z.to_nat (max_y b)) (enumerate (buffer (tty w))))).
  set (cc := py (mouse_pos w) / 16 + 1).
  assert (Hcc : add_u64 (py (mouse_pos w) / CHAR_HEIGHT) 1 = Done cc).
  { destruct Hm as [_ ?], Hg as (_ & ? & _ & ?). apply chk_ok. pose proof (Z.div_pos (py (mouse_pos w)) 16).
    pose proof (Z.div_lt_upper_bound (py (mouse_pos w)) 16 (2 ^ 28)). unfold CHAR_HEIGHT, u64_lim. lia. }
  assert (Hcur : ∀ want, painter (screen w) C (λ _ _, false) want
    (λ s, draw_cursor s (mouse_pos w) (mouse_colour w) MOUSE_POINTER)).
  { intros want. eapply painter_weaken; [|apply draw_cursor_paints; [done|apply Hm..]]. by intros. }
  set (body := λ s '(y, l), s ← draw_line y (cols (cells l)) s;
      if y =? cc then draw_cursor s (mouse_pos w) (mouse_colour w) MOUSE_POINTER else Done s).
  assert (Hloop : painter (screen w) C (λ X Y, existsb (λ '(y, l), in_cells y (cols (cells l)) X Y) rows)
    (grid_pixel w) (for_in body rows)).
  { eapply painter_weaken; [|apply (painter_for _ C (λ '(y, l), in_cells y (cols (cells l))) (grid_pixel w))].
    - intros X Y _ _ HC. split_and!; [done| |done]. clearbody rows. induction rows as [|[y l] ls IH]; [done|]. cbn. by rewrite IH.
    - intros [y l] Hin. apply elem_of_sublist_drop_take, elem_of_enumerate in Hin as [Hy El].
      apply (painter_bind _ C (in_cells y (cols (cells l))) (λ _ _, false) (grid_pixel w) (draw_line y (cols (cells l)))
               (λ s, if y =? cc then draw_cursor s (mouse_pos w) (mouse_colour w) MOUSE_POINTER else Done s)).
      + apply (draw_line_paints w Hok _ y l); [done..|]. intros i Hi. by apply elem_of_sublist_drop_take in Hi.
      + destruct (y =? cc); [apply Hcur|apply painter_ret]. }
  destruct (Hloop (frame (gop (screen w)))) as (fr & E & Hp).
  destruct (Hcur (grid_pixel w) fr) as (fr' & E' & Hp'). rewrite with_frame_frame in E.
  exists (mkWriter (with_frame (screen w) fr') (upd_dirty (tty w) None) (mouse_pos w) (mouse_colour w)).
  split.
  { cbv zeta. cbn [mouse_pos upd_tty]. rewrite Hcc, bind_ret.
    change (for_in _ _ (screen (upd_tty w (upd_dirty (tty w) None)))) with (for_in body rows (screen w)).
    rewrite E, bind_ret. cbn [mouse_pos mouse_colour upd_tty]. by rewrite E'. }
  split; [|split_and!; [done..|by exists fr']].
  split; try done. intros X Y HX HY _ Hc. change (fr' (pix (gop (screen w)) X Y) = grid_pixel w X Y).
  cbn [tty dims_x dims_y upd_dirty] in HX, HY.
  destruct (cell_exists w X Y Hok HX HY) as (? & ? & l & c & El & Ec).
  rewrite Hp'; [|destruct Hg as (? & ? & _), Hd as [Ex Ey]; pose proof (Z.mul_div_le (horizonal (gop (screen w))) 8);
                  pose proof (Z.mul_div_le (vertical (gop (screen w))) 16); lia..|exact Hc].
  eapply painted_right; [done|exact Hp|done..|].
  destruct (decide (min_x b ≤ X / 8 < max_x b ∧ min_y b ≤ Y / 16 < max_y b)) as [[Hx Hy]|Hn].
  - left. eapply in_cells_true; apply enumerate_drop_take; done.
  - right. split; [|done]. by rewrite Eb.
Qed.

(** *** Every interleaving of the tasks *)
Inductive display_op :=
  | DWrite (s : list Z)
  | DClear
  | DReset (color : Z)
  | DColour (colour : Z)
  | DLog (level : Level) (target args : list Z)
  | DMouse (m : MousePacket)
  | DRedraw.

(** One section under the lock of the writer; the position is the cursor task's. *)
Definition display_step (st : Pos * Writer) (op : display_op) : outcome (Pos * Writer) :=
  let '(pos, w) := st in
  match op with
  | DWrite s => w ← write_str w s; Done (pos, w)
  | DClear => Done (pos, clear w)
  | DReset c => Done (pos, reset_screen w c)
  | DColour c => Done (pos, upd_tty w (snd (set_fg_colour (tty w) c)))
  | DLog l t a => w ← log_screen w l t a; Done (pos, w)
  | DMouse m => print_cursor pos m w
  | DRedraw => w ← redraw_if_needed w; Done (pos, w)
  end.

Lemma write_str_ok w s : writer_ok w → ∃ w', write_str w s = Done w' ∧ writer_ok w'.
Proof.
  intros Hok. destruct (write_chars_ok s (tty w) (wo_tty w Hok) (wo_wide w Hok)) as (t & E & Ht & Hm).
  exists (upd_tty w t). unfold write_str. rewrite E. split; [done|by apply writer_ok_tty].
Qed.

Lemma set_fg_ok w c : writer_ok w → writer_ok (upd_tty w (snd (set_fg_colour (tty w) c))).
Proof. intros Hok. apply writer_ok_tty; [done|exact (wo_tty w Hok)|by split_and!]. Qed.

Lemma reset_screen_ok w c : writer_ok w → writer_ok (reset_screen w c).
Proof.
  intros Hok. destruct (tty_clear_ok (upd_bg (tty w) c)) as [Ht (Ex & Ey & Hm)]; [exact (wo_tty w Hok)|].
  change (reset_screen w c) with (upd_tty w (upd_pos (tty_clear (upd_bg (tty w) c)) 0 0)).
  apply writer_ok_tty; [done| |].
  - destruct Ht as (? & ? & ? & ? & ? & ?). split_and!; cbn in *; done || lia.
  - split_and!; [done..|exact Hm].
Qed.

Lemma display_step_ok pos w op :
  writer_ok w → ∃ pos' w', display_step (pos, w) op = Done (pos', w') ∧ writer_ok w'.
Proof.
  intros Hok. destruct op as [s| |c|c|lv tg ar|m|]; cbn [display_step].
  - destruct (write_str_ok w s Hok) as (w' & -> & ?). by exists pos, w'.
  - exists pos. eexists. split; [done|]. destruct (tty_clear_ok (tty w)); [apply Hok|]. by apply writer_ok_tty.
  - exists pos. eexists. split; [done|]. by apply reset_screen_ok.
  - exists pos. eexists. split; [done|]. by apply set_fg_ok.
  - unfold log_screen. cbn [set_fg_colour].
    destruct (write_str_ok (upd_tty w (snd (set_fg_colour (tty w) (get_color_for_level lv)))) (level_text lv ++ [32]))
      as (w1 & E1 & H1); [by apply set_fg_ok|]. cbn [snd set_fg_colour] in E1. rewrite E1, bind_ret.
    destruct (write_str_ok (upd_tty w1 (snd (set_fg_colour (tty w1) 0xFFFFFF))) (tg ++ [32; 62; 32] ++ ar ++ [LF]))
      as (w2 & E2 & H2); [by apply set_fg_ok|]. rewrite E2. eexists pos, _. split; [done|]. by apply set_fg_ok.
  - unfold print_cursor. destruct (wo_gop w Hok) as (? & ? & ? & ?). arith_keep. rewrite ?bind_ret.
    edestruct (update_cursor_ok w) as (w' & E & Hw & _); [done| |rewrite E, bind_ret; eauto].
    unfold mouse_ok, saturating_add_signed, u64_lim. cbn. bool_cases; lia.
  - destruct (redraw_ok w Hok) as (w' & -> & ? & _). by exists pos, w'.
Qed.

Lemma display_steps_ok ops : ∀ pos w,
  writer_ok w → ∃ pos' w', for_in display_step ops (pos, w) = Done (pos', w') ∧ writer_ok w'.
Proof.
  induction ops as [|op ops IH]; intros pos w Hok; cbn [for_in]; [by exists pos, w|].
  destruct (display_step_ok pos w op Hok) as (pos' & w' & -> & Hok'). by apply IH.
Qed.

Lemma Writer_new_ok g f w :
  gop_ok g → Writer_new g f = Done w → glyphs_ok (screen w) → vertical g / 16 ≤ horizonal g / 8 → writer_ok w.
Proof.
  unfold Writer_new. intros Hg E Hf Hd. inv_outcome. destruct Hg as (? & ? & ? & ?).
  assert (2 ≤ horizonal g / 8) by (apply Z.div_le_lower_bound; lia).
  assert (1 ≤ vertical g / 16) by (apply Z.div_le_lower_bound; lia).
  assert (horizonal g / 8 < 2 ^ 28) by (apply Z.div_lt_upper_bound; lia).
  assert (vertical g / 16 < 2 ^ 28) by (apply Z.div_lt_upper_bound; lia).
  split; cbn [screen gop tty mouse_pos TTY_new dims_x dims_y]; unfold CHAR_WIDTH, CHAR_HEIGHT; try done.
  - apply TTY_new_ok; unfold u32_lim; lia.
  - unfold mouse_ok. cbn. lia.
  - intros X Y HX HY Hb. destruct Hb. cbn [tty dims_x dims_y TTY_new dirty_box in_box from_max min_x max_x min_y max_y] in *.
    unfold CHAR_WIDTH, CHAR_HEIGHT in *.
    split; (split; [apply Z.div_pos; lia|apply Z.div_lt_upper_bound; lia]).
Qed.

(** C16: whatever the kernel writes, clears and logs, and however the mouse moves in
    between, no operation panics, and after the next redraw every pixel of the grid
    that the pointer does not hide shows its cell: the dirty box misses no change and
    the cursor task repairs all it has painted over.  The screen has no fewer columns
    than rows; on others [backspace_wraps_to_row_count]. *)
Theorem screen_shows_grid g f w ops :
  gop_ok g → vertical g / 16 ≤ horizonal g / 8 → Writer_new g f = Done w → glyphs_ok (screen w) →
  ∃ pos w1 w2, for_in display_step ops (mkPos 0 0, w) = Done (pos, w1) ∧ redraw_if_needed w1 = Done w2 ∧
    tty w2 = upd_dirty (tty w1) None ∧
    ∀ X Y, 0 ≤ X < 8 * dims_x (tty w2) → 0 ≤ Y < 16 * dims_y (tty w2) →
      under_pointer (screen w2) (mouse_pos w2) X Y = false →
      frame (gop (screen w2)) (pix (gop (screen w2)) X Y) = grid_pixel w2 X Y.
Proof.
  intros Hg Hd E Hf. assert (Hok : writer_ok w) by by eapply Writer_new_ok.
  destruct (display_steps_ok ops (mkPos 0 0) w Hok) as (pos & w1 & E1 & Hok1).
  destruct (redraw_ok w1 Hok1) as (w2 & E2 & Hok2 & Et & _). exists pos, w1, w2. split_and!; [done..|].
  intros X Y HX HY Hp. apply (wo_shown w2 Hok2); [done..| |done]. rewrite Et. by intros [].
Qed.

(** *** Two glyphs on a screen of eight by three cells *)
Definition demo_gop : GopInfo := mkGop (λ _, 0x123456) 64 48 64.
Definition demo_font : PSF1Font :=
  mkFont (mkFontHeader PSF1_MAGIC 0 16) (replicate 16 0 ++ replicate 16 0xF0) [32; 0; 0xFF; 0xFF; 65; 0; 0xFF; 0xFF].
Definition demo_writer : Writer :=
  mkWriter (mkScreen demo_gop demo_font (<[65 := 1]> {[32 := 0]})) (TTY_new 8 3) (mkPos 0 0) 0xFFFFFF.

Lemma demo_glyphs : glyphs_ok (screen demo_writer).
Proof.
  split; [done|]. intros c i H. cbn [screen demo_writer unicode_table] in H.
  apply lookup_insert_Some in H as [[<- <-]|[_ H]]; [done|]. apply lookup_singleton_Some in H as [<- <-]. done.
Qed.

Definition demo_ops : list display_op := [DWrite [65; 65; LF; 65]; DRedraw; DMouse (mkPacket true false false 20 20); DWrite [BS]].

Lemma demo_ops_end pos w1 w2 :
  for_in display_step demo_ops (mkPos 0 0, demo_writer) = Done (pos, w1) → redraw_if_needed w1 = Done w2 →
  dims_x (tty w2) = 8 ∧ dims_y (tty w2) = 3 ∧ stride (gop (screen w2)) = 64 ∧
  grid_pixel w2 8 0 = 0xFFFFFF ∧ grid_pixel w2 0 16 = 0 ∧
  under_pointer (screen w2) (mouse_pos w2) 8 0 = false ∧ under_pointer (screen w2) (mouse_pos w2) 0 16 = false.
Proof.
  intros E1 E2.
  assert (H : match for_in display_step demo_ops (mkPos 0 0, demo_writer) with
              | Done (_, w1) => match redraw_if_needed w1 with
                | Done w2 => Some (dims_x (tty w2), dims_y (tty w2), stride (gop (screen w2)), (grid_pixel w2 8 0, grid_pixel w2 0 16),
                    (under_pointer (screen w2) (mouse_pos w2) 8 0, under_pointer (screen w2) (mouse_pos w2) 0 16))
                | _ => None end
              | _ => None end = Some (8, 3, 64, (0xFFFFFF, 0), (false, false))) by (vm_compute; reflexivity).
  rewrite E1, E2 in H. clear E1 E2. injection H as -> -> -> -> -> -> ->. split_and!; reflexivity.
Qed.

Lemma screen_shows_grid_witness :
  ∃ pos w1 w2, for_in display_step demo_ops (mkPos 0 0, demo_writer) = Done (pos, w1) ∧ redraw_if_needed w1 = Done w2 ∧
    frame (gop (screen w2)) (pix (gop (screen w2)) 8 0) = 0xFFFFFF ∧
    frame (gop (screen w2)) (pix (gop (screen w2)) 0 16) = 0.
Proof.
  destruct (screen_shows_grid demo_gop demo_font demo_writer demo_ops) as (pos & w1 & w2 & E1 & E2 & _ & H).
  - unfold gop_ok. cbn. lia.
  - by vm_compute.
  - reflexivity.
  - exact demo_glyphs.
  - exists pos, w1, w2. destruct (demo_ops_end pos w1 w2 E1 E2) as (Ex & Ey & _ & G1 & G2 & U1 & U2).
    split; [exact E1|]. split; [exact E2|]. clear E1 E2.
    split; rewrite H, ?G1, ?G2; rewrite ?Ex, ?Ey; assumption || reflexivity || lia.
Defined.

(** ** Typing and erasing *)
Definition printable (c : Z) : Prop := c ≠ LF ∧ c ≠ BS.

(** The grid after the cells [x0 ≤ x < x0 + n] of the line of the cursor became
    [f x], with the cursor at column [x1]. *)
Definition line_edited (t t' : TTY) (x0 n : Z) (f : Z → Cell → Cell) (x1 : Z) : Prop :=
  tty_ok t' ∧ dims_x t' = dims_x t ∧ dims_y t' = dims_y t ∧ pos_x t' = x1 ∧ pos_y t' = pos_y t ∧
  fg_color t' = fg_color t ∧ bg_color t' = bg_color t ∧
  ∀ x y, 0 ≤ x < dims_x t → 0 ≤ y < dims_y t →
    cell_at t' x y = if decide (y = pos_y t ∧ x0 ≤ x < x0 + n) then f x (cell_at t x y) else cell_at t x y.

Lemma on_cell_edit t f x :
  tty_ok t → 0 ≤ x < dims_x t →
  ∃ t1 d, on_cell t x (pos_y t) f = Done t1 ∧ set_cell_dirty t1 x (pos_y t) = Done (upd_dirty t1 (Some d)) ∧
    line_edited t (upd_dirty t1 (Some d)) x 1 (λ _, f) (pos_x t).
Proof.
  intros Hok Hx. pose proof Hok as (Hlen & Hls & Hpx & Hpy & Hdx & Hdy).
  destruct (line_length t (pos_y t) Hok Hpy) as (l & El & Hl). unfold on_cell. rewrite (proj2 (index_Done _ _ _) El), bind_ret.
  destruct (lookup_lt_is_Some_2 (cells l) (Z.to_nat x)) as [c Ec]; [lia|]. rewrite (proj2 (index_Done _ _ _) Ec), bind_ret.
  eexists. destruct (set_cell_dirty_ok (upd_buffer t (<[Z.to_nat (pos_y t) := mkLine (<[Z.to_nat x := f c]> (cells l))]> (buffer t))) x (pos_y t))
    as (d & Ed & _); [lia..|]. exists d. split; [done|]. split; [exact Ed|].
  unfold line_edited. split; [split_and!; cbn; try lia|].
  - by rewrite length_insert.
  - apply Forall_insert; [done|]. cbn. by rewrite length_insert.
  - split_and!; [done..|]. intros x' y' Hx' Hy'. unfold cell_at. cbn.
    destruct (decide (y' = pos_y t)) as [->|Hne].
    + rewrite list_lookup_total_insert_eq by lia. cbn. rewrite (list_lookup_total_correct _ _ _ El).
      destruct (decide (x' = x)) as [->|Hnx].
      * rewrite decide_True by lia. rewrite list_lookup_total_insert_eq by lia. by rewrite (list_lookup_total_correct _ _ _ Ec).
      * rewrite decide_False by lia. by rewrite list_lookup_total_insert_ne by lia.
    + rewrite decide_False by lia. by rewrite list_lookup_total_insert_ne by lia.
Qed.

Lemma write_printable t c :
  tty_ok t → printable c → pos_x t + 1 < dims_x t →
  ∃ t', write_char t c = Done t' ∧
    line_edited t t' (pos_x t) 1 (λ _ _, mkCell c (fg_color t) (bg_color t)) (pos_x t + 1).
Proof.
  intros Hok [Hl Hb] Hx. pose proof Hok as (_ & _ & Hpx & Hpy & Hdx & Hdy). unfold write_char.
  rewrite (proj2 (Z.eqb_neq c LF)), (proj2 (Z.eqb_neq c BS)) by done.
  destruct (on_cell_edit t (λ _, mkCell c (fg_color t) (bg_color t)) (pos_x t) Hok Hpx) as (t1 & d & E1 & E2 & He).
  rewrite E1, bind_ret. assert (pos_x t1 = pos_x t ∧ pos_y t1 = pos_y t) as [Ex Ey].
  { destruct He as (_ & _ & _ & ? & ? & _). done. }
  rewrite Ex, Ey, E2, bind_ret. destruct He as (Hok1 & Edx & Edy & _ & _ & Ef & Eb & Hc).
  unfold advance_char. cbn [pos_x upd_dirty dims_x] in *. rewrite Ex, Edx. arith_keep.
  rewrite (proj2 (Z.eqb_neq _ _)) by lia. eexists. split; [done|].
  destruct Hok1 as (? & ? & ? & ? & ? & ?). cbn in *. unfold line_edited. split; [split_and!; cbn; done || lia|].
  by split_and!.
Qed.

Lemma backspace_in_line t :
  tty_ok t → 0 < pos_x t → ∃ t', write_char t BS = Done t' ∧ line_edited t t' (pos_x t - 1) 1 (λ _, blank) (pos_x t - 1).
Proof.
  intros Hok Hx. pose proof Hok as (? & ? & Hpx & Hpy & Hdx & Hdy). unfold write_char. cbn [Z.eqb LF BS Pos.eqb].
  rewrite (proj2 (Z.eqb_neq (pos_x t) 0)) by lia. cbn [andb]. arith_keep. rewrite ?bind_ret.
  set (t0 := upd_pos t (pos_x t - 1) (pos_y t)). assert (Hok0 : tty_ok t0) by (split_and!; cbn; done || lia).
  destruct (on_cell_edit t0 blank (pos_x t - 1) Hok0) as (t1 & d & E1 & E2 & He); [cbn; lia|].
  cbn [pos_x pos_y t0 upd_pos] in *. rewrite E1, bind_ret.
  assert (pos_x t1 = pos_x t - 1 ∧ pos_y t1 = pos_y t) as [-> ->] by (destruct He as (_ & _ & _ & ? & ? & _); done).
  eexists. split; [exact E2|]. exact He.
Qed.

Lemma decide_same {A} (y : Z) P `{Decision P} (a b : A) :
  (if decide (y = y ∧ P) then a else b) = if decide P then a else b.
Proof. repeat case_decide; tauto. Qed.

Lemma line_edited_trans t1 t2 t3 x0 n f x1 y0 m g x2 k h F :
  line_edited t1 t2 x0 n f x1 → line_edited t2 t3 y0 m g x2 →
  (∀ x (c : Cell), (if decide (y0 ≤ x < y0 + m) then g x (if decide (x0 ≤ x < x0 + n) then f x c else c)
                    else if decide (x0 ≤ x < x0 + n) then f x c else c) =
                   if decide (k ≤ x < k + h) then F x c else c) →
  line_edited t1 t3 k h F x2.
Proof.
  intros (_ & Ex & Ey & Epx & Epy & Ef & Eb & Hc) (Hok & Ex' & Ey' & Epx' & Epy' & Ef' & Eb' & Hc') Heq.
  unfold line_edited. split; [done|]. split_and!; [congruence..|]. intros x y Hx Hy. rewrite Hc', Hc by congruence. rewrite Epy.
  destruct (decide (y = pos_y t1)) as [->|Hne].
  - specialize (Heq x (cell_at t1 x (pos_y t1))).
    rewrite !decide_same. exact Heq.
  - by rewrite !decide_False by tauto.
Qed.

Lemma write_line s : ∀ t,
  tty_ok t → Forall printable s → pos_x t + Z.of_nat (length s) < dims_x t →
  ∃ t', for_in write_char s t = Done t' ∧
    line_edited t t' (pos_x t) (Z.of_nat (length s))
      (λ x _, mkCell (s !!! Z.to_nat (x - pos_x t)) (fg_color t) (bg_color t)) (pos_x t + Z.of_nat (length s)).
Proof.
  induction s as [|c s IH]; intros t Hok Hs Hlen; cbn [for_in length] in *.
  { exists t. split; [done|]. split; [done|]. split_and!; try done; [lia|]. intros x y _ _. by rewrite decide_False by lia. }
  apply Forall_cons in Hs as [Hc Hs]. destruct (write_printable t c Hok Hc) as (t1 & -> & H1); [lia|]. rewrite bind_ret.
  pose proof H1 as (Hok1 & Edx & Edy & Epx & Epy & Ef & Eb & _).
  destruct (IH t1 Hok1 Hs) as (t2 & E2 & H2); [lia|]. exists t2. split; [done|].
  replace (pos_x t + Z.of_nat (S (length s))) with (pos_x t1 + Z.of_nat (length s)) by lia.
  eapply line_edited_trans; [exact H1|exact H2|]. intros x c0. cbn beta. rewrite Epx, Ef, Eb.
  destruct (decide (x = pos_x t)) as [->|Hne].
  - rewrite decide_False, !decide_True by lia. f_equal. by replace (Z.to_nat _) with 0%nat by lia.
  - destruct (decide (pos_x t + 1 ≤ x < pos_x t + 1 + Z.of_nat (length s))).
    + rewrite decide_True by lia. f_equal. by replace (Z.to_nat (x - pos_x t)) with (S (Z.to_nat (x - (pos_x t + 1)))) by lia.
    + by rewrite !decide_False by lia.
Qed.

Lemma erase_line n : ∀ t,
  tty_ok t → Z.of_nat n ≤ pos_x t →
  ∃ t', for_in write_char (replicate n BS) t = Done t' ∧
    line_edited t t' (pos_x t - Z.of_nat n) (Z.of_nat n) (λ _, blank) (pos_x t - Z.of_nat n).
Proof.
  induction n as [|n IH]; intros t Hok Hn; cbn [replicate for_in] in *.
  { exists t. split; [done|]. split; [done|]. split_and!; try done; [lia|]. intros x y _ _. by rewrite decide_False by lia. }
  destruct (backspace_in_line t Hok) as (t1 & -> & H1); [lia|]. rewrite bind_ret.
  pose proof H1 as (Hok1 & Edx & Edy & Epx & Epy & Ef & Eb & _).
  destruct (IH t1 Hok1) as (t2 & E2 & H2); [lia|]. exists t2. split; [done|].
  replace (pos_x t - Z.of_nat (S n)) with (pos_x t1 - Z.of_nat n) by lia.
  eapply line_edited_trans; [exact H1|exact H2|]. intros x c0. cbn beta. rewrite Epx.
  destruct (decide (x = pos_x t - 1)) as [->|Hne].
  - by rewrite decide_False, !decide_True by lia.
  - destruct (decide (pos_x t - 1 - Z.of_nat n ≤ x < pos_x t - 1 - Z.of_nat n + Z.of_nat n)).
    + by rewrite decide_False, decide_True by lia.
    + by rewrite !decide_False by lia.
Qed.

(** Typing a text within a line and erasing it with as many backspaces leaves
    the cursor where it was and blanks where the text stood, and no other cell has
    changed. *)
Theorem typed_then_erased t s :
  tty_ok t → Forall printable s → pos_x t + Z.of_nat (length s) < dims_x t →
  ∃ t', for_in write_char (s ++ replicate (length s) BS) t = Done t' ∧
    line_edited t t' (pos_x t) (Z.of_nat (length s)) (λ _ _, mkCell 32 (fg_color t) (bg_color t)) (pos_x t).
Proof.
  intros Hok Hs Hlen. destruct (write_line s t Hok Hs Hlen) as (t1 & E1 & H1).
  pose proof H1 as (Hok1 & _ & _ & Epx & _). destruct Hok as (_ & _ & ? & _).
  destruct (erase_line (length s) t1 Hok1) as (t2 & E2 & H2); [lia|]. exists t2. split.
  - rewrite for_in_app, E1. exact E2.
  - rewrite Epx in H2. replace (pos_x t + Z.of_nat (length s) - Z.of_nat (length s)) with (pos_x t) in H2 by lia.
    eapply line_edited_trans; [exact H1|exact H2|]. intros x c. cbn beta. by case_decide.
Qed.

Lemma typed_then_erased_witness :
  ∃ t', for_in write_char ([65; 66] ++ replicate 2 BS) (TTY_new 8 3) = Done t' ∧ pos_x t' = 0 ∧
    cell_at t' 1 0 = mkCell 32 0xFFFFFF 0.
Proof.
  destruct (typed_then_erased (TTY_new 8 3) [65; 66]) as (t' & E & _ & _ & _ & Hp & _ & _ & _ & Hc).
  - apply TTY_new_ok; unfold u32_lim; lia.
  - repeat constructor; done.
  - cbn. lia.
  - exists t'. split; [exact E|]. split; [exact Hp|]. rewrite Hc by (cbn; lia). by rewrite decide_True by (cbn; lia).
Defined.

(** C39: the grid is well typed and stays so: on a screen with no fewer columns than
    rows any text can be written, its size stays, and the cursor stays inside. *)
Theorem tty_well_typed t s :
  tty_ok t → dims_y t ≤ dims_x t →
  ∃ t', for_in write_char s t = Done t' ∧ tty_ok t' ∧ dims_x t' = dims_x t ∧ dims_y t' = dims_y t.
Proof.
  intros Hok Hd. destruct (write_chars_ok s t Hok Hd) as (t' & E & Ht & Ex & Ey & _). by exists t'.
Qed.

Lemma tty_well_typed_witness :
  ∃ t', for_in write_char [65; LF; BS; 66; LF; LF; LF] (TTY_new 3 3) = Done t' ∧ pos_y t' < 3.
Proof.
  destruct (tty_well_typed (TTY_new 3 3) [65; LF; BS; 66; LF; LF; LF]) as (t' & E & (_ & _ & _ & Hy & _) & _ & Ed).
  - apply TTY_new_ok; unfold u32_lim; lia.
  - cbn. lia.
  - exists t'. split; [exact E|]. rewrite Ed in Hy. cbn in Hy. lia.
Defined.

(** A backspace at the start of a line goes to the column numbered after the rows of
    the screen, not to the last column, and panics where there is no such column. *)
Lemma backspace_wraps_to_row_count t :
  tty_ok t → pos_x t = 0 → 0 < pos_y t →
  (dims_y t ≤ dims_x t → ∃ t', write_char t BS = Done t' ∧ pos_x t' = dims_y t - 1 ∧ pos_y t' = pos_y t - 1) ∧
  (dims_x t < dims_y t → write_char t BS = Panic PIndex).
Proof.
  intros Hok Ex Hy. pose proof Hok as (Hlen & Hls & Hpx & Hpy & Hdx & Hdy).
  assert (Hw : write_char t BS = (t ← on_cell (upd_pos t (dims_y t - 1) (pos_y t - 1)) (dims_y t - 1) (pos_y t - 1) blank;
             set_cell_dirty t (pos_x t) (pos_y t))).
  { unfold write_char. cbn [Z.eqb LF BS Pos.eqb]. rewrite Ex, (proj2 (Z.eqb_neq (pos_y t) 0)) by lia. cbn [Z.eqb andb].
    by arith_keep. }
  rewrite Hw. destruct (line_length t (pos_y t - 1) Hok) as (l & El & Hl); [lia|].
  unfold on_cell. cbn [buffer upd_pos]. rewrite (proj2 (index_Done _ _ _) El), bind_ret. split; intros Hd.
  - destruct (lookup_lt_is_Some_2 (cells l) (Z.to_nat (dims_y t - 1))) as [c Ec]; [lia|].
    rewrite (proj2 (index_Done _ _ _) Ec), !bind_ret. cbn [pos_x pos_y upd_pos upd_buffer].
    edestruct set_cell_dirty_ok as (d & -> & _); [unfold u32_lim in *; lia..|]. eexists. split; [done|]. done.
  - unfold index. by rewrite lookup_ge_None_2 by lia.
Qed.
