(* ===== verification/Ahci.v ===== *)
(** * The AHCI disk driver

    [kernel/src/driver/disk/ahci.rs], [ahci/port.rs], [ahci/bitfields.rs],
    [ahci/fis.rs], the traits of [driver/disk.rs] and the layout of
    [kernel_userspace/src/disk/ata.rs].

    The controller is hardware: a class gives its registers and its memory, and a
    second class states what the AHCI specification promises of a port that is
    given a read command.  The command list and the command tables are structures
    in memory that the controller reads when a command is issued: it takes the header of
    the slot and the table at the address the header names ([table_at]).  The setters of [modular_bitfield] panic
    on a value that does not fit its field. *)
From S2P Require Import Prelude Page PhysMem AllocIface PageTable.

(** ** Structures *)
Definition HBA_PORT_DEV_PRESENT : Z := 0x3.
Definition HBA_PORT_IPM_ACTIVE : Z := 0x1.
Definition SATA_SIG_ATAPI : Z := 0xEB140101.
Definition SATA_SIG_ATA : Z := 0x00000101.
Definition SATA_SIG_SEMB : Z := 0xC33C0101.
Definition SATA_SIG_PM : Z := 0x96690101.
Definition HBA_PX_CMD_ST : Z := 0x0001.
Definition HBA_PX_CMD_FRE : Z := 0x0010.
Definition HBA_PX_CMD_FR : Z := 0x4000.
Definition HBA_PX_CMD_CR : Z := 0x8000.

Record HBACommandHeader := mkHeader {
  command_fis_length : Z;
  write_ : bool;
  prdt_length : Z;
  command_table_base_address : Z;
}.

Record HBAPRDTEntry := mkPrd { data_base_address : Z; byte_count : Z }.

(** The fields of [FisRegH2D] the driver sets. *)
Record FisRegH2D := mkFis {
  fis_type : Z;
  command_control : bool;
  command : Z;
  lba0 : Z; lba1 : Z; lba2 : Z;
  device_register : Z;
  lba3 : Z; lba4 : Z; lba5 : Z;
  countl : Z; counth : Z;
  control : Z;
}.

Definition FISTYPE_REGH2D : Z := 0x27.
Definition FIS_SIZE : Z := 20.

Record HBACommandTable := mkTable { command_fis : FisRegH2D; prdt_entry : list HBAPRDTEntry }.

Definition PRDT_LENGTH : nat := 8.
Definition COMMAND_TABLE_SIZE : Z := 64 + 16 + 48 + 16 * Z.of_nat PRDT_LENGTH.

Definition set_byte_count (e : HBAPRDTEntry) (n : Z) : outcome HBAPRDTEntry :=
  n ← chk (2 ^ 22) n; Done (mkPrd (data_base_address e) n).
Definition set_data_base_address (e : HBAPRDTEntry) (a : Z) : HBAPRDTEntry := mkPrd a (byte_count e).

Inductive PortType := PNone | PSATA | PSEMB | PPM | PSATAPI.
#[export] Instance PortType_eq_dec : EqDecision PortType.
Proof. solve_decision. Defined.

(** ** What [IDENTIFY] returns

    The fields of [ATADiskIdentify] with the size of an element and their number, in
    the order of the [repr(C)] struct. *)
Definition ATADiskIdentify : list (string * Z * Z) :=
  [("config", 2, 1); ("cylinders", 2, 1); ("specconf", 2, 1); ("heads", 2, 1); ("_obsolete2", 2, 2);
    ("sectors", 2, 1); ("vendor", 2, 3); ("serial", 1, 20); ("_retired20", 2, 2); ("_obsolete22", 2, 1);
    ("firmware_revision", 1, 8); ("model", 1, 40); ("sectors_per_interrupt", 2, 1); ("tcg", 2, 1);
    ("capabilities1", 2, 1); ("capabilities2", 2, 1); ("_retired_piomode", 2, 1); ("_retired_dmamode", 2, 1);
    ("ata_valid", 2, 1); ("current_cylinders", 2, 1); ("current_heads", 2, 1); ("current_sectors", 2, 1);
    ("current_size_1", 2, 1); ("current_size_2", 2, 1); ("multi", 2, 1); ("lba_size_1", 2, 1);
    ("lba_size_2", 2, 1); ("_obsolete62", 2, 1); ("multiword_dma_modes", 2, 1); ("apio_modes", 2, 1);
    ("mwdmamin", 2, 1); ("mwdmarec", 2, 1); ("pioblind", 2, 1); ("pioiordy", 2, 1); ("support3", 2, 1);
    ("_reserved70", 2, 1); ("rlsovlap", 2, 1); ("rlsservice", 2, 1); ("_reserved73", 2, 1);
    ("_reserved74", 2, 1); ("queue", 2, 1); ("sata_capabilities", 2, 1); ("sata_capabilities2", 2, 1);
    ("sata_support", 2, 1); ("sata_enabled", 2, 1); ("version_major", 2, 1); ("version_minor", 2, 1);
    ("command_1", 2, 1); ("command2", 2, 1); ("extension", 2, 1); ("ultra_dma_modes", 2, 1);
    ("erase_time", 2, 1); ("enhanced_erase_time", 2, 1); ("apm_value", 2, 1); ("master_passwd_revision", 2, 1);
    ("hwres", 2, 1); ("acoustic", 2, 1); ("stream_min_req_size", 2, 1); ("stream_transfer_time", 2, 1);
    ("stream_access_latency", 2, 1); ("stream_granularity", 4, 1); ("lba_size48_1", 2, 1);
    ("lba_size48_2", 2, 1); ("lba_size48_3", 2, 1); ("lba_size48_4", 2, 1); ("_reserved104", 2, 1);
    ("max_dsm_blocks", 2, 1); ("pss", 2, 1); ("isd", 2, 1); ("wwm", 2, 4); ("_reserved112", 2, 5);
    ("lss_1", 2, 1); ("lss_2", 2, 1); ("support2", 2, 1); ("enabled2", 2, 1); ("_reserved121", 2, 6);
    ("removable_status", 2, 1); ("security_status", 2, 1); ("_reserved129", 2, 31); ("cfa_powermode1", 2, 1);
    ("_reserved161", 2, 1); ("cfa_kms_support", 2, 1); ("cfa_trueide_modes", 2, 1); ("cfa_memory_modes", 2, 1);
    ("_reserved165", 2, 3); ("form_factor", 2, 1); ("support_dsm", 2, 1); ("product_id", 1, 8);
    ("_reserved174", 2, 2); ("media_serial", 1, 60); ("sct", 2, 1); ("_reserved207", 2, 2); ("lsalign", 2, 1);
    ("wrv_sectors_m3_1", 2, 1); ("wrv_sectors_m3_2", 2, 1); ("wrv_sectors_m2_1", 2, 1);
    ("wrv_sectors_m2_2", 2, 1); ("nv_cache_caps", 2, 1); ("nv_cache_size_1", 2, 1); ("nv_cache_size_2", 2, 1);
    ("media_rotation_rate", 2, 1); ("_reserved218", 2, 1); ("nv_cache_opt", 2, 1); ("wrv_mode", 2, 1);
    ("_reserved221", 2, 1); ("transport_major", 2, 1); ("transport_minor", 2, 1); ("_reserved224", 2, 31);
    ("integrity", 2, 1)].

(** [repr(C)]: each field at the next multiple of its alignment, the size a multiple of
    the struct's, [align]. *)
Fixpoint repr_c_end (o : Z) (l : list (string * Z * Z)) : Z :=
  match l with [] => o | (_, sz, n) :: l => repr_c_end ((o + sz - 1) / sz * sz + sz * n) l end.

Fixpoint offset_of (name : string) (o : Z) (l : list (string * Z * Z)) : option Z :=
  match l with
  | [] => None
  | (nm, sz, n) :: l =>
      let start := (o + sz - 1) / sz * sz in
      if bool_decide (nm = name) then Some start else offset_of name (start + sz * n) l
  end.

Definition ATA_IDENTIFY_SIZE : Z := let e := repr_c_end 0 ATADiskIdentify in (e + 3) / 4 * 4.

(** ** The controller *)
Inductive HbaReg :=
  | RCommandListBase | RFisBase | RInterruptStatus | RCmdSts | RTaskFileData
  | RSignature | RSataStatus | RSataActive | RCommandIssue.

Class Hba (D : Type) := {
  hba_read : D → HbaReg → Z * D;
  hba_write : D → HbaReg → Z → D;
  (* a write to the command issue register, with what is in memory: the list of headers, and
     the command table at a physical address *)
  hba_issue : D → Z → list HBACommandHeader → (Z → option HBACommandTable) → D;
  (* memory, as seen by physical address *)
  hba_mem : D → Z → Z;
}.

(** ** The port *)
Record Port := mkPort {
  cmd_list : list HBACommandHeader;
  cmd_tables : list HBACommandTable;
  tables_addr : Z;                  (* where the box of the tables is in physical memory *)
}.

(** The table that memory has at a physical address; the driver takes the box to be
    contiguous there. *)
Definition table_at (p : Port) (a : Z) : option HBACommandTable :=
  let o := a - tables_addr p in
  if (0 <=? o) && (o mod COMMAND_TABLE_SIZE =? 0) then cmd_tables p !! Z.to_nat (o / COMMAND_TABLE_SIZE) else None.

Section driver.
Context {D : Type} `{!Hba D}.

Definition check_port_type (d : D) : PortType * D :=
  let '(sata_status, d) := hba_read d RSataStatus in
  let interface_power_management := Z.land (Z.shiftr sata_status 8) 7 in
  let device_detection := Z.land sata_status 7 in
  if negb (device_detection =? HBA_PORT_DEV_PRESENT) then (PNone, d)
  else if negb (interface_power_management =? HBA_PORT_IPM_ACTIVE) then (PNone, d)
  else
    let '(sig, d) := hba_read d RSignature in
    (if sig =? SATA_SIG_ATAPI then PSATAPI
     else if sig =? SATA_SIG_ATA then PSATA
     else if sig =? SATA_SIG_PM then PPM
     else if sig =? SATA_SIG_SEMB then PSEMB
     else PNone, d).

(** [cmd_sts.update(f)] *)
Definition update_cmd_sts (d : D) (f : Z → Z) : D :=
  let '(v, d) := hba_read d RCmdSts in hba_write d RCmdSts (f v).

(** [while test(cmd_sts.read()) {}] *)
Fixpoint spin_cmd_sts (fuel : nat) (test : Z → bool) (d : D) : outcome D :=
  match fuel with
  | O => OutOfFuel
  | S fuel => let '(v, d) := hba_read d RCmdSts in if test v then spin_cmd_sts fuel test d else Done d
  end.

Definition start_cmd (fuel : nat) (d : D) : outcome D :=
  d ← spin_cmd_sts fuel (λ v, 0 <? Z.land v HBA_PX_CMD_CR) d;
  let d := update_cmd_sts d (λ v, Z.lor v HBA_PX_CMD_FRE) in
  Done (update_cmd_sts d (λ v, Z.lor v HBA_PX_CMD_ST)).

(** [!x] on 32 bits. *)
Definition not_u32 (x : Z) : Z := u32_lim - 1 - x.

Definition stop_cmd (fuel : nat) (d : D) : outcome D :=
  let d := update_cmd_sts d (λ v, Z.land v (not_u32 HBA_PX_CMD_ST)) in
  d ← spin_cmd_sts fuel (λ v, Z.lor v HBA_PX_CMD_CR =? 1) d;
  let d := update_cmd_sts d (λ v, Z.land v (not_u32 HBA_PX_CMD_FRE)) in
  spin_cmd_sts fuel (λ v, Z.lor v HBA_PX_CMD_FR =? 1) d.

(** [Port::new]: the boxes' contents are what the allocator left there; [rfis],
    [list] and [tables] are their virtual addresses. *)
Definition Port_new (fuel : nat) (phys : Z → outcome (option Z)) (d : D) (boxes : Port) (rfis list tables : Z)
  : outcome (Port * D) :=
  d ← stop_cmd fuel d;
  rfis_addr ← phys rfis; rfis_addr ← unwrap rfis_addr;
  list_addr ← phys list; list_addr ← unwrap list_addr;
  let d := hba_write d RCommandListBase list_addr in
  let d := hba_write d RFisBase rfis_addr in
  tables_addr ← phys tables; tables_addr ← unwrap tables_addr;
  _ ← add_u64 tables_addr (31 * COMMAND_TABLE_SIZE);
  let l := imap (λ i h, mkHeader (command_fis_length h) (write_ h) 0 (tables_addr + Z.of_nat i * COMMAND_TABLE_SIZE))
             (cmd_list boxes) in
  d ← start_cmd fuel d;
  Done (mkPort l (cmd_tables boxes) tables_addr, d).

(** The registers are read once, before the loop. *)
Definition free_slot (test : Z) : option nat := head (filter (λ s, Z.land test (Z.shiftl 1 (Z.of_nat s)) = 0) (seq 0 32)).

Fixpoint find_slot_loop (fuel : nat) (test : Z) : outcome nat :=
  match fuel with
  | O => OutOfFuel
  | S fuel => match free_slot test with Some s => Done s | None => find_slot_loop fuel test end
  end.

Definition find_slot (fuel : nat) (d : D) : outcome (nat * D) :=
  let '(ci, d) := hba_read d RCommandIssue in
  let '(sact, d) := hba_read d RSataActive in
  s ← find_slot_loop fuel (Z.lor ci sact);
  Done (s, d).

(** The page tables of the running task: [address_of(Page::new(ptr)).unwrap().get_address()]. *)
Context (address_of : Page Size4KB → outcome (option (Page Size4KB))).

Definition page_phys (ptr : Z) : outcome Z :=
  p ← Page_new Size4KB ptr;
  o ← address_of p;
  q ← unwrap o;
  Done (get_address q).

(** [prdt_entry[i]] set to a region. *)
Definition set_prd (prdt : list HBAPRDTEntry) (i : nat) (base n : Z) : outcome (list HBAPRDTEntry) :=
  e ← index prdt i;
  e ← set_byte_count (set_data_base_address e base) n;
  index_set prdt i e.

(** [while bytes_to_read > 0x1000] *)
Fixpoint prdt_pages (fuel : nat) (prdt : list HBAPRDTEntry) (n : nat) (ptr bytes : Z)
  : outcome (list HBAPRDTEntry * nat * Z * Z) :=
  match fuel with
  | O => OutOfFuel
  | S fuel =>
      if 0x1000 <? bytes then
        phys ← page_phys ptr;
        prdt ← set_prd prdt n phys 0xFFF;
        ptr ← add_u64 ptr 0x1000;
        prdt_pages fuel prdt (S n) ptr (bytes - 0x1000)
      else Done (prdt, n, ptr, bytes)
  end.

(** The scatter list of a buffer of [bytes] bytes at [ptr]. *)
Definition build_prdt (prdt : list HBAPRDTEntry) (ptr bytes : Z) : outcome (list HBAPRDTEntry * nat) :=
  let left_align_size := Z.land ptr 0xFFF in
  '(prdt, n, ptr, bytes) ←
    (if 0 <? left_align_size then
       let ptr := Z.land ptr (not_u64 0xFFF) in
       phys ← page_phys ptr;
       base ← add_u64 phys left_align_size;
       cnt ← sub_u32 0xFFF left_align_size;
       prdt ← set_prd prdt 0 base cnt;
       ptr ← add_u64 ptr 0x1000;
       Done (prdt, 1%nat, ptr, Z.max 0 (bytes - (0x1000 - left_align_size)))
     else Done (prdt, 0%nat, ptr, bytes));
  '(prdt, n, ptr, bytes) ← prdt_pages (S (Z.to_nat bytes)) prdt n ptr bytes;
  if 0 <? bytes then
    phys ← page_phys ptr;
    prdt ← set_prd prdt n phys (bytes - 1);
    Done (prdt, S n)
  else Done (prdt, n).

(** [while (task_file_data.read() & (0x80 | 0x08)) > 0 && spin > 0 { spin -= 1 }]; the
    spins left. *)
Fixpoint wait_not_busy (spin : nat) (d : D) : nat * D :=
  let '(v, d) := hba_read d RTaskFileData in
  if 0 <? Z.land v 0x88 then match spin with O => (O, d) | S spin => wait_not_busy spin d end
  else (spin, d).

(** The final loop: [true] when the command is done, [false] for an error. *)
Fixpoint wait_done (fuel : nat) (slot : nat) (d : D) : outcome (bool * D) :=
  match fuel with
  | O => OutOfFuel
  | S fuel =>
      let '(ci, d) := hba_read d RCommandIssue in
      if Z.land ci (Z.shiftl 1 (Z.of_nat slot)) =? 0 then Done (true, d)
      else
        let '(is_, d) := hba_read d RInterruptStatus in
        if 0 <? Z.land is_ (Z.shiftl 1 30) then Done (false, d) else wait_done fuel slot d
  end.

Definition MAX_SECTORS : Z := (Z.of_nat PRDT_LENGTH - 1) * 8.
Definition ATA_CMD_READ_DMA_EX : Z := 0x25.

Definition u8 (v : Z) : Z := v mod 256.

(** The command of [read], in the FIS the table has. *)
Definition read_fis (sector sector_count : Z) : FisRegH2D :=
  let sector_low := sector mod u32_lim in
  let sector_high := Z.shiftr sector 32 mod u32_lim in
  mkFis FISTYPE_REGH2D true ATA_CMD_READ_DMA_EX
    (u8 sector_low) (u8 (Z.shiftr sector_low 8)) (u8 (Z.shiftr sector_low 16)) (Z.shiftl 1 6)
    (u8 sector_high) (u8 (Z.shiftr sector_high 8)) (u8 (Z.shiftr sector_high 16))
    (u8 (Z.land sector_count 0xFF)) (u8 (Z.land (Z.shiftr sector_count 8) 0xFF)) 1.

(** [DiskDevice::read]; [buffer] is the address and the length of the slice.  [fuel]
    is that of the two loops without a bound. *)
Definition Port_read (fuel : nat) (self : Port) (d : D) (sector sector_count : Z) (buffer : Z * Z)
  : outcome (option unit * (Port * D)) :=
  _ ← (if MAX_SECTORS <? sector_count then Panic PUnreachable else Done tt);
  _ ← assert_ (sector_count * 512 <=? snd buffer);
  '(slot, d) ← find_slot fuel d;
  h ← index (cmd_list self) slot;
  t ← index (cmd_tables self) slot;
  bytes ← mul_u32 512 sector_count;
  '(prdt, n) ← build_prdt (prdt_entry t) (fst buffer) bytes;
  let h := mkHeader (FIS_SIZE / 4) false (Z.of_nat n) (command_table_base_address h) in
  let t := mkTable (read_fis sector sector_count) prdt in
  let self := mkPort (<[slot := h]> (cmd_list self)) (<[slot := t]> (cmd_tables self)) (tables_addr self) in
  let '(spin, d) := wait_not_busy (Z.to_nat 100000) d in
  match spin with
  | O => Done (None, (self, d))
  | S _ =>
      let d := hba_issue d (Z.shiftl 1 (Z.of_nat slot)) (cmd_list self) (table_at self) in
      '(ok, d) ← wait_done fuel slot d;
      if (ok : bool) then
        let '(is_, d) := hba_read d RInterruptStatus in
        if 0 <? Z.land is_ (Z.shiftl 1 30) then Done (None, (self, d)) else Done (Some tt, (self, d))
      else Done (None, (self, d))
  end.

(** The loop of [identify]: [None] when the tries are used up. *)
Fixpoint wait_identify (i : nat) (slot : nat) (d : D) : option D :=
  match i with
  | O => None
  | S i =>
      let '(ci, d) := hba_read d RCommandIssue in
      if Z.land ci (Z.shiftl 1 (Z.of_nat slot)) =? 0 then Some d
      else
        let '(is_, d) := hba_read d RInterruptStatus in
        if 0 <? Z.land is_ (Z.shiftl 1 30) then Some d else wait_identify i slot d
  end.

(** [DiskDevice::identify] into a new box at [identify]. *)
Definition Port_identify (fuel : nat) (phys : Z → outcome (option Z)) (self : Port) (d : D) (identify : Z)
  : outcome (Port * D) :=
  let d := hba_write d RInterruptStatus 0xFFFFFFFF in
  '(slot, d) ← find_slot fuel d;
  h ← index (cmd_list self) slot;
  t ← index (cmd_tables self) slot;
  a ← phys identify; a ← unwrap a;
  prdt ← set_prd (prdt_entry t) 0 a (ATA_IDENTIFY_SIZE - 1);
  let h := mkHeader (FIS_SIZE / 4) false 1 (command_table_base_address h) in
  let f := command_fis t in
  let f := mkFis FISTYPE_REGH2D true 0xec (lba0 f) (lba1 f) (lba2 f) (device_register f) (lba3 f) (lba4 f) (lba5 f)
             0 (counth f) (control f) in
  let self := mkPort (<[slot := h]> (cmd_list self)) (<[slot := mkTable f prdt]> (cmd_tables self)) (tables_addr self) in
  let '(spin, d) := wait_not_busy (Z.to_nat 1000000) d in
  match spin with
  | O => Panic PUnreachable
  | S _ =>
      let d := hba_issue d (Z.shiftl 1 (Z.of_nat slot)) (cmd_list self) (table_at self) in
      match wait_identify (Z.to_nat 100000) slot d with
      | None => Panic PUnreachable
      | Some d => Done (self, d)
      end
  end.

(** The ports of [AHCIDriver::new]: [new_port] is [Port::new] with the boxes of the
    port, [buffer] the 512 bytes of the test read. *)
Fixpoint init_ports (fuel : nat) (new_port : nat → D → outcome (Port * D)) (buffer : Z) (ports_implemented : Z)
    (i : nat) (devs : list D) : outcome (list (option Port) * list D) :=
  match devs with
  | [] => Done ([], [])
  | d :: devs =>
      '(o, d) ←
        (if Z.testbit ports_implemented (Z.of_nat i) then
           let '(ty, d) := check_port_type d in
           if bool_decide (ty = PSATA) then
             '(port, d) ← new_port i d;
             '(r, (port, d)) ← Port_read fuel port d 0 1 (buffer, 512);
             Done (match r with Some _ => Some port | None => None end, d)
           else Done (None, d)
         else Done (None, d));
      '(ports, devs) ← init_ports fuel new_port buffer ports_implemented (S i) devs;
      Done (o :: ports, d :: devs)
  end.
End driver.

(** [DiskBusDriver] *)
Definition get_disks (ports : list (option Port)) : list Port := omap id ports.
Definition get_disk_by_id (ports : list (option Port)) (id : nat) : option Port := mjoin (ports !! id).

(** ** What the specification promises of a port

    A read command in a slot: its address, its number of sectors and the regions of
    memory its scatter list names. *)
Definition fis_lba (f : FisRegH2D) : Z :=
  lba0 f + 2 ^ 8 * lba1 f + 2 ^ 16 * lba2 f + 2 ^ 24 * lba3 f + 2 ^ 32 * lba4 f + 2 ^ 40 * lba5 f.

Definition regions (n : nat) (prdt : list HBAPRDTEntry) : list (Z * Z) :=
  (λ e, (data_base_address e, byte_count e + 1)) <$> take n prdt.

(** The addresses of the regions, in order. *)
Definition addrs (rs : list (Z * Z)) : list Z := concat ((λ '(a, n), seqZ a n) <$> rs).

Record read_request (h : HBACommandHeader) (t : HBACommandTable) (lba n : Z) : Prop := {
  rr_header : command_fis_length h = 5 ∧ write_ h = false;
  rr_fis : fis_type (command_fis t) = 0x27 ∧ command_control (command_fis t) = true ∧ command (command_fis t) = 0x25 ∧
           Z.testbit (device_register (command_fis t)) 6 = true;
  rr_lba : fis_lba (command_fis t) = lba;
  rr_count : countl (command_fis t) + 2 ^ 8 * counth (command_fis t) = n;
  rr_prds : Forall (λ '(a, k), a mod 2 = 0 ∧ k mod 2 = 0 ∧ 0 < k ≤ 2 ^ 22) (regions (Z.to_nat (prdt_length h)) (prdt_entry t));
  rr_room : 512 * n ≤ Z.of_nat (length (addrs (regions (Z.to_nat (prdt_length h)) (prdt_entry t))));
}.

(** Bytes stored one after the other at the given addresses. *)
Fixpoint store_at (m : Z → Z) (addrs bytes : list Z) : Z → Z :=
  match addrs, bytes with
  | a :: addrs, b :: bytes => store_at (<[a := b]> m) addrs bytes
  | _, _ => m
  end.

(** A port with a disk of [size] sectors behind it: when it is idle a read command is
    accepted, takes at most [limit] polls, and puts the sectors into the regions. *)
Class HbaSpec (D : Type) `{!Hba D} (sectors : Z → list Z) (size : Z) (limit : nat) := {
  hba_idle : D → Prop;
  hba_busy : nat → (Z → Z) → nat → D → Prop;
  idle_read d r : hba_idle d → ∃ v d', hba_read d r = (v, d') ∧ hba_idle d' ∧ hba_mem d' = hba_mem d ∧
    (r = RTaskFileData → Z.land v 0x88 = 0) ∧ (r = RCommandIssue ∨ r = RSataActive → v = 0) ∧
    (r = RInterruptStatus → Z.land v (2 ^ 30) = 0);
  idle_issue d slot hs ts h t lba n :
    hba_idle d → (slot < 32)%nat → hs !! slot = Some h → ts (command_table_base_address h) = Some t →
    0 < n → 0 ≤ lba → lba + n ≤ size → read_request h t lba n →
    ∃ k, (k ≤ limit)%nat ∧
      hba_busy slot (store_at (hba_mem d) (addrs (regions (Z.to_nat (prdt_length h)) (prdt_entry t)))
                       (concat (sectors <$> seqZ lba n))) k
        (hba_issue d (Z.shiftl 1 (Z.of_nat slot)) hs ts);
  busy_ci d slot m k : hba_busy slot m k d → ∃ v d', hba_read d RCommandIssue = (v, d') ∧
    match k with
    | O => Z.land v (Z.shiftl 1 (Z.of_nat slot)) = 0 ∧ hba_idle d' ∧ hba_mem d' = m
    | S k => Z.land v (Z.shiftl 1 (Z.of_nat slot)) ≠ 0 ∧ hba_busy slot m k d'
    end;
  busy_is d slot m k : hba_busy slot m k d → ∃ v d', hba_read d RInterruptStatus = (v, d') ∧
    Z.land v (2 ^ 30) = 0 ∧ hba_busy slot m k d';
}.

Lemma store_at_in as_ : ∀ m bs i a b,
  NoDup as_ → as_ !! i = Some a → bs !! i = Some b → store_at m as_ bs a = b.
Proof.
  induction as_ as [|x as_ IH]; intros m [|y bs] i a b Hnd Ha Hb; try done. apply NoDup_cons in Hnd as [Hx Hnd]. cbn.
  destruct i as [|i]; cbn in *; [|by eapply IH]. injection Ha as ->. injection Hb as ->.
  assert (Hout : ∀ m bs, store_at m as_ bs a = m a).
  { clear IH Hnd. induction as_ as [|x as_ IH]; intros m' [|y bs']; try done. cbn. rewrite IH by set_solver.
    apply fn_lookup_insert_ne. set_solver. }
  rewrite Hout. by rewrite fn_lookup_insert.
Qed.

Lemma store_at_out as_ : ∀ m bs a, a ∉ take (length bs) as_ → store_at m as_ bs a = m a.
Proof.
  induction as_ as [|x as_ IH]; intros m [|y bs] a Ha; try done. cbn in *. rewrite IH by set_solver.
  apply fn_lookup_insert_ne. set_solver.
Qed.

(** ** The scatter list covers the buffer *)
Section prdt.
Context (address_of : Page Size4KB → outcome (option (Page Size4KB))).
(** Where each page is. *)
Context (fr : Z → Z).

(** The physical address of a byte. *)
Definition phys_byte (a : Z) : Z := fr (a - a mod 0x1000) + a mod 0x1000.

Definition page_mapped (v : Z) : Prop :=
  page_phys address_of v = Done (fr v) ∧ 0 ≤ fr v < 2 ^ 52 ∧ fr v mod 0x1000 = 0.

Lemma phys_page v o k :
  v mod 0x1000 = 0 → 0 ≤ o → o + k ≤ 0x1000 → seqZ (fr v + o) k = phys_byte <$> seqZ (v + o) k.
Proof using.
  intros Hv Ho Hk. apply list_eq. intros i. rewrite list_lookup_fmap.
  destruct (decide (Z.of_nat i < k)).
  - rewrite !lookup_seqZ_lt by lia. cbn. f_equal. unfold phys_byte.
    assert (Hm : (v + o + Z.of_nat i) mod 0x1000 = o + Z.of_nat i).
    { replace (v + o + Z.of_nat i) with ((o + Z.of_nat i) + v) by lia. rewrite <- Zplus_mod_idemp_r, Hv, Z.add_0_r.
      apply Z.mod_small. lia. }
    rewrite Hm. replace (v + o + Z.of_nat i - (o + Z.of_nat i)) with v by lia. lia.
  - by rewrite !lookup_seqZ_ge by lia.
Qed.

Lemma addrs_app r1 r2 : addrs (r1 ++ r2) = addrs r1 ++ addrs r2.
Proof using. unfold addrs. by rewrite fmap_app, concat_app. Qed.

(** The first [n] entries stand for the [L] bytes at [ptr]. *)
Record covers (prdt : list HBAPRDTEntry) (n : nat) (ptr L : Z) : Prop := {
  cv_len : length prdt = PRDT_LENGTH;
  cv_n : (n ≤ PRDT_LENGTH)%nat;
  cv_addrs : addrs (regions n prdt) = phys_byte <$> seqZ ptr L;
  cv_even : Forall (λ '(a, k), a mod 2 = 0 ∧ k mod 2 = 0 ∧ 0 < k ≤ 2 ^ 22) (regions n prdt);
  cv_pos : 0 ≤ L;
}.

(** The next region. *)
Lemma set_prd_covers prdt n ptr L v o k :
  covers prdt n ptr L → (n < PRDT_LENGTH)%nat → ptr + L = v + o → v mod 0x1000 = 0 → page_mapped v →
  0 ≤ o → o mod 2 = 0 → k mod 2 = 0 → 0 < k → o + k ≤ 0x1000 →
  ∃ prdt', set_prd prdt n (fr v + o) (k - 1) = Done prdt' ∧ covers prdt' (S n) ptr (L + k).
Proof using.
  intros [Hlen Hn Ha He HL] Hlt Hpos Hv (_ & Hf & Hfm) Ho Ho2 Hk2 Hk Hok.
  destruct (lookup_lt_is_Some_2 prdt n) as [e Ee]; [lia|].
  exists (<[n := mkPrd (fr v + o) (k - 1)]> prdt). split.
  - unfold set_prd. rewrite (proj2 (index_Done _ _ _) Ee), bind_ret. unfold set_byte_count.
    rewrite chk_ok by lia. cbn [mbind outcome_bind data_base_address set_data_base_address].
    by rewrite index_set_ok by lia.
  - assert (Er : regions (S n) (<[n := mkPrd (fr v + o) (k - 1)]> prdt) = regions n prdt ++ [(fr v + o, k)]).
    { unfold regions. erewrite take_S_r by (apply list_lookup_insert_eq; lia). rewrite fmap_app, take_insert_ge by lia.
      cbn. by replace (k - 1 + 1) with k by lia. }
    split; [by rewrite length_insert|lia| | |lia].
    + rewrite Er, addrs_app, Ha. unfold addrs at 1. cbn. rewrite app_nil_r.
      rewrite (phys_page v o k Hv Ho Hok), <- Hpos, <- fmap_app. f_equal. symmetry. by apply seqZ_app; lia.
    + rewrite Er. apply Forall_app. split; [done|]. constructor; [|done]. split_and!; [|done|done|lia].
      rewrite Zplus_mod, Ho2, Z.add_0_r, Zmod_mod.
      pose proof (Z.div_mod (fr v) 0x1000). rewrite Hfm, Z.add_0_r in *.
      replace (fr v) with ((0x800 * (fr v / 0x1000)) * 2) by lia. by apply Z.mod_mul.
Qed.

Lemma prdt_pages_ok fuel : ∀ prdt n ptr L p bytes,
  covers prdt n ptr L → p = ptr + L → p mod 0x1000 = 0 → 0 ≤ p → bytes mod 2 = 0 →
  0 ≤ bytes → 0x1000 * Z.of_nat n + bytes ≤ 0x8000 → (Z.to_nat bytes < fuel)%nat → p + bytes + 0x1000 ≤ u64_lim →
  (∀ v, v mod 0x1000 = 0 → p ≤ v < p + bytes → page_mapped v) →
  ∃ prdt' n' L' p' bytes', prdt_pages address_of fuel prdt n p bytes = Done (prdt', n', p', bytes') ∧
    covers prdt' n' ptr L' ∧ p' = ptr + L' ∧ p' mod 0x1000 = 0 ∧ p ≤ p' ∧ L' + bytes' = L + bytes ∧
    0 ≤ bytes' ≤ 0x1000 ∧ bytes' mod 2 = 0 ∧ 0x1000 * Z.of_nat n' + bytes' ≤ 0x8000.
Proof using.
  induction fuel as [|fuel IH]; intros prdt n ptr L p bytes Hc Hp Hpm Hp0 Hb2 Hb Hn Hfuel Hlim Hmap; [lia|].
  cbn [prdt_pages]. destruct (Z.ltb_spec 0x1000 bytes) as [Hlt|Hge].
  2:{ exists prdt, n, L, p, bytes. split_and!; try done; lia. }
  destruct (Hmap p) as (Hpp & Hfr); [done|lia|]. rewrite Hpp, bind_ret.
  destruct (set_prd_covers prdt n ptr L p 0 0x1000 Hc) as (prdt' & E & Hc'); try done; try lia.
  { unfold PRDT_LENGTH. lia. }
  rewrite Z.add_0_r in E. change (0x1000 - 1) with 0xFFF in E. rewrite E, bind_ret. arith_keep.
  edestruct (IH prdt' (S n) ptr (L + 0x1000) (p + 0x1000) (bytes - 0x1000))
    as (prdt2 & n2 & L2 & p2 & b2 & E2 & Hc2 & ? & ? & ? & ? & ? & ? & ?); try done; try lia.
  - rewrite Zplus_mod, Hpm. done.
  - rewrite Zminus_mod, Hb2. done.
  - intros v Hv Hr. apply Hmap; [done|lia].
  - exists prdt2, n2, L2, p2, b2. split_and!; try done; lia.
Qed.

(** [build_prdt] names the bytes of the buffer, in order, and from the first region
    perhaps more of the same page. *)
Lemma build_prdt_ok prdt ptr bytes :
  length prdt = PRDT_LENGTH → 0 ≤ ptr → ptr mod 2 = 0 → 0 < bytes ≤ 0x7000 → bytes mod 2 = 0 →
  ptr + bytes + 0x2000 ≤ u64_lim →
  (∀ v, v mod 0x1000 = 0 → ptr - ptr mod 0x1000 ≤ v < ptr + bytes → page_mapped v) →
  ∃ prdt' n L, build_prdt address_of prdt ptr bytes = Done (prdt', n) ∧ covers prdt' n ptr L ∧ bytes ≤ L ∧
    (L = bytes ∨ ptr + L = ptr - ptr mod 0x1000 + 0x1000).
Proof using.
  intros Hlen Hp Hp2 Hb Hb2 Hlim Hmap. unfold build_prdt.
  replace (Z.land ptr 0xFFF) with (ptr mod 0x1000) by (symmetry; by apply (land_ones_mod ptr 12)).
  pose proof (Z.mod_pos_bound ptr 0x1000). pose proof (Z.div_mod ptr 0x1000).
  assert (Hc0 : covers prdt 0 ptr 0).
  { split; [done|lia| |constructor|lia]. unfold regions, addrs. cbn. by rewrite seqZ_nil by lia. }
  set (l := ptr mod 0x1000) in *. assert (Hl2 : l mod 2 = 0).
  { unfold l. rewrite Z.mod_mod_divide by (by exists 0x800). done. }
  assert (Hvm : (ptr - l) mod 0x1000 = 0).
  { unfold l. rewrite Zminus_mod, Zmod_mod, Z.sub_diag. done. }
  set (st := if 0 <? l then _ else _).
  assert (Hst : ∃ prdt1 n1 L1 p1 b1, st = Done (prdt1, n1, p1, b1) ∧ covers prdt1 n1 ptr L1 ∧ p1 = ptr + L1 ∧
    p1 mod 0x1000 = 0 ∧ 0 ≤ p1 ∧ b1 mod 2 = 0 ∧ 0 ≤ b1 ≤ bytes ∧ 0x1000 * Z.of_nat n1 + b1 ≤ 0x8000 ∧
    p1 + b1 ≤ ptr + bytes + 0x1000 ∧
    (L1 + b1 = bytes ∨ b1 = 0 ∧ bytes ≤ L1 ∧ ptr + L1 = ptr - l + 0x1000)).
  { unfold st. destruct (Z.ltb_spec 0 l) as [Hl|Hl].
    - replace (Z.land ptr (not_u64 0xFFF)) with (ptr - l)
        by (symmetry; apply (land_not_ones ptr 12); unfold u64_lim in *; lia).
      destruct (Hmap (ptr - l)) as (Hpp & Hfr & Hfm); [done|lia|]. rewrite Hpp, bind_ret. arith_keep. rewrite ?bind_ret.
      destruct (set_prd_covers prdt 0 ptr 0 (ptr - l) l (0x1000 - l) Hc0) as (prdt' & E & Hc'); try done; try lia.
      { unfold PRDT_LENGTH. lia. }
      { rewrite Zminus_mod, Hl2. done. }
      replace (0x1000 - l - 1) with (0xFFF - l) in E by lia. rewrite E, bind_ret. arith_keep. rewrite ?bind_ret.
      exists prdt', 1%nat, (0x1000 - l), (ptr - l + 0x1000), (Z.max 0 (bytes - (0x1000 - l))).
      assert (Hm : Z.max 0 (bytes - (0x1000 - l)) mod 2 = 0).
      { destruct (Z.max_spec 0 (bytes - (0x1000 - l))) as [[_ ->]|[_ ->]]; [|done].
        replace (bytes - (0x1000 - l)) with (bytes + l - 0x800 * 2) by lia.
        rewrite <- Zminus_mod_idemp_r, Z.mod_mul, Z.sub_0_r, Zplus_mod, Hb2, Hl2 by lia. done. }
      split_and!; try done; try lia. rewrite Zplus_mod, Hvm. done.
    - assert (l = 0) by lia. exists prdt, 0%nat, 0, ptr, bytes. split_and!; try done; lia. }
  destruct Hst as (prdt1 & n1 & L1 & p1 & b1 & -> & Hc1 & Hp1 & Hpm1 & Hp10 & Hb12 & Hb1 & Hn1 & Hlim1 & Hor).
  rewrite bind_ret.
  destruct (prdt_pages_ok (S (Z.to_nat b1)) prdt1 n1 ptr L1 p1 b1) as
    (prdt2 & n2 & L2 & p2 & b2 & -> & Hc2 & Hp2' & Hpm2 & Hle2 & Hsum & Hb2' & Hb22 & Hn2); try done; try lia.
  { intros v Hv Hr. apply Hmap; [done|]. destruct Hor as [?|[? _]]; pose proof (cv_pos _ _ _ _ Hc1); lia. }
  rewrite bind_ret. destruct (Z.ltb_spec 0 b2) as [Hlast|Hlast].
  - assert (L1 + b1 = bytes) by lia. destruct (Hmap p2) as (Hpp & Hfr); [done|pose proof (cv_pos _ _ _ _ Hc1); lia|].
    rewrite Hpp, bind_ret.
    destruct (set_prd_covers prdt2 n2 ptr L2 p2 0 b2 Hc2) as (prdt' & E & Hc'); try done; try lia.
    { unfold PRDT_LENGTH. lia. }
    rewrite Z.add_0_r in E. rewrite E, bind_ret. exists prdt', (S n2), (L2 + b2). split_and!; try done; [lia|left; lia].
  - exists prdt2, n2, L2. split_and!; try done; [lia|]. destruct Hor as [?|(? & ? & ?)]; [left; lia|right; lia].
Qed.
End prdt.

(** C40: the scatter list of any buffer of up to 56 sectors, at any even address, fits
    its table of eight entries: no index is out of range and no count exceeds its 22
    bits, every region is an even number of bytes, and together they have room for all
    bytes asked for. *)
Theorem scatter_list_fits address_of fr prdt ptr sectors :
  length prdt = PRDT_LENGTH → 0 < sectors ≤ MAX_SECTORS → 0 ≤ ptr → ptr mod 2 = 0 →
  ptr + 512 * sectors + 0x2000 ≤ u64_lim →
  (∀ v, v mod 0x1000 = 0 → ptr - ptr mod 0x1000 ≤ v < ptr + 512 * sectors → page_mapped address_of fr v) →
  ∃ prdt' n, build_prdt address_of prdt ptr (512 * sectors) = Done (prdt', n) ∧
    (n ≤ PRDT_LENGTH)%nat ∧ length prdt' = PRDT_LENGTH ∧
    Forall (λ '(a, k), a mod 2 = 0 ∧ k mod 2 = 0 ∧ 0 < k ≤ 2 ^ 22) (regions n prdt') ∧
    512 * sectors ≤ Z.of_nat (length (addrs (regions n prdt'))).
Proof.
  intros Hlen Hs Hp Hp2 Hlim Hmap. unfold MAX_SECTORS, PRDT_LENGTH in Hs. cbn in Hs.
  destruct (build_prdt_ok address_of fr prdt ptr (512 * sectors)) as (prdt' & n & L & E & [H1 H2 H3 H4 H5] & HL & _); try done; try lia.
  { rewrite <- Zmult_mod_idemp_l. done. }
  exists prdt', n. split_and!; try done. rewrite H3, length_fmap, length_seqZ. lia.
Qed.

Lemma scatter_list_fits_witness :
  ∃ prdt' n, build_prdt (λ p, Done (Some p)) (replicate 8 (mkPrd 0 0)) 0x10FFE (512 * 56) = Done (prdt', n) ∧ (n ≤ 8)%nat.
Proof.
  destruct (scatter_list_fits (λ p, Done (Some p)) id (replicate 8 (mkPrd 0 0)) 0x10FFE 56) as (prdt' & n & E & Hn & _).
  - done.
  - unfold MAX_SECTORS, PRDT_LENGTH. lia.
  - lia.
  - done.
  - unfold u64_lim. lia.
  - intros v Hv Hr. change (0x10FFE mod 0x1000) with 0xFFE in Hr. split; [|unfold id; split; [lia|done]].
    unfold page_phys. by rewrite (Page_new_ok Size4KB v) by (done || lia).
  - exists prdt', n. split; [exact E|exact Hn].
Defined.

(** ** Reading sectors *)

(** The address in the command: bits 24 to 31 of the sector number are not in it. *)
Lemma fis_lba_read sector n :
  0 ≤ sector < u64_lim →
  fis_lba (read_fis sector n) = sector mod 2 ^ 24 + 2 ^ 24 * ((sector / 2 ^ 32) mod 2 ^ 24).
Proof.
  intros Hs. unfold fis_lba, read_fis, u8. cbn [lba0 lba1 lba2 lba3 lba4 lba5]. rewrite !Z.shiftr_div_pow2 by lia.
  assert (Hb : ∀ x, 0 ≤ x → x mod 2 ^ 8 + 2 ^ 8 * ((x / 2 ^ 8) mod 2 ^ 8) + 2 ^ 16 * ((x / 2 ^ 16) mod 2 ^ 8) = x mod 2 ^ 24).
  { intros x Hx.
    assert (x mod 2 ^ 24 = x mod 2 ^ 16 + 2 ^ 16 * ((x / 2 ^ 16) mod 2 ^ 8)) by (apply (Z.rem_mul_r x (2 ^ 16) (2 ^ 8)); lia).
    assert (x mod 2 ^ 16 = x mod 2 ^ 8 + 2 ^ 8 * ((x / 2 ^ 8) mod 2 ^ 8)) by (apply (Z.rem_mul_r x (2 ^ 8) (2 ^ 8)); lia).
    lia. }
  assert (Hlow : 0 ≤ sector mod u32_lim) by (apply Z.mod_pos_bound; done).
  assert (Hhigh : 0 ≤ sector / 2 ^ 32 < 2 ^ 32)
    by (unfold u64_lim in Hs; split; [apply Z.div_pos; lia|apply Z.div_lt_upper_bound; lia]).
  rewrite (Z.mod_small (sector / 2 ^ 32)) by (unfold u32_lim; lia).
  pose proof (Hb _ Hlow) as H1. pose proof (Hb (sector / 2 ^ 32) ltac:(lia)) as H2.
  rewrite (Z.mod_mod_divide sector u32_lim (2 ^ 24)) in H1 by by exists (2 ^ 8).
  change (2 ^ 8) with 256 in *. change (2 ^ 16) with 65536 in *. lia.
Qed.

(** The sector [2^24] of a disk cannot be addressed: the command asks for sector 0. *)
Lemma lba_bits_dropped : fis_lba (read_fis (2 ^ 24) 1) = 0.
Proof. reflexivity. Qed.

(** A free slot is looked for in one reading of the registers: when they show none,
    the loop never ends, whatever the port does meanwhile. *)
Lemma find_slot_never_rereads fuel : find_slot_loop fuel (2 ^ 32 - 1) = OutOfFuel.
Proof. induction fuel as [|fuel IH]; [done|]. cbn [find_slot_loop]. exact IH. Qed.

(** [stop_cmd] tests with an or, so it never waits for the engine to stop. *)
Lemma stop_never_waits {D} `{!Hba D} fuel d v : v = HBA_PX_CMD_CR ∨ v = HBA_PX_CMD_FR →
  spin_cmd_sts (S fuel) (λ x, Z.lor x v =? 1) d = Done (snd (hba_read d RCmdSts)).
Proof.
  intros Hv. cbn. destruct (hba_read d RCmdSts) as [x d']. destruct (Z.eqb_spec (Z.lor x v) 1) as [E|]; [|done].
  exfalso. assert (Hb : ∀ i, Z.testbit v i = true → Z.testbit 1 i = true) by (intros i Hi; rewrite <- E, Z.lor_spec, Hi; apply orb_true_r).
  destruct Hv as [-> | ->]; [specialize (Hb 15)|specialize (Hb 14)]; cbn in Hb; naive_solver.
Qed.

(** [IDENTIFY DEVICE] returns 512 bytes; the structure has 508, so the region that is
    given to the controller is too short and the later fields are misplaced. *)
Lemma identify_layout :
  ATA_IDENTIFY_SIZE = 508 ∧ offset_of "lba_size_1" 0 ATADiskIdentify = Some 120 ∧
  offset_of "ultra_dma_modes" 0 ATADiskIdentify = Some 170.
Proof. vm_compute. done. Qed.

Definition port_ok (p : Port) : Prop :=
  length (cmd_list p) = 32%nat ∧ length (cmd_tables p) = 32%nat ∧
  Forall (λ t, length (prdt_entry t) = PRDT_LENGTH) (cmd_tables p) ∧
  ∀ i h, cmd_list p !! i = Some h → command_table_base_address h = tables_addr p + Z.of_nat i * COMMAND_TABLE_SIZE.

(** Each header points to the table of its slot. *)
Lemma table_at_slot p i h :
  port_ok p → cmd_list p !! i = Some h → table_at p (command_table_base_address h) = cmd_tables p !! i.
Proof.
  intros (_ & _ & _ & Ha) Hh. unfold table_at. rewrite (Ha i h Hh).
  replace (tables_addr p + Z.of_nat i * COMMAND_TABLE_SIZE - tables_addr p) with (Z.of_nat i * COMMAND_TABLE_SIZE) by lia.
  rewrite Z.mod_mul, Z.div_mul by done. rewrite (proj2 (Z.leb_le _ _)) by (unfold COMMAND_TABLE_SIZE; lia). cbn [andb Z.eqb]. by rewrite Nat2Z.id.
Qed.

(** A port that [Port::new] sets up is one. *)
Lemma Port_new_ok {D} `{!Hba D} fuel phys (d : D) boxes rfis list_ tables p d' :
  Port_new fuel phys d boxes rfis list_ tables = Done (p, d') →
  length (cmd_list boxes) = 32%nat → length (cmd_tables boxes) = 32%nat →
  Forall (λ t, length (prdt_entry t) = PRDT_LENGTH) (cmd_tables boxes) → port_ok p.
Proof.
  unfold Port_new. intros E Hl Ht Hp. inv_outcome. split; [|split; [|split]]; cbn [cmd_list cmd_tables tables_addr]; [by rewrite length_imap|done|done|].
  intros i h. rewrite list_lookup_imap_Some. intros (h0 & _ & ->). done.
Qed.

Section read.
Context {D : Type} `{!Hba D} (sectors : Z → list Z) (size : Z) (limit : nat) `{!HbaSpec D sectors size limit}.

Lemma find_slot_idle fuel d :
  hba_idle d → ∃ d', find_slot (S fuel) d = Done (0%nat, d') ∧ hba_idle d' ∧ hba_mem d' = hba_mem d.
Proof.
  intros Hd. unfold find_slot. destruct (idle_read d RCommandIssue Hd) as (v & d1 & -> & Hd1 & Hm1 & _ & Hv & _).
  destruct (idle_read d1 RSataActive Hd1) as (v2 & d2 & -> & Hd2 & Hm2 & _ & Hv2 & _).
  rewrite Hv, Hv2 by auto. exists d2. split_and!; [done..|congruence].
Qed.

Lemma wait_not_busy_idle spin d :
  hba_idle d → ∃ d', wait_not_busy spin d = (spin, d') ∧ hba_idle d' ∧ hba_mem d' = hba_mem d.
Proof.
  intros Hd. destruct (idle_read d RTaskFileData Hd) as (v & d1 & E & Hd1 & Hm1 & Hv & _).
  exists d1. destruct spin; cbn [wait_not_busy]; rewrite E, Hv by done; done.
Qed.

Lemma wait_done_busy k : ∀ fuel slot m d,
  hba_busy slot m k d → (k < fuel)%nat →
  ∃ d', wait_done fuel slot d = Done (true, d') ∧ hba_idle d' ∧ hba_mem d' = m.
Proof.
  induction k as [|k IH]; intros [|fuel] slot m d Hb Hf; try lia; cbn [wait_done];
    destruct (busy_ci d slot m _ Hb) as (v & d1 & -> & H).
  - destruct H as (-> & Hi & Hm). by exists d1.
  - destruct H as (Hv & Hb1). rewrite (proj2 (Z.eqb_neq _ _) Hv).
    destruct (busy_is d1 slot m k Hb1) as (v2 & d2 & -> & Hv2 & Hb2). change (Z.shiftl 1 30) with (2 ^ 30). rewrite Hv2.
    apply IH; [done|lia].
Qed.

Lemma read_fis_count sector n : 0 < n < 2 ^ 16 →
  countl (read_fis sector n) + 2 ^ 8 * counth (read_fis sector n) = n.
Proof.
  intros Hn. cbn [read_fis countl counth]. unfold u8. change 0xFF with (2 ^ 8 - 1). rewrite !land_ones_mod by lia.
  rewrite Z.shiftr_div_pow2 by lia. change 256 with (2 ^ 8). rewrite !Zmod_mod.
  rewrite (Z.mod_small (n / 2 ^ 8)); [pose proof (Z.div_mod n (2 ^ 8)); lia|].
  split; [apply Z.div_pos; lia|apply Z.div_lt_upper_bound; lia].
Qed.

(** The regions of a buffer are distinct bytes. *)
Lemma phys_bytes_NoDup fr ptr L :
  (∀ v v', v mod 0x1000 = 0 → v' mod 0x1000 = 0 → ptr - ptr mod 0x1000 ≤ v < ptr + L → ptr - ptr mod 0x1000 ≤ v' < ptr + L →
     fr v = fr v' → v = v') →
  (∀ v, v mod 0x1000 = 0 → ptr - ptr mod 0x1000 ≤ v < ptr + L → fr v mod 0x1000 = 0) →
  NoDup (phys_byte fr <$> seqZ ptr L).
Proof.
  intros Hinj Hal. assert (Hpage : ∀ x, (x - x mod 0x1000) mod 0x1000 = 0).
  { intros x. rewrite Zminus_mod, Zmod_mod, Z.sub_diag. done. }
  assert (Hin : ∀ x, ptr ≤ x < ptr + L → ptr - ptr mod 0x1000 ≤ x - x mod 0x1000 < ptr + L).
  { intros x Hx. pose proof (Z.mod_pos_bound x 0x1000). pose proof (Z.mod_pos_bound ptr 0x1000).
    pose proof (Z.div_mod x 0x1000). pose proof (Z.div_mod ptr 0x1000).
    pose proof (Z.div_le_mono ptr x 0x1000). lia. }
  apply NoDup_alt. intros i j x Hi Hj. apply list_lookup_fmap_Some in Hi as (a & -> & Ha), Hj as (b & Eb & Hb).
  apply lookup_seqZ in Ha as [-> Ha], Hb as [-> Hb].
  set (x := ptr + Z.of_nat i) in *. set (y := ptr + Z.of_nat j) in *. unfold phys_byte in Eb.
  pose proof (Hal _ (Hpage x) (Hin x ltac:(lia))) as Ax. pose proof (Hal _ (Hpage y) (Hin y ltac:(lia))) as Ay.
  pose proof (Z.mod_pos_bound x 0x1000). pose proof (Z.mod_pos_bound y 0x1000).
  pose proof (Z.div_mod (fr (x - x mod 0x1000)) 0x1000). pose proof (Z.div_mod (fr (y - y mod 0x1000)) 0x1000).
  assert (x mod 0x1000 = y mod 0x1000) by lia.
  assert (x - x mod 0x1000 = y - y mod 0x1000) by (apply Hinj; [apply Hpage|apply Hpage|apply Hin; lia|apply Hin; lia|lia]).
  unfold x, y in *. lia.
Qed.

(** Reading through a table of frames [fr]. *)
Lemma Port_read_frames address_of fr fuel self d sector n ptr len :
  (limit < fuel)%nat → hba_idle d → port_ok self → 0 < n ≤ MAX_SECTORS → 512 * n ≤ len →
  0 ≤ sector → sector + n ≤ size → size ≤ 2 ^ 24 → (∀ s, length (sectors s) = 512%nat) →
  0 ≤ ptr → ptr mod 2 = 0 → ptr + 512 * n + 0x2000 ≤ u64_lim →
  (∀ v, v mod 0x1000 = 0 → ptr - ptr mod 0x1000 ≤ v < ptr + 512 * n → page_mapped address_of fr v) →
  (∀ v v', v mod 0x1000 = 0 → v' mod 0x1000 = 0 → ptr - ptr mod 0x1000 ≤ v < ptr + 512 * n →
     ptr - ptr mod 0x1000 ≤ v' < ptr + 512 * n → fr v = fr v' → v = v') →
  ∃ self' d', Port_read address_of fuel self d sector n (ptr, len) = Done (Some tt, (self', d')) ∧
    port_ok self' ∧ hba_idle d' ∧
    (∀ i, 0 ≤ i < 512 * n → hba_mem d' (phys_byte fr (ptr + i)) = concat (sectors <$> seqZ sector n) !!! Z.to_nat i) ∧
    (∀ x, (∀ i, 0 ≤ i < 512 * n → x ≠ phys_byte fr (ptr + i)) → hba_mem d' x = hba_mem d x).
Proof.
  intros Hfuel Hd Hok Hn Hlen Hs Hss Hsz Hsec Hp Hp2 Hlim Hmap Hinj. pose proof Hok as (Hl & Ht & Htl & Hta). unfold MAX_SECTORS, PRDT_LENGTH in Hn.
  cbn in Hn. unfold Port_read. rewrite (proj2 (Z.ltb_ge _ _)) by (unfold MAX_SECTORS, PRDT_LENGTH; lia). rewrite bind_ret.
  cbn [snd fst]. rewrite (proj2 (Z.leb_le _ _)) by lia. cbn [assert_]. rewrite bind_ret.
  destruct fuel as [|fuel]; [lia|]. destruct (find_slot_idle fuel d Hd) as (d1 & -> & Hd1 & Hm1). rewrite bind_ret.
  destruct (lookup_lt_is_Some_2 (cmd_list self) 0) as [h Eh]; [lia|].
  destruct (lookup_lt_is_Some_2 (cmd_tables self) 0) as [t Et]; [lia|].
  rewrite (proj2 (index_Done _ _ _) Eh), bind_ret, (proj2 (index_Done _ _ _) Et), bind_ret. arith_keep.
  destruct (build_prdt_ok address_of fr (prdt_entry t) ptr (512 * n)) as (prdt & k & L & -> & Hc & HL & Hor); try lia.
  { by apply (Forall_lookup_1 _ _ _ _ Htl Et). }
  { rewrite <- Zmult_mod_idemp_l. done. }
  { done. }
  rewrite bind_ret. destruct (wait_not_busy_idle (Z.to_nat 100000) d1 Hd1) as (d2 & -> & Hd2 & Hm2).
  destruct (Z.to_nat 100000) as [|sp] eqn:Esp; [lia|].
  set (h' := mkHeader (FIS_SIZE / 4) false (Z.of_nat k) (command_table_base_address h)).
  set (t' := mkTable (read_fis sector n) prdt). set (self' := mkPort _ _ _).
  assert (Hrr : read_request h' t' sector n).
  { split; cbn [h' t' command_fis prdt_length prdt_entry]; rewrite ?Nat2Z.id.
    - done.
    - done.
    - rewrite fis_lba_read by (unfold u64_lim; lia). rewrite Z.mod_small, (Z.div_small sector), Z.mod_0_l by lia. lia.
    - apply read_fis_count. lia.
    - apply Hc.
    - rewrite (cv_addrs _ _ _ _ _ Hc), length_fmap, length_seqZ. pose proof (cv_pos _ _ _ _ _ Hc). lia. }
  assert (Hok' : port_ok self').
  { split_and!; cbn [self' cmd_list cmd_tables tables_addr]; [by rewrite length_insert..| |].
    - apply Forall_insert; [done|]. apply Hc.
    - intros i hi [(<- & <- & _)|[_ Hi]]%list_lookup_insert_Some; [exact (Hta 0%nat h Eh)|by apply Hta]. }
  destruct (idle_issue d2 0 (cmd_list self') (table_at self') h' t' sector n) as (kk & Hkk & Hb); try done; try lia.
  { cbn. apply list_lookup_insert_eq. lia. }
  { rewrite (table_at_slot self' 0 h' Hok'); cbn [self' cmd_list cmd_tables]; apply list_lookup_insert_eq; lia. }
  destruct (wait_done_busy kk (S fuel) 0 _ _ Hb) as (d3 & -> & Hd3 & Hm3); [lia|]. rewrite bind_ret.
  destruct (idle_read d3 RInterruptStatus Hd3) as (is_ & d4 & -> & Hd4 & Hm4 & _ & _ & Hv).
  change (Z.shiftl 1 30) with (2 ^ 30). rewrite Hv by done. cbn [Z.ltb Z.compare].
  exists self', d4. split; [done|]. split; [done|]. split; [done|]. cbn [h' t' prdt_length prdt_entry] in Hm3. rewrite Nat2Z.id, (cv_addrs _ _ _ _ _ Hc) in Hm3.
  assert (Hbytes : length (concat (sectors <$> seqZ sector n)) = Z.to_nat (512 * n)).
  { assert (Hl512 : ∀ l, length (concat (sectors <$> l)) = (512 * length l)%nat).
    { intros l. induction l as [|x l IH]; [done|]. cbn [fmap list_fmap concat length]. rewrite length_app, Hsec.
      change (list_fmap Z (list Z) sectors l) with (sectors <$> l). rewrite IH. lia. }
    rewrite Hl512, length_seqZ. lia. }
  assert (Hpg : ∀ v, v mod 0x1000 = 0 → v < ptr + L → v < ptr + 512 * n).
  { intros v Hv0 Hvr. destruct Hor as [->|Hor]; [done|]. pose proof (Z.div_mod v 0x1000). pose proof (Z.div_mod ptr 0x1000).
    pose proof (Z.mod_pos_bound ptr 0x1000). lia. }
  assert (Hnd : NoDup (phys_byte fr <$> seqZ ptr L)).
  { apply phys_bytes_NoDup; [intros v v' ? ? ? ? ?; apply Hinj; auto; split; try lia; by apply Hpg; lia|].
    intros v Hv0 Hvr. destruct (Hmap v) as (_ & _ & ?); [done| |done]. split; [lia|]. by apply Hpg; lia. }
  rewrite Hm4, Hm3, Hm2, Hm1. split.
  - intros i Hi. eapply (store_at_in _ _ _ (Z.to_nat i)); [done| |].
    + rewrite list_lookup_fmap, lookup_seqZ_lt by lia. cbn. do 3 f_equal. lia.
    + apply list_lookup_lookup_total_lt. lia.
  - intros x Hx. apply store_at_out. intros Hin. apply list_elem_of_lookup in Hin as (i & Hi).
    apply lookup_take_Some in Hi as [Hi Hil]. apply list_lookup_fmap_Some in Hi as (a & -> & Ha).
    apply lookup_seqZ in Ha as [-> Ha]. apply (Hx (Z.of_nat i)); [lia|done].
Qed.
End read.

(** Memory as a task sees it: its page tables send page [v] to the frame [fr v]. *)
Definition buffer_mapped (m : PMem) (t : Z) (fr : Z → Z) (v : Z) : Prop :=
  v ≠ 0 ∧ canonical v ∧ phys_page_ok Size4KB (fr v) ∧
  ∃ e flags, translate 3 m t v = Some (O, e) ∧ mapped_to Size4KB flags (fr v) e.

(** C17: reading up to 56 sectors into a mapped buffer succeeds on a port that meets
    the AHCI specification: the scatter list the driver builds from the task's page
    tables makes the controller write the sectors, in order, to the bytes the task
    sees in its buffer, and to no other byte of memory.  The controller finds the command
    table where the slot's header says it is.  The disk has at most 2^24 sectors (8 GiB):
    the driver loses bits 24 to 31 of the sector's number ([lba_bits_dropped]). *)
Theorem Port_read_spec {D} `{!Hba D} sectors size limit `{!HbaSpec D sectors size limit}
    off m t fr self d sector n ptr len :
  offset_ok off → Forall frame_ok (tables 3 m t) →
  hba_idle d → port_ok self → 0 < n ≤ MAX_SECTORS → 512 * n ≤ len →
  0 ≤ sector → sector + n ≤ size → size ≤ 2 ^ 24 → (∀ s, length (sectors s) = 512%nat) →
  0 ≤ ptr → ptr mod 2 = 0 → ptr + 512 * n + 0x2000 ≤ u64_lim →
  (∀ v, v mod 0x1000 = 0 → ptr - ptr mod 0x1000 ≤ v < ptr + 512 * n → buffer_mapped m t fr v) →
  (∀ v v', v mod 0x1000 = 0 → v' mod 0x1000 = 0 → ptr - ptr mod 0x1000 ≤ v < ptr + 512 * n →
     ptr - ptr mod 0x1000 ≤ v' < ptr + 512 * n → fr v = fr v' → v = v') →
  ∃ self' d', Port_read (Mapper_address_of off Size4KB 3 m t) (S limit) self d sector n (ptr, len) =
      Done (Some tt, (self', d')) ∧
    port_ok self' ∧ hba_idle d' ∧
    (∀ i, 0 ≤ i < 512 * n → hba_mem d' (phys_byte fr (ptr + i)) = concat (sectors <$> seqZ sector n) !!! Z.to_nat i) ∧
    (∀ x, (∀ i, 0 ≤ i < 512 * n → x ≠ phys_byte fr (ptr + i)) → hba_mem d' x = hba_mem d x).
Proof.
  intros Hoff Htab Hd Hself Hn Hlen Hs Hss Hsz Hsec Hp Hp2 Hlim Hmap Hinj.
  apply (Port_read_frames sectors size limit); try done; [lia|].
  intros v Hv Hr. destruct (Hmap v Hv Hr) as (Hv0 & Hcan & Hpp & e & flags & Htr & Hmt).
  split; [|destruct Hpp as [? ?]; split; [lia|done]]. unfold page_phys.
  assert (0 ≤ v < u64_lim) by (pose proof (Z.mod_pos_bound ptr 0x1000); pose proof (Z.div_mod ptr 0x1000); pose proof (Z.div_pos ptr 0x1000); lia).
  rewrite (proj2 (Page_new_Done Size4KB v (mkPage v) ltac:(done)) ltac:(done)), bind_ret.
  pose proof (address_of_mapped off Size4KB m t v (fr v) flags e Hoff Htab Hpp Htr Hmt) as Ha.
  change (steps4 Size4KB) with 3%nat in Ha. by rewrite Ha.
Qed.

(** *** A port with a disk of 100 sectors *)
Record DemoPort := mkDemo { dp_mem : Z → Z; dp_pending : option (nat * (Z → Z) * nat) }.
Definition demo_sectors (s : Z) : list Z := replicate 512 (s mod 256).

#[export] Instance demo_hba : Hba DemoPort := {
  hba_read d r :=
    match r, dp_pending d with
    | RCommandIssue, Some (slot, m, O) => (0, mkDemo m None)
    | RCommandIssue, Some (slot, m, S k) => (Z.shiftl 1 (Z.of_nat slot), mkDemo (dp_mem d) (Some (slot, m, k)))
    | _, _ => (0, d)
    end;
  hba_write d r v := d;
  hba_issue d v hs ts :=
    let slot := Z.to_nat (Z.log2 v) in
    match hs !! slot, h ← hs !! slot; ts (command_table_base_address h) with
    | Some h, Some t =>
        let f := command_fis t in
        let as_ := addrs (regions (Z.to_nat (prdt_length h)) (prdt_entry t)) in
        mkDemo (dp_mem d)
          (Some (slot, store_at (dp_mem d) as_ (concat (demo_sectors <$> seqZ (fis_lba f) (countl f + 2 ^ 8 * counth f))), 2%nat))
    | _, _ => d
    end;
  hba_mem := dp_mem;
}.

#[export] Instance demo_hba_spec : HbaSpec DemoPort demo_sectors 100 2.
Proof.
  refine {| hba_idle := λ d, dp_pending d = None; hba_busy := λ slot m k d, dp_pending d = Some (slot, m, k) |}.
  - intros d r Hd. exists 0, d. split; [destruct r; cbn; by rewrite ?Hd|]. split_and!; done.
  - intros d slot hs ts h t lba n Hd Hslot Eh Et Hn Hl Hsz Hrr. exists 2%nat. split; [done|].
    assert (Hlog : Z.to_nat (Z.log2 (Z.shiftl 1 (Z.of_nat slot))) = slot).
    { rewrite Z.shiftl_1_l, Z.log2_pow2 by lia. lia. }
    cbn [hba_issue demo_hba]. rewrite Hlog, Eh. cbn [mbind option_bind]. rewrite Et. cbn [dp_pending]. do 3 f_equal. cbn [hba_mem].
    destruct Hrr as [_ _ El Ec _ _]. by rewrite El, Ec.
  - intros d slot m [|k] Hb; cbn; rewrite Hb.
    + exists 0, (mkDemo m None). by rewrite Z.land_0_l.
    + eexists _, _. split; [done|]. rewrite Z.land_diag, Z.shiftl_1_l. split; [lia|done].
  - intros d slot m k Hb. exists 0, d. by rewrite Z.land_0_l.
Defined.

Definition demo_port : Port :=
  mkPort ((λ i, mkHeader 0 false 0 (0x9000 + i * COMMAND_TABLE_SIZE)) <$> seqZ 0 32)
    (replicate 32 (mkTable (mkFis 0 false 0 0 0 0 0 0 0 0 0 0 0) (replicate 8 (mkPrd 0 0)))) 0x9000.

Lemma demo_port_ok : port_ok demo_port.
Proof.
  split; [done|]. split; [done|]. split; [by apply Forall_replicate|]. intros i h. cbn [demo_port cmd_list].
  intros (a & -> & [-> _]%lookup_seqZ)%list_lookup_fmap_Some. done.
Qed.

(** Two sectors into the middle of a page that is mapped to the frame [0x7000]. *)
Lemma Port_read_spec_witness :
  ∃ self' d', Port_read (Mapper_address_of PhysMapOffset Size4KB 3 demo_mapped 0x5000) 3 demo_port
      (mkDemo (λ _, 7) None) 20 2 (0x400200, 1024) = Done (Some tt, (self', d')) ∧
    hba_mem d' 0x7200 = 20 ∧ hba_mem d' 0x75FF = 21 ∧ hba_mem d' 0x7600 = 7.
Proof.
  assert (Hpg : ∀ v, v mod 0x1000 = 0 → 0x400200 - 0x400200 mod 0x1000 ≤ v < 0x400200 + 512 * 2 → v = 0x400000).
  { intros v Hv Hr. change (0x400200 mod 0x1000) with 0x200 in Hr. pose proof (Z.div_mod v 0x1000). lia. }
  destruct (Port_read_spec demo_sectors 100 2 PhysMapOffset demo_mapped 0x5000 (λ _, 0x7000) demo_port
    (mkDemo (λ _, 7) None) 20 2 0x400200 1024) as (self' & d' & E & _ & _ & Hin & Hout).
  - exact phys_map_offset_ok.
  - rewrite demo_mapped_tables. repeat (apply Forall_cons; split; [done|]). done.
  - done.
  - exact demo_port_ok.
  - unfold MAX_SECTORS, PRDT_LENGTH. lia.
  - lia.
  - lia.
  - lia.
  - lia.
  - intros s. unfold demo_sectors. apply length_replicate.
  - lia.
  - done.
  - unfold u64_lim. lia.
  - intros v Hv Hr. rewrite (Hpg v Hv Hr). split; [done|]. split; [left; lia|]. split; [done|].
    exists (mkPDE true true true false false false false false false 0 7), flags_all. split; [vm_compute; done|done].
  - intros v v' Hv Hv' Hr Hr' _. by rewrite (Hpg v Hv Hr), (Hpg v' Hv' Hr').
  - exists self', d'. split; [exact E|]. split_and!.
    + exact (Hin 0 ltac:(lia)).
    + exact (Hin 1023 ltac:(lia)).
    + apply (Hout 0x7600). intros i Hi. unfold phys_byte.
      assert (Hm : (0x400200 + i) mod 0x1000 = 0x200 + i)
        by (symmetry; apply (Z.mod_unique _ _ 0x400); lia). lia.
Defined.
