(* ===== verification/Shell.v ===== *)
(** * The shell

    [terminal/src/main.rs] (decoding key events, editing a line with its history, and
    the commands), [add_path] and the client calls of [kernel_userspace/src/fs.rs],
    and [backoff_sleep] of [kernel_userspace/src/lib.rs].

    A string is the list of its code points.  A call of the file-system service is the
    query it runs ([Fat.run_fs_query]); messages arrive as lists of events. *)
From S2P Require Import Prelude Keyboard Ps2 Text Fat.

(** The code points of an ASCII literal. *)
Definition str (s : string) : list Z := (λ a, Z.of_nat (Ascii.nat_of_ascii a)) <$> String.list_ascii_of_string s.

(** ** Paths *)
Definition DOT : list Z := str ".".
Definition DOTDOT : list Z := str "..".

Definition non_empty (l : list (list Z)) : list (list Z) := filter (λ s, s ≠ []) l.

(** [Vec::pop] *)
Definition pop_last {A} (l : list A) : list A := take (length l - 1) l.

Definition path_step (path : list (list Z)) (sect : list Z) : list (list Z) :=
  if bool_decide (sect = []) || bool_decide (sect = DOT) then path
  else if bool_decide (sect = DOTDOT) then pop_last path
  else path ++ [sect].

(** [path.join("/")] *)
Fixpoint join (l : list (list Z)) : list Z :=
  match l with [] => [] | [s] => s | s :: l => s ++ SLASH :: join l end.

Definition add_path (folder file : list Z) : list Z :=
  match file with
  | c :: _ => if c =? SLASH then file
              else SLASH :: join (foldl path_step (non_empty (split_on SLASH folder)) (split_on SLASH file))
  | [] => SLASH :: join (foldl path_step (non_empty (split_on SLASH folder)) (split_on SLASH file))
  end.

(** ** [backoff_sleep]: the times it sleeps while [f] keeps failing *)
Fixpoint backoff_times (n : nat) (time : Z) : outcome (list Z) :=
  match n with
  | O => Done []
  | S n => t ← add_u64 time 1; l ← backoff_times n (Z.max 10 t); Done (time :: l)
  end.

(** ** Keys *)
Record KBInputDecoder := mkDecoder { lshift : bool; rshift : bool; caps_lock : bool; num_lock : bool }.
Definition KBInputDecoder_new : KBInputDecoder := mkDecoder false false false false.

(** One turn of the loop of [next]: the character, when there is one. *)
Definition decode_event (d : KBInputDecoder) (ev : InputServiceMessage) : outcome (option Z * KBInputDecoder) :=
  match ev with
  | MKeyboardEvent (Up (KModifier key)) =>
      Done (None, match key with
        | Modifier.LeftShift => mkDecoder false (rshift d) (caps_lock d) (num_lock d)
        | Modifier.RightShift => mkDecoder (lshift d) false (caps_lock d) (num_lock d)
        | _ => d
        end)
  | MKeyboardEvent (Up _) => Done (None, d)
  | MKeyboardEvent (Down (KModifier key)) =>
      Done (None, match key with
        | Modifier.LeftShift => mkDecoder true (rshift d) (caps_lock d) (num_lock d)
        | Modifier.RightShift => mkDecoder (lshift d) true (caps_lock d) (num_lock d)
        | Modifier.CapsLock => mkDecoder (lshift d) (rshift d) (negb (caps_lock d)) (num_lock d)
        | Modifier.NumLock => mkDecoder (lshift d) (rshift d) (caps_lock d) (negb (num_lock d))
        | _ => d
        end)
  | MKeyboardEvent (Down letter) => Done (Some (get_unicode letter (lshift d) (rshift d) (caps_lock d) (num_lock d)), d)
  | MMouseEvent _ => Panic PUnreachable
  end.

(** [KBInputDecoder::next] on the events received so far: [None] when it waits for
    more. *)
Fixpoint decoder_next (d : KBInputDecoder) (evs : list InputServiceMessage)
  : outcome (option (Z * list InputServiceMessage) * KBInputDecoder) :=
  match evs with
  | [] => Done (None, d)
  | ev :: evs =>
      '(o, d) ← decode_event d ev;
      match o with Some c => Done (Some (c, evs), d) | None => decoder_next d evs end
  end.

(** ** Editing a line *)
Definition NEWLINE : Z := 10.
Definition BACKSPACE : Z := 8.
Definition ARROW_DOWN : Z := 0x2193.
Definition ARROW_UP : Z := 0x2191.
Definition HISTORY_MAX : nat := 1000.

(** The line, how far back in the history it is, the history (newest first) and what
    has been printed since the prompt. *)
Record Editor := mkEditor { curr_line : list Z; history_pos : nat; input_history : list (list Z); printed : list Z }.

(** [while curr_line.pop().is_some() { print!("\x08") }] *)
Definition erase (line : list Z) : list Z := replicate (length line) BACKSPACE.

(** [input_history.push_front(line)], and [pop_back] above a thousand. *)
Definition push_history (h : list (list Z)) (line : list Z) : list (list Z) :=
  let h := line :: h in if (HISTORY_MAX <? length h)%nat then pop_last h else h.

(** A character: [true] when the line is finished. *)
Definition edit (e : Editor) (c : Z) : bool * Editor :=
  let 'mkEditor line pos hist out := e in
  if c =? NEWLINE then
    (true, mkEditor line pos (match line with [] => hist | _ => push_history hist line end) (out ++ [NEWLINE]))
  else if c =? BACKSPACE then
    (false, match line with
            | [] => e
            | _ => mkEditor (pop_last line) pos hist (out ++ [BACKSPACE])
            end)
  else if c =? ARROW_DOWN then
    let pos := (pos - 1)%nat in
    let out := out ++ erase line in
    (false, match pos with
            | O => mkEditor [] pos hist out
            | S p => match hist !! p with
                     | Some chr => mkEditor chr pos hist (out ++ chr)
                     | None => mkEditor [] pos hist out
                     end
            end)
  else if c =? ARROW_UP then
    (false, match hist !! pos with
            | Some chr => mkEditor chr (S pos) hist (out ++ erase line ++ chr)
            | None => e
            end)
  else (false, mkEditor (line ++ [c]) pos hist (out ++ [c])).

(** The characters of one line, up to and with the new line; [None] when it is not
    finished yet. *)
Fixpoint edit_line (e : Editor) (cs : list Z) : option (Editor * list Z) :=
  match cs with
  | [] => None
  | c :: cs => let '(fin, e) := edit e c in if fin then Some (e, cs) else edit_line e cs
  end.

(** A new prompt. *)
Definition new_line (hist : list (list Z)) : Editor := mkEditor [] 0 hist [].

(** ** Commands *)
Definition SPACE : Z := 32.

(** [str::split_once] *)
Fixpoint split_once (sep : Z) (l : list Z) : option (list Z * list Z) :=
  match l with
  | [] => None
  | c :: l => if c =? sep then Some ([], l) else '(a, b) ← split_once sep l; Some (c :: a, b)
  end.

(** [curr_line.trim().split_once(' ').unwrap_or((curr_line.as_str(), ""))] *)
Definition parse_command (line : list Z) : list Z * list Z := default (line, []) (split_once SPACE (trim line)).

(** [str::split_ascii_whitespace] *)
Definition is_ascii_whitespace (c : Z) : bool := (c =? 32) || (c =? 9) || (c =? 10) || (c =? 12) || (c =? 13).
Fixpoint split_ascii_whitespace_from (w : list Z) (l : list Z) : list (list Z) :=
  match l with
  | [] => match w with [] => [] | _ => [w] end
  | c :: l =>
      if is_ascii_whitespace c then match w with [] => split_ascii_whitespace_from [] l | _ => w :: split_ascii_whitespace_from [] l end
      else split_ascii_whitespace_from (w ++ [c]) l
  end.
Definition split_ascii_whitespace (l : list Z) : list (list Z) := split_ascii_whitespace_from [] l.

Definition to_digit (c : Z) : option Z := if (48 <=? c) && (c <=? 57) then Some (c - 48) else None.

(** [str::parse::<u64>] *)
Fixpoint digits (acc : Z) (l : list Z) : option Z :=
  match l with
  | [] => Some acc
  | c :: l => d ← to_digit c; let acc := acc * 10 + d in if acc <? u64_lim then digits acc l else None
  end.

Definition parse_u64 (l : list Z) : option Z :=
  match l with
  | [] => None
  | c :: l' => if c =? 43 then match l' with [] => None | _ => digits 0 l' end else digits 0 l
  end.

(** What a command prints or asks for. *)
Inductive Output :=
  | OText (s : list Z)                      (* a line of text *)
  | ORaw (bytes : list Z)                   (* bytes of a file *)
  | OChildren (c : gset (list Z))           (* one line each *)
  | ODisks (d : gset Z)
  | OError (e : FSServiceError)
  | OParseError
  | OSleep (ms : Z)
  | OSpawn (elf args : list Z).

Record ShellState := mkShell { cwd : list Z; partiton_id : Z; fs : Mounts }.

Section commands.
(** The fuel of the directory walk, and the service's scratch buffer. *)
Context (fuel : nat) (scratch : list Z).

(** The client calls of [kernel_userspace::fs]. *)
Definition stat (m : Mounts) (disk : Z) (path : list Z) : outcome (result StatResponse FSServiceError * Mounts) :=
  '(r, m) ← run_fs_query fuel m (RunStat disk path) scratch;
  match r with
  | Err e => Done (Err e, m)
  | Ok (RespStat s) => Done (Ok s, m)
  | Ok _ => Panic PUnreachable
  end.

Definition client_read (m : Mounts) (q : FSServiceMessage) : outcome (result (option (list Z)) FSServiceError * Mounts) :=
  '(r, m) ← run_fs_query fuel m q scratch;
  match r with
  | Err e => Done (Err e, m)
  | Ok (RespRead None _) => Done (Ok None, m)
  | Ok (RespRead (Some _) (Some data)) => Done (Ok (Some data), m)
  | Ok (RespRead (Some _) None) => Panic PIndex
  | Ok _ => Panic PUnreachable
  end.

Definition shell_read_sector (m : Mounts) (disk node sector : Z) := client_read m (ReadRequest disk node sector).
Definition read_full_file (m : Mounts) (disk node : Z) := client_read m (ReadFullFileRequest disk node).

Definition get_disks (m : Mounts) : outcome (gset Z * Mounts) :=
  '(r, m) ← run_fs_query fuel m GetDisksRequest scratch;
  match r with
  | Ok (RespDisks d) => Done (d, m)
  | Err _ => Panic PUnwrap
  | Ok _ => Panic PUnreachable
  end.

(** The sectors of one file of [cat]. *)
Fixpoint cat_sectors (m : Mounts) (disk node : Z) (sectors : list Z) : outcome (list Output * Mounts) :=
  match sectors with
  | [] => Done ([], m)
  | i :: sectors =>
      '(r, m) ← shell_read_sector m disk node (i mod u32_lim);
      match r with
      | Err e => Done ([OError e], m)
      | Ok None => Done ([OText (str "Error reading")], m)
      | Ok (Some data) => '(out, m) ← cat_sectors m disk node sectors; Done (ORaw data :: out, m)
      end
  end.

Fixpoint cat (cwd : list Z) (disk : Z) (m : Mounts) (files : list (list Z)) : outcome (list Output * Mounts) :=
  match files with
  | [] => Done ([], m)
  | file :: files =>
      '(r, m) ← stat m disk (add_path cwd file);
      match r with
      | Err e => Done ([OError e], m)
      | Ok (StatFolder _ _) => '(out, m) ← cat cwd disk m files; Done (OText (str "Not a file") :: out, m)
      | Ok (StatFile node size) =>
          '(out1, m) ← cat_sectors m disk node (seqZ 0 (size / 512));
          '(out2, m) ← cat cwd disk m files;
          Done (out1 ++ out2, m)
      end
  end.

Definition disk_command (s : ShellState) (rest : list Z) : outcome (list Output * ShellState) :=
  match head (trim rest) ≫= to_digit with
  | Some n =>
      '(r, m) ← stat (fs s) n [SLASH];
      Done (match r with
            | Ok (StatFile _ _) => ([OText (str "cd: cannot cd into a file")], mkShell (cwd s) (partiton_id s) m)
            | Ok (StatFolder _ _) => ([], mkShell (cwd s) n m)
            | Err e => ([OError e], mkShell (cwd s) (partiton_id s) m)
            end)
  | None => '(d, m) ← get_disks (fs s); Done ([OText (str "Drives:"); ODisks d], mkShell (cwd s) (partiton_id s) m)
  end.

(** [exec] up to the call that starts the program. *)
Definition exec_command (s : ShellState) (rest : list Z) : outcome (list Output * ShellState) :=
  let '(prog, args) := default (rest, []) (split_once SPACE rest) in
  '(r, m) ← stat (fs s) (partiton_id s) (add_path (cwd s) prog);
  match r with
  | Ok (StatFolder _ _) => Done ([OText (str "Not a file")], mkShell (cwd s) (partiton_id s) m)
  | Err e => Done ([OError e], mkShell (cwd s) (partiton_id s) m)
  | Ok (StatFile node _) =>
      '(r, m) ← read_full_file m (partiton_id s) node;
      let s := mkShell (cwd s) (partiton_id s) m in
      Done (OText (str "READING...") ::
            match r with
            | Ok (Some c) => [OText (str "SPAWNING..."); OSpawn c args]
            | Ok None => [OText (str "Failed to read file")]
            | Err e => [OError e]
            end, s)
  end.

Definition run_command (s : ShellState) (line : list Z) : outcome (list Output * ShellState) :=
  let '(command, rest) := parse_command line in
  let with_fs m := mkShell (cwd s) (partiton_id s) m in
  if bool_decide (command = []) then Done ([], s)
  else if bool_decide (command = str "pwd") then Done ([OText (cwd s)], s)
  else if bool_decide (command = str "echo") then Done ([OText rest], s)
  else if bool_decide (command = str "disk") then disk_command s rest
  else if bool_decide (command = str "ls") then
    '(r, m) ← stat (fs s) (partiton_id s) (add_path (cwd s) rest);
    Done ([match r with
           | Ok (StatFile _ _) => OText (str "This is a file")
           | Ok (StatFolder _ c) => OChildren c
           | Err e => OError e
           end], with_fs m)
  else if bool_decide (command = str "cd") then Done ([], mkShell (add_path (cwd s) rest) (partiton_id s) (fs s))
  else if bool_decide (command = str "cat") then
    '(out, m) ← cat (cwd s) (partiton_id s) (fs s) (split_ascii_whitespace rest); Done (out, with_fs m)
  else if bool_decide (command = str "exec") then exec_command s rest
  else if bool_decide (command = str "sleep") then
    Done ([match parse_u64 rest with Some n => OSleep n | None => OParseError end], s)
  else if bool_decide (command = str "test") then Done ([OText (str "Passed test")], s)
  else Done ([OText (command ++ str ": command not found")], s).
End commands.

(** ** Paths are resolved component by component *)
Definition comps (path : list Z) : list (list Z) := non_empty (split_on SLASH path).

Definition is_absolute (path : list Z) : bool := bool_decide (head path = Some SLASH).

(** A component that names an entry of a folder. *)
Definition plain (s : list Z) : Prop := s ≠ [] ∧ s ≠ DOT ∧ s ≠ DOTDOT ∧ SLASH ∉ s.

Lemma split_on_no_sep l : Forall (λ s, SLASH ∉ s) (split_on SLASH l).
Proof.
  induction l as [|c l IH]; cbn [split_on]; [by repeat constructor; set_solver|].
  destruct (Z.eqb_spec c SLASH) as [->|Hc]; [by constructor; [set_solver|]|].
  destruct (split_on SLASH l) as [|s ss]; [by repeat constructor; set_solver|].
  inversion IH; subst. constructor; [set_solver|done].
Qed.

Lemma split_on_plain s : SLASH ∉ s → split_on SLASH s = [s].
Proof.
  induction s as [|c s IH]; intros Hs; [done|]. cbn [split_on].
  rewrite (proj2 (Z.eqb_neq c SLASH)) by set_solver. by rewrite IH by set_solver.
Qed.

Lemma split_on_app s l : SLASH ∉ s → split_on SLASH (s ++ SLASH :: l) = s :: split_on SLASH l.
Proof.
  induction s as [|c s IH]; intros Hs; [done|]. cbn [split_on app].
  rewrite (proj2 (Z.eqb_neq c SLASH)) by set_solver. by rewrite IH by set_solver.
Qed.

Lemma comps_join l : Forall (λ s, s ≠ [] ∧ SLASH ∉ s) l → comps (SLASH :: join l) = l.
Proof.
  intros Hl. unfold comps. change (split_on SLASH (SLASH :: join l)) with ([] :: split_on SLASH (join l)).
  unfold non_empty. rewrite filter_cons_False by tauto. induction Hl as [|s l [Hs Hsl] Hl IH]; [done|].
  destruct l as [|s2 l].
  - cbn [join]. rewrite (split_on_plain s Hsl). by rewrite filter_cons_True.
  - change (join (s :: s2 :: l)) with (s ++ SLASH :: join (s2 :: l)). rewrite (split_on_app s _ Hsl).
    rewrite filter_cons_True by done. by rewrite IH.
Qed.

Lemma pop_last_Forall {A} (P : A → Prop) l : Forall P l → Forall P (pop_last l).
Proof. apply Forall_take. Qed.

Lemma path_step_Forall (P : list Z → Prop) l sect :
  Forall P l → (sect ≠ [] → sect ≠ DOT → sect ≠ DOTDOT → P sect) → Forall P (path_step l sect).
Proof.
  intros Hl Hs. unfold path_step. repeat case_bool_decide; cbn; try done; [by apply pop_last_Forall|].
  apply Forall_app. split; [done|]. constructor; [by apply Hs|done].
Qed.

Lemma path_steps_Forall (P : list Z → Prop) sects : ∀ l,
  Forall P l → Forall (λ s, s ≠ [] → s ≠ DOT → s ≠ DOTDOT → P s) sects → Forall P (foldl path_step l sects).
Proof.
  induction sects as [|s sects IH]; intros l Hl Hs; [done|]. inversion Hs; subst. cbn.
  apply IH; [|done]. by apply path_step_Forall.
Qed.

(** [add_path] gives an absolute path: of a relative path the components are
    followed from those of the folder, empty ones and [.] skipped and [..] going up
    (staying at the root there), and none of them is left when the folder's path had
    none; an absolute path is taken as it is. *)
Theorem add_path_spec folder file :
  is_absolute (add_path folder file) = true ∧
  (is_absolute file = true → add_path folder file = file) ∧
  (is_absolute file = false →
     comps (add_path folder file) = foldl path_step (comps folder) (split_on SLASH file) ∧
     (Forall plain (comps folder) → Forall plain (comps (add_path folder file)))).
Proof.
  assert (Hc : Forall (λ s, s ≠ [] ∧ SLASH ∉ s) (comps folder)).
  { apply Forall_forall. intros s [Hs Hin]%list_elem_of_filter. split; [done|].
    by apply (proj1 (Forall_forall _ _) (split_on_no_sep folder)). }
  set (l := foldl path_step (comps folder) (split_on SLASH file)).
  assert (Hl : Forall (λ s, s ≠ [] ∧ SLASH ∉ s) l).
  { apply path_steps_Forall; [done|]. eapply Forall_impl; [apply split_on_no_sep|]. naive_solver. }
  assert (Hrel : is_absolute file = false → add_path folder file = SLASH :: join l).
  { unfold is_absolute, add_path. fold (comps folder). destruct file as [|c file]; [done|]. cbn [head].
    intros Hh%bool_decide_eq_false. rewrite (proj2 (Z.eqb_neq c SLASH)); [done|congruence]. }
  assert (Habs : is_absolute file = true → add_path folder file = file).
  { unfold is_absolute, add_path. destruct file as [|c file]; [done|]. intros [= ->]%bool_decide_eq_true. by rewrite Z.eqb_refl. }
  split; [|split; [done|]].
  - destruct (is_absolute file) eqn:E; [by rewrite Habs|]. by rewrite Hrel.
  - intros E. rewrite (Hrel E). rewrite (comps_join l Hl). split; [done|]. intros Hp. apply path_steps_Forall; [done|].
    eapply Forall_impl; [apply split_on_no_sep|]. unfold plain. naive_solver.
Qed.

Lemma add_path_spec_witness :
  add_path (str "/a/b") (str "../c/./d") = str "/a/c/d" ∧ Forall plain (comps (add_path (str "/a/b") (str "../c/./d"))).
Proof.
  split; [reflexivity|]. apply (add_path_spec (str "/a/b") (str "../c/./d")); [reflexivity|].
  change (comps (str "/a/b")) with [str "a"; str "b"]. repeat constructor; vm_compute; set_solver.
Defined.

(** ** What is on the screen is the line *)

(** Reading back what was printed: a backspace takes the last character away. *)
Definition replay (out : list Z) : list Z :=
  foldl (λ shown c, if c =? BACKSPACE then pop_last shown else shown ++ [c]) [] out.

Definition clean (s : list Z) : Prop := Forall (λ c, c ≠ BACKSPACE ∧ c ≠ NEWLINE) s.

Definition replay_from (shown out : list Z) : list Z :=
  foldl (λ shown c, if c =? BACKSPACE then pop_last shown else shown ++ [c]) shown out.

Lemma replay_app a b : replay (a ++ b) = replay_from (replay a) b.
Proof. apply foldl_app. Qed.

Lemma replay_from_clean s : ∀ shown, clean s → replay_from shown s = shown ++ s.
Proof.
  induction s as [|c s IH]; intros shown Hs; [by rewrite app_nil_r|]. inversion Hs as [|? ? [Hb _] Hs']; subst. unfold replay_from.
  cbn [foldl]. rewrite (proj2 (Z.eqb_neq _ _) Hb). fold (replay_from (shown ++ [c]) s). rewrite IH by done.
  by rewrite <- app_assoc.
Qed.

Lemma pop_last_app {A} (l : list A) x : pop_last (l ++ [x]) = l.
Proof. unfold pop_last. rewrite length_app. cbn. replace (length l + 1 - 1)%nat with (length l) by lia. apply take_app_length. Qed.

Lemma replay_from_erase line : ∀ shown, replay_from (shown ++ line) (erase line) = shown.
Proof.
  induction line as [|c line IH] using rev_ind; intros shown; [by rewrite app_nil_r|].
  unfold erase. rewrite length_app. cbn [length]. rewrite Nat.add_1_r. cbn [replicate]. unfold replay_from. cbn [foldl].
  rewrite Z.eqb_refl, app_assoc, pop_last_app. apply IH.
Qed.

Record editor_ok (hist : list (list Z)) (e : Editor) : Prop := {
  eo_line : clean (curr_line e);
  eo_hist : input_history e = hist;
  eo_shown : replay (printed e) = curr_line e;
}.

Definition edits (e : Editor) (cs : list Z) : Editor := foldl (λ e c, snd (edit e c)) e cs.

Lemma clean_pop s : clean s → clean (pop_last s).
Proof. apply Forall_take. Qed.

Lemma edit_ok hist e c :
  Forall clean hist → editor_ok hist e → c ≠ NEWLINE → editor_ok hist (snd (edit e c)).
Proof.
  intros Hh [Hl He Hs] Hc. destruct e as [line pos h out]. cbn [curr_line input_history printed] in *. subst h. unfold edit.
  rewrite (proj2 (Z.eqb_neq _ _) Hc).
  assert (Her : replay (out ++ erase line) = []).
  { rewrite replay_app, Hs. apply (replay_from_erase line []). }
  destruct (Z.eqb_spec c BACKSPACE) as [->|Hb].
  - destruct (decide (line = [])) as [->|Hne]; [by split|]. destruct line as [|c0 line]; [done|].
    split; cbn [snd curr_line input_history printed]; [by apply clean_pop|done|].
    rewrite replay_app, Hs. done.
  - destruct (Z.eqb_spec c ARROW_DOWN).
    + destruct (pos - 1)%nat as [|p]; [by split; [constructor|done|exact Her]|].
      destruct (hist !! p) as [chr|] eqn:E; [|by split; [constructor|done|exact Her]].
      assert (Hchr : clean chr) by by apply (Forall_lookup_1 _ _ _ _ Hh E).
      split; [done|done|]. cbn [snd printed curr_line]. rewrite replay_app, Her. by apply (replay_from_clean chr []).
    + destruct (Z.eqb_spec c ARROW_UP).
      * destruct (hist !! pos) as [chr|] eqn:E; [|by split].
        assert (Hchr : clean chr) by by apply (Forall_lookup_1 _ _ _ _ Hh E).
        split; [done|done|]. cbn [snd printed curr_line]. rewrite app_assoc, replay_app, Her. by apply (replay_from_clean chr []).
      * split; [|done|]; cbn [snd printed curr_line].
        -- apply Forall_app. split; [done|]. by repeat constructor.
        -- rewrite replay_app, Hs. rewrite replay_from_clean; [done|]. by repeat constructor.
Qed.

Lemma edits_ok hist cs : ∀ e,
  Forall clean hist → editor_ok hist e → NEWLINE ∉ cs → editor_ok hist (edits e cs).
Proof.
  induction cs as [|c cs IH]; intros e Hh He Hn; [done|]. cbn. apply IH; [done| |set_solver].
  apply edit_ok; [done..|set_solver].
Qed.

Lemma push_history_clean h line : Forall clean h → clean line → Forall clean (push_history h line).
Proof. intros Hh Hl. unfold push_history. destruct (_ <? _)%nat; [apply Forall_take|]; by constructor. Qed.

Lemma push_history_length h line : (length h ≤ HISTORY_MAX)%nat → (length (push_history h line) ≤ HISTORY_MAX)%nat.
Proof.
  intros Hh. unfold push_history, pop_last. destruct (Nat.ltb_spec HISTORY_MAX (length (line :: h))); [|done].
  rewrite length_take. cbn in *. lia.
Qed.

(** Whatever keys are pressed (text, backspaces, arrows through the history), what
    was printed since the prompt, read back with its backspaces, is the line being
    edited; with the new line the line is the newest entry of the history unless it
    is empty, the history keeps at most a thousand entries, and the invariant holds
    for the next prompt. *)
Theorem editor_echo hist cs :
  Forall clean hist → (length hist ≤ HISTORY_MAX)%nat → NEWLINE ∉ cs →
  let e := edits (new_line hist) cs in
  replay (printed e) = curr_line e ∧ clean (curr_line e) ∧
  ∃ e', edit_line (new_line hist) (cs ++ [NEWLINE]) = Some (e', []) ∧ curr_line e' = curr_line e ∧
    input_history e' = (match curr_line e with [] => hist | _ => push_history hist (curr_line e) end) ∧
    Forall clean (input_history e') ∧ (length (input_history e') ≤ HISTORY_MAX)%nat.
Proof.
  intros Hh Hlen Hn e. assert (Hok : editor_ok hist e) by (apply edits_ok; [done|split; [constructor|done|done]|done]).
  destruct Hok as [Hl He Hs]. split; [done|]. split; [done|].
  assert (Hline : ∀ cs e0, NEWLINE ∉ cs → edit_line e0 (cs ++ [NEWLINE]) = Some (snd (edit (edits e0 cs) NEWLINE), [])).
  { clear. induction cs as [|c cs IH]; intros e0 Hn.
    - cbn. unfold edit. destruct e0. by rewrite Z.eqb_refl.
    - cbn [edit_line app edits foldl]. destruct (edit e0 c) as [fin e1] eqn:E. cbn [snd].
      assert (fin = false) as ->; [|apply IH; set_solver]. unfold edit in E. destruct e0.
      rewrite (proj2 (Z.eqb_neq c NEWLINE)) in E by set_solver.
      repeat (case_match; simplify_eq; try done). }
  rewrite (Hline cs _ Hn). fold e. destruct e as [line pos h out]. cbn in He, Hl |- *. subst h.
  eexists. split; [done|]. cbn [curr_line input_history]. split; [done|]. split; [done|].
  destruct line as [|c0 line]; [done|]. split; [by apply push_history_clean|by apply push_history_length].
Qed.

Lemma editor_echo_witness :
  let cs := str "lx" ++ [BACKSPACE; 115; ARROW_UP; ARROW_DOWN; 97] in
  replay (printed (edits (new_line [str "pwd"]) cs)) = str "a".
Proof.
  destruct (editor_echo [str "pwd"] (str "lx" ++ [BACKSPACE; 115; ARROW_UP; ARROW_DOWN; 97])) as [H _].
  - repeat constructor; done.
  - unfold HISTORY_MAX. cbn. lia.
  - vm_compute. set_solver.
  - exact H.
Defined.

(** ** Behaviour of note *)

(** A command line with blanks before a lone command is not found. *)
Lemma leading_blank_not_found fuel scratch s :
  run_command fuel scratch s (str " pwd") = Done ([OText (str " pwd: command not found")], s).
Proof. reflexivity. Qed.

(** [cat] reads [file_size / 512] sectors: of a file of fewer than 512 bytes nothing is
    shown, and of any other the end after the last full sector is not. *)
Lemma cat_drops_tail fuel scratch cwd disk m file node size m' :
  stat fuel scratch m disk (add_path cwd file) = Done (Ok (StatFile node size), m') → 0 ≤ size < 512 →
  cat fuel scratch cwd disk m [file] = Done ([], m').
Proof. intros E Hs. cbn [cat]. rewrite E, bind_ret. rewrite Z.div_small by lia. done. Qed.

(** [backoff_sleep] goes from 1 ms to 10 ms and from there up without a bound. *)
Lemma backoff_unbounded n : Z.of_nat n < 2 ^ 32 → backoff_times (S n) 1 = Done (1 :: seqZ 10 (Z.of_nat n)).
Proof.
  assert (Hgen : ∀ n t, 10 ≤ t → t + Z.of_nat n < u64_lim → backoff_times n t = Done (seqZ t (Z.of_nat n))).
  { clear. induction n as [|n IH]; intros t Ht Hb; [done|]. cbn [backoff_times]. arith_keep. rewrite Z.max_r by lia.
    rewrite IH by lia. rewrite (seqZ_cons t) by lia. cbn. do 3 f_equal; lia. }
  intros Hn. cbn [backoff_times]. arith_keep. rewrite Z.max_l by lia. rewrite Hgen by (unfold u64_lim; lia). done.
Qed.
