(* ===== verification/Services.v ===== *)
(** * Services: the name server and the service loop

    [init_handle_new_proc] and [work_on_chan] of [kernel/src/object.rs] (the name
    server every process can reach over its first handle), [Service] of
    [kernel_userspace/src/service.rs] (the loop of the other services), the read
    wrappers of [kernel_userspace/src/channel.rs] and the client side of
    [kernel_userspace/src/process.rs].

    A program sees the kernel's objects through its handles.  [View] is that sight:
    the messages waiting at each handle, the messages written, the waits registered
    at its port and the notifications that have come.  Channels behave as [Ipc] proves
    of the kernel's: a queue read from the front, where a message that does not fit the
    buffers stays, and which takes no message when the other end is gone or has
    [CHANNEL_CAPACITY] unread ones and one more.  The encoding of messages (the [postcard] crate) is a parameter. *)
From S2P Require Import Prelude.

Create HintDb view.

(** ** What a program sees of the kernel *)
Record Msg := mkMsg { m_data : list Z; m_handles : list Z }.

Record View := mkView {
  inbox : gmap Z (list Msg);        (* by handle *)
  closed : gset Z;                  (* handles whose other end is gone *)
  sent : list (Z * Msg);            (* accepted by the other end's queue, oldest first *)
  waits : list (Z * Z);             (* (handle, key) registered at the port *)
  events : list Z;                  (* keys of notifications not yet taken *)
  pairs : list (Z * Z);             (* channels created *)
  next_id : Z;                      (* the id of the next handle *)
  deleted : list Z;                 (* handles given up *)
  backlog : gmap Z Z;               (* by handle: messages not read yet at the other end *)
}.

Definition upd_inbox v i := mkView i (closed v) (sent v) (waits v) (events v) (pairs v) (next_id v) (deleted v) (backlog v).
Definition upd_sent v s := mkView (inbox v) (closed v) s (waits v) (events v) (pairs v) (next_id v) (deleted v) (backlog v).
Definition upd_waits v w := mkView (inbox v) (closed v) (sent v) w (events v) (pairs v) (next_id v) (deleted v) (backlog v).
Definition upd_events v e := mkView (inbox v) (closed v) (sent v) (waits v) e (pairs v) (next_id v) (deleted v) (backlog v).

Inductive ChannelReadResult :=
  | ReadOk (m : Msg)
  | ReadEmpty
  | ReadSize (data_len handles_len : Z)
  | ReadClosed.

(** [channel_read] with room for the given numbers of bytes and handles. *)
Definition channel_read (v : View) (h data_len handles_len : Z) : ChannelReadResult * View :=
  match inbox v !! h with
  | Some (m :: ms) =>
      let d := Z.of_nat (length (m_data m)) in
      let k := Z.of_nat (length (m_handles m)) in
      if (data_len <? d) || (handles_len <? k) then (ReadSize d k, v)
      else (ReadOk m, upd_inbox v (<[h := ms]> (inbox v)))
  | _ => (if bool_decide (h ∈ closed v) then ReadClosed else ReadEmpty, v)
  end.

(** [KChannelHandle::send], behind [channel_write]. *)
Definition CHANNEL_CAPACITY : Z := 10000.

Definition accepts (v : View) (h : Z) : bool :=
  negb (bool_decide (h ∈ closed v)) && negb (CHANNEL_CAPACITY <? default 0 (backlog v !! h)).

Definition channel_write (v : View) (h : Z) (m : Msg) : bool * View :=
  if accepts v h then
    (true, mkView (inbox v) (closed v) (sent v ++ [(h, m)]) (waits v) (events v) (pairs v) (next_id v) (deleted v)
             (<[h := default 0 (backlog v !! h) + 1]> (backlog v)))
  else (false, v).

(** The callers of [channel_write_rs] do not look at its result. *)
Definition channel_write_rs (v : View) (h : Z) (data handles : list Z) : View := snd (channel_write v h (mkMsg data handles)).

Definition channel_create_rs (v : View) : Z * Z * View :=
  (next_id v, next_id v + 1,
   mkView (inbox v) (closed v) (sent v) (waits v) (events v) (pairs v ++ [(next_id v, next_id v + 1)]) (next_id v + 2) (deleted v) (backlog v)).

Definition object_wait_port_rs (v : View) (h key : Z) : View := upd_waits v (waits v ++ [(h, key)]).

(** [KernelReference::drop] *)
Definition delete_reference (v : View) (h : Z) : View :=
  mkView (inbox v) (closed v) (sent v) (waits v) (events v) (pairs v) (next_id v) (deleted v ++ [h]) (backlog v).

(** [Vec::reserve] on a vector of bytes with [len] bytes and room for [cap]. *)
Definition reserve (cap len additional : Z) : Z :=
  if len + additional <=? cap then cap else Z.max (Z.max (2 * cap) (len + additional)) 8.

(** ** The name server *)
Inductive InitHandleMessage := GetHandle (name : list Z) | PublishHandle (name : list Z) | CloneInit.

(** The names published, and the connections by key. *)
Record NameServer := mkNS { refs : gmap (list Z) Z; chans : gmap Z Z }.

(** The key of [BTreeMap::last_key_value]. *)
Definition last_key {A} (m : gmap Z A) : option Z :=
  match elements (dom m) with [] => None | k :: l => Some (foldr Z.max k l) end.

Section name_server.
Context (deserialize : list Z → option InitHandleMessage).

(** What one message makes the server do: [None] when it gives the connection up. *)
Definition name_command (chan : Z) (handles_len : Z) (publisher : option Z) (msg : InitHandleMessage)
    (ns : NameServer) (v : View) : outcome (option (NameServer * View)) :=
  match msg with
  | GetHandle h =>
      match refs ns !! h with
      | Some handle =>
          let '(lh, rh, v) := channel_create_rs v in
          let v := channel_write_rs v handle [1] [lh] in
          let v := channel_write_rs v chan [1] [rh] in
          Done (Some (ns, delete_reference (delete_reference v rh) lh))
      | None => Done (Some (ns, channel_write_rs v chan [0] []))
      end
  | PublishHandle name =>
      if negb (handles_len =? 1) then Done None
      else
        publisher ← unwrap publisher;
        let old := refs ns !! name in
        let v := channel_write_rs v chan [if old then 1 else 0] [] in
        let v := match old with Some o => delete_reference v o | None => v end in
        Done (Some (mkNS (<[name := publisher]> (refs ns)) (chans ns), v))
  | CloneInit =>
      k ← unwrap (last_key (chans ns));
      id ← add_u64 k 1;
      let '(lh, rh, v) := channel_create_rs v in
      _ ← assert_ (bool_decide (chans ns !! id = None));
      let v := object_wait_port_rs v chan id in
      let v := channel_write_rs v chan [1] [rh] in
      Done (Some (mkNS (refs ns) (<[id := lh]> (chans ns)), delete_reference v rh))
  end.

(** The loop of [work_on_chan], with the buffer [data] of capacity [cap] and the
    handle read last. *)
Fixpoint work_loop (fuel : nat) (chan : Z) (data : list Z) (cap : Z) (publisher : option Z) (ns : NameServer) (v : View)
  : outcome (bool * NameServer * View) :=
  match fuel with
  | O => OutOfFuel
  | S fuel =>
      let go data cap handles_len publisher v :=
        match deserialize data with
        | None => Done (false, ns, v)
        | Some msg =>
            o ← name_command chan handles_len publisher msg ns v;
            match o with
            | Some (ns, v) => work_loop fuel chan data cap publisher ns v
            | None => Done (false, ns, v)
            end
        end in
      match channel_read v chan cap 1 with
      | (ReadOk m, v) =>
          go (m_data m) cap (Z.of_nat (length (m_handles m)))
             (match m_handles m with h :: _ => Some h | [] => publisher end) v
      | (ReadEmpty, v) => Done (true, ns, v)
      | (ReadSize d k, v) =>
          if 0x1000 <? d then Done (false, ns, v)
          else
            add ← sub_u64 d (Z.of_nat (length data));
            go data (reserve cap (Z.of_nat (length data)) add) k publisher v
      | (ReadClosed, v) => Done (false, ns, v)
      end
  end.

Definition work_on_chan (fuel : nat) (chan : Z) (ns : NameServer) (v : View) : outcome (bool * NameServer * View) :=
  work_loop fuel chan [] 100 None ns v.

(** The start of [init_handle_new_proc]. *)
Fixpoint name_server_start (i : Z) (channels : list Z) (v : View) : gmap Z Z * View :=
  match channels with
  | [] => (∅, v)
  | chan :: channels =>
      let '(m, v) := name_server_start (i + 1) channels (object_wait_port_rs v chan (i + 10)) in
      (<[i + 10 := chan]> m, v)
  end.

(** A turn of its loop, on the notification [key]. *)
Definition name_server_step (fuel : nat) (key : Z) (ns : NameServer) (v : View) : outcome (NameServer * View) :=
  chan ← unwrap (chans ns !! key);
  '(keep, ns, v) ← work_on_chan fuel chan ns v;
  if (keep : bool) then Done (ns, object_wait_port_rs v chan key)
  else
    Done (mkNS (refs ns) (delete key (chans ns)),
          match chans ns !! key with Some h => delete_reference v h | None => v end).
End name_server.

(** ** Clients *)
Definition REFERENCE_FIRST : Z := 1.

(** What [get_handle], [publish_handle] and [clone_init_service] make of the reply. *)
Definition get_handle_reply (m : Msg) : outcome (option Z) :=
  b ← index (m_data m) 0;
  if b =? 1 then h ← index (m_handles m) 0; Done (Some h) else Done None.
Definition publish_handle_reply (m : Msg) : outcome bool := b ← index (m_data m) 0; Done (b =? 1).
Definition clone_init_reply (m : Msg) : outcome Z := index (m_handles m) 0.

(** The read wrappers: [None] while they wait, else the result and the capacities
    their buffers have afterwards. *)
Definition channel_read_rs (v : View) (h cap hcap : Z) : option ChannelReadResult * View :=
  match channel_read v h cap hcap with
  | (ReadEmpty, v) => (None, v)
  | (r, v) => (Some r, v)
  end.

(** [data] and [handles] have [len] and [hlen] elements. *)
Definition channel_read_resize (v : View) (h cap len hcap hlen : Z) : option (ChannelReadResult * Z * Z) * View :=
  match channel_read v h cap hcap with
  | (ReadEmpty, v) => (None, v)
  | (ReadSize d k, v) =>
      let cap := if len <? d then reserve cap len (d - len) else cap in
      let hcap := if hlen <? k then reserve hcap hlen (k - hlen) else hcap in
      let '(r, v) := channel_read v h cap hcap in (Some (r, cap, hcap), v)
  | (r, v) => (Some (r, cap, hcap), v)
  end.

(** ** The service loop *)
Section service.
Context {C : Type}.

(** [Service<A, C, H>] with its port; the closures are arguments of [run]. *)
Record Service := mkService { accepting_channel : Z; customers : gmap Z (Z * C) }.

Definition Service_new (v : View) : Z * Service * View :=
  let '(service, sright, v) := channel_create_rs v in
  (sright, mkService service ∅, object_wait_port_rs v service 0).

Context {K : Type} (accepter : View → C * View) (handler : Z → C → K → View → outcome (bool * C * K * View)).

(** A turn of [run]'s loop on the event [key]; [st] is what the handler captures. *)
Definition service_step (s : Service) (key : Z) (st : K) (v : View) : outcome (Service * K * View) :=
  if key =? 0 then
    match channel_read_rs v (accepting_channel s) 100 1 with
    | (Some (ReadOk m), v) =>
        _ ← assert_ (length (m_handles m) =? 1)%nat;
        let v := object_wait_port_rs v (accepting_channel s) 0 in
        customer ← index (m_handles m) 0;
        id ← match last_key (customers s) with Some k => add_u64 k 1 | None => Done 1 end;
        let v := object_wait_port_rs v customer id in
        let '(c, v) := accepter v in
        Done (mkService (accepting_channel s) (<[id := (customer, c)]> (customers s)), st, v)
    | (Some _, _) => Panic PUnreachable
    | (None, _) => OutOfFuel
    end
  else
    '(h, c) ← unwrap (customers s !! key);
    '(continue, c, st, v) ← handler h c st v;
    if (continue : bool) then
      Done (mkService (accepting_channel s) (<[key := (h, c)]> (customers s)), st, object_wait_port_rs v h key)
    else Done (mkService (accepting_channel s) (delete key (customers s)), st, delete_reference v h).
End service.
Arguments Service C : clear implicits.

(** ** Writes

    How many more messages the other end of a handle takes, and what a write adds. *)
Definition free_slots (v : View) (h : Z) : nat :=
  if bool_decide (h ∈ closed v) then 0%nat else Z.to_nat (CHANNEL_CAPACITY + 1 - default 0 (backlog v !! h)).

Definition delivered (v : View) (h : Z) (m : Msg) : list (Z * Msg) := if accepts v h then [(h, m)] else [].

Lemma accepts_slots v h : accepts v h = (0 <? free_slots v h)%nat.
Proof.
  unfold accepts, free_slots. case_bool_decide; [done|]. cbn [negb andb].
  destruct (Z.ltb_spec CHANNEL_CAPACITY (default 0 (backlog v !! h))), (Nat.ltb_spec 0 (Z.to_nat (CHANNEL_CAPACITY + 1 - default 0 (backlog v !! h))));
    (done || (exfalso; lia)).
Qed.

Lemma accepts_true v h : (0 < free_slots v h)%nat → accepts v h = true.
Proof. intros. rewrite accepts_slots. by apply Nat.ltb_lt. Qed.

Lemma delivered_slots v h m : delivered v h m = take (free_slots v h) [(h, m)].
Proof. unfold delivered. rewrite accepts_slots. by destruct (free_slots v h) as [|[|]]. Qed.

Section write.
Context (v : View) (h : Z) (data handles : list Z).
#[local] Notation w := (channel_write_rs v h data handles).
Ltac write_frame := unfold channel_write_rs, channel_write; by destruct (accepts v h).

Lemma inbox_write : inbox w = inbox v. Proof. write_frame. Qed.
Lemma closed_write : closed w = closed v. Proof. write_frame. Qed.
Lemma waits_write : waits w = waits v. Proof. write_frame. Qed.
Lemma events_write : events w = events v. Proof. write_frame. Qed.
Lemma pairs_write : pairs w = pairs v. Proof. write_frame. Qed.
Lemma next_id_write : next_id w = next_id v. Proof. write_frame. Qed.
Lemma deleted_write : deleted w = deleted v. Proof. write_frame. Qed.
Lemma sent_write : sent w = sent v ++ delivered v h (mkMsg data handles).
Proof. unfold channel_write_rs, channel_write, delivered. destruct (accepts v h); cbn; [done|]. by rewrite app_nil_r. Qed.

Lemma slots_write h' : free_slots w h' = if decide (h = h') then pred (free_slots v h) else free_slots v h'.
Proof.
  unfold free_slots. rewrite closed_write. unfold channel_write_rs, channel_write. destruct (accepts v h) eqn:E; cbn [snd backlog].
  - destruct (decide (h = h')) as [<-|Hne]; [|by rewrite lookup_insert_ne]. rewrite lookup_insert_eq. cbn [default].
    apply andb_true_iff in E as [Hc Hb]. case_bool_decide; [done|]. cbn. lia.
  - destruct (decide (h = h')) as [<-|]; [|done]. rewrite accepts_slots in E. apply Nat.ltb_ge in E. unfold free_slots in E. lia.
Qed.
End write.

Lemma slots_delete v h h' : free_slots (delete_reference v h) h' = free_slots v h'.
Proof. done. Qed.

(** What changes neither the other ends nor their queues leaves the room. *)
Ltac slots_of v :=
  repeat match goal with
  | |- context [free_slots ?u ?h] =>
      lazymatch u with v => fail | channel_write_rs _ _ _ _ => fail | _ => progress change (free_slots u h) with (free_slots v h) end
  end.

#[export] Hint Rewrite inbox_write closed_write waits_write events_write pairs_write next_id_write deleted_write sent_write slots_write : view.

Lemma slots_open v h : free_slots v h ≠ 0%nat → h ∉ closed v.
Proof. unfold free_slots. by case_bool_decide. Qed.

(** ** Keys *)
Lemma foldr_max_spec l : ∀ k, (foldr Z.max k l = k ∨ foldr Z.max k l ∈ l) ∧ k ≤ foldr Z.max k l ∧ Forall (λ x, x ≤ foldr Z.max k l) l.
Proof.
  induction l as [|x l IH]; intros k; cbn; [by split_and!; [left|lia|]|].
  destruct (IH k) as (Hin & Hk & Hl). split_and!.
  - destruct (Z.max_spec x (foldr Z.max k l)) as [[_ ->]|[_ ->]]; [|right; left].
    destruct Hin as [Hin|?]; [by left|by right; right].
  - lia.
  - constructor; [lia|]. eapply Forall_impl; [done|]. intros y Hy. cbn in Hy. lia.
Qed.

Lemma last_key_Some {A} (m : gmap Z A) k : last_key m = Some k ↔ k ∈ dom m ∧ ∀ k', k' ∈ dom m → k' ≤ k.
Proof.
  unfold last_key. destruct (elements (dom m)) as [|x l] eqn:E.
  - split; [done|]. intros [Hk _]. apply elem_of_elements in Hk. rewrite E in Hk. by apply not_elem_of_nil in Hk.
  - assert (Hin : ∀ y, y ∈ dom m ↔ y ∈ x :: l) by (intros; by rewrite <- E, elem_of_elements).
    destruct (foldr_max_spec l x) as (Hmax & Hx & Hl).
    assert (Hub : ∀ y, y ∈ dom m → y ≤ foldr Z.max x l).
    { intros y Hy. apply Hin in Hy. apply elem_of_cons in Hy as [->|Hy]; [done|]. by apply (proj1 (Forall_forall _ _) Hl). }
    assert (Hmem : foldr Z.max x l ∈ dom m).
    { apply Hin. destruct Hmax as [->|?]; [left|by right]. }
    split.
    + intros [= <-]. done.
    + intros [Hk Hk']. f_equal. pose proof (Hub k Hk). pose proof (Hk' _ Hmem). lia.
Qed.

Lemma last_key_None {A} (m : gmap Z A) : last_key m = None ↔ m = ∅.
Proof.
  unfold last_key. destruct (elements (dom m)) as [|x l] eqn:E.
  - split; [|done]. intros _. apply elements_empty_iff, dom_empty_iff in E. by apply leibniz_equiv in E || done.
  - split; [done|]. intros ->. rewrite dom_empty_L, elements_empty in E. done.
Qed.

Lemma last_key_fresh {A} (m : gmap Z A) k : last_key m = Some k → m !! (k + 1) = None.
Proof.
  intros [_ Hk]%last_key_Some. apply not_elem_of_dom. intros H. specialize (Hk _ H). lia.
Qed.

(** ** One answer for every request *)
Section names.
Context (deserialize : list Z → option InitHandleMessage).

(** The abstract server: a table of names. *)
Definition learn (t : gmap (list Z) Z) (m : Msg) : gmap (list Z) Z :=
  match deserialize (m_data m), m_handles m with
  | Some (PublishHandle name), h :: _ => <[name := h]> t
  | _, _ => t
  end.

(** The first byte of the answer. *)
Definition answer (t : gmap (list Z) Z) (m : Msg) : Z :=
  match deserialize (m_data m) with
  | Some (GetHandle n) | Some (PublishHandle n) => if t !! n then 1 else 0
  | _ => 1
  end.

Fixpoint answers (t : gmap (list Z) Z) (ms : list Msg) : list Z :=
  match ms with [] => [] | m :: ms => answer t m :: answers (learn t m) ms end.

Definition request_ok (chan : Z) (m : Msg) : Prop :=
  Z.of_nat (length (m_data m)) ≤ 100 ∧
  match deserialize (m_data m) with
  | Some (PublishHandle _) => ∃ h, m_handles m = [h] ∧ h ≠ chan
  | Some _ => (length (m_handles m) ≤ 1)%nat
  | None => False
  end.

(** The first bytes of what was written to [chan]. *)
Definition replies (chan : Z) (l : list (Z * Msg)) : list Z :=
  (λ p, m_data p.2 !!! 0%nat) <$> filter (λ p, p.1 = chan) l.

Definition not_named (chan : Z) (ns : NameServer) : Prop := ∀ n h, refs ns !! n = Some h → h ≠ chan.

Definition keys_below (ns : NameServer) (n : Z) : Prop :=
  ∃ k, last_key (chans ns) = Some k ∧ 0 ≤ k ∧ k + n < u64_lim.

Lemma replies_app chan l1 l2 : replies chan (l1 ++ l2) = replies chan l1 ++ replies chan l2.
Proof. unfold replies. by rewrite filter_app, fmap_app. Qed.

Lemma replies_one chan v d hs : (0 < free_slots v chan)%nat → replies chan (delivered v chan (mkMsg d hs)) = [d !!! 0%nat].
Proof. intros Hr. unfold delivered, replies. rewrite accepts_true by done. by rewrite filter_cons_True. Qed.

Lemma replies_ne chan h v m : h ≠ chan → replies chan (delivered v h m) = [].
Proof. intros Hr. unfold delivered, replies. destruct (accepts v h); [|done]. by rewrite filter_cons_False. Qed.

Lemma name_command_ok chan m msg p ns v n :
  request_ok chan m → deserialize (m_data m) = Some msg → not_named chan ns → 0 ≤ n → keys_below ns (n + 1) →
  (0 < free_slots v chan)%nat →
  ∃ ns' v', name_command chan (Z.of_nat (length (m_handles m))) (match m_handles m with h :: _ => Some h | [] => p end) msg ns v =
      Done (Some (ns', v')) ∧
    refs ns' = learn (refs ns) m ∧ inbox v' = inbox v ∧ closed v' = closed v ∧
    free_slots v' chan = pred (free_slots v chan) ∧ not_named chan ns' ∧ keys_below ns' n ∧
    ∃ l, sent v' = sent v ++ l ∧ replies chan l = [answer (refs ns) m].
Proof.
  intros [_ Hreq] Hd Hnn Hn0 (k & Hk & Hk0 & Hkn) Hroom. unfold learn, answer. rewrite Hd in Hreq |- *.
  assert (Hk' : keys_below ns n) by (exists k; split_and!; [done|lia|lia]).
  destruct msg as [name|name|]; cbn [name_command].
  - destruct (refs ns !! name) as [h|] eqn:E.
    + assert (h ≠ chan) by by eapply Hnn.
      eexists ns, _. split; [done|]. cbn [inbox closed delete_reference sent]. rewrite !slots_delete.
      autorewrite with view. slots_of v. rewrite decide_True, decide_False by done. split_and!; try done.
      eexists. split; [by rewrite <- (assoc_L (++))|]. rewrite replies_app, (replies_ne _ h), replies_one; [done| |done].
      rewrite slots_write, decide_False by done. done.
    + eexists ns, _. split; [done|]. autorewrite with view. rewrite decide_True by done. split_and!; try done.
      eexists. split; [done|]. by apply replies_one.
  - destruct Hreq as (h & Eh & Hh). rewrite Eh. cbn [length Z.of_nat negb Z.eqb unwrap mbind outcome_bind].
    change (1 =? 1) with true. cbn [negb].
    eexists _, _. split; [done|]. split; [done|].
    assert (Hnn' : not_named chan (mkNS (<[name := h]> (refs ns)) (chans ns))).
    { intros n' h'. cbn. destruct (decide (name = n')) as [->|Hne]; [rewrite lookup_insert_eq; congruence|].
      rewrite lookup_insert_ne by done. apply Hnn. }
    destruct (refs ns !! name) as [o|] eqn:E; cbn [inbox closed delete_reference sent]; rewrite ?slots_delete; autorewrite with view;
      rewrite decide_True by done; (split_and!; try done; eexists; split; [done|by apply replies_one]).
  - rewrite Hk. cbn [unwrap]. rewrite bind_ret. arith_keep. rewrite ?bind_ret.
    unfold channel_create_rs at 1. cbv beta iota zeta. rewrite bool_decide_true by by apply last_key_fresh. cbn [assert_]. rewrite bind_ret.
    eexists _, _. split; [done|]. cbn [inbox closed delete_reference sent refs]. rewrite slots_delete. autorewrite with view. rewrite decide_True by done.
    split_and!; try done.
    + exists (k + 1). split_and!; [|lia|lia]. apply last_key_Some in Hk as [_ Hmax]. apply last_key_Some.
      cbn [chans]. rewrite dom_insert_L. split; [set_solver|]. intros k' [->%elem_of_singleton|Hk'']%elem_of_union; [lia|].
      specialize (Hmax _ Hk''). lia.
    + eexists. split; [done|]. by apply replies_one.
Qed.

Lemma work_loop_ok ms : ∀ fuel chan data p ns v,
  (length ms < fuel)%nat → default [] (inbox v !! chan) = ms → chan ∉ closed v → (length ms ≤ free_slots v chan)%nat →
  Forall (request_ok chan) ms → not_named chan ns → keys_below ns (Z.of_nat (length ms)) →
  ∃ ns' v', work_loop deserialize fuel chan data 100 p ns v = Done (true, ns', v') ∧
    refs ns' = foldl learn (refs ns) ms ∧ default [] (inbox v' !! chan) = [] ∧
    ∃ l, sent v' = sent v ++ l ∧ replies chan l = answers (refs ns) ms.
Proof.
  induction ms as [|m ms IH]; intros fuel chan data p ns v Hf Hin Hcl Hroom Hok Hnn Hk;
    (destruct fuel as [|fuel]; [cbn in Hf; lia|]); cbn [work_loop]; unfold channel_read.
  - exists ns, v. rewrite bool_decide_false by done.
    destruct (inbox v !! chan) as [[|x l]|] eqn:E; cbn in Hin; try done; (split; [done|]; split; [done|];
      split; [done|]; exists []; by rewrite app_nil_r).
  - destruct (inbox v !! chan) as [l|] eqn:E; cbn in Hin; [subst l|done]. inversion Hok as [|? ? Hm Hms]; subst.
    pose proof Hm as [Hlen Hreq].
    assert (Hhl : (length (m_handles m) ≤ 1)%nat).
    { destruct (deserialize (m_data m)) as [[]|]; try done. by destruct Hreq as (h & -> & _). }
    rewrite (proj2 (Z.ltb_ge _ _)) by lia. rewrite (proj2 (Z.ltb_ge _ _)) by lia. cbn [orb].
    destruct (deserialize (m_data m)) as [msg|] eqn:Ed; [|done].
    destruct (name_command_ok chan m msg p ns (upd_inbox v (<[chan := ms]> (inbox v))) (Z.of_nat (length ms)) Hm Ed Hnn)
      as (ns1 & v1 & -> & Er & Ei & Ecl & Efs & Hnn1 & Hk1 & l1 & Es1 & Hr1).
    { lia. }
    { destruct Hk as (k & ? & ? & ?). exists k. cbn [length] in *. split_and!; [done|lia|lia]. }
    { change (free_slots (upd_inbox v _) chan) with (free_slots v chan). cbn [length] in Hroom. lia. }
    change (free_slots (upd_inbox v _) chan) with (free_slots v chan) in Efs. cbn [length] in Hroom.
    rewrite bind_ret.
    destruct (IH fuel chan (m_data m) (match m_handles m with h :: _ => Some h | [] => p end) ns1 v1)
      as (ns2 & v2 & E2 & Er2 & Ei2 & l2 & Es2 & Hr2); try done.
    { cbn in Hf. lia. }
    { rewrite Ei. cbn [inbox upd_inbox]. by rewrite lookup_insert_eq. }
    { by rewrite Ecl. }
    { lia. }
    exists ns2, v2. split; [done|]. cbn [foldl answers]. rewrite <- Er. split; [done|]. split; [done|].
    exists (l1 ++ l2). split; [rewrite Es2, Es1; cbn; by rewrite app_assoc|]. by rewrite replies_app, Hr1, Hr2.
Qed.

(** C30: the name server is a table of names.  Requests of at most 100 bytes, with the one
    handle that a request to publish needs and at most one otherwise, that wait on an open
    connection are taken in order until there are none; the server remembers for every name
    the handle it was published with last, and answers each of them exactly once, in order,
    saying whether the name is known (for a request to look it up) or was taken (for one to
    publish it), as long as the client leaves room for the answers.  What becomes of other
    requests is below. *)
Theorem name_server_refines_table chan ns v ms :
  inbox v !! chan = Some ms → chan ∉ closed v → (length ms ≤ free_slots v chan)%nat → Forall (request_ok chan) ms →
  not_named chan ns → keys_below ns (Z.of_nat (length ms)) →
  ∃ ns' v' l, work_on_chan deserialize (S (length ms)) chan ns v = Done (true, ns', v') ∧
    refs ns' = foldl learn (refs ns) ms ∧ default [] (inbox v' !! chan) = [] ∧
    sent v' = sent v ++ l ∧ replies chan l = answers (refs ns) ms.
Proof.
  intros Hin Hcl Hroom Hok Hnn Hk.
  destruct (work_loop_ok ms (S (length ms)) chan [] None ns v) as (ns' & v' & E & Er & Ei & l & Es & Hr); try done; [lia|by rewrite Hin|].
  by exists ns', v', l.
Qed.
End names.

(** *** An encoding, and three requests on one connection *)
Definition demo_deserialize (l : list Z) : option InitHandleMessage :=
  match l with
  | 0 :: n :: s => if Z.of_nat (length s) =? n then Some (GetHandle s) else None
  | 1 :: n :: s => if Z.of_nat (length s) =? n then Some (PublishHandle s) else None
  | [2] => Some CloneInit
  | _ => None
  end.

Definition demo_requests : list Msg := [mkMsg [0; 1; 70] []; mkMsg [1; 1; 70] [33]; mkMsg [0; 1; 70] []].
Definition demo_view : View := mkView {[ 5 := demo_requests ]} ∅ [] [] [] [] 40 [] ∅.
Definition demo_ns : NameServer := mkNS ∅ {[ 10 := 5 ]}.

Lemma name_server_refines_table_witness :
  ∃ ns' v' l, work_on_chan demo_deserialize 4 5 demo_ns demo_view = Done (true, ns', v') ∧
    refs ns' = {[ [70] := 33 ]} ∧ sent v' = l ∧ replies 5 l = [0; 0; 1].
Proof.
  destruct (name_server_refines_table demo_deserialize 5 demo_ns demo_view demo_requests)
    as (ns' & v' & l & E & Er & _ & Es & Hr).
  - reflexivity.
  - set_solver.
  - unfold free_slots. rewrite bool_decide_eq_false_2 by apply not_elem_of_empty. unfold CHANNEL_CAPACITY. cbn [demo_requests length demo_view backlog]. rewrite lookup_empty. cbn [default]. lia.
  - constructor; [|constructor; [|constructor; [|constructor]]]; (split; [cbn; lia|]).
    + change (0 ≤ 1)%nat. lia.
    + exists 33. done.
    + change (0 ≤ 1)%nat. lia.
  - intros n h H. cbn [refs demo_ns] in H. by apply lookup_empty_Some in H.
  - exists 10. split; [reflexivity|]. unfold u64_lim. split; [lia|]. change (Z.of_nat (length demo_requests)) with 3. lia.
  - exists ns', v', l. split; [exact E|]. split; [exact Er|]. split; [exact Es|exact Hr].
Defined.

(** ** Where the name server goes wrong *)

(** A request to clone the connection registers the old connection under the key of
    the new one: the server is not told when a message comes on the new one. *)
Lemma clone_registers_old_handle chan hl p ns v k :
  last_key (chans ns) = Some k → 0 ≤ k → k + 1 < u64_lim →
  ∃ ns' v', name_command chan hl p CloneInit ns v = Done (Some (ns', v')) ∧
    chans ns' !! (k + 1) = Some (next_id v) ∧ waits v' = waits v ++ [(chan, k + 1)].
Proof.
  intros Hk Hk0 Hlim. cbn [name_command]. rewrite Hk. cbn [unwrap]. rewrite bind_ret. arith_keep. rewrite ?bind_ret.
  unfold channel_create_rs. cbv beta iota zeta. rewrite bool_decide_true by by apply last_key_fresh. cbn [assert_]. rewrite bind_ret.
  eexists _, _. split; [done|]. cbn [chans waits delete_reference]. by rewrite lookup_insert_eq, waits_write.
Qed.

(** A message of more than a hundred bytes is not read: after growing the buffer the
    loop goes on with what was in it before, and gives the connection up. *)
Lemma large_request_drops_connection deserialize fuel chan ns v m ms :
  deserialize [] = None → inbox v !! chan = Some (m :: ms) → 100 < Z.of_nat (length (m_data m)) ≤ 0x1000 →
  work_on_chan deserialize (S fuel) chan ns v = Done (false, ns, v).
Proof.
  intros Hd Hin Hlen. unfold work_on_chan. cbn [work_loop]. unfold channel_read. rewrite Hin.
  rewrite (proj2 (Z.ltb_lt 100 _)) by lia. cbn [orb]. rewrite (proj2 (Z.ltb_ge 0x1000 _)) by lia. cbn [length Z.of_nat].
  arith_keep. rewrite ?bind_ret. by rewrite Hd.
Qed.

(** A request that fits, followed by a shorter message with two handles, makes the
    length computation of the next round overflow: the server panics. *)
Lemma two_handles_panic :
  work_on_chan demo_deserialize 3 5 demo_ns
    (mkView {[ 5 := [mkMsg [0; 1; 70] []; mkMsg [2] [41; 42]] ]} ∅ [] [] [] [] 40 [] ∅) = Panic POverflow.
Proof. reflexivity. Qed.

(** ** No customer is forgotten *)
Section customers.
Context {C K : Type} (accepter : View → C * View) (handler : Z → C → K → View → outcome (bool * C * K * View)).

(** The closures leave the port alone. *)
Hypothesis accepter_port : ∀ v c v', accepter v = (c, v') → waits v' = waits v ∧ events v' = events v.
Hypothesis handler_port : ∀ h c st v b c' st' v', handler h c st v = Done (b, c', st', v') → waits v' = waits v ∧ events v' = events v.

(** A wait fires, something arrives, or the service takes the next event, whatever its
    handler captures at that time. *)
Inductive svc_step : Service C * View → Service C * View → Prop :=
  | svc_notify s v l1 h k l2 :
      waits v = l1 ++ (h, k) :: l2 →
      svc_step (s, v) (s, upd_events (upd_waits v (l1 ++ l2)) (events v ++ [k]))
  | svc_arrive s v v' :
      waits v' = waits v → events v' = events v → svc_step (s, v) (s, v')
  | svc_serve s v k es st s' st' v' :
      events v = k :: es → service_step accepter handler s k st (upd_events v es) = Done (s', st', v') →
      svc_step (s, v) (s', v').

(** Every customer, and the accepting channel, is waited for or has an event, once. *)
Record svc_ok (s : Service C) (v : View) : Prop := {
  so_keys : (waits v).*2 ++ events v ≡ₚ 0 :: elements (dom (customers s));
  so_pos : ∀ k, k ∈ dom (customers s) → 0 < k;
  so_wait : ∀ h k, (h, k) ∈ waits v → k ≠ 0 → ∃ c, customers s !! k = Some (h, c);
  so_accept : ∀ h, (h, 0) ∈ waits v → h = accepting_channel s;
}.

Lemma svc_ok_key s v k : svc_ok s v → k ∈ events v → k ≠ 0 → is_Some (customers s !! k).
Proof using.
  intros [Hk _ _ _] Hin Hne. apply elem_of_dom, elem_of_elements.
  assert (k ∈ 0 :: elements (dom (customers s))) as Hin'; [|by apply elem_of_cons in Hin' as [->|?]].
  rewrite <- Hk. apply elem_of_app. by right.
Qed.

Lemma elements_dom_insert (m : gmap Z (Z * C)) k x :
  m !! k = None → elements (dom (<[k := x]> m)) ≡ₚ k :: elements (dom m).
Proof using.
  intros Hk. rewrite dom_insert_L. apply elements_union_singleton. by apply not_elem_of_dom.
Qed.

Lemma service_step_ok s v k es st s' st' v' :
  svc_ok s v → events v = k :: es → service_step accepter handler s k st (upd_events v es) = Done (s', st', v') →
  svc_ok s' v' ∧ accepting_channel s' = accepting_channel s.
Proof using accepter_port handler_port.
  intros [Hk Hp Hw Hacc] Hev E. rewrite Hev in Hk. unfold service_step in E.
  assert (Hk' : (waits v).*2 ++ es ≡ₚ if decide (k = 0) then elements (dom (customers s))
                else 0 :: elements (dom (delete k (customers s)))).
  { rewrite <- Permutation_middle in Hk. destruct (decide (k = 0)) as [->|Hne]; [by apply (inj (cons 0)) in Hk|].
    assert (is_Some (customers s !! k)) as [x Hx].
    { apply elem_of_dom, elem_of_elements. assert (k ∈ 0 :: elements (dom (customers s))) as Hin; [|by apply elem_of_cons in Hin as [->|?]].
      rewrite <- Hk. left. }
    rewrite <- (insert_delete_id _ _ _ Hx), elements_dom_insert in Hk by apply lookup_delete_eq.
    rewrite (Permutation_swap k 0) in Hk || rewrite Permutation_swap in Hk. by apply (inj (cons k)) in Hk. }
  destruct (Z.eqb_spec k 0) as [->|Hne].
  - rewrite decide_True in Hk' by done.
    destruct (channel_read_rs _ _ _ _) as [[[m| |? ?|]|] v1] eqn:Er; try done.
    assert (Hv1 : waits v1 = waits v ∧ events v1 = es).
    { unfold channel_read_rs, channel_read in Er. repeat case_match; simplify_eq; done. }
    destruct Hv1 as [Hw1 He1]. inv_outcome. destruct (accepter _) as [c v2] eqn:Ea. inv_outcome.
    apply accepter_port in Ea as [Ew Ee]. cbn [waits events object_wait_port_rs upd_waits] in Ew, Ee. rewrite Hw1 in Ew.
    assert (Hfresh : customers s !! x1 = None ∧ 0 < x1).
    { destruct (last_key (customers s)) as [k|] eqn:El; [apply chk_Done in H1 as [-> _]|injection H1 as <-];
        [split; [by apply last_key_fresh|]|].
      - apply last_key_Some in El as [El _]. specialize (Hp _ El). lia.
      - apply last_key_None in El as ->. split; [apply lookup_empty|lia]. }
    destruct Hfresh as [Hf Hf0]. split; [|done]. split; cbn [customers accepting_channel].
    + rewrite Ew, Ee, elements_dom_insert by done. rewrite !fmap_app. cbn [fmap list_fmap snd].
      rewrite <- !(assoc_L (++)). cbn [app]. rewrite <- !Permutation_middle, Hk'. apply Permutation_swap || done.
    + intros k' Hk1. apply elem_of_dom in Hk1 as [y Hy]. destruct (decide (k' = x1)) as [->|]; [done|].
      rewrite lookup_insert_ne in Hy by done. apply Hp, elem_of_dom. eauto.
    + intros h k' Hin Hk0. rewrite Ew in Hin. rewrite !elem_of_app, !list_elem_of_singleton in Hin.
      destruct Hin as [[Hin|[= -> ->]]|[= -> ->]]; [|done|rewrite lookup_insert_eq; eauto].
      destruct (Hw _ _ Hin Hk0) as [c' Hc']. exists c'. rewrite lookup_insert_ne by congruence. done.
    + intros h Hin. rewrite Ew, !elem_of_app, !list_elem_of_singleton in Hin.
      destruct Hin as [[Hin|[= ->]]|[= _ <-]]; [by apply Hacc|done|lia].
  - rewrite decide_False in Hk' by done. inv_outcome. destruct x as [h c]. inv_outcome.
    destruct x as [[[b c'] st1] v1]. apply handler_port in H0 as [Ew Ee]. cbn [waits events upd_events] in Ew, Ee.
    assert (Hdel : ∀ h' k', (h', k') ∈ waits v → k' ≠ k).
    { intros h' k' Hin ->. assert (Hk2 : k ∈ (waits v).*2 ++ es) by (apply elem_of_app; left; apply list_elem_of_fmap; by exists (h', k)).
      rewrite Hk' in Hk2. apply elem_of_cons in Hk2 as [->|Hk2]; [done|]. apply elem_of_elements, elem_of_dom in Hk2 as [? Hk2].
      by rewrite lookup_delete_eq in Hk2. }
    destruct b; inv_outcome; (split; [|done]); split; cbn [customers accepting_channel waits events object_wait_port_rs upd_waits delete_reference].
    + rewrite Ew, fmap_app, <- (assoc_L (++)). cbn [fmap list_fmap snd app].
      rewrite <- Permutation_middle, Hk'. rewrite <- (insert_delete_eq (customers s) k), elements_dom_insert by apply lookup_delete_eq.
      apply Permutation_swap.
    + intros k' Hk1. apply elem_of_dom in Hk1 as [y Hy]. apply Hp. apply elem_of_dom.
      destruct (decide (k' = k)) as [->|]; [eauto|]. rewrite lookup_insert_ne in Hy by done. eauto.
    + intros h' k' Hin Hk0. rewrite Ew in Hin. apply elem_of_app in Hin as [Hin|[= -> ->]%list_elem_of_singleton].
      * rewrite lookup_insert_ne by (symmetry; by eapply Hdel). by apply Hw.
      * rewrite lookup_insert_eq. eauto.
    + intros h' Hin. rewrite Ew in Hin. apply elem_of_app in Hin as [Hin|[= -> <-]%list_elem_of_singleton]; [by apply Hacc|done].
    + rewrite Ew. exact Hk'.
    + intros k' Hk1. apply Hp. rewrite dom_delete_L in Hk1. set_solver.
    + intros h' k' Hin Hk0. rewrite Ew in Hin. rewrite lookup_delete_ne by (symmetry; by eapply Hdel). by apply Hw.
    + intros h' Hin. rewrite Ew in Hin. by apply Hacc.
Qed.

Lemma svc_step_ok x y : svc_step x y → svc_ok x.1 x.2 → svc_ok y.1 y.2 ∧ accepting_channel y.1 = accepting_channel x.1.
Proof using accepter_port handler_port.
  intros Hs Hok. destruct Hs as [s v l1 h k l2 E|s v v' Ew Ee|s v k es st s' st' v' Hev E]; cbn in *.
  - destruct Hok as [Hk Hp Hw Hacc]. split; [|done]. split; cbn [waits events upd_events upd_waits]; [|done| |].
    + rewrite <- Hk, E, !fmap_app, fmap_cons. cbn [snd]. solve_Permutation.
    + intros h' k' Hin. apply Hw. rewrite E. set_solver.
    + intros h' Hin. apply Hacc. rewrite E. set_solver.
  - destruct Hok as [Hk Hp Hw Hacc]. split; [|done]. split; [by rewrite Ew, Ee|done| |].
    + intros h k Hin. apply Hw. by rewrite <- Ew.
    + intros h Hin. apply Hacc. by rewrite <- Ew.
  - by eapply service_step_ok.
Qed.

(** C20: a service forgets no one: from its start, whatever arrives and in whatever
    order the waits fire, its accepting channel and every customer it has is either
    waited for at its port or has exactly one notification to be taken.  A wait under a
    customer's key is for that customer's own handle, and the wait under key 0 for the
    accepting channel the service was made with; every notification the service takes is
    for a customer it has. *)
Theorem service_forgets_no_one v0 sright s0 v1 s v :
  waits v0 = [] → events v0 = [] → Service_new v0 = (sright, s0, v1) → rtc svc_step (s0, v1) (s, v) →
  (waits v).*2 ++ events v ≡ₚ 0 :: elements (dom (customers s)) ∧
  accepting_channel s = next_id v0 ∧
  (∀ h k, (h, k) ∈ waits v → (k = 0 ∧ h = accepting_channel s) ∨ ∃ c, customers s !! k = Some (h, c)) ∧
  (∀ k, k ∈ events v → k ≠ 0 → is_Some (customers s !! k)).
Proof using accepter_port handler_port.
  intros Hw He Hnew Hsteps.
  assert (Hok : svc_ok s0 v1 ∧ accepting_channel s0 = next_id v0).
  { injection Hnew as _ <- <-. split; [|done]. split; cbn [waits events customers accepting_channel object_wait_port_rs upd_waits].
    - rewrite Hw, He, dom_empty_L, elements_empty. done.
    - rewrite dom_empty_L. set_solver.
    - rewrite Hw. cbn. intros h k [= -> ->]%list_elem_of_singleton. done.
    - rewrite Hw. cbn. by intros h [= ->]%list_elem_of_singleton. }
  assert (Hend : svc_ok s v ∧ accepting_channel s = next_id v0).
  { change (svc_ok (s, v).1 (s, v).2 ∧ accepting_channel (s, v).1 = next_id v0). clear Hnew.
    remember (s0, v1) as a. remember (s, v) as b. revert s0 v1 Heqa Hok.
    clear Hw He Heqb. induction Hsteps as [x|x y z Hxy Hyz IH]; intros s0 v1 -> Hok; [done|].
    destruct y as [s1 v2]. apply (IH s1 v2 eq_refl). destruct Hok as [Hok Hacc].
    destruct (svc_step_ok _ _ Hxy Hok) as [Hok' Hacc']. cbn in *. split; [done|congruence]. }
  destruct Hend as [Hend Hacc]. split_and!; [apply Hend|done| |intros k; by apply svc_ok_key].
  intros h k Hin. destruct (decide (k = 0)) as [->|Hk]; [left; split; [done|by apply Hend]|right; by apply Hend].
Qed.
End customers.

(** *** A service that takes its first customer *)
Definition demo_empty : View := mkView ∅ ∅ [] [] [] [] 7 [] ∅.
Definition demo_accept (v : View) : unit * View := (tt, v).
Definition demo_handle (h : Z) (c : unit) (st : unit) (v : View) : outcome (bool * unit * unit * View) := Done (true, c, st, v).

Definition demo_started : View := mkView ∅ ∅ [] [(7, 0)] [] [(7, 8)] 9 [] ∅.
Definition demo_asked : View := mkView {[ 7 := [mkMsg [1] [50]] ]} ∅ [] [(7, 0)] [] [(7, 8)] 9 [] ∅.
Definition demo_notified : View := mkView {[ 7 := [mkMsg [1] [50]] ]} ∅ [] [] [0] [(7, 8)] 9 [] ∅.
Definition demo_accepted : View := mkView (<[7 := []]> {[ 7 := [mkMsg [1] [50]] ]}) ∅ [] [(7, 0); (50, 1)] [] [(7, 8)] 9 [] ∅.

Lemma service_forgets_no_one_witness :
  [0; 1] ≡ₚ 0 :: elements (dom (<[1 := (50, tt)]> (∅ : gmap Z (Z * unit)))) ∧
  ((1 = 0 ∧ 50 = 7) ∨ ∃ c, (<[1 := (50, tt)]> (∅ : gmap Z (Z * unit))) !! 1 = Some (50, c)).
Proof.
  destruct (service_forgets_no_one demo_accept demo_handle
    ltac:(by intros v c v' [= _ <-]) ltac:(by intros h c st v b c' st' v' [= _ _ _ <-])
    demo_empty 8 (mkService 7 ∅) demo_started (mkService 7 (<[1 := (50, tt)]> ∅)) demo_accepted) as (H & _ & Hh & _).
  - reflexivity.
  - reflexivity.
  - reflexivity.
  - eapply (rtc_l _ _ (mkService 7 ∅, demo_asked)); [by apply svc_arrive|].
    eapply (rtc_l _ _ (mkService 7 ∅, demo_notified)); [exact (svc_notify _ _ _ demo_asked [] 7 0 [] eq_refl)|].
    eapply rtc_once. by apply (svc_serve _ _ _ demo_notified 0 [] tt _ tt).
  - split; [exact H|]. apply (Hh 50 1). right. left.
Defined.
