(* ===== verification/Daemons.v ===== *)
(** * The programs behind the services

    The handlers and event loops that the services of [Services] run: the file system
    ([file_handler] of [kernel/src/fs/mod.rs]), the network ([userspace_networking_main]
    of [kernel/src/net/ethernet.rs]), the card ([amd_pcnet/src/main.rs]), the PS/2 driver
    ([ps2/src/main.rs]) and the test service of [kernel/src/main.rs].  They see the kernel
    through the [View] of [Services] and act on the models of [Fat], [Net] and [Ps2]. *)
From S2P Require Import Prelude Keyboard Ps2 Fat Net Services Shell.

(** ** Encodings

    [postcard] writes and reads the messages of the services; reading back what was
    written gives the value. *)
Class Postcard (A : Type) := {
  to_bytes : A → list Z;
  from_bytes : list Z → option A;
  from_to a : from_bytes (to_bytes a) = Some a;
}.

(** An encoding of a countable type, to run the services with. *)
Definition countable_postcard {A} `{Countable A} : Postcard A.
Proof.
  refine {| to_bytes a := [Zpos (countable.encode a)]; from_bytes l := match l with [Zpos p] => countable.decode p | _ => None end |}.
  intros a. apply countable.decode_encode.
Defined.

(** A message that fits the buffers is taken. *)
Lemma read_fits v h cap hcap m ms :
  inbox v !! h = Some (m :: ms) → Z.of_nat (length (m_data m)) ≤ cap → Z.of_nat (length (m_handles m)) ≤ hcap →
  Services.channel_read_rs v h cap hcap = (Some (ReadOk m), upd_inbox v (<[h := ms]> (inbox v))).
Proof.
  intros Hin Hd Hh. unfold Services.channel_read_rs, Services.channel_read.
  by rewrite Hin, (proj2 (Z.ltb_ge _ _) Hd), (proj2 (Z.ltb_ge _ _) Hh).
Qed.

(** ** Writing to a list of listeners

    [channel_write_val] fails when the other end is gone or full; [retain] drops those
    handles. *)
Definition write_val (v : View) (h : Z) (data : list Z) : bool * View := channel_write v h (mkMsg data []).

Fixpoint notify_all (v : View) (data : list Z) (ls : list Z) : list Z * View :=
  match ls with
  | [] => ([], v)
  | l :: ls =>
      let '(ok, v) := write_val v l data in
      let v := if ok then v else Services.delete_reference v l in
      let '(rest, v) := notify_all v data ls in
      ((if ok then [l] else []) ++ rest, v)
  end.

Definition with_room (v : View) (ls : list Z) : list Z := filter (λ l, (0 < free_slots v l)%nat) ls.

Lemma filter_ext_in {A} (P Q : A → Prop) `{∀ x, Decision (P x), ∀ x, Decision (Q x)} (l : list A) :
  (∀ x, x ∈ l → P x ↔ Q x) → filter P l = filter Q l.
Proof.
  intros Hl. induction l as [|x l IH]; [done|]. rewrite !filter_cons, IH by (intros; apply Hl; by right).
  pose proof (Hl x ltac:(left)). do 2 case_decide; tauto.
Qed.

(** What one write of the loop leaves, and whether it kept the listener. *)
Lemma write_val_cases v l data :
  write_val v l data = ((0 <? free_slots v l)%nat, Services.channel_write_rs v l data []).
Proof. unfold write_val, Services.channel_write_rs. rewrite <- accepts_slots. unfold channel_write. by destruct (accepts v l). Qed.

Lemma notify_all_frame ls : ∀ v data ls' v', notify_all v data ls = (ls', v') →
  waits v' = waits v ∧ events v' = events v ∧ (length ls' ≤ length ls)%nat.
Proof.
  induction ls as [|l ls IH]; intros v data ls' v' E; cbn [notify_all] in E; [by injection E as <- <-|].
  rewrite write_val_cases in E. destruct (notify_all _ data ls) as [rest v1] eqn:E1. injection E as <- <-.
  destruct (IH _ _ _ _ E1) as (Hw & He & Hl). rewrite length_app.
  destruct (0 <? free_slots v l)%nat; cbn [waits events Services.delete_reference length] in *; autorewrite with view in Hw, He; split_and!; (done || lia).
Qed.

Lemma notify_all_ok ls : ∀ v data, NoDup ls →
  ∃ v', notify_all v data ls = (with_room v ls, v') ∧
    sent v' = sent v ++ ((λ l, (l, mkMsg data [])) <$> with_room v ls) ∧
    (∀ l, free_slots v' l = if decide (l ∈ ls) then pred (free_slots v l) else free_slots v l) ∧
    (∀ l, l ∈ deleted v' ↔ l ∈ deleted v ∨ (l ∈ ls ∧ free_slots v l = 0%nat)).
Proof.
  induction ls as [|l ls IH]; intros v data Hnd; cbn [notify_all].
  { exists v. unfold with_room. cbn. rewrite app_nil_r. split; [done|]. split; [done|]. split; intros l; [|set_solver].
    by rewrite decide_False by apply not_elem_of_nil. }
  apply NoDup_cons in Hnd as [Hl Hnd]. rewrite write_val_cases. set (v1 := Services.channel_write_rs v l data []).
  assert (Hroom : ∀ v2, (∀ x, free_slots v2 x = free_slots v1 x) → with_room v2 ls = with_room v ls).
  { intros v2 H2. apply filter_ext_in. intros x Hx. rewrite H2. unfold v1. rewrite slots_write, decide_False by congruence. done. }
  assert (Hslots : ∀ v2 x, (∀ x, free_slots v2 x = free_slots v1 x) →
    (if decide (x ∈ ls) then pred (free_slots v2 x) else free_slots v2 x) =
    if decide (x ∈ l :: ls) then pred (free_slots v x) else free_slots v x).
  { intros v2 x H2. rewrite H2. unfold v1. rewrite slots_write. destruct (decide (l = x)) as [->|Hne].
    - rewrite decide_False, decide_True by (done || left). done.
    - destruct (decide (x ∈ ls)); [by rewrite decide_True by by right|]. rewrite decide_False; [done|]. set_solver. }
  unfold with_room at 1 2. rewrite filter_cons. destruct (Nat.ltb_spec 0 (free_slots v l)) as [Hr|Hr].
  - destruct (IH v1 data Hnd) as (v' & -> & Hs & Hf & Hd). rewrite Hroom in Hs |- * by done. rewrite decide_True by done.
    exists v'. split; [done|]. split; [|split].
    + rewrite Hs. unfold v1. rewrite sent_write. unfold delivered. rewrite accepts_true by done. by rewrite <- (assoc_L (++)).
    + intros x. rewrite Hf. by apply Hslots.
    + intros x. rewrite Hd. unfold v1. rewrite deleted_write, slots_write.
      destruct (decide (l = x)) as [->|Hne]; [|set_solver]. split; [intros [?|[? _]]; [by left|done]|intros [?|[_ ?]]; [by left|lia]].
  - destruct (IH (Services.delete_reference v1 l) data Hnd) as (v' & -> & Hs & Hf & Hd).
    rewrite Hroom in Hs |- * by done. rewrite decide_False by lia. exists v'. split; [done|]. split; [|split].
    + rewrite Hs. cbn [sent Services.delete_reference]. unfold v1. rewrite sent_write, delivered_slots.
      replace (free_slots v l) with 0%nat by lia. by rewrite take_0, app_nil_r.
    + intros x. rewrite Hf. by apply Hslots.
    + intros x. rewrite Hd. cbn [deleted Services.delete_reference]. rewrite slots_delete. unfold v1. rewrite deleted_write, slots_write.
      destruct (decide (l = x)) as [->|Hne]; [|set_solver]. rewrite elem_of_app, list_elem_of_singleton, elem_of_cons. intuition (done || lia).
Qed.

(** ** The PS/2 driver *)
Module Ps2Main.
Definition kb_cbk : Z := 1.
Definition ms_cbk : Z := 2.
Definition kb_srv_cbk : Z := 3.
Definition ms_srv_cbk : Z := 4.

Section driver.
Context {D : Type} `{PortIO D}.
(** The bytes of a message in memory, which [channel_write_val] sends. *)
Context (repr : InputServiceMessage → list Z).

(** The variables of [main]; [acked] are the interrupts acknowledged, oldest first. *)
Record Driver := mkDriver {
  controller : PS2Controller D;
  kb_service : Z;
  ms_service : Z;
  kb_listeners : list Z;
  ms_listeners : list Z;
  acked : list Z;
}.

(** [main] up to its loop, once the interrupts are routed to the port. *)
Definition driver_start (c : PS2Controller D) (v : View) : Driver * View :=
  let '(kbs, _, v) := Services.channel_create_rs v in
  let '(mss, _, v) := Services.channel_create_rs v in
  let v := Services.object_wait_port_rs v kbs kb_srv_cbk in
  let v := Services.object_wait_port_rs v mss ms_srv_cbk in
  (mkDriver c kbs mss [] [] [], v).

(** A connection at one of the services: the buffers hold 100 bytes and one handle. *)
Definition take_listener (v : View) (service : Z) : outcome (Z * View) :=
  match Services.channel_read_rs v service 100 1 with
  | (Some (ReadOk m), v) => h ← index (m_handles m) 0; Done (h, v)
  | (Some _, _) => Panic PUnreachable
  | (None, _) => OutOfFuel
  end.

(** A turn of the loop, on the notification [key]. *)
Definition driver_event (key : Z) (s : Driver) (v : View) : outcome (Driver * View) :=
  if key =? kb_cbk then
    match kb_check_interrupts (controller s) with
    | (Ok ev, c) =>
        let '(ls, v) := match ev with
                        | Some ev => notify_all v (repr (MKeyboardEvent ev)) (kb_listeners s)
                        | None => (kb_listeners s, v)
                        end in
        Done (mkDriver c (kb_service s) (ms_service s) ls (ms_listeners s) (acked s ++ [kb_cbk]), v)
    | (Err _, _) => Panic PUnwrap
    end
  else if key =? ms_cbk then
    '(ev, c) ← ms_check_interrupts (controller s);
    let '(ls, v) := match ev with
                    | Some message => notify_all v (repr message) (ms_listeners s)
                    | None => (ms_listeners s, v)
                    end in
    Done (mkDriver c (kb_service s) (ms_service s) (kb_listeners s) ls (acked s ++ [ms_cbk]), v)
  else if key =? kb_srv_cbk then
    '(h, v) ← take_listener v (kb_service s);
    Done (mkDriver (controller s) (kb_service s) (ms_service s) (kb_listeners s ++ [h]) (ms_listeners s) (acked s), v)
  else if key =? ms_srv_cbk then
    '(h, v) ← take_listener v (ms_service s);
    Done (mkDriver (controller s) (kb_service s) (ms_service s) (kb_listeners s) (ms_listeners s ++ [h]) (acked s), v)
  else Done (s, v).
End driver.
Arguments Driver D : clear implicits.

Section correct.
Context {D : Type} `{PortIO D} (repr : InputServiceMessage → list Z).

(** The device gives the bytes [bs], one at each read of the data port. *)
Fixpoint yields (d : D) (bs : list Z) : D → Prop :=
  match bs with
  | [] => λ d', d = d'
  | b :: bs => λ d', ∃ d1, data_port_read d = (b, d1) ∧ yields d1 bs d'
  end.

Fixpoint driver_events (keys : list Z) (s : Driver D) (v : View) : outcome (Driver D * View) :=
  match keys with
  | [] => Done (s, v)
  | k :: keys => '(s, v) ← driver_event repr k s v; driver_events keys s v
  end.

(** The messages written to a handle, oldest first. *)
Definition to_handle (l : Z) (ms : list (Z * Msg)) : list Msg := snd <$> filter (λ p, p.1 = l) ms.

Lemma to_handle_app l ms ms' : to_handle l (ms ++ ms') = to_handle l ms ++ to_handle l ms'.
Proof using. unfold to_handle. by rewrite filter_app, fmap_app. Qed.

Lemma to_handle_each l ls m : NoDup ls → l ∈ ls → to_handle l ((λ l, (l, m)) <$> ls) = [m].
Proof using.
  assert (Hn : ∀ ls, l ∉ ls → to_handle l ((λ l, (l, m)) <$> ls) = []).
  { intros ls' Hl. unfold to_handle. induction ls' as [|x ls' IH]; [done|]. apply not_elem_of_cons in Hl as [? ?].
    cbn [fmap list_fmap]. rewrite filter_cons_False by (cbn; congruence). by apply IH. }
  intros Hnd Hl. induction Hnd as [|x ls Hx Hnd IH]; [by apply elem_of_nil in Hl|]. cbn [fmap list_fmap]. unfold to_handle.
  destruct (decide (x = l)) as [->|Hne].
  - rewrite filter_cons_True by done. rewrite fmap_cons. f_equal. by apply Hn.
  - rewrite filter_cons_False by done. apply IH. by apply elem_of_cons in Hl as [->|?].
Qed.

Lemma to_handle_none l ls m : l ∉ ls → to_handle l ((λ l, (l, m)) <$> ls) = [].
Proof using.
  intros Hl. unfold to_handle. induction ls as [|x ls IH]; [done|]. apply not_elem_of_cons in Hl as [? ?].
  cbn [fmap list_fmap]. rewrite filter_cons_False by (cbn; congruence). by apply IH.
Qed.

Lemma kb_check (c : PS2Controller D) b d1 ev k' :
  data_port_read (dev c) = (b, d1) → add_byte (keyboard c) b = (ev, k') → kb_check_interrupts c = (Ok ev, mkCtl d1 k' (mouse c)).
Proof using.
  intros Hb Ek. unfold kb_check_interrupts, mbind, io_bind, data_read, decode_byte. rewrite Hb. cbn [with_dev keyboard dev mouse]. by rewrite Ek.
Qed.

(** C19: the bytes of the keyboard, one interrupt each, reach everyone who listens, whatever
    mix of open, closed and full channels the listeners have.  The events the bytes decode to
    are written to each listener once and in their order, as many as its channel takes: all
    of them if it is open and has room, none if it is closed, and the first ones if it gets
    full.  Exactly the listeners that took all of them stay, the others' handles are given
    up, nobody else is written to, and every interrupt is acknowledged. *)
Theorem keys_reach_listeners bs : ∀ (s : Driver D) v d',
  yields (dev (controller s)) bs d' → NoDup (kb_listeners s) →
  let evs := (λ e, mkMsg (repr (MKeyboardEvent e)) []) <$> fst (add_bytes (keyboard (controller s)) bs) in
  ∃ s' v', driver_events (replicate (length bs) kb_cbk) s v = Done (s', v') ∧
    kb_listeners s' = filter (λ l, (length evs ≤ free_slots v l)%nat) (kb_listeners s) ∧ ms_listeners s' = ms_listeners s ∧
    acked s' = acked s ++ replicate (length bs) kb_cbk ∧
    (∀ l, to_handle l (sent v') = to_handle l (sent v) ++ if decide (l ∈ kb_listeners s) then take (free_slots v l) evs else []) ∧
    (∀ l, l ∈ deleted v' ↔ l ∈ deleted v ∨ (l ∈ kb_listeners s ∧ l ∉ kb_listeners s')).
Proof using.
  induction bs as [|b bs IH]; intros s v d' Hy Hnd; cbn [length replicate driver_events].
  { exists s, v. cbn. split_and!; try done; [|by rewrite app_nil_r| |set_solver].
    - clear. induction (kb_listeners s) as [|l ls IH]; [done|]. rewrite filter_cons_True by lia. by f_equal.
    - intros l. rewrite take_nil. case_decide; by rewrite app_nil_r. }
  destruct Hy as (d1 & Hb & Hy). unfold driver_event at 1. cbn [Z.eqb kb_cbk Pos.eqb].
  cbn [add_bytes]. destruct (add_byte (keyboard (controller s)) b) as [ev k'] eqn:Ek. rewrite (kb_check _ _ _ _ _ Hb Ek).
  set (c' := mkCtl d1 k' _). destruct ev as [e|].
  - destruct (notify_all_ok (kb_listeners s) v (repr (MKeyboardEvent e)) Hnd) as (v1 & -> & Hs & Hf & Hd). rewrite bind_ret.
    set (ls := with_room v (kb_listeners s)) in *. assert (Hnd1 : NoDup ls) by by apply NoDup_filter.
    assert (Hls : ∀ l, l ∈ ls ↔ (0 < free_slots v l)%nat ∧ l ∈ kb_listeners s) by (intros; unfold ls, with_room; by rewrite list_elem_of_filter).
    destruct (IH (mkDriver c' (kb_service s) (ms_service s) ls (ms_listeners s) (acked s ++ [kb_cbk])) v1 d')
      as (s2 & v2 & -> & H1 & H2 & H3 & H4 & H5); [done|done|]. cbn [kb_listeners ms_listeners acked controller keyboard c'] in *.
    destruct (add_bytes k' bs) as [es k2]. cbn [fst fmap list_fmap length] in *. rewrite length_fmap in *.
    assert (H1' : kb_listeners s2 = filter (λ l, (S (length es) ≤ free_slots v l)%nat) (kb_listeners s)).
    { rewrite H1. unfold ls, with_room. rewrite list_filter_filter. apply filter_ext_in. intros x Hx. rewrite Hf, decide_True by done. lia. }
    exists s2, v2. split_and!; try done; [by rewrite H3, <- (assoc_L (++))| |].
    + intros l. rewrite H4, Hs, to_handle_app, <- (assoc_L (++)). f_equal. destruct (decide (l ∈ kb_listeners s)) as [Hl|Hl].
      * destruct (decide (l ∈ ls)) as [Hl'|Hl'].
        -- rewrite to_handle_each, Hf, decide_True by done. apply Hls in Hl' as [Hr _]. by destruct (free_slots v l); [lia|].
        -- rewrite to_handle_none by done. rewrite Hls in Hl'. replace (free_slots v l) with 0%nat by (destruct (free_slots v l); [done|]; destruct Hl'; split; [lia|done]). done.
      * assert (l ∉ ls) by (rewrite Hls; tauto). by rewrite decide_False, to_handle_none.
    + intros l. rewrite H5, Hd, Hls. rewrite H1', list_elem_of_filter. split; [intros [[?|[? ?]]|[[? ?] ?]]; [by left|right; split; [done|lia]|right; by split]|].
      intros [?|[? ?]]; [by left; left|]. destruct (decide (free_slots v l = 0%nat)); [left; right; done|right; split; [split; [lia|done]|done]].
  - rewrite bind_ret.
    destruct (IH (mkDriver c' (kb_service s) (ms_service s) (kb_listeners s) (ms_listeners s) (acked s ++ [kb_cbk])) v d')
      as (s2 & v2 & -> & H1 & H2 & H3 & H4 & H5); [done..|]. cbn [kb_listeners ms_listeners acked controller keyboard c'] in *.
    destruct (add_bytes k' bs) as [es k2]. exists s2, v2. split_and!; try done. by rewrite H3, <- (assoc_L (++)).
Qed.

(** *** Only the first listener is taken

    A wait fires, an interrupt arrives, something else changes what the driver sees, or the
    driver takes the next notification. *)
Inductive drv_step : Driver D * View → Driver D * View → Prop :=
  | drv_notify s v l1 h k l2 :
      waits v = l1 ++ (h, k) :: l2 →
      drv_step (s, v) (s, upd_events (upd_waits v (l1 ++ l2)) (events v ++ [k]))
  | drv_interrupt s v k : k = kb_cbk ∨ k = ms_cbk → drv_step (s, v) (s, upd_events v (events v ++ [k]))
  | drv_arrive s v v' : waits v' = waits v → events v' = events v → drv_step (s, v) (s, v')
  | drv_serve s v k es s' v' :
      events v = k :: es → driver_event repr k s (upd_events v es) = Done (s', v') → drv_step (s, v) (s', v').

Definition pending (k : Z) (v : View) : nat := length (filter (λ x, x = k) ((waits v).*2 ++ events v)).

Definition at_most_one (x : Driver D * View) : Prop :=
  (length (kb_listeners x.1) + pending kb_srv_cbk x.2 ≤ 1)%nat ∧ (length (ms_listeners x.1) + pending ms_srv_cbk x.2 ≤ 1)%nat.

Lemma pending_split k v x es : events v = x :: es →
  pending k v = ((if decide (x = k) then 1 else 0) + pending k (upd_events v es))%nat.
Proof using.
  intros E. unfold pending. rewrite E, !filter_app, !length_app, filter_cons. cbn [waits events upd_events]. destruct (decide (x = k)); cbn; lia.
Qed.

Lemma take_listener_ok v service h v' : take_listener v service = Done (h, v') → waits v' = waits v ∧ events v' = events v.
Proof using.
  unfold take_listener, Services.channel_read_rs, Services.channel_read. intros E. repeat case_match; simplify_eq; inv_outcome; done.
Qed.

Lemma event_ports k s v s' v' : driver_event repr k s v = Done (s', v') →
  waits v' = waits v ∧ events v' = events v ∧
  (length (kb_listeners s') ≤ length (kb_listeners s) + (if decide (k = kb_srv_cbk) then 1 else 0))%nat ∧
  (length (ms_listeners s') ≤ length (ms_listeners s) + (if decide (k = ms_srv_cbk) then 1 else 0))%nat.
Proof using.
  assert (Hn : ∀ data ls ls' v1, notify_all v data ls = (ls', v1) → waits v1 = waits v ∧ events v1 = events v ∧ (length ls' ≤ length ls)%nat).
  { intros data ls ls' v1. apply notify_all_frame. }
  unfold driver_event. intros E.
  destruct (Z.eqb_spec k kb_cbk) as [->|H1]; [|destruct (Z.eqb_spec k ms_cbk) as [->|H2]; [|destruct (Z.eqb_spec k kb_srv_cbk) as [->|H3];
    [|destruct (Z.eqb_spec k ms_srv_cbk) as [->|H4]]]]; rewrite ?decide_True, ?decide_False by done.
  - destruct (kb_check_interrupts (controller s)) as [[[e|]|] c] eqn:Ec; [|by simplify_eq; cbn; split_and!; try done; lia|done].
    destruct (notify_all _ _ _) as [ls v1] eqn:En. destruct (Hn _ _ _ _ En) as (? & ? & ?). simplify_eq. cbn. split_and!; try done; lia.
  - inv_outcome. destruct x as [[e|] c].
    + destruct (notify_all _ _ _) as [ls v1] eqn:En. destruct (Hn _ _ _ _ En) as (? & ? & ?). inv_outcome. cbn. split_and!; try done; lia.
    + inv_outcome. cbn. split_and!; try done; lia.
  - inv_outcome. destruct x as [h v1]. inv_outcome. apply take_listener_ok in H0 as [? ?]. cbn. rewrite length_app. cbn. split_and!; try done; lia.
  - inv_outcome. destruct x as [h v1]. inv_outcome. apply take_listener_ok in H0 as [? ?]. cbn. rewrite length_app. cbn. split_and!; try done; lia.
  - simplify_eq. split_and!; try done; lia.
Qed.

Lemma drv_step_one x y : drv_step x y → at_most_one x → at_most_one y.
Proof using.
  intros Hs [Hk Hm]. destruct Hs as [s v l1 h k l2 E|s v k Hor|s v v' Ew Ee|s v k es s' v' Hev E]; unfold at_most_one; cbn [fst snd] in *.
  - assert (Hp : ∀ q, pending q (upd_events (upd_waits v (l1 ++ l2)) (events v ++ [k])) = pending q v).
    { intros q. unfold pending. cbn [waits events upd_events upd_waits]. apply Permutation_length. f_equiv.
      rewrite E, !fmap_app, fmap_cons. cbn [snd]. solve_Permutation. }
    by rewrite !Hp.
  - assert (Hp : ∀ q, q ≠ k → pending q (upd_events v (events v ++ [k])) = pending q v).
    { intros q Hq. unfold pending. cbn [waits events upd_events]. rewrite (assoc_L (++)), filter_app, length_app.
      rewrite filter_cons_False by congruence. cbn. lia. }
    rewrite !Hp by (destruct Hor as [-> | ->]; done). done.
  - unfold pending in *. by rewrite Ew, Ee.
  - destruct (event_ports _ _ _ _ _ E) as (Ew & Ee & Hlk & Hlm).
    assert (Hp : ∀ q, pending q v' = pending q (upd_events v es)) by (intros q; unfold pending; by rewrite Ew, Ee).
    rewrite (pending_split kb_srv_cbk v k es Hev) in Hk. rewrite (pending_split ms_srv_cbk v k es Hev) in Hm. rewrite !Hp.
    repeat case_decide; lia.
Qed.

(** The driver waits for each of its services once and does not renew the wait when it fires:
    whatever happens, it never has more than one listener for the keyboard and one for the
    mouse, and the second program to ask gets no events. *)
Theorem one_listener_at_most c v0 s0 v1 s v :
  waits v0 = [] → events v0 = [] → driver_start c v0 = (s0, v1) → rtc drv_step (s0, v1) (s, v) →
  (length (kb_listeners s) ≤ 1)%nat ∧ (length (ms_listeners s) ≤ 1)%nat.
Proof using.
  intros Hw He Hst Hsteps.
  assert (H0 : at_most_one (s0, v1)).
  { injection Hst as <- <-. unfold at_most_one, pending. cbn [fst snd waits events kb_listeners ms_listeners Services.object_wait_port_rs upd_waits Services.channel_create_rs].
    rewrite Hw, He. cbn. done. }
  assert (H1 : at_most_one (s, v)).
  { clear Hst. remember (s0, v1) as a. remember (s, v) as b. clear Heqa Heqb. induction Hsteps as [|x y z Hxy _ IH]; [done|]. by eapply IH, drv_step_one. }
  destruct H1 as [? ?]. cbn in *. lia.
Qed.
End correct.
End Ps2Main.

(** ** The file system service *)
Module FsService.

(** [FSServiceMessageResp] as it is sent; the data goes as a message beside it. *)
Inductive FsWire :=
  | WExpectedQuestion
  | WStat (s : StatResponse)
  | WRead (len : option Z)
  | WDisks (disks : gset Z).

Definition reply_of (r : result FSServiceMessageResp FSServiceError) : result FsWire FSServiceError * option (list Z) :=
  match r with
  | Ok (RespStat s) => (Ok (WStat s), None)
  | Ok (RespRead len data) => (Ok (WRead len), data)
  | Ok (RespDisks d) => (Ok (WDisks d), None)
  | Err e => (Err e, None)
  end.

(** What the handler captures: the mounted file systems, the capacity and length of
    [buffer], and the messages made, by handle. *)
Record FsState := mkFs { mounts : Mounts; buf_cap : Z; buf_len : Z; made : gmap Z (list Z) }.

(** [MessageHandle::create]. *)
Definition message_create (v : View) (made : gmap Z (list Z)) (data : list Z) : Z * View * gmap Z (list Z) :=
  (next_id v, mkView (inbox v) (closed v) (sent v) (waits v) (events v) (pairs v) (next_id v + 1) (deleted v) (backlog v), <[next_id v := data]> made).

Section service.
Context `{Postcard FSServiceMessage} `{Postcard (result FsWire FSServiceError)}.
(** The fuel of the directory walk, and what is in [fs_buffer]. *)
Context (fuel : nat) (fs_buffer : list Z).

(** The closure of [file_handler]; [handles_buffer] is new and has no room. *)
Definition file_handler (h : Z) (c : unit) (st : FsState) (v : View) : outcome (bool * unit * FsState * View) :=
  match Services.channel_read_rs v h (buf_cap st) 0 with
  | (None, _) => OutOfFuel
  | (Some (ReadOk m), v) =>
      let len := Z.of_nat (length (m_data m)) in
      match from_bytes (m_data m) with
      | None => Done (false, c, mkFs (mounts st) (buf_cap st) len (made st), v)
      | Some msg =>
          '(res, mo) ← run_fs_query fuel (mounts st) msg fs_buffer;
          let '(a, b) := reply_of res in
          let m := to_bytes a in
          let n := Z.of_nat (length m) in
          let cap := reserve (buf_cap st) len n in
          match b with
          | Some data =>
              let '(id, v, made) := message_create v (made st) data in
              let v := Services.channel_write_rs v h m [id] in
              Done (true, c, mkFs mo cap n made, Services.delete_reference v id)
          | None => Done (true, c, mkFs mo cap n (made st), Services.channel_write_rs v h m [])
          end
      end
  | (Some ReadEmpty, v) => Done (true, c, mkFs (mounts st) (buf_cap st) 0 (made st), v)
  | (Some (ReadSize _ _), v) => Done (false, c, mkFs (mounts st) (buf_cap st) 0 (made st), v)
  | (Some ReadClosed, v) => Done (false, c, mkFs (mounts st) (buf_cap st) 0 (made st), v)
  end.

Definition fs_accepter (v : View) : unit * View := (tt, v).

Definition fs_start (mo : Mounts) : FsState := mkFs mo 0x1000 0 ∅.

(** *** What the client calls make of the reply *)
Definition stat_reply (m : Msg) : outcome (result StatResponse FSServiceError) :=
  r ← unwrap (from_bytes (m_data m));
  match r with
  | Err e => Done (Err e)
  | Ok (WStat s) => Done (Ok s)
  | Ok _ => Panic PUnreachable
  end.

Definition read_reply (made : gmap Z (list Z)) (m : Msg) : outcome (result (option (list Z)) FSServiceError) :=
  r ← unwrap (from_bytes (m_data m));
  match r with
  | Err e => Done (Err e)
  | Ok (WRead None) => Done (Ok None)
  | Ok (WRead (Some _)) => h ← index (m_handles m) 0; data ← unwrap (made !! h); Done (Ok (Some data))
  | Ok _ => Panic PUnreachable
  end.

Definition disks_reply (m : Msg) : outcome (result (gset Z) FSServiceError) :=
  r ← unwrap (from_bytes (m_data m));
  match r with
  | Err e => Done (Err e)
  | Ok (WDisks d) => Done (Ok d)
  | Ok _ => Panic PUnreachable
  end.

(** The reply of the handler, and what it leaves. *)
Lemma file_handler_reply h st v q ms r mo :
  inbox v !! h = Some (mkMsg (to_bytes q) [] :: ms) → Z.of_nat (length (to_bytes q)) ≤ buf_cap st →
  run_fs_query fuel (mounts st) q fs_buffer = Done (r, mo) →
  ∃ st' v' hs, file_handler h tt st v = Done (true, tt, st', v') ∧ mounts st' = mo ∧ buf_cap st ≤ buf_cap st' ∧
    inbox v' = <[h := ms]> (inbox v) ∧ waits v' = waits v ∧ events v' = events v ∧
    sent v' = sent v ++ delivered v h (mkMsg (to_bytes (fst (reply_of r))) hs) ∧
    match snd (reply_of r) with Some data => ∃ id, hs = [id] ∧ made st' !! id = Some data | None => hs = [] end.
Proof using.
  intros Hin Hcap Hq. unfold file_handler. rewrite (read_fits v h (buf_cap st) 0 _ ms Hin Hcap) by done. cbv zeta. cbn [m_data m_handles].
  rewrite from_to, Hq, bind_ret.
  destruct (reply_of r) as [a b]. cbn [fst snd].
  assert (Hres : ∀ len n, 0 ≤ n → buf_cap st ≤ reserve (buf_cap st) len n) by (intros; unfold reserve; case_match; lia).
  destruct b as [data|]; eexists _, _, _; (split; [done|]); cbn [mounts buf_cap made inbox waits events sent Services.delete_reference];
    autorewrite with view; split_and!; try done; try (apply Hres; lia).
  eexists. split; [done|]. apply lookup_insert_eq.
Qed.

(** C18: a request to the file system service is a call of the file system: when a customer's
    message is a request, the service answers it with exactly one message, which arrives
    unless the customer is gone or its queue is full, is ready for the next one, and what the client's [stat], [read_file_sector], [read_full_file] and
    [get_disks] make of the answer, and the file systems after it, are what calling
    [run_fs_query] directly gives. *)
Theorem fs_service_refines_calls s key h st v q ms r mo :
  key ≠ 0 → customers s !! key = Some (h, tt) →
  inbox v !! h = Some (mkMsg (to_bytes q) [] :: ms) → Z.of_nat (length (to_bytes q)) ≤ buf_cap st →
  run_fs_query fuel (mounts st) q fs_buffer = Done (r, mo) →
  ∃ st' v' reply, service_step fs_accepter file_handler s key st v = Done (s, st', v') ∧
    mounts st' = mo ∧ buf_cap st ≤ buf_cap st' ∧ inbox v' = <[h := ms]> (inbox v) ∧
    sent v' = sent v ++ delivered v h reply ∧ waits v' = waits v ++ [(h, key)] ∧ events v' = events v ∧
    match q with
    | RunStat disk path => stat fuel fs_buffer (mounts st) disk path = (x ← stat_reply reply; Done (x, mo))
    | ReadRequest _ _ _ | ReadFullFileRequest _ _ => client_read fuel fs_buffer (mounts st) q = (x ← read_reply (made st') reply; Done (x, mo))
    | GetDisksRequest => ∃ d, disks_reply reply = Done (Ok d) ∧ get_disks fuel fs_buffer (mounts st) = Done (d, mo)
    end.
Proof using.
  intros Hk Hc Hin Hcap Hq. destruct (file_handler_reply h st v q ms r mo Hin Hcap Hq) as (st' & v' & hs & E & Hm & Hcp & Hi & Hw & He & Hs & Hh).
  exists st', (Services.object_wait_port_rs v' h key), (mkMsg (to_bytes (fst (reply_of r))) hs).
  unfold service_step. rewrite (proj2 (Z.eqb_neq _ _) Hk), Hc. cbn [unwrap mbind outcome_bind]. rewrite E, bind_ret.
  split; [rewrite insert_id by done; by destruct s|]. cbn [Services.object_wait_port_rs upd_waits inbox sent waits events].
  split_and!; try done; [by rewrite Hw|].
  destruct q as [disk path|? ? ?|? ?|]; unfold stat_reply, read_reply, disks_reply, stat, client_read, get_disks; cbn [m_data m_handles];
    rewrite Hq, from_to; cbn [mbind outcome_bind unwrap].
  - by destruct r as [[x|x y|x]|e].
  - destruct r as [[x|[x|] [y|]|x]|e]; cbn [reply_of fst snd] in *; try done.
    + destruct Hh as (id & -> & Hd). cbn. by rewrite Hd.
    + by subst hs.
  - destruct r as [[x|[x|] [y|]|x]|e]; cbn [reply_of fst snd] in *; try done.
    + destruct Hh as (id & -> & Hd). cbn. by rewrite Hd.
    + by subst hs.
  - cbn in Hq. injection Hq as <- <-. cbn. eauto.
Qed.

(** A message that is not a request, or does not fit, or a closed channel, ends the
    connection; the file systems are not touched. *)
Lemma fs_service_drops s key h st v :
  key ≠ 0 → customers s !! key = Some (h, tt) →
  (∃ m ms, inbox v !! h = Some (m :: ms) ∧
     (buf_cap st < Z.of_nat (length (m_data m)) ∨ m_handles m ≠ [] ∨ from_bytes (A := FSServiceMessage) (m_data m) = None)) ∨
  (inbox v !! h = Some [] ∧ h ∈ closed v) →
  ∃ st' v', service_step fs_accepter file_handler s key st v = Done (mkService (accepting_channel s) (delete key (customers s)), st', v') ∧
    mounts st' = mounts st ∧ sent v' = sent v ∧ deleted v' = deleted v ++ [h].
Proof using.
  intros Hk Hc Hor. unfold service_step. rewrite (proj2 (Z.eqb_neq _ _) Hk), Hc. cbn [unwrap mbind outcome_bind].
  unfold file_handler, Services.channel_read_rs, Services.channel_read.
  destruct Hor as [(m & ms & Hin & Hbad)|[Hin Hcl]]; rewrite Hin.
  - destruct ((buf_cap st <? Z.of_nat (length (m_data m))) || (0 <? Z.of_nat (length (m_handles m)))) eqn:Eb.
    + rewrite bind_ret. eexists _, _. done.
    + apply orb_false_iff in Eb as [E1%Z.ltb_ge E2%Z.ltb_ge]. destruct Hbad as [?|[Hh|Hn]]; [lia|destruct (m_handles m); cbn in *; [done|lia]|].
      rewrite Hn, bind_ret. eexists _, _. done.
  - rewrite bool_decide_eq_true_2, bind_ret by done. eexists _, _. done.
Qed.
End service.
End FsService.

(** ** Calls of a service: [SimpleService] *)

(** The vectors of a caller: capacity and length of the data and of the handles. *)
Record Bufs := mkBufs { b_cap : Z; b_len : Z; b_hcap : Z; b_hlen : Z }.

Definition simple_send (v : View) (h : Z) (data handles : list Z) : bool * View := channel_write v h (mkMsg data handles).

Lemma simple_send_ok v h data handles : accepts v h = true →
  simple_send v h data handles = (true, Services.channel_write_rs v h data handles).
Proof. intros Ha. unfold simple_send, Services.channel_write_rs, channel_write. by rewrite Ha. Qed.

(** [None] when the channel is closed; a call that has to wait does not return here. *)
Definition simple_recv (v : View) (h : Z) (b : Bufs) : outcome (option Msg * Bufs * View) :=
  match channel_read_resize v h (b_cap b) (b_len b) (b_hcap b) (b_hlen b) with
  | (None, _) => OutOfFuel
  | (Some (ReadOk m, cap, hcap), v) => Done (Some m, mkBufs cap (Z.of_nat (length (m_data m))) hcap (Z.of_nat (length (m_handles m))), v)
  | (Some (ReadClosed, cap, hcap), v) => Done (None, mkBufs cap 0 hcap 0, v)
  | (Some _, _) => Panic PUnreachable
  end.

Definition simple_call (v : View) (h : Z) (data handles : list Z) (b : Bufs) : outcome (option Msg * Bufs * View) :=
  match simple_send v h data handles with
  | (false, v) => Done (None, b, v)
  | (true, v) => simple_recv v h b
  end.

(** A message that fits after growing is taken whatever the buffers were. *)
Lemma resize_takes v h cap len hcap hlen m ms :
  inbox v !! h = Some (m :: ms) → 0 ≤ len ≤ cap → 0 ≤ hlen ≤ hcap →
  ∃ cap' hcap', channel_read_resize v h cap len hcap hlen = (Some (ReadOk m, cap', hcap'), upd_inbox v (<[h := ms]> (inbox v))).
Proof.
  intros Hin Hl Hh. unfold channel_read_resize, Services.channel_read. rewrite Hin.
  set (d := Z.of_nat (length (m_data m))). set (k := Z.of_nat (length (m_handles m))).
  destruct ((cap <? d) || (hcap <? k)) eqn:Eb; [|by eexists _, _].
  assert (H1 : d ≤ (if len <? d then reserve cap len (d - len) else cap)).
  { destruct (Z.ltb_spec len d); [|lia]. unfold reserve. destruct (Z.leb_spec (len + (d - len)) cap); lia. }
  assert (H2 : k ≤ (if hlen <? k then reserve hcap hlen (k - hlen) else hcap)).
  { destruct (Z.ltb_spec hlen k); [|lia]. unfold reserve. destruct (Z.leb_spec (hlen + (k - hlen)) hcap); lia. }
  rewrite Hin. fold d k. rewrite (proj2 (Z.ltb_ge _ _) H1), (proj2 (Z.ltb_ge _ _) H2). by eexists _, _.
Qed.

(** ** The card's service and the network service *)
Module NetService.
Inductive PhysicalNet := MacAddrGet | SendPacket (packet : list Z) | ListenToPackets.
Inductive Networking := ArpRequest (ip : IPAddr).

Section services.
Context `{Postcard PhysicalNet} `{Postcard Networking} `{Postcard ArpResponse} `{Postcard Z}.

Section card.
Context {HW : Type} `{Pcnet.CardIo HW}.

Record CardState := mkCard { card : Pcnet.PCNET HW; c_bufs : Bufs }.

(** "Keep trying to send": the card frees a descriptor between the attempts, which the
    argument [others] stands for. *)
Fixpoint send_until (others : Pcnet.PCNET HW → Pcnet.PCNET HW) (fuel : nat) (c : Pcnet.PCNET HW) (packet : list Z) : outcome (Pcnet.PCNET HW) :=
  match fuel with
  | O => OutOfFuel
  | S fuel =>
      '(r, c) ← Pcnet.send_packet c packet;
      match r with Ok _ => Done c | Err _ => send_until others fuel (others c) packet end
  end.

Definition pcnet_handler (others : Pcnet.PCNET HW → Pcnet.PCNET HW) (fuel : nat) (h : Z) (c : unit) (st : CardState) (v : View)
  : outcome (bool * unit * CardState * View) :=
  let b := c_bufs st in
  match channel_read_resize v h (b_cap b) (b_len b) (b_hcap b) (b_hlen b) with
  | (None, _) => OutOfFuel
  | (Some (ReadOk m, cap, hcap), v) =>
      let len := Z.of_nat (length (m_data m)) in
      let hlen := Z.of_nat (length (m_handles m)) in
      let b := mkBufs cap len hcap hlen in
      q ← unwrap (from_bytes (m_data m));
      match q with
      | MacAddrGet =>
          if negb (hlen =? 0) then Done (false, c, mkCard (card st) b, v)
          else
            let '(mac, hw) := Pcnet.read_mac_addr (Pcnet.io (card st)) in
            let resp := to_bytes mac in
            let n := Z.of_nat (length resp) in
            Done (true, c, mkCard (Pcnet.with_io (card st) hw) (mkBufs (reserve cap len n) n hcap hlen), Services.channel_write_rs v h resp [])
      | SendPacket packet =>
          if negb (hlen =? 0) then Done (false, c, mkCard (card st) b, v)
          else
            cd ← send_until others fuel (card st) packet;
            Done (true, c, mkCard cd b, Services.channel_write_rs v h [] [])
      | ListenToPackets =>
          if negb (hlen =? 1) then Done (false, c, mkCard (card st) b, v)
          else
            l ← index (m_handles m) 0;
            let cd := card st in
            let cd := Pcnet.mkPCNET (Pcnet.io cd) (Pcnet.send_buffer_desc cd) (Pcnet.send_buffer_pos cd) (Pcnet.recv_buffer_desc cd)
                        (Pcnet.revc_buffer_pos cd) (Pcnet.listeners cd ++ [l]) (Pcnet.memory cd) in
            Done (true, c, mkCard cd b, Services.channel_write_rs v h [] [])
      end
  | (Some (_, cap, hcap), v) => Done (false, c, mkCard (card st) (mkBufs cap 0 hcap 0), v)
  end.
End card.

(** The network service: its table, its card's address, its connection to the card's
    service, and its buffer. *)
Record NetState := mkNet { table : ArpTable; our_mac : Z; pcnet : Z; n_cap : Z; n_len : Z }.

(** [send_arp]: the packet is sent by a call of the card's service. *)
Definition arp_out (st : NetState) (packet : option (list Z)) (v : View) : outcome View :=
  match packet with
  | None => Done v
  | Some p =>
      let msg := to_bytes (SendPacket p) in
      let n := Z.of_nat (length msg) in
      '(r, _, v) ← simple_call v (pcnet st) msg [] (mkBufs (reserve 0 0 n) n 0 0);
      _ ← unwrap r;
      Done v
  end.

Definition net_handler (h : Z) (c : unit) (st : NetState) (v : View) : outcome (bool * unit * NetState * View) :=
  match Services.channel_read_rs v h (n_cap st) 0 with
  | (None, _) => OutOfFuel
  | (Some (ReadOk m), v) =>
      let len := Z.of_nat (length (m_data m)) in
      match from_bytes (m_data m) with
      | Some (ArpRequest ip) =>
          let '(resp, packet) := arp_service (table st) (our_mac st) ip in
          v ← arp_out st packet v;
          let bytes := to_bytes resp in
          let n := Z.of_nat (length bytes) in
          Done (true, c, mkNet (table st) (our_mac st) (pcnet st) (reserve (n_cap st) len n) n, Services.channel_write_rs v h bytes [])
      | None => Done (false, c, mkNet (table st) (our_mac st) (pcnet st) (n_cap st) len, v)
      end
  | (Some _, v) => Done (false, c, mkNet (table st) (our_mac st) (pcnet st) (n_cap st) 0, v)
  end.

Definition net_accepter (v : View) : unit * View := (tt, v).

(** Anyone can make the driver panic with a message that is not a request. *)
Lemma bad_request_panics {HW} `{Pcnet.CardIo HW} others fuel h (st : @CardState HW) v m ms :
  inbox v !! h = Some (m :: ms) → 0 ≤ b_len (c_bufs st) ≤ b_cap (c_bufs st) → 0 ≤ b_hlen (c_bufs st) ≤ b_hcap (c_bufs st) →
  from_bytes (A := PhysicalNet) (m_data m) = None → pcnet_handler others fuel h tt st v = Panic PUnwrap.
Proof using.
  intros Hin Hl Hh Hd. unfold pcnet_handler. destruct (resize_takes v h _ _ _ _ m ms Hin Hl Hh) as (cap & hcap & ->).
  by rewrite Hd.
Qed.

(** The network service on a question about an unknown address. *)
Lemma net_asks s key h st v ip ms pms :
  customers s !! key = Some (h, tt) → key ≠ 0 → h ≠ pcnet st →
  inbox v !! h = Some (mkMsg (to_bytes (ArpRequest ip)) [] :: ms) → Z.of_nat (length (to_bytes (ArpRequest ip))) ≤ n_cap st →
  table st !! ip = None → same_subnet IP_ADDR ip SUBNET = Ok tt →
  accepts v (pcnet st) = true → inbox v !! pcnet st = Some (mkMsg [] [] :: pms) →
  ∃ st' v', service_step net_accepter net_handler s key st v = Done (s, st', v') ∧
    sent v' = sent v ++ [(pcnet st, mkMsg (to_bytes (SendPacket (arp_request (our_mac st) ip))) [])] ++
      delivered v h (mkMsg (to_bytes (Pending (Ok tt))) []).
Proof using.
  intros Hc Hk Hne Hin Hcap Ht Hsub Hcl Hrep. unfold service_step. rewrite (proj2 (Z.eqb_neq _ _) Hk), Hc. cbn [unwrap mbind outcome_bind].
  unfold net_handler. rewrite (read_fits v h (n_cap st) 0 _ ms Hin Hcap) by done. cbv zeta. cbn [m_data]. rewrite from_to.
  unfold arp_service, send_arp. rewrite Ht, Hsub. unfold arp_out, simple_call. rewrite simple_send_ok by exact Hcl.
  set (p := to_bytes (SendPacket _)). unfold simple_recv. cbn [b_cap b_len b_hcap b_hlen].
  set (v1 := Services.channel_write_rs _ (pcnet st) p []).
  destruct (resize_takes v1 (pcnet st) (reserve 0 0 (Z.of_nat (length p))) (Z.of_nat (length p)) 0 0 (mkMsg [] []) pms) as (cap & hcap & ->);
    [unfold v1; rewrite inbox_write; cbn; by rewrite lookup_insert_ne|unfold reserve; case_match eqn:E; [apply Z.leb_le in E|]; lia|lia|]. cbn [mbind outcome_bind unwrap].
  eexists _, _. split; [rewrite insert_id by done; by destruct s|]. cbn [sent Services.object_wait_port_rs upd_waits].
  rewrite sent_write. cbn [sent upd_inbox]. unfold v1. rewrite sent_write, <- (assoc_L (++)). f_equal. f_equal.
  - unfold delivered. change (accepts (upd_inbox v _) (pcnet st)) with (accepts v (pcnet st)). by rewrite Hcl.
  - rewrite !delivered_slots. change (free_slots (upd_inbox (Services.channel_write_rs ?u _ _ _) _) h) with (free_slots (Services.channel_write_rs u (pcnet st) p []) h).
    rewrite slots_write, decide_False by done. done.
Qed.

Lemma send_until_first {HW} `{Pcnet.CardIo HW} others fuel (c : Pcnet.PCNET HW) packet r :
  Pcnet.send_packet c packet = Done (Ok tt, r) → (0 < fuel)%nat → send_until others fuel c packet = Done r.
Proof using. intros E Hf. destruct fuel; [lia|]. cbn [send_until]. by rewrite E. Qed.

Lemma arp_request_length mac ip : length (arp_request mac ip) = 42%nat.
Proof using. unfold arp_request, eth_bytes, arp_bytes. by destruct ip. Qed.

(** C31: a question for the address of a machine goes out: the network service, asked for an
    unknown address of its own network, calls the card's service, which takes messages, with
    the ARP request and tells the client to wait; that call makes the card's service put exactly this packet into
    the buffer of a descriptor it owns, hand the descriptor to the card, and answer with the
    empty message that the caller waits for. *)
Theorem arp_question_goes_out {HW} `{Pcnet.CardIo HW} others fuel s key h st v ip ms pms sc kc hc (cs : @CardState HW) vc cms :
  let packet := arp_request (our_mac st) ip in
  let question := mkMsg (to_bytes (SendPacket packet)) [] in
  let cd := card cs in
  customers s !! key = Some (h, tt) → key ≠ 0 → h ≠ pcnet st →
  inbox v !! h = Some (mkMsg (to_bytes (ArpRequest ip)) [] :: ms) → Z.of_nat (length (to_bytes (ArpRequest ip))) ≤ n_cap st →
  table st !! ip = None → same_subnet IP_ADDR ip SUBNET = Ok tt →
  accepts v (pcnet st) = true → inbox v !! pcnet st = Some (mkMsg [] [] :: pms) →
  customers sc !! kc = Some (hc, tt) → kc ≠ 0 → inbox vc !! hc = Some (question :: cms) →
  0 ≤ b_len (c_bufs cs) ≤ b_cap (c_bufs cs) → 0 ≤ b_hlen (c_bufs cs) ≤ b_hcap (c_bufs cs) → (0 < fuel)%nat →
  (Pcnet.send_buffer_pos cd < length (Pcnet.send_buffer_desc cd))%nat →
  (∃ d, d ∈ Pcnet.send_buffer_desc cd ∧ Pcnet.owned d = false) →
  (∃ st' v', service_step net_accepter net_handler s key st v = Done (s, st', v') ∧
     sent v' = sent v ++ [(pcnet st, question)] ++ delivered v h (mkMsg (to_bytes (Pending (Ok tt))) [])) ∧
  ∃ cs' vc' p d, service_step net_accepter (pcnet_handler others fuel) sc kc cs vc = Done (sc, cs', vc') ∧
    sent vc' = sent vc ++ delivered vc hc (mkMsg [] []) ∧
    Pcnet.send_buffer_desc cd !! p = Some d ∧ Pcnet.owned d = false ∧
    Pcnet.read_mem (Pcnet.memory (card cs')) (Pcnet.address d) 42 = packet ∧
    Pcnet.send_buffer_desc (card cs') = <[p := Pcnet.mkDesc (Pcnet.address d) (Pcnet.sent_flags 42) 0 0]> (Pcnet.send_buffer_desc cd).
Proof using.
  intros packet question cd Hc Hk Hne Hin Hcap Ht Hsub Hcl Hrep Hcc Hkc Hinc Hb Hhb Hf Hpos (d0 & Hd0 & Hfree).
  split; [by eapply net_asks|].
  unfold service_step. rewrite (proj2 (Z.eqb_neq _ _) Hkc), Hcc. cbn [unwrap mbind outcome_bind]. unfold pcnet_handler.
  destruct (resize_takes vc hc _ _ _ _ question cms Hinc Hb Hhb) as (cap & hcap & ->). cbv zeta. cbn [m_data m_handles question length].
  rewrite from_to. cbn [unwrap mbind outcome_bind Z.of_nat Z.eqb negb].
  pose proof (arp_request_length (our_mac st) ip) as Hlen. fold packet in Hlen.
  destruct (Pcnet.send_packet_spec cd packet Hpos) as [(l1 & p & l2 & d & m & _ & _ & Hd & Hod & E & Hm & _)|[Hall _]].
  - rewrite Hlen. unfold Pcnet.BUFFER_ENTRY_SIZE. lia.
  - rewrite (send_until_first _ _ _ _ _ E Hf), bind_ret. change (negb (Z.of_nat 0 =? 0)) with false. cbv iota. rewrite bind_ret.
    eexists _, _, p, d. split; [rewrite (insert_id (customers sc)) by done; by destruct sc|].
    cbn [card Pcnet.memory Pcnet.with_send Pcnet.send_buffer_desc sent Services.object_wait_port_rs upd_waits]. rewrite sent_write, Hlen in *.
    split_and!; [done|exact Hd|done|exact Hm|done].
  - rewrite Forall_forall in Hall. specialize (Hall d0 Hd0). congruence.
Qed.
End services.
Arguments CardState HW : clear implicits.
End NetService.

(** ** The test service

    [testing_proc] counts and echoes what a customer sends, in a loop of its own inside the
    handler; [None] when the handler sleeps in [channel_read_rs]. *)
Module Accepter.
Fixpoint accept_loop (fuel : nat) (h i : Z) (v : View) : outcome (option (bool * Z * View)) :=
  match fuel with
  | O => OutOfFuel
  | S fuel =>
      match Services.channel_read_rs v h 100 0 with
      | (None, _) => Done None
      | (Some (ReadOk m), v) =>
          i ← add_u64 i 1;
          accept_loop fuel h i (Services.channel_write_rs v h (m_data m) [])
      | (Some ReadEmpty, v) => Done (Some (true, i, v))
      | (Some _, v) => Done (Some (false, i, v))
      end
  end.

(** The read never reports an empty channel, it sleeps instead: as long as a customer keeps
    its channel open and its messages fit, the handler does not return, and no other customer
    is served. *)
Lemma accepter_serves_one h fuel : ∀ i v ms,
  inbox v !! h = Some ms → h ∉ closed v → Forall (λ m, Z.of_nat (length (m_data m)) ≤ 100 ∧ m_handles m = []) ms →
  0 ≤ i → i + Z.of_nat (length ms) < u64_lim → (length ms < fuel)%nat → accept_loop fuel h i v = Done None.
Proof.
  induction fuel as [|fuel IH]; intros i v ms Hin Hcl Hall Hi Hlim Hf; [lia|]. cbn [accept_loop]. destruct ms as [|m ms].
  - unfold Services.channel_read_rs, Services.channel_read. rewrite Hin, bool_decide_eq_false_2 by done. done.
  - apply Forall_cons in Hall as [[Hm Hh] Hall]. cbn [length] in *.
    rewrite (read_fits v h 100 0 m ms Hin Hm) by (rewrite Hh; done). unfold add_u64. rewrite chk_ok by lia. cbn [mbind outcome_bind].
    apply (IH _ _ ms); [rewrite inbox_write; apply lookup_insert_eq|by rewrite closed_write|done|lia|lia|lia].
Qed.
End Accepter.

(** ** The loader's service *)
Module ElfService.
Section service.
(** What is behind the service: the bytes of a message object by its handle, and [load_elf]
    ([Loader.load_elf]) with the file, the arguments and the handles to pass on; the result
    is a handle for the process, in the loader's own process. *)
Context {K E : Type} `{Postcard E} (message : K → Z → option (list Z)) (load : K → list Z → list Z → list Z → outcome (result Z E * K)).

(** The loop of [elf_new_process_loader]: a connection, for which a thread is started. *)
Definition loader_accept (service : Z) (v : View) : outcome (Z * View) :=
  match Services.channel_read_rs v service 100 1 with
  | (Some (ReadOk m), v) => h ← index (m_handles m) 0; Done (h, v)
  | (Some _, _) => Panic PUnreachable
  | (None, _) => OutOfFuel
  end.

(** The thread of a connection. *)
Definition loader_worker (h : Z) (st : K) (v : View) : outcome (K * View) :=
  match Services.channel_read_rs v h 100 2 with
  | (None, _) => OutOfFuel
  | (Some (ReadOk m), v) =>
      match m_handles m with
      | [e; r] =>
          elf ← unwrap (message st e);
          let v := Services.delete_reference v e in
          '(res, st) ← load st elf (m_data m) [r];
          let v := Services.delete_reference v r in
          match res with
          | Ok proc =>
              let v := Services.channel_write_rs v h [] [proc] in
              Done (st, Services.delete_reference (Services.delete_reference v proc) h)
          | Err err => Done (st, Services.delete_reference (Services.channel_write_rs v h (to_bytes err) []) h)
          end
      | _ => Done (st, Services.delete_reference v h)
      end
  | (Some _, v) => Done (st, Services.delete_reference v h)
  end.

(** [spawn_elf_process] up to the wait for the reply, and what it makes of it; [cap] is the
    capacity of [buffer]. *)
Definition spawn_send (v : View) (channel elf : Z) (args : list Z) (initial_ref : Z) : View :=
  Services.channel_write_rs v channel args [elf; initial_ref].

Definition spawn_receive (v : View) (channel elf cap : Z) : outcome (result Z E * View) :=
  match Services.channel_read_rs v channel cap 1 with
  | (None, _) => OutOfFuel
  | (Some (ReadOk m), v) =>
      let done v := Services.delete_reference (Services.delete_reference v channel) elf in
      match m_handles m with
      | [] => e ← unwrap (from_bytes (m_data m)); Done (Err e, done v)
      | p :: _ => Done (Ok p, done v)
      end
  | (Some _, _) => Panic PUnreachable
  end.

(** What the client sees of a result: its own handle [p] for the process. *)
Definition seen (p : Z) (r : result Z E) : result Z E := match r with Ok _ => Ok p | Err e => Err e end.
Definition arrived (p : Z) (m : Msg) : Msg := mkMsg (m_data m) (match m_handles m with [] => [] | _ => [p] end).

(** Asking the service is calling [load_elf]: with arguments of at most 100 bytes, the thread
    of the connection loads the file with the caller's handle and answers once, and the
    client makes of the answer the process or the error that [load_elf] gave. *)
Theorem elf_service_refines_load h st v args e r ms elf res st' :
  inbox v !! h = Some (mkMsg args [e; r] :: ms) → Z.of_nat (length args) ≤ 100 → message st e = Some elf →
  load st elf args [r] = Done (res, st') →
  ∃ v' reply, loader_worker h st v = Done (st', v') ∧ sent v' = sent v ++ delivered v h reply ∧
    ∀ cv c f cap p, inbox cv !! c = Some [arrived p reply] → Z.of_nat (length (m_data reply)) ≤ cap →
      ∃ cv', spawn_receive cv c f cap = Done (seen p res, cv').
Proof using.
  intros Hin Hlen Hm Hl. unfold loader_worker. rewrite (read_fits v h 100 2 _ ms Hin Hlen) by (cbn; lia). cbn [m_handles m_data].
  rewrite Hm. cbn [unwrap]. rewrite bind_ret. cbv zeta. rewrite Hl, bind_ret. destruct res as [proc|err].
  - eexists _, (mkMsg [] [proc]). split; [done|]. split; [cbn [sent Services.delete_reference]; by rewrite sent_write|]. intros cv c f cap p Hc Hcap. unfold spawn_receive.
    rewrite (read_fits cv c cap 1 _ [] Hc) by (cbn in *; lia). by eexists.
  - eexists _, (mkMsg (to_bytes err) []). split; [done|]. split; [cbn [sent Services.delete_reference]; by rewrite sent_write|]. intros cv c f cap p Hc Hcap. unfold spawn_receive.
    rewrite (read_fits cv c cap 1 _ [] Hc) by (cbn in *; lia). cbn [arrived m_handles m_data]. rewrite from_to. by eexists.
Qed.

(** With longer arguments the thread ends without an answer, and the client panics when it
    finds the channel closed: a long command line ends the shell. *)
Theorem long_arguments_panic h st v args e r ms cv c f cap :
  inbox v !! h = Some (mkMsg args [e; r] :: ms) → 100 < Z.of_nat (length args) →
  loader_worker h st v = Done (st, Services.delete_reference v h) ∧
  (inbox cv !! c = Some [] → c ∈ closed cv → spawn_receive cv c f cap = Panic PUnreachable).
Proof using.
  intros Hin Hlen. split.
  - unfold loader_worker, Services.channel_read_rs, Services.channel_read. rewrite Hin. cbn [m_data m_handles].
    by rewrite (proj2 (Z.ltb_lt 100 (Z.of_nat (length args)))).
  - intros Hc Hcl. unfold spawn_receive, Services.channel_read_rs, Services.channel_read. by rewrite Hc, bool_decide_true.
Qed.
End service.
End ElfService.

(** ** Concrete runs *)

(** A space is pressed and released while programs 20, 21 and 22 listen; 20 is gone and 22
    has room for one message. *)
Definition demo_driver : Ps2Main.Driver script :=
  Ps2Main.mkDriver (PS2Controller_new (mkScript [0x29; 0xF0; 0x29] [])) 7 9 [20; 21; 22] [] [].
Definition demo_repr (m : InputServiceMessage) : list Z := match m with MKeyboardEvent (Down _) => [1] | _ => [0] end.
Definition demo_listened : View := mkView ∅ {[ 20 ]} [] [] [] [] 30 [] {[ 22 := 10000 ]}.

Lemma keys_reach_listeners_witness :
  ∃ s' v', Ps2Main.driver_events demo_repr (replicate 3 Ps2Main.kb_cbk) demo_driver demo_listened = Done (s', v') ∧
    Ps2Main.to_handle 20 (sent v') = [] ∧ Ps2Main.to_handle 21 (sent v') = [mkMsg [1] []; mkMsg [0] []] ∧
    Ps2Main.to_handle 22 (sent v') = [mkMsg [1] []] ∧ Ps2Main.kb_listeners s' = [21].
Proof.
  destruct (Ps2Main.keys_reach_listeners demo_repr [0x29; 0xF0; 0x29] demo_driver demo_listened (mkScript [] [])) as (s' & v' & E & Hl & _ & _ & H & _).
  - repeat (eexists; split; [reflexivity|]). reflexivity.
  - apply (bool_decide_unpack _). by vm_compute.
  - exists s', v'. split; [exact E|]. split; [|split; [|split]].
    + rewrite H. vm_compute. reflexivity.
    + rewrite H. vm_compute. reflexivity.
    + rewrite H. vm_compute. reflexivity.
    + rewrite Hl. vm_compute. reflexivity.
Defined.

Definition demo_waiting : View := mkView {[ 7 := [mkMsg [1] [20]; mkMsg [1] [21]] ]} ∅ [] [(9, 4)] [3] [(7, 8); (9, 10)] 11 [] ∅.

(** Two programs ask for the keyboard; the first is taken. *)
Lemma one_listener_at_most_witness :
  ∃ v, rtc (Ps2Main.drv_step demo_repr) (Ps2Main.driver_start (PS2Controller_new (mkScript [] [])) demo_empty)
      (Ps2Main.mkDriver (PS2Controller_new (mkScript [] [])) 7 9 [20] [] [], v) ∧
    (length [20] ≤ 1)%nat ∧ inbox v !! 7 = Some [mkMsg [1] [21]].
Proof.
  set (c := PS2Controller_new (mkScript [] [])).
  set (v1 := mkView ∅ ∅ [] [(7, 3); (9, 4)] [] [(7, 8); (9, 10)] 11 [] ∅).
  set (v2 := mkView {[ 7 := [mkMsg [1] [20]; mkMsg [1] [21]] ]} ∅ [] [(7, 3); (9, 4)] [] [(7, 8); (9, 10)] 11 [] ∅).
  set (v3 := upd_inbox (upd_events demo_waiting []) (<[7 := [mkMsg [1] [21]]]> (inbox demo_waiting))).
  assert (Hs : rtc (Ps2Main.drv_step demo_repr) (Ps2Main.mkDriver c 7 9 [] [] [], v1) (Ps2Main.mkDriver c 7 9 [20] [] [], v3)).
  { eapply (rtc_l _ _ (Ps2Main.mkDriver c 7 9 [] [] [], v2)); [by apply Ps2Main.drv_arrive|].
    eapply (rtc_l _ _ (Ps2Main.mkDriver c 7 9 [] [] [], demo_waiting)); [exact (Ps2Main.drv_notify _ _ v2 [] 7 3 [(9, 4)] eq_refl)|].
    eapply rtc_once. by apply (Ps2Main.drv_serve _ _ demo_waiting 3 []). }
  exists v3. split; [exact Hs|]. split; [|reflexivity].
  exact (proj1 (Ps2Main.one_listener_at_most demo_repr c demo_empty _ _ _ _ eq_refl eq_refl eq_refl Hs)).
Defined.

(** A client reads file 1 of the file system of [Fat]'s examples through the service. *)
#[local] Instance FSServiceMessage_eq_dec : EqDecision FSServiceMessage.
Proof. solve_decision. Defined.
#[local] Instance FSServiceMessage_countable : Countable FSServiceMessage.
Proof.
  refine (inj_countable'
    (λ q, match q with RunStat d p => inl (d, p) | ReadRequest d n s => inr (inl (d, n, s)) | ReadFullFileRequest d n => inr (inr (inl (d, n))) | GetDisksRequest => inr (inr (inr tt)) end)
    (λ x, match x with inl (d, p) => RunStat d p | inr (inl (d, n, s)) => ReadRequest d n s | inr (inr (inl (d, n))) => ReadFullFileRequest d n | inr (inr (inr _)) => GetDisksRequest end) _).
  by intros [].
Defined.
#[local] Instance StatResponse_eq_dec : EqDecision StatResponse.
Proof. solve_decision. Defined.
#[local] Instance StatResponse_countable : Countable StatResponse.
Proof.
  refine (inj_countable' (λ s, match s with StatFolder n c => inl (n, c) | StatFile n z => inr (n, z) end)
    (λ x, match x with inl (n, c) => StatFolder n c | inr (n, z) => StatFile n z end) _).
  by intros [].
Defined.
#[local] Instance FSServiceError_eq_dec : EqDecision FSServiceError.
Proof. solve_decision. Defined.
#[local] Instance FsWire_eq_dec : EqDecision FsService.FsWire.
Proof. solve_decision. Defined.
#[local] Instance result_eq_dec {A E} `{EqDecision A, EqDecision E} : EqDecision (result A E).
Proof. solve_decision. Defined.
#[local] Instance fs_reply_countable : Countable (result FsService.FsWire FSServiceError).
Proof.
  refine (inj_countable'
    (λ r, match r with
          | Ok FsService.WExpectedQuestion => inl (inl tt) | Ok (FsService.WStat s) => inl (inr (inl s))
          | Ok (FsService.WRead l) => inl (inr (inr (inl l))) | Ok (FsService.WDisks d) => inl (inr (inr (inr d)))
          | Err (NoSuchPartition i) => inr (inl i) | Err CouldNotFollowPath => inr (inr (Some true))
          | Err FileNotFound => inr (inr (Some false)) | Err InvalidRequestForFileType => inr (inr None)
          end)
    (λ x, match x with
          | inl (inl _) => Ok FsService.WExpectedQuestion | inl (inr (inl s)) => Ok (FsService.WStat s)
          | inl (inr (inr (inl l))) => Ok (FsService.WRead l) | inl (inr (inr (inr d))) => Ok (FsService.WDisks d)
          | inr (inl i) => Err (NoSuchPartition i) | inr (inr (Some true)) => Err CouldNotFollowPath
          | inr (inr (Some false)) => Err FileNotFound | inr (inr None) => Err InvalidRequestForFileType
          end) _).
  by intros [[]|[]].
Defined.
#[local] Instance demo_request_codec : Postcard FSServiceMessage := countable_postcard.
#[local] Instance demo_reply_codec : Postcard (result FsService.FsWire FSServiceError) := countable_postcard.

Definition demo_request : FSServiceMessage := ReadFullFileRequest 0 1.
Definition demo_fs_view : View := mkView {[ 50 := [mkMsg (to_bytes demo_request) []] ]} ∅ [] [] [] [] 60 [] ∅.
Definition demo_mounts : Mounts := mkMounts {[ 0 := demo_fat ]} 1 10.

Lemma demo_query : ∃ r mo, run_fs_query 1 demo_mounts demo_request [] = Done (r, mo).
Proof.
  assert (Hd : match run_fs_query 1 demo_mounts demo_request [] with Done _ => true | _ => false end = true) by (vm_compute; reflexivity).
  destruct (run_fs_query 1 demo_mounts demo_request []) as [[r mo]| |]; [by exists r, mo|discriminate Hd..].
Qed.

Lemma fs_service_refines_calls_witness :
  ∃ s' st' v' reply mo,
    service_step FsService.fs_accepter (FsService.file_handler 1 []) (mkService 7 {[ 1 := (50, tt) ]}) 1 (FsService.fs_start demo_mounts) demo_fs_view = Done (s', st', v') ∧
    sent v' = [(50, reply)] ∧
    client_read 1 [] demo_mounts demo_request = (x ← FsService.read_reply (FsService.made st') reply; Done (x, mo)).
Proof.
  destruct demo_query as (r & mo & Hq).
  destruct (FsService.fs_service_refines_calls 1 [] (mkService 7 {[ 1 := (50, tt) ]}) 1 50 (FsService.fs_start demo_mounts) demo_fs_view
    demo_request [] r mo) as (st' & v' & reply & E & _ & _ & _ & Hs & _ & _ & Hr); [done|reflexivity|reflexivity|cbn; lia|exact Hq|].
  exists (mkService 7 {[ 1 := (50, tt) ]}), st', v', reply, mo. split; [exact E|]. split; [exact Hs|exact Hr].
Defined.

(** A client asks for 10.0.2.2; the card has a free descriptor. *)
Section arp_demo.
Import NetService.
#[local] Instance PhysicalNet_eq_dec : EqDecision PhysicalNet.
Proof. solve_decision. Defined.
#[local] Instance PhysicalNet_countable : Countable PhysicalNet.
Proof.
  refine (inj_countable' (λ q, match q with MacAddrGet => inl tt | SendPacket p => inr (inl p) | ListenToPackets => inr (inr tt) end)
    (λ x, match x with inl _ => MacAddrGet | inr (inl p) => SendPacket p | inr (inr _) => ListenToPackets end) _).
  by intros [].
Defined.
#[local] Instance Networking_eq_dec : EqDecision Networking.
Proof. solve_decision. Defined.
#[local] Instance Networking_countable : Countable Networking.
Proof. refine (inj_countable' (λ '(ArpRequest ip), ip) ArpRequest _). by intros []. Defined.
#[local] Instance NotSameSubnetError_eq_dec : EqDecision NotSameSubnetError.
Proof. solve_decision. Defined.
#[local] Instance ArpResponse_eq_dec : EqDecision ArpResponse.
Proof. solve_decision. Defined.
#[local] Instance ArpResponse_countable : Countable ArpResponse.
Proof.
  refine (inj_countable'
    (λ r, match r with Mac m => inl m | Pending (Ok _) => inr None | Pending (Err e) => inr (Some (ns_a e, ns_b e, ns_subnet e)) end)
    (λ x, match x with inl m => Mac m | inr None => Pending (Ok tt) | inr (Some (a, b, s)) => Pending (Err (mkNotSame a b s)) end) _).
  by intros [|[[]|[]]].
Defined.
#[local] Instance demo_card_codec : Postcard PhysicalNet := countable_postcard.
#[local] Instance demo_net_codec : Postcard Networking := countable_postcard.
#[local] Instance demo_arp_codec : Postcard ArpResponse := countable_postcard.
#[local] Instance demo_mac_codec : Postcard Z := countable_postcard.

#[local] Existing Instance Pcnet.demo_io.

Definition demo_ip : IPAddr := V4 10 0 2 2.
Definition demo_net : NetState := mkNet ∅ 0x525400123456 60 100 0.
Definition demo_question : Msg := mkMsg (to_bytes (SendPacket (arp_request 0x525400123456 demo_ip))) [].
Definition demo_net_view : View :=
  mkView {[ 50 := [mkMsg (to_bytes (ArpRequest demo_ip)) []]; 60 := [mkMsg [] []] ]} ∅ [] [] [] [] 70 [] ∅.
Definition demo_card_view : View := mkView {[ 51 := [demo_question] ]} ∅ [] [] [] [] 70 [] ∅.
Definition demo_card_state : CardState unit := mkCard Pcnet.demo_card (mkBufs 0 0 0 0).

Lemma arp_question_goes_out_witness :
  (∃ st' v', service_step net_accepter net_handler (mkService 7 {[ 1 := (50, tt) ]}) 1 demo_net demo_net_view = Done (mkService 7 {[ 1 := (50, tt) ]}, st', v') ∧
     sent v' = [(60, demo_question); (50, mkMsg (to_bytes (Pending (Ok tt))) [])]) ∧
  ∃ cs' vc', service_step net_accepter (pcnet_handler id 1) (mkService 8 {[ 1 := (51, tt) ]}) 1 demo_card_state demo_card_view = Done (mkService 8 {[ 1 := (51, tt) ]}, cs', vc') ∧
    sent vc' = [(51, mkMsg [] [])].
Proof.
  destruct (arp_question_goes_out id 1 (mkService 7 {[ 1 := (50, tt) ]}) 1 50 demo_net demo_net_view demo_ip [] []
    (mkService 8 {[ 1 := (51, tt) ]}) 1 51 demo_card_state demo_card_view []) as [H1 (cs' & vc' & p & d & E & Hs & _)].
  - reflexivity.
  - done.
  - done.
  - reflexivity.
  - cbn. lia.
  - reflexivity.
  - reflexivity.
  - reflexivity.
  - reflexivity.
  - reflexivity.
  - done.
  - reflexivity.
  - cbn. lia.
  - cbn. lia.
  - lia.
  - cbn. lia.
  - eexists. split; [right; left|reflexivity].
  - split; [exact H1|]. exists cs', vc'. split; [exact E|exact Hs].
Defined.
End arp_demo.
