(* ===== verification/Drives.v ===== *)
(** * Disk controllers and the registry of disks

    The registers of an AHCI controller as [driver/disk/ahci.rs] lays them out and the page
    [AHCIDriver::new] maps for them, and [FileSystemDrives] of [fs/mod.rs], which mounts the
    partitions of every disk at start-up. *)
From S2P Require Import Prelude Page PhysMem AllocIface PageAlloc PageTable KernelHeap Loader Boot Fat Ahci.
#[local] Open Scope string_scope.
#[local] Open Scope list_scope.
#[local] Open Scope Z_scope.

(** ** The registers *)

(** The fields with the size of an element and their number ([Ahci.offset_of]). *)
Definition HBAPort_fields : list (string * Z * Z) :=
  [("command_list_base", 8, 1); ("fis_base_address", 8, 1); ("interrupt_status", 4, 1); ("interrupt_enable", 4, 1); ("cmd_sts", 4, 1);
   ("_rsv0", 4, 1); ("task_file_data", 4, 1); ("signature", 4, 1); ("sata_status", 4, 1); ("sata_control", 4, 1); ("sata_error", 4, 1);
   ("sata_active", 4, 1); ("command_issue", 4, 1); ("sata_notification", 4, 1); ("fis_switch_control", 4, 1); ("_rsv1", 4, 11); ("_vendor", 4, 4)].

(** The 32 ports are aligned as their first field is. *)
Definition HBAMemory_fields : list (string * Z * Z) :=
  [("host_capability", 4, 1); ("global_host_control", 4, 1); ("interrupt_status", 4, 1); ("ports_implemented", 4, 1); ("version", 4, 1);
   ("ccc_control", 4, 1); ("ccc_ports", 4, 1); ("enclosure_management_location", 4, 1); ("enclosure_management_control", 4, 1);
   ("host_capabilities_extended", 4, 1); ("bios_handof_ctrl_sts", 4, 1); ("_rsv0", 1, 0x74); ("_vendor", 1, 0x60);
   ("ports", 8, 32 * (repr_c_end 0 HBAPort_fields / 8))].

Definition port_offset (i : Z) : Z := default 0 (offset_of "ports" 0 HBAMemory_fields) + i * repr_c_end 0 HBAPort_fields.

(** The layout is that of the AHCI specification. *)
Lemma registers_match_specification :
  (λ f, offset_of f 0 HBAPort_fields) <$> ["fis_base_address"; "interrupt_status"; "cmd_sts"; "task_file_data"; "signature"; "sata_status"; "sata_active"; "command_issue"]
    = Some <$> [0x08; 0x10; 0x18; 0x20; 0x24; 0x28; 0x34; 0x38] ∧
  repr_c_end 0 HBAPort_fields = 0x80 ∧ offset_of "ports_implemented" 0 HBAMemory_fields = Some 0x0C ∧ port_offset 0 = 0x100 ∧
  repr_c_end 0 HBAMemory_fields = 0x1100.
Proof. by vm_compute. Qed.

Section abar.
Context {A : Type} {HA : PageAllocator A} {HS : @PageAllocatorSpec A HA} (off : Z) (Hoff : offset_ok off).

(** The mapping of the registers at the start of [AHCIDriver::new]; [root] is the table of the
    calling task. *)
Definition map_abar (s : A * PMem) (root abar : Z) : outcome (A * PMem) :=
  page ← Page_new Size4KB abar;
  '(r, s) ← identity_map off Size4KB 3 s root page flags_all;
  match r with Ok _ => Done s | Err _ => Panic PUnwrap end.

(** One page is mapped, which has the registers of the ports 0 to 29; those of the ports 30
    and 31 lie in the next page, which stays as it was. *)
Theorem last_ports_not_mapped s F root abar :
  pa_owns s F → frames_wf F (tables 3 (snd s) root) → 0 < abar < u32_lim → abar mod 0x1000 = 0 →
  translate 3 (snd s) root abar = None → opens flags_all 3 (snd s) root abar → (3 ≤ length F)%nat →
  ∃ s', map_abar s root abar = Done s' ∧
    (∀ i r, 0 ≤ i < 30 → 0 ≤ r < 0x80 → is_Some (translate 3 (snd s') root (abar + port_offset i + r))) ∧
    (∀ i r, 30 ≤ i < 32 → 0 ≤ r < 0x80 → translate 3 (snd s') root (abar + port_offset i + r) = translate 3 (snd s) root (abar + port_offset i + r)).
Proof using Hoff.
  intros Ho Hwf Ha Ham Hn Hop HF. unfold u32_lim in Ha. destruct (translate_None 3 _ _ _ Hn) as [Hc Hs]. unfold map_abar.
  rewrite (Page_new_ok Size4KB abar) by (lia || exact Ham). rewrite bind_ret. unfold identity_map.
  assert (Hpo : ∀ i, port_offset i = 0x100 + i * 0x80) by done. apply Z.mod_divide in Ham as [q Hq]; [|done].
  destruct (Mapper_map_ok off Hoff Size4KB 3 s F root abar abar flags_all) as (s' & F' & e & -> & _ & _ & Ht & _ & Hoth & _); [done|done| |done|done|done|done|].
  { split; [lia|]. subst abar. by apply Z_mod_mult. }
  rewrite bind_ret. exists s'. split; [done|]. split; intros i r Hi Hr; rewrite Hpo.
  - exists (O, e). rewrite (translate_same_page 3 _ _ _ abar); [exact Ht|]. subst abar. rewrite Z.div_mul by done.
    replace (q * 0x1000 + (0x100 + i * 0x80) + r) with (q * 0x1000 + (0x100 + i * 0x80 + r)) by lia. rewrite Z.div_add_l, Z.div_small by lia. lia.
  - apply Hoth. intros Hsp. assert (Hv : ∀ v, 0 ≤ v < 2 ^ 33 → virt_ok v) by (intros v Hv; split; [unfold u64_lim; lia|left; lia]).
    apply (same_path_page Size4KB) in Hsp; [|apply Hv; lia..]. subst abar. change (PAGE_SIZE Size4KB) with 0x1000 in Hsp. rewrite Z.div_mul in Hsp by done.
    replace (q * 0x1000 + (0x100 + i * 0x80) + r) with ((q + 1) * 0x1000 + (i * 0x80 + r - 0xF00)) in Hsp by lia. rewrite Z.div_add_l, Z.div_small in Hsp by lia. lia.
Qed.
End abar.

(** ** The registry *)

(** A bus gives its disks, a disk its sectors. *)
Record FileSystemDrives := mkDrives { disks_buses : list (list (Z → list Z)) }.

Definition add_device (d : FileSystemDrives) (device : list (Z → list Z)) : FileSystemDrives := mkDrives (disks_buses d ++ [device]).

Fixpoint mount_disks (fuel : nat) (disks : list (Z → list Z)) (s : Mounts) : outcome Mounts :=
  match disks with [] => Done s | disk :: disks => s ← read_partitions fuel disk s; mount_disks fuel disks s end.

(** [identify]; what a disk says of itself ([Ahci.Port_identify]) is only logged. *)
Fixpoint identify_buses (fuel : nat) (buses : list (list (Z → list Z))) (s : Mounts) : outcome Mounts :=
  match buses with [] => Done s | disks :: buses => s ← mount_disks fuel disks s; identify_buses fuel buses s end.

Definition identify (fuel : nat) (d : FileSystemDrives) (s : Mounts) : outcome Mounts := identify_buses fuel (disks_buses d) s.

(** The numbers of the partitions are those below the counter. *)
Definition numbered (s : Mounts) : Prop := 0 ≤ next_partition s ∧ ∀ id, is_Some (PARTITION s !! id) ↔ 0 ≤ id < next_partition s.

Definition extends (s s' : Mounts) : Prop :=
  numbered s → numbered s' ∧ next_partition s ≤ next_partition s' ∧ ∀ id, is_Some (PARTITION s !! id) → PARTITION s' !! id = PARTITION s !! id.

#[export] Instance extends_preorder : PreOrder extends.
Proof.
  split; [by intros s Hs|]. intros a b c Hab Hbc Ha. destruct (Hab Ha) as (Hb & H1 & H2). destruct (Hbc Hb) as (Hc & H3 & H4).
  split; [done|]. split; [lia|]. intros id Hid. rewrite H4, H2; [done|done|by rewrite H2].
Qed.

Lemma mount_all_extends fuel secs parts : ∀ s s', mount_all fuel secs parts s = Done s' → extends s s'.
Proof.
  induction parts as [|part parts IH]; intros s s' E; cbn [mount_all] in E; [by injection E as <-|].
  destruct (_ || _); [|by apply IH]. apply bind_Done in E as (fat & _ & E). etransitivity; [|by apply (IH _ _ E)].
  intros [H0 Hs]. split_and!; cbn; [split; cbn; [lia|]|lia|].
  - intros id. rewrite lookup_insert_is_Some. specialize (Hs id). rewrite Hs. lia.
  - intros id Hid%Hs. apply lookup_insert_ne. lia.
Qed.

Lemma mount_disks_extends fuel disks : ∀ s s', mount_disks fuel disks s = Done s' → extends s s'.
Proof.
  induction disks as [|d disks IH]; intros s s' E; cbn [mount_disks] in E; [by injection E as <-|]. apply bind_Done in E as (s1 & E1 & E).
  etransitivity; [|by apply (IH _ _ E)]. unfold read_partitions in E1. apply bind_Done in E1 as (_ & _ & E1). by eapply mount_all_extends.
Qed.

(** Mounting the disks numbers the new partitions from where the counter was, without gaps,
    and leaves the partitions that are mounted alone. *)
Theorem identify_extends fuel d s s' : identify fuel d s = Done s' → extends s s'.
Proof.
  unfold identify. generalize (disks_buses d). intros buses. revert s. induction buses as [|b buses IH]; intros s E; cbn [identify_buses] in E; [by injection E as <-|].
  apply bind_Done in E as (s1 & E1 & E). etransitivity; [by eapply mount_disks_extends|by apply IH].
Qed.
