(* ===== verification/Console.v ===== *)
(** * The console: serial port, log lines and standard output

    [kernel/src/serial.rs] (the serial port and the debug monitor behind it),
    [kernel/src/logging.rs] (where a log record goes), the service STDOUT of
    [kernel/src/screen/gop.rs], the pointer task of [kernel/src/screen/mouse.rs] and the
    [Writer] of [userspace/src/print.rs] with which programs print.  The bytes of the wire
    and the cells of [Terminal] are both made from the same texts ([Text]). *)
From S2P Require Import Prelude Sched Text Keyboard Ps2 Terminal Services Daemons.

(** A literal of the source. *)
Definition text (s : string) : list Z := (λ a, Z.of_nat (Ascii.nat_of_ascii a)) <$> String.list_ascii_of_string s.

(** ** The serial port *)
Module Uart.

(** The ports of the chip. *)
Class UartIO (D : Type) := {
  inb : D → Z → Z * D;
  outb : D → Z → Z → D;
}.

Definition COM_1 : Z := 0x3f8.

Section serial.
Context {D : Type} `{UartIO D}.

Record Serial := mkSerial { bus_base : Z; chip : D }.

(** [get_port(offset).read()] and [.write(value)]. *)
Definition port_read (s : Serial) (offset : Z) : outcome (Z * Serial) :=
  p ← add_u16 (bus_base s) offset;
  let '(b, d) := inb (chip s) p in Done (b, mkSerial (bus_base s) d).

Definition port_write (s : Serial) (offset value : Z) : outcome Serial :=
  p ← add_u16 (bus_base s) offset;
  Done (mkSerial (bus_base s) (outb (chip s) p value)).

Definition init (s : Serial) : outcome (bool * Serial) :=
  s ← port_write s 1 0x00;
  s ← port_write s 3 0x80;
  s ← port_write s 0 (115200 / 9600);
  s ← port_write s 1 0x00;
  s ← port_write s 3 0x03;
  s ← port_write s 2 0xC7;
  s ← port_write s 4 0x0B;
  s ← port_write s 4 0x1E;
  s ← port_write s 0 0xAE;
  '(b, s) ← port_read s 0;
  if negb (b =? 0xAE) then Done (false, s)
  else
    s ← port_write s 4 0x0F;
    s ← port_write s 1 1;
    Done (true, s).

Definition readable (s : Serial) : outcome (bool * Serial) :=
  '(b, s) ← port_read s 5; Done (0 <? Z.land b 1, s).

Definition writeable (s : Serial) : outcome (bool * Serial) :=
  '(b, s) ← port_read s 5; Done (0 <? Z.land b 0x20, s).

Fixpoint read_serial (fuel : nat) (s : Serial) : outcome (Z * Serial) :=
  match fuel with
  | O => OutOfFuel
  | S fuel => '(r, s) ← readable s; if (r : bool) then port_read s 0 else read_serial fuel s
  end.

Definition try_read (s : Serial) : outcome (option Z * Serial) :=
  '(r, s) ← readable s;
  if (r : bool) then '(b, s) ← port_read s 0; Done (Some b, s) else Done (None, s).

Fixpoint write_serial (fuel : nat) (s : Serial) (byte : Z) : outcome Serial :=
  match fuel with
  | O => OutOfFuel
  | S fuel => '(r, s) ← writeable s; if (r : bool) then port_write s 0 byte else write_serial fuel s byte
  end.

(** [write_str], on the bytes of the string. *)
Definition write_bytes (fuel : nat) (s : Serial) (l : list Z) : outcome Serial := for_in (write_serial fuel) l s.

(** *** The monitor

    What the commands print of the kernel: [debug_thread] is the text of a thread under
    [{:?}], [debug_process] that of a process number. *)
Context (debug_thread debug_process show_u64 : nat → list Z).

(** The state the commands look at: the run queue, the time, the sleeping threads and the
    processes with their names and threads, in the order their iterators give. *)
Record Machine := mkMachine {
  run_queue : SchedData;
  uptime : nat;
  slept : list (nat * nat);
  processes : list (nat * list Z * list nat);
}.

(** [dump_runnable]: the threads from the head of the queue. *)
Fixpoint dump_queue (fuel : nat) (sd : SchedData) (head : option nat) : outcome (list Z) :=
  match head with
  | None => Done []
  | Some h =>
      match fuel with
      | O => OutOfFuel
      | S fuel => rest ← dump_queue fuel sd (next (threads sd h)); Done (debug_thread h ++ [LF] ++ rest)
      end
  end.
Definition dump_runnable (fuel : nat) (sd : SchedData) : outcome (list Z) :=
  l ← dump_queue fuel sd (queue_head sd); Done (text "Runnable tasks" ++ [LF] ++ l).

Definition slept_lines (m : Machine) : list Z :=
  text "Slept processes (time: " ++ show_u64 (uptime m) ++ text ")" ++ [LF] ++
  concat ((λ p, show_u64 p.1 ++ [32] ++ debug_thread p.2 ++ [LF]) <$> slept m).

Definition process_lines (m : Machine) : list Z :=
  concat ((λ '(pid, name, ts), debug_process pid ++ [32] ++ name ++ [LF] ++
                                concat ((λ t, [9] ++ debug_thread t ++ [LF]) <$> ts)) <$> processes m).

Definition level_of_key (b : Z) : option Level :=
  if b =? 101 then Some LError else if b =? 119 then Some LWarn else if b =? 105 then Some LInfo
  else if b =? 100 then Some LDebug else if b =? 116 then Some LTrace else None.

(** The name of a level filter. *)
Definition level_name (l : Level) : list Z :=
  match l with
  | LError => text "ERROR" | LWarn => text "WARN" | LInfo => text "INFO" | LDebug => text "DEBUG" | LTrace => text "TRACE"
  end.

(** One byte from the wire; [max_level] is what [log::set_max_level] sets.  [poll] bounds
    the polling of the chip, [qfuel] the length of the run queue. *)
Definition command (poll qfuel : nat) (m : Machine) (b : Z) (s : Serial) (max_level : Level) : outcome (Serial * Level) :=
  if b =? 13 then s ← write_serial poll s LF; Done (s, max_level)
  else if b =? 115 then
    l ← dump_runnable qfuel (run_queue m);
    s ← write_bytes poll s l;
    s ← write_bytes poll s (slept_lines m);
    Done (s, max_level)
  else if b =? 108 then
    s ← write_bytes poll s (text "Change log level to: ");
    '(to, s) ← read_serial poll s;
    match level_of_key to with
    | None =>
        s ← write_serial poll s to;
        s ← write_bytes poll s (text " Unknown log level" ++ [LF]);
        Done (s, max_level)
    | Some to => s ← write_bytes poll s (text "Set log level to " ++ level_name to ++ [LF]); Done (s, to)
    end
  else if b =? 112 then s ← write_bytes poll s (process_lines m); Done (s, max_level)
  else s ← write_bytes poll s (text "Unknown cmd: " ++ utf8_char b ++ [LF]); Done (s, max_level).

(** The inner loop of [serial_monitor_stdin], up to [interrupt_wait]. *)
Fixpoint serial_monitor (fuel poll qfuel : nat) (m : Machine) (s : Serial) (max_level : Level) : outcome (Serial * Level) :=
  match fuel with
  | O => OutOfFuel
  | S fuel =>
      '(b, s) ← try_read s;
      match b with
      | None => Done (s, max_level)
      | Some b => '(s, max_level) ← command poll qfuel m b s max_level; serial_monitor fuel poll qfuel m s max_level
      end
  end.

(** *** Log records *)
Definition get_8bit_color_for_level (l : Level) : list Z :=
  match l with LError => text "31" | LWarn => text "33" | LInfo => text "32" | LDebug => text "34" | LTrace => text "35" end.

Definition level_rank (l : Level) : Z := match l with LError => 1 | LWarn => 2 | LInfo => 3 | LDebug => 4 | LTrace => 5 end.

Definition enabled (max_level level : Level) : bool := level_rank level <=? level_rank max_level.

Definition ESC : Z := 0x1b.
Definition log_line (level : Level) (target args : list Z) : list Z :=
  [ESC] ++ text "[1;" ++ get_8bit_color_for_level level ++ text "m" ++ level_text level ++
  [ESC] ++ text "[22;39m " ++ target ++ text " > " ++ args ++ [LF].

(** [KernelLogger::log], with the devices that are there. *)
Definition log (poll : nat) (max_level level : Level) (target args : list Z) (s : option Serial) (w : option Writer)
  : outcome (option Serial * option Writer) :=
  if enabled max_level level then
    s ← match s with
        | Some s => s ← write_bytes poll s (as_bytes (log_line level target args)); Done (Some s)
        | None => Done None
        end;
    w ← match w with
        | Some w => w ← log_screen w level target args; Done (Some w)
        | None => Done None
        end;
    Done (s, w)
  else Done (s, w).
End serial.
Arguments Serial D : clear implicits.

(** *** What the chip promises

    Bytes come out of [rx] in their order and go to [tx]; a byte may take up to [limit]
    polls to be there, and so may the room for the next one. *)
Class UartSpec (D : Type) `{UartIO D} (base : Z) (limit : nat) := {
  up : D → Prop;
  rx : D → list Z;
  tx : D → list Z;
  rlag : D → nat;
  wlag : D → nat;
  lag_limit d : up d → (rlag d ≤ limit)%nat ∧ (wlag d ≤ limit)%nat;
  status_spec d : up d → ∃ st d', inb d (base + 5) = (st, d') ∧
    (0 <? Z.land st 1) = (rlag d =? 0)%nat && bool_decide (rx d ≠ []) ∧ (0 <? Z.land st 0x20) = (wlag d =? 0)%nat ∧
    up d' ∧ rx d' = rx d ∧ tx d' = tx d ∧ rlag d' = pred (rlag d) ∧ wlag d' = pred (wlag d);
  take_spec d b r : up d → rlag d = 0%nat → rx d = b :: r →
    ∃ d', inb d base = (b, d') ∧ up d' ∧ rx d' = r ∧ tx d' = tx d;
  put_spec d b : up d → wlag d = 0%nat → up (outb d base b) ∧ rx (outb d base b) = rx d ∧ tx (outb d base b) = tx d ++ [b];
}.

Section correct.
Context {D : Type} `{UartSpec D base limit} (Hbase : 0 ≤ base ∧ base + 5 < u16_lim).
Context (debug_thread debug_process show_u64 : nat → list Z).

(** A port that is set up, with [r] to be read and [t] written. *)
Definition serial_at (s : Serial D) (r t : list Z) : Prop := bus_base s = base ∧ up (chip s) ∧ rx (chip s) = r ∧ tx (chip s) = t.

Lemma status_read s r t : serial_at s r t → ∃ st s', port_read s 5 = Done (st, s') ∧ serial_at s' r t ∧
  (0 <? Z.land st 1) = (rlag (chip s) =? 0)%nat && bool_decide (r ≠ []) ∧ (0 <? Z.land st 0x20) = (wlag (chip s) =? 0)%nat ∧
  rlag (chip s') = pred (rlag (chip s)) ∧ wlag (chip s') = pred (wlag (chip s)).
Proof using Hbase.
  intros (Hb & Hu & <- & <-). destruct (status_spec (chip s) Hu) as (st & d' & E & Hr & Hw & Hu' & Er & Et & Lr & Lw).
  unfold port_read, add_u16. rewrite (chk_ok u16_lim) by lia. rewrite bind_ret, Hb, E. eexists _, _. split; [done|]. by split_and!.
Qed.

Lemma write_serial_ok fuel s r t b : serial_at s r t → (wlag (chip s) < fuel)%nat →
  ∃ s', write_serial fuel s b = Done s' ∧ serial_at s' r (t ++ [b]).
Proof using Hbase.
  revert s. induction fuel as [|fuel IH]; intros s Hs Hf; [lia|]. cbn [write_serial]. unfold writeable.
  destruct (status_read s r t Hs) as (st & s1 & -> & Hs1 & _ & Hw & _ & Lw). rewrite !bind_ret, Hw.
  destruct (Nat.eqb_spec (wlag (chip s)) 0) as [Hz|Hz].
  - destruct Hs1 as (Hb & Hu & <- & <-). unfold port_write, add_u16. rewrite (chk_ok u16_lim) by lia. rewrite bind_ret, Hb, Z.add_0_r.
    destruct (put_spec (chip s1) b Hu) as (? & ? & ?); [lia|]. eexists. split; [done|]. by split_and!.
  - apply IH; [done|lia].
Qed.

Lemma write_bytes_ok poll l : ∀ s r t, (limit < poll)%nat → serial_at s r t → ∃ s', write_bytes poll s l = Done s' ∧ serial_at s' r (t ++ l).
Proof using Hbase.
  unfold write_bytes. induction l as [|b l IH]; intros s r t Hp Hs; cbn [for_in]; [by exists s; rewrite app_nil_r|].
  destruct (write_serial_ok poll s r t b Hs) as (s1 & -> & Hs1).
  { destruct Hs as (_ & Hu & _). pose proof (lag_limit _ Hu). lia. }
  rewrite bind_ret. destruct (IH s1 r (t ++ [b]) Hp Hs1) as (s2 & -> & Hs2). exists s2. by rewrite <- (assoc_L (++)) in Hs2.
Qed.

Lemma take_ready s b r t : serial_at s (b :: r) t → rlag (chip s) = 0%nat → ∃ s', port_read s 0 = Done (b, s') ∧ serial_at s' r t.
Proof using Hbase.
  intros (Hb & Hu & Hr & <-) Hz. destruct (take_spec _ _ _ Hu Hz Hr) as (d' & E & ? & ? & ?).
  unfold port_read, add_u16. rewrite (chk_ok u16_lim) by lia. rewrite bind_ret, Hb, Z.add_0_r, E. eexists. split; [done|]. by split_and!.
Qed.

Lemma read_serial_ok fuel s b r t : serial_at s (b :: r) t → (rlag (chip s) < fuel)%nat →
  ∃ s', read_serial fuel s = Done (b, s') ∧ serial_at s' r t.
Proof using Hbase.
  revert s. induction fuel as [|fuel IH]; intros s Hs Hf; [lia|]. cbn [read_serial]. unfold readable.
  destruct (status_read s _ t Hs) as (st & s1 & -> & Hs1 & Hr & _ & Lr & _). rewrite !bind_ret, Hr, bool_decide_true, andb_true_r by done.
  destruct (Nat.eqb_spec (rlag (chip s)) 0) as [Hz|Hz]; [apply take_ready; [done|lia]|apply IH; [done|lia]].
Qed.

Lemma try_read_ok s r t : serial_at s r t →
  (∃ b r' s', r = b :: r' ∧ try_read s = Done (Some b, s') ∧ serial_at s' r' t) ∨
  (∃ s', try_read s = Done (None, s') ∧ serial_at s' r t ∧ (r = [] ∨ rlag (chip s) ≠ 0%nat)).
Proof using Hbase.
  intros Hs. unfold try_read, readable. destruct (status_read s r t Hs) as (st & s1 & -> & Hs1 & Hr & _ & Lr & _). rewrite !bind_ret, Hr.
  destruct (Nat.eqb_spec (rlag (chip s)) 0) as [Hz|Hz]; cbn [andb].
  - destruct r as [|b r].
    + rewrite bool_decide_false by (intros ?; done). right. eexists. split_and!; [done..|by left].
    + rewrite bool_decide_true by done. left. destruct (take_ready s1 b r t Hs1) as (s2 & -> & ?); [lia|]. by exists b, r, s2.
  - right. eexists. split_and!; [done..|by right].
Qed.

(** *** What the monitor says

    The answer to the command [b] when [bs] follows it, the log level and what is left of
    [bs]; [None] when the letter of a log level is missing. *)
Definition queue_lines (l : list nat) : list Z :=
  text "Runnable tasks" ++ [LF] ++ concat ((λ t, debug_thread t ++ [LF]) <$> l).

Definition answer (l : list nat) (m : Machine) (lvl : Level) (b : Z) (bs : list Z) : option (list Z * Level * list Z) :=
  if b =? 13 then Some ([LF], lvl, bs)
  else if b =? 115 then Some (queue_lines l ++ slept_lines debug_thread show_u64 m, lvl, bs)
  else if b =? 108 then
    match bs with
    | [] => None
    | to :: bs =>
        match level_of_key to with
        | Some to => Some (text "Change log level to: " ++ text "Set log level to " ++ level_name to ++ [LF], to, bs)
        | None => Some (text "Change log level to: " ++ [to] ++ text " Unknown log level" ++ [LF], lvl, bs)
        end
    end
  else if b =? 112 then Some (process_lines debug_thread debug_process m, lvl, bs)
  else Some (text "Unknown cmd: " ++ utf8_char b ++ [LF], lvl, bs).

(** The commands [bs], given at the log level [lvl], are answered with [out]. *)
Inductive conversation (l : list nat) (m : Machine) : Level → list Z → list Z → Level → Prop :=
  | conv_done lvl : conversation l m lvl [] [] lvl
  | conv_next lvl b bs said lvl1 bs1 out lvl2 :
      answer l m lvl b bs = Some (said, lvl1, bs1) → conversation l m lvl1 bs1 out lvl2 →
      conversation l m lvl (b :: bs) (said ++ out) lvl2.

Lemma answer_local l m lvl b bs said lvl1 bs1 : answer l m lvl b bs = Some (said, lvl1, bs1) →
  ∃ eaten, bs = eaten ++ bs1 ∧ ∀ bs', answer l m lvl b (eaten ++ bs') = Some (said, lvl1, bs').
Proof using.
  unfold answer. destruct (b =? 13); [intros [= <- <- <-]; by exists []|]. destruct (b =? 115); [intros [= <- <- <-]; by exists []|].
  destruct (b =? 108).
  - destruct bs as [|to bs]; [done|]. intros E. exists [to]. cbn [app]. destruct (level_of_key to); by injection E as <- <- <-.
  - destruct (b =? 112); intros [= <- <- <-]; by exists [].
Qed.

(** The dump of the run queue lists its threads in the order they will run. *)
Lemma dump_queue_ok l : ∀ fuel sd, (length l ≤ fuel)%nat → linked (λ t, next (threads sd t)) l →
  dump_queue debug_thread fuel sd (head l) = Done (concat ((λ t, debug_thread t ++ [LF]) <$> l)).
Proof using.
  induction l as [|t l IH]; intros fuel sd Hf Hl; [by destruct fuel|]. destruct fuel as [|fuel]; [cbn in Hf; lia|].
  destruct Hl as [Hn Hl]. cbn [head dump_queue]. rewrite Hn, IH; [|cbn in Hf; lia|done]. cbn [fmap list_fmap concat].
  rewrite bind_ret. by rewrite <- (assoc_L (++)).
Qed.

Lemma dump_runnable_ok fuel sd l : (length l ≤ fuel)%nat → q_repr sd l → dump_runnable debug_thread fuel sd = Done (queue_lines l).
Proof using. intros Hf Hq. unfold dump_runnable. by rewrite (q_head _ _ Hq), (dump_queue_ok l) by (done || apply Hq). Qed.

Lemma Some_triple {A B C} (a a' : A) (b b' : B) (c c' : C) : Some (a, b, c) = Some (a', b', c') → a = a' ∧ b = b' ∧ c = c'.
Proof using. by intros [= -> -> ->]. Qed.

(** One command says its answer. *)
Lemma command_ok poll qfuel l m b r s t lvl said lvl1 r1 :
  (limit < poll)%nat → (length l ≤ qfuel)%nat → q_repr (run_queue m) l → serial_at s r t →
  answer l m lvl b r = Some (said, lvl1, r1) →
  ∃ s', command debug_thread debug_process show_u64 poll qfuel m b s lvl = Done (s', lvl1) ∧ serial_at s' r1 (t ++ said).
Proof using Hbase.
  intros Hp Hf Hq Hs. unfold answer, command.
  assert (Hlag : ∀ s r t, serial_at s r t → (rlag (chip s) < poll)%nat ∧ (wlag (chip s) < poll)%nat).
  { intros s1 r2 t2 (_ & Hu & _). pose proof (lag_limit _ Hu). lia. }
  destruct (b =? 13).
  { intros (<- & <- & <-)%Some_triple. destruct (write_serial_ok poll s r t LF Hs) as (s1 & -> & Hs1); [by eapply Hlag|]. by exists s1. }
  destruct (b =? 115).
  { intros (<- & <- & <-)%Some_triple. rewrite (dump_runnable_ok qfuel _ l Hf Hq), bind_ret.
    destruct (write_bytes_ok poll (queue_lines l) s r t Hp Hs) as (s1 & -> & Hs1). rewrite bind_ret.
    destruct (write_bytes_ok poll (slept_lines debug_thread show_u64 m) _ _ _ Hp Hs1) as (s2 & -> & Hs2).
    exists s2. by rewrite (assoc_L (++)). }
  destruct (b =? 108).
  { destruct r as [|to r]; [done|]. destruct (write_bytes_ok poll (text "Change log level to: ") _ _ _ Hp Hs) as (s1 & -> & Hs1). rewrite bind_ret.
    destruct (read_serial_ok poll s1 to r _ Hs1) as (s2 & -> & Hs2); [by eapply Hlag|]. rewrite bind_ret.
    destruct (level_of_key to) as [to'|]; intros (<- & <- & <-)%Some_triple.
    - destruct (write_bytes_ok poll (text "Set log level to " ++ level_name to' ++ [LF]) _ _ _ Hp Hs2) as (s3 & -> & Hs3).
      exists s3. by rewrite (assoc_L (++)).
    - destruct (write_serial_ok poll s2 r _ to Hs2) as (s3 & -> & Hs3); [by eapply Hlag|]. rewrite bind_ret.
      destruct (write_bytes_ok poll (text " Unknown log level" ++ [LF]) _ _ _ Hp Hs3) as (s4 & -> & Hs4).
      exists s4. by rewrite <- !(assoc_L (++)) in Hs4. }
  destruct (b =? 112); intros (<- & <- & <-)%Some_triple; match goal with |- context [write_bytes poll s ?x] =>
    destruct (write_bytes_ok poll x _ _ _ Hp Hs) as (s1 & -> & Hs1); by exists s1 end.
Qed.

(** The monitor answers the commands on the wire: it takes the bytes in their order, stops
    where no further byte has come, has written the answers to what it took and nothing
    else, and has set the log level they ask for.  When every byte is there in time it has
    answered everything. *)
Theorem monitor_answers fuel : ∀ poll qfuel l m lvl r out lvl2 s t,
  (limit < poll)%nat → (length l ≤ qfuel)%nat → (length r < fuel)%nat → q_repr (run_queue m) l → serial_at s r t →
  conversation l m lvl r out lvl2 →
  ∃ s' lvl1 r1 r2 out1 out2, serial_monitor debug_thread debug_process show_u64 fuel poll qfuel m s lvl = Done (s', lvl1) ∧
    r = r1 ++ r2 ∧ out = out1 ++ out2 ∧ conversation l m lvl r1 out1 lvl1 ∧ conversation l m lvl1 r2 out2 lvl2 ∧
    serial_at s' r2 (t ++ out1) ∧ ((∀ d, up d → rlag d = 0%nat) → r2 = []).
Proof using Hbase.
  induction fuel as [|fuel IH]; intros poll qfuel l m lvl r out lvl2 s t Hp Hf Hr Hq Hs Hc; [lia|]. cbn [serial_monitor].
  destruct (try_read_ok s r t Hs) as [(b & r0 & s1 & -> & -> & Hs1)|(s1 & -> & Hs1 & Hlag)]; rewrite bind_ret.
  - inversion Hc as [|? ? ? said lvla bsa outa ? Ha Hca]; subst.
    destruct (answer_local _ _ _ _ _ _ _ _ Ha) as (eaten & -> & Hloc).
    destruct (command_ok poll qfuel l m b _ s1 t lvl said lvla bsa Hp Hf Hq Hs1 Ha) as (s2 & -> & Hs2). rewrite bind_ret.
    destruct (IH poll qfuel l m lvla bsa outa lvl2 s2 (t ++ said)) as (s3 & lvl1 & r1 & r2 & o1 & o2 & -> & -> & -> & H1 & H2 & H3 & H4); try done.
    { cbn in Hr. rewrite length_app in Hr. lia. }
    exists s3, lvl1, (b :: eaten ++ r1), r2, (said ++ o1), o2. split_and!; try done.
    + cbn. by rewrite <- (assoc_L (++)).
    + by rewrite <- (assoc_L (++)).
    + econstructor; [apply Hloc|done].
    + by rewrite (assoc_L (++)).
  - exists s1, lvl, [], r, [], out. split_and!; try done; [constructor|by rewrite app_nil_r|].
    intros Hz. destruct Hlag as [->|Hl]; [done|]. destruct Hl. apply Hz, Hs.
Qed.

(** A log record that is enabled becomes one line on the wire and one on the screen; one
    above the level leaves both as they are. *)
Theorem log_spec poll max_level level target args s r t w :
  (limit < poll)%nat → serial_at s r t → writer_ok w →
  ∃ s' w', log poll max_level level target args (Some s) (Some w) = Done (Some s', Some w') ∧ writer_ok w' ∧
    if enabled max_level level
    then serial_at s' r (t ++ as_bytes (log_line level target args)) ∧ log_screen w level target args = Done w'
    else s' = s ∧ w' = w.
Proof using Hbase.
  intros Hp Hs Hw. unfold log. destruct (enabled max_level level); [|by exists s, w].
  destruct (write_bytes_ok poll (as_bytes (log_line level target args)) _ _ _ Hp Hs) as (s1 & -> & Hs1).
  destruct (display_step_ok (mkPos 0 0) w (DLog level target args)) as (p & w' & E & H1); [done..|]. cbn [display_step] in E.
  destruct (log_screen w level target args) as [w1| |] eqn:El; try done. injection E as <- <-.
  exists s1, w1. by split_and!.
Qed.
End correct.

(** *** A 16550

    The registers behind the eight ports: the divisor while the latch bit is set, a
    loopback mode in which what is sent comes back, and a transmitter that is busy for
    three polls after each byte. *)
Record Chip := mkChip {
  ier : Z; dll : Z; dlm : Z; lcr : Z; mcr : Z;
  c_rx : list Z; c_tx : list Z; c_rlag : nat; c_wlag : nat;
}.

Definition dlab (c : Chip) : bool := Z.testbit (lcr c) 7.
Definition loopback (c : Chip) : bool := Z.testbit (mcr c) 4.

Definition chip_out (c : Chip) (p v : Z) : Chip :=
  let o := p - COM_1 in
  if o =? 0 then
    if dlab c then mkChip (ier c) v (dlm c) (lcr c) (mcr c) (c_rx c) (c_tx c) (c_rlag c) (c_wlag c)
    else if loopback c then mkChip (ier c) (dll c) (dlm c) (lcr c) (mcr c) (c_rx c ++ [v]) (c_tx c) (c_rlag c) (c_wlag c)
    else mkChip (ier c) (dll c) (dlm c) (lcr c) (mcr c) (c_rx c) (c_tx c ++ [v]) (c_rlag c) 3
  else if o =? 1 then
    if dlab c then mkChip (ier c) (dll c) v (lcr c) (mcr c) (c_rx c) (c_tx c) (c_rlag c) (c_wlag c)
    else mkChip v (dll c) (dlm c) (lcr c) (mcr c) (c_rx c) (c_tx c) (c_rlag c) (c_wlag c)
  else if o =? 2 then (* bit 1 clears the receive queue *)
    mkChip (ier c) (dll c) (dlm c) (lcr c) (mcr c) (if Z.testbit v 1 then [] else c_rx c) (c_tx c) (c_rlag c) (c_wlag c)
  else if o =? 3 then mkChip (ier c) (dll c) (dlm c) v (mcr c) (c_rx c) (c_tx c) (c_rlag c) (c_wlag c)
  else if o =? 4 then mkChip (ier c) (dll c) (dlm c) (lcr c) v (c_rx c) (c_tx c) (c_rlag c) (c_wlag c)
  else c.

Definition chip_in (c : Chip) (p : Z) : Z * Chip :=
  let o := p - COM_1 in
  if o =? 0 then
    match c_rx c with
    | b :: r => (b, mkChip (ier c) (dll c) (dlm c) (lcr c) (mcr c) r (c_tx c) (c_rlag c) (c_wlag c))
    | [] => (0, c)
    end
  else if o =? 5 then
    ((if (c_rlag c =? 0)%nat && bool_decide (c_rx c ≠ []) then 1 else 0) + (if (c_wlag c =? 0)%nat then 0x20 else 0),
     mkChip (ier c) (dll c) (dlm c) (lcr c) (mcr c) (c_rx c) (c_tx c) (pred (c_rlag c)) (pred (c_wlag c)))
  else (0, c).

#[global] Instance chip_io : UartIO Chip := {| inb := chip_in; outb := chip_out |}.

Definition chip_up (c : Chip) : Prop := dlab c = false ∧ loopback c = false ∧ (c_rlag c ≤ 3)%nat ∧ (c_wlag c ≤ 3)%nat.

#[global] Instance chip_spec : UartSpec Chip COM_1 3.
Proof.
  refine {| up := chip_up; rx := c_rx; tx := c_tx; rlag := c_rlag; wlag := c_wlag |}.
  - unfold chip_up. tauto.
  - intros d (H1 & H2 & H3 & H4). eexists _, _. split; [reflexivity|]. split_and!; try done;
      try (unfold chip_up; cbn [c_rlag c_wlag]; split_and!; try done; lia);
      destruct ((c_rlag d =? 0)%nat && bool_decide (c_rx d ≠ [])), (c_wlag d =? 0)%nat; reflexivity.
  - intros d b r (H1 & H2 & H3 & H4) Hz Hr. cbn [inb chip_io]. unfold chip_in. rewrite Z.sub_diag, Hr. by eexists.
  - intros d b (H1 & H2 & H3 & H4) Hz. cbn [outb chip_io]. unfold chip_out. rewrite Z.sub_diag. cbn [Z.eqb]. rewrite H1, H2.
    split_and!; done.
Defined.

(** Whatever state the chip was in, [init] sets it to 9600 baud (a divisor of 12), out of
    loopback and with the interrupt for received bytes on; the byte of its test has been
    read back and nothing has been sent. *)
Theorem init_sets_up c : ∃ c', init (mkSerial COM_1 c) = Done (true, mkSerial COM_1 c') ∧
  dll c' + 256 * dlm c' = 115200 / 9600 ∧ lcr c' = 3 ∧ mcr c' = 0x0F ∧ ier c' = 1 ∧ c_rx c' = [] ∧ c_tx c' = c_tx c ∧
  ((c_rlag c ≤ 3)%nat → (c_wlag c ≤ 3)%nat → up c').
Proof.
  destruct c as [i l m lc mc r t rl wl]. exists (mkChip 1 12 0 3 0x0F [] t rl wl). split.
  - assert (∃ i' m', port_write (mkSerial COM_1 (mkChip i l m lc mc r t rl wl)) 1 0 = Done (mkSerial COM_1 (mkChip i' l m' lc mc r t rl wl))) as (i' & m' & E).
    { unfold port_write, add_u16. rewrite (chk_ok u16_lim) by (unfold u16_lim, COM_1; cbn [bus_base]; lia). rewrite bind_ret. cbn [chip bus_base outb chip_io].
      unfold chip_out, dlab. cbn [lcr]. destruct (Z.testbit lc 7); eexists _, _; reflexivity. }
    unfold init. rewrite E, bind_ret. reflexivity.
  - cbn. split_and!; try done.
Qed.
End Uart.

(** ** Standard output *)
Module Stdout.

(** *** The service

    The closure of [monitor_stdout_task]; it captures the screen. *)
Definition stdout_handler (h : Z) (c : unit) (w : Writer) (v : View) : outcome (bool * unit * Writer * View) :=
  match Services.channel_read_rs v h 0x1000 0 with
  | (None, _) => OutOfFuel
  | (Some (ReadOk m), v) =>
      w ← write_str w (from_utf8_lossy (m_data m));
      Done (true, c, w, Services.channel_write_rs v h [] [])
  | (Some ReadEmpty, v) => Done (true, c, w, v)
  | (Some (ReadSize _ _), v) => Done (false, c, w, v)
  | (Some ReadClosed, v) => Done (false, c, w, v)
  end.

Definition stdout_accepter (v : View) : unit * View := (tt, v).

(** *** The pointer

    A turn of [monitor_cursor_task]: [decode] reads the value of a message. *)
Section cursor.
Context (decode : list Z → option InputServiceMessage).

Definition cursor_event (mouse : Z) (b : Bufs) (pos : Pos) (w : Writer) (v : View) : outcome (Pos * Writer * Bufs * View) :=
  '(m, b, v) ← simple_recv v mouse b;
  m ← unwrap m;
  packet ← unwrap (decode (m_data m));
  match packet with
  | MKeyboardEvent _ => Panic PUnreachable
  | MMouseEvent p => '(pos, w) ← print_cursor pos p w; Done (pos, w, b, v)
  end.
End cursor.

(** *** The client *)

(** [slice::chunks]. *)
Fixpoint chunks_from (fuel n : nat) (l : list Z) : list (list Z) :=
  match fuel, l with
  | _, [] => []
  | O, _ => []
  | S fuel, _ => take n l :: chunks_from fuel n (drop n l)
  end.
Definition chunks (n : nat) (l : list Z) : list (list Z) := chunks_from (length l) n l.

Record Printer := mkPrinter { stdout_socket : Z; in_flight : Z }.

(** The loop that waits for a reply: the view after it, [None] when the program exits. *)
Definition take_reply (p : Printer) (v : View) : outcome (option View) :=
  match Services.channel_read_rs v (stdout_socket p) 0 0 with
  | (None, _) => OutOfFuel
  | (Some (ReadOk _), v) => Done (Some v)
  | (Some ReadEmpty, _) => OutOfFuel
  | (Some _, _) => Done None
  end.

Fixpoint write_chunks (p : Printer) (cs : list (list Z)) (v : View) : outcome (option View) :=
  match cs with
  | [] => Done (Some v)
  | chunk :: cs =>
      o ← (if 100 <? in_flight p then take_reply p v else Done (Some v));
      match o with
      | None => Done None
      | Some v => write_chunks p cs (Services.channel_write_rs v (stdout_socket p) chunk [])
      end
  end.

Definition write_raw (p : Printer) (bytes : list Z) (v : View) : outcome (option View) :=
  write_chunks p (chunks 0x1000 bytes) v.

(** [WRITER] and [fmt::Write::write_str]. *)
Definition WRITER (handle : Z) : Printer := mkPrinter handle 0.
Definition print (p : Printer) (s : list Z) (v : View) : outcome (option View) := write_raw p (as_bytes s) v.

(** *** Chunks *)
Lemma chunks_from_concat n l fuel : (0 < n)%nat → (length l ≤ fuel)%nat → concat (chunks_from fuel n l) = l.
Proof.
  intros Hn. revert l. induction fuel as [|fuel IH]; intros [|x l] Hf; try done; [cbn in Hf; lia|]. cbn [chunks_from concat].
  rewrite IH; [apply take_drop|]. rewrite length_drop. cbn in *. lia.
Qed.

Lemma chunks_concat n l : (0 < n)%nat → concat (chunks n l) = l.
Proof. intros Hn. by apply chunks_from_concat. Qed.

Lemma chunks_from_le n fuel : ∀ l, Forall (λ c, (length c ≤ n)%nat) (chunks_from fuel n l).
Proof. induction fuel as [|fuel IH]; intros [|x l]; cbn [chunks_from]; constructor; [rewrite length_take; lia|apply IH]. Qed.

Lemma chunks_one n l : l ≠ [] → (length l ≤ n)%nat → chunks n l = [l].
Proof.
  intros Hl Hn. unfold chunks. destruct l as [|x l]; [done|]. cbn [length chunks_from].
  rewrite take_ge, drop_ge by done. by destruct (length l).
Qed.

(** *** Printing *)
Definition chunk_msgs (h : Z) (cs : list (list Z)) : list (Z * Msg) := (λ c, (h, mkMsg c [])) <$> cs.

(** Nothing counts [in_flight] up, so no reply is ever waited for; what does not fit the
    queue of the service is lost. *)
Lemma write_chunks_ok p cs : ∀ v, in_flight p ≤ 100 →
  ∃ v', write_chunks p cs v = Done (Some v') ∧ inbox v' = inbox v ∧
    sent v' = sent v ++ chunk_msgs (stdout_socket p) (take (free_slots v (stdout_socket p)) cs).
Proof.
  induction cs as [|c cs IH]; intros v Hp; cbn [write_chunks].
  - exists v. rewrite take_nil. by rewrite app_nil_r.
  - rewrite (proj2 (Z.ltb_ge 100 (in_flight p)) Hp), bind_ret.
    destruct (IH (Services.channel_write_rs v (stdout_socket p) c []) Hp) as (v' & -> & Hi & Hs). exists v'. split; [done|].
    rewrite Hi, Hs, inbox_write, sent_write, slots_write, decide_True, delivered_slots by done. split; [done|].
    rewrite <- (assoc_L (++)). f_equal. by destruct (free_slots v (stdout_socket p)) as [|[|n]].
Qed.

(** Whatever a program prints, the replies of the service stay in its channel. *)
Theorem replies_are_never_read handle bytes v :
  ∃ v', write_raw (WRITER handle) bytes v = Done (Some v') ∧ inbox v' = inbox v.
Proof. destruct (write_chunks_ok (WRITER handle) (chunks 0x1000 bytes) v) as (v' & E & Hi & _); [done|]. by exists v'. Qed.

Lemma write_str_app w a b : write_str w (a ++ b) = (w ← write_str w a; write_str w b).
Proof. unfold write_str. rewrite for_in_app. by destruct (for_in write_char a (tty w)). Qed.

(** *** Serving *)
Fixpoint serve (keys : list Z) (s : Service unit) (w : Writer) (v : View) : outcome (Service unit * Writer * View) :=
  match keys with
  | [] => Done (s, w, v)
  | k :: keys => '(s, w, v) ← service_step stdout_accepter stdout_handler s k w v; serve keys s w v
  end.

Lemma stdout_step s key h w v data ms w' :
  key ≠ 0 → customers s !! key = Some (h, tt) → inbox v !! h = Some (mkMsg data [] :: ms) → (length data ≤ 0x1000)%nat →
  write_str w (from_utf8_lossy data) = Done w' →
  ∃ v', service_step stdout_accepter stdout_handler s key w v = Done (s, w', v') ∧
    inbox v' !! h = Some ms ∧ sent v' = sent v ++ delivered v h (mkMsg [] []) ∧ free_slots v' h = pred (free_slots v h).
Proof.
  intros Hk Hc Hin Hlen Hw. unfold service_step. rewrite (proj2 (Z.eqb_neq key 0) Hk), Hc. cbn [unwrap]. rewrite bind_ret.
  unfold stdout_handler. rewrite (read_fits v h 0x1000 0 _ ms Hin) by (cbn [m_data m_handles length]; lia). cbn [m_data].
  rewrite Hw, !bind_ret. eexists. split.
  - do 3 f_equal. destruct s as [a cs]. cbn [accepting_channel customers] in *. by rewrite insert_id.
  - cbn [inbox sent Services.object_wait_port_rs upd_waits]. rewrite inbox_write, sent_write.
    split; [apply lookup_insert_eq|]. split; [done|]. slots_of (Services.channel_write_rs (upd_inbox v (<[h := ms]> (inbox v))) h [] []).
    by rewrite slots_write, decide_True.
Qed.

Lemma serve_chunks key h s cs : ∀ w v w', key ≠ 0 → customers s !! key = Some (h, tt) →
  inbox v !! h = Some ((λ c, mkMsg c []) <$> cs) → Forall (λ c, (length c ≤ 0x1000)%nat) cs → writer_ok w →
  write_str w (concat (from_utf8_lossy <$> cs)) = Done w' →
  ∃ v', serve (replicate (length cs) key) s w v = Done (s, w', v') ∧ inbox v' !! h = Some [] ∧
    sent v' = sent v ++ replicate (length cs `min` free_slots v h) (h, mkMsg [] []).
Proof.
  induction cs as [|c cs IH]; intros w v w' Hk Hc Hin Hl Hok Hw; cbn [length replicate serve].
  { destruct w. injection Hw as <-. exists v. by rewrite app_nil_r. }
  apply Forall_cons in Hl as [Hl1 Hl]. cbn [fmap list_fmap concat] in Hw. rewrite write_str_app in Hw.
  destruct (write_str_ok w (from_utf8_lossy c) Hok) as (w1 & E1 & Hok1). rewrite E1, bind_ret in Hw.
  destruct (stdout_step s key h w v c _ w1 Hk Hc Hin Hl1 E1) as (v1 & -> & Hin1 & Hs1 & Hf1). rewrite bind_ret.
  destruct (IH w1 v1 w' Hk Hc Hin1 Hl Hok1 Hw) as (v2 & -> & Hin2 & Hs2). exists v2. split_and!; [done..|].
  rewrite Hs2, Hs1, Hf1, delivered_slots, <- (assoc_L (++)). f_equal. destruct (free_slots v h) as [|n]; cbn [pred take app Nat.min].
  - by rewrite Nat.min_0_r.
  - by rewrite take_nil.
Qed.

(** The text that arrives is the text printed when no character is cut in two: when it is
    one chunk, or when its characters are single bytes. *)
Lemma chunks_text s : Forall is_char s → (length (as_bytes s) ≤ 0x1000)%nat ∨ Forall (λ c, 0 ≤ c < 0x80) s →
  concat (from_utf8_lossy <$> chunks 0x1000 (as_bytes s)) = s.
Proof.
  intros Hs [Hl|Ha].
  - destruct (decide (as_bytes s = [])) as [E|E].
    + rewrite E. change (chunks 0x1000 []) with (@nil (list Z)). cbn [fmap list_fmap concat]. by rewrite <- (from_utf8_lossy_as_bytes s Hs), E.
    + rewrite chunks_one by done. cbn [fmap list_fmap concat]. by rewrite app_nil_r, from_utf8_lossy_as_bytes.
  - rewrite as_bytes_ascii by done. pose proof (chunks_concat 0x1000 s ltac:(lia)) as Hcat. revert Hcat. generalize (chunks 0x1000 s) as cs.
    intros cs <-. apply Forall_concat in Ha. clear Hs. induction Ha as [|c cs Hc _ IH]; [done|].
    cbn [fmap list_fmap concat]. by rewrite from_utf8_lossy_ascii, IH.
Qed.

(** The two ends of one open channel: [c] in the program's view and [h] in the service's.
    What one end has not read is what counts at the other. *)
Record ends (cv : View) (c : Z) (v : View) (h : Z) : Prop := {
  ends_open : c ∉ closed cv ∧ h ∉ closed v;
  ends_forth : default 0 (backlog cv !! c) = Z.of_nat (length (default [] (inbox v !! h)));
  ends_back : default 0 (backlog v !! h) = Z.of_nat (length (default [] (inbox cv !! c)));
}.

(** The kernel puts the messages accepted at one end behind what waits at the other. *)
Definition carry (h : Z) (ms : list Msg) (v : View) : View :=
  upd_inbox v (<[h := default [] (inbox v !! h) ++ ms]> (inbox v)).

(** C23: what a program prints is shown: over an open channel whose service has taken what
    was printed before, the messages of one [print], at most 10001 of them, are accepted; the
    service takes them one by one as they are announced and keeps the program among its
    customers, and then the screen is the one that writing the text itself gives.  This holds
    whatever replies the program has left unread; the service's replies arrive as long as
    there is room for them.  The text is one message, or consists of single-byte characters,
    so that no character is cut in two. *)
Theorem printed_text_is_shown c s cv srv key h w v :
  Forall is_char s → (length (as_bytes s) ≤ 0x1000)%nat ∨ Forall (λ c, 0 ≤ c < 0x80) s →
  Z.of_nat (length (chunks 0x1000 (as_bytes s))) ≤ CHANNEL_CAPACITY + 1 →
  ends cv c v h → inbox v !! h = Some [] → key ≠ 0 → customers srv !! key = Some (h, tt) → writer_ok w →
  ∃ cv' ms w' v', print (WRITER c) s cv = Done (Some cv') ∧
    sent cv' = sent cv ++ (pair c <$> ms) ∧
    serve (replicate (length ms) key) srv w (carry h ms v) = Done (srv, w', v') ∧
    write_str w s = Done w' ∧ writer_ok w' ∧ inbox v' !! h = Some [] ∧
    let unread := Z.of_nat (length (default [] (inbox cv !! c))) in
    sent v' = sent v ++ replicate (length ms `min` Z.to_nat (CHANNEL_CAPACITY + 1 - unread)) (h, mkMsg [] []).
Proof.
  intros Hs Hcut Hmany [[Hoc Hoh] Hforth Hback] Hempty Hk Hc Hok. rewrite Hempty in Hforth. cbn in Hforth.
  set (cs := chunks 0x1000 (as_bytes s)) in *.
  destruct (write_chunks_ok (WRITER c) cs cv) as (cv' & E & _ & Hst); [done|]. cbn [stdout_socket WRITER] in Hst.
  assert (Hfc : (length cs ≤ free_slots cv c)%nat) by (unfold free_slots; rewrite bool_decide_eq_false_2, Hforth by done; lia).
  assert (Hfh : free_slots v h = Z.to_nat (CHANNEL_CAPACITY + 1 - Z.of_nat (length (default [] (inbox cv !! c)))))
    by (unfold free_slots; by rewrite bool_decide_eq_false_2, Hback).
  rewrite take_ge in Hst by done. destruct (write_str_ok w s Hok) as (w' & Ew & Hok').
  destruct (serve_chunks key h srv cs w (carry h ((λ c, mkMsg c []) <$> cs) v) w') as (v' & E' & Hi & Hst'); try done.
  { unfold carry. cbn [inbox upd_inbox]. by rewrite lookup_insert_eq, Hempty. }
  { apply chunks_from_le. }
  { unfold cs. by rewrite (chunks_text s Hs Hcut). }
  exists cv', ((λ c, mkMsg c []) <$> cs), w', v'. rewrite length_fmap. split; [done|]. split; [|split_and!; try done].
  - rewrite Hst. unfold chunk_msgs. by rewrite <- list_fmap_compose.
  - cbv zeta. rewrite <- Hfh. exact Hst'.
Qed.

(** A character of two bytes across the border of a chunk is shown as two replacement
    characters. *)
Theorem split_character : concat (from_utf8_lossy <$> chunks 0x1000 (as_bytes (replicate 0xFFF 97 ++ [0xE9]))) =
  replicate 0xFFF 97 ++ [REPLACEMENT_CHARACTER; REPLACEMENT_CHARACTER].
Proof. by vm_compute. Qed.
End Stdout.

(** ** Concrete runs *)
Lemma demo_writer_ok : writer_ok demo_writer.
Proof.
  apply (Writer_new_ok demo_gop demo_font demo_writer); [unfold gop_ok; cbn; lia|reflexivity|exact demo_glyphs|by vm_compute].
Qed.

(** Customer 3 of the service, at handle 20, prints two characters and a new line through its
    handle 5, where one reply waits unread. *)
Definition demo_srv : Service unit := mkService 7 {[ 3 := (20, tt) ]}.
Definition demo_printing : View := mkView {[ 5 := [mkMsg [] []] ]} ∅ [] [] [] [] 30 [] ∅.
Definition demo_stdout : View := mkView {[ 20 := [] ]} ∅ [] [] [] [] 30 [] {[ 20 := 1 ]}.

Lemma printed_text_is_shown_witness :
  ∃ cv' ms w' v', Stdout.print (Stdout.WRITER 5) [65; 0xE9; LF] demo_printing = Done (Some cv') ∧
    sent cv' = pair 5 <$> ms ∧ Stdout.serve (replicate (length ms) 3) demo_srv demo_writer (Stdout.carry 20 ms demo_stdout) = Done (demo_srv, w', v') ∧
    write_str demo_writer [65; 0xE9; LF] = Done w'.
Proof.
  destruct (Stdout.printed_text_is_shown 5 [65; 0xE9; LF] demo_printing demo_srv 3 20 demo_writer demo_stdout)
    as (cv' & ms & w' & v' & H1 & H2 & H3 & H4 & _).
  - repeat constructor; unfold is_char, LF; lia.
  - left. apply (bool_decide_unpack _). by vm_compute.
  - vm_compute. discriminate.
  - split; [split; apply not_elem_of_empty|reflexivity|reflexivity].
  - reflexivity.
  - discriminate.
  - reflexivity.
  - exact demo_writer_ok.
  - exists cv', ms, w', v'. split; [exact H1|]. split; [exact H2|]. split; [exact H3|exact H4].
Defined.

(** A session at the monitor: a carriage return, the log level is set to trace, and an
    unknown command. *)
Definition demo_machine : Uart.Machine := Uart.mkMachine (mkSD (λ _, mkThread 0 0 false None (mkSched Runnable None 0 false false)) None None) 5 [] [].
Definition demo_chip : Uart.Chip := Uart.mkChip 1 12 0 3 0x0F [13; 108; 116; 120] [] 0 0.

Lemma monitor_session :
  ∃ s', Uart.serial_monitor (λ _, []) (λ _, []) (λ _, []) 5 4 1 demo_machine (Uart.mkSerial Uart.COM_1 demo_chip) LInfo = Done (s', LTrace) ∧
    Uart.c_tx (Uart.chip s') = [LF] ++ text "Change log level to: Set log level to TRACE" ++ [LF] ++ text "Unknown cmd: x" ++ [LF].
Proof. eexists. split; [vm_compute; reflexivity|]. by vm_compute. Qed.
