(* ===== verification/Programs.v ===== *)
(** * Small programs

    [calc/src/main.rs], a calculator that works from left to right, and [test_elf/src/main.rs],
    which exchanges numbers with the test service [ACCEPTER] of [kernel/src/main.rs], and
    [net/src/main.rs], which asks the network service for the address of a machine. *)
From S2P Require Import Prelude Text Shell Terminal Services Net Daemons Console.

(** ** The calculator *)
Module Calc.

Inductive Operators := Emit | Add | Sub | Mul | Div.

Definition i64_lim : Z := 2 ^ 63.

(** [isize] arithmetic. *)
Definition chk_i64 (v : Z) : outcome Z := if (- i64_lim <=? v) && (v <? i64_lim) then Done v else Panic POverflow.

(** [res op= curr_val]; division truncates. *)
Definition apply_op (op : Operators) (res curr_val : Z) : outcome Z :=
  match op with
  | Emit => Done curr_val
  | Add => chk_i64 (res + curr_val)
  | Sub => chk_i64 (res - curr_val)
  | Mul => chk_i64 (res * curr_val)
  | Div => if curr_val =? 0 then Panic PDivZero else chk_i64 (Z.quot res curr_val)
  end.

Definition op_of_char (c : Z) : outcome Operators :=
  if c =? 43 then Done Add else if c =? 45 then Done Sub else if c =? 42 then Done Mul
  else if c =? 47 then Done Div else Panic PUnreachable.

Section calc.
(** [char::is_alphanumeric] above ASCII: the tables of Unicode. *)
Context (unicode_alphanumeric : Z → bool).

Definition is_alphanumeric (c : Z) : bool :=
  in_range 48 57 c || in_range 65 90 c || in_range 97 122 c || (0x80 <=? c) && unicode_alphanumeric c.

Record Calc := mkCalc { res : Z; op : Operators; curr_val : Z }.

Definition calc_char (s : Calc) (c : Z) : outcome Calc :=
  if c =? 32 then Done s
  else if is_alphanumeric c then
    a ← chk_i64 (curr_val s * 10);
    d ← unwrap (to_digit c);
    v ← chk_i64 (a + d);
    Done (mkCalc (res s) (op s) v)
  else
    r ← apply_op (op s) (res s) (curr_val s);
    o ← op_of_char c;
    Done (mkCalc r o 0).

Definition calc (args : list Z) : outcome Z :=
  s ← for_in calc_char args (mkCalc 0 Emit 0);
  apply_op (op s) (res s) (curr_val s).

(** The decimal digits of a number, as [Display] prints them. *)
Fixpoint show_digits (fuel : nat) (n : Z) : list Z :=
  match fuel with
  | O => []
  | S fuel => if n <? 10 then [48 + n] else show_digits fuel (n / 10) ++ [48 + n mod 10]
  end.
Definition show_isize (n : Z) : list Z := if n <? 0 then 45 :: show_digits 20 (- n) else show_digits 20 n.

(** [main]: the lines it prints. *)
Definition main (args : list Z) : outcome (list (list Z)) :=
  r ← calc args;
  Done [text "WARN: Evaulating left to right, so no order of operations :(" ++ [LF]; args ++ text " =" ++ [LF]; show_isize r ++ [LF]].

(** *** What it computes

    An expression is a number and further numbers, each with the operator before it. *)
Inductive binop := BAdd | BSub | BMul | BDiv.
Definition op_of (b : binop) : Operators := match b with BAdd => Add | BSub => Sub | BMul => Mul | BDiv => Div end.
Definition op_char (b : binop) : Z := match b with BAdd => 43 | BSub => 45 | BMul => 42 | BDiv => 47 end.

Record expr := mkExpr { first : Z; more : list (binop * Z) }.

Definition value_from (acc : outcome Z) (l : list (binop * Z)) : outcome Z :=
  foldl (λ acc x, acc ≫= λ a, apply_op (op_of x.1) a x.2) acc l.
Definition value (e : expr) : outcome Z := value_from (Done (first e)) (more e).

(** How it is written, without the blanks. *)
Definition show_more (l : list (binop * Z)) : list Z := concat ((λ x, op_char x.1 :: show_digits 20 x.2) <$> l).
Definition show (e : expr) : list Z := show_digits 20 (first e) ++ show_more (more e).

Definition blanks_off (s : list Z) : list Z := filter (λ c, c ≠ 32) s.

Lemma calc_blanks args : ∀ s, for_in calc_char args s = for_in calc_char (blanks_off args) s.
Proof using.
  unfold blanks_off. induction args as [|c args IH]; intros s; [done|]. destruct (decide (c = 32)) as [->|Hc].
  - rewrite filter_cons_False by tauto. cbn [for_in]. change (calc_char s 32) with (Done s). apply IH.
  - rewrite filter_cons_True by done. cbn [for_in]. destruct (calc_char s c); cbn; [apply IH|done..].
Qed.

Lemma digit_char d : 0 ≤ d < 10 → is_alphanumeric (48 + d) = true ∧ to_digit (48 + d) = Some d ∧ (48 + d =? 32) = false.
Proof using.
  intros Hd. unfold is_alphanumeric, to_digit, in_range. rewrite (proj2 (Z.leb_le 48 (48 + d))), (proj2 (Z.leb_le (48 + d) 57)) by lia. cbn [andb orb].
  split_and!; [done|f_equal; lia|lia].
Qed.

Lemma read_digit r o v d : 0 ≤ d < 10 → 0 ≤ v → v * 10 + d < i64_lim → calc_char (mkCalc r o v) (48 + d) = Done (mkCalc r o (v * 10 + d)).
Proof using.
  intros Hd Hv Hlim. destruct (digit_char d Hd) as (H1 & H2 & H3). unfold calc_char. rewrite H3, H1, H2. cbn [curr_val res op unwrap].
  unfold chk_i64, i64_lim in *. rewrite (proj2 (Z.leb_le _ (v * 10))), (proj2 (Z.ltb_lt (v * 10) _)) by lia. cbn [andb]. rewrite !bind_ret.
  by rewrite (proj2 (Z.leb_le _ (v * 10 + d))), (proj2 (Z.ltb_lt (v * 10 + d) _)) by lia.
Qed.

Lemma read_number fuel : ∀ n r o, 0 ≤ n < 10 ^ Z.of_nat fuel → n < i64_lim → (0 < fuel)%nat →
  for_in calc_char (show_digits fuel n) (mkCalc r o 0) = Done (mkCalc r o n).
Proof using.
  induction fuel as [|fuel IH]; intros n r o Hn Hlim Hf; [lia|]. cbn [show_digits]. destruct (Z.ltb_spec n 10).
  - cbn [for_in]. rewrite read_digit by (unfold i64_lim; lia). done.
  - rewrite for_in_app. pose proof (Z.div_mod n 10). pose proof (Z.mod_pos_bound n 10).
    rewrite Nat2Z.inj_succ, Z.pow_succ_r in Hn by lia.
    destruct fuel as [|fuel]; [cbn in Hn; lia|].
    rewrite IH; [|split; [apply Z.div_pos; lia|apply Z.div_lt_upper_bound; lia]|lia|lia]. rewrite bind_ret. cbn [for_in].
    rewrite read_digit by lia. rewrite bind_ret. do 2 f_equal. lia.
Qed.

Definition small (n : Z) : Prop := 0 ≤ n < i64_lim.

Lemma read_small n r o : small n → for_in calc_char (show_digits 20 n) (mkCalc r o 0) = Done (mkCalc r o n).
Proof using. intros [? ?]. unfold i64_lim in *. apply read_number; [|done|lia]. change (10 ^ Z.of_nat 20) with 100000000000000000000. lia. Qed.

Lemma value_from_panic l r : value_from (Panic r) l = Panic r.
Proof using. induction l as [|x l IH]; [done|apply IH]. Qed.

Lemma read_more l : ∀ r o v, Forall (λ x, small x.2) l →
  (s ← for_in calc_char (show_more l) (mkCalc r o v); apply_op (op s) (res s) (curr_val s)) = value_from (apply_op o r v) l.
Proof using.
  induction l as [|[b n] l IH]; intros r o v Hl; [done|]. apply Forall_cons in Hl as [Hn Hl]. unfold show_more. cbn [fmap list_fmap concat fst snd app].
  cbn [for_in].
  assert (calc_char (mkCalc r o v) (op_char b) = (a ← apply_op o r v; Done (mkCalc a (op_of b) 0))) as ->.
  { unfold calc_char. cbn [op res curr_val]. destruct b; reflexivity. }
  unfold value_from. cbn [foldl fst snd].
  destruct (apply_op o r v) as [a|p|] eqn:Ea; cbn [mbind outcome_bind]; [|by rewrite (value_from_panic l p : foldl _ _ _ = _)|].
  - rewrite for_in_app, read_small by done. cbn [mbind outcome_bind]. apply (IH a (op_of b) n Hl).
  - exfalso. clear -Ea. destruct o; cbn in Ea; unfold chk_i64 in Ea; repeat case_match; done.
Qed.

(** The calculator computes the value of what is written, from left to right and with
    the blanks left out: on the text of an expression whose numbers fit it gives the value,
    and panics (overflow, division by zero) exactly where that is undefined. *)
Theorem calc_evaluates e args :
  small (first e) → Forall (λ x, small x.2) (more e) → blanks_off args = show e → calc args = value e.
Proof using.
  intros Hf Hm Hs. unfold calc. rewrite calc_blanks, Hs. unfold show. rewrite for_in_app, read_small, bind_ret by done. by apply read_more.
Qed.

(** There is no precedence, no sign and no error message: [2 + 3 * 4] is 20, [1 2] is 12, an
    empty line and [-5] are 0 and -5, a letter and a parenthesis panic. *)
Lemma calc_examples :
  calc (text "2 + 3 * 4") = Done 20 ∧ calc (text "1 2") = Done 12 ∧ calc [] = Done 0 ∧ calc (text "-5") = Done (-5) ∧
  calc (text "2*-3") = Done (-3) ∧ calc (text "x") = Panic PUnwrap ∧ calc (text "(1)") = Panic PUnreachable.
Proof using. split_and!; reflexivity. Qed.
End calc.
End Calc.

(** ** The echo test

    The program [test_elf] and the test service on the two directions of their channel. *)
Module Echo.

Definition CHANNEL_CAPACITY : Z := 10000.

(** [KChannelHandle::send]: a message for a full queue is dropped. *)
Definition push (q : list Z) (x : Z) : list Z := if CHANNEL_CAPACITY <? Z.of_nat (length q) then q else q ++ [x].

Inductive phase := Filling | Reading | Exited.

Record Test := mkTest { send_i : Z; recv_i : Z; at_ : phase; to_server : list Z; to_client : list Z }.

(** How often it asks: everything, or the number given. *)
Definition count_of (args : list Z) : outcome Z := match args with [] => Done (u64_lim - 1) | _ => unwrap (parse_u64 args) end.

(** The two loops of [main], a turn at a time; [None] while it waits for a message. *)
Definition client_turn (count : Z) (t : Test) : outcome (option Test) :=
  match at_ t with
  | Filling =>
      if send_i t <? 1024 then
        n ← add_u64 (send_i t) 1;
        Done (Some (mkTest n (recv_i t) Filling (push (to_server t) (send_i t)) (to_client t)))
      else Done (Some (mkTest (send_i t) (recv_i t) Reading (to_server t) (to_client t)))
  | Reading =>
      if recv_i t <? count then
        match to_client t with
        | [] => Done None
        | d :: q =>
            _ ← assert_ (d =? recv_i t);
            n ← add_u64 (recv_i t) 1;
            if count <=? n then Done (Some (mkTest (send_i t) n Exited (to_server t) q))
            else if send_i t <? count then
              k ← add_u64 (send_i t) 1;
              Done (Some (mkTest k n Reading (push (to_server t) (send_i t)) q))
            else Done (Some (mkTest (send_i t) n Reading (to_server t) q))
        end
      else Done (Some (mkTest (send_i t) (recv_i t) Exited (to_server t) (to_client t)))
  | Exited => Done None
  end.

(** The service takes a message and sends it back. *)
Inductive step (count : Z) : Test → Test → Prop :=
  | echo_client t t' : client_turn count t = Done (Some t') → step count t t'
  | echo_server s r a x q c : step count (mkTest s r a (x :: q) c) (mkTest s r a q (push c x)).

Definition start : Test := mkTest 0 0 Filling [] [].

Section echo.
Context (count : Z) (Hcount : 0 ≤ count < u64_lim).

(** The numbers under way are those sent and not yet come back, in their order. *)
Record inv (t : Test) : Prop := {
  e_range : 0 ≤ recv_i t ≤ send_i t;
  e_flight : send_i t ≤ recv_i t + 1024;
  e_fill : at_ t = Filling → send_i t ≤ 1024 ∧ recv_i t = 0;
  e_filled : at_ t ≠ Filling → 1024 ≤ send_i t;
  e_fifo : to_client t ++ to_server t = seqZ (recv_i t) (send_i t - recv_i t);
  e_limit : send_i t ≤ Z.max 1024 count;
  e_more : at_ t = Reading → send_i t < count → send_i t = recv_i t + 1024;
}.

Lemma start_inv : inv start.
Proof using Hcount. split; cbn; try done; lia. Qed.

Lemma push_small q x : Z.of_nat (length q) ≤ 1024 → push q x = q ++ [x].
Proof using. intros Hq. unfold push, CHANNEL_CAPACITY. by rewrite (proj2 (Z.ltb_ge 10000 (Z.of_nat (length q)))) by lia. Qed.

Lemma fifo_length t : inv t → Z.of_nat (length (to_client t) + length (to_server t)) = send_i t - recv_i t.
Proof using. intros Hi. rewrite <- length_app, (e_fifo t Hi), length_seqZ. pose proof (e_range t Hi). lia. Qed.

Lemma seqZ_snoc a n : 0 ≤ n → seqZ a (n + 1) = seqZ a n ++ [a + n].
Proof using. intros Hn. rewrite (seqZ_app a n 1) by lia. done. Qed.

(** A turn of the client does not panic and keeps the numbers in order. *)
Lemma client_turn_ok t : inv t → ∃ o, client_turn count t = Done o ∧ match o with Some t' => inv t' | None => True end.
Proof using Hcount.
  intros Hi. pose proof (fifo_length t Hi) as Hlen. destruct Hi as [Hr Hf Hfi Hfd Hq Hl Hm]. unfold client_turn. destruct (at_ t) eqn:Ep.
  - specialize (Hfi eq_refl). destruct (Z.ltb_spec (send_i t) 1024).
    + unfold add_u64. rewrite (chk_ok u64_lim) by (unfold u64_lim; lia). rewrite bind_ret. eexists. split; [done|].
      rewrite push_small by lia. split; cbn [send_i recv_i at_ to_server to_client]; try done; try lia.
      rewrite (assoc_L (++)), Hq. replace (send_i t + 1 - recv_i t) with (send_i t - recv_i t + 1) by lia. rewrite seqZ_snoc by lia. do 2 f_equal. lia.
    + eexists. split; [done|]. split; cbn [send_i recv_i at_ to_server to_client]; try done; lia.
  - specialize (Hfd ltac:(done)). destruct (Z.ltb_spec (recv_i t) count).
    + destruct (to_client t) as [|d q] eqn:Ec; [by eexists|].
      assert (Hhd : d = recv_i t ∧ q ++ to_server t = seqZ (recv_i t + 1) (send_i t - (recv_i t + 1))).
      { cbn [app] in Hq. rewrite seqZ_cons in Hq by (cbn in Hlen; lia). injection Hq as -> Hq. split; [done|]. rewrite Hq.
        f_equal; lia. }
      destruct Hhd as [-> Hq']. rewrite Z.eqb_refl. cbn [assert_]. rewrite bind_ret. unfold add_u64. rewrite (chk_ok u64_lim (recv_i t + 1)), bind_ret by (unfold u64_lim in *; lia).
      cbn [length] in Hlen. destruct (Z.leb_spec count (recv_i t + 1)).
      { eexists. split; [done|]. split; cbn [send_i recv_i at_ to_server to_client]; try done; lia. }
      destruct (Z.ltb_spec (send_i t) count) as [Hs|Hs].
      * rewrite (chk_ok u64_lim (send_i t + 1)), bind_ret by (unfold u64_lim in *; lia). eexists. split; [done|]. specialize (Hm eq_refl Hs).
        rewrite push_small by lia. split; cbn [send_i recv_i at_ to_server to_client]; try done; try lia.
        rewrite (assoc_L (++)), Hq'. replace (send_i t + 1 - (recv_i t + 1)) with (send_i t - (recv_i t + 1) + 1) by lia.
        rewrite seqZ_snoc by lia. do 2 f_equal. lia.
      * eexists. split; [done|]. split; cbn [send_i recv_i at_ to_server to_client]; try done; lia.
    + eexists. split; [done|]. split; cbn [send_i recv_i at_ to_server to_client]; try done; lia.
  - by eexists.
Qed.

Lemma echo_step_inv t t' : step count t t' → inv t → inv t'.
Proof using Hcount.
  intros [t1 t2 E|s r a x q c] Hi.
  - destruct (client_turn_ok t1 Hi) as (o & E' & Ho). rewrite E in E'. by injection E' as <-.
  - pose proof (fifo_length _ Hi) as Hlen. destruct Hi as [Hr Hf Hfi Hfd Hq Hl Hm]. cbn [send_i recv_i at_ to_server to_client length] in *.
    rewrite push_small by lia. split; cbn [send_i recv_i at_ to_server to_client]; try done. by rewrite <- (assoc_L (++)).
Qed.

(** The test passes: whatever the order in which the program and the service take their
    turns, the program's assertion holds each time (no turn panics), no message is dropped
    although nothing checks for a full channel, and until the program has ended one of the
    two can go on. *)
Theorem echo_passes t :
  rtc (step count) start t →
  (∃ o, client_turn count t = Done o) ∧
  to_client t ++ to_server t = seqZ (recv_i t) (send_i t - recv_i t) ∧ send_i t - recv_i t ≤ 1024 ∧
  (at_ t = Exited ∨ ∃ t', step count t t').
Proof using Hcount.
  intros Hr. assert (Hi : inv t).
  { revert Hr. generalize start_inv. generalize start. intros x Hx Hr. revert Hx. induction Hr as [|x x' z Hs _ IH]; [done|]. intros Hx. by apply IH, (echo_step_inv x x'). }
  destruct (client_turn_ok t Hi) as (o & E & _). split_and!; [by exists o|apply Hi|pose proof (e_flight t Hi); lia|].
  destruct o as [t'|]; [right; exists t'; by constructor|]. destruct (to_server t) as [|x q] eqn:Es.
  - left. pose proof (fifo_length t Hi) as Hlen. rewrite Es in Hlen. unfold client_turn in E. destruct (at_ t) eqn:Ep; [|exfalso|done].
    + exfalso. destruct (send_i t <? 1024); [by apply bind_Done in E as (? & _ & ?)|done].
    + pose proof (e_filled t Hi ltac:(congruence)). pose proof (e_more t Hi Ep).
      destruct (Z.ltb_spec (recv_i t) count); [|done]. destruct (to_client t) as [|d q] eqn:Ec.
      * cbn in Hlen. destruct (Z.lt_ge_cases (send_i t) count); lia.
      * apply bind_Done in E as (? & _ & E). apply bind_Done in E as (n & _ & E). destruct (count <=? n); [done|].
        destruct (send_i t <? count); [by apply bind_Done in E as (? & _ & ?)|done].
  - right. destruct t as [s r a ts tc]. cbn in Es. subst ts. eexists. apply echo_server.
Qed.
End echo.
End Echo.

(** ** The network command *)
Module NetCmd.
Import NetService.

(** [str::split_whitespace]; [w] is the word so far. *)
Fixpoint split_whitespace (w l : list Z) : list (list Z) :=
  match l with
  | [] => match w with [] => [] | _ => [w] end
  | c :: l =>
      if is_whitespace c then match w with [] => split_whitespace [] l | _ => w :: split_whitespace [] l end
      else split_whitespace (w ++ [c]) l
  end.

(** [to_uppercase], as far as the comparison with an ASCII word goes. *)
Definition upper (c : Z) : Z := if (97 <=? c) && (c <=? 122) then c - 32 else c.

(** [str::parse::<u8>]. *)
Definition parse_u8 (l : list Z) : option Z := n ← parse_u64 l; if n <? 256 then Some n else None.

(** What the command prints. *)
Inductive NetOut :=
  | Resolved (a b c d : list Z) (mac : Z)
  | PendingAnswer
  | LookupFailed (e : NotSameSubnetError)
  | UnknownCmd.

Section command.
Context `{Postcard Networking} `{Postcard ArpResponse}.

(** [lookup_ip], over the handle [h] of the connection to the service NETWORKING. *)
Definition net_lookup (v : View) (h : Z) (ip : IPAddr) : outcome (result (option Z) NotSameSubnetError * View) :=
  let msg := to_bytes (ArpRequest ip) in
  let n := Z.of_nat (length msg) in
  '(r, _, v) ← simple_call v h msg [] (mkBufs (reserve 0 0 n) n 0 0);
  m ← unwrap r;
  resp ← unwrap (from_bytes (m_data m));
  Done (lookup_ip resp, v).

(** [main]. *)
Definition net_main (v : View) (h : Z) (args : list Z) : outcome (NetOut * View) :=
  let args := split_whitespace [] args in
  cmd ← unwrap (head args);
  if bool_decide (upper <$> cmd = text "ARP") then
    ip ← unwrap (args !! 1%nat);
    let ip := split_on 46 ip in
    a ← unwrap (ip !! 0%nat);
    b ← unwrap (ip !! 1%nat);
    c ← unwrap (ip !! 2%nat);
    d ← unwrap (ip !! 3%nat);
    na ← unwrap (parse_u8 a);
    nb ← unwrap (parse_u8 b);
    nc ← unwrap (parse_u8 c);
    nd ← unwrap (parse_u8 d);
    '(r, v) ← net_lookup v h (V4 na nb nc nd);
    Done (match r with Ok (Some mac) => Resolved a b c d mac | Ok None => PendingAnswer | Err e => LookupFailed e end, v)
  else Done (UnknownCmd, v).

(** *** Reading an address *)
Definition dec (n : Z) : list Z := Calc.show_digits 20 n.
Definition dotted (a b c d : Z) : list Z := dec a ++ 46 :: dec b ++ 46 :: dec c ++ 46 :: dec d.
Definition byte_ok (n : Z) : Prop := 0 ≤ n < 256.

Lemma dec_byte n : byte_ok n → parse_u8 (dec n) = Some n ∧ 46 ∉ dec n ∧ Forall (λ c, is_whitespace c = false) (dec n) ∧ dec n ≠ [].
Proof using.
  unfold byte_ok. intros Hn. assert (n ∈ seqZ 0 256) as Hin by (apply elem_of_seqZ; lia). clear Hn. revert n Hin. apply Forall_forall.
  apply (bool_decide_unpack _). by vm_compute.
Qed.

Lemma split_on_head sep s l : sep ∉ s → split_on sep (s ++ sep :: l) = s :: split_on sep l.
Proof using.
  intros Hs. induction s as [|c s IH]; cbn [app split_on]; [by rewrite Z.eqb_refl|].
  apply not_elem_of_cons in Hs as [Hc Hs]. rewrite (proj2 (Z.eqb_neq c sep)) by congruence. by rewrite IH.
Qed.

Lemma split_on_one sep s : sep ∉ s → split_on sep s = [s].
Proof using.
  induction s as [|c s IH]; intros Hs; [done|]. apply not_elem_of_cons in Hs as [Hc Hs]. cbn [split_on].
  rewrite (proj2 (Z.eqb_neq c sep)) by congruence. by rewrite IH.
Qed.

Lemma split_word s : ∀ w l, Forall (λ c, is_whitespace c = false) s → w ++ s ≠ [] → split_whitespace w (s ++ 32 :: l) = (w ++ s) :: split_whitespace [] l.
Proof using.
  induction s as [|c s IH]; intros w l Hs Hne.
  - rewrite app_nil_r in *. cbn. by destruct w.
  - apply Forall_cons in Hs as [Hc Hs]. cbn [app split_whitespace]. rewrite Hc, IH by (done || by destruct w). by rewrite <- (assoc_L (++)).
Qed.

Lemma split_last s : ∀ w, Forall (λ c, is_whitespace c = false) s → w ++ s ≠ [] → split_whitespace w s = [w ++ s].
Proof using.
  induction s as [|c s IH]; intros w Hs Hne.
  - rewrite app_nil_r in *. cbn. by destruct w.
  - apply Forall_cons in Hs as [Hc Hs]. cbn [split_whitespace]. rewrite Hc, IH by (done || by destruct w). by rewrite <- (assoc_L (++)).
Qed.

Lemma net_lookup_ok v h ip m ms resp :
  accepts v h = true → inbox v !! h = Some (m :: ms) → from_bytes (m_data m) = Some resp →
  ∃ v', net_lookup v h ip = Done (lookup_ip resp, v') ∧ sent v' = sent v ++ [(h, mkMsg (to_bytes (ArpRequest ip)) [])].
Proof using.
  intros Hcl Hin Hm. unfold net_lookup, simple_call. rewrite simple_send_ok by exact Hcl.
  set (p := to_bytes (ArpRequest ip)). unfold simple_recv. cbn [b_cap b_len b_hcap b_hlen]. set (v1 := Services.channel_write_rs v h p []).
  destruct (resize_takes v1 h (reserve 0 0 (Z.of_nat (length p))) (Z.of_nat (length p)) 0 0 m ms) as (cap & hcap & ->);
    [unfold v1; by rewrite inbox_write|unfold reserve; case_match eqn:E; [apply Z.leb_le in E|]; lia|lia|]. cbn [mbind outcome_bind unwrap]. rewrite Hm.
  eexists. split; [done|]. cbn [sent upd_inbox]. unfold v1. rewrite sent_write. unfold delivered. by rewrite Hcl.
Qed.

(** The command asks for exactly the address its argument spells, in any case of [arp], and
    prints what the answer says. *)
Theorem net_asks_for_address v h cmd a b c d m ms resp :
  upper <$> cmd = text "ARP" → Forall (λ x, is_whitespace x = false) cmd → byte_ok a → byte_ok b → byte_ok c → byte_ok d →
  accepts v h = true → inbox v !! h = Some (m :: ms) → from_bytes (m_data m) = Some resp →
  ∃ v', net_main v h (cmd ++ 32 :: dotted a b c d) =
      Done (match lookup_ip resp with Ok (Some mac) => Resolved (dec a) (dec b) (dec c) (dec d) mac | Ok None => PendingAnswer | Err e => LookupFailed e end, v') ∧
    sent v' = sent v ++ [(h, mkMsg (to_bytes (ArpRequest (V4 a b c d))) [])].
Proof using.
  intros Hcmd Hw Ha Hb Hc Hd Hcl Hin Hm.
  destruct (dec_byte a Ha) as (Pa & Da & Wa & Na), (dec_byte b Hb) as (Pb & Db & Wb & _), (dec_byte c Hc) as (Pc & Dc & Wc & _), (dec_byte d Hd) as (Pd & Dd & Wd & _).
  assert (Hdot : split_on 46 (dotted a b c d) = [dec a; dec b; dec c; dec d]) by (unfold dotted; by rewrite !split_on_head, split_on_one).
  assert (Wdot : Forall (λ x, is_whitespace x = false) (dotted a b c d)).
  { unfold dotted. repeat (apply Forall_app; split; [done|]; apply Forall_cons; split; [done|]). done. }
  unfold net_main. rewrite split_word; [|done|cbn [app]; intros ->; discriminate Hcmd].
  rewrite split_last; [|done|unfold dotted; cbn [app]; intros [? _]%app_nil; done]. cbn [app head unwrap mbind outcome_bind lookup list_lookup].
  rewrite bool_decide_true by exact Hcmd. rewrite Hdot. cbn [lookup list_lookup unwrap mbind outcome_bind]. rewrite Pa, Pb, Pc, Pd. cbn [unwrap mbind outcome_bind].
  destruct (net_lookup_ok v h (V4 a b c d) m ms resp Hcl Hin Hm) as (v' & -> & Hs). by exists v'.
Qed.
End command.
End NetCmd.

(** ** Concrete runs *)
Lemma calc_evaluates_witness : Calc.calc (λ _, false) (text "2 + 3*4") = Calc.value (Calc.mkExpr 2 [(Calc.BAdd, 3); (Calc.BMul, 4)]) ∧
  Calc.value (Calc.mkExpr 2 [(Calc.BAdd, 3); (Calc.BMul, 4)]) = Done 20.
Proof.
  split; [|reflexivity]. apply Calc.calc_evaluates.
  - unfold Calc.small, Calc.i64_lim. cbn. lia.
  - repeat constructor; unfold Calc.small, Calc.i64_lim; cbn; lia.
  - reflexivity.
Defined.

Example net_answer :
  ∃ v', NetCmd.net_main (H := demo_net_codec) (H0 := demo_arp_codec)
    (mkView {[ 50 := [mkMsg (to_bytes (Postcard := demo_arp_codec) (Mac 0x525500000002)) []] ]} ∅ [] [] [] [] 70 [] ∅) 50 (text "arp 10.0.2.2") =
    Done (NetCmd.Resolved (text "10") (text "0") (text "2") (text "2") 0x525500000002, v') ∧
    sent v' = [(50, mkMsg (to_bytes (Postcard := demo_net_codec) (NetService.ArpRequest (V4 10 0 2 2))) [])].
Proof.
  destruct (NetCmd.net_asks_for_address (H := demo_net_codec) (H0 := demo_arp_codec)
    (mkView {[ 50 := [mkMsg (to_bytes (Postcard := demo_arp_codec) (Mac 0x525500000002)) []] ]} ∅ [] [] [] [] 70 [] ∅) 50 (text "arp") 10 0 2 2
    (mkMsg (to_bytes (Postcard := demo_arp_codec) (Mac 0x525500000002)) []) [] (Mac 0x525500000002)) as (v' & E & Hs);
    [reflexivity|by repeat constructor|unfold NetCmd.byte_ok; lia..|done|reflexivity|apply from_to|].
  exists v'. split; [exact E|exact Hs].
Qed.
