(* ===== verification/Spawn.v ===== *)
(** * Starting processes

    [spawn_process] of [kernel/src/scheduling/taskmanager.rs], with which the kernel starts
    its own services; the service with which programs start programs is
    [Daemons.ElfService]. *)
From S2P Require Import Prelude Page PhysMem AllocIface PageAlloc PageTable PageMapper Sched Ipc Syscall Loader Cores.

Section spawn.
Context (off : Z).
#[local] Instance spawn_allocator : PageAllocator PageFrameAllocator := pfa_allocator off.

(** [spawn_process], called by thread [t]; [start] is the address of [start_new_task].  The
    boxed closure is the argument of the thread, which [new_thread] puts on its stack. *)
Definition spawn_process (g : GlobalMaps) (apic : nat) (hpet : option (Z * nat)) (start : Z) (t : nat)
    (args references : list Z) (kernel : bool) : sys nat :=
  p ← process_new off g apic hpet kernel args;
  this ← current_process t;
  _ ← give_references this p references;
  th ← new_thread off start p;
  (* the [Arc] moves into the table *)
  _ ← on_k_ (λ k, drop_kernel_value (upd_registered k ({[p]} ∪ PROCESSES k)) (VProcess p));
  th ← pure (unwrap th);
  _ ← on_k_ (λ k, s ← queue_thread (k_sd k) th; Done (upd_sd k s));
  mret p.

(** ** Runs of the monad that leave the kernel's objects alone *)
Definition keeps_k {A} (m : sys A) : Prop := ∀ w r w', m w = Done (r, w') → w_k w' = w_k w.

Lemma keeps_on_vm {A} (f : vm_world (A := PageFrameAllocator) → outcome (A * vm_world (A := PageFrameAllocator))) : keeps_k (on_vm f).
Proof using. intros w r w' E. unfold on_vm in E. inv_outcome. destruct x. by inv_outcome. Qed.

Lemma keeps_pure {A} (o : outcome A) : keeps_k (pure o).
Proof using. intros w r w' E. unfold pure in E. by inv_outcome. Qed.

Lemma keeps_bind {A B} (m : sys A) (f : A → sys B) : keeps_k m → (∀ a, keeps_k (f a)) → keeps_k (m ≫= f).
Proof using.
  intros Hm Hf w r w' E. unfold mbind, sys_bind in E. destruct (m w) as [[[a|e] w1]| |] eqn:E1; try done.
  - by rewrite (Hf _ _ _ _ E), (Hm _ _ _ E1).
  - injection E as _ <-. eauto.
Qed.

Lemma keeps_ret {A} (a : A) : keeps_k (mret a : sys A).
Proof using. by intros w r w' [= _ <-]. Qed.

Lemma keeps_set_memory p m : keeps_k (set_memory p m).
Proof using. by intros w r w' [= _ <-]. Qed.

Lemma keeps_get_memory p : keeps_k (get_memory p).
Proof using. apply keeps_bind; [by intros w r w' [= _ <-]|intros; apply keeps_pure]. Qed.

Lemma keeps_on_mapper {A} p (f : vm_world (A := PageFrameAllocator) → PageMapperManager → outcome (A * (PageMapperManager * vm_world (A := PageFrameAllocator)))) :
  keeps_k (on_mapper p f).
Proof using.
  apply keeps_bind; [apply keeps_get_memory|]. intros m. apply keeps_bind; [apply keeps_on_vm|]. intros [a pm].
  apply keeps_bind; [apply keeps_set_memory|]. intros _. apply keeps_ret.
Qed.

(** ** The new process *)
Definition new_process (args : list Z) : Process := mkProc ∅ 0 args (mkRefs ∅ 1) NotExitedYet KObjectSignal_new.

Lemma process_new_k g apic hpet kernel args p w w' : process_new off g apic hpet kernel args w = Done (Ok p, w') →
  p = k_next (w_k w) ∧ w_k w' = upd_next (set_proc (clone_value (w_k w) (VProcess p)) p (new_process args)) (S p).
Proof using.
  unfold process_new. intros E. sys_step E as pm w1 E1. apply keeps_on_vm in E1. sys_step E as pm2 w2 E2. apply keeps_on_vm in E2.
  sys_step E as pm3 w3 E3. assert (E3' : w_k w3 = w_k w2) by (destruct hpet as [[? ?]|]; [by apply keeps_on_vm in E3|by injection E3 as _ <-]).
  sys_step E as q w4 E4. unfold on_k in E4. cbv zeta in E4. rewrite bind_ret in E4. injection E4 as <- <-.
  sys_step E as u w5 E5. injection E5 as _ <-. injection E as <- <-. cbn. rewrite E3', E2, E1. done.
Qed.

(** Handles 1, 2, ... of the new process are the values given, in their order. *)
Fixpoint numbered (n : Z) (vs : list KernelValue) : gmap Z KernelValue :=
  match vs with [] => ∅ | v :: vs => <[n := v]> (numbered (n + 1) vs) end.

Lemma numbered_below vs : ∀ n k, k < n → numbered n vs !! k = None.
Proof using. induction vs as [|v vs IH]; intros n k Hk; cbn; [done|]. rewrite lookup_insert_ne by lia. apply IH. lia. Qed.

Lemma numbered_above vs : ∀ n k, n + Z.of_nat (length vs) ≤ k → numbered n vs !! k = None.
Proof using. induction vs as [|v vs IH]; intros n k Hk; cbn in *; [done|]. rewrite lookup_insert_ne by lia. apply IH. lia. Qed.

Lemma numbered_lookup vs : ∀ n i, numbered n vs !! (n + Z.of_nat i) = vs !! i.
Proof using.
  induction vs as [|v vs IH]; intros n i; cbn [numbered]; [done|]. destruct i as [|i].
  - rewrite Z.add_0_r. apply lookup_insert_eq.
  - rewrite lookup_insert_ne by lia. change ((v :: vs) !! S i) with (vs !! i). rewrite <- (IH (n + 1) i). f_equal. lia.
Qed.

Lemma numbered_snoc vs v : ∀ n, numbered n (vs ++ [v]) = <[n + Z.of_nat (length vs) := v]> (numbered n vs).
Proof using.
  induction vs as [|x vs IH]; intros n; cbn [numbered app length]; [by rewrite Z.add_0_r|].
  rewrite IH, insert_insert_ne by lia. replace (n + 1 + Z.of_nat (length vs)) with (n + Z.of_nat (S (length vs))) by lia. done.
Qed.

(** Values are given without touching anything but the references of [p] (and the
    counts of channel ends and processes). *)
Lemma give_references_k this p ids : ∀ w w' x y vs,
  give_references this p ids w = Done (Ok tt, w') → this ≠ p →
  k_procs (w_k w) !! this = Some y → k_procs (w_k w) !! p = Some x → p_refs x = mkRefs (numbered 1 vs) (1 + Z.of_nat (length vs)) →
  ∃ vs', mapM (λ id, references (p_refs y) !! id) ids = Some vs' ∧
    k_procs (w_k w') !! p = Some (with_refs x (mkRefs (numbered 1 (vs ++ vs')) (1 + Z.of_nat (length (vs ++ vs'))))) ∧
    k_sd (w_k w') = k_sd (w_k w) ∧ PROCESSES (w_k w') = PROCESSES (w_k w) ∧ k_next (w_k w') = k_next (w_k w).
Proof using.
  induction ids as [|id ids IH]; intros w w' x y vs E Hne Hy Hx Hr; cbn [give_references] in E.
  { injection E as <-. exists []. rewrite app_nil_r, <- Hr. split_and!; try done. by destruct x. }
  sys_step E as u w1 E1. unfold on_k_ in E1. apply bind_Done in E1 as (k1 & E1 & [= <-]).
  apply bind_Done in E1 as (o & Eo & E1). unfold get_value, deref_arc in Eo. rewrite Hy in Eo. injection Eo as <-.
  apply bind_Done in E1 as (v & Ev & E1). apply unwrap_Done in Ev. apply bind_Done in E1 as ([i k2] & Ea & [= <-]).
  set (kc := clone_value (w_k w) v) in *.
  assert (Hkc : k_procs kc = k_procs (w_k w) ∧ k_sd kc = k_sd (w_k w) ∧ PROCESSES kc = PROCESSES (w_k w) ∧ k_next kc = k_next (w_k w)) by by destruct v.
  destruct Hkc as (Hkp & Hks & HkP & Hkn).
  unfold add_value, deref_arc in Ea. rewrite Hkp, Hx, bind_ret in Ea. apply bind_Done in Ea as ([j r] & Er & [= <- <-]).
  unfold refs_add_value in Er. rewrite Hr in Er. cbn [Ipc.next_id references] in Er.
  rewrite (proj2 (Z.eqb_neq (1 + Z.of_nat (length vs)) 0)) in Er by lia. apply bind_Done in Er as (n & En & Er).
  apply chk_Done in En as [-> _]. rewrite numbered_above in Er by lia. cbn [assert_] in Er. rewrite bind_ret in Er. injection Er as <- <-.
  set (x1 := with_refs x _) in *. subst w1.
  destruct (IH (upd_k w (set_proc kc p x1)) w' x1 y (vs ++ [v]) E Hne) as (vs' & Hm & Hp & H1 & H2 & H3).
  - cbn. rewrite lookup_insert_ne by done. by rewrite Hkp.
  - cbn. apply lookup_insert_eq.
  - cbn. rewrite numbered_snoc, length_app. f_equal. cbn. lia.
  - exists (v :: vs'). split; [cbn; by rewrite Ev; cbn; rewrite Hm|]. rewrite <- (assoc_L (++)) in Hp. cbn in H1, H2, H3.
    split_and!; [exact Hp|by rewrite H1|by rewrite H2|by rewrite H3].
Qed.

Lemma new_thread_k start p w w' th x :
  new_thread off start p w = Done (Ok th, w') → k_procs (w_k w) !! p = Some x → p_exit_status x = NotExitedYet →
  th = Some (k_next (w_k w)) ∧
  k_procs (w_k w') !! p = Some (mkProc (<[p_thread_next_id x := k_next (w_k w)]> (p_threads x)) (p_thread_next_id x + 1) (p_args x) (p_refs x) NotExitedYet (p_signals x)) ∧
  PROCESSES (w_k w') = PROCESSES (w_k w) ∧ k_next (w_k w') = S (k_next (w_k w)) ∧
  ∃ sc, state sc = Runnable ∧ k_sd (w_k w') = set_thread (k_sd (w_k w)) (k_next (w_k w)) (mkThread p (p_thread_next_id x) false None sc).
Proof using.
  unfold new_thread. intros E Hx Hex. sys_step E as pr w1 E1. unfold on_k in E1. unfold deref_arc in E1. rewrite Hx, !bind_ret in E1. injection E1 as <- <-.
  cbv zeta in E. sys_step E as nxt w1 E1. apply pure_Ok in E1 as [En ->]. apply chk_Done in En as [-> _].
  sys_step E as u w2 E2. injection E2 as _ <-. set (x1 := mkProc _ (p_thread_next_id x + 1) _ _ _ _) in *.
  set (k1 := set_proc (w_k w) p x1) in *. assert (Hk1 : k_procs k1 !! p = Some x1) by apply lookup_insert_eq.
  sys_step E as m w3 E3. apply keeps_get_memory in E3. sys_step E as a1 w4 E4. apply pure_Ok in E4 as [_ ->].
  sys_step E as a2 w5 E5. apply keeps_on_vm in E5. sys_step E as a3 w6 E6. apply keeps_on_mapper in E6.
  sys_step E as a4 w7 E7. apply pure_Ok in E7 as [_ ->]. sys_step E as a5 w8 E8. apply pure_Ok in E8 as [_ ->].
  sys_step E as a6 w9 E9. apply pure_Ok in E9 as [_ ->]. sys_step E as a7 w10 E10. apply keeps_on_vm in E10.
  sys_step E as a8 w11 E11. apply keeps_on_vm in E11. sys_step E as a9 w12 E12. apply pure_Ok in E12 as [_ ->].
  sys_step E as b1 w13 E13. apply keeps_on_mapper in E13. sys_step E as b2 w14 E14. apply pure_Ok in E14 as [_ ->].
  assert (Hk : w_k w13 = k1) by by rewrite E13, E11, E10, E6, E5, E3. clear E13 E11 E10 E6 E5 E3.
  sys_step E as x2 w15 E15. unfold on_k in E15. rewrite Hk in E15. unfold deref_arc in E15. rewrite Hk1, !bind_ret in E15. injection E15 as <- <-.
  cbn [p_exit_status x1] in E. rewrite Hex in E.
  sys_step E as t w16 E16. unfold on_k in E16. rewrite bind_ret in E16. injection E16 as <- <-.
  sys_step E as u2 w17 E17. unfold on_k_ in E17. rewrite bind_ret in E17. injection E17 as _ <-. injection E as <- <-.
  unfold x1. cbn. rewrite lookup_insert_eq. split_and!; try done. eexists. split; [|done]. done.
Qed.

(** The entry in [PROCESSES] keeps a process. *)
Lemma drop_registered k p k' : p ∈ PROCESSES k → drop_kernel_value k (VProcess p) = Done k' → k' = upd_arcs k (k_arcs k').
Proof using.
  intros Hp. unfold drop_kernel_value. cbn [drop_value]. destruct (proc_arcs k p) as [|n]; [done|].
  rewrite (bool_decide_eq_true_2 (p ∈ PROCESSES (upd_arcs k (<[p := n]> (k_arcs k)))) Hp), orb_true_r. by intros [= <-].
Qed.

(** A thread that is in no queue can be replaced. *)
Lemma q_repr_fresh s l t p i sc : q_repr s l → t ∉ l → q_repr (set_thread s t (mkThread p i false None sc)) l.
Proof using.
  intros [Hh Ht Hl Hnd Hq Hu] Hn. split; [done|done| |done| |].
  - eapply linked_ext; [|exact Hl]. intros x Hx. rewrite threads_set_thread. rewrite decide_False by (by intros ->). done.
  - intros x. rewrite threads_set_thread. case_decide as Hd; [subst; cbn; split; [done|]|apply Hq]. intros ?. done.
  - intros x Hx. rewrite threads_set_thread. case_decide; [done|by apply Hu].
Qed.

(** A spawned process is complete when it first runs: it is registered, holds exactly
    the caller's references, numbered from 1 in the order given (so that handle 1 is the name
    server's channel), and its one thread is runnable and the last in the run queue. *)
Theorem spawn_process_spec g apic hpet start t args refs kernel w w' p l y :
  spawn_process g apic hpet start t args refs kernel w = Done (Ok p, w') →
  q_repr (k_sd (w_k w)) l → Forall (λ x, (x < k_next (w_k w))%nat) l →
  k_procs (w_k w) !! t_process (threads (k_sd (w_k w)) t) = Some y → k_procs (w_k w) !! k_next (w_k w) = None →
  ∃ vs th x, p = k_next (w_k w) ∧ mapM (λ id, references (p_refs y) !! id) refs = Some vs ∧
    k_procs (w_k w') !! p = Some x ∧ p ∈ PROCESSES (w_k w') ∧ p_args x = args ∧ p_threads x = {[ 0 := th ]} ∧
    (∀ i, references (p_refs x) !! (1 + Z.of_nat i) = vs !! i) ∧ (∀ i, i < 1 → references (p_refs x) !! i = None) ∧
    q_repr (k_sd (w_k w')) (l ++ [th]) ∧ t_process (threads (k_sd (w_k w')) th) = p ∧ state (sched (threads (k_sd (w_k w')) th)) = Runnable.
Proof using.
  intros E Hq Hl Hy Hfresh. unfold spawn_process in E. sys_step E as q w1 E1. apply process_new_k in E1 as [-> Hk1].
  set (p0 := k_next (w_k w)) in *. set (this := t_process (threads (k_sd (w_k w)) t)) in *.
  assert (Hne : this ≠ p0) by (intros Heq; rewrite Heq in Hy; congruence).
  sys_step E as th0 w2 E2. injection E2 as <- <-. sys_step E as u w3 E3.
  assert (Hsd1 : k_sd (w_k w1) = k_sd (w_k w)) by by rewrite Hk1. rewrite Hsd1 in E3. fold this in E3.
  destruct u. apply (give_references_k this p0 refs w1 w3 (new_process args) y []) in E3 as (vs & Hm & Hp & Hsd & HP & Hnx); try done.
  2: { rewrite Hk1. cbn. by rewrite lookup_insert_ne. }
  2: { rewrite Hk1. cbn. apply lookup_insert_eq. }
  sys_step E as th w4 E4. eapply new_thread_k in E4 as (-> & Hp4 & HP4 & _ & sc & Hsc & Hsd4); [|exact Hp|done].
  sys_step E as u w5 E5. unfold on_k_ in E5. apply bind_Done in E5 as (k5 & E5 & [= _ <-]). apply drop_registered in E5; [|cbn; set_solver].
  sys_step E as th w6 E6. apply pure_Ok in E6 as [Eth ->]. injection Eth as <-.
  rewrite E5 in E. clear E5. set (a5 := k_arcs k5) in E. clearbody a5.
  sys_step E as u2 w7 E7. unfold on_k_ in E7. apply bind_Done in E7 as (k7 & E7 & [= _ <-]). apply bind_Done in E7 as (s7 & Es & [= <-]). injection E as <- <-.
  rewrite Hnx, Hk1 in Hsd4, Hp4, Es. cbn in Hsd4, Es, Hp4. rewrite Hsd4, Hsd, Hk1 in Es. cbn in Es.
  assert (Hnl : S p0 ∉ l) by (rewrite Forall_forall in Hl; intros ?%Hl; lia).
  pose proof (q_repr_fresh (k_sd (w_k w)) l (S p0) p0 0 sc Hq Hnl) as Hq1.
  destruct (queue_thread_ok _ l (S p0) Hq1) as (s8 & Es8 & Hq8 & Hss). rewrite Es in Es8. injection Es8 as ->. rewrite decide_False in Hq8 by done.
  eexists vs, (S p0), _. split; [done|]. split; [exact Hm|]. split; [exact Hp4|]. cbn. split_and!; try done.
  - set_solver.
  - intros i. apply numbered_lookup.
  - intros i Hi. by apply numbered_below.
  - destruct (Hss (S p0)) as (_ & -> & _). by rewrite threads_set_thread, decide_True by done.
  - destruct (Hss (S p0)) as (-> & _). by rewrite threads_set_thread, decide_True by done.
Qed.
End spawn.

(** *** A kernel service is started with two of its caller's handles *)
Definition spawn_kernel : Kernel :=
  mkKernel (mkSD (λ _, mkThread 9 0 false None (mkSched Runnable None 0 false false)) None None) ∅ ∅ ∅ ∅
    {[ 9%nat := mkProc {[ 0 := 3%nat ]} 1 [] (mkRefs {[ 1 := VPort 0; 2 := VMessage 4 ]} 3) NotExitedYet KObjectSignal_new ]} {[ 9%nat ]} [] 20 {[ 9%nat := 1%nat ]}.

Definition spawn_world : World :=
  match new_mmap (A := PageFrameAllocator) (cores_world, mkStore ∅ 0) 0xfee00000 0x1000 with
  | Done (_, v) => mkWorld spawn_kernel v ∅ (λ _, blank_user) 0
  | _ => demo_sys
  end.

Definition spawned : World :=
  match spawn_process PhysMapOffset demo_globals 0 None 0x1000 3 [65] [2; 1] true spawn_world with
  | Done (_, w) => w
  | _ => spawn_world
  end.

Lemma spawned_ok : spawn_process PhysMapOffset demo_globals 0 None 0x1000 3 [65] [2; 1] true spawn_world = Done (Ok 20%nat, spawned).
Proof.
  assert (H : match spawn_process PhysMapOffset demo_globals 0 None 0x1000 3 [65] [2; 1] true spawn_world with
              | Done (Ok 20%nat, _) => true | _ => false end = true) by (vm_compute; reflexivity).
  unfold spawned. destruct (spawn_process _ _ _ _ _ _ _ _ _ _) as [[[n|] w]| |]; try done. do 21 (destruct n as [|n]; try done).
Qed.

Lemma spawn_empty_queue : q_repr (k_sd (w_k spawn_world)) [].
Proof. split; try done; [constructor|]. intros t. split; [done|]. by intros ?%elem_of_nil. Qed.

Lemma spawn_process_spec_witness :
  ∃ x th, k_procs (w_k spawned) !! 20%nat = Some x ∧ references (p_refs x) !! 1 = Some (VMessage 4) ∧ references (p_refs x) !! 2 = Some (VPort 0) ∧
    q_repr (k_sd (w_k spawned)) [th].
Proof.
  destruct (spawn_process_spec PhysMapOffset demo_globals 0 None 0x1000 3 [65] [2; 1] true spawn_world spawned 20 []
    (mkProc {[ 0 := 3%nat ]} 1 [] (mkRefs {[ 1 := VPort 0; 2 := VMessage 4 ]} 3) NotExitedYet KObjectSignal_new))
    as (vs & th & x & _ & Hm & Hp & _ & _ & _ & Hr & _ & Hq & _).
  - exact spawned_ok.
  - exact spawn_empty_queue.
  - constructor.
  - reflexivity.
  - reflexivity.
  - assert (Hvs : Some vs = Some [VMessage 4; VPort 0]) by (rewrite <- Hm; reflexivity). injection Hvs as ->.
    exists x, th. split; [exact Hp|]. split; [exact (Hr O)|]. split; [exact (Hr 1%nat)|exact Hq].
Defined.
