(* ===== verification/Startup.v ===== *)
(** * Start-up of the kernel

    [main_stage1] of [kernel/src/main.rs], which sets up the page allocator, builds the page
    tables the kernel runs on and switches to them. *)
From S2P Require Import Prelude Page PhysMem AllocIface PageAlloc PageTable PageMapper OffsetMap KernelHeap BootMaps.

(** ** The page tables of the first stage *)
Section stage1.
Context {A : Type} `{PageAllocator A} (off : Z).

(** The first use of [KERNEL_LVL4]: [PageTable::new_with_global] when [OFFSET_MAP] and
    [KERNEL_DATA_MAP] have been used and [KERNEL_HEAP_MAP] and [PER_CPU_MAP] have not, so that
    their tables are made on the way. *)
Definition first_lvl4 (offset_map kernel_data_map : Z) (s : A * PMem) : outcome (GlobalMaps * Z * (A * PMem)) :=
  '(this, (a, m)) ← PageTable_new s;
  _ ← table_deref off this;
  m ← set_global m this PhysMapOffset offset_map;
  m ← set_global m this KernelStart kernel_data_map;
  '(heap_map, (a, m)) ← PageTable_new (a, m);
  m ← set_global m this KernelHeap heap_map;
  '(per_cpu_map, (a, m)) ← PageTable_new (a, m);
  m ← set_global m this PerCpuMem per_cpu_map;
  Done (mkGlobals offset_map kernel_data_map heap_map per_cpu_map, this, (a, m)).

(** From the first use of [OFFSET_MAP] to the value of CR3; [kern_base] is where the kernel is
    linked. *)
Definition stage1_maps (s : A * PMem) (mmap : list MemoryDescriptor) (kernel_start kernel_pages kern_base : Z) (gop : GopInfo)
  : outcome (GlobalMaps * Z * (A * PMem)) :=
  '(offset_map, s) ← PageTable_new s;
  s ← create_offset_map off s offset_map mmap;
  '(kernel_data_map, s) ← PageTable_new s;
  s ← create_kernel_map off s kernel_data_map kernel_start kernel_pages kern_base;
  '(g, table, s) ← first_lvl4 offset_map kernel_data_map s;
  s ← map_gop off s table gop;
  page ← Page_new Size4KB 0xfee00000;
  '(r, s) ← identity_map off Size4KB 3 s table page flags_writeable;
  match r with
  | Err _ => Panic PUnwrap
  | Ok _ => Done (g, table, s)
  end.
End stage1.

(** [main_stage1] from the page allocator to the switch: while it runs memory is seen at its
    physical addresses ([MEM_OFFSET] is 0), afterwards through the offset map; the second
    component is the new [MEM_OFFSET]. *)
Definition main_stage1 (m : PMem) (mmap : list MemoryDescriptor) (kernel_start kernel_pages kern_base : Z) (gop : GopInfo)
  : outcome (GlobalMaps * Z * Z * alloc_world) :=
  s ← PageFrameAllocator_new 0 m mmap;
  '(g, cr3, s) ← stage1_maps (H := pfa_allocator 0) 0 s mmap kernel_start kernel_pages kern_base gop;
  Done (g, cr3, PhysMapOffset, s).

Section maps_correct.
Context {A : Type} {HA : PageAllocator A} {HS : @PageAllocatorSpec A HA} (off : Z) (Hoff : offset_ok off).

Lemma new_table_ok (s : A * PMem) F : pa_owns s F → (0 < length F)%nat →
  ∃ b s' F', PageTable_new s = Done (b, s') ∧ F ≡ₚ b :: F' ∧ pa_owns s' F' ∧ (∀ j, table (snd s') b j = pde_zero) ∧
    (∀ f, f mod 0x1000 = 0 → f ≠ b → table (snd s') f = table (snd s) f).
Proof using.
  intros Ho HF. unfold PageTable_new.
  destruct (pa_allocate_page_spec s F Ho) as [(b & s1 & F1 & -> & ? & ? & ? & ?)|[_ ->]]; [|cbn in HF; lia]. by exists b, s1, F1.
Qed.

(** A fresh table is linked into a level-4 table. *)
Lemma link_new (a : A) m F b addr :
  pa_owns (a, m) F → frames_wf F (tables 3 m b) → table m b (calculate_index 4 addr) = pde_zero → (0 < length F)%nat →
  ∃ h a' m1 m' F', PageTable_new (a, m) = Done (h, (a', m1)) ∧ set_global m1 b addr h = Done m' ∧ pa_owns (a', m') F' ∧
    length F = S (length F') ∧ F' ++ tables 3 m' b ≡ₚ F ++ tables 3 m b ∧
    (∀ j, j ≠ calculate_index 4 addr → table m' b j = table m b j) ∧
    (∀ v, translate 3 m' b v = if decide (calculate_index 4 v = calculate_index 4 addr) then None else translate 3 m b v).
Proof using.
  intros Ho Hwf Hz HF. destruct (new_table_ok (a, m) F Ho HF) as (h & [a1 m1] & F1 & E & HFp & Ho1 & Hz1 & Hout). cbn [snd] in *.
  assert (Hsame : ∀ f, f ∈ tables 3 m b → table m1 f = table m f).
  { intros f Hf. apply Hout; [apply (frames_wf_table F _ f Hwf), elem_of_app; by right|]. intros ->. destruct Hwf as [Hnd _].
    apply NoDup_app in Hnd as (_ & Hd & _). apply (Hd h); [rewrite HFp; left|done]. }
  destruct (empty_table 2 m1 h) as [Hth Htr]; [intros; by rewrite Hz1|].
  assert (Ht3 : tables 3 m1 b = tables 3 m b) by by apply tables_ext.
  destruct (set_global_ok m1 b addr h F1) as (m' & Es & E1 & E2 & _ & E4 & E5 & E6 & _).
  { rewrite Hsame by apply tables_head. done. }
  { rewrite Hth, Ht3. eapply frames_wf_perm; [|exact Hwf]. by rewrite HFp. }
  exists h, a1, m1, m', F1. split_and!; [done|done|by eapply pa_owns_table|by rewrite HFp| | |].
  - rewrite E5, Hth, Ht3, HFp. done.
  - intros j Hj. rewrite E4 by done. by rewrite Hsame by apply tables_head.
  - intros v. rewrite E6. case_decide; [by rewrite Htr|by apply translate_ext].
Qed.

Lemma perm_root (b : Z) F Tk To : (To ++ Tk ++ F) ++ [b] ≡ₚ (b :: F) ++ Tk ++ To.
Proof using. solve_Permutation. Qed.

Lemma first_lvl4_ok s F om km :
  pa_owns s F → frames_wf F (tables 2 (snd s) km ++ tables 2 (snd s) om) → (3 ≤ length F)%nat →
  ∃ g root s' F', first_lvl4 off om km s = Done (g, root, s') ∧ OFFSET_MAP g = om ∧ KERNEL_DATA_MAP g = km ∧ pa_owns s' F' ∧
    F' ++ tables 3 (snd s') root ≡ₚ F ++ tables 2 (snd s) km ++ tables 2 (snd s) om ∧ length F = (length F' + 3)%nat ∧
    (∀ v, translate 3 (snd s') root v =
       if decide (calculate_index 4 v = 448%nat) then kernel_only <$> translate 2 (snd s) om v
       else if decide (calculate_index 4 v = 511%nat) then kernel_only <$> translate 2 (snd s) km v else None) ∧
    (∀ fl v, (calculate_index 4 v < 256)%nat → opens fl 3 (snd s') root v).
Proof using Hoff.
  intros Ho Hwf HF. destruct kernel_indices as (I1 & I2 & I3 & I4). unfold first_lvl4.
  set (Tk := tables 2 (snd s) km) in *. set (To := tables 2 (snd s) om) in *.
  destruct (new_table_ok s F Ho) as (b & [a1 m1] & F1 & -> & HFp & Ho1 & Hz1 & Hout); [lia|]. rewrite bind_ret. cbn [snd] in *.
  assert (Hokb : frame_ok b) by (apply (frames_wf_table F _ b Hwf), elem_of_app; left; rewrite HFp; left).
  rewrite (table_deref_ok off Hoff b Hokb), bind_ret.
  assert (Hb : b ∉ Tk ++ To).
  { intros Hin. destruct Hwf as [Hnd _]. apply NoDup_app in Hnd as (_ & Hd & _). apply (Hd b); [rewrite HFp; left|done]. }
  assert (Hkeep : ∀ f, f ∈ Tk ++ To → table m1 f = table (snd s) f).
  { intros f Hf. apply Hout; [apply (frames_wf_table F _ f Hwf), elem_of_app; by right|]. by intros ->. }
  assert (Hto1 : tables 2 m1 om = To) by (apply tables_ext; intros f Hf; apply Hkeep, elem_of_app; by right).
  destruct (empty_table 3 m1 b) as [Htb Htr1]; [intros; by rewrite Hz1|].
  destruct (set_global_ok m1 b PhysMapOffset om (Tk ++ F1)) as (m2 & -> & A1 & A2 & A3 & A4 & A5 & A6 & _); [by rewrite Hz1| |].
  { rewrite Hto1, Htb. eapply frames_wf_perm; [|exact Hwf]. rewrite HFp. apply perm_root. }
  rewrite bind_ret, I1 in *. rewrite Hto1, Htb in A5.
  assert (Htk2 : tables 2 m2 km = Tk).
  { apply tables_ext. intros f Hf. rewrite A3 by (intros ->; apply Hb, elem_of_app; by left). apply Hkeep, elem_of_app. by left. }
  destruct (set_global_ok m2 b KernelStart km F1) as (m3 & -> & B1 & B2 & B3 & B4 & B5 & B6 & _); [by rewrite I2, A4, Hz1| |].
  { rewrite Htk2. eapply frames_wf_perm; [|exact Hwf]. rewrite A5, HFp. apply perm_root. }
  rewrite bind_ret, I2 in *. rewrite Htk2 in B5.
  assert (Hp3 : F1 ++ tables 3 m3 b ≡ₚ F ++ Tk ++ To) by (rewrite B5, A5, HFp; apply perm_root).
  assert (Hl1 : length F = S (length F1)) by by rewrite HFp.
  destruct (link_new a1 m3 F1 b KernelHeap) as (h & a4 & m4 & m5 & F2 & -> & C1 & Ho2 & Hl2 & C3 & C4 & C5).
  { eapply pa_owns_table; [exact Ho1| |]; congruence. }
  { by eapply frames_wf_perm. }
  { by rewrite I3, B4, A4, Hz1. }
  { lia. }
  rewrite bind_ret, C1, bind_ret, I3 in *.
  destruct (link_new a4 m5 F2 b PerCpuMem) as (p & a6 & m6 & m7 & F3 & -> & D1 & Ho3 & Hl3 & D3 & D4 & D5).
  { done. }
  { eapply frames_wf_perm; [|exact Hwf]. by rewrite C3, Hp3. }
  { by rewrite I4, C4, B4, A4, Hz1. }
  { lia. }
  rewrite bind_ret, D1, bind_ret, I4 in *. eexists _, b, (a6, m7), F3. cbn [snd]. split_and!; [done..| |lia| |].
  - by rewrite D3, C3, Hp3.
  - intros v. rewrite D5, C5, B6, A6, Htr1.
    assert (E2 : translate 2 m2 km v = translate 2 (snd s) km v).
    { apply translate_ext. intros f Hf. rewrite A3 by (intros ->; apply Hb, elem_of_app; by left). apply Hkeep, elem_of_app. by left. }
    assert (E1 : translate 2 m1 om v = translate 2 (snd s) om v) by (apply translate_ext; intros f Hf; apply Hkeep, elem_of_app; by right).
    rewrite E1, E2. repeat case_decide; try done; congruence.
  - intros fl v Hv. apply along_absent. by rewrite D4, C4, B4, A4, Hz1 by lia.
Qed.

(** ** Identity maps *)
Definition maps4 (m : PMem) (root v f : Z) : Prop := ∃ e, translate 3 m root v = Some (O, e) ∧ mapped_to Size4KB flags_writeable f e.

(** The pages of the lower half. *)
Definition low_page (v : Z) : Prop := 0 < v < 2 ^ 47 ∧ v mod 0x1000 = 0.

Lemma low_virt v : low_page v → virt_ok v.
Proof using. intros [? _]. split; [unfold u64_lim; lia|left; lia]. Qed.

Lemma ident_page_ok root s F v :
  pa_owns s F → frames_wf F (tables 3 (snd s) root) → low_page v → translate 3 (snd s) root v = None → opens flags_writeable 3 (snd s) root v → (3 ≤ length F)%nat →
  ∃ s' F', identity_map off Size4KB 3 s root (mkPage v) flags_writeable = Done (Ok (mkFlusher v), s') ∧ pa_owns s' F' ∧
    frames_wf F' (tables 3 (snd s') root) ∧ (length F ≤ length F' + 3)%nat ∧ maps4 (snd s') root v v ∧
    (∀ v', virt_ok v' → v' / 0x1000 ≠ v / 0x1000 → translate 3 (snd s') root v' = translate 3 (snd s) root v') ∧
    keeps_open (snd s) (snd s') root.
Proof using Hoff.
  intros Ho Hwf Hv Hn Hop HF. destruct (translate_None 3 _ _ _ Hn) as [Hc Hs]. unfold identity_map.
  destruct (Mapper_map_ok off Hoff Size4KB 3 s F root v v flags_writeable) as (s' & F' & e & E & Hcons & HF' & Ht & Hm & Hoth & Hko); [done|done|done|done|done|done|done|].
  exists s', F'. split_and!; [done|apply Hcons|by eapply conserves_wf|done|by exists e| |done].
  intros v' Hv' Hne. apply Hoth. contradict Hne. symmetry. apply (same_path_page Size4KB); [by apply low_virt|done|done].
Qed.

Lemma aligned_page v v' : v mod 0x1000 = 0 → v' mod 0x1000 = 0 → v / 0x1000 = v' / 0x1000 → v = v'.
Proof using. intros ? ? ?. pose proof (Z.div_mod v 0x1000). pose proof (Z.div_mod v' 0x1000). lia. Qed.

Lemma map_gop_pages_ok root l : ∀ s F,
  pa_owns s F → frames_wf F (tables 3 (snd s) root) → Forall low_page l → NoDup l → (∀ v, v ∈ l → translate 3 (snd s) root v = None ∧ opens flags_writeable 3 (snd s) root v) →
  (3 * length l ≤ length F)%nat →
  ∃ s' F', map_gop_pages off s root l = Done s' ∧ pa_owns s' F' ∧ frames_wf F' (tables 3 (snd s') root) ∧ (length F ≤ length F' + 3 * length l)%nat ∧
    (∀ v, v ∈ l → maps4 (snd s') root v v) ∧
    (∀ v', virt_ok v' → (∀ v, v ∈ l → v' / 0x1000 ≠ v / 0x1000) → translate 3 (snd s') root v' = translate 3 (snd s) root v') ∧
    keeps_open (snd s) (snd s') root.
Proof using Hoff.
  induction l as [|v l IH]; intros s F Ho Hwf Hl Hnd Hn HF; cbn [map_gop_pages].
  { exists s, F. split_and!; try done; [lia|by intros v ?%elem_of_nil|by intros fl v]. }
  apply Forall_cons in Hl as [Hv Hl]. apply NoDup_cons in Hnd as [Hvl Hnd]. cbn [length] in HF. rewrite Forall_forall in Hl.
  destruct (ident_page_ok root s F v Ho Hwf Hv) as (s1 & F1 & E1 & Ho1 & Hwf1 & HF1 & Hm1 & Hoth1 & Hko1); [apply Hn; left|apply Hn; left|lia|].
  destruct Hv as [Hv0 Hvm]. rewrite (Page_new_ok Size4KB v), bind_ret, E1, bind_ret by done.
  assert (Hne : ∀ x, x ∈ l → x / 0x1000 ≠ v / 0x1000).
  { intros x Hx E. apply Hvl. by rewrite <- (aligned_page x v (proj2 (Hl x Hx)) Hvm E). }
  destruct (IH s1 F1 Ho1 Hwf1) as (s2 & F2 & E2 & Ho2 & Hwf2 & HF2 & Hm2 & Hoth2 & Hko2); [by apply Forall_forall|done| |lia|].
  { intros x Hx. split; [|apply Hko1, Hn; by right]. rewrite Hoth1; [apply Hn; by right|by apply low_virt, Hl|by apply Hne]. }
  exists s2, F2. split_and!; [done|done|done|cbn [length]; lia| | |intros fl x Hx; by apply Hko2, Hko1].
  - intros x [->|Hx]%elem_of_cons; [|by apply Hm2]. destruct Hm1 as (e & ? & ?). exists e. split; [|done].
    rewrite Hoth2; [done|by apply low_virt|]. intros y Hy E. by apply (Hne y Hy).
  - intros v' Hv' Hx. rewrite Hoth2 by (done || intros y Hy; apply Hx; by right). apply Hoth1; [done|]. apply Hx. left.
Qed.

(** The pages of the frame buffer. *)
Definition gop_pages (gop : GopInfo) : list Z := step_range (gop_buffer gop) (gop_buffer gop + gop_buffer_size gop + 0xFFF).

Definition gop_low (gop : GopInfo) : Prop :=
  0 < gop_buffer gop ∧ gop_buffer gop mod 0x1000 = 0 ∧ 0 ≤ gop_buffer_size gop ∧ gop_buffer gop + gop_buffer_size gop + 0xFFF < 2 ^ 47.

Lemma gop_pages_low gop : gop_low gop → Forall low_page (gop_pages gop) ∧ NoDup (gop_pages gop).
Proof using.
  intros (H0 & Hm & Hs & Ht). split.
  - apply Forall_forall. intros v Hv. apply step_range_aligned in Hv as [Hr Hvm]; [|done]. split; [lia|done].
  - unfold gop_pages, step_range. apply NoDup_fmap_2; [intros i j; lia|apply NoDup_seq].
Qed.

(** ** The tables the kernel switches to *)

(** Both level-3 tables are built, and the second leaves the first alone. *)
Lemma two_maps_ok s F mmap ks kp :
  pa_owns s F → frames_wf (range_frames ks kp ++ F) [] → Forall region_ok mmap → StronglySorted before mmap →
  0 ≤ kp → kp * 0x1000 ≤ 2 ^ 39 → (6 * length mmap + 2 * Z.to_nat kp + 2 ≤ length F)%nat →
  ∃ om km s1 s2 s3 s4 F4, PageTable_new s = Done (om, s1) ∧ create_offset_map off s1 om mmap = Done s2 ∧
    PageTable_new s2 = Done (km, s3) ∧ create_kernel_map off s3 km ks kp KernelStart = Done s4 ∧ pa_owns s4 F4 ∧
    F4 ++ tables 2 (snd s4) km ++ tables 2 (snd s4) om ≡ₚ F ∧ (length F ≤ length F4 + 6 * length mmap + 2 * Z.to_nat kp + 2)%nat ∧
    (∀ a, 0 ≤ a < 2 ^ 39 → (0x1000 ≤ a ∧ in_memory mmap a → sees (snd s4) 2 om a) ∧
      (¬ (0x1000 ≤ a ∧ in_memory mmap a) → translate 2 (snd s4) om (PhysMapOffset + a) = None)) ∧
    (∀ i, 0 ≤ i < kp → maps (snd s4) km (KernelStart + i * 0x1000) (ks + i * 0x1000)).
Proof using Hoff.
  intros Ho Hwf Hr Hs Hk0 Hk1 HF. set (K := range_frames ks kp) in *.
  assert (HwfF : frames_wf F []) by (by apply (frames_wf_drop K)).
  destruct (new_table_ok s F Ho) as (om & s1 & F1 & E1 & HF1 & Ho1 & Hz1 & _); [lia|].
  assert (Hp1 : F1 ++ [om] ≡ₚ F ++ []) by (rewrite HF1, app_nil_r; symmetry; apply Permutation_cons_append). assert (Hl1 : length F = S (length F1)) by by rewrite HF1.
  destruct (create_offset_map_sees off Hoff om s1 F1 mmap Ho1) as (s2 & F2 & E2 & (Ho2 & Hp2 & _) & Hl2 & Hsee);
    [by eapply frames_wf_perm|intros; by rewrite Hz1|done|done|lia|].
  destruct (empty_table 2 (snd s1) om) as [Ht1 _]; [intros; by rewrite Hz1|]. rewrite Ht1 in Hp2.
  destruct (new_table_ok s2 F2 Ho2) as (km & s3 & F3 & E3 & HF3 & Ho3 & Hz3 & Hout3); [lia|].
  assert (Hl3 : length F2 = S (length F3)) by by rewrite HF3.
  destruct (empty_table 2 (snd s3) km) as [Ht3 _]; [intros; by rewrite Hz3|].
  assert (Hp3 : (F3 ++ [km]) ++ tables 2 (snd s2) om ≡ₚ F).
  { transitivity (F2 ++ tables 2 (snd s2) om); [rewrite HF3; apply Permutation_app_tail; symmetry; apply Permutation_cons_append|]. by rewrite Hp2, Hp1, app_nil_r. }
  assert (HwfK : frames_wf (K ++ F3) [km]).
  { apply (frames_wf_app _ _ (tables 2 (snd s2) om)). eapply frames_wf_perm; [|exact Hwf]. rewrite app_nil_r, <- Hp3. by rewrite <- !(assoc_L (++)). }
  destruct (create_kernel_map_ok off Hoff km s3 F3 ks kp Ho3 HwfK) as (s4 & F4 & E4 & (Ho4 & Hp4 & Hout4) & _ & Hl4 & Hm4 & _);
    [intros; by rewrite Hz3|done|done|lia|]. rewrite Ht3 in Hp4, Hout4.
  assert (Hkeep : ∀ f, f ∈ tables 2 (snd s2) om → table (snd s4) f = table (snd s2) f).
  { intros f Hf. destruct HwfF as [Hnd Hok]. rewrite app_nil_r, <- Hp3 in Hnd, Hok. apply NoDup_app in Hnd as (_ & Hd & _).
    rewrite Forall_forall in Hok. assert (Hfo : frame_ok f) by (apply Hok, elem_of_app; by right). pose proof Hfo as (_ & ? & _).
    assert (f ∉ F3 ++ [km]) by (intros Hin; by apply (Hd f)).
    rewrite Hout4 by done. apply Hout3; [done|]. intros ->. set_solver. }
  exists om, km, s1, s2, s3, s4, F4. rewrite (tables_ext 2 (snd s2) (snd s4) om Hkeep). split_and!; try done; [|lia|].
  - by rewrite (assoc_L (++)), Hp4.
  - intros a Ha. destruct (Hsee a Ha) as [H1 H2]. assert (Htr : translate 2 (snd s4) om (PhysMapOffset + a) = translate 2 (snd s2) om (PhysMapOffset + a)) by by apply translate_ext.
    split; [|by rewrite Htr]. unfold sees. by rewrite Htr.
Qed.

Lemma index_slot lo a n : slot_ok lo → calculate_index 4 lo = n → 0 ≤ a < 2 ^ 39 → calculate_index 4 (lo + a) = n.
Proof using.
  intros Hlo <- Ha. rewrite !calculate_index_mod. change (Z.of_nat 4 * 9 + 3) with 39. by rewrite (proj2 (slot_virt lo Hlo a Ha)).
Qed.

Lemma low_index v : 0 ≤ v < 2 ^ 47 → (calculate_index 4 v < 256)%nat.
Proof using.
  intros Hv. rewrite calculate_index_mod. change (Z.of_nat 4 * 9 + 3) with 39. assert (0 ≤ v / 2 ^ 39 < 256).
  { split; [apply Z.div_pos; lia|apply Z.div_lt_upper_bound; lia]. }
  rewrite Z.mod_small by lia. lia.
Qed.

(** The upper half is never in a page of the lower. *)
Lemma high_page lo a v : lo ∈ [PhysMapOffset; KernelStart] → 0 ≤ a < 2 ^ 39 → low_page v →
  virt_ok (lo + a) ∧ (lo + a) / 0x1000 ≠ v / 0x1000.
Proof using.
  intros Hlo Ha [Hv _]. assert (Hs : slot_ok lo ∧ 2 ^ 47 ≤ lo).
  { apply elem_of_cons in Hlo as [->|Hlo]; [|apply list_elem_of_singleton in Hlo as ->]; (split; [apply phys_slot || apply kernel_slot|unfold PhysMapOffset, KernelStart; lia]). }
  destruct Hs as [Hs Hge]. split; [by apply slot_virt|]. assert (v / 0x1000 < 2 ^ 35 ≤ (lo + a) / 0x1000); [|lia].
  split; [apply Z.div_lt_upper_bound; lia|apply Z.div_le_lower_bound; lia].
Qed.

(** C5: the first stage builds the address space the kernel needs and nothing more: with
    enough free frames it succeeds, and in the tables it switches to the memory of the
    firmware's map is seen through the offset map, the kernel's image lies where it was
    linked, the frame buffer and the registers of the local interrupt controller are at their
    own addresses, no other page of the lower half is mapped (the null page least of all), and
    the tables share no frame with each other or the allocator. *)
Theorem stage1_maps_spec s F mmap ks kp gop :
  pa_owns s F → frames_wf (range_frames ks kp ++ F) [] → Forall region_ok mmap → StronglySorted before mmap →
  0 ≤ kp → kp * 0x1000 ≤ 2 ^ 39 → gop_low gop → 0xfee00000 ∉ gop_pages gop →
  (6 * length mmap + 2 * Z.to_nat kp + 3 * length (gop_pages gop) + 8 ≤ length F)%nat →
  ∃ g cr3 s' F', stage1_maps off s mmap ks kp KernelStart gop = Done (g, cr3, s') ∧ pa_owns s' F' ∧ frames_wf F' (tables 3 (snd s') cr3) ∧
    (∀ a, 0 ≤ a < 2 ^ 39 → (0x1000 ≤ a ∧ in_memory mmap a → sees (snd s') 3 cr3 a) ∧
      (¬ (0x1000 ≤ a ∧ in_memory mmap a) → translate 3 (snd s') cr3 (PhysMapOffset + a) = None)) ∧
    (∀ i, 0 ≤ i < kp → maps4 (snd s') cr3 (KernelStart + i * 0x1000) (ks + i * 0x1000)) ∧
    (∀ v, v ∈ 0xfee00000 :: gop_pages gop → maps4 (snd s') cr3 v v) ∧
    (∀ v, 0 ≤ v < 2 ^ 47 → v mod 0x1000 = 0 → v ∉ 0xfee00000 :: gop_pages gop → translate 3 (snd s') cr3 v = None).
Proof using Hoff.
  intros Ho Hwf Hr Hs Hk0 Hk1 Hg Hlap HF. unfold stage1_maps. destruct (gop_pages_low gop Hg) as [Hlow Hnd].
  destruct (two_maps_ok s F mmap ks kp Ho Hwf Hr Hs Hk0 Hk1) as (om & km & s1 & s2 & s3 & s4 & F4 & -> & E2 & E3 & E4 & Ho4 & Hp4 & Hl4 & Hsee & Hker); [lia|].
  rewrite bind_ret, E2, bind_ret, E3, bind_ret, E4, bind_ret.
  destruct (first_lvl4_ok s4 F4 om km Ho4) as (g & root & s5 & F5 & -> & _ & _ & Ho5 & Hp5 & Hl5 & Htr5 & Hop5); [|lia|].
  { eapply frames_wf_perm; [|exact (frames_wf_drop _ _ _ Hwf)]. by rewrite app_nil_r. }
  rewrite bind_ret. assert (Hwf5 : frames_wf F5 (tables 3 (snd s5) root)).
  { eapply frames_wf_perm; [|exact (frames_wf_drop _ _ _ Hwf)]. by rewrite Hp5, Hp4, app_nil_r. }
  destruct kernel_indices as (I1 & I2 & _ & _).
  assert (Hlow5 : ∀ v, 0 ≤ v < 2 ^ 47 → translate 3 (snd s5) root v = None).
  { intros v Hv. pose proof (low_index v Hv). rewrite Htr5, !decide_False by lia. done. }
  destruct (map_gop_pages_ok root (gop_pages gop) s5 F5 Ho5 Hwf5 Hlow Hnd) as (s6 & F6 & E6 & Ho6 & Hwf6 & Hl6 & Hm6 & Hoth6 & Hko6); [|lia|].
  { intros v Hv. rewrite Forall_forall in Hlow. destruct (Hlow v Hv) as [? _]. split; [apply Hlow5; lia|apply Hop5, low_index; lia]. }
  destruct Hg as (Hg0 & Hgm & Hgs & Hgt). unfold map_gop, add_u64. rewrite (chk_ok u64_lim (gop_buffer gop + _)), bind_ret by (unfold u64_lim; lia).
  rewrite (chk_ok u64_lim (gop_buffer gop + _ + _)), bind_ret by (unfold u64_lim; lia). fold (gop_pages gop). rewrite E6, bind_ret.
  assert (Hlp : low_page 0xfee00000) by done. rewrite (Page_new_ok Size4KB 0xfee00000) by done. rewrite bind_ret. rewrite Forall_forall in Hlow.
  assert (Hne : ∀ v, v ∈ gop_pages gop → 0xfee00000 / 0x1000 ≠ v / 0x1000).
  { intros v Hv E. apply Hlap. by rewrite (aligned_page 0xfee00000 v (proj2 Hlp) (proj2 (Hlow v Hv)) E). }
  destruct (ident_page_ok root s6 F6 0xfee00000 Ho6 Hwf6 Hlp) as (s7 & F7 & E7 & Ho7 & Hwf7 & _ & Hm7 & Hoth7 & _); [|apply Hko6, Hop5, low_index; lia|lia|].
  { rewrite Hoth6 by (done || by apply low_virt). by apply Hlow5. }
  rewrite E7, bind_ret. exists g, root, s7, F7. split; [done|]. split; [done|]. split; [done|].
  assert (Hhigh : ∀ lo a, lo ∈ [PhysMapOffset; KernelStart] → 0 ≤ a < 2 ^ 39 → translate 3 (snd s7) root (lo + a) = translate 3 (snd s5) root (lo + a)).
  { intros lo a Hlo Ha. destruct (high_page lo a 0xfee00000 Hlo Ha Hlp) as [Hvok Hvn]. rewrite Hoth7, Hoth6; [done|done| |done|done].
    intros v Hv. by apply (high_page lo a v Hlo Ha), Hlow. }
  split_and!.
  - intros a Ha. assert (E : translate 3 (snd s7) root (PhysMapOffset + a) = kernel_only <$> translate 2 (snd s4) om (PhysMapOffset + a)).
    { rewrite Hhigh by (done || left). by rewrite Htr5, decide_True by (apply (index_slot _ a _ phys_slot I1 Ha)). }
    destruct (Hsee a Ha) as [H1 H2]. split; [|intros Hn; by rewrite E, H2].
    intros Hin. destruct (H1 Hin) as (P & e & Ht & Hl & Hrw & _ & Hadr). exists P, (kernel_only (base_of P, e)).2. by rewrite E, Ht.
  - intros i Hi. destruct (Hker i Hi) as (e & He & Hpr & Hl & Hrw & _ & Hadr). exists (kernel_only (O, e)).2. split; [|done]. assert (Ha : 0 ≤ i * 0x1000 < 2 ^ 39) by lia.
    rewrite Hhigh by (done || right; left). rewrite Htr5, decide_False, decide_True by (rewrite (index_slot _ _ _ kernel_slot I2 Ha); done). by rewrite He.
  - intros v [->|Hv]%elem_of_cons; [done|]. destruct (Hm6 v Hv) as (e & ? & ?). exists e. split; [|done].
    rewrite Hoth7; [done|by apply low_virt, Hlow|]. intros E. by apply (Hne v Hv).
  - intros v Hv Hvm [Hv1 Hv2]%not_elem_of_cons. assert (Hvok : virt_ok v) by (split; [unfold u64_lim; lia|left; lia]).
    rewrite Hoth7, Hoth6; [by apply Hlow5|done| |done|].
    + intros x Hx E. apply Hv2. by rewrite (aligned_page v x Hvm (proj2 (Hlow x Hx)) E).
    + intros E. apply Hv1. by apply (aligned_page v 0xfee00000 Hvm).
Qed.
End maps_correct.

(** A frame buffer of whole pages gets one page more than it has. *)
Lemma gop_one_more b n : 0 ≤ n → length (gop_pages (mkGop b (n * 0x1000))) = S (Z.to_nat n).
Proof.
  intros Hn. unfold gop_pages, step_range. cbn [gop_buffer gop_buffer_size]. rewrite length_fmap, length_seq.
  replace (b + n * 0x1000 + 0xFFF - b + 0xFFF) with ((n + 1) * 0x1000 + 0xFFE) by lia. rewrite Z.div_add_l, (Z.div_small 0xFFE) by lia. lia.
Qed.

Lemma zero_offset_ok : offset_ok 0.
Proof. unfold offset_ok, PHYS_TOP, u64_lim. lia. Qed.

(** *** A machine with 64 free frames, an image of four pages and a frame buffer of two *)
Section demo.
#[local] Instance stage_allocator : PageAllocator PageFrameAllocator := pfa_allocator 0.
#[local] Instance stage_allocator_spec : PageAllocatorSpec PageFrameAllocator := pfa_allocator_spec 0 zero_offset_ok.

Definition demo_gop : GopInfo := mkGop 0x80000000 0x2000.

Lemma stage1_maps_spec_witness :
  ∃ g cr3 s', stage1_maps 0 maps_world demo_mmap 0x200000 4 KernelStart demo_gop = Done (g, cr3, s') ∧
    sees (snd s') 3 cr3 0x2345678 ∧ maps4 (snd s') cr3 (KernelStart + 3 * 0x1000) (0x200000 + 3 * 0x1000) ∧
    maps4 (snd s') cr3 0xfee00000 0xfee00000 ∧ translate 3 (snd s') cr3 0 = None.
Proof.
  destruct (stage1_maps_spec 0 zero_offset_ok maps_world (range_frames 0x100000 64) demo_mmap 0x200000 4 demo_gop)
    as (g & cr3 & s' & F' & E & _ & _ & Hsee & Hk & Hi & Hn).
  - exact maps_owns.
  - split; [apply (bool_decide_unpack _); by vm_compute|]. rewrite app_nil_r. apply Forall_app. split; by apply range_frames_ok.
  - apply Forall_forall. intros r Hin. apply elem_of_cons in Hin as [->|[->|[]%elem_of_nil]%elem_of_cons]; apply (bool_decide_unpack _); by vm_compute.
  - repeat constructor; unfold before, region_end; cbn; lia.
  - lia.
  - lia.
  - apply (bool_decide_unpack _). by vm_compute.
  - apply (bool_decide_unpack _). by vm_compute.
  - apply (bool_decide_unpack _). by vm_compute.
  - exists g, cr3, s'. split; [exact E|]. split_and!.
    + apply (Hsee 0x2345678 ltac:(lia)). split; [lia|]. exists (mkMD true 0x1ff000 0x40204). split; [right; left|unfold region_end; cbn; lia].
    + apply (Hk 3). lia.
    + apply Hi. left.
    + apply Hn; [lia|reflexivity|]. apply (bool_decide_unpack _). by vm_compute.
Defined.
End demo.

(** From the memory map to the new tables. *)
Definition small_mmap : list MemoryDescriptor := [mkMD true 0x100000 0x80; mkMD false 0x200000 4].

Lemma main_stage1_runs : match main_stage1 (snd maps_world) small_mmap 0x200000 4 KernelStart demo_gop with
  | Done (_, cr3, offset, s) => bool_decide (offset = PhysMapOffset) && bool_decide (is_Some (translate 3 (snd s) cr3 (KernelStart + 0x3000)))
  | _ => false end = true.
Proof. by vm_compute. Qed.
