(* ===== verification/Init.v ===== *)
(** * The services the kernel starts, and the end of a panic

    [init] of [kernel/src/main.rs], which starts the services and becomes the name server, and
    the panic handler with its stack trace ([kernel/src/lib.rs]). *)
From S2P Require Import Prelude Page PhysMem AllocIface PageAlloc PageTable PageMapper Sched Ipc Syscall Loader Text Terminal Console Programs Cores Spawn.

(** ** The services

    What [init] does after the other cores run, as thread [t] of the first process: for each
    service a channel whose right end goes to the new process as its handle 1 (and is dropped
    here), while the left end is kept for the name server. *)
Section init.
Context (off : Z) (align_down align_up : Z → Z → outcome Z) (g : GlobalMaps) (apic : nat) (hpet : option (Z * nat)) (start : Z) (t : nat).
#[local] Instance init_allocator : PageAllocator PageFrameAllocator := pfa_allocator off.

(** [channel_create_rs]: the call with a place [sa] for the two handles. *)
Definition get_init (sa : Z) : sys (Z * Z) :=
  _ ← sys_channel_handler t 0 sa;
  p ← current_process t;
  u ← gets (λ w, w_user w p);
  mret (u_word u sa, u_word u (sa + 8)).

(** [KernelReference::drop]. *)
Definition drop_ref (id : Z) : sys unit := _ ← sys_reference_handler t 1 id 0; mret tt.

Definition start_service (sa : Z) : sys (Z * nat) :=
  '(l, r) ← get_init sa;
  p ← spawn_process off g apic hpet start t [] [r] true;
  _ ← drop_ref r;
  mret (l, p).

Definition start_program (sa : Z) (image : Image) (kernel : bool) : sys (Z * nat) :=
  '(l, r) ← get_init sa;
  res ← load_elf off align_down align_up g apic hpet start t image [] [r] kernel;
  p ← (match res with Ok p => mret p | Err _ => pure (Panic PUnwrap) end);
  _ ← on_k_ (λ k, drop_kernel_value k (VProcess p));
  _ ← drop_ref r;
  mret (l, p).

Fixpoint start_services (sa : Z) (n : nat) : sys (list (Z * nat)) :=
  match n with
  | O => mret []
  | S n => x ← start_service sa; xs ← start_services sa n; mret (x :: xs)
  end.

(** [check_interrupts], [elf_new_process_loader], [gop_entry], [userspace_networking_main],
    [testing_proc], [after_boot_pci] and [serial_monitor_stdin]; then the PS/2 driver and the
    terminal.  The left ends are the argument of [init_handle_new_proc]. *)
Definition init_services (sa : Z) (ps2_driver terminal_elf : Image) : sys (list (Z * nat)) :=
  services ← start_services sa 7;
  ps2 ← start_program sa ps2_driver true;
  terminal ← start_program sa terminal_elf false;
  mret (services ++ [ps2; terminal]).
End init.

(** *** The start, run

    The first process is 9 with thread 3; 1024 frames are free; the two programs have no
    segments. *)
Definition init_frames : alloc_world := (mkPFA (<[10%nat := Some 0x400000]> (replicate 19 None)) None true 1024, demo_mem).

Definition init_kernel : Kernel :=
  mkKernel (mkSD (λ _, mkThread 9 0 false None (mkSched Runnable None 0 false false)) None None) ∅ ∅ ∅ ∅
    {[ 9%nat := mkProc {[ 0 := 3%nat ]} 1 [] (mkRefs ∅ 1) NotExitedYet KObjectSignal_new ]} {[ 9%nat ]} [] 20 {[ 9%nat := 1%nat ]}.

Definition init_world : World :=
  match new_mmap (A := PageFrameAllocator) (init_frames, mkStore ∅ 0) 0xfee00000 0x1000 with
  | Done (_, v) => mkWorld init_kernel v ∅ (λ _, blank_user) 0
  | _ => demo_sys
  end.

Definition demo_elf : Image :=
  image_of (ehdr_bytes (mkEhdr ([0x7F; 69; 76; 70; 2; 1; 1] ++ replicate 9 0) ET_EXEC EM_X86_64 1 0x1000 64 0 0 64 56 0 0 0 0)).

(** Process [p] holds one end of a channel and nothing else, and process [init] the other
    end at [l]; each end is held once, and open. *)
Definition wired (w : World) (init : nat) (x : Z * nat) : Prop :=
  match k_procs (w_k w) !! init, k_procs (w_k w) !! x.2 with
  | Some i, Some p =>
      match references (p_refs i) !! x.1, references (p_refs p) !! 1 with
      | Some (VChannel a), Some (VChannel b) =>
          match k_chans (w_k w) !! a, k_chans (w_k w) !! b with
          | Some ca, Some cb =>
              dom (references (p_refs p)) = {[ 1 ]} ∧ peer ca = b ∧ peer cb = a ∧ ch_strong ca = 1%nat ∧ ch_strong cb = 1%nat ∧
              open (channel ca) = true ∧ open (channel cb) = true
          | _, _ => False
          end
      | _, _ => False
      end
  | _, _ => False
  end.

#[local] Instance wired_dec w init x : Decision (wired w init x).
Proof. unfold wired. repeat case_match; apply _. Defined.

(** All nine processes are started, in order, each with a channel to the name server as its
    only handle; [init] has kept the other ends and nothing else. *)
Theorem init_wires_services :
  match init_services PhysMapOffset (λ a _, Done a) (λ a _, Done a) demo_globals 0 None 0x1000 3 0x8000 demo_elf demo_elf init_world with
  | Done (Ok l, w) =>
      length l = 9%nat ∧ Forall (wired w 9) l ∧ Forall (λ x, x.2 ∈ PROCESSES (w_k w)) l ∧
      (λ y, dom (references (p_refs y))) <$> k_procs (w_k w) !! 9%nat = Some (list_to_set l.*1)
  | _ => False
  end.
Proof.
  match goal with |- match ?r with _ => _ end => set (run := r) end.
  assert (H : match run with
              | Done (Ok l, w) => bool_decide (length l = 9%nat ∧ Forall (wired w 9) l ∧ Forall (λ x, x.2 ∈ PROCESSES (w_k w)) l ∧
                  (λ y, dom (references (p_refs y))) <$> k_procs (w_k w) !! 9%nat = Some (list_to_set l.*1))
              | _ => false end = true) by (vm_compute; reflexivity).
  clearbody run. destruct run as [[[l|] w]| |]; [exact (proj1 (bool_decide_eq_true _) H)|discriminate H..].
Qed.

(** ** Panics *)

(** [{:#x}]. *)
Definition hex_digit (d : Z) : Z := if d <? 10 then 48 + d else 87 + d.
Fixpoint hex_digits (fuel : nat) (n : Z) : list Z :=
  match fuel with
  | O => []
  | S fuel => if n <? 16 then [hex_digit n] else hex_digits fuel (n / 16) ++ [hex_digit (n mod 16)]
  end.
Definition show_hex (n : Z) : list Z := text "0x" ++ hex_digits 16 n.

Section panic.
(** The memory the base pointer leads through, a word at a time. *)
Context (read : Z → Z).

Definition frame_line (depth rbp caller : Z) : list Z :=
  text "Frame " ++ Calc.show_digits 20 depth ++ text ": base pointer: " ++ show_hex rbp ++ text ", return address: " ++ show_hex caller ++ [LF].

(** The loop of [stack_trace]. *)
Fixpoint trace_loop (fuel : nat) (w : Writer) (depth rbp : Z) : outcome Writer :=
  match fuel with
  | O => OutOfFuel
  | S fuel =>
      a ← add_u64 rbp 8;
      w ← write_str w (frame_line depth rbp (read a));
      let rbp := read rbp in
      if rbp =? 0 then write_str w (text "Stack trace finished." ++ [LF])
      else if rbp <=? EndUserMem then write_str w (text "Stopping at user mode, base pointer: " ++ show_hex rbp ++ [LF])
      else trace_loop fuel w (depth + 1) rbp
  end.

Definition stack_trace (fuel : nat) (w : Writer) (rbp : Z) : outcome Writer :=
  w ← write_str w (text "Performing stack trace..." ++ [LF]);
  trace_loop fuel w 0 rbp.

(** What a panic comes to: the core halts with the message on the screen, or the thread is
    killed and the message logged. *)
Inductive panic_end := Halted (w : Writer) | KilledTask (message : list Z).

(** The panic handler; [info] is the text of the panic, [thread] that of the current task. *)
Definition panic (fuel : nat) (context : Z) (w : option Writer) (rbp : Z) (info thread : list Z) : outcome panic_end :=
  if context =? 0 then
    w ← unwrap w;
    w ← write_str w (text "KERNEL PANIC: " ++ info ++ [LF]);
    w ← redraw_if_needed w;
    w ← stack_trace fuel w rbp;
    w ← redraw_if_needed w;
    Done (Halted w)
  else Done (KilledTask (text "KERNEL PANIC: Caused by " ++ thread ++ [LF] ++ info)).

(** The frames from [rbp] on: each holds the next base pointer, the last one [last]. *)
Fixpoint frames_from (rbp : Z) (l : list Z) (last : Z) : Prop :=
  match l with
  | [] => rbp = last
  | b :: l => rbp = b ∧ EndUserMem < b < u64_lim - 8 ∧ frames_from (read b) l last
  end.

Fixpoint frame_lines (depth : Z) (l : list Z) : list Z :=
  match l with [] => [] | b :: l => frame_line depth b (read (b + 8)) ++ frame_lines (depth + 1) l end.

Definition last_line (last : Z) : list Z :=
  if last =? 0 then text "Stack trace finished." ++ [LF] else text "Stopping at user mode, base pointer: " ++ show_hex last ++ [LF].

Definition trace_text (l : list Z) (last : Z) : list Z :=
  (text "Performing stack trace..." ++ [LF]) ++ frame_lines 0 l ++ last_line last.

#[local] Opaque text write_str show_hex Calc.show_digits.

Lemma trace_loop_ok l : ∀ w depth rbp last fuel, l ≠ [] → frames_from rbp l last → 0 ≤ last ≤ EndUserMem → (length l ≤ fuel)%nat →
  trace_loop fuel w depth rbp = write_str w (frame_lines depth l ++ last_line last).
Proof using.
  induction l as [|b l IH]; intros w depth rbp last fuel Hne Hf Hl Hfuel; [done|]. destruct Hf as (-> & Hb & Hf). destruct fuel as [|fuel]; [cbn [length] in Hfuel; lia|].
  cbn [trace_loop frame_lines]. unfold add_u64. rewrite (chk_ok u64_lim) by (unfold EndUserMem in *; lia). rewrite bind_ret, <- (assoc_L (++)), (Stdout.write_str_app w).
  destruct (write_str w (frame_line depth b (read (b + 8)))) as [w1|p|]; cbn [mbind outcome_bind]; [|done|done]. destruct l as [|b' l].
  - cbn in Hf. rewrite Hf. cbn [frame_lines app]. unfold last_line. destruct (Z.eqb_spec last 0); [done|]. by rewrite (proj2 (Z.leb_le last EndUserMem)) by lia.
  - pose proof Hf as (Eb & Hb' & _). rewrite Eb. rewrite (proj2 (Z.eqb_neq b' 0)), (proj2 (Z.leb_gt b' EndUserMem)) by (unfold EndUserMem in *; lia).
    rewrite Eb in Hf. apply IH; [done|exact Hf|done|cbn [length] in *; lia].
Qed.

(** The stack trace ends when the chain of base pointers does, and shows every frame of it
    in order with its return address: with one round of the loop for each frame the screen
    is the one that writing the whole text gives. *)
Theorem stack_trace_spec w l last rbp :
  l ≠ [] → frames_from rbp l last → 0 ≤ last ≤ EndUserMem → stack_trace (length l) w rbp = write_str w (trace_text l last).
Proof using.
  intros Hne Hf Hl. unfold stack_trace, trace_text. set (hd := text _ ++ [LF]). rewrite (Stdout.write_str_app w hd).
  destruct (write_str w hd) as [w1|p|]; cbn [mbind outcome_bind]; [|reflexivity|reflexivity].
  apply trace_loop_ok; [exact Hne|exact Hf|exact Hl|reflexivity].
Qed.

(** A panic in the kernel proper halts the core with its message, and the frames, on the
    screen; a panic on behalf of a thread ends that thread only. *)
Theorem panic_spec w l last rbp context info thread :
  writer_ok w → l ≠ [] → frames_from rbp l last → 0 ≤ last ≤ EndUserMem →
  match panic (length l) context (Some w) rbp info thread with
  | Done (Halted w') => context = 0 ∧ ∃ w1 w2 w3, write_str w (text "KERNEL PANIC: " ++ info ++ [LF]) = Done w1 ∧ redraw_if_needed w1 = Done w2 ∧
      write_str w2 (trace_text l last) = Done w3 ∧ redraw_if_needed w3 = Done w'
  | Done (KilledTask m) => context ≠ 0 ∧ m = text "KERNEL PANIC: Caused by " ++ thread ++ [LF] ++ info
  | _ => False
  end.
Proof using.
  intros Hw Hne Hf Hl. unfold panic. destruct (Z.eqb_spec context 0) as [Hc|Hc]; [|done]. cbn [unwrap]. rewrite bind_ret.
  destruct (write_str_ok w (text "KERNEL PANIC: " ++ info ++ [LF]) Hw) as (w1 & E1 & Hw1). rewrite E1, bind_ret.
  destruct (redraw_ok w1 Hw1) as (w2 & E2 & Hw2 & _). rewrite E2, bind_ret, (stack_trace_spec w2 l last rbp Hne Hf Hl).
  destruct (write_str_ok w2 (trace_text l last) Hw2) as (w3 & E3 & Hw3). rewrite E3, bind_ret.
  destruct (redraw_ok w3 Hw3) as (w4 & E4 & _). rewrite E4, bind_ret. split; [done|]. by exists w1, w2, w3.
Qed.
End panic.
