(* ===== verification/Irqs.v ===== *)
(** * The INTERRUPTS service

    [check_interrupts] of [kernel/src/interrupts/mod.rs], through which a driver gets a handle
    that the interrupts of its device trigger, and the request a driver makes
    ([ps2/src/main.rs]).  Both run on the [World] of the system calls, the service as thread
    [t] of a process of the kernel. *)
From S2P Require Import Prelude Page PhysMem AllocIface PageAlloc PageTable PageMapper Sched Lock Ipc Syscall UserLib Apic Traps.

Section service.
Context (off start : Z) (t : nat).

(** [register_source] by the calling thread. *)
Definition register (srcs : Sources) (req : Z) : ulib (option Z * Sources) := λ w,
  match register_source (my_process t w) srcs w req with
  | Done (r, srcs, w) => Done (URet (match r with Some (id, _) => Some id | None => None end, srcs), w)
  | Panic r => Panic r
  | OutOfFuel => OutOfFuel
  end.

(** A round of the loop of a customer's thread: [handle] is the customer's channel, [sa] a
    place for the structures of the calls, [data] for the value, [handles] and [out] for the
    handles that come and go; [false] ends the thread.  The reference made for the reply is
    dropped at the end of the round. *)
Definition interrupts_turn (fuel : nat) (sa data handles out handle : Z) (srcs : Sources) : ulib (bool * Sources) :=
  '(res, _) ← UserLib.channel_read_val off start t fuel sa handle data 8 handles 1;
  match res with
  | ROk =>
      req ← get t (λ u, of_le_bytes (read_bytes u data 8));
      '(id, srcs) ← register srcs req;
      match id with
      | None => mret (false, srcs)
      | Some id =>
          _ ← put t (λ u, write_words u out [id]);
          _ ← UserLib.channel_write_rs off start t sa handle 0 0 out 1;
          _ ← UserLib.delete_reference off start t id;
          mret (true, srcs)
      end
  | RSize | RClosed => mret (false, srcs)
  | REmpty => upanic
  end.

(** [check_interrupts] for the next customer: the channel of its connection is the first
    handle of the message, and a thread with the loop above is started for it. *)
Definition accept_customer (fuel : nat) (sa data handles service : Z) : ulib Z :=
  '(res, _, n) ← UserLib.channel_read_rs off start t fuel sa service data 100 handles 1;
  match res with
  | ROk => if 0 <? n then get t (λ u, u_word u handles) else upanic
  | _ => upanic
  end.

(** [channel_write_val] of a [usize]. *)
Definition channel_write_usize (sa data handle v : Z) : ulib bool :=
  _ ← put t (λ u, write_bytes u data (le_bytes 8 v));
  UserLib.channel_write_rs off start t sa handle data 8 0 0.

(** What a driver does to get the handle for source [int]: it asks, and later takes the
    answer. *)
Definition ask_interrupt (sa data interrupts : Z) (int : nat) : ulib unit :=
  _ ← channel_write_usize sa data interrupts (Z.of_nat int); mret tt.

Definition take_interrupt (fuel : nat) (sa data handles interrupts : Z) : ulib Z :=
  '(res, _, n) ← UserLib.channel_read_rs off start t fuel sa interrupts data 100 handles 1;
  match res with
  | ROk => if 0 <? n then get t (λ u, u_word u handles) else upanic
  | _ => upanic
  end.
End service.

(** *** A driver gets its interrupts

    The driver is thread 3 of process 9, which has the channel as handle 1 and a port as
    handle 2; the service is thread 4 of process 10. *)
Definition driver_session (int : nat) : ulib (Z * Sources) :=
  _ ← ask_interrupt PhysMapOffset 0 3 0x7000 0x7100 1 int;
  '(more, srcs) ← interrupts_turn PhysMapOffset 0 4 1 0x7000 0x7100 0x7200 0x7300 1 INTERRUPT_SOURCES;
  _ ← uunwrap (if (more : bool) then Some tt else None);
  ev ← take_interrupt PhysMapOffset 0 3 1 0x7000 0x7100 0x7200 1;
  _ ← UserLib.interrupt_set_port PhysMapOffset 0 3 ev 2 42;
  mret (ev, srcs).

(** After the driver has asked, the service has answered and the driver has bound the handle
    to its port, the source has one handle; the service keeps no reference of its own, and
    the interrupt, raised, arrives at the port with the key the driver chose. *)
Theorem driver_hears_keyboard :
  match driver_session INT_KB demo_sys with
  | Done (URet (ev, srcs), w) =>
      match enable_apic (match init_idt IDT_new with Done i => i | _ => IDT_new end) (mkIoapic 0 (λ _, 0x10000)) with
      | Done (i, a) =>
          match raise_irq PhysMapOffset 0 i a 1 demo_core srcs w 3 (mkTrap 0 0 []) with
          | Some (Done (_, _, w')) =>
              bool_decide (length <$> srcs = [1; 0; 0; 0]%nat ∧ key <$> port_queue (w_k w') 5 = [42] ∧
              (λ p, dom (references (p_refs p))) <$> k_procs (w_k w') !! 10%nat = Some {[ 1 ]} ∧
              (λ p, dom (references (p_refs p))) <$> k_procs (w_k w') !! 9%nat = Some {[ 1; 2; ev ]})
          | _ => false
          end
      | _ => false
      end
  | _ => false
  end = true.
Proof. by vm_compute. Qed.

(** A number that names no source ends the customer's thread and registers nothing; the
    customer is left without an answer. *)
Theorem bad_source_unanswered :
  match (_ ← ask_interrupt PhysMapOffset 0 3 0x7000 0x7100 1 4; interrupts_turn PhysMapOffset 0 4 1 0x7000 0x7100 0x7200 0x7300 1 INTERRUPT_SOURCES) demo_sys with
  | Done (URet (more, srcs), w) =>
      bool_decide (more = false ∧ srcs = INTERRUPT_SOURCES) &&
      match take_interrupt PhysMapOffset 0 3 1 0x7000 0x7100 0x7200 1 w with Done (UBlock _, _) => true | _ => false end
  | _ => false
  end = true.
Proof. by vm_compute. Qed.
