(* ===== verification/Uefi.v ===== *)
(** * The boot loader and the firmware

    The part of the boot loader that talks to the firmware: [bootloader/src/lib.rs] (buffers
    of the firmware's pool and [BootInfo]), [fs.rs] (reading the kernel's file), [gop.rs]
    (choosing the screen mode) and [main.rs] (the order of it all, up to the jump into the
    kernel).  The services the UEFI crate gives are the operations of a class; what the
    firmware documents about them is a second class, which the theorems assume and a small
    firmware at the end satisfies.  Files and protocols are closed by the crate when their
    values go, which is not modelled. *)
From S2P Require Import Prelude Page PhysMem AllocIface PageAlloc PageTable Loader OffsetMap BootMaps Boot.

Inductive FileType := Regular | Dir.

(** What [get_info] can fail with, as far as the loader looks. *)
Inductive InfoError := BUFFER_TOO_SMALL | OtherStatus.

(** A mode of the screen: its resolution, stride and pixel format. *)
Record ModeInfo := mkMode { resolution : Z * Z; mode_stride : Z; mode_format : Z }.

(** ** The services of the UEFI crate *)
Class Uefi (U : Type) := {
  (** [allocate_pool(LOADER_DATA, size)] and [free_pool(ptr)] *)
  allocate_pool : U → Z → option (Z * U);
  free_pool : U → Z → option U;
  (** [open_protocol_exclusive::<LoadedImage>] and its [device()] *)
  open_loaded_image : U → Z → result (option Z) Z;
  (** [open_protocol_exclusive::<DevicePath>], [locate_device_path::<SimpleFileSystem>],
      [open_protocol_exclusive::<SimpleFileSystem>], [open_volume] *)
  open_device_path : U → Z → result Z Z;
  locate_device_path : U → Z → result Z Z;
  open_simple_fs : U → Z → result Z Z;
  open_volume : U → Z → result Z Z;
  (** [File::open] on a directory, [into_type], [get_info] with a buffer of a size, [read]
      with a buffer of a size *)
  open_file : U → Z → list Z → option (Z * U);
  into_type : U → Z → option FileType;
  get_info : U → Z → Z → result Z InfoError;
  read_handle : U → Z → Z → option (list Z * U);
  (** the graphics protocol: its modes, [set_mode], [current_mode_info] and the frame
      buffer's address and size *)
  open_gop : U → option U;
  gop_modes : U → list ModeInfo;
  set_mode : U → ModeInfo → option U;
  current_mode_info : U → ModeInfo;
  frame_buffer : U → Z * Z;
  (** [exit_boot_services]: the runtime table's address, and the memory map with its buffer
      and the size of its entries *)
  exit_boot_services : U → Z * (Z * Z * list MemoryDescriptor);
}.

Section loader.
Context {U : Type} `{BootServices U, Uefi U}.
Notation machine := (Machine (U := U)).

Definition fw (w : machine) : U := fst (bw w).
Definition with_fw (w : machine) (u : U) : machine := mkBoot (u, snd (bw w)) (bytes w).

(** ** Buffers *)

(** A slice in memory from the pool, as [OwnedBuffer] holds it. *)
Record OwnedBuffer := mkOwned { buf_ptr : Z; buf_len : Z }.

(** [get_buffer::<u8>]. *)
Definition get_buffer (w : machine) (length : Z) : outcome (OwnedBuffer * machine) :=
  '(ptr, u) ← unwrap (allocate_pool (fw w) length);
  Done (mkOwned ptr length, with_fw w u).

(** [Drop for OwnedBuffer]. *)
Definition drop_buffer (w : machine) (b : OwnedBuffer) : outcome machine :=
  u ← unwrap (free_pool (fw w) (buf_ptr b)); Done (with_fw w u).

(** [get_buffer_as_type] for a type of [size] bytes. *)
Definition get_buffer_as_type (w : machine) (size : Z) : outcome (Z * machine) :=
  '(ptr, u) ← unwrap (allocate_pool (fw w) size); Done (ptr, with_fw w u).

(** ** Files *)

(** [Result::and_then]; the [unwrap] in the first closure is the only panic. *)
Definition get_root_fs (w : machine) (image_handle : Z) : outcome (result Z Z) :=
  match open_loaded_image (fw w) image_handle with
  | Err e => Done (Err e)
  | Ok device =>
      device ← unwrap device;
      Done match open_device_path (fw w) device with
           | Err e => Err e
           | Ok device_path =>
               match locate_device_path (fw w) device_path with
               | Err e => Err e
               | Ok sfs_handle => match open_simple_fs (fw w) sfs_handle with Err e => Err e | Ok fs => open_volume (fw w) fs end
               end
           end
  end.

(** The two errors of [read_file]. *)
Inductive FileReadError := FileError | KernelIsDir.

(** [read_file_no_drop]; an error of [get_info] other than a short buffer ends in a loop that
    does nothing, for which the model has [OutOfFuel].  A short read is only logged. *)
Definition read_file_no_drop (w : machine) (root : Z) (path : list Z) : outcome (result OwnedBuffer FileReadError * machine) :=
  match open_file (fw w) root path with
  | None => Done (Err FileError, w)
  | Some (file, u) =>
      let w := with_fw w u in
      t ← unwrap (into_type (fw w) file);
      match t with
      | Dir => Done (Err KernelIsDir, w)
      | Regular =>
          '(info_buffer, w) ← get_buffer w 0x1000;
          match get_info (fw w) file (buf_len info_buffer) with
          | Err BUFFER_TOO_SMALL => Panic PUnreachable
          | Err OtherStatus => OutOfFuel
          | Ok file_size =>
              '(data_buffer, w) ← get_buffer w file_size;
              '(bs, u) ← unwrap (read_handle (fw w) file (buf_len data_buffer));
              let w := mkBoot (u, snd (bw w)) (store_bytes (bytes w) (buf_ptr data_buffer) bs) in
              w ← drop_buffer w info_buffer;
              Done (Ok data_buffer, w)
          end
      end
  end.

Definition read_file (w : machine) (root : Z) (path : list Z) : outcome (result OwnedBuffer FileReadError * machine) :=
  '(buf, w) ← read_file_no_drop w root path; Done (buf, w).

(** ** The screen *)
Definition mode_fits (mode : ModeInfo) : bool := (fst (resolution mode) <=? 1920) && (snd (resolution mode) <=? 1080).

Fixpoint best_mode (modes : list ModeInfo) (best : option ModeInfo) : option ModeInfo :=
  match modes with
  | [] => best
  | mode :: modes => best_mode modes (if mode_fits mode then Some mode else best)
  end.

Definition initialize_gop (w : machine) : outcome machine :=
  u ← unwrap (open_gop (fw w));
  match best_mode (gop_modes u) None with
  | Some mode => u ← unwrap (set_mode u mode); Done (with_fw w u)
  | None => Done (with_fw w u)
  end.

Record BootGop := mkBootGop { bg_buffer : Z; bg_buffer_size : Z; bg_horizonal : Z; bg_vertical : Z; bg_stride : Z; bg_pixel_format : Z }.

Definition get_gop_info (u : U) : BootGop :=
  let gopinfo := current_mode_info u in
  let gopbuf := frame_buffer u in
  mkBootGop (fst gopbuf) (snd gopbuf) (fst (resolution gopinfo)) (snd (resolution gopinfo)) (mode_stride gopinfo) (mode_format gopinfo).

(** ** From the entry to the kernel *)

(** [BootInfo]; the memory map is its buffer, the size of an entry and the entries. *)
Record BootInfo := mkBootInfo { uefi_runtime_table : Z; bi_gop : BootGop; mmap_raw : Z * Z * list MemoryDescriptor; bi_kernel : KernelInfo }.

(** [fioxa.elf] *)
Definition KERN_PATH : list Z := [102; 105; 111; 120; 97; 46; 101; 108; 102].

(** [load_system]: [root] is the active page table.  The buffer of the kernel's file is
    moved into [load_kernel], at whose end it is dropped. *)
Definition load_system (w : machine) (root image_handle : Z) : outcome (Z * KernelInfo * BootGop * machine) :=
  r ← get_root_fs w image_handle;
  root_fs ← (match r with Ok fs => Done fs | Err _ => Panic PUnwrap end);
  '(r, w) ← read_file w root_fs KERN_PATH;
  kernel_data ← (match r with Ok b => Done b | Err _ => Panic PUnwrap end);
  '(entry_point, info, w) ← load_kernel w root (λ o, bytes w (buf_ptr kernel_data + o));
  w ← drop_buffer w kernel_data;
  w ← initialize_gop w;
  Done (entry_point, info, get_gop_info (fw w), w).

(** What the kernel starts with: the stack pointer, before the zero is pushed, where to go,
    the address of the boot information (in RDI) and what it says, and the page table. *)
Record Handover := mkHandover { ho_rsp : Z; ho_rip : Z; ho_rdi : Z; ho_info : BootInfo; ho_cr3 : Z }.

(** [uefi_entry] from the new page table to the jump; [sort] is the crate's sort of the
    memory map and [info_size] the size of [BootInfo]. *)
Definition uefi_entry (sort : list MemoryDescriptor → list MemoryDescriptor) (info_size : Z) (w : machine) (cr3 image_handle : Z)
  : outcome (Handover * machine) :=
  '(map, s) ← clone_pml4 (bw w) cr3;
  let w := mkBoot s (bytes w) in
  '(stack, u) ← unwrap (allocate_pool (fw w) (0x1000 * 25));
  let w := mkBoot (u, snd (bw w)) (store_bytes (bytes w) stack (replicate (Z.to_nat (0x1000 * 25)) 0)) in
  '(boot_info, w) ← get_buffer_as_type w info_size;
  '(entry_point, info, gop, w) ← load_system w map image_handle;
  let '(runtime_table, (mmap_buf, desc_size, mmap)) := exit_boot_services (fw w) in
  Done (mkHandover (stack + 0x1000 * 25) entry_point boot_info (mkBootInfo runtime_table gop (mmap_buf, desc_size, sort mmap) info) map, w).
End loader.

(** ** The screen mode *)

(** The mode set is the last of the list that fits, whatever its size. *)
Lemma best_mode_spec l : ∀ best, best_mode l best = match last (filter (λ m, mode_fits m = true) l) with Some m => Some m | None => best end.
Proof.
  induction l as [|m l IH]; intros best; [done|]. cbn [best_mode]. rewrite IH, filter_cons.
  destruct (mode_fits m) eqn:E; [rewrite decide_True by done|by rewrite decide_False by done].
  rewrite last_cons. by destruct (last _).
Qed.

(** With a list that goes from large to small the smallest mode wins. *)
Lemma smallest_mode_chosen :
  resolution <$> best_mode [mkMode (2560, 1440) 2560 0; mkMode (1920, 1080) 1920 0; mkMode (640, 480) 640 0] None = Some (640, 480).
Proof. reflexivity. Qed.

(** ** What the firmware documents *)
Inductive Node := NFile (c : list Z) | NDir.

Definition apart (a b : Z * Z) : Prop := a.1 + a.2 ≤ b.1 ∨ b.1 + b.2 ≤ a.1.

Class UefiSpec (U : Type) `{Uefi U} := {
  (** the live buffers of the pool, and the requests it can still serve *)
  pool : U → list (Z * Z);
  can_serve : U → list Z → Prop;
  (** what a directory has under a name, what a fresh handle stands for, and how much room
      its information takes *)
  volume : U → Z → list Z → option Node;
  opened : U → Z → option Node;
  info_need : U → Z → Z;
  (** the files are as before *)
  same_files u u' := ∀ h, opened u' h = opened u h ∧ info_need u' h = info_need u h;
  (** the pool is as before *)
  same_pool u u' := pool u' = pool u ∧ ∀ l, can_serve u l → can_serve u' l;
  allocate_pool_spec u n l : can_serve u (n :: l) →
    ∃ p u', allocate_pool u n = Some (p, u') ∧ pool u' = (p, n) :: pool u ∧ Forall (apart (p, n)) (pool u) ∧ can_serve u' l ∧ same_files u u';
  free_pool_spec u l1 p n l2 : pool u = l1 ++ (p, n) :: l2 → 0 < n → Forall (apart (p, n)) (l1 ++ l2) → ∃ u', free_pool u p = Some u' ∧ pool u' = l1 ++ l2;
  open_file_spec u d path :
    match volume u d path with
    | None => open_file u d path = None
    | Some n => ∃ h u', open_file u d path = Some (h, u') ∧ opened u' h = Some n ∧ same_pool u u'
    end;
  into_type_spec u h n : opened u h = Some n → into_type u h = Some (match n with NFile _ => Regular | NDir => Dir end);
  get_info_spec u h c n : opened u h = Some (NFile c) → get_info u h n = if info_need u h <=? n then Ok (Z.of_nat (length c)) else Err BUFFER_TOO_SMALL;
  read_handle_spec u h c n : opened u h = Some (NFile c) → ∃ u', read_handle u h n = Some (take (Z.to_nat n) c, u') ∧ same_pool u u';
}.

Lemma bytes_at_store m p c : bytes_at (store_bytes m p c) p (Z.of_nat (length c)) = c.
Proof.
  apply (list_eq_same_length _ _ (length c)); [done|apply Nat2Z.inj; rewrite length_bytes_at; lia|].
  intros i x y Hi Hx Hy. rewrite <- (Nat2Z.id i) in Hx. apply list_lookup_total_correct in Hx. rewrite bytes_at_lookup, store_bytes_lookup, decide_True in Hx by lia.
  replace (Z.to_nat (p + Z.of_nat i - p)) with i in Hx by lia. apply list_lookup_total_correct in Hy. congruence.
Qed.

Section files.
Context {U : Type} `{BootServices U} {HU : Uefi U} {HUS : UefiSpec U}.

(** Reading a file gives a buffer of the pool with exactly the file's contents, and the only
    memory it keeps is that buffer: the one for the file's information is given back, and no
    other live buffer changes.  A missing name and a directory are errors that keep nothing. *)
Theorem boot_file_spec (w : Machine (U := U)) d path :
  match volume (fw w) d path with
  | None => read_file w d path = Done (Err FileError, w)
  | Some NDir => ∃ w', read_file w d path = Done (Err KernelIsDir, w') ∧ pool (fw w') = pool (fw w) ∧ bytes w' = bytes w
  | Some (NFile c) =>
      can_serve (fw w) [0x1000; Z.of_nat (length c)] → (∀ h u, open_file (fw w) d path = Some (h, u) → info_need u h ≤ 0x1000) →
      ∃ b w', read_file w d path = Done (Ok b, w') ∧ buf_len b = Z.of_nat (length c) ∧ bytes_at (bytes w') (buf_ptr b) (buf_len b) = c ∧
        pool (fw w') = (buf_ptr b, buf_len b) :: pool (fw w) ∧ snd (bw w') = snd (bw w) ∧
        (∀ p n a, (p, n) ∈ pool (fw w) → p ≤ a < p + n → bytes w' a = bytes w a)
  end.
Proof.
  pose proof (open_file_spec (fw w) d path) as Hopen. unfold read_file, read_file_no_drop. destruct (volume (fw w) d path) as [[c|]|]; cycle 1.
  - destruct Hopen as (h & u1 & -> & Ho & Hp1 & _). unfold fw, with_fw. cbn [bw fst snd bytes]. rewrite (into_type_spec u1 h _ Ho). cbn [unwrap mbind outcome_bind]. by eexists.
  - by rewrite Hopen.
  - destruct Hopen as (h & u1 & Eo & Ho & Hp1 & Hs1). intros Hserve Hinfo. specialize (Hinfo h u1 Eo). rewrite Eo. unfold get_buffer, fw, with_fw. cbn [bw fst snd bytes].
    rewrite (into_type_spec u1 h _ Ho). cbn [unwrap mbind outcome_bind].
    destruct (allocate_pool_spec u1 0x1000 _ (Hs1 _ Hserve)) as (pi & u2 & -> & Hp2 & Hd2 & Hs2 & Hf2). cbn [unwrap mbind outcome_bind bw fst snd bytes buf_len buf_ptr].
    destruct (Hf2 h) as [Ho2 Hi2]. rewrite Ho in Ho2. rewrite (get_info_spec u2 h c _ Ho2), Hi2, (proj2 (Z.leb_le _ _) Hinfo).
    destruct (allocate_pool_spec u2 _ _ Hs2) as (pd & u3 & -> & Hp3 & Hd3 & _ & Hf3). cbn [unwrap mbind outcome_bind bw fst snd bytes buf_len buf_ptr].
    destruct (Hf3 h) as [Ho3 _]. rewrite Ho2 in Ho3. destruct (read_handle_spec u3 h c (Z.of_nat (length c)) Ho3) as (u4 & -> & Hp4 & _).
    rewrite Nat2Z.id, firstn_all. cbn [unwrap mbind outcome_bind bw fst snd bytes buf_len buf_ptr]. unfold drop_buffer, fw, with_fw. cbn [bw fst snd bytes buf_ptr].
    destruct (free_pool_spec u4 [(pd, Z.of_nat (length c))] pi 0x1000 (pool (fst (bw w)))) as (u5 & -> & Hp5); [|lia| |].
    { rewrite Hp4, Hp3, Hp2, Hp1. done. }
    { rewrite Hp2 in Hd3. apply Forall_cons in Hd3 as [Hd3 _]. rewrite Hp1 in Hd2. constructor; [|done]. destruct Hd3; [by right|by left]. }
    eexists (mkOwned pd _), _. split; [done|]. cbn [bw fst snd bytes buf_len buf_ptr]. split; [done|]. split; [apply bytes_at_store|]. split; [exact Hp5|]. split; [done|].
    intros p n a Hin Ha. rewrite store_bytes_lookup, decide_False; [done|]. rewrite Hp2, Hp1 in Hd3. rewrite Forall_forall in Hd3.
    specialize (Hd3 (p, n)). destruct Hd3 as [Hd|Hd]; [by right|cbn in Hd; lia..].
Qed.
End files.

(** ** The memory map handed over *)

Definition by_address (r r' : MemoryDescriptor) : Prop := phys_start r ≤ phys_start r'.
#[export] Instance by_address_dec r r' : Decision (by_address r r') := decide (phys_start r ≤ phys_start r').

(** The crate's sort puts the descriptors in the order of their addresses; where they share
    no byte that is the order the kernel's maps need. *)
Lemma sorted_before (l : list MemoryDescriptor) :
  StronglySorted by_address l → Forall region_ok l →
  (∀ i j r r', l !! i = Some r → l !! j = Some r' → i ≠ j → BootMaps.before r r' ∨ BootMaps.before r' r) → StronglySorted BootMaps.before l.
Proof.
  induction 1 as [|r l Hl IH Hr]; intros Hok Hd; [constructor|]. apply Forall_cons in Hok as [Hrok Hok]. constructor.
  - apply IH; [done|]. intros i j x y Hi Hj Hne. apply (Hd (S i) (S j)); [done|done|lia].
  - rewrite Forall_forall in *. intros x Hx. pose proof Hx as [i Hi]%list_elem_of_lookup. specialize (Hr x Hx).
    destruct (Hd 0%nat (S i) r x) as [Hb|Hb]; [done|done|done|done|].
    destruct (Hok x Hx) as (_ & _ & Hc & _). unfold by_address, BootMaps.before, region_end in *. lia.
Qed.

(** The boot information holds every descriptor of the firmware's map, in an order in which
    [create_offset_map] maps them all ([Startup.stage1_maps_spec]). *)
Theorem handover_mmap_sorted {U} `{BootServices U, Uefi U} (sort : list MemoryDescriptor → list MemoryDescriptor) size (w w' : Machine (U := U)) cr3 image h :
  (∀ l, sort l ≡ₚ l) → (∀ l, StronglySorted by_address (sort l)) →
  uefi_entry sort size w cr3 image = Done (h, w') →
  let map := snd (snd (exit_boot_services (fw w'))) in
  let handed := snd (mmap_raw (ho_info h)) in
  Forall region_ok map → (∀ i j r r', map !! i = Some r → map !! j = Some r' → i ≠ j → BootMaps.before r r' ∨ BootMaps.before r' r) →
  handed ≡ₚ map ∧ Forall region_ok handed ∧ StronglySorted BootMaps.before handed.
Proof.
  intros Hperm Hsort E. cbn zeta. intros Hok Hd. assert (Hh : snd (mmap_raw (ho_info h)) = sort (snd (snd (exit_boot_services (fw w'))))).
  { unfold uefi_entry in E. apply bind_Done in E as ([map s] & _ & E). apply bind_Done in E as ([stack u] & _ & E).
    apply bind_Done in E as ([info w1] & _ & E). apply bind_Done in E as ([[[entry ki] gop] w2] & _ & E).
    destruct (exit_boot_services (fw w2)) as [rt [[mb ds] mm]] eqn:Ex. injection E as <- <-. cbn. by rewrite Ex. }
  rewrite Hh. specialize (Hperm (snd (snd (exit_boot_services (fw w'))))). set (l := sort _) in *.
  assert (Hok' : Forall region_ok l) by by rewrite Hperm. split; [done|]. split; [done|]. apply sorted_before; [apply Hsort|done|].
  intros i j r r' Hi Hj Hne. apply Permutation_inj in Hperm as (_ & f & Hf & Hl).
  apply (Hd (f i) (f j)); [by rewrite <- Hl|by rewrite <- Hl|]. intros Ef. by apply Hne, Hf.
Qed.

(** *** A firmware with a pool, a volume with the kernel on it and two screen modes *)
Record DemoFw := mkDemoFw { df_pages : Firmware; df_pool : list (Z * Z); df_next : Z; df_mode : ModeInfo }.

Definition demo_file : list Z := ehdr_bytes demo_kernel_hdr ++ phdr_bytes demo_kernel_ph ++ [0x90; 0x91; 0x92].
Definition demo_mode (x y : Z) : ModeInfo := mkMode (x, y) x 1.

#[export] Instance demo_fw_pages : BootServices DemoFw := {
  bs_allocate_pages u n := '(p, l) ← bs_allocate_pages (df_pages u) n; Some (p, mkDemoFw l (df_pool u) (df_next u) (df_mode u));
  bs_free_pages u f n := mkDemoFw (bs_free_pages (df_pages u) f n) (df_pool u) (df_next u) (df_mode u);
}.

Definition demo_volume (d : Z) (path : list Z) : option Node :=
  if bool_decide (path = KERN_PATH) then Some (NFile demo_file) else if bool_decide (path = [69; 70; 73]) then Some NDir else None.

(** Handle 1 is the file, handle 2 the directory. *)
Definition demo_opened (h : Z) : option Node := if h =? 1 then Some (NFile demo_file) else if h =? 2 then Some NDir else None.

(** Pool buffers are laid out one after the other, and freed by their address. *)
#[export] Instance demo_fw : Uefi DemoFw := {
  allocate_pool u n := if 0 <=? n then Some (df_next u, mkDemoFw (df_pages u) ((df_next u, n) :: df_pool u) (df_next u + n) (df_mode u)) else None;
  free_pool u p := match list_find (λ x, x.1 = p ∧ 0 < x.2) (df_pool u) with
                   | Some (i, _) => Some (mkDemoFw (df_pages u) (delete i (df_pool u)) (df_next u) (df_mode u)) | None => None end;
  open_loaded_image _ _ := Ok (Some 1);
  open_device_path _ d := Ok d;
  locate_device_path _ d := Ok d;
  open_simple_fs _ h := Ok h;
  open_volume _ h := Ok h;
  open_file u d path := (λ n, (match n with NFile _ => 1 | NDir => 2 end, u)) <$> demo_volume d path;
  into_type _ h := (λ n, match n with NFile _ => Regular | NDir => Dir end) <$> demo_opened h;
  get_info _ h n := match demo_opened h with
                    | Some (NFile c) => if 98 <=? n then Ok (Z.of_nat (length c)) else Err BUFFER_TOO_SMALL | _ => Err OtherStatus end;
  read_handle u h n := match demo_opened h with Some (NFile c) => Some (take (Z.to_nat n) c, u) | _ => None end;
  open_gop u := Some u;
  gop_modes _ := [demo_mode 1024 768; demo_mode 1920 1080; demo_mode 3840 2160];
  set_mode u m := Some (mkDemoFw (df_pages u) (df_pool u) (df_next u) m);
  current_mode_info u := df_mode u;
  frame_buffer u := (0x80000000, 4 * fst (resolution (df_mode u)) * snd (resolution (df_mode u)));
  exit_boot_services u := (0x7000000, (0x6000000, 48, [mkMD true 0x100000 0x100; mkMD false 0x1000 0x9f]));
}.

(** The sort of the crate, as the insertion of each descriptor. *)
Definition demo_sort : list MemoryDescriptor → list MemoryDescriptor := merge_sort by_address.

Definition demo_start : Machine (U := DemoFw) :=
  mkBoot (mkDemoFw (range_frames 0x10000 6) [] 0x40000000 (demo_mode 640 480), demo_mem) (λ _, 0xAA).

(** The kernel is entered on a stack of its own with the mode of 1920 by 1080 set and the
    map in order; of the pool only the stack and the boot information are still held. *)
Example boots : match uefi_entry demo_sort 104 demo_start 0x5000 1 with
  | Done (h, w) => bool_decide (ho_rip h = 0xffffff8000000000 ∧ ho_rsp h = 0x40000000 + 0x19000 ∧ ho_rdi h = 0x40019000 ∧
      (bg_horizonal (bi_gop (ho_info h)), bg_vertical (bi_gop (ho_info h))) = (1920, 1080) ∧
      phys_start <$> snd (mmap_raw (ho_info h)) = [0x1000; 0x100000] ∧
      df_pool (fw w) = [(0x40019000, 104); (0x40000000, 0x19000)] ∧
      bytes_at (bytes w) (kernel_start (bi_kernel (ho_info h))) 5 = [0x90; 0x91; 0x92; 0; 0])
  | _ => false end = true.
Proof. by vm_compute. Qed.

#[export] Instance demo_fw_spec : UefiSpec DemoFw.
Proof.
  refine {| pool := df_pool; can_serve := λ u l, Forall (λ n, 0 ≤ n) l ∧ Forall (λ x, x.1 + x.2 ≤ df_next u) (df_pool u);
            volume := λ _, demo_volume; opened := λ _, demo_opened; info_need := λ _ _, 98 |}.
  - intros u n l [Hl Hp]. apply Forall_cons in Hl as [Hn Hl]. eexists _, _. cbn. rewrite (proj2 (Z.leb_le 0 n) Hn). split_and!; [done|done| | | |done].
    + eapply Forall_impl; [exact Hp|]. intros x Hx. by right.
    + done.
    + constructor; [cbn; lia|]. eapply Forall_impl; [exact Hp|]. cbn. lia.
  - intros u l1 p n l2 Hp Hn Hd. cbn. rewrite Forall_forall in Hd.
    destruct (list_find _ (df_pool u)) as [[i y]|] eqn:E; cycle 1.
    { apply list_find_None in E. rewrite Hp, Forall_app, Forall_cons in E. destruct E as (_ & E & _). by destruct E. }
    eexists. split; [done|]. cbn. apply list_find_Some in E as (Hi & [Hy1 Hy2] & _). rewrite Hp in *.
    assert (i = length l1) as ->; [|apply delete_middle]. destruct (decide (i = length l1)) as [|Hne]; [done|].
    assert (y ∈ l1 ++ l2) as Hin.
    { apply lookup_app_Some in Hi as [Hi|[Hge Hi]]; apply elem_of_app; [left; by eapply list_elem_of_lookup_2|right].
      apply lookup_cons_Some in Hi as [[? _]|[_ Hi]]; [lia|by eapply list_elem_of_lookup_2]. }
    destruct (Hd y Hin) as [H|H]; cbn in H; lia.
  - intros u d path. cbn. unfold demo_volume. repeat case_bool_decide; [eexists _, _; split; [done|]; by cbn..|done].
  - intros u h n. cbn. by intros ->.
  - intros u h c n. cbn. by intros ->.
  - intros u h c n. cbn. intros ->. by eexists.
Defined.

Example read_kernel_file : ∃ b w', read_file demo_start 1 KERN_PATH = Done (Ok b, w') ∧ bytes_at (bytes w') (buf_ptr b) (buf_len b) = demo_file.
Proof.
  destruct (boot_file_spec demo_start 1 KERN_PATH) as (b & w' & E & _ & Hb & _).
  - split; [|constructor]. repeat constructor; lia.
  - intros h u _. cbn. lia.
  - by exists b, w'.
Qed.
