(* ===== verification/Builder.v ===== *)
(** * The image builder

    [builder/src/main.rs], the program of the development machine that builds every package,
    lays the executables out in the directory the virtual machine boots from, and starts it.
    [cargo] and [qemu] are parameters, as are the arguments and the environment; the file
    system is a map from paths to contents with a set of directories, on which copying fails
    when the source is missing or the directory of the target is.  What is only printed is
    left out. *)
From S2P Require Import Prelude.
#[local] Open Scope string_scope.
#[local] Open Scope list_scope.

(** ** The file system *)
Record Host := mkHost { files : gmap string (list Z); dirs : gset string }.

Definition slash : Ascii.ascii := Ascii.ascii_of_nat 47.

(** The directory part of a path: what is before the last slash. *)
Fixpoint dirname_chars (l : list Ascii.ascii) : option (list Ascii.ascii) :=
  match l with
  | [] => None
  | c :: l =>
      match dirname_chars l with
      | Some d => Some (c :: d)
      | None => if decide (c = slash) then Some [] else None
      end
  end.

Definition dirname (path : string) : string :=
  match dirname_chars (String.list_ascii_of_string path) with Some d => String.string_of_list_ascii d | None => "" end.

(** All the directories a path goes through, itself included. *)
Fixpoint prefixes_at_slash (done_ l : list Ascii.ascii) : list (list Ascii.ascii) :=
  match l with
  | [] => [done_]
  | c :: l => if decide (c = slash) then done_ :: prefixes_at_slash (done_ ++ [c]) l else prefixes_at_slash (done_ ++ [c]) l
  end.

Definition ancestors (path : string) : list string := String.string_of_list_ascii <$> prefixes_at_slash [] (String.list_ascii_of_string path).

(** A leading [./] says nothing. *)
Definition normal (path : string) : string := if String.prefix "./" path then String.substring 2 (String.length path - 2) path else path.

Definition exists_ (h : Host) (path : string) : bool := bool_decide (normal path ∈ dom (files h) ∨ normal path ∈ dirs h).

(** ** Errors *)
Inductive BuildErrors := NoOutput | MissingExec | BuildFailed | Incomplete.
Inductive QEMUErrors := MissingKVM | NoOVMF.

(** The errors with the context the program puts around them. *)
Inductive Error :=
  | Io
  | Build (e : BuildErrors)
  | Qemu (e : QEMUErrors)
  | Anyhow (m : string)
  | Context (m : string) (e : Error).

(** A step of the program: it may panic, or return an error. *)
Definition io (A : Type) : Type := Host → outcome (result A Error * Host).

#[export] Instance io_ret : MRet io := λ A a h, Done (Ok a, h).
#[export] Instance io_bind : MBind io := λ A B f m h,
  match m h with
  | Done (Ok a, h) => f a h
  | Done (Err e, h) => Done (Err e, h)
  | Panic r => Panic r
  | OutOfFuel => OutOfFuel
  end.

Definition fail {A} (e : Error) : io A := λ h, Done (Err e, h).
Definition context {A} (m : string) (x : io A) : io A := λ h,
  match x h with Done (Err e, h) => Done (Err (Context m e), h) | r => r end.

(** [fs::copy], [fs::create_dir], [DirBuilder::create] with [recursive]. *)
Definition copy (from to : string) : io unit := λ h,
  match files h !! from with
  | Some c => if bool_decide (dirname to ∈ dirs h) then Done (Ok tt, mkHost (<[to := c]> (files h)) (dirs h)) else Done (Err Io, h)
  | None => Done (Err Io, h)
  end.

Definition create_dir (path : string) : io unit := λ h,
  if exists_ h path || negb (bool_decide (dirname path ∈ dirs h)) then Done (Err Io, h) else Done (Ok tt, mkHost (files h) ({[path]} ∪ dirs h)).

Definition create_dir_all (path : string) : io unit := λ h,
  if existsb (λ d, bool_decide (d ∈ dom (files h))) (ancestors path) then Done (Err Io, h)
  else Done (Ok tt, mkHost (files h) (list_to_set (ancestors path) ∪ dirs h)).

(** ** The builder *)
Definition PURE_EFI_PATH : string := "ovmf/OVMF-pure-efi.fd".
Definition LOCAL_EFI_VARS : string := "ovmf/VARS.fd".
Definition SYSTEM_EFI_CODE : string := "/usr/share/OVMF/OVMF_CODE.fd".
Definition SYSTEM_EFI_VARS : string := "/usr/share/OVMF/OVMF_VARS.fd".

Definition TO_BUILD : list (string * string) :=
  [("bootloader", "EFI/BOOT/BOOTx64.efi"); ("test_elf", "elf.elf"); ("amd_pcnet", "amd_pcnet.driver"); ("calc", "calc.elf");
   ("net", "net.elf"); ("ps2", "ps2.driver"); ("terminal", "terminal.elf"); ("kernel", "fioxa.elf")].

(** The messages of [cargo build --message-format=json], as the builder tells them apart. *)
Inductive Message :=
  | CompilerMessage
  | CompilerArtifact (target : string) (executable : option string)
  | BuildFinished (success : bool)
  | OtherMessage.

Section builder.
(** [cargo build] with its arguments in the directory of a package: no process, no output, or
    the messages, [None] where one does not parse; and what it does to the files. *)
Context (cargo_build : string → list string → Host → option (option (list (option Message))) * Host).
(** [cargo clean]: no process, or whether it succeeded, [None] when waiting for it fails. *)
Context (cargo_clean : string → Host → option (option bool) * Host).
(** [qemu-system-x86_64]: no process, or whether waiting for it works. *)
Context (run_qemu : list string → Host → option bool * Host).
Context (args : list string) (OVMF : option string) (linux : bool).

Definition arg (a : string) : bool := existsb (String.eqb a) args.

(** The loop over the messages. *)
Fixpoint build_messages (name : string) (path : option string) (l : list (option Message)) : outcome (result string Error) :=
  match l with
  | [] => Done (Err (Build Incomplete))
  | m :: l =>
      m ← unwrap m;
      match m with
      | CompilerArtifact target executable => build_messages name (if String.eqb target name then executable else path) l
      | BuildFinished true => Done match path with Some exec => Ok exec | None => Err (Build MissingExec) end
      | BuildFinished false => Done (Err (Build BuildFailed))
      | CompilerMessage | OtherMessage => build_messages name path l
      end
  end.

Definition build (name : string) (release : bool) : io string := λ h,
  let cargo_args := ["build"; "--message-format=json-render-diagnostics"] ++ (if release then ["--release"] else []) in
  match cargo_build ("../" +:+ name) cargo_args h with
  | (None, h) => Done (Err (Context "Failed to builds" Io), h)
  | (Some None, h) => Done (Err (Build NoOutput), h)
  | (Some (Some l), h) => r ← build_messages name None l; Done (r, h)
  end.

Definition clean (name : string) : io unit := λ h,
  match cargo_clean ("../" +:+ name) h with
  | (None, h) => Done (Err (Context "Failed to clean" Io), h)
  | (Some None, h) => Done (Err Io, h)
  | (Some (Some true), h) => Done (Ok tt, h)
  | (Some (Some false), h) => Done (Err (Anyhow "Failed to clean"), h)
  end.

(** [/dev/kvm], on Linux. *)
Definition has_kvm (h : Host) : bool := linux && exists_ h "/dev/kvm".

Definition base_args : list string :=
  ["-s"; "-S"; "-machine"; "q35"; "-cpu"; "qemu64"; "-smp"; "cores=4"; "-m"; "512M"; "-serial"; "stdio"; "-netdev"; "user,id=mynet0";
   "-device"; "pcnet,netdev=mynet0,mac=00:11:22:33:44:55"; "-object"; "filter-dump,id=id,netdev=mynet0,file=fioxa.pcap"].

Definition get_host : io Host := λ h, Done (Ok h, h).

(** [PathBuf::push] of a name: a slash is put between unless there is one. *)
Definition path_push (path name : string) : string :=
  if bool_decide (path = "") then name
  else if bool_decide (last (String.list_ascii_of_string path) = Some slash) then path +:+ name else path +:+ "/" +:+ name.

(** The drives with the firmware, from the first place that has it. *)
Definition firmware_args : io (list string) :=
  h ← get_host;
  if exists_ h PURE_EFI_PATH then mret ["-drive"; "if=pflash,format=raw,file=" +:+ PURE_EFI_PATH]
  else match OVMF with
  | Some path =>
      _ ← (if exists_ h LOCAL_EFI_VARS then mret tt
           else context "Could not copy VARS.fd into local directory" (copy (path_push path "OVMF_VARS.fd") "ovmf/VARS.fd"));
      mret ["-drive"; "if=pflash,format=raw,readonly=on,file=" +:+ path +:+ "/OVMF_CODE.fd"; "-drive"; "if=pflash,format=raw,file=ovmf/VARS.fd"]
  | None =>
      if exists_ h SYSTEM_EFI_CODE && exists_ h SYSTEM_EFI_VARS then
        _ ← (if exists_ h LOCAL_EFI_VARS then mret tt
             else context "Could not copy VARS.fd into local directory" (copy SYSTEM_EFI_VARS "ovmf/VARS.fd"));
        if has_kvm h then
          mret ["-drive"; "if=pflash,format=raw,readonly=on,file=" +:+ SYSTEM_EFI_CODE; "-drive"; "if=pflash,format=raw,file=ovmf/VARS.fd"]
        else fail (Qemu MissingKVM)
      else fail (Qemu NoOVMF)
  end.

Definition spawn_qemu (qemu_args : list string) : io unit := λ h,
  match run_qemu qemu_args h with
  | (None, h) => Done (Err (Context "Failed to run qemu-system-x86_64" Io), h)
  | (Some waited, h) => if waited then Done (Ok tt, h) else Panic PUnwrap
  end.

Definition qemu : io unit :=
  h ← get_host;
  let kvm := if has_kvm h then ["-enable-kvm"] else [] in
  _ ← (if exists_ h "./ovmf" then mret tt else context "Could not create ovmf directory" (create_dir "ovmf"));
  drives ← firmware_args;
  spawn_qemu (base_args ++ kvm ++ drives ++ ["-drive"; "format=raw,file=fat:rw:fioxa"; "-drive"; "format=raw,file=fat:rw:src"]).

Fixpoint clean_all (l : list (string * string)) : io unit :=
  match l with [] => mret tt | (package, _) :: l => _ ← clean package; clean_all l end.

Fixpoint build_all (release : bool) (l : list (string * string)) : io unit :=
  match l with
  | [] => mret tt
  | (package, out) :: l =>
      exec_path ← context ("Failed to build " +:+ package) (build package release);
      _ ← context ("Failed to copy the output of " +:+ package +:+ " to fioxa/" +:+ out) (copy exec_path ("fioxa/" +:+ out));
      build_all release l
  end.

Definition main : io unit :=
  if arg "clean" then clean_all TO_BUILD
  else
    _ ← create_dir_all "fioxa/EFI/BOOT";
    _ ← copy "assets/startup.nsh" "fioxa/startup.nsh";
    _ ← copy "assets/zap-light16.psf" "fioxa/font.psf";
    _ ← build_all (arg "--release") TO_BUILD;
    if arg "qemu" then context "Failed to launch qemu" qemu else mret tt.
End builder.

(** ** The outcome of a build *)

(** What a message says of the executable of package [name]. *)
Definition artifact_of (name : string) (m : Message) : option (option string) :=
  match m with CompilerArtifact target e => if String.eqb target name then Some e else None | _ => None end.

Definition finished (m : Message) : bool := match m with BuildFinished _ => true | _ => false end.

(** The first message that the build is finished decides, and the executable is that of the
    last artifact of the package before it. *)
Theorem build_messages_spec name ok post pre : ∀ path, Forall (λ m, finished m = false) pre →
  build_messages name path ((Some <$> pre) ++ Some (BuildFinished ok) :: post) =
    Done (if ok then match default path (last (omap (artifact_of name) pre)) with Some exec => Ok exec | None => Err (Build MissingExec) end
          else Err (Build BuildFailed)).
Proof.
  induction pre as [|m pre IH]; intros path Hpre; [by destruct ok|]. apply Forall_cons in Hpre as [Hm Hpre].
  destruct m as [|target e| |]; cbn [fmap list_fmap app build_messages unwrap mbind outcome_bind omap list_omap artifact_of]; [by apply IH| |done|by apply IH].
  rewrite IH by done. destruct (String.eqb target name); [|done]. rewrite last_cons. by destruct (last _).
Qed.

(** Without that message the build is incomplete. *)
Lemma build_incomplete name l : ∀ path, Forall (λ m, finished m = false) l → build_messages name path (Some <$> l) = Done (Err (Build Incomplete)).
Proof. induction l as [|[] l IH]; intros path Hl; [done|..]; apply Forall_cons in Hl as [Hm Hl]; (discriminate Hm || by apply IH). Qed.

(** ** The image *)
Section image.
Context (cargo_build : string → list string → Host → option (option (list (option Message))) * Host).

(** A [cargo] that builds every package: it says where the executable is, leaves it there and
    keeps its hands off the image. *)
Context (exec : string → string) (program : string → list Z).

Definition in_image (q : string) : Prop := String.prefix "fioxa/" q = true.

Definition builds : Prop := ∀ name a h, ∃ h' pre,
  cargo_build ("../" +:+ name) a h = (Some (Some ((Some <$> pre) ++ [Some (BuildFinished true)])), h') ∧
  Forall (λ m, finished m = false) pre ∧ last (omap (artifact_of name) pre) = Some (Some (exec name)) ∧
  files h' !! exec name = Some (program name) ∧ (∀ q, in_image q → files h' !! q = files h !! q) ∧ dirs h ⊆ dirs h'.

Lemma build_ok name release h : builds →
  ∃ h', build cargo_build name release h = Done (Ok (exec name), h') ∧ files h' !! exec name = Some (program name) ∧
    (∀ q, in_image q → files h' !! q = files h !! q) ∧ dirs h ⊆ dirs h'.
Proof using.
  intros Hb. unfold build. cbv zeta. set (a := app _ _). destruct (Hb name a h) as (h' & pre & -> & Hpre & Hlast & He & Hi & Hd).
  rewrite build_messages_spec by done. rewrite Hlast. by exists h'.
Qed.

Lemma image_path o : in_image ("fioxa/" +:+ o).
Proof using. by destruct o. Qed.

Lemma build_all_ok release l : ∀ h, builds → NoDup l.*2 → (∀ x, x ∈ l → dirname ("fioxa/" +:+ x.2) ∈ dirs h) →
  ∃ h', build_all cargo_build release l h = Done (Ok tt, h') ∧ dirs h ⊆ dirs h' ∧
    (∀ p o, (p, o) ∈ l → files h' !! ("fioxa/" +:+ o) = Some (program p)) ∧
    (∀ q, in_image q → (∀ o, o ∈ l.*2 → q ≠ "fioxa/" +:+ o) → files h' !! q = files h !! q).
Proof using.
  induction l as [|[p o] l IH]; intros h Hb Hnd Hdir; [exists h; split_and!; [done|done|by intros ? ? ?%elem_of_nil|done]|].
  apply NoDup_cons in Hnd as [Ho Hnd]. cbn [build_all]. unfold mbind, io_bind, context.
  destruct (build_ok p release h Hb) as (h1 & -> & He & Hi1 & Hd1). unfold copy. rewrite He.
  rewrite bool_decide_true by (apply Hd1, (Hdir (p, o)); left).
  destruct (IH (mkHost (<["fioxa/" +:+ o := program p]> (files h1)) (dirs h1)) Hb Hnd) as (h2 & E2 & Hd2 & Hin2 & Hout2).
  { intros x Hx. apply Hd1, Hdir. by right. }
  exists h2. split; [exact E2|]. split; [set_solver|]. split.
  - intros p' o' [E|Hin]%elem_of_cons; [|by apply Hin2]. injection E as -> ->. rewrite Hout2; [apply lookup_insert_eq|apply image_path|].
    intros x Hx Ex. apply (inj (String.append "fioxa/")) in Ex. by subst.
  - intros q Hq Hne. rewrite Hout2; [|done|intros x Hx; apply Hne; by right]. cbn [files]. rewrite lookup_insert_ne; [by apply Hi1|].
    intros Eq. apply (Hne o); [left|done].
Qed.

(** When every package builds, the program puts each executable where the boot loader, the
    kernel and the shell look for it, with the start-up script and the font, and touches
    nothing else of the image. *)
Theorem image_is_complete (cargo_clean : string → Host → option (option bool) * Host) (run_qemu : list string → Host → option bool * Host) args OVMF linux h script font :
  builds → existsb (String.eqb "clean") args = false → existsb (String.eqb "qemu") args = false →
  files h !! "assets/startup.nsh" = Some script → files h !! "assets/zap-light16.psf" = Some font →
  Forall (λ d, d ∉ dom (files h)) (ancestors "fioxa/EFI/BOOT") →
  ∃ h', main cargo_build cargo_clean run_qemu args OVMF linux h = Done (Ok tt, h') ∧
    (∀ p o, (p, o) ∈ TO_BUILD → files h' !! ("fioxa/" +:+ o) = Some (program p)) ∧
    files h' !! "fioxa/startup.nsh" = Some script ∧ files h' !! "fioxa/font.psf" = Some font ∧
    (∀ q, in_image q → q ∉ ["fioxa/startup.nsh"; "fioxa/font.psf"] → (∀ o, o ∈ TO_BUILD.*2 → q ≠ "fioxa/" +:+ o) → files h' !! q = files h !! q).
Proof using.
  intros Hb Hc Hq Hs Hf Hfree. unfold main, arg. rewrite Hc, Hq. unfold mbind, io_bind, create_dir_all.
  destruct (existsb _ (ancestors _)) eqn:Ex.
  { apply existsb_exists in Ex as (d & Hd & Ed%bool_decide_eq_true). rewrite Forall_forall in Hfree. by apply list_elem_of_In, Hfree in Hd. }
  clear Ex. set (ds := list_to_set _ ∪ dirs h). assert (H0 : "fioxa" ∈ ds) by (apply elem_of_union_l, elem_of_list_to_set, (bool_decide_unpack _); by vm_compute).
  unfold copy at 1. cbn [files dirs]. rewrite Hs, bool_decide_true by exact H0.
  unfold copy at 1. cbn [files dirs]. rewrite lookup_insert_ne, Hf, bool_decide_true by (done || exact H0).
  match goal with |- context [build_all _ _ _ ?x] => set (h1 := x) end.
  destruct (build_all_ok (existsb (String.eqb "--release") args) TO_BUILD h1 Hb) as (h2 & -> & _ & Hin & Hout).
  { apply (bool_decide_unpack _). by vm_compute. }
  { intros x Hx. assert (dirname ("fioxa/" +:+ x.2) ∈ ["fioxa"; "fioxa/EFI/BOOT"]) as Hd.
    { revert x Hx. apply Forall_forall. apply (bool_decide_unpack _). by vm_compute. }
    cbn [dirs h1]. apply elem_of_union_l. apply elem_of_list_to_set. revert Hd. generalize (dirname ("fioxa/" +:+ x.2)). intros d [->|[->|[]%elem_of_nil]%elem_of_cons]%elem_of_cons; apply (bool_decide_unpack _); by vm_compute. }
  exists h2. split; [done|]. split; [exact Hin|]. split_and!.
  - rewrite Hout; [|done|apply Forall_forall; apply (bool_decide_unpack _); by vm_compute]. cbn [files h1]. rewrite lookup_insert_ne by done. apply lookup_insert_eq.
  - rewrite Hout; [|done|apply Forall_forall; apply (bool_decide_unpack _); by vm_compute]. apply lookup_insert_eq.
  - intros q Hqi Hqn Hqo. rewrite Hout by done. cbn [files h1]. rewrite !lookup_insert_ne by set_solver. done.
Qed.
End image.

(** The machine writes into its copy of the firmware's variables: a copy that exists is never
    replaced. *)
Theorem vars_kept OVMF linux h v r h' :
  files h !! LOCAL_EFI_VARS = Some v → firmware_args OVMF linux h = Done (r, h') → files h' = files h.
Proof.
  intros Hv E. assert (Hex : exists_ h LOCAL_EFI_VARS = true).
  { apply bool_decide_true. left. apply elem_of_dom. by exists v. }
  unfold firmware_args, get_host, mbind, io_bind, fail, mret, io_ret in E. rewrite Hex in E. repeat case_match; by simplify_eq.
Qed.

(** *** A [cargo] that builds everything at once *)
Definition demo_cargo (dir : string) (_ : list string) (h : Host) : option (option (list (option Message))) * Host :=
  match dir with
  | String.String _ (String.String _ (String.String _ name)) =>
      (Some (Some [Some CompilerMessage; Some (CompilerArtifact name (Some ("target/" +:+ name))); Some (BuildFinished true)]),
       mkHost (<["target/" +:+ name := [Z.of_nat (String.length name)]]> (files h)) (dirs h))
  | _ => (None, h)
  end.

Lemma demo_cargo_builds : builds demo_cargo (λ name, "target/" +:+ name) (λ name, [Z.of_nat (String.length name)]).
Proof.
  intros name a h. eexists _, [CompilerMessage; CompilerArtifact name (Some ("target/" +:+ name))]. split; [reflexivity|].
  split_and!; [by repeat constructor|by cbn; rewrite String.eqb_refl|apply lookup_insert_eq| |done].
  intros q Hq. cbn [files]. apply lookup_insert_ne. intros <-. done.
Qed.

Definition demo_host : Host := mkHost {["assets/startup.nsh" := [1]; "assets/zap-light16.psf" := [2]; "fioxa/notes" := [3]]} ∅.

Example demo_image : ∃ h', main demo_cargo (λ _ h, (Some (Some true), h)) (λ _ h, (Some true, h)) ["builder"; "--release"] None true demo_host = Done (Ok tt, h') ∧
  files h' !! "fioxa/fioxa.elf" = Some [6] ∧ files h' !! "fioxa/notes" = Some [3].
Proof.
  destruct (image_is_complete demo_cargo _ _ (λ _ h, (Some (Some true), h)) (λ _ h, (Some true, h)) ["builder"; "--release"] None true demo_host [1] [2] demo_cargo_builds)
    as (h' & E & Hp & _ & _ & Ho); [done|done|done|done|apply (bool_decide_unpack _); by vm_compute|].
  exists h'. split; [exact E|]. split; [apply (Hp "kernel" "fioxa.elf"); apply (bool_decide_unpack _); by vm_compute|].
  rewrite (Ho "fioxa/notes"); [done|done|apply (bool_decide_unpack _); by vm_compute|]. apply Forall_forall. apply (bool_decide_unpack _). by vm_compute.
Qed.
